(* ===== verification/_CoqProject ===== *)
-Q . S2P
Prelude.v
Text.v
Domain.v
Ambient.v
EngineState.v
Pots.v
Engine.v
EngineInv.v
Dealing.v
EngineRun.v
ShowdownEval.v
PassivePlay.v
EngineProps.v
LedgerStore.v
LedgerProps.v
AuditStore.v
Settlement.v
SettlementPlans.v
SettlementService.v
JsonRpc.v
AgentAuth.v
AgentAuthProps.v
EvmWallet.v
ChainWatcher.v
ChainWatcherProps.v
SettlementProps.v
Orchestrator.v
AutoSettlement.v
SettlementFlow.v
SeatCrypto.v
SeatCryptoProps.v
TableService.v
RoomLogic.v
RoomDemo.v
RoomProps.v
RoomTurns.v
GatewayTypes.v
GatewayLimits.v
GatewayHandlers.v
GatewayLimitsProps.v
EventBusProps.v
GatewayProps.v
RoomHandles.v
RoomService.v
RoomHandlesProps.v
RoomServiceProps.v
RoomRequests.v
SettlementRooms.v
RoomWalletProps.v
RoomAuth.v
AppSinks.v
AppSinksProps.v
AgentSdk.v
AgentClient.v
AgentRuntime.v
AgentRuntimeProps.v
OpsHttp.v
OpsHttpProps.v
OutboxProps.v
SeatClient.v
SeatClientProps.v
Postgres.v
LedgerPostgres.v
LedgerPostgresProps.v
AuditPostgres.v
AuditPostgresProps.v
SettlementRoomsProps.v
LocalDemo.v
LocalDemoProps.v
Startup.v
StartupProps.v
HeadlessClient.v
DomainJson.v
EventDelivery.v
Testing.v
GameTests.v
RoomTests.v
AppTests.v
ServiceTests.v
ClientTests.v
