(* ===== verification/Prelude.v ===== *)
(** * Verification of the Hold'em platform for agent players

    The platform lets programs play Texas Hold'em for chips on an EVM chain. Agents
    call a JSON-RPC gateway; the gateway checks their requests and hands them to the
    room service; each room is an actor that owns the engine state of one table; bets
    are paid by transactions that a chain watcher verifies; at a showdown the
    settlement pays the winners. This library models these parts as Rocq functions,
    file by file, and proves what they promise. Source paths below are under
    [src/crates/]. The definitions keep the names of the source; fields of a record
    carry a short prefix.

    ** How the code is modelled

    - A function that can fail returns [result E A]; a method that changes state is a
      computation [M S E A] = [S → S * result E A] (below), so that what an early
      return leaves behind is part of the model. [W] is the world of clocks,
      identifiers, stores and nodes that a component lives in; traits are type classes
      over [W] and no-op implementations are instances.
    - Machine integers are [N] with the bound written out where the code saturates,
      checks or wraps ([sat_add], [checked_add], [wrapping]: the arithmetic of a
      release build). Times are milliseconds. Strings are ASCII strings.
    - A [Mutex] is its content and its poison flag ([LedgerStore]). A [HashMap] is a
      [gmap]; where the code iterates over one, the order is [map_to_list]'s, and the
      theorems on pots hold for every order ([Pots]).
    - Tasks that interleave are step relations: [room_step] for an actor and its
      mailbox, [traffic_step] for the requests of the room service, each cut into the
      sections between which it holds no lock, with the turns of the rooms' actors and the
      commands that wait in their mailboxes, the critical sections of
      [insert_tx_binding], [desk_step] for the tasks of the event sink and the outbox
      publisher, the ticks of the settlement. A command to a room is put into its mailbox
      ([house_enqueue]) and taken out by a turn of the actor ([house_turn]). The theorems
      about one operation across service and rooms (a payment, a verdict, a settlement, a
      queued action: [server_step]) are on the schedule where the actor works off its
      mailbox before its sender goes on ([house_send]), one of the schedules of
      [traffic_step] ([request_runs_at_once]). [publish] of the bus delivers and drops the
      slow subscribers in one step, where the code lets go of the lock in between.
    - Loops are structural or bounded by what they consume: the layers of a pot by its
      contributions, [hand_out] by its remainder, the retries of a query by the policy,
      hexadecimal digits by 32 (128 bits), a room's mailbox by its capacity.

    ** Parts, files and correspondence

    - Vocabulary: [Text] (strings and JSON), [Ambient] (clock, identifiers),
      [Domain] (poker-domain/src), [DomainJson] (the values that serde derives for what is
      stored or published).
    - Engine (poker-engine/src): [EngineState] (state.rs), [Engine] and [Pots]
      (engine.rs); correctness in [EngineInv] (the specification [legal_move] and the
      invariant [engine_inv]), [Dealing], [EngineRun] (reachable states),
      [ShowdownEval], [PassivePlay] (the measure of a street), [EngineProps].
    - Stores: [LedgerStore] (ledger-store/src/lib.rs) with [LedgerProps]; [AuditStore]
      (audit-store/src/lib.rs). Over PostgreSQL: [Postgres] (the tables of
      migrations/*.sql, statements, transactions, faults), [LedgerPostgres]
      (ledger-store/src/lib.rs, and the room aggregates of ops-http/src/lib.rs),
      [AuditPostgres] (audit-store/src/lib.rs), with [LedgerPostgresProps] and
      [AuditPostgresProps].
    - Settlement: [Settlement], [SettlementService], [EvmWallet] (settlement/src/lib.rs)
      over [JsonRpc]; [Orchestrator] (app-server/src: showdown_settlement.rs,
      settlement_orchestrator.rs), [AutoSettlement] (auto_settlement.rs);
      [SettlementRooms] (room_settlement_wallet_adapter.rs, auto_settlement.rs) has the
      wallets of the rooms and puts the attempts over the service. Theorems in
      [SettlementPlans], [SettlementProps], [SettlementFlow], [RoomWalletProps],
      [SettlementRoomsProps].
    - Chain: [ChainWatcher] (chain-watcher/src/lib.rs) with [ChainWatcherProps].
    - Cards: [SeatCrypto] (seat-crypto/src/lib.rs) with [SeatCryptoProps].
    - Room (table-service/src/lib.rs): [TableService] is the actor, one handler per
      command; [RoomHandles] its handles, registry and tasks; [RoomLogic], [RoomProps],
      [RoomTurns], [RoomHandlesProps] its theorems; [RoomDemo] a concrete room. The
      bounded mailbox and the senders that wait for a place in it, in their order, are one
      list.
    - Gateway: [AgentAuth] (agent-auth/src/lib.rs), [GatewayTypes], [GatewayLimits],
      [GatewayHandlers] (rpc-gateway/src/lib.rs), with [AgentAuthProps], [GatewayProps],
      [GatewayLimitsProps], [EventBusProps].
    - Application (app-server/src): [RoomService] (room_service_port.rs,
      rpc_request_signature_verifier.rs), [AppSinks] (the five sinks and
      outbox_publisher.rs), with [RoomServiceProps] (requests one after the other),
      [RoomRequests] (requests side by side), [RoomAuth], [AppSinksProps],
      [OutboxProps]; [EventDelivery] composes sink, PostgreSQL, outbox, publisher and bus
      over the derived values.
    - Start: [Startup] (platform-core/src, observability/src, app-server/src/main.rs) with
      [StartupProps].
    - Administration: [OpsHttp] (ops-http/src/lib.rs, showdown_admin_repo.rs) with
      [OpsHttpProps].
    - Clients: [AgentSdk] (agent-sdk/src/lib.rs), [AgentClient] and [AgentRuntime]
      (headless-agent-client/src: policy_adapter.rs, wallet_adapter.rs, client.rs,
      runtime.rs) with [AgentRuntimeProps]; [SeatClient] (src/bin/single_seat_client.rs),
      the program of one seat and its loop, with [SeatClientProps]; [HeadlessClient]
      (main.rs, audit.rs) with its theorems; [LocalDemo]
      (src/bin/local_multi_bot_demo.rs) with [LocalDemoProps].
    - The repository's own tests, each a program over the model with its assertions:
      [GameTests] (poker-engine, settlement, showdown_settlement.rs,
      settlement_orchestrator.rs), [RoomTests] (seat-crypto, table-service, agent-auth,
      rpc-gateway), [AppTests] (the other files of app-server with the process in which
      they run, and integration_flows.rs), [ServiceTests] (poker-domain, the stores,
      chain-watcher, ops-http), [ClientTests] (agent-sdk, headless-agent-client,
      platform-core). [Testing] has a deck with the rules of poker for the parameters of
      the cards, and what assertions are.

    Interfaces between parts: [RoomActors] (what the service may ask of its rooms,
    implemented by [House] with the actor of [TableService]); [RoomServicePort] and
    [RequestSignatureVerifier] (gateway to application); [ChainTxRepository],
    [AuditRepository] and the other repositories; [SettlementWalletAdapter];
    [ShowdownInputProvider]; [WalletAdapter] and [PolicyAdapter] (client).

    ** What the theorems show

    - The hand: every reachable state is consistent (the board is that of the street, but
      for a showdown that all-in seats reach early, which keeps the cards it had), [apply_action] refines the legal
      moves, refused actions change nothing but a bet that overflowed, streets, blinds
      and deals follow the rules, the pot layers equal a reference peeling for every
      iteration order and conserve the chips, the best hands win; a hand without
      all-ins ends within one round of the table per street when nobody raises.
    - The room: it only ever plays the game of the engine, numbers its events without
      gaps, plays a paid action once, and folds a turn that nobody plays in time.
    - The way in: only requests in their window, with a fresh nonce and, but for the join,
      an accepted signature reach a room; a nonce is used up by the first request that
      gets to it; the legal actions listed are the ones the engine accepts; a signed message
      names one request; a seat acts by an address it was bound to, and that is the room's
      when its bindings did not overlap ([overlapping_binds_part_ways] when they do); what
      the service lets in and pays is what its rooms know, in the same sense; what the
      shipped client
      signs is accepted, and what it decides by its rule policy is read by the gateway
      as a legal move of the engine.
    - The money: plans conserve chips and account for the pot; nonces do not repeat; a
      room pays from its own account exactly what was asked; verdicts on transactions
      are exact and reach their room; a settlement, off the chain or
      by either wallet, closes the hand of its own room, once, and only with its plan in
      the ledger, and a tick of its loop does so room by room.
    - The way out: subscribers of the bus miss nothing; however the tasks that write a
      room's events into a database without faults and the publisher interleave, the bus
      gets the events of each batch that the log accepts once and in their order; a batch
      with an amount above 64 bits, or of a hand that the database does not have, is lost
      whole, and batches can overtake each other.
    - The stores: over PostgreSQL, ledger entries and hand events are written all or none
      whatever exchange with the server fails or loses its answer, hand events once and
      column by column as they are, entries are read back as they were given, and the
      chain repository answers as the one in memory does to records that fit its columns.
    - The seat's program: it attempts a turn once, plays only what it was offered, and
      leaves its loop only for an interrupt. The demonstration, over the actor of a room,
      reaches its showdown.
    - The start: where each value of the configuration comes from and how loading fails,
      and the tasks that a start leaves running.
    - The limits: rates and concurrent calls are bounded, permits are given back.
    - The tests: every test passes on the model but those that suppose other rules than the
      code has (that one ready seat starts a hand, that a seat may join at its room past
      the service). Of these each is shown with the assertion at which it fails
      ([stale_room_tests_fail], [stale_app_tests_fail], [stale_flow_tests_fail],
      [paid_action_outcomes]), and that many pass once the seats follow the rules. The
      suites show besides that the model computes what the code's authors expect of it.
    - Defects of the code are theorems too, among them: a raise of the shipped client
      is paid and then refused, an all-in seat can stall a street, folded seats stay
      folded, unconfirmed payouts are sent again on each tick, an orphaned pot layer
      blocks a settlement, a lost reply makes a seat pay twice, a hand number that
      repeats after a restart is refused by the database, one event above 64 bits loses
      its batch there.

    ** Parameters

    Code outside the repository is a parameter, with its documented behaviour as laws
    where a theorem needs it: the cards and ranks of [rs_poker] ([CardOps], [RankOps],
    [CardText]), HTTP ([JsonRpcTransport]), [EvmAbi], [Rlp], curves, ciphers and hashes
    ([Secp256k1], [SigningKeyBytes], [SeatCryptoPrimitives], AES-GCM), [HexDecode],
    serde's derived encodings ([RoomCodec], [EventCodec], [OpsRender], [ClientCodec],
    [SeatClientCodec], [BootstrapCodec], [HandKindCodec], [JsonText]; [DomainJson]
    instantiates [EventCodec], [HandKindCodec] and [Rendering] over [SerdeScalars], what
    serde_json does with a 128-bit number, a time and an identifier), chrono's text
    ([DateTimeText]), jsonrpsee's parameters ([ParamsParse]), [ParseUuid], [UuidText], clocks, identifiers, shuffles, spawned
    tasks and subprocesses ([CodexProcess]), the socket and the choices of [select!]
    ([WsPort]), files ([AppendFile], the reader and the TOML parser of [Startup]), the
    host that listens and spawns ([Host]). A PostgreSQL server is its tables, its clock and the faults that its
    next exchanges meet: a request that does not arrive, or an answer that is lost after the
    server has acted, the commit of a transaction included.
    Theorems with laws have a witness in which the parameters are concrete functions that satisfy them.

    ** Not modelled

    The order in which PostgreSQL lists rows that its query leaves unordered (here: of
    insertion), and the failure of sqlx to read a column; logging; the servers of axum
    and jsonrpsee beyond their routes and method tables; the async
    scheduler beyond the explicit steps; serde's reading of structs from arrays,
    floating-point JSON, white space outside ASCII, times below a millisecond, and
    the panic of [Duration::milliseconds] at [i64::MIN]. Of the tests, those that the
    source ignores because they need a node (anvil) or a JSON-RPC server, and the one that
    builds jsonrpsee's native module, and the one that prints the raw output of a
    subprocess; the script that another test of the client runs is the fixture [mock_cli].

    ** Plan

    Next: a server whose client programs, rooms and settlement loop run side by side. *)

From stdpp Require Import base tactics option list gmap strings sorting list_numbers.
From Stdlib Require Import NArith Lia.

Local Open Scope N_scope.

(** ** Results and the state-and-error monad *)

(** Rust's [Result<A, E>]. *)
Inductive result (E A : Type) : Type :=
| Ok (a : A)
| Err (e : E).
Arguments Ok {_ _} _.
Arguments Err {_ _} _.

Definition result_bind {E A B} (m : result E A) (k : A → result E B) : result E B :=
  match m with
  | Ok a => k a
  | Err e => Err e
  end.

#[export] Instance result_ret {E} : MRet (result E) := λ A a, Ok a.
#[export] Instance result_mbind {E} : MBind (result E) := λ A B k m, result_bind m k.

Definition result_map_err {E E' A} (f : E → E') (m : result E A) : result E' A :=
  match m with
  | Ok a => Ok a
  | Err e => Err (f e)
  end.

Definition ok_or {E A} (e : E) (o : option A) : result E A :=
  match o with
  | Some a => Ok a
  | None => Err e
  end.

(** [Result::unwrap_or]. *)
Definition unwrap_or {E A} (d : A) (m : result E A) : A :=
  match m with
  | Ok a => a
  | Err _ => d
  end.

(** [opt.map(f).transpose()] *)
Definition transpose {E A B} (f : A → result E B) (o : option A) : result E (option B) :=
  match o with
  | None => Ok None
  | Some a => result_bind (f a) (λ b, Ok (Some b))
  end.

(** Rust methods on [&mut self] that return [Result]: an error does not roll the
    state back, so the state is returned in both cases. *)
Definition M (S E A : Type) : Type := S → S * result E A.

Definition M_bind {S E A B} (m : M S E A) (k : A → M S E B) : M S E B :=
  λ s, match m s with
       | (s', Ok a) => k a s'
       | (s', Err e) => (s', Err e)
       end.

#[export] Instance M_ret {S E} : MRet (M S E) := λ A a s, (s, Ok a).
#[export] Instance M_mbind {S E} : MBind (M S E) := λ A B k m, M_bind m k.

Definition get {S E} : M S E S := λ s, (s, Ok s).
Definition modify {S E} (f : S → S) : M S E unit := λ s, (f s, Ok tt).
Definition throw {S E A} (e : E) : M S E A := λ s, (s, Err e).
Definition M_when {S E} (b : bool) (m : M S E unit) : M S E unit :=
  λ s, if b then m s else (s, Ok tt).
Definition lift_result {S E A} (r : result E A) : M S E A := λ s, (s, r).

(** [m.map_err(f)] *)
Definition M_map_err {S E E' A} (f : E → E') (m : M S E A) : M S E' A :=
  λ s, let '(s', r) := m s in (s', result_map_err f r).

(** [for x in l { f(x)?; }] *)
Fixpoint M_iter {S E X} (f : X → M S E unit) (l : list X) : M S E unit :=
  match l with
  | [] => mret tt
  | x :: l => f x ;; M_iter f l
  end.

(** ** Machine integers

    An unsigned [w]-bit integer is an [N]; each operation writes out what the
    source's method does at the bounds. *)
Definition u8_max : N := 255.
Definition u32_max : N := 4294967295.
Definition u64_max : N := 18446744073709551615.
Definition u128_max : N := 340282366920938463463374607431768211455.

Definition sat_add (mx a b : N) : N := N.min mx (a + b).
Definition sat_sub (a b : N) : N := a - b.
Definition sat_mul (mx a b : N) : N := N.min mx (a * b).
Definition checked_add (mx a b : N) : option N :=
  if a + b <=? mx then Some (a + b) else None.
Definition checked_sub (a b : N) : option N :=
  if b <=? a then Some (a - b) else None.
(** The operators [+], [*] on release builds: reduction modulo the width. *)
Definition wrapping (mx a : N) : N := a mod (mx + 1).

Lemma wrapping_small mx a : a ≤ mx → wrapping mx a = a.
Proof. intros H. unfold wrapping. apply N.mod_small. lia. Qed.

Lemma checked_add_Some mx a b c : checked_add mx a b = Some c ↔ a + b ≤ mx ∧ c = a + b.
Proof.
  unfold checked_add. destruct (N.leb_spec (a + b) mx); split; intros;
    destruct_and?; simplify_eq; try done; lia.
Qed.

Lemma checked_sub_Some a b c : checked_sub a b = Some c ↔ b ≤ a ∧ c = a - b.
Proof.
  unfold checked_sub. destruct (N.leb_spec b a); split; intros;
    destruct_and?; simplify_eq; try done; lia.
Qed.

(** ** Automation *)

Create HintDb holdem.

(** Splits the conditionals and matches of the goal and of the hypotheses,
    remembering the equations, and discards the impossible branches. *)
Ltac case_step :=
  match goal with
  | |- context [ if ?b then _ else _ ] => destruct b eqn:?
  | H : context [ if ?b then _ else _ ] |- _ => destruct b eqn:?
  | |- context [ match ?x with _ => _ end ] => destruct x eqn:?
  | H : context [ match ?x with _ => _ end ] |- _ => destruct x eqn:?
  end.
Ltac case_all := repeat (case_step; simplify_eq/=).

(** Runs a computation of [M] or [result] as far as its inputs allow. *)
Ltac mrun :=
  cbv beta iota zeta delta
    [mbind M_mbind mret M_ret M_bind get modify throw lift_result M_when
     M_map_err result_mbind result_bind result_ret result_map_err ok_or].
Tactic Notation "mrun" "in" hyp(H) :=
  cbv beta iota zeta delta
    [mbind M_mbind mret M_ret M_bind get modify throw lift_result M_when
     M_map_err result_mbind result_bind result_ret result_map_err ok_or] in H.

(** Turns boolean comparisons on [N] and [nat] into propositions. *)
Ltac boolify :=
  repeat match goal with
  | H : (_ =? _)%N = true |- _ => apply N.eqb_eq in H
  | H : (_ =? _)%N = false |- _ => apply N.eqb_neq in H
  | H : (_ <? _)%N = true |- _ => apply N.ltb_lt in H
  | H : (_ <? _)%N = false |- _ => apply N.ltb_ge in H
  | H : (_ <=? _)%N = true |- _ => apply N.leb_le in H
  | H : (_ <=? _)%N = false |- _ => apply N.leb_gt in H
  | H : (_ =? _)%nat = true |- _ => apply Nat.eqb_eq in H
  | H : (_ =? _)%nat = false |- _ => apply Nat.eqb_neq in H
  | H : (_ <? _)%nat = true |- _ => apply Nat.ltb_lt in H
  | H : (_ <? _)%nat = false |- _ => apply Nat.ltb_ge in H
  | H : (_ <=? _)%nat = true |- _ => apply Nat.leb_le in H
  | H : (_ <=? _)%nat = false |- _ => apply Nat.leb_gt in H
  | H : negb _ = true |- _ => apply negb_true_iff in H
  | H : negb _ = false |- _ => apply negb_false_iff in H
  | H : andb _ _ = true |- _ => apply andb_true_iff in H as [? ?]
  | H : orb _ _ = false |- _ => apply orb_false_iff in H as [? ?]
  | H : bool_decide _ = true |- _ => apply bool_decide_eq_true in H
  | H : bool_decide _ = false |- _ => apply bool_decide_eq_false in H
  end.

(** ** Sums of amounts *)

Fixpoint nsum (l : list N) : N :=
  match l with
  | [] => 0
  | x :: l => x + nsum l
  end.

Lemma nsum_app l1 l2 : nsum (l1 ++ l2) = nsum l1 + nsum l2.
Proof. induction l1 as [|x l1 IH]; cbn; lia. Qed.

Lemma nsum_perm l1 l2 : l1 ≡ₚ l2 → nsum l1 = nsum l2.
Proof. induction 1; cbn; lia. Qed.
#[export] Instance nsum_proper : Proper ((≡ₚ) ==> (=)) nsum.
Proof. intros ???. by apply nsum_perm. Qed.

Lemma nsum_elem_le x l : x ∈ l → x ≤ nsum l.
Proof. induction 1; cbn; lia. Qed.

Lemma nsum_map_add {X} (f g : X → N) l :
  nsum (map (λ x, f x + g x) l) = nsum (map f l) + nsum (map g l).
Proof. induction l as [|x l IH]; cbn; lia. Qed.

Lemma nsum_map_const {X} (c : N) (l : list X) :
  nsum (map (λ _, c) l) = c * N.of_nat (length l).
Proof. induction l as [|x l IH]; cbn -[N.of_nat]; lia. Qed.

Lemma nsum_map_ext {X} (f g : X → N) l :
  (∀ x, x ∈ l → f x = g x) → nsum (map f l) = nsum (map g l).
Proof.
  induction l as [|x l IH]; intros H; cbn; [done|].
  rewrite (H x) by constructor. rewrite IH; [done|]. intros y Hy. apply H. by constructor.
Qed.

(** Total of the values of a map, the sum over [HashMap::values]. *)
Definition msum {K} `{Countable K} (m : gmap K N) : N :=
  nsum (map snd (map_to_list m)).

Section msum.
Context {K : Type} `{Countable K}.
Implicit Types m : gmap K N.

Lemma msum_empty : msum (∅ : gmap K N) = 0.
Proof. unfold msum. by rewrite map_to_list_empty. Qed.

Lemma msum_insert_None m k v : m !! k = None → msum (<[k:=v]> m) = v + msum m.
Proof. intros Hk. unfold msum. by rewrite map_to_list_insert. Qed.

Lemma msum_delete m k v : m !! k = Some v → msum m = v + msum (delete k m).
Proof.
  intros Hk. rewrite <-(insert_delete_id m k v) at 1 by done.
  apply msum_insert_None. apply lookup_delete_eq.
Qed.

Lemma msum_insert m k v :
  msum (<[k:=v]> m) + default 0 (m !! k) = msum m + v.
Proof.
  destruct (m !! k) as [w|] eqn:Hk; cbn.
  - rewrite <-insert_delete_eq, msum_insert_None by apply lookup_delete_eq.
    rewrite (msum_delete m k w) by done. lia.
  - rewrite msum_insert_None by done. lia.
Qed.

Lemma msum_lookup_le m k : default 0 (m !! k) ≤ msum m.
Proof.
  destruct (m !! k) as [w|] eqn:Hk; cbn; [|lia].
  rewrite (msum_delete m k w) by done. lia.
Qed.
End msum.

(** ** Sorting

    [slice::sort_by] and [sort_by_key] are stable; [sort_unstable] is used on
    integers only, where stability cannot be observed. *)
Section sort_by.
Context {A : Type} (le : A → A → bool).

Fixpoint insert_by (x : A) (l : list A) : list A :=
  match l with
  | [] => [x]
  | y :: l' => if le x y then x :: y :: l' else y :: insert_by x l'
  end.

Fixpoint sort_by (l : list A) : list A :=
  match l with
  | [] => []
  | x :: l => insert_by x (sort_by l)
  end.

Lemma insert_by_perm x l : insert_by x l ≡ₚ x :: l.
Proof.
  induction l as [|y l IH]; cbn; [done|].
  destruct (le x y); [done|]. rewrite IH. apply Permutation_swap.
Qed.

Lemma sort_by_perm l : sort_by l ≡ₚ l.
Proof. induction l as [|x l IH]; cbn; [done|]. by rewrite insert_by_perm, IH. Qed.

Lemma sort_by_elem x l : x ∈ sort_by l ↔ x ∈ l.
Proof. by rewrite sort_by_perm. Qed.

Lemma sort_by_length l : length (sort_by l) = length l.
Proof. by rewrite sort_by_perm. Qed.

Lemma sort_by_NoDup l : NoDup l → NoDup (sort_by l).
Proof. by rewrite sort_by_perm. Qed.

Context (le_total : ∀ x y, le x y = true ∨ le y x = true).
Context (le_trans : ∀ x y z, le x y = true → le y z = true → le x z = true).

Lemma insert_by_sorted x l :
  StronglySorted (λ a b, le a b = true) l →
  StronglySorted (λ a b, le a b = true) (insert_by x l).
Proof.
  induction 1 as [|y l Hl IH Hy]; cbn; [repeat constructor|].
  destruct (le x y) eqn:Hxy.
  - constructor; [by constructor|]. constructor; [done|].
    eapply Forall_impl; [done|]. cbn. eauto.
  - constructor; [done|]. rewrite insert_by_perm. constructor; [|done].
    destruct (le_total x y); congruence.
Qed.

Lemma sort_by_sorted l : StronglySorted (λ a b, le a b = true) (sort_by l).
Proof. induction l; cbn; [constructor|]. by apply insert_by_sorted. Qed.
End sort_by.

Definition sort_by_key {A} (key : A → N) : list A → list A :=
  sort_by (λ x y, key x <=? key y).

(** [sort_unstable] on a vector of integers. *)
Definition sortN : list N → list N := sort_by N.leb.

Lemma sort_by_key_sorted {A} (key : A → N) l :
  StronglySorted (λ x y, key x ≤ key y) (sort_by_key key l).
Proof.
  eapply StronglySorted_ind with (R := λ a b, (key a <=? key b) = true).
  - constructor.
  - intros x l' _ IH Hx. constructor; [done|].
    eapply Forall_impl; [done|]. cbn. intros ? ?%N.leb_le. done.
  - apply sort_by_sorted.
    + intros x y. rewrite !N.leb_le. lia.
    + intros x y z. rewrite !N.leb_le. lia.
Qed.

Lemma sortN_sorted l : StronglySorted N.le (sortN l).
Proof. apply (sort_by_key_sorted id). Qed.

Lemma sortN_perm l : sortN l ≡ₚ l.
Proof. apply sort_by_perm. Qed.

(** Sorting integers forgets the order of the input: a vector collected from a
    [HashMap] or [HashSet] and then sorted does not depend on the iteration order. *)
Lemma sortN_proper_eq l1 l2 : l1 ≡ₚ l2 → sortN l1 = sortN l2.
Proof.
  intros H. eapply (StronglySorted_unique N.le); [apply sortN_sorted..|].
  by rewrite !sortN_perm.
Qed.
#[export] Instance sortN_proper : Proper ((≡ₚ) ==> (=)) sortN.
Proof. intros ???. by apply sortN_proper_eq. Qed.

Lemma sortN_elem x l : x ∈ sortN l ↔ x ∈ l.
Proof. apply sort_by_elem. Qed.

Lemma sortN_NoDup l : NoDup l → NoDup (sortN l).
Proof. apply sort_by_NoDup. Qed.

Lemma sortN_length l : length (sortN l) = length l.
Proof. apply sort_by_length. Qed.

(** The members of a [HashSet<u8>], collected and sorted. *)
Definition sorted_set (X : gset N) : list N := sortN (elements X).

Lemma sorted_set_elem x X : x ∈ sorted_set X ↔ x ∈ X.
Proof. unfold sorted_set. by rewrite sortN_elem, elem_of_elements. Qed.

Lemma sorted_set_NoDup X : NoDup (sorted_set X).
Proof. apply sortN_NoDup, NoDup_elements. Qed.

Lemma sorted_set_length X : length (sorted_set X) = size X.
Proof. unfold sorted_set. by rewrite sortN_length. Qed.

(** [Vec::dedup] on a sorted vector: runs of equal elements collapse to one. *)
Fixpoint dedup (l : list N) : list N :=
  match l with
  | [] => []
  | x :: l' => match dedup l' with
               | [] => [x]
               | y :: t => if x =? y then y :: t else x :: y :: t
               end
  end.

Lemma dedup_elem x l : x ∈ dedup l ↔ x ∈ l.
Proof.
  induction l as [|y l IH]; cbn; [done|].
  destruct (dedup l) as [|z t] eqn:Hd.
  - set_solver.
  - destruct (N.eqb_spec y z) as [->|]; set_solver.
Qed.

Lemma dedup_sorted l : StronglySorted N.le l → StronglySorted N.lt (dedup l).
Proof.
  induction 1 as [|x l Hl IH Hx]; cbn; [constructor|].
  destruct (dedup l) as [|y t] eqn:Hd; [repeat constructor|].
  destruct (N.eqb_spec x y) as [->|Hne]; [done|].
  assert (y ∈ l) as Hy by (apply dedup_elem; rewrite Hd; constructor).
  rewrite Forall_forall in Hx. specialize (Hx y Hy).
  constructor; [done|]. apply StronglySorted_inv in IH as [_ IH].
  constructor; [lia|]. eapply Forall_impl; [done|]. cbn. lia.
Qed.

Lemma sorted_lt_NoDup l : StronglySorted N.lt l → NoDup l.
Proof.
  induction 1 as [|x l Hl IH Hx]; constructor; [|done].
  rewrite Forall_forall in Hx. intros Hin. specialize (Hx x Hin). lia.
Qed.

(** [v.sort_unstable(); v.dedup();] *)
Definition sort_dedup (l : list N) : list N := dedup (sortN l).

Lemma sort_dedup_elem x l : x ∈ sort_dedup l ↔ x ∈ l.
Proof. unfold sort_dedup. by rewrite dedup_elem, sortN_elem. Qed.

Lemma sort_dedup_NoDup l : NoDup (sort_dedup l).
Proof. apply sorted_lt_NoDup, dedup_sorted, sortN_sorted. Qed.

Lemma sort_dedup_nil l : sort_dedup l = [] ↔ l = [].
Proof.
  split; [|by intros ->]. intros H. destruct l as [|x l]; [done|].
  assert (x ∈ sort_dedup (x :: l)) as Hx by (apply sort_dedup_elem; constructor).
  rewrite H in Hx. set_solver.
Qed.

#[export] Hint Resolve sort_dedup_NoDup sorted_set_NoDup : holdem.
