(* ===== verification/Text.v ===== *)
(** Strings as the code uses them: bytes with the methods of [str] on ASCII, the
    parsing of numbers ([from_str_radix]), the order of [String], and fields that
    are separated by a bar; and JSON values with their accessors ([serde_json::Value]). *)

From stdpp Require Import base tactics option list strings pretty.
From Stdlib Require Import NArith Lia Ascii OrdersEx ZArith.
From S2P Require Import Prelude.

Local Open Scope N_scope.

Fixpoint string_forall (P : ascii → bool) (s : string) : bool :=
  match s with
  | EmptyString => true
  | String c s => P c && string_forall P s
  end.

Lemma string_forall_impl (P Q : ascii → bool) s :
  (∀ c, P c = true → Q c = true) → string_forall P s = true → string_forall Q s = true.
Proof.
  intros HPQ. induction s as [|c s IH]; [done|]. cbn.
  intros [? ?]%andb_true_iff. apply andb_true_iff. auto.
Qed.

(** ** White space and case *)

Definition is_space (c : ascii) : bool :=
  let n := N_of_ascii c in (n =? 32) || ((9 <=? n) && (n <=? 13)).
Fixpoint trim_start (s : string) : string :=
  match s with
  | String c s' => if is_space c then trim_start s' else s
  | EmptyString => EmptyString
  end.
Fixpoint trim_end (s : string) : string :=
  match s with
  | EmptyString => EmptyString
  | String c s =>
      match trim_end s with
      | EmptyString => if is_space c then EmptyString else String c EmptyString
      | t => String c t
      end
  end.
(** [str::trim] on ASCII white space. *)
Definition trim (s : string) : string := trim_start (trim_end s).

(** [strip_prefix("0x")] *)
Definition strip_0x (s : string) : option string :=
  match s with
  | String "0" (String "x" rest) => Some rest
  | _ => None
  end.

Lemma trim_end_id s : string_forall (λ c, negb (is_space c)) s = true → trim_end s = s.
Proof.
  induction s as [|c s IH]; [done|]. cbn. intros [Hc Hs]%andb_true_iff.
  rewrite IH by done. destruct s; [|done]. by destruct (is_space c).
Qed.

Definition ascii_lower (c : ascii) : ascii :=
  if (65 <=? N_of_ascii c) && (N_of_ascii c <=? 90) then ascii_of_N (N_of_ascii c + 32) else c.
Fixpoint to_ascii_lowercase (s : string) : string :=
  match s with
  | EmptyString => EmptyString
  | String c s => String (ascii_lower c) (to_ascii_lowercase s)
  end.
Definition eq_ignore_ascii_case (a b : string) : bool :=
  String.eqb (to_ascii_lowercase a) (to_ascii_lowercase b).

(** ** Numbers *)

Definition invalid_digit : string := "invalid digit found in string".
Definition too_large : string := "number too large to fit in target type".
Definition empty_integer : string := "cannot parse integer from empty string".

Section Radix.
Context (radix : N) (to_digit : ascii → option N) (mx : N).

(** The checked loop: a bad digit is reported before the overflow. *)
Fixpoint radix_loop (acc : N) (s : string) : result string N :=
  match s with
  | EmptyString => Ok acc
  | String c s =>
      match to_digit c with
      | None => Err invalid_digit
      | Some d =>
          if acc * radix + d <=? mx then radix_loop (acc * radix + d) s else Err too_large
      end
  end.

(** [from_str_radix] of the unsigned types: one leading plus is allowed. *)
Definition from_str_radix (raw : string) : result string N :=
  match raw with
  | EmptyString => Err empty_integer
  | String c EmptyString =>
      if Ascii.eqb c "+" || Ascii.eqb c "-" then Err invalid_digit
      else radix_loop 0 raw
  | String c rest => if Ascii.eqb c "+" then radix_loop 0 rest else radix_loop 0 raw
  end.
End Radix.

(** [char::to_digit(10)] and [str::parse::<u128>]. *)
Definition dec_value (c : ascii) : option N :=
  let n := N_of_ascii c in if (48 <=? n) && (n <=? 57) then Some (n - 48) else None.
Definition parse_u128_dec : string → result string N := from_str_radix 10 dec_value u128_max.

(** ** The order of [String]: bytes, lexicographically *)

Definition string_lt (s t : string) : Prop := String_as_OT.lt s t.
Definition string_ltb (s t : string) : bool := String.ltb s t.

#[export] Instance string_lt_order : StrictOrder string_lt.
Proof. apply String_as_OT.lt_strorder. Qed.

Lemma string_lt_total s t : string_lt s t ∨ s = t ∨ string_lt t s.
Proof.
  destruct (String_as_OT.compare_spec s t) as [H|H|H]; [right; left|left|right; right]; done.
Qed.

(** ** Fields between bars *)

Definition no_bar : string → bool := string_forall (λ c, negb (Ascii.eqb c "|")).

Lemma split_at_bar a b x y :
  no_bar a = true → no_bar b = true →
  a +:+ String "|" x = b +:+ String "|" y → a = b ∧ x = y.
Proof.
  revert b. induction a as [|c a IH]; intros b Ha Hb; destruct b as [|d b]; cbn in *.
  - by intros [= ->].
  - intros [= <- _]. done.
  - intros [= -> _]. done.
  - apply andb_true_iff in Ha as [_ Ha], Hb as [_ Hb]. intros [= -> Hrest].
    by destruct (IH b Ha Hb Hrest) as [-> ->].
Qed.

Lemma pretty_N_go_no_bar x s : no_bar s = true → no_bar (pretty_N_go x s) = true.
Proof.
  revert s. induction (N.lt_wf_0 x) as [x _ IH]; intros s Hs.
  assert (x = 0 ∨ 0 < x) as [->|Hx] by lia; [by rewrite pretty_N_go_0|].
  rewrite pretty_N_go_step by done. apply IH; [by apply N.div_lt|].
  unfold no_bar in *. cbn [string_forall]. rewrite Hs, andb_true_r.
  unfold pretty_N_char. by repeat case_match.
Qed.

Lemma pretty_no_bar (n : N) : no_bar (pretty n) = true.
Proof.
  unfold pretty, pretty_N. case_decide; [done|]. by apply pretty_N_go_no_bar.
Qed.

Lemma pretty_Z_no_bar (z : Z) : no_bar (pretty z) = true.
Proof.
  destruct z as [|p|p]; [done|apply (pretty_no_bar (Npos p))|].
  change (no_bar ("-" +:+ pretty (Npos p)) = true). cbn. apply pretty_no_bar.
Qed.

Lemma pretty_N_go_nonempty x s : s ≠ EmptyString → pretty_N_go x s ≠ EmptyString.
Proof.
  revert s. induction (N.lt_wf_0 x) as [x _ IH]; intros s Hs.
  assert (x = 0 ∨ 0 < x) as [->|Hx] by lia; [by rewrite pretty_N_go_0|].
  rewrite pretty_N_go_step by done. apply IH; [by apply N.div_lt|done].
Qed.

Lemma pretty_nonempty (n : N) : pretty n ≠ EmptyString.
Proof.
  unfold pretty, pretty_N. case_decide as Hn; [done|].
  rewrite pretty_N_go_step by lia. by apply pretty_N_go_nonempty.
Qed.

(** The last bar of a text whose last field has none. *)
Lemma split_at_last_bar a b x y :
  no_bar a = true → no_bar b = true →
  x +:+ String "|" a = y +:+ String "|" b → x = y ∧ a = b.
Proof.
  intros Ha Hb. revert y. induction x as [|c x IH]; intros y; destruct y as [|d y]; cbn.
  - by intros [= ->].
  - intros [= <- ->]. exfalso. revert Ha. clear. unfold no_bar. induction y as [|c y IH]; cbn; [done|].
    intros [_ Ha]%andb_true_iff. auto.
  - intros [= -> <-]. exfalso. revert Hb. clear. unfold no_bar. induction x as [|c x IH]; cbn; [done|].
    intros [_ Ha]%andb_true_iff. auto.
  - intros [= -> Hrest]. by destruct (IH y Hrest) as [-> ->].
Qed.

Lemma list_byte_inj s t :
  String.list_byte_of_string s = String.list_byte_of_string t → s = t.
Proof.
  intros Heq. rewrite <-(String.string_of_list_byte_of_string s),
    <-(String.string_of_list_byte_of_string t). by rewrite Heq.
Qed.

Lemma append_assoc (s t u : string) : (s +:+ t) +:+ u = s +:+ (t +:+ u).
Proof. induction s as [|c s IH]; [done|]. exact (f_equal (String c) IH). Qed.

Lemma append_inj_l (s t u : string) : s +:+ t = s +:+ u → t = u.
Proof. induction s as [|c s IH]; cbn; [done|]. intros [= H]. auto. Qed.

Lemma no_bar_append s t : no_bar (s +:+ t) = no_bar s && no_bar t.
Proof.
  unfold no_bar. induction s as [|c s IH]; [done|].
  change (String c s +:+ t) with (String c (s +:+ t)). cbn [string_forall].
  by rewrite IH, andb_assoc.
Qed.

(** Texts of fields joined by bars, read from the left and from the right. *)
Lemma split_bar a b x y :
  no_bar a = true → no_bar b = true → a +:+ "|" +:+ x = b +:+ "|" +:+ y → a = b ∧ x = y.
Proof. exact (split_at_bar a b x y). Qed.

Lemma split_last_bar a b x y :
  no_bar a = true → no_bar b = true → x +:+ "|" +:+ a = y +:+ "|" +:+ b → x = y ∧ a = b.
Proof. exact (split_at_last_bar a b x y). Qed.

(** ** Parsing inverts decimal printing *)

Lemma dec_value_char d : d < 10 → dec_value (pretty_N_char d) = Some d.
Proof.
  intros Hd.
  assert (d ∈ map N.of_nat (seq 0 10)) as Hin.
  { apply list_elem_of_In, in_map_iff. exists (N.to_nat d). split; [lia|]. apply in_seq. lia. }
  cbn in Hin. repeat (apply elem_of_cons in Hin as [->|Hin]; [by vm_compute|]).
  by apply not_elem_of_nil in Hin.
Qed.

Lemma radix_loop_pretty mx x s :
  x ≤ mx → radix_loop 10 dec_value mx 0 (pretty_N_go x s) = radix_loop 10 dec_value mx x s.
Proof.
  revert s. induction (N.lt_wf_0 x) as [x _ IH]. intros s Hmx.
  assert (x = 0 ∨ 0 < x) as [->|Hx] by lia; [by rewrite pretty_N_go_0|].
  assert (x / 10 ≤ mx) by (transitivity x; [apply N.Div0.div_le_upper_bound; lia|done]).
  rewrite pretty_N_go_step, IH by (done || by apply N.div_lt). cbn [radix_loop].
  rewrite dec_value_char by (apply N.mod_lt; lia).
  replace (x / 10 * 10 + x mod 10) with x by (pose proof (N.div_mod x 10); lia).
  by rewrite (proj2 (N.leb_le _ _)).
Qed.

Lemma pretty_N_go_head x s :
  (∃ c r, s = String c r ∧ is_Some (dec_value c)) →
  ∃ c r, pretty_N_go x s = String c r ∧ is_Some (dec_value c).
Proof.
  revert s. induction (N.lt_wf_0 x) as [x _ IH]. intros s Hs.
  assert (x = 0 ∨ 0 < x) as [->|Hx] by lia; [by rewrite pretty_N_go_0|].
  rewrite pretty_N_go_step by done. apply IH; [by apply N.div_lt|].
  do 2 eexists. split; [done|]. rewrite dec_value_char by (apply N.mod_lt; lia). by eexists.
Qed.

(** A digit is no sign, so the reader is the loop over the digits. *)
Lemma from_str_radix_digit radix mx c r :
  is_Some (dec_value c) →
  from_str_radix radix dec_value mx (String c r) = radix_loop radix dec_value mx 0 (String c r).
Proof.
  intros Hc. unfold from_str_radix.
  destruct (Ascii.eqb_spec c "+") as [->|_]; [by destruct Hc|].
  destruct (Ascii.eqb_spec c "-") as [->|_]; [by destruct Hc|]. by destruct r.
Qed.

Lemma parse_pretty n : n ≤ u128_max → parse_u128_dec (pretty n) = Ok n.
Proof.
  intros Hn. unfold parse_u128_dec. destruct (decide (n = 0)) as [->|Hz]; [by vm_compute|].
  unfold pretty, pretty_N. rewrite decide_False by done.
  rewrite pretty_N_go_step by lia.
  edestruct (pretty_N_go_head (n / 10)) as (c & r & Heq & Hc).
  { do 2 eexists. split; [done|]. rewrite dec_value_char by (apply N.mod_lt; lia). by eexists. }
  rewrite Heq, from_str_radix_digit, <- Heq by done.
  rewrite <- pretty_N_go_step by lia. by rewrite radix_loop_pretty.
Qed.

(** [serde_json::Value]; the names of an object are distinct. *)
Inductive Json :=
| JNull
| JBool (b : bool)
| JNum (z : Z)
| JStr (s : string)
| JArr (l : list Json)
| JObj (fields : list (string * Json)).

Fixpoint assoc_field (k : string) (fields : list (string * Json)) : option Json :=
  match fields with
  | [] => None
  | (k', v) :: fields => if String.eqb k' k then Some v else assoc_field k fields
  end.

(** [Value::get], [as_str], [as_i64], [is_null] *)
Definition json_get (k : string) (j : Json) : option Json :=
  match j with JObj fields => assoc_field k fields | _ => None end.
Definition as_str (j : Json) : option string :=
  match j with JStr s => Some s | _ => None end.
Definition as_i64 (j : Json) : option Z :=
  match j with
  | JNum z => if ((-9223372036854775808 <=? z) && (z <=? 9223372036854775807))%Z
              then Some z else None
  | _ => None
  end.
Definition is_null (j : Json) : bool :=
  match j with JNull => true | _ => false end.

(** [json!(n)], [json!(opt)] *)
Definition json_N (n : N) : Json := JNum (Z.of_N n).
Definition json_opt {A} (f : A → Json) (o : option A) : Json :=
  match o with Some a => f a | None => JNull end.
