(* ===== verification/Domain.v ===== *)
(** The shared vocabulary of the platform (crate [poker-domain]): identifiers,
    amounts, streets, hand statuses, actions, hand events and audit events. *)

From stdpp Require Import base tactics option list strings.
From Stdlib Require Import NArith Lia.
From S2P Require Import Prelude.

Local Open Scope N_scope.

(** ** Identifiers

    Each identifier is a transparent wrapper around a [Uuid], a 128-bit number. *)
Abbreviation Uuid := N (only parsing).
Abbreviation AgentId := N (only parsing).
Abbreviation SessionId := N (only parsing).
Abbreviation RoomId := N (only parsing).
Abbreviation HandId := N (only parsing).
Abbreviation RequestId := N (only parsing).
Abbreviation TraceId := N (only parsing).
(** [SeatId] is a [u8], [ActionSeq] a [u32]. *)
Abbreviation SeatId := N (only parsing).
Abbreviation ActionSeq := N (only parsing).
(** [DateTime<Utc>], in milliseconds. *)
Abbreviation DateTime := N (only parsing).

(** ** Money *)
Abbreviation Chips := N (only parsing).

Inductive MoneyError := Overflow | Underflow.

Module ChipsOps.
Definition ZERO : Chips := 0.
Definition checked_add (self rhs : Chips) : result MoneyError Chips :=
  ok_or Overflow (Prelude.checked_add u128_max self rhs).
Definition checked_sub (self rhs : Chips) : result MoneyError Chips :=
  ok_or Underflow (Prelude.checked_sub self rhs).
End ChipsOps.

Inductive Street := Preflop | Flop | Turn | River | Showdown.

Inductive HandStatus :=
| HCreated | HRunning | HShowdown | HSettling | HSettled | HAborted.

#[export] Instance Street_eq_dec : EqDecision Street.
Proof. solve_decision. Defined.
#[export] Instance HandStatus_eq_dec : EqDecision HandStatus.
Proof. solve_decision. Defined.

Inductive ActionType := Fold | Check | Call | RaiseTo | AllIn.
#[export] Instance ActionType_eq_dec : EqDecision ActionType.
Proof. solve_decision. Defined.

Record PlayerAction := mkPlayerAction {
  pa_room_id : RoomId;
  pa_hand_id : HandId;
  pa_action_seq : ActionSeq;
  pa_seat_id : SeatId;
  pa_action_type : ActionType;
  pa_amount : option Chips;
}.

Record LegalAction := mkLegalAction {
  la_action_type : ActionType;
  la_min_amount : option Chips;
  la_max_amount : option Chips;
}.
#[export] Instance LegalAction_eq_dec : EqDecision LegalAction.
Proof. solve_decision. Defined.

Record HandSnapshot := mkHandSnapshot {
  hs_room_id : RoomId;
  hs_hand_id : HandId;
  hs_hand_no : N;
  hs_status : HandStatus;
  hs_street : Street;
  hs_board_cards : list N;
  hs_acting_seat_id : option SeatId;
  hs_next_action_seq : ActionSeq;
  hs_pot_total : Chips;
}.

Inductive DomainError :=
| InvalidRoomState | InvalidHandState | ActionIllegal | NotYourTurn.

(** ** Events *)
Inductive HandEventKind :=
| HandStarted
| TurnStarted (seat_id : SeatId)
| ActionAccepted (action : PlayerAction)
| StreetChanged (street : Street)
| PotUpdated (pot_total : Chips)
| HandClosed.

Record HandEvent := mkHandEvent {
  he_room_id : RoomId;
  he_hand_id : HandId;
  he_event_seq : N;
  he_trace_id : TraceId;
  he_occurred_at : DateTime;
  he_kind : HandEventKind;
}.

Inductive AuditBehaviorEventKind :=
| SeatJoined (seat_id : SeatId)
| SeatLeft (seat_id : SeatId)
| SeatAddressBound (seat_id : SeatId)
| SeatSessionKeysBound (seat_id : SeatId) (key_algo : string)
| TurnTimeoutAutoFold (seat_id : SeatId) (action_seq : N)
| ChainTxVerificationCallback (seat_id : option SeatId) (action_seq : option N)
    (tx_hash status : string) (confirmations : N) (failure_reason : option string).

(** ** Lemmas on the checked operations *)

Lemma chips_checked_add_Ok a b c :
  ChipsOps.checked_add a b = Ok c ↔ a + b ≤ u128_max ∧ c = a + b.
Proof.
  unfold ChipsOps.checked_add. rewrite <-checked_add_Some.
  destruct (Prelude.checked_add _ _ _); cbn; naive_solver.
Qed.

Lemma chips_checked_sub_Ok a b c :
  ChipsOps.checked_sub a b = Ok c ↔ b ≤ a ∧ c = a - b.
Proof.
  unfold ChipsOps.checked_sub. rewrite <-checked_sub_Some.
  destruct (Prelude.checked_sub _ _); cbn; naive_solver.
Qed.

(** [checked_sub(..).unwrap_or(Chips::ZERO)] is truncated subtraction. *)
Lemma chips_sub_or_zero a b : unwrap_or ChipsOps.ZERO (ChipsOps.checked_sub a b) = a - b.
Proof.
  unfold ChipsOps.checked_sub, Prelude.checked_sub, ChipsOps.ZERO.
  destruct (N.leb_spec b a); cbn; lia.
Qed.
