(* ===== verification/Ambient.v ===== *)
(** What the code takes from its surroundings: the time and fresh identifiers,
    and the patterns in which it drops an error. *)

From stdpp Require Import base tactics option list strings.
From Stdlib Require Import NArith Lia.
From S2P Require Import Prelude.
From S2P Require Import Text.
From S2P Require Import Domain.

Local Open Scope N_scope.

(** [Utc::now()]: the world tells the time. *)
Class Clock (W : Type) := { utc_now : W → DateTime }.

(** [Instant::now()] *)
Class MonotonicClock (W : Type) := { instant_now : W → N }.

(** [Uuid::now_v7()], and with it every [..Id::new()]. *)
Class FreshIds (W : Type) := { fresh_uuid : W → W * Uuid }.

(** The text of an identifier ([Uuid]'s [Display]). *)
Class UuidText := { uuid_text : Uuid → string }.

(** A hyphenated identifier: hexadecimal digits and hyphens. *)
Class UuidTextLaws `{UT : UuidText} : Prop := {
  uuid_text_inj : ∀ a b, uuid_text a = uuid_text b → a = b;
  uuid_text_no_bar : ∀ a, no_bar (uuid_text a) = true;
  uuid_text_nonempty : ∀ a, uuid_text a ≠ EmptyString;
}.

Definition now {W E} `{Clock W} : M W E DateTime := λ w, (w, Ok (utc_now w)).
Definition new_uuid {W E} `{FreshIds W} : M W E Uuid := λ w, let '(w, u) := fresh_uuid w in (w, Ok u).

(** [let _ = m.await;], [if let Err(err) = m.await { warn!(..) }] *)
Definition ignore_error {W E E' A} (m : M W E A) : M W E' unit := λ w, (fst (m w), Ok tt).

(** [for x in l { out.push(f(x)?); }] *)
Fixpoint M_map {S E A B} (f : A → M S E B) (l : list A) : M S E (list B) :=
  match l with
  | [] => mret []
  | x :: l =>
      y ← f x;
      ys ← M_map f l;
      mret (y :: ys)
  end.

Lemma ignore_error_ok {W E E' A} (m : M W E A) w :
  ignore_error (E':=E') m w = (fst (m w), Ok tt).
Proof. done. Qed.
