(* ===== verification/EngineState.v ===== *)
(** The state of one table's hand (file [crates/poker-engine/src/state.rs]).

    Cards and hand ranks belong to the [rs_poker] crate, which is not part of the
    repository: they are the parameters [CardOps] and [RankOps] of the model. *)

From stdpp Require Import base tactics option list gmap.
From Stdlib Require Import NArith Lia.
From S2P Require Import Prelude.
From S2P Require Import Domain.

Local Open Scope N_scope.

(** What the engine uses of [rs_poker::core::Card]: the conversions to and from
    the card's index [0 .. 51]. *)
Class CardOps := {
  Card : Type;
  card_to_u8 : Card → N;
  card_of_u8 : N → Card;
}.

(** What the engine uses of [rs_poker::core::Rankable]: the rank of a list of
    cards and the comparisons [>] and [==] on ranks. *)
Class RankOps `{CardOps} := {
  Rank : Type;
  rank : list Card → Rank;
  rank_gtb : Rank → Rank → bool;
  rank_eqb : Rank → Rank → bool;
}.

Section State.
Context `{CO : CardOps}.

Record HandState := mkHandState {
  h_hand_id : HandId;
  h_street : Street;
  h_next_action_seq : ActionSeq;
  h_acting_seat_id : option SeatId;
  h_seated_players : gset SeatId;
  h_folded_seats : gset SeatId;
  h_all_in_seats : gset SeatId;
}.

Record BettingRoundState := mkBettingRoundState {
  b_current_bet : Chips;
  b_min_raise_to : option Chips;
  b_acting_seat_id : option SeatId;
  b_player_bets : gmap SeatId Chips;
  b_acted_seats : gset SeatId;
}.

Record SidePot := mkSidePot {
  sp_amount : Chips;
  sp_eligible_seats : list SeatId;
}.

Record PotLayer := mkPotLayer {
  pl_amount : Chips;
  pl_eligible_seats : list SeatId;
  pl_is_main : bool;
}.

Record PotState := mkPotState {
  p_main_pot : Chips;
  p_side_pots : list SidePot;
  p_player_contributions : gmap SeatId Chips;
}.

Record DealingState := mkDealingState {
  d_undealt_deck : list Card;
  d_burn_cards : list Card;
  d_board_cards : list Card;
  d_hole_cards : gmap SeatId (Card * Card);
}.

Record EngineState := mkEngineState {
  snapshot : HandSnapshot;
  hand : HandState;
  betting_round : BettingRoundState;
  pot : PotState;
  dealing : option DealingState;
}.
End State.

(** ** Field updates

    One function per assignment form the engine uses: [set_f v s] is [s.f = v]. *)
Section Setters.
Context `{CO : CardOps}.
Implicit Types s : EngineState.

Definition with_snapshot (f : HandSnapshot → HandSnapshot) s :=
  mkEngineState (f (snapshot s)) (hand s) (betting_round s) (pot s) (dealing s).
Definition with_hand (f : HandState → HandState) s :=
  mkEngineState (snapshot s) (f (hand s)) (betting_round s) (pot s) (dealing s).
Definition with_round (f : BettingRoundState → BettingRoundState) s :=
  mkEngineState (snapshot s) (hand s) (f (betting_round s)) (pot s) (dealing s).
Definition with_pot (f : PotState → PotState) s :=
  mkEngineState (snapshot s) (hand s) (betting_round s) (f (pot s)) (dealing s).
Definition set_dealing v s :=
  mkEngineState (snapshot s) (hand s) (betting_round s) (pot s) v.

Definition set_snap_hand_id v := with_snapshot (λ x,
  mkHandSnapshot (hs_room_id x) v (hs_hand_no x) (hs_status x) (hs_street x)
    (hs_board_cards x) (hs_acting_seat_id x) (hs_next_action_seq x) (hs_pot_total x)).
Definition set_snap_hand_no v := with_snapshot (λ x,
  mkHandSnapshot (hs_room_id x) (hs_hand_id x) v (hs_status x) (hs_street x)
    (hs_board_cards x) (hs_acting_seat_id x) (hs_next_action_seq x) (hs_pot_total x)).
Definition set_snap_status v := with_snapshot (λ x,
  mkHandSnapshot (hs_room_id x) (hs_hand_id x) (hs_hand_no x) v (hs_street x)
    (hs_board_cards x) (hs_acting_seat_id x) (hs_next_action_seq x) (hs_pot_total x)).
Definition set_snap_street v := with_snapshot (λ x,
  mkHandSnapshot (hs_room_id x) (hs_hand_id x) (hs_hand_no x) (hs_status x) v
    (hs_board_cards x) (hs_acting_seat_id x) (hs_next_action_seq x) (hs_pot_total x)).
Definition set_snap_board v := with_snapshot (λ x,
  mkHandSnapshot (hs_room_id x) (hs_hand_id x) (hs_hand_no x) (hs_status x)
    (hs_street x) v (hs_acting_seat_id x) (hs_next_action_seq x) (hs_pot_total x)).
Definition set_snap_acting v := with_snapshot (λ x,
  mkHandSnapshot (hs_room_id x) (hs_hand_id x) (hs_hand_no x) (hs_status x)
    (hs_street x) (hs_board_cards x) v (hs_next_action_seq x) (hs_pot_total x)).
Definition set_snap_next_action_seq v := with_snapshot (λ x,
  mkHandSnapshot (hs_room_id x) (hs_hand_id x) (hs_hand_no x) (hs_status x)
    (hs_street x) (hs_board_cards x) (hs_acting_seat_id x) v (hs_pot_total x)).
Definition set_snap_pot_total v := with_snapshot (λ x,
  mkHandSnapshot (hs_room_id x) (hs_hand_id x) (hs_hand_no x) (hs_status x)
    (hs_street x) (hs_board_cards x) (hs_acting_seat_id x) (hs_next_action_seq x) v).

Definition set_hand_hand_id v := with_hand (λ x,
  mkHandState v (h_street x) (h_next_action_seq x) (h_acting_seat_id x)
    (h_seated_players x) (h_folded_seats x) (h_all_in_seats x)).
Definition set_hand_street v := with_hand (λ x,
  mkHandState (h_hand_id x) v (h_next_action_seq x) (h_acting_seat_id x)
    (h_seated_players x) (h_folded_seats x) (h_all_in_seats x)).
Definition set_hand_next_action_seq v := with_hand (λ x,
  mkHandState (h_hand_id x) (h_street x) v (h_acting_seat_id x)
    (h_seated_players x) (h_folded_seats x) (h_all_in_seats x)).
Definition set_hand_acting v := with_hand (λ x,
  mkHandState (h_hand_id x) (h_street x) (h_next_action_seq x) v
    (h_seated_players x) (h_folded_seats x) (h_all_in_seats x)).
Definition set_hand_seated v := with_hand (λ x,
  mkHandState (h_hand_id x) (h_street x) (h_next_action_seq x) (h_acting_seat_id x)
    v (h_folded_seats x) (h_all_in_seats x)).
Definition set_hand_folded v := with_hand (λ x,
  mkHandState (h_hand_id x) (h_street x) (h_next_action_seq x) (h_acting_seat_id x)
    (h_seated_players x) v (h_all_in_seats x)).
Definition set_hand_all_in v := with_hand (λ x,
  mkHandState (h_hand_id x) (h_street x) (h_next_action_seq x) (h_acting_seat_id x)
    (h_seated_players x) (h_folded_seats x) v).

Definition set_round_current_bet v := with_round (λ x,
  mkBettingRoundState v (b_min_raise_to x) (b_acting_seat_id x) (b_player_bets x)
    (b_acted_seats x)).
Definition set_round_min_raise_to v := with_round (λ x,
  mkBettingRoundState (b_current_bet x) v (b_acting_seat_id x) (b_player_bets x)
    (b_acted_seats x)).
Definition set_round_acting v := with_round (λ x,
  mkBettingRoundState (b_current_bet x) (b_min_raise_to x) v (b_player_bets x)
    (b_acted_seats x)).
Definition set_round_bets v := with_round (λ x,
  mkBettingRoundState (b_current_bet x) (b_min_raise_to x) (b_acting_seat_id x) v
    (b_acted_seats x)).
Definition set_round_acted v := with_round (λ x,
  mkBettingRoundState (b_current_bet x) (b_min_raise_to x) (b_acting_seat_id x)
    (b_player_bets x) v).

Definition set_pot_main v := with_pot (λ x,
  mkPotState v (p_side_pots x) (p_player_contributions x)).
Definition set_pot_side v := with_pot (λ x,
  mkPotState (p_main_pot x) v (p_player_contributions x)).
Definition set_pot_contributions v := with_pot (λ x,
  mkPotState (p_main_pot x) (p_side_pots x) v).

(** The three copies of the acting seat are always assigned together. *)
Definition set_acting (v : option SeatId) s :=
  set_round_acting v (set_hand_acting v (set_snap_acting v s)).
End Setters.

(** ** Operations of [EngineState] *)
Section Operations.
Context `{CO : CardOps}.

(** [hand_id] is the fresh identifier drawn by [HandId::new()]. *)
Definition EngineState_new (room_id : RoomId) (hand_no : N) (hand_id : HandId) : EngineState :=
  mkEngineState
    (mkHandSnapshot room_id hand_id hand_no HCreated Preflop [] None 1 ChipsOps.ZERO)
    (mkHandState hand_id Preflop 1 None ∅ ∅ ∅)
    (mkBettingRoundState ChipsOps.ZERO None None ∅ ∅)
    (mkPotState ChipsOps.ZERO [] ∅)
    None.

Definition start (acting_seat_id : SeatId) (s : EngineState) : EngineState :=
  let s := set_snap_status HRunning s in
  let s := set_acting (Some acting_seat_id) s in
  let s := set_round_acted ∅ s in
  let s := set_hand_folded ∅ s in
  let s := set_hand_all_in ∅ s in
  let s := set_dealing None s in
  set_hand_seated ({[acting_seat_id]} ∪ h_seated_players (hand s)) s.

Definition seat_player (seat_id : SeatId) (s : EngineState) : EngineState :=
  set_hand_seated ({[seat_id]} ∪ h_seated_players (hand s)) s.
End Operations.
