(* ===== verification/Pots.v ===== *)
(** Pot layers and side pots ([build_pot_layers], [build_side_pots] of
    [crates/poker-engine/src/engine.rs]).

    [build_pot_layers_from] is the source's loop over the contributions in one
    iteration order of the [HashMap]. [layers_ref] is the reference definition:
    it peels off, level by level, the smallest contribution that is still above
    the previous level, without sorting. The loop computes the reference for
    every iteration order, the layers together with the uncalled part of the
    largest contribution add up to the contributions, and each layer is exactly
    the slice of the contributions between two levels. *)

From stdpp Require Import base tactics option list gmap sorting.
From Stdlib Require Import NArith Lia.
From S2P Require Import Prelude.
From S2P Require Import Domain.
From S2P Require Import EngineState.

Local Open Scope N_scope.

Abbreviation Entry := (SeatId * Chips)%type (only parsing).

Section PotDefs.
Context (folded_seats : gset SeatId).

(** [contributors.iter().filter(not folded)], then [sort_unstable]. *)
Definition eligible_of (contributors : list SeatId) : list SeatId :=
  sortN (filter (λ seat, seat ∉ folded_seats) contributors).

(** The [for] loop of [build_pot_layers]: [idx] and [prev] are its variables,
    [levels] is the slice [levels[idx..]]. *)
Fixpoint layers_loop (idx : nat) (prev : Chips) (levels : list Entry) : list PotLayer :=
  match levels with
  | [] => []
  | (seat, amount) :: rest =>
      if amount <=? prev then layers_loop (S idx) prev rest
      else
        let layer := unwrap_or ChipsOps.ZERO (ChipsOps.checked_sub amount prev) in
        if layer =? ChipsOps.ZERO then layers_loop (S idx) prev rest
        else
          let contributors := seat :: map fst rest in
          if (length contributors <=? 1)%nat then []
          else
            let segment_amount :=
              wrapping u128_max (layer * N.of_nat (length contributors)) in
            mkPotLayer segment_amount (eligible_of contributors) (idx =? 0)%nat
              :: layers_loop (S idx) amount rest
  end.

(** [entries] is the map's content in the order [HashMap::iter] yields it. *)
Definition build_pot_layers_from (entries : list Entry) : list PotLayer :=
  let levels := sort_by_key snd (filter (λ e, ChipsOps.ZERO < snd e) entries) in
  if (length levels <=? 1)%nat then []
  else layers_loop 0 ChipsOps.ZERO levels.
End PotDefs.

Definition build_pot_layers (contributions : gmap SeatId Chips) (folded_seats : gset SeatId)
    : list PotLayer :=
  build_pot_layers_from folded_seats (map_to_list contributions).

Definition build_side_pots (contributions : gmap SeatId Chips) (folded_seats : gset SeatId)
    : list SidePot :=
  map (λ layer, mkSidePot (pl_amount layer) (pl_eligible_seats layer))
    (filter (λ layer, negb (pl_is_main layer)) (build_pot_layers contributions folded_seats)).

(** ** Reference definition *)

(** The entries strictly above a level. *)
Definition above (prev : Chips) (l : list Entry) : list Entry :=
  filter (λ e, prev < snd e) l.

Fixpoint min_amount (l : list Entry) : Chips :=
  match l with
  | [] => 0
  | [e] => snd e
  | e :: l => N.min (snd e) (min_amount l)
  end.

Fixpoint layers_ref (folded : gset SeatId) (fuel : nat) (is_main : bool) (prev : Chips)
    (entries : list Entry) : list PotLayer :=
  match fuel with
  | O => []
  | S fuel =>
      let live := above prev entries in
      if (length live <=? 1)%nat then []
      else
        let level := min_amount live in
        mkPotLayer (wrapping u128_max ((level - prev) * N.of_nat (length live)))
          (eligible_of folded (map fst live)) is_main
          :: layers_ref folded fuel false level live
  end.

(** The two largest amounts; the part of the largest one that nobody else
    matched is the uncalled amount. *)
Fixpoint top_two (l : list Entry) : N * N :=
  match l with
  | [] => (0, 0)
  | e :: l => let t := top_two l in
              (N.max (snd e) t.1, N.max (N.min (snd e) t.1) t.2)
  end.
Definition uncalled (l : list Entry) : N := (top_two l).1 - (top_two l).2.

(** The part of a contribution [c] that lies between two levels. *)
Definition slice (lo hi c : N) : N := N.min c hi - N.min c lo.

(** ** Lemmas *)

Lemma above_perm prev l1 l2 : l1 ≡ₚ l2 → above prev l1 ≡ₚ above prev l2.
Proof. intros H. unfold above. by rewrite H. Qed.

Lemma above_cons p e l :
  above p (e :: l) = if decide (p < snd e) then e :: above p l else above p l.
Proof. unfold above. by rewrite filter_cons. Qed.

Lemma above_above p q l : p ≤ q → above q (above p l) = above q l.
Proof.
  intros Hpq. induction l as [|e l IH]; [done|].
  rewrite !above_cons. repeat case_decide; rewrite ?above_cons; repeat case_decide;
    congruence || lia.
Qed.

Lemma above_length p l : (length (above p l) ≤ length l)%nat.
Proof. apply length_filter. Qed.

Lemma above_all p l : Forall (λ e, p < snd e) l → above p l = l.
Proof.
  induction 1 as [|e l He Hl IH]; [done|]. rewrite above_cons, IH. by case_decide.
Qed.

Lemma min_amount_elem l : l ≠ [] → ∃ e, e ∈ l ∧ snd e = min_amount l.
Proof.
  induction l as [|e l IH]; [done|]. intros _. destruct l as [|e' l].
  { exists e. split; [constructor|done]. }
  destruct IH as (e0 & He0 & Hm); [done|].
  change (min_amount (e :: e' :: l)) with (N.min (snd e) (min_amount (e' :: l))).
  rewrite <-Hm. destruct (N.min_spec (snd e) (snd e0)) as [[_ ->]|[_ ->]].
  - exists e. split; [constructor|done].
  - exists e0. split; [by constructor|done].
Qed.

Lemma min_amount_le l e : e ∈ l → min_amount l ≤ snd e.
Proof.
  induction l as [|e0 l IH]; [set_solver|]. intros He. destruct l as [|e1 l].
  { apply list_elem_of_singleton in He as ->. done. }
  change (min_amount (e0 :: e1 :: l)) with (N.min (snd e0) (min_amount (e1 :: l))).
  apply elem_of_cons in He as [->|He]; [lia|]. specialize (IH He). lia.
Qed.

Lemma min_amount_unique l m :
  (∃ e, e ∈ l ∧ snd e = m) → (∀ e, e ∈ l → m ≤ snd e) → min_amount l = m.
Proof.
  intros (e & He & <-) Hle. apply N.le_antisymm; [by apply min_amount_le|].
  destruct (min_amount_elem l) as (e' & He' & <-); [by intros ->; set_solver|]. by apply Hle.
Qed.

Lemma min_amount_perm l1 l2 : l1 ≡ₚ l2 → min_amount l1 = min_amount l2.
Proof.
  intros H. destruct l1 as [|e1 l1]; [by apply Permutation_nil in H as ->|].
  symmetry. apply min_amount_unique; setoid_rewrite <-H.
  - by apply min_amount_elem.
  - intros e. apply min_amount_le.
Qed.

Lemma eligible_of_perm folded l1 l2 :
  l1 ≡ₚ l2 → eligible_of folded l1 = eligible_of folded l2.
Proof. intros H. unfold eligible_of. apply sortN_proper_eq. by rewrite H. Qed.

Lemma eligible_of_elem folded l seat :
  seat ∈ eligible_of folded l ↔ seat ∉ folded ∧ seat ∈ l.
Proof. unfold eligible_of. by rewrite sortN_elem, list_elem_of_filter. Qed.

Lemma layers_ref_perm folded fuel m p l1 l2 :
  l1 ≡ₚ l2 → layers_ref folded fuel m p l1 = layers_ref folded fuel m p l2.
Proof.
  revert m p l1 l2. induction fuel as [|fuel IH]; intros m p l1 l2 H; cbn; [done|].
  pose proof (above_perm p _ _ H) as Ha.
  rewrite (Permutation_length Ha). case_match; [done|].
  rewrite (min_amount_perm _ _ Ha), (IH _ _ _ _ Ha).
  by rewrite (eligible_of_perm folded _ _ (Permutation_map fst Ha)).
Qed.

Lemma layers_ref_above folded fuel m p l :
  layers_ref folded fuel m p (above p l) = layers_ref folded fuel m p l.
Proof. destruct fuel; cbn; [done|]. by rewrite above_above. Qed.

(** One step of the loop on a list sorted by amount, past the levels already
    covered: both sides emit the same layer and go on with the same levels. *)
Lemma sorted_head_min seat amount rest prev :
  StronglySorted (λ x y, snd x ≤ snd y) ((seat, amount) :: rest : list Entry) →
  prev < amount →
  above prev ((seat, amount) :: rest) = (seat, amount) :: rest ∧
  min_amount ((seat, amount) :: rest) = amount.
Proof.
  intros [Hr Hall]%StronglySorted_inv Hlt. rewrite Forall_forall in Hall. split.
  - apply above_all. constructor; [done|]. rewrite Forall_forall.
    intros e He. specialize (Hall e He). cbn in *. lia.
  - apply min_amount_unique.
    + exists (seat, amount). split; [constructor|done].
    + intros e [->|He]%elem_of_cons; [done|]. by apply Hall.
Qed.

Lemma layers_loop_ref folded idx prev levels fuel :
  StronglySorted (λ x y, snd x ≤ snd y) levels →
  (length levels ≤ fuel)%nat →
  idx ≠ 0%nat →
  layers_loop folded idx prev levels = layers_ref folded fuel false prev levels.
Proof.
  revert idx prev fuel. induction levels as [|[seat amount] rest IH];
    intros idx prev fuel Hs Hf Hidx; [by destruct fuel|].
  destruct fuel as [|fuel]; [cbn in Hf; lia|]. cbn in Hf.
  pose proof Hs as [Hs' _]%StronglySorted_inv.
  cbn [layers_loop]. destruct (N.leb_spec amount prev) as [Hle|Hgt].
  - rewrite (IH _ _ (S fuel)) by (try done; lia).
    cbn [layers_ref]. rewrite above_cons. cbn [snd]. case_decide; [lia|done].
  - rewrite chips_sub_or_zero. unfold ChipsOps.ZERO.
    destruct (N.eqb_spec (amount - prev) 0) as [|_]; [lia|].
    destruct (sorted_head_min seat amount rest prev Hs Hgt) as [Ha Hm].
    cbn [layers_ref]. rewrite Ha, Hm. cbn [length map fst].
    rewrite length_map. case_match; [done|].
    destruct (Nat.eqb_spec idx 0) as [|_]; [done|]. f_equal.
    rewrite (IH _ _ fuel) by (try done; lia).
    rewrite <-(layers_ref_above folded fuel false amount rest),
      <-(layers_ref_above folded fuel false amount (_ :: rest)).
    rewrite above_cons. cbn [snd]. case_decide; [lia|done].
Qed.

(** ** Theorems *)

(** The loop over the sorted levels computes the reference layers. *)
Lemma build_pot_layers_from_ref folded entries :
  build_pot_layers_from folded entries
  = layers_ref folded (S (length entries)) true 0 entries.
Proof.
  unfold build_pot_layers_from, ChipsOps.ZERO.
  change (filter (λ e, 0 < snd e) entries) with (above 0 entries).
  assert (sort_by_key snd (above 0 entries) ≡ₚ above 0 entries) as Hp by apply sort_by_perm.
  pose proof (above_length 0 entries) as Hlen. apply Permutation_length in Hp as Hpl.
  rewrite <-layers_ref_above, <-(layers_ref_perm _ _ _ _ _ _ Hp).
  assert (Forall (λ e, 0 < snd e) (sort_by_key snd (above 0 entries))) as Hpos.
  { rewrite Hp. unfold above. apply Forall_forall. intros e [? _]%list_elem_of_filter. done. }
  pose proof (sort_by_key_sorted snd (above 0 entries)) as Hs.
  destruct (sort_by_key snd (above 0 entries)) as [|[seat amount] rest]; [done|].
  apply Forall_cons in Hpos as [Hpos _]. cbn in Hpos.
  destruct (sorted_head_min seat amount rest 0 Hs Hpos) as [Ha Hm].
  cbn [layers_ref]. rewrite Ha, Hm. case_match eqn:Hc; [done|].
  cbn [layers_loop]. destruct (N.leb_spec amount 0) as [|_]; [lia|].
  rewrite chips_sub_or_zero. unfold ChipsOps.ZERO.
  destruct (N.eqb_spec (amount - 0) 0) as [|_]; [lia|].
  cbn [length map fst] in *. rewrite length_map, Hc. cbn [Nat.eqb]. f_equal.
  apply StronglySorted_inv in Hs as [Hs _].
  rewrite (layers_loop_ref _ _ _ _ (length entries)) by (try done; lia).
  rewrite <-(layers_ref_above _ _ _ amount rest),
    <-(layers_ref_above _ _ _ amount (_ :: rest)), above_cons.
  cbn [snd]. case_decide; [lia|done].
Qed.

Lemma top_two_above p l :
  N.max p (top_two (above p l)).1 = N.max p (top_two l).1 ∧
  N.max p (top_two (above p l)).2 = N.max p (top_two l).2.
Proof.
  induction l as [|e l [IH1 IH2]]; [done|]. rewrite above_cons. revert IH1 IH2.
  case_decide; cbn; generalize (top_two l) (top_two (above p l)); intros [x y] [x' y']; cbn;
    intros; split; lia.
Qed.

Lemma top_two_ge m l :
  (2 ≤ length l)%nat → Forall (λ e, m ≤ snd e) l → m ≤ (top_two l).2.
Proof.
  intros Hl Hf. destruct Hf as [|e1 l He1 Hf]; cbn in Hl; [lia|].
  destruct Hf as [|e2 l He2 Hf]; cbn in *; lia.
Qed.

Definition gap (prev : N) (l : list Entry) : N := (top_two l).1 - N.max prev (top_two l).2.

Lemma gap_above p l : gap p (above p l) = gap p l.
Proof. unfold gap. pose proof (top_two_above p l). lia. Qed.

Definition over (prev : N) (l : list Entry) : N := nsum (map (λ e, snd e - prev) l).

Lemma over_above p l : over p (above p l) = over p l.
Proof.
  induction l as [|e l IH]; [done|]. rewrite above_cons.
  unfold over in *. case_decide; cbn; lia.
Qed.

Lemma over_split p q l :
  p ≤ q → Forall (λ e, q ≤ snd e) l → over p l = (q - p) * N.of_nat (length l) + over q l.
Proof.
  intros Hpq. induction 1 as [|e l He Hl IH]; [cbn; lia|].
  unfold over in *. cbn [map nsum length]. lia.
Qed.

Lemma above_min_Forall p l :
  above p l ≠ [] →
  Forall (λ e, min_amount (above p l) ≤ snd e) (above p l) ∧ p < min_amount (above p l).
Proof.
  intros Hne. split.
  - apply Forall_forall. apply min_amount_le.
  - destruct (min_amount_elem _ Hne) as (e & He & <-).
    unfold above in He. by apply list_elem_of_filter in He as [? _].
Qed.

Definition layers_total (ls : list PotLayer) : N := nsum (map pl_amount ls).

Lemma layers_ref_total folded fuel m p l :
  (length (above p l) < fuel)%nat →
  over p l ≤ u128_max →
  layers_total (layers_ref folded fuel m p l) + gap p l = over p l.
Proof.
  revert m p l. induction fuel as [|fuel IH]; intros m p l Hf Hb; [lia|].
  rewrite <-gap_above, <-over_above. rewrite <-over_above in Hb.
  cbn [layers_ref]. case_match eqn:Hlen; boolify.
  - destruct (above p l) as [|e [|]]; cbn in *;
      unfold gap, over, layers_total; cbn; lia.
  - destruct (above_min_Forall p l) as [Hmin Hp]; [intros E; rewrite E in Hlen; cbn in *; lia|].
    set (live := above p l) in *. set (level := min_amount live) in *.
    assert (over p live = (level - p) * N.of_nat (length live) + over level live) as Hsplit
      by (apply over_split; [lia|done]).
    assert (gap p live = gap level live) as Hgap.
    { unfold gap. pose proof (top_two_ge level live ltac:(lia) Hmin). lia. }
    rewrite wrapping_small by lia.
    unfold layers_total in *. cbn [map nsum pl_amount].
    enough ((length (above level live) < length live)%nat).
    { specialize (IH false level live ltac:(lia) ltac:(lia)). lia. }
    destruct (min_amount_elem live) as (e & He & Hel).
    { intros E. rewrite E in Hlen. cbn in *; lia. }
    unfold above at 1. eapply (length_filter_lt _ _ e); [done|]. unfold level. lia.
Qed.

(** Chips are conserved: the layers and the uncalled part of the largest
    contribution add up to what the seats contributed, whatever the order in
    which the map is iterated. *)
Lemma pot_layers_from_total folded entries :
  nsum (map snd entries) ≤ u128_max →
  layers_total (build_pot_layers_from folded entries) + uncalled entries
  = nsum (map snd entries).
Proof.
  intros Hb. rewrite build_pot_layers_from_ref.
  assert (over 0 entries = nsum (map snd entries)) as Hover.
  { unfold over. apply nsum_map_ext. intros. lia. }
  rewrite <-Hover, <-(layers_ref_total folded (S (length entries)) true 0 entries).
  - unfold gap, uncalled. lia.
  - pose proof (above_length 0 entries). lia.
  - by rewrite Hover.
Qed.

Lemma slice_above p q l :
  p ≤ q → Forall (λ e, q ≤ snd e) (above p l) →
  nsum (map (λ e, slice p q (snd e)) l) = (q - p) * N.of_nat (length (above p l)).
Proof.
  intros Hpq. induction l as [|e l IH]; [cbn; lia|]. rewrite above_cons.
  unfold slice in *. case_decide; [intros [He Hl]%Forall_cons|intros Hl];
    cbn [map nsum length]; rewrite IH by done; lia.
Qed.

Lemma slice_total_le p q l : nsum (map (λ e : Entry, slice p q (snd e)) l) ≤ nsum (map snd l).
Proof. induction l as [|e l IH]; cbn; [lia|]. unfold slice in *. lia. Qed.

Lemma above_filter_level p q l :
  p < q → Forall (λ e, q ≤ snd e) (above p l) →
  above p l = filter (λ e : Entry, q ≤ snd e) l.
Proof.
  intros Hpq. induction l as [|e l IH]; [done|]. rewrite above_cons, filter_cons.
  repeat case_decide; intros Hf; [|apply Forall_cons in Hf as [? ?]|lia|]; try done.
  - apply Forall_cons in Hf as [_ Hf]. by rewrite <-IH.
  - by apply IH.
Qed.

(** A layer is the slice of the contributions between two levels, and its
    eligible seats are the seats that reached the upper level without folding. *)
Definition layer_is_slice (folded : gset SeatId) (entries : list Entry) (ly : PotLayer) : Prop :=
  ∃ lo hi, lo < hi ∧
    pl_amount ly = nsum (map (λ e, slice lo hi (snd e)) entries) ∧
    pl_eligible_seats ly
    = eligible_of folded (map fst (filter (λ e : Entry, hi ≤ snd e) entries)).

Lemma layers_ref_slices folded fuel m p entries :
  nsum (map snd entries) ≤ u128_max →
  Forall (layer_is_slice folded entries) (layers_ref folded fuel m p entries).
Proof.
  intros Hb. revert m p. induction fuel as [|fuel IH]; intros m p; [constructor|].
  cbn [layers_ref]. case_match eqn:Hlen; [constructor|]. boolify.
  destruct (above_min_Forall p entries) as [Hmin Hp].
  { intros E. rewrite E in Hlen. cbn in *. lia. }
  set (level := min_amount (above p entries)) in *. constructor.
  - exists p, level. split; [done|]. cbn [pl_amount pl_eligible_seats].
    rewrite slice_above by (try done; lia). rewrite <-above_filter_level with (p := p) by done.
    split; [|done]. apply wrapping_small.
    rewrite <-(slice_above p level entries) by (try done; lia). etransitivity; [|exact Hb].
    apply slice_total_le.
  - rewrite <-layers_ref_above, above_above by lia. rewrite layers_ref_above. apply IH.
Qed.

(** Only the layer at index 0 is the main pot. *)
Lemma layers_ref_side_flag folded fuel p l :
  Forall (λ ly, pl_is_main ly = false) (layers_ref folded fuel false p l).
Proof.
  revert p l. induction fuel as [|fuel IH]; intros p l; cbn; [constructor|].
  case_match; constructor; [done|apply IH].
Qed.

Lemma layers_ref_main_first folded fuel p l i ly :
  layers_ref folded fuel true p l !! i = Some ly → pl_is_main ly = (i =? 0)%nat.
Proof.
  destruct fuel as [|fuel]; cbn; [done|]. case_match; [done|].
  destruct i as [|i]; cbn; [by intros [= <-]|]. intros Hi.
  eapply Forall_lookup_1 in Hi; [|apply layers_ref_side_flag]. done.
Qed.

Lemma layers_ref_side folded fuel p l :
  filter (λ ly, negb (pl_is_main ly)) (layers_ref folded fuel true p l)
  = tail (layers_ref folded fuel true p l).
Proof.
  destruct fuel as [|fuel]; [done|]. cbn [layers_ref]. case_match; [done|].
  rewrite filter_cons_False by (cbn; tauto). cbn [tail].
  pose proof (layers_ref_side_flag folded fuel
    (min_amount (above p l)) (above p l)) as Hf.
  induction Hf as [|ly ls Hly Hf IH]; [done|].
  rewrite filter_cons_True by (by rewrite Hly). by rewrite IH.
Qed.
