(* ===== verification/Engine.v ===== *)
(** The rules state machine of one hand ([PokerEngine] of
    [crates/poker-engine/src/engine.rs]): dealing, blinds, legal actions, the
    application of a player action, the turn and street transitions, the hand
    events and the showdown.

    Methods that take [&mut EngineState] and can fail are computations of the
    state-and-error monad [M], so that what an early return leaves behind is part
    of the model. The fresh hand identifier and the shuffle are arguments. *)

From stdpp Require Import base tactics option list gmap sorting.
From Stdlib Require Import NArith Lia.
From S2P Require Import Prelude.
From S2P Require Import Domain.
From S2P Require Import EngineState.
From S2P Require Import Pots.

Local Open Scope N_scope.

Definition DEFAULT_SMALL_BLIND : Chips := 100000000000000.
Definition DEFAULT_BIG_BLIND : Chips := 200000000000000.

Inductive EngineError :=
| Domain (e : DomainError)
| Money (e : MoneyError)
| NotEnoughPlayersToDeal
| InsufficientDeck
| DuplicateCardsInDeck.

Inductive EngineActionResult := Accepted (street_changed : option Street).

Definition state_dealer_index (hand_no : N) (seat_count : nat) : nat :=
  if (seat_count =? 0)%nat then 0%nat
  else (N.to_nat (sat_sub hand_no 1) mod seat_count)%nat.

Definition next_min_raise_to (current_bet target_bet : Chips) : Chips :=
  let raise_size := unwrap_or ChipsOps.ZERO (ChipsOps.checked_sub target_bet current_bet) in
  if raise_size =? ChipsOps.ZERO then target_bet
  else unwrap_or target_bet (ChipsOps.checked_add target_bet raise_size).

Definition next_street (current : Street) : option Street :=
  match current with
  | Preflop => Some Flop
  | Flop => Some Turn
  | Turn => Some River
  | River | Showdown => None
  end.

(** [v[i]]: every index below is taken modulo the length of the vector. *)
Definition seat_at (seats : list SeatId) (i : nat) : SeatId := nth i seats 0.

(** [iter().position(|seat| *seat == x)]. *)
Fixpoint position (x : N) (l : list N) : option nat :=
  match l with
  | [] => None
  | y :: l => if y =? x then Some 0%nat else S <$> position x l
  end.

(** [find_map] over the steps [1..=n] of a rotation that starts at [idx]. *)
Definition rotate_find (accept : SeatId → bool) (seats : list SeatId) (idx : nat)
    : option SeatId :=
  let n := length seats in
  head (filter (λ c, accept c = true)
         (map (λ step, seat_at seats ((idx + step) mod n)) (seq 1 n))).

Section Engine.
Context `{CO : CardOps}.
Implicit Types s : EngineState.

Definition seat_bet s (seat_id : SeatId) : Chips :=
  default ChipsOps.ZERO (b_player_bets (betting_round s) !! seat_id).

Definition legal_actions s (seat_id : SeatId) : list LegalAction :=
  if negb (bool_decide (hs_acting_seat_id (snapshot s) = Some seat_id)) then []
  else
    let current_bet := b_current_bet (betting_round s) in
    let to_call := unwrap_or ChipsOps.ZERO (ChipsOps.checked_sub current_bet (seat_bet s seat_id)) in
    let min_raise_to :=
      match b_min_raise_to (betting_round s) with
      | Some m => m
      | None => unwrap_or current_bet (ChipsOps.checked_add current_bet 1)
      end in
    [mkLegalAction Fold None None]
      ++ (if to_call =? ChipsOps.ZERO then [mkLegalAction Check None None]
          else [mkLegalAction Call (Some to_call) (Some to_call)])
      ++ [mkLegalAction RaiseTo (Some min_raise_to) None; mkLegalAction AllIn None None].

(** ** Dealing *)

Definition blinds_and_first_to_act s (seats_sorted : list SeatId)
    : option (SeatId * SeatId * SeatId) :=
  let n := length seats_sorted in
  if (n <? 2)%nat then None
  else
    let dealer_idx := state_dealer_index (hs_hand_no (snapshot s)) n in
    if (n =? 2)%nat then
      let sb := seat_at seats_sorted dealer_idx in
      let bb := seat_at seats_sorted ((dealer_idx + 1) mod n) in
      Some (sb, bb, sb)
    else
      let sb := seat_at seats_sorted ((dealer_idx + 1) mod n) in
      let bb := seat_at seats_sorted ((dealer_idx + 2) mod n) in
      let first := seat_at seats_sorted ((dealer_idx + 3) mod n) in
      Some (sb, bb, first).

Definition next_card (iter : list Card) : result EngineError (Card * list Card) :=
  match iter with
  | card :: iter => Ok (card, iter)
  | [] => Err InsufficientDeck
  end.

(** One pass of [for seat in &seats], [hole_cards] and [iter] being mutated. *)
Fixpoint deal_round (seats : list SeatId) (iter : list Card)
    (hole_cards : gmap SeatId (Card * Card))
    : result EngineError (list Card * gmap SeatId (Card * Card)) :=
  match seats with
  | [] => Ok (iter, hole_cards)
  | seat :: seats =>
      '(card, iter) ← next_card iter;
      let hole_cards :=
        match hole_cards !! seat with
        | Some held => <[seat := (fst held, card)]> hole_cards
        | None => <[seat := (card, card)]> hole_cards
        end in
      deal_round seats iter hole_cards
  end.

(** Both rounds of hole cards, the three burns and the board. *)
Definition deal_cards (seats : list SeatId) (deck : list Card)
    : result EngineError DealingState :=
  '(iter, hole_cards) ← deal_round seats deck ∅;
  '(iter, hole_cards) ← deal_round seats iter hole_cards;
  '(burn1, iter) ← next_card iter;
  '(flop1, iter) ← next_card iter;
  '(flop2, iter) ← next_card iter;
  '(flop3, iter) ← next_card iter;
  '(burn2, iter) ← next_card iter;
  '(turn, iter) ← next_card iter;
  '(burn3, iter) ← next_card iter;
  '(river, iter) ← next_card iter;
  Ok (mkDealingState iter [burn1; burn2; burn3] [flop1; flop2; flop3; turn; river] hole_cards).

Definition add_contribution (seat_id : SeatId) (delta : Chips) : M EngineState EngineError unit :=
  if delta =? ChipsOps.ZERO then mret tt
  else
    s ← get;
    let contributions := p_player_contributions (pot s) in
    next ← lift_result (result_map_err Money
      (ChipsOps.checked_add (default ChipsOps.ZERO (contributions !! seat_id)) delta));
    modify (set_pot_contributions (<[seat_id := next]> contributions)).

(** The assignments that open the new hand, once the cards are out. *)
Definition open_hand (new_hand_id : HandId) (first_to_act : SeatId) s : EngineState :=
  let s := set_snap_hand_id new_hand_id s in
  let s := set_hand_hand_id new_hand_id s in
  let s := set_snap_next_action_seq 1 s in
  let s := set_hand_next_action_seq 1 s in
  let s := set_snap_status HRunning s in
  let s := set_snap_street Preflop s in
  let s := set_snap_board [] s in
  let s := set_hand_street Preflop s in
  let s := set_acting (Some first_to_act) s in
  let s := set_round_current_bet DEFAULT_BIG_BLIND s in
  let s := set_round_min_raise_to (Some (unwrap_or DEFAULT_BIG_BLIND
             (ChipsOps.checked_add DEFAULT_BIG_BLIND DEFAULT_BIG_BLIND))) s in
  let s := set_round_bets ∅ s in
  let s := set_round_acted ∅ s in
  let s := set_pot_main ChipsOps.ZERO s in
  let s := set_pot_side [] s in
  set_pot_contributions ∅ s.

Definition post_blinds (small_blind_seat big_blind_seat : SeatId)
    : M EngineState EngineError unit :=
  modify (λ s, set_round_bets
    (<[small_blind_seat := DEFAULT_SMALL_BLIND]> (b_player_bets (betting_round s))) s);;
  modify (λ s, set_round_bets
    (<[big_blind_seat := DEFAULT_BIG_BLIND]> (b_player_bets (betting_round s))) s);;
  add_contribution small_blind_seat DEFAULT_SMALL_BLIND;;
  add_contribution big_blind_seat DEFAULT_BIG_BLIND;;
  main_pot ← lift_result (result_map_err Money
    (ChipsOps.checked_add DEFAULT_SMALL_BLIND DEFAULT_BIG_BLIND));
  modify (set_pot_main main_pot);;
  modify (λ s, set_snap_pot_total (p_main_pot (pot s)) s).

(** [deck.iter().map(u8::from).collect::<HashSet<_>>().len()]. *)
Definition unique_count (deck : list Card) : nat :=
  size (list_to_set (map card_to_u8 deck) : gset N).

(** A hand that follows another one takes the next number. *)
Definition bump_hand_no s : EngineState :=
  if bool_decide (hs_status (snapshot s) = HCreated) then s
  else set_snap_hand_no (sat_add u64_max (hs_hand_no (snapshot s)) 1) s.

Definition deal_new_hand_internal_with_deck (new_hand_id : HandId) (deck : list Card)
    : M EngineState EngineError unit :=
  s ← get;
  let seats := sorted_set (h_seated_players (hand s)) in
  if (length seats <? 2)%nat then throw NotEnoughPlayersToDeal
  else if negb (unique_count deck =? length deck)%nat then throw DuplicateCardsInDeck
  else
    let required_cards := (length seats * 2 + 8)%nat in
    if (length deck <? required_cards)%nat then throw InsufficientDeck
    else
      modify bump_hand_no;;
      dealt ← lift_result (deal_cards seats deck);
      modify (set_dealing (Some dealt));;
      s ← get;
      '(small_blind_seat, big_blind_seat, first_to_act) ←
        lift_result (ok_or NotEnoughPlayersToDeal (blinds_and_first_to_act s seats));
      modify (open_hand new_hand_id first_to_act);;
      post_blinds small_blind_seat big_blind_seat.

Definition ordered_deck : list Card := map (λ i, card_of_u8 (N.of_nat i)) (seq 0 52).

(** [shuffle] is the permutation drawn by [deck.shuffle(&mut rand::thread_rng())]. *)
Definition deal_new_hand_internal (new_hand_id : HandId) (shuffle : list Card → list Card)
    : M EngineState EngineError unit :=
  deal_new_hand_internal_with_deck new_hand_id (shuffle ordered_deck).

(** ** Turns and streets *)

Definition active_seats_sorted s : list SeatId :=
  sortN (filter (λ seat, seat ∉ h_folded_seats (hand s)) (elements (h_seated_players (hand s)))).

Definition actionable_seats_sorted s : list SeatId :=
  sortN (filter (λ seat, seat ∉ h_folded_seats (hand s) ∧ seat ∉ h_all_in_seats (hand s))
           (elements (h_seated_players (hand s)))).

Definition is_betting_round_complete s (active_seats : list SeatId) : bool :=
  match active_seats with
  | [] => false
  | _ =>
      forallb (λ seat,
        bool_decide (seat ∈ b_acted_seats (betting_round s))
        && (bool_decide (seat ∈ h_all_in_seats (hand s))
            || (seat_bet s seat =? b_current_bet (betting_round s)))) active_seats
  end.

Definition next_active_seat_left_of_button s (active_seats_sorted : list SeatId)
    : option SeatId :=
  match active_seats_sorted with
  | [] => None
  | _ =>
      let seated_sorted := sorted_set (h_seated_players (hand s)) in
      let dealer_idx := state_dealer_index (hs_hand_no (snapshot s)) (length seated_sorted) in
      dealer ← seated_sorted !! dealer_idx;
      let start := default 0%nat (position dealer seated_sorted) in
      rotate_find (λ c, bool_decide (c ∈ active_seats_sorted)) seated_sorted start
  end.

(** The board shown on the snapshot: nothing when no cards were dealt. *)
Definition reveal_board (count : nat) s : EngineState :=
  match dealing s with
  | Some d => set_snap_board (map card_to_u8 (take count (d_board_cards d))) s
  | None => s
  end.

Definition reveal_count (st : Street) : nat :=
  match st with
  | Preflop => 0
  | Flop => 3
  | Turn => 4
  | River | Showdown => 5
  end.

Definition advance_street (active_seats : list SeatId) s : EngineState * option Street :=
  match next_street (hs_street (snapshot s)) with
  | None =>
      let s := set_snap_status HShowdown s in
      let s := set_snap_street Showdown s in
      let s := match dealing s with
               | Some d => set_snap_board (map card_to_u8 (d_board_cards d)) s
               | None => s
               end in
      let s := set_hand_street Showdown s in
      (set_acting None s, Some Showdown)
  | Some next =>
      let s := set_snap_street next s in
      let s := reveal_board (reveal_count next) s in
      let s := set_hand_street next s in
      let s := set_round_current_bet ChipsOps.ZERO s in
      let s := set_round_min_raise_to None s in
      let s := set_round_bets ∅ s in
      let s := set_round_acted ∅ s in
      let next_seat := default (seat_at active_seats 0)
                         (next_active_seat_left_of_button s active_seats) in
      (set_acting (Some next_seat) s, Some next)
  end.

Definition advance_turn (current_seat_id : SeatId) s : EngineState * option Street :=
  let showdown_seats := active_seats_sorted s in
  if (length showdown_seats <=? 1)%nat then
    (set_acting None (set_snap_status HSettled s), None)
  else if is_betting_round_complete s showdown_seats then
    advance_street showdown_seats s
  else
    let actionable_seats := actionable_seats_sorted s in
    match actionable_seats with
    | [] =>
        let s := set_snap_status HShowdown s in
        let s := set_snap_street Showdown s in
        let s := set_hand_street Showdown s in
        (set_acting None s, Some Showdown)
    | _ =>
        let seated_sorted := sorted_set (h_seated_players (hand s)) in
        let next_seat :=
          default (seat_at actionable_seats 0)
            (idx ← position current_seat_id seated_sorted;
             rotate_find (λ c, negb (bool_decide (c ∈ h_folded_seats (hand s)))
                               && negb (bool_decide (c ∈ h_all_in_seats (hand s))))
               seated_sorted idx) in
        (set_acting (Some next_seat) s, None)
    end.

(** ** Applying an action *)

Definition rebuild_side_pots s : EngineState :=
  set_pot_side (build_side_pots (p_player_contributions (pot s)) (h_folded_seats (hand s))) s.

Definition pot_layers s : list PotLayer :=
  build_pot_layers (p_player_contributions (pot s)) (h_folded_seats (hand s)).

Definition mark_acted (seat_id : SeatId) s : EngineState :=
  set_round_acted ({[seat_id]} ∪ b_acted_seats (betting_round s)) s.
Definition set_bet (seat_id : SeatId) (target : Chips) s : EngineState :=
  set_round_bets (<[seat_id := target]> (b_player_bets (betting_round s))) s.

(** [main_pot += delta], the seat's contribution [+= delta], [pot_total = main_pot]. *)
Definition pay_into_pot (seat_id : SeatId) (delta : Chips) : M EngineState EngineError unit :=
  s ← get;
  main_pot ← lift_result (result_map_err Money
    (ChipsOps.checked_add (p_main_pot (pot s)) delta));
  modify (set_pot_main main_pot);;
  add_contribution seat_id delta;;
  modify (λ s, set_snap_pot_total (p_main_pot (pot s)) s).

Definition illegal {A} : M EngineState EngineError A := throw (Domain ActionIllegal).

(** The [match action.action_type]; the result is [reset_round_acted]. *)
Definition apply_action_kind (action : PlayerAction) (prior_seat_bet current_bet to_call : Chips)
    : M EngineState EngineError bool :=
  let seat_id := pa_seat_id action in
  match pa_action_type action with
  | Fold =>
      modify (λ s, set_hand_folded ({[seat_id]} ∪ h_folded_seats (hand s)) s);;
      modify (mark_acted seat_id);;
      mret false
  | Check =>
      if negb (to_call =? ChipsOps.ZERO) then illegal
      else
        modify (mark_acted seat_id);;
        mret false
  | Call =>
      if to_call =? ChipsOps.ZERO then illegal
      else
        modify (set_bet seat_id current_bet);;
        pay_into_pot seat_id to_call;;
        modify (mark_acted seat_id);;
        mret false
  | RaiseTo | AllIn =>
      target ← lift_result (ok_or (Domain ActionIllegal) (pa_amount action));
      if target <=? prior_seat_bet then illegal
      else
        s ← get;
        let is_raise := current_bet <? target in
        if bool_decide (pa_action_type action = RaiseTo)
           && (negb is_raise
               || match b_min_raise_to (betting_round s) with
                  | Some min_raise_to => target <? min_raise_to
                  | None => false
                  end)
        then illegal
        else
          let delta := unwrap_or ChipsOps.ZERO (ChipsOps.checked_sub target prior_seat_bet) in
          modify (set_bet seat_id target);;
          M_when is_raise
            (modify (set_round_current_bet target);;
             modify (set_round_min_raise_to (Some (next_min_raise_to current_bet target))));;
          pay_into_pot seat_id delta;;
          M_when (bool_decide (pa_action_type action = AllIn))
            (modify (λ s, set_hand_all_in ({[seat_id]} ∪ h_all_in_seats (hand s)) s));;
          if is_raise then mret true
          else
            modify (mark_acted seat_id);;
            mret false
  end.

(** [acted_seats.clear()], then the all-in seats and the raiser. *)
Definition reset_acted (seat_id : SeatId) s : EngineState :=
  set_round_acted ({[seat_id]} ∪ h_all_in_seats (hand s)) s.

Definition apply_action (action : PlayerAction)
    : M EngineState EngineError EngineActionResult :=
  s ← get;
  if negb (pa_action_seq action =? hs_next_action_seq (snapshot s)) then
    throw (Domain ActionIllegal)
  else if negb (bool_decide (hs_acting_seat_id (snapshot s) = Some (pa_seat_id action))) then
    throw (Domain NotYourTurn)
  else
    let prior_seat_bet := seat_bet s (pa_seat_id action) in
    let current_bet := b_current_bet (betting_round s) in
    let to_call := unwrap_or ChipsOps.ZERO (ChipsOps.checked_sub current_bet prior_seat_bet) in
    reset_round_acted ← apply_action_kind action prior_seat_bet current_bet to_call;
    modify rebuild_side_pots;;
    M_when reset_round_acted (modify (reset_acted (pa_seat_id action)));;
    modify (λ s, set_snap_next_action_seq
                   (sat_add u32_max (hs_next_action_seq (snapshot s)) 1) s);;
    modify (λ s, set_hand_next_action_seq (hs_next_action_seq (snapshot s)) s);;
    s ← get;
    let '(s', street_changed) := advance_turn (pa_seat_id action) s in
    modify (λ _, s');;
    mret (Accepted street_changed).

(** ** Events *)

Definition hand_started_event_kinds s : list HandEventKind :=
  HandStarted ::
    match hs_acting_seat_id (snapshot s) with
    | Some seat_id => [TurnStarted seat_id]
    | None => []
    end.

Definition post_action_event_kinds s (action : PlayerAction) (r : EngineActionResult)
    : list HandEventKind :=
  let '(Accepted street_changed) := r in
  [ActionAccepted action; PotUpdated (hs_pot_total (snapshot s))]
    ++ match street_changed with
       | Some street => [StreetChanged street]
       | None => []
       end
    ++ match hs_status (snapshot s) with
       | HSettled | HAborted => [HandClosed]
       | _ => match hs_acting_seat_id (snapshot s) with
              | Some seat_id => [TurnStarted seat_id]
              | None => []
              end
       end.
End Engine.

(** ** Showdown *)
Section ShowdownDefs.
Context `{RO : RankOps}.

Record ShowdownInput := mkShowdownInput {
  si_board : list Card;
  si_revealed_hole_cards : list (SeatId * (Card * Card));
}.

Record ShowdownResult := mkShowdownResult { winner_seats : list SeatId }.

(** The loop over the revealed hands: [best_rank] and [winners]. *)
Definition showdown_step (board : list Card) (eligible_filter : option (list SeatId))
    (acc : option Rank * list SeatId) (e : SeatId * (Card * Card))
    : option Rank * list SeatId :=
  let '(best_rank, winners) := acc in
  let '(seat_id, hole) := e in
  if match eligible_filter with
     | Some filter => negb (bool_decide (seat_id ∈ filter))
     | None => false
     end
  then acc
  else
    let r := rank (board ++ [fst hole; snd hole]) in
    match best_rank with
    | None => (Some r, [seat_id])
    | Some current_best =>
        if rank_gtb r current_best then (Some r, [seat_id])
        else if rank_eqb r current_best then (Some current_best, winners ++ [seat_id])
        else (Some current_best, winners)
    end.

Definition evaluate_showdown_for_eligible (input : ShowdownInput)
    (eligible_seats : option (list SeatId)) : option ShowdownResult :=
  if match si_revealed_hole_cards input with [] => true | _ => false end
     || (length (si_board input) <? 3)%nat
  then None
  else
    let eligible_filter := sortN <$> eligible_seats in
    let winners :=
      snd (foldl (showdown_step (si_board input) eligible_filter) (None, [])
             (si_revealed_hole_cards input)) in
    match winners with
    | [] => None
    | _ => Some (mkShowdownResult (sortN winners))
    end.

Definition evaluate_showdown (input : ShowdownInput) : option ShowdownResult :=
  evaluate_showdown_for_eligible input None.
End ShowdownDefs.
