(* ===== verification/EngineInv.v ===== *)
(** Correctness of the rules state machine.

    [legal_move] is the abstract specification of what an accepted action may do
    to the hand before the turn passes; [apply_action_cases] is the refinement:
    [apply_action] either rejects without touching the state, or fails on an
    overflow without touching the pot, or performs a legal move and passes the
    turn. [engine_inv] is the invariant of the hand: the copies of the shared
    fields agree, the pot is the sum of the contributions, the hand is running
    exactly when somebody is to act, that seat is seated, and no bet exceeds the
    current bet. *)

From stdpp Require Import base tactics option list gmap sorting.
From Stdlib Require Import NArith Lia.
From S2P Require Import Prelude.
From S2P Require Import Domain.
From S2P Require Import EngineState.
From S2P Require Import Pots.
From S2P Require Import Engine.

Local Open Scope N_scope.

Section Moves.
Context `{CO : CardOps}.
Implicit Types s : EngineState.

(** ** Abstract specification of an action *)

(** [delta] chips of [seat] enter the pot. *)
Definition paid (seat : SeatId) (delta : Chips) s : EngineState :=
  let c := p_player_contributions (pot s) in
  set_snap_pot_total (p_main_pot (pot s) + delta)
    (set_pot_contributions (<[seat := default 0 (c !! seat) + delta]> c)
       (set_pot_main (p_main_pot (pot s) + delta) s)).

(** [seat] brings its bet of the round up to [target]. *)
Definition bet_to (seat : SeatId) (target : Chips) s : EngineState :=
  paid seat (target - seat_bet s seat) (set_bet seat target s).

Definition fold_seat (seat : SeatId) s : EngineState :=
  set_hand_folded ({[seat]} ∪ h_folded_seats (hand s)) s.
Definition mark_all_in (seat : SeatId) s : EngineState :=
  set_hand_all_in ({[seat]} ∪ h_all_in_seats (hand s)) s.
Definition raise_round (target : Chips) s : EngineState :=
  set_round_min_raise_to (Some (next_min_raise_to (b_current_bet (betting_round s)) target))
    (set_round_current_bet target s).

Definition fits s (seat : SeatId) (target : Chips) : Prop :=
  p_main_pot (pot s) + (target - seat_bet s seat) ≤ u128_max.

(** The third argument is the state after the move, the fourth tells whether
    the other seats have to act again. *)
Inductive legal_move s (a : PlayerAction) : EngineState → bool → Prop :=
| move_fold :
    pa_action_type a = Fold →
    legal_move s a (mark_acted (pa_seat_id a) (fold_seat (pa_seat_id a) s)) false
| move_check :
    pa_action_type a = Check →
    b_current_bet (betting_round s) ≤ seat_bet s (pa_seat_id a) →
    legal_move s a (mark_acted (pa_seat_id a) s) false
| move_call :
    pa_action_type a = Call →
    seat_bet s (pa_seat_id a) < b_current_bet (betting_round s) →
    fits s (pa_seat_id a) (b_current_bet (betting_round s)) →
    legal_move s a
      (mark_acted (pa_seat_id a) (bet_to (pa_seat_id a) (b_current_bet (betting_round s)) s)) false
| move_raise target :
    pa_action_type a = RaiseTo →
    pa_amount a = Some target →
    seat_bet s (pa_seat_id a) < target →
    b_current_bet (betting_round s) < target →
    (∀ m, b_min_raise_to (betting_round s) = Some m → m ≤ target) →
    fits s (pa_seat_id a) target →
    legal_move s a (bet_to (pa_seat_id a) target (raise_round target s)) true
| move_all_in_raise target :
    pa_action_type a = AllIn →
    pa_amount a = Some target →
    seat_bet s (pa_seat_id a) < target →
    b_current_bet (betting_round s) < target →
    fits s (pa_seat_id a) target →
    legal_move s a
      (mark_all_in (pa_seat_id a) (bet_to (pa_seat_id a) target (raise_round target s))) true
| move_all_in_short target :
    pa_action_type a = AllIn →
    pa_amount a = Some target →
    seat_bet s (pa_seat_id a) < target →
    target ≤ b_current_bet (betting_round s) →
    fits s (pa_seat_id a) target →
    legal_move s a
      (mark_acted (pa_seat_id a)
         (mark_all_in (pa_seat_id a) (bet_to (pa_seat_id a) target s))) false.

(** What follows a move, before the turn passes: the side pots are rebuilt, a
    raise reopens the round and the action number advances. *)
Definition after_move (a : PlayerAction) (reset : bool) s : EngineState :=
  let s := rebuild_side_pots s in
  let s := if reset then reset_acted (pa_seat_id a) s else s in
  let s := set_snap_next_action_seq (sat_add u32_max (hs_next_action_seq (snapshot s)) 1) s in
  set_hand_next_action_seq (hs_next_action_seq (snapshot s)) s.

(** The pot holds exactly what the seats contributed. *)
Definition pot_conserved s : Prop :=
  p_main_pot (pot s) = msum (p_player_contributions (pot s)).

Lemma pay_into_pot_ok seat delta s :
  0 < delta → pot_conserved s → p_main_pot (pot s) + delta ≤ u128_max →
  pay_into_pot seat delta s = (paid seat delta s, Ok tt).
Proof.
  intros Hd Hc Hb. unfold pot_conserved in Hc.
  pose proof (msum_lookup_le (p_player_contributions (pot s)) seat) as Hle.
  unfold pay_into_pot, add_contribution, ChipsOps.checked_add, Prelude.checked_add,
    ChipsOps.ZERO. mrun. cbn [pot p_main_pot set_pot_main with_pot p_player_contributions].
  rewrite (proj2 (N.leb_le _ _)) by done. mrun.
  rewrite (proj2 (N.eqb_neq delta 0)) by lia. mrun.
  cbn [pot p_main_pot set_pot_main with_pot p_player_contributions].
  rewrite (proj2 (N.leb_le _ _)) by lia. by destruct s as [[] [] [] [] ?].
Qed.

Lemma pay_into_pot_overflow seat delta s :
  u128_max < p_main_pot (pot s) + delta →
  pay_into_pot seat delta s = (s, Err (Money Overflow)).
Proof.
  intros Hb. unfold pay_into_pot, ChipsOps.checked_add, Prelude.checked_add. mrun.
  rewrite (proj2 (N.leb_gt _ _)) by done. done.
Qed.

(** What an overflow of the pot leaves behind: the bet of the seat, and with a
    raise the level of the round, are already assigned; nothing else changed. *)
Inductive overflow_residue s (a : PlayerAction) : EngineState → Prop :=
| residue_bet target :
    target ≤ b_current_bet (betting_round s) →
    ¬ fits s (pa_seat_id a) target →
    overflow_residue s a (set_bet (pa_seat_id a) target s)
| residue_raise target :
    b_current_bet (betting_round s) < target →
    ¬ fits s (pa_seat_id a) target →
    overflow_residue s a (raise_round target (set_bet (pa_seat_id a) target s)).

(** What [apply_action_kind] may come to. *)
Definition kind_outcome s (a : PlayerAction) s' (r : result EngineError bool) : Prop :=
  match r with
  | Ok reset => legal_move s a s' reset
  | Err (Domain e) => e = ActionIllegal ∧ s' = s
  | Err (Money e) => e = Overflow ∧ overflow_residue s a s'
  | Err _ => False
  end.

Section KindCases.
Context (a : PlayerAction) (s s' : EngineState) (r : result EngineError bool).
Let bet := seat_bet s (pa_seat_id a).
Let cur := b_current_bet (betting_round s).
Context (Hc : pot_conserved s).

Lemma raise_cases :
  pa_action_type a = RaiseTo → apply_action_kind a bet cur (cur - bet) s = (s', r) →
  kind_outcome s a s' r.
Proof.
  intros Hty. unfold apply_action_kind, illegal, ChipsOps.ZERO. rewrite Hty.
  destruct (pa_amount a) as [target|] eqn:Ham; mrun; [|by intros [= <- <-]].
  destruct (N.leb_spec target bet) as [|Hbet]; [by intros [= <- <-]|].
  rewrite chips_sub_or_zero.
  destruct (N.ltb_spec cur target) as [Hcur|]; mrun; [|by intros [= <- <-]].
  rewrite bool_decide_true by done.
  destruct (match b_min_raise_to (betting_round s) with
            | Some m => target <? m | None => false end) eqn:Hmin;
    cbn [negb andb orb]; [by intros [= <- <-]|].
  destruct (N.leb_spec (p_main_pot (pot s) + (target - bet)) u128_max) as [Hb|Hb].
  - rewrite pay_into_pot_ok by (exact Hc || exact Hb || lia). intros [= <- <-].
    assert (legal_move s a (bet_to (pa_seat_id a) target (raise_round target s)) true) as Hm.
    { apply move_raise; try done. intros m Hm. rewrite Hm in Hmin. by boolify. }
    by destruct s as [[] [] [] [] ?].
  - rewrite pay_into_pot_overflow by exact Hb. intros [= <- <-].
    split; [done|]. assert (overflow_residue s a (raise_round target
      (set_bet (pa_seat_id a) target s))) as Hres
      by (apply residue_raise; [done|]; unfold fits; fold bet; lia).
    by destruct s as [[] [] [] [] ?].
Qed.

Lemma all_in_cases :
  pa_action_type a = AllIn → apply_action_kind a bet cur (cur - bet) s = (s', r) →
  kind_outcome s a s' r.
Proof.
  intros Hty. unfold apply_action_kind, illegal, ChipsOps.ZERO. rewrite Hty.
  destruct (pa_amount a) as [target|] eqn:Ham; mrun; [|by intros [= <- <-]].
  destruct (N.leb_spec target bet) as [|Hbet]; [by intros [= <- <-]|].
  rewrite chips_sub_or_zero, bool_decide_false by done. cbn [andb].
  destruct (N.leb_spec (p_main_pot (pot s) + (target - bet)) u128_max) as [Hb|Hb];
    destruct (N.ltb_spec cur target) as [Hcur|Hcur]; mrun;
    rewrite ?pay_into_pot_ok, ?pay_into_pot_overflow by (exact Hc || exact Hb || lia);
    intros [= <- <-].
  - assert (legal_move s a (mark_all_in (pa_seat_id a)
      (bet_to (pa_seat_id a) target (raise_round target s))) true) as Hm
      by by apply move_all_in_raise.
    by destruct s as [[] [] [] [] ?].
  - assert (legal_move s a (mark_acted (pa_seat_id a) (mark_all_in (pa_seat_id a)
      (bet_to (pa_seat_id a) target s))) false) as Hm by by apply move_all_in_short.
    by destruct s as [[] [] [] [] ?].
  - split; [done|]. assert (overflow_residue s a (raise_round target
      (set_bet (pa_seat_id a) target s))) as Hres
      by (apply residue_raise; [done|]; unfold fits; fold bet; lia).
    by destruct s as [[] [] [] [] ?].
  - split; [done|]. apply residue_bet; [done|]. unfold fits. fold bet. lia.
Qed.
End KindCases.

Lemma apply_action_kind_cases a s s' r :
  pot_conserved s →
  let bet := seat_bet s (pa_seat_id a) in
  let cur := b_current_bet (betting_round s) in
  apply_action_kind a bet cur (cur - bet) s = (s', r) → kind_outcome s a s' r.
Proof.
  intros Hc bet cur Hrun. destruct (pa_action_type a) eqn:Hty; [| | |by apply raise_cases|by apply all_in_cases];
    revert Hrun; unfold apply_action_kind, illegal, ChipsOps.ZERO; rewrite Hty.
  - mrun. intros [= <- <-]. by apply move_fold.
  - destruct (N.eqb_spec (cur - bet) 0); mrun; intros [= <- <-]; [|done].
    apply move_check; [done|]. unfold cur, bet in *. lia.
  - destruct (N.eqb_spec (cur - bet) 0) as [|Hne]; mrun; [by intros [= <- <-]|].
    destruct (N.leb_spec (p_main_pot (pot s) + (cur - bet)) u128_max) as [Hb|Hb].
    + rewrite pay_into_pot_ok by (exact Hc || exact Hb || lia). intros [= <- <-].
      apply move_call; [done|unfold cur, bet in *; lia|done].
    + rewrite pay_into_pot_overflow by exact Hb. intros [= <- <-].
      split; [done|]. apply residue_bet; [done|]. unfold fits. fold bet. fold cur. lia.
Qed.

Lemma legal_move_runs a s s1 reset :
  pot_conserved s →
  legal_move s a s1 reset →
  let bet := seat_bet s (pa_seat_id a) in
  let cur := b_current_bet (betting_round s) in
  apply_action_kind a bet cur (cur - bet) s = (s1, Ok reset).
Proof.
  intros Hc Hm bet cur. unfold apply_action_kind, illegal, ChipsOps.ZERO.
  destruct Hm as [Hty|Hty Hle|Hty Hlt Hf|target Hty Ham Hb Hcur Hmin Hf
    |target Hty Ham Hb Hcur Hf|target Hty Ham Hb Hcur Hf]; rewrite Hty; mrun; try done.
  - rewrite (proj2 (N.eqb_eq _ _)) by (unfold cur, bet; lia). done.
  - rewrite (proj2 (N.eqb_neq _ _)) by (unfold cur, bet; lia).
    by rewrite pay_into_pot_ok by (exact Hc || exact Hf || (unfold cur, bet; lia)).
  - rewrite Ham. rewrite (proj2 (N.leb_gt _ _)), chips_sub_or_zero by done.
    rewrite (proj2 (N.ltb_lt _ _)) by done.
    replace (match b_min_raise_to (betting_round s) with
             | Some m => target <? m | None => false end) with false; [|].
    2:{ destruct (b_min_raise_to (betting_round s)); [|done].
        symmetry. apply N.ltb_ge. by apply Hmin. }
    rewrite bool_decide_true by done. cbn [andb orb negb].
    rewrite pay_into_pot_ok by (exact Hc || exact Hf || (unfold bet in *; lia)).
    by destruct s as [[] [] [] [] ?].
  - rewrite Ham. rewrite (proj2 (N.leb_gt _ _)), chips_sub_or_zero by done.
    rewrite (proj2 (N.ltb_lt _ _)) by done. rewrite bool_decide_false by done.
    cbn [andb]. rewrite pay_into_pot_ok by (exact Hc || exact Hf || (unfold bet in *; lia)).
    by destruct s as [[] [] [] [] ?].
  - rewrite Ham. rewrite (proj2 (N.leb_gt _ _)), chips_sub_or_zero by done.
    rewrite (proj2 (N.ltb_ge _ _)) by done. rewrite bool_decide_false by done.
    cbn [andb]. rewrite pay_into_pot_ok by (exact Hc || exact Hf || (unfold bet in *; lia)).
    by destruct s as [[] [] [] [] ?].
Qed.

(** [a] is addressed to the current turn. *)
Definition on_turn s (a : PlayerAction) : Prop :=
  pa_action_seq a = hs_next_action_seq (snapshot s) ∧
  hs_acting_seat_id (snapshot s) = Some (pa_seat_id a).

Lemma apply_action_accepts a s s1 reset :
  pot_conserved s → on_turn s a → legal_move s a s1 reset →
  apply_action a s =
    let '(s', st) := advance_turn (pa_seat_id a) (after_move a reset s1) in
    (s', Ok (Accepted st)).
Proof.
  intros Hc [Hseq Hact] Hm. unfold apply_action. mrun.
  rewrite (proj2 (N.eqb_eq _ _)) by done. rewrite bool_decide_true by done. cbn [negb].
  rewrite chips_sub_or_zero, (legal_move_runs a s s1 reset) by done.
  unfold after_move. destruct reset; mrun; by destruct (advance_turn _ _).
Qed.

Lemma apply_action_cases a s s' r :
  pot_conserved s →
  apply_action a s = (s', r) →
  match r with
  | Ok (Accepted st) =>
      on_turn s a ∧
      ∃ s1 reset, legal_move s a s1 reset ∧
                  advance_turn (pa_seat_id a) (after_move a reset s1) = (s', st)
  | Err (Domain e) => s' = s ∧ e = (if decide (pa_action_seq a = hs_next_action_seq (snapshot s) ∧
                                               hs_acting_seat_id (snapshot s) ≠ Some (pa_seat_id a))
                                    then NotYourTurn else ActionIllegal)
  | Err (Money e) => on_turn s a ∧ e = Overflow ∧ overflow_residue s a s'
  | Err _ => False
  end.
Proof.
  intros Hc. unfold apply_action. mrun.
  destruct (N.eqb_spec (pa_action_seq a) (hs_next_action_seq (snapshot s))) as [Hseq|Hseq];
    cbn [negb].
  2:{ intros [= <- <-]. split; [done|]. case_decide; [naive_solver|done]. }
  case_bool_decide as Hact; cbn [negb].
  2:{ intros [= <- <-]. split; [done|]. by rewrite decide_True. }
  rewrite chips_sub_or_zero. destruct (apply_action_kind _ _ _ _ s) as [s1 r1] eqn:Hk.
  apply apply_action_kind_cases in Hk; [|done]. destruct r1 as [reset|[]]; try done.
  - intros Heq. assert (∃ st, r = Ok (Accepted st) ∧
      advance_turn (pa_seat_id a) (after_move a reset s1) = (s', st)) as (st & -> & Hadv).
    { unfold after_move. destruct reset; mrun in Heq; destruct (advance_turn _ _) as [s2 st];
        simplify_eq; eauto. }
    split; [done|]. eauto.
  - destruct Hk as [-> ->]. intros [= <- <-]. split; [done|].
    by rewrite decide_False by naive_solver.
  - destruct Hk as [-> ?]. by intros [= <- <-].
Qed.
End Moves.

(** ** The invariant *)
Section Invariant.
Context `{CO : CardOps}.
Implicit Types s : EngineState.

Record mirrors s : Prop := {
  mir_hand_id : h_hand_id (hand s) = hs_hand_id (snapshot s);
  mir_street : h_street (hand s) = hs_street (snapshot s);
  mir_seq : h_next_action_seq (hand s) = hs_next_action_seq (snapshot s);
  mir_acting : h_acting_seat_id (hand s) = hs_acting_seat_id (snapshot s);
  mir_round_acting : b_acting_seat_id (betting_round s) = hs_acting_seat_id (snapshot s);
}.

Record pot_ok s : Prop := {
  pot_sum : pot_conserved s;
  pot_total_eq : hs_pot_total (snapshot s) = p_main_pot (pot s);
  pot_bound : p_main_pot (pot s) ≤ u128_max;
  pot_side_eq : p_side_pots (pot s)
                = build_side_pots (p_player_contributions (pot s)) (h_folded_seats (hand s));
}.

Record turn_ok s : Prop := {
  turn_running : hs_status (snapshot s) = HRunning ↔ is_Some (hs_acting_seat_id (snapshot s));
  turn_seated x : hs_acting_seat_id (snapshot s) = Some x → x ∈ h_seated_players (hand s);
}.

Definition bets_ok s : Prop := ∀ x, seat_bet s x ≤ b_current_bet (betting_round s).

Record engine_inv s : Prop := {
  inv_mirrors : mirrors s;
  inv_pot : pot_ok s;
  inv_turn : turn_ok s;
  inv_bets : bets_ok s;
}.

Lemma build_side_pots_empty folded : build_side_pots ∅ folded = [].
Proof. unfold build_side_pots, build_pot_layers. by rewrite map_to_list_empty. Qed.

Lemma engine_inv_new room no hid : engine_inv (EngineState_new room no hid).
Proof.
  split; [done| |split|].
  - split; cbn; [|done..|by rewrite build_side_pots_empty].
    symmetry. apply (msum_empty (K:=N)).
  - cbn. split; [done|]. by intros [? ?].
  - done.
  - intros x. unfold seat_bet. cbn. rewrite lookup_empty. done.
Qed.

Lemma engine_inv_seat_player seat s : engine_inv s → engine_inv (seat_player seat s).
Proof.
  intros [Hm Hp [Hr Hseat] Hb]. split; [by destruct Hm|by destruct Hp| |done].
  split; [done|]. cbn. intros x Hx%Hseat. set_solver.
Qed.

(** *** Moves *)

Definition same_snapshot_but_pot s s' : Prop :=
  ∃ total, snapshot s' = mkHandSnapshot (hs_room_id (snapshot s)) (hs_hand_id (snapshot s))
    (hs_hand_no (snapshot s)) (hs_status (snapshot s)) (hs_street (snapshot s))
    (hs_board_cards (snapshot s)) (hs_acting_seat_id (snapshot s))
    (hs_next_action_seq (snapshot s)) total.

Lemma legal_move_frame s a s1 reset :
  legal_move s a s1 reset →
  same_snapshot_but_pot s s1 ∧
  h_hand_id (hand s1) = h_hand_id (hand s) ∧ h_street (hand s1) = h_street (hand s) ∧
  h_next_action_seq (hand s1) = h_next_action_seq (hand s) ∧
  h_acting_seat_id (hand s1) = h_acting_seat_id (hand s) ∧
  h_seated_players (hand s1) = h_seated_players (hand s) ∧
  b_acting_seat_id (betting_round s1) = b_acting_seat_id (betting_round s) ∧
  dealing s1 = dealing s.
Proof.
  intros Hm. split.
  - exists (hs_pot_total (snapshot s1)). by destruct Hm, s as [[] [] [] [] ?].
  - by destruct Hm.
Qed.

Lemma seat_bet_set_bet s seat target x :
  seat_bet (set_bet seat target s) x = if decide (seat = x) then target else seat_bet s x.
Proof. unfold seat_bet. cbn. rewrite lookup_insert. by case_decide. Qed.

Lemma paid_conserved s seat delta s' :
  p_player_contributions (pot s')
    = <[seat := default 0 (p_player_contributions (pot s) !! seat) + delta]>
        (p_player_contributions (pot s)) →
  p_main_pot (pot s') = p_main_pot (pot s) + delta →
  pot_conserved s → pot_conserved s'.
Proof.
  unfold pot_conserved. intros -> ->.
  pose proof (msum_insert (p_player_contributions (pot s)) seat
    (default 0 (p_player_contributions (pot s) !! seat) + delta)). lia.
Qed.

Lemma legal_move_pot s a s1 reset :
  pot_ok s → legal_move s a s1 reset →
  pot_conserved s1 ∧ hs_pot_total (snapshot s1) = p_main_pot (pot s1) ∧
  p_main_pot (pot s1) ≤ u128_max ∧ p_main_pot (pot s) ≤ p_main_pot (pot s1).
Proof.
  intros [Hc Ht Hb _] Hm. destruct Hm; unfold fits in *; cbn -[N.sub N.add u128_max];
    repeat split; try done; try lia; (eapply paid_conserved; [| |exact Hc]; done).
Qed.

Lemma legal_move_bets s a s1 reset :
  bets_ok s → legal_move s a s1 reset → bets_ok s1.
Proof.
  intros Hb Hm x. specialize (Hb x).
  assert (∀ target, seat_bet (bet_to (pa_seat_id a) target s) x
    = if decide (pa_seat_id a = x) then target else seat_bet s x) as Hbt
    by (intros; apply seat_bet_set_bet).
  destruct Hm as [| | |target ? ? ? ?|target ? ? ? ?|target ? ? ? ?]; cbn; try done;
    match goal with
    | |- seat_bet ?s' x ≤ _ =>
        change (seat_bet s' x) with (seat_bet (bet_to (pa_seat_id a) target s) x) ||
        change (seat_bet s' x) with
          (seat_bet (bet_to (pa_seat_id a) (b_current_bet (betting_round s)) s) x)
    end; rewrite Hbt; case_decide; lia.
Qed.

Lemma after_move_inv s a s1 reset :
  engine_inv s → hs_status (snapshot s) = HRunning → legal_move s a s1 reset →
  engine_inv (after_move a reset s1) ∧
  hs_status (snapshot (after_move a reset s1)) = HRunning.
Proof.
  intros [Hm Hp [Hr Hseat] Hb] Hrun Hmove.
  destruct (legal_move_frame _ _ _ _ Hmove) as
    ([total Hsnap] & Hh1 & Hh2 & Hh3 & Hh4 & Hh5 & Hh6 & Hh7).
  destruct (legal_move_pot _ _ _ _ Hp Hmove) as (Hp1 & Hp2 & Hp3 & _).
  pose proof (legal_move_bets _ _ _ _ Hb Hmove) as Hb1.
  assert (hs_status (snapshot (after_move a reset s1)) = HRunning) as Hst
    by (destruct reset; cbn; by rewrite Hsnap).
  split; [|done]. split.
  - destruct Hm. split; destruct reset; cbn; rewrite ?Hsnap; cbn; congruence.
  - split; destruct reset; try exact Hp1; try exact Hp2; try exact Hp3; done.
  - split; destruct reset; cbn; rewrite ?Hsnap; cbn; rewrite ?Hh5; done.
  - intros x. by destruct reset; apply Hb1.
Qed.

(** *** The turn *)

Lemma seat_at_elem (l : list SeatId) i : (i < length l)%nat → seat_at l i ∈ l.
Proof.
  intros H. unfold seat_at. apply list_elem_of_In. by apply nth_In.
Qed.

Lemma position_Some x l i : position x l = Some i → l !! i = Some x.
Proof.
  revert i. induction l as [|y l IH]; intros i; cbn; [done|].
  destruct (N.eqb_spec y x) as [->|]; [by intros [= <-]|].
  destruct (position x l) eqn:E; cbn; [|done]. intros [= <-]. by apply IH.
Qed.

Lemma rotate_find_Some accept seats idx x :
  rotate_find accept seats idx = Some x → x ∈ seats ∧ accept x = true.
Proof.
  unfold rotate_find. intros Hh.
  assert (x ∈ filter (λ c, accept c = true)
    (map (λ step, seat_at seats ((idx + step) mod length seats)) (seq 1 (length seats))))
    as Hx.
  { destruct (filter _ _); [done|]. injection Hh as ->. constructor. }
  apply list_elem_of_filter in Hx as [Ha Hx]. split; [|done].
  apply list_elem_of_In, in_map_iff in Hx as (step & <- & Hstep%in_seq).
  apply seat_at_elem, Nat.mod_upper_bound. lia.
Qed.

Lemma active_seats_elem s x :
  x ∈ active_seats_sorted s ↔ x ∈ h_seated_players (hand s) ∧ x ∉ h_folded_seats (hand s).
Proof.
  unfold active_seats_sorted. rewrite sortN_elem, list_elem_of_filter, elem_of_elements.
  tauto.
Qed.

Lemma actionable_seats_elem s x :
  x ∈ actionable_seats_sorted s ↔
  x ∈ h_seated_players (hand s) ∧ x ∉ h_folded_seats (hand s) ∧ x ∉ h_all_in_seats (hand s).
Proof.
  unfold actionable_seats_sorted. rewrite sortN_elem, list_elem_of_filter, elem_of_elements.
  tauto.
Qed.

Lemma next_active_elem s seats x :
  next_active_seat_left_of_button s seats = Some x → x ∈ seats.
Proof.
  unfold next_active_seat_left_of_button. destruct seats as [|y seats]; [done|].
  destruct (sorted_set _ !! _); cbn; [|done].
  intros [_ Hx]%rotate_find_Some. by apply bool_decide_eq_true in Hx.
Qed.

(** What passing the turn can do: end the hand, go to showdown, or hand the
    turn to a seated player that has not folded. Nothing else of the hand moves. *)
Lemma advance_turn_effect seat s s' st :
  advance_turn seat s = (s', st) →
  pot s' = pot s ∧ dealing s' = dealing s ∧
  h_seated_players (hand s') = h_seated_players (hand s) ∧
  h_folded_seats (hand s') = h_folded_seats (hand s) ∧
  h_all_in_seats (hand s') = h_all_in_seats (hand s) ∧
  hs_room_id (snapshot s') = hs_room_id (snapshot s) ∧
  hs_hand_id (snapshot s') = hs_hand_id (snapshot s) ∧
  hs_hand_no (snapshot s') = hs_hand_no (snapshot s) ∧
  hs_next_action_seq (snapshot s') = hs_next_action_seq (snapshot s) ∧
  hs_pot_total (snapshot s') = hs_pot_total (snapshot s) ∧
  (mirrors s → mirrors s') ∧ (bets_ok s → bets_ok s') ∧
  match hs_acting_seat_id (snapshot s') with
  | None => hs_status (snapshot s') = HSettled ∨ hs_status (snapshot s') = HShowdown
  | Some x => hs_status (snapshot s') = hs_status (snapshot s) ∧
              x ∈ h_seated_players (hand s) ∧ x ∉ h_folded_seats (hand s)
  end.
Proof.
  unfold advance_turn. case_match eqn:Hlen.
  { intros [= <- <-]. do 10 (split; [done|]).
    split; [by intros []; split|]. split; [done|]. by left. }
  boolify. destruct (is_betting_round_complete _ _).
  - unfold advance_street. destruct (next_street _) as [next|] eqn:Hnext.
    + intros [= <- <-]. unfold reveal_board.
      cbn. destruct (dealing s) as [d|] eqn:Hd; cbn;
        (do 10 (split; [done|])); (split; [by intros []; split|]);
        (split; [by intros _ x; unfold seat_bet; cbn; rewrite lookup_empty|]);
        (split; [done|]); rewrite <-active_seats_elem;
        (destruct (next_active_seat_left_of_button _ _) eqn:Hn; cbn;
          [by eapply next_active_elem|apply seat_at_elem; lia]).
    + intros [= <- <-]. cbn. destruct (dealing s) as [d|] eqn:Hd; cbn;
        (do 10 (split; [done|])); (split; [by intros []; split|]); (split; [done|]); by right.
  - destruct (actionable_seats_sorted s) as [|y l] eqn:Hact.
    + intros [= <- <-]. do 10 (split; [done|]).
      split; [by intros []; split|]. split; [done|]. by right.
    + intros [= <- <-]. do 10 (split; [done|]).
      split; [by intros []; split|]. split; [done|]. cbn. split; [done|].
      destruct (position _ _ ≫= _) as [x|] eqn:Hx; cbn.
      * destruct (position _ _) as [i|]; cbn in Hx; [|done].
        apply rotate_find_Some in Hx as [Hin Hacc]. apply sorted_set_elem in Hin.
        boolify. by split.
      * assert (y ∈ actionable_seats_sorted s) as Hy by (rewrite Hact; constructor).
        apply actionable_seats_elem in Hy. tauto.
Qed.

Lemma advance_turn_inv seat s s' st :
  engine_inv s → hs_status (snapshot s) = HRunning →
  advance_turn seat s = (s', st) → engine_inv s'.
Proof.
  intros [Hm Hp [Hr Hseat] Hb] Hrun Hadv.
  apply advance_turn_effect in Hadv as
    (Hpot & _ & Hseated & Hfold & _ & _ & _ & _ & _ & Htot & Hmir & Hbets & Hact).
  split; [by apply Hmir| | |by apply Hbets].
  - destruct Hp. split; unfold pot_conserved in *; rewrite ?Hpot, ?Hfold, ?Htot; done.
  - destruct (hs_acting_seat_id (snapshot s')) as [x|] eqn:Hx.
    + destruct Hact as (Hst & Hin & _). split.
      * rewrite Hst, Hx. split; [by eexists|done].
      * rewrite Hx, Hseated. intros ? [= <-]. done.
    + split; rewrite Hx; [|done].
      split; [|by intros [? ?]]. intros E. destruct Hact; congruence.
Qed.

Lemma overflow_residue_inv a s s' :
  engine_inv s → overflow_residue s a s' → engine_inv s'.
Proof.
  intros [Hm Hp Ht Hb] Hres. split.
  - destruct Hm. by destruct Hres; split.
  - destruct Hp. by destruct Hres; split.
  - destruct Ht. by destruct Hres; split.
  - intros x. specialize (Hb x). destruct Hres.
    + rewrite seat_bet_set_bet. cbn. case_decide; lia.
    + change (seat_bet (raise_round target (set_bet (pa_seat_id a) target s)) x)
        with (seat_bet (set_bet (pa_seat_id a) target s) x).
      rewrite seat_bet_set_bet. cbn. case_decide; lia.
Qed.

Lemma on_turn_running a s :
  engine_inv s → on_turn s a → hs_status (snapshot s) = HRunning.
Proof. intros [_ _ [Hr _] _] [_ Hact]. apply Hr. rewrite Hact. by eexists. Qed.

(** The invariant survives every call of [apply_action], refused ones included. *)
Lemma apply_action_preserves a s s' r :
  engine_inv s → apply_action a s = (s', r) → engine_inv s'.
Proof.
  intros Hinv Happ. pose proof (inv_pot _ Hinv) as [Hc _ _ _].
  apply apply_action_cases in Happ; [|done].
  destruct r as [[st]|[]]; try done.
  - destruct Happ as (Hon & s1 & reset & Hmove & Hadv).
    pose proof (on_turn_running _ _ Hinv Hon) as Hrun.
    destruct (after_move_inv _ _ _ _ Hinv Hrun Hmove). by eapply advance_turn_inv.
  - by destruct Happ as [-> _].
  - destruct Happ as (_ & _ & Hres). by eapply overflow_residue_inv.
Qed.
End Invariant.
