(* ===== verification/Dealing.v ===== *)
(** Correctness of the deal ([deal_new_hand_internal_with_deck]).

    [deal_cards_layout] gives the layout of the dealt cards in the deck,
    [blinds_spec] the seats that post the blinds, [deal_cases] the outcome of the
    deal on every branch, and [deal_preserves] the invariant of the hand. *)

From stdpp Require Import base tactics option list gmap sorting.
From Stdlib Require Import NArith Lia.
From S2P Require Import Prelude.
From S2P Require Import Domain.
From S2P Require Import EngineState.
From S2P Require Import Pots.
From S2P Require Import Engine.
From S2P Require Import EngineInv.

Local Open Scope N_scope.

Section Cards.
Context `{CO : CardOps}.

(** ** The cards *)

Definition deal_one (h : gmap SeatId (Card * Card)) (e : SeatId * Card)
    : gmap SeatId (Card * Card) :=
  match h !! fst e with
  | Some held => <[fst e := (fst held, snd e)]> h
  | None => <[fst e := (snd e, snd e)]> h
  end.

Lemma deal_round_ok seats cards rest h :
  length cards = length seats →
  deal_round seats (cards ++ rest) h = Ok (rest, foldl deal_one h (zip seats cards)).
Proof.
  revert cards h. induction seats as [|seat seats IH]; intros [|card cards] h Hlen;
    try done. injection Hlen as Hlen. cbn [app deal_round next_card]. mrun.
  rewrite IH by done. done.
Qed.

Lemma deal_round_short seats cards h :
  (length cards < length seats)%nat → deal_round seats cards h = Err InsufficientDeck.
Proof.
  revert cards h. induction seats as [|seat seats IH]; intros [|card cards] h Hlen;
    cbn in Hlen; try lia; [done|]. cbn [deal_round next_card]. mrun. apply IH. lia.
Qed.

Lemma deal_one_lookup h seat card x :
  deal_one h (seat, card) !! x =
    if decide (seat = x) then Some (from_option fst card (h !! x), card) else h !! x.
Proof.
  unfold deal_one. cbn. destruct (h !! seat) as [held|] eqn:Hs;
    rewrite lookup_insert; case_decide; subst; by rewrite ?Hs.
Qed.

Lemma deal_all_lookup_ne seats cards h x :
  x ∉ seats → foldl deal_one h (zip seats cards) !! x = h !! x.
Proof.
  revert cards h. induction seats as [|seat seats IH]; intros [|card cards] h Hx; try done.
  cbn. rewrite IH by set_solver. rewrite deal_one_lookup. case_decide; set_solver.
Qed.

Lemma deal_all_lookup seats cards h i x card :
  NoDup seats → seats !! i = Some x → cards !! i = Some card →
  foldl deal_one h (zip seats cards) !! x = Some (from_option fst card (h !! x), card).
Proof.
  revert cards h i. induction seats as [|seat seats IH];
    intros [|card' cards] h i Hnd Hi Hc; try by destruct i.
  apply NoDup_cons in Hnd as [Hnin Hnd]. destruct i as [|i]; cbn in *; simplify_eq.
  - rewrite deal_all_lookup_ne by done. rewrite deal_one_lookup. by rewrite decide_True.
  - rewrite (IH cards _ i) by done. rewrite deal_one_lookup.
    rewrite decide_False; [done|]. intros ->. apply Hnin. by eapply list_elem_of_lookup_2.
Qed.

(** The hole cards of the [i]-th seat are the [i]-th cards of the two rounds. *)
Definition hole_cards_of (seats : list SeatId) (round1 round2 : list Card)
    : gmap SeatId (Card * Card) :=
  list_to_map (zip seats (zip round1 round2)).

Lemma deal_two_rounds seats round1 round2 :
  NoDup seats → length round1 = length seats → length round2 = length seats →
  foldl deal_one (foldl deal_one ∅ (zip seats round1)) (zip seats round2)
  = hole_cards_of seats round1 round2.
Proof.
  intros Hnd H1 H2. apply map_eq. intros x. unfold hole_cards_of.
  destruct (decide (x ∈ seats)) as [[i Hi]%list_elem_of_lookup_1|Hx].
  - pose proof (lookup_lt_Some _ _ _ Hi) as Hlt.
    destruct (lookup_lt_is_Some_2 round1 i) as [c1 Hc1]; [lia|].
    destruct (lookup_lt_is_Some_2 round2 i) as [c2 Hc2]; [lia|].
    rewrite (deal_all_lookup _ _ _ i x c2) by done.
    rewrite (deal_all_lookup _ _ _ i x c1) by done. rewrite lookup_empty. cbn. symmetry.
    apply elem_of_list_to_map_1.
    + rewrite fst_zip; [done|]. rewrite length_zip_with. lia.
    + apply list_elem_of_lookup. exists i. rewrite !lookup_zip_with, Hi, Hc1, Hc2. done.
  - rewrite !deal_all_lookup_ne by done. rewrite lookup_empty. symmetry.
    apply not_elem_of_list_to_map_1. rewrite fst_zip; [done|].
    rewrite length_zip_with. lia.
Qed.

(** Two rounds of hole cards from the top of the deck, then burn, flop, burn,
    turn, burn, river; the rest stays in the deck. *)
Lemma deal_cards_layout seats round1 round2 b1 f1 f2 f3 b2 t b3 r rest :
  NoDup seats → length round1 = length seats → length round2 = length seats →
  deal_cards seats (round1 ++ round2 ++ [b1; f1; f2; f3; b2; t; b3; r] ++ rest)
  = Ok (mkDealingState rest [b1; b2; b3] [f1; f2; f3; t; r]
          (hole_cards_of seats round1 round2)).
Proof.
  intros Hnd H1 H2. unfold deal_cards. rewrite deal_round_ok by done. mrun.
  rewrite deal_round_ok by done. mrun. cbn [app next_card]. by rewrite deal_two_rounds.
Qed.

(** Every deck that passes the length guard has that layout. *)
Lemma deck_layout (n : nat) (deck : list Card) :
  (n * 2 + 8 ≤ length deck)%nat →
  ∃ round1 round2 b1 f1 f2 f3 b2 t b3 r rest,
    deck = round1 ++ round2 ++ [b1; f1; f2; f3; b2; t; b3; r] ++ rest ∧
    length round1 = n ∧ length round2 = n.
Proof.
  intros Hlen. exists (take n deck), (take n (drop n deck)).
  pose proof (length_drop deck (n + n)) as Hd.
  destruct (drop (n + n)%nat deck) as [|b1 [|f1 [|f2 [|f3 [|b2 [|t [|b3 [|r rest]]]]]]]] eqn:E;
    cbn in Hd; try lia.
  exists b1, f1, f2, f3, b2, t, b3, r, rest.
  rewrite !length_take, length_drop. split; [|lia].
  change ([b1; f1; f2; f3; b2; t; b3; r] ++ rest)
    with (b1 :: f1 :: f2 :: f3 :: b2 :: t :: b3 :: r :: rest).
  rewrite <-E, <-drop_drop, take_drop. by rewrite take_drop.
Qed.

(** The cards held after the deal, in some order. *)
Definition all_cards (d : DealingState) : list Card :=
  flat_map (λ e, [fst (snd e); snd (snd e)]) (map_to_list (d_hole_cards d))
    ++ d_burn_cards d ++ d_board_cards d ++ d_undealt_deck d.

Lemma flat_pairs_perm (l : list (Card * Card)) :
  flat_map (λ e, [fst e; snd e]) l ≡ₚ map fst l ++ map snd l.
Proof.
  induction l as [|[a b] l IH]; [done|]. cbn. rewrite IH. apply perm_skip.
  apply Permutation_middle.
Qed.

Lemma deal_cards_perm seats deck d :
  NoDup seats → (length seats * 2 + 8 ≤ length deck)%nat →
  deal_cards seats deck = Ok d → all_cards d ≡ₚ deck.
Proof.
  intros Hnd Hlen Hd.
  destruct (deck_layout _ _ Hlen) as
    (r1 & r2 & b1 & f1 & f2 & f3 & b2 & t & b3 & r & rest & -> & H1 & H2).
  rewrite deal_cards_layout in Hd by done. injection Hd as <-.
  unfold all_cards. cbn [d_hole_cards d_burn_cards d_board_cards d_undealt_deck].
  assert (length (zip r1 r2) = length seats) as Hz by (rewrite length_zip_with; lia).
  assert (flat_map (λ e, [fst (snd e); snd (snd e)])
            (map_to_list (hole_cards_of seats r1 r2)) ≡ₚ r1 ++ r2) as Hh.
  { unfold hole_cards_of. rewrite map_to_list_to_map by (rewrite fst_zip; [done|lia]).
    transitivity (flat_map (λ e, [fst e; snd e]) (map snd (zip seats (zip r1 r2)))).
    { induction (zip seats (zip r1 r2)) as [|e l IH]; [done|]. cbn. by rewrite IH. }
    change (map snd (zip seats (zip r1 r2))) with ((zip seats (zip r1 r2)).*2).
    rewrite snd_zip by lia. rewrite flat_pairs_perm.
    change (map fst (zip r1 r2)) with ((zip r1 r2).*1).
    change (map snd (zip r1 r2)) with ((zip r1 r2).*2).
    by rewrite fst_zip, snd_zip by lia. }
  rewrite Hh. rewrite <-app_assoc. do 2 apply Permutation_app_head. cbn.
  solve_Permutation.
Qed.
End Cards.

(** ** The blinds *)
Section Blinds.
Context `{CO : CardOps}.
Implicit Types s : EngineState.

Lemma seat_at_inj (l : list SeatId) i j :
  NoDup l → (i < length l)%nat → (j < length l)%nat → seat_at l i = seat_at l j → i = j.
Proof.
  intros Hnd Hi Hj. unfold seat_at. intros E.
  apply (NoDup_lookup l i j (nth i l 0)); [done|..].
  - by apply list_lookup_nth_lt || (rewrite nth_lookup; destruct (lookup_lt_is_Some_2 l i) as [? ->]).
  - rewrite E. rewrite nth_lookup. by destruct (lookup_lt_is_Some_2 l j) as [? ->].
Qed.

Lemma mod_step_ne n i j k : (0 < n)%nat → (j < k)%nat → (k < j + n)%nat →
  ((i + j) mod n ≠ (i + k) mod n)%nat.
Proof.
  intros Hn Hjk Hkn E.
  pose proof (Nat.div_mod (i + j) n ltac:(lia)) as H1.
  pose proof (Nat.div_mod (i + k) n ltac:(lia)) as H2.
  rewrite <-E in H2. set (q1 := ((i + j) / n)%nat) in *. set (q2 := ((i + k) / n)%nat) in *.
  assert ((n * q2 - n * q1 = k - j)%nat) as H3 by lia.
  rewrite <-Nat.mul_sub_distr_l in H3. destruct (q2 - q1)%nat as [|d]; [lia|].
  rewrite Nat.mul_succ_r in H3. lia.
Qed.

(** The seats that post the blinds are two different seats of the table, next
    to each other in seat order; heads-up the dealer posts the small blind and
    opens, otherwise the seat after the big blind opens. *)
Lemma blinds_spec s seats :
  NoDup seats → (2 ≤ length seats)%nat →
  ∃ d sb bb first,
    blinds_and_first_to_act s seats = Some (sb, bb, first) ∧
    d = state_dealer_index (hs_hand_no (snapshot s)) (length seats) ∧
    (d < length seats)%nat ∧
    sb ∈ seats ∧ bb ∈ seats ∧ first ∈ seats ∧ sb ≠ bb ∧ first ≠ bb.
Proof.
  intros Hnd Hlen. unfold blinds_and_first_to_act.
  destruct (Nat.ltb_spec (length seats) 2); [lia|].
  set (d := state_dealer_index (hs_hand_no (snapshot s)) (length seats)).
  assert (d < length seats)%nat as Hd.
  { unfold d, state_dealer_index. destruct (Nat.eqb_spec (length seats) 0); [lia|].
    apply Nat.mod_upper_bound. lia. }
  assert (∀ k, (d + k) mod length seats < length seats)%nat as Hm
    by (intros; apply Nat.mod_upper_bound; lia).
  assert (d mod length seats = (d + 0) mod length seats)%nat as H0 by (f_equal; lia).
  rewrite Nat.mod_small in H0 by done.
  destruct (Nat.eqb_spec (length seats) 2) as [H2|H2].
  - exists d, (seat_at seats d), (seat_at seats ((d + 1) mod length seats)), (seat_at seats d).
    assert (seat_at seats d ≠ seat_at seats ((d + 1) mod length seats)).
    { intros E. apply seat_at_inj in E; [|done..]. rewrite H0 in E at 1.
      by apply (mod_step_ne (length seats) d 0 1) in E; [|lia..]. }
    repeat split; try done; apply seat_at_elem; done.
  - eexists d, _, _, _. split; [done|].
    repeat split; try done; try (apply seat_at_elem; done);
      intros E; apply seat_at_inj in E; try done.
    + by apply (mod_step_ne (length seats) d 1 2) in E; [|lia..].
    + symmetry in E. by apply (mod_step_ne (length seats) d 2 3) in E; [|lia..].
Qed.

(** ** The outcome of the deal *)

(** The table once the blinds [sb] and [bb] are posted. *)
Definition blinds_posted (sb bb : SeatId) s : EngineState :=
  set_snap_pot_total (DEFAULT_SMALL_BLIND + DEFAULT_BIG_BLIND)
    (set_pot_main (DEFAULT_SMALL_BLIND + DEFAULT_BIG_BLIND)
      (set_pot_contributions (<[bb := DEFAULT_BIG_BLIND]> (<[sb := DEFAULT_SMALL_BLIND]> ∅))
        (set_round_bets (<[bb := DEFAULT_BIG_BLIND]> (<[sb := DEFAULT_SMALL_BLIND]> ∅)) s))).

Lemma add_contribution_first seat delta s :
  p_player_contributions (pot s) !! seat = None → 0 < delta ≤ u128_max →
  add_contribution seat delta s
  = (set_pot_contributions (<[seat := delta]> (p_player_contributions (pot s))) s, Ok tt).
Proof.
  intros Hn [Hd Hb]. unfold add_contribution, ChipsOps.checked_add, Prelude.checked_add,
    ChipsOps.ZERO. rewrite (proj2 (N.eqb_neq _ _)) by lia. mrun. rewrite Hn. cbn.
  rewrite (proj2 (N.leb_le _ _)) by done. done.
Qed.

Lemma post_blinds_ok sb bb s :
  sb ≠ bb → b_player_bets (betting_round s) = ∅ → p_player_contributions (pot s) = ∅ →
  post_blinds sb bb s = (blinds_posted sb bb s, Ok tt).
Proof.
  intros Hne Hb Hc. unfold post_blinds. mrun.
  rewrite add_contribution_first; [|by cbn; rewrite Hc, lookup_empty|done].
  rewrite add_contribution_first; [|cbn; by rewrite Hc, lookup_insert_ne|done].
  unfold blinds_posted. destruct s as [[] [] [] [] ?]. cbn in Hb, Hc. by subst.
Qed.

Lemma unique_count_NoDup (deck : list Card) :
  unique_count deck = length deck ↔ NoDup (map card_to_u8 deck).
Proof.
  unfold unique_count. rewrite <-(length_map card_to_u8 deck).
  generalize (map card_to_u8 deck). intros l. split.
  - induction l as [|x l IH]; intros H; [constructor|].
    assert (size (list_to_set l : gset N) ≤ length l)%nat as Hle.
    { clear. induction l as [|x l IH]; cbn; [by rewrite size_empty|].
      pose proof (size_union_alt ({[x]} : gset N) (list_to_set l)) as E.
      assert (size (list_to_set l ∖ {[x]} : gset N) ≤ size (list_to_set l : gset N))%nat
        by (apply subseteq_size; set_solver).
      rewrite size_singleton in E. lia. }
    cbn in H. destruct (decide (x ∈ l)) as [Hin|Hnin].
    + replace ({[x]} ∪ list_to_set l : gset N) with (list_to_set l : gset N) in H; [lia|].
      apply set_eq. intros y. rewrite elem_of_union, elem_of_singleton, !elem_of_list_to_set.
      naive_solver.
    + constructor; [done|]. apply IH.
      rewrite size_union in H by (intros y; rewrite elem_of_singleton, elem_of_list_to_set;
        by intros ->). rewrite size_singleton in H. lia.
  - intros Hnd. by rewrite size_list_to_set.
Qed.

(** The three guards, in the order of the code, and the table after a deal that
    passes them: no deal fails half-way. *)
Definition deal_refusal s (deck : list Card) : option EngineError :=
  let seats := sorted_set (h_seated_players (hand s)) in
  if decide (length seats < 2)%nat then Some NotEnoughPlayersToDeal
  else if decide (NoDup (map card_to_u8 deck)) then
    if decide (length deck < length seats * 2 + 8)%nat then Some InsufficientDeck else None
  else Some DuplicateCardsInDeck.

Lemma deal_cases new_hand_id deck s :
  match deal_refusal s deck with
  | Some e => deal_new_hand_internal_with_deck new_hand_id deck s = (s, Err e)
  | None => ∃ d sb bb first,
      deal_cards (sorted_set (h_seated_players (hand s))) deck = Ok d ∧
      all_cards d ≡ₚ deck ∧
      blinds_and_first_to_act (bump_hand_no s) (sorted_set (h_seated_players (hand s)))
        = Some (sb, bb, first) ∧
      sb ∈ h_seated_players (hand s) ∧ bb ∈ h_seated_players (hand s) ∧
      first ∈ h_seated_players (hand s) ∧ sb ≠ bb ∧ first ≠ bb ∧
      deal_new_hand_internal_with_deck new_hand_id deck s
      = (blinds_posted sb bb (open_hand new_hand_id first
           (set_dealing (Some d) (bump_hand_no s))), Ok tt)
  end.
Proof.
  unfold deal_refusal, deal_new_hand_internal_with_deck. mrun.
  set (seats := sorted_set (h_seated_players (hand s))).
  assert (NoDup seats) as Hnd by apply sorted_set_NoDup.
  case_decide as Hn.
  { by rewrite (proj2 (Nat.ltb_lt _ _)). }
  rewrite (proj2 (Nat.ltb_ge _ _)) by lia.
  case_decide as Hd.
  2:{ rewrite (proj2 (Nat.eqb_neq _ _)); [done|]. by rewrite unique_count_NoDup. }
  rewrite (proj2 (Nat.eqb_eq _ _)) by by apply unique_count_NoDup. cbn [negb].
  case_decide as Hl.
  { by rewrite (proj2 (Nat.ltb_lt _ _)). }
  rewrite (proj2 (Nat.ltb_ge _ _)) by lia.
  destruct (deck_layout (length seats) deck ltac:(lia)) as
    (r1 & r2 & b1 & f1 & f2 & f3 & b2 & t & b3 & r & rest & Hdeck & H1 & H2).
  assert (∃ d, deal_cards seats deck = Ok d) as [d Hdeal]
    by (rewrite Hdeck, deal_cards_layout by done; by eexists).
  assert (all_cards d ≡ₚ deck) as Hperm by (apply (deal_cards_perm seats); done || lia).
  rewrite Hdeal.
  assert (hs_hand_no (snapshot (set_dealing (Some d) (bump_hand_no s)))
          = hs_hand_no (snapshot (bump_hand_no s))) as Hno by done.
  destruct (blinds_spec (bump_hand_no s) seats Hnd) as
    (i & sb & bb & first & Hb & _ & _ & Hsb & Hbb & Hf & Hne & Hfne); [lia|].
  replace (blinds_and_first_to_act (set_dealing (Some d) (bump_hand_no s)) seats)
    with (Some (sb, bb, first)) by (by rewrite <-Hb).
  exists d, sb, bb, first. unfold seats in Hsb, Hbb, Hf.
  rewrite sorted_set_elem in Hsb, Hbb, Hf.
  do 8 (split; [done|]). mrun. by rewrite post_blinds_ok.
Qed.
End Blinds.

(** ** The deal establishes the invariant *)
Section DealInv.
Context `{CO : CardOps}.
Implicit Types s : EngineState.

(** With two contributions there is a single layer, the main pot. *)
Lemma two_contributions_no_side (a b : SeatId) (x y : Chips) folded :
  a ≠ b → 0 < x → x ≤ y → build_side_pots (<[b := y]> (<[a := x]> ∅)) folded = [].
Proof.
  intros Hab Hx Hxy. unfold build_side_pots, build_pot_layers.
  rewrite build_pot_layers_from_ref.
  assert (map_to_list (<[b := y]> (<[a := x]> ∅ : gmap SeatId Chips))
          ≡ₚ [(b, y); (a, x)]) as Hp.
  { rewrite map_to_list_insert by (by rewrite lookup_insert_ne, lookup_empty).
    rewrite map_to_list_insert by apply lookup_empty. by rewrite map_to_list_empty. }
  rewrite (layers_ref_perm _ _ _ _ _ _ Hp), (Permutation_length Hp).
  cbn [layers_ref length].
  assert (above 0 [(b, y); (a, x)] = [(b, y); (a, x)]) as Ha
    by (apply above_all; repeat constructor; cbn; lia).
  assert (min_amount [(b, y); (a, x)] = x) as Hm by (cbn; lia).
  assert (length (above x [(b, y); (a, x)]) ≤ 1)%nat as Hl.
  { rewrite !above_cons. cbn [snd]. destruct (decide (x < x)); [lia|].
    case_decide; cbn; lia. }
  rewrite Ha, Hm. cbn [length Nat.leb]. by rewrite (proj2 (Nat.leb_le _ _) Hl).
Qed.

Lemma deal_preserves new_hand_id deck s s' r :
  engine_inv s → deal_new_hand_internal_with_deck new_hand_id deck s = (s', r) →
  engine_inv s'.
Proof.
  intros Hinv Hd. pose proof (deal_cases new_hand_id deck s) as Hc.
  destruct (deal_refusal s deck) as [e|]; [by rewrite Hc in Hd; injection Hd as <- _|].
  destruct Hc as (d & sb & bb & first & _ & _ & _ & _ & _ & Hf & Hne & _ & Heq).
  rewrite Heq in Hd. injection Hd as <- _.
  assert (∀ x, x ∈ h_seated_players (hand s) ↔
               x ∈ h_seated_players (hand (bump_hand_no s))) as Hseat
    by (intros; unfold bump_hand_no; by case_bool_decide).
  split.
  - split; done.
  - split; [| |done|].
    + unfold pot_conserved. cbn [pot p_main_pot p_player_contributions blinds_posted
        set_snap_pot_total with_snapshot set_pot_main set_pot_contributions with_pot].
      rewrite !msum_insert_None, (msum_empty (K:=N)); [done|apply lookup_empty|].
      by rewrite lookup_insert_ne, lookup_empty.
    + done.
    + cbn. by rewrite two_contributions_no_side.
  - split.
    + cbn. split; [by eexists|done].
    + cbn. intros x [= <-]. by apply Hseat.
  - intros x. unfold seat_bet. cbn [betting_round b_player_bets b_current_bet blinds_posted
      set_snap_pot_total with_snapshot set_pot_main set_pot_contributions with_pot
      set_round_bets with_round open_hand set_pot_side set_round_acted
      set_round_min_raise_to set_round_current_bet].
    rewrite !lookup_insert. repeat case_decide; done.
Qed.
End DealInv.
