(* ===== verification/EngineRun.v ===== *)
(** Runs of the rules state machine: the states a table can reach, the cards it
    shows, what one accepted action does to the hand, and what checks and calls
    alone can do to a street in which a seat is all-in ([check_call_waits]).

    [engine_step] interleaves the operations of [PokerEngine] and [EngineState]
    in any order; the invariants are proved by rule induction over it. *)

From stdpp Require Import base tactics option list gmap sorting.
From Stdlib Require Import NArith Lia.
From S2P Require Import Prelude.
From S2P Require Import Domain.
From S2P Require Import EngineState.
From S2P Require Import Pots.
From S2P Require Import Engine.
From S2P Require Import EngineInv.
From S2P Require Import Dealing.

Local Open Scope N_scope.

Section Reach.
Context `{CO : CardOps}.
Implicit Types s : EngineState.

Inductive engine_step : EngineState → EngineState → Prop :=
| step_seat seat s : engine_step s (seat_player seat s)
| step_deal new_hand_id deck s s' r :
    deal_new_hand_internal_with_deck new_hand_id deck s = (s', r) → engine_step s s'
| step_action a s s' r : apply_action a s = (s', r) → engine_step s s'.

Inductive reachable : EngineState → Prop :=
| reach_new room_id hand_no hand_id : reachable (EngineState_new room_id hand_no hand_id)
| reach_start room_id hand_no hand_id seat :
    reachable (start seat (EngineState_new room_id hand_no hand_id))
| reach_step s s' : reachable s → engine_step s s' → reachable s'.

Lemma engine_inv_start room_id hand_no hand_id seat :
  engine_inv (start seat (EngineState_new room_id hand_no hand_id)).
Proof.
  destruct (engine_inv_new room_id hand_no hand_id) as [Hm Hp Ht Hb].
  split; [by split| |split|exact Hb].
  - destruct Hp. by split.
  - split; [by eexists|done].
  - cbn. intros x [= <-]. set_solver.
Qed.

Lemma reachable_engine_inv s : reachable s → engine_inv s.
Proof.
  induction 1 as [| |s s' _ IH Hstep]; [apply engine_inv_new|apply engine_inv_start|].
  destruct Hstep; [by apply engine_inv_seat_player|by eapply deal_preserves|].
  by eapply apply_action_preserves.
Qed.

(** ** The board shown *)

(** The snapshot shows a prefix of the dealt board: the cards of the street up
    to the river. The showdown shows one of the prefixes of a street, not always
    the whole board: when the last seats are all-in the hand goes to it from any
    street, and nothing is revealed then. A running hand is never on it. *)
Definition board_ok s : Prop :=
  (hs_status (snapshot s) = HRunning → hs_street (snapshot s) ≠ Showdown) ∧
  match dealing s with
  | None => hs_board_cards (snapshot s) = []
  | Some d =>
      length (d_board_cards d) = 5%nat ∧
      ∃ street, (hs_street (snapshot s) ≠ Showdown → street = hs_street (snapshot s)) ∧
        hs_board_cards (snapshot s)
          = map card_to_u8 (take (reveal_count street) (d_board_cards d))
  end.

Lemma advance_turn_board seat s s' st :
  board_ok s → hs_status (snapshot s) = HRunning → advance_turn seat s = (s', st) →
  board_ok s'.
Proof.
  unfold board_ok. intros [Hns Hb] Hrun Hadv. specialize (Hns Hrun).
  apply advance_turn_effect in Hadv as Hd. destruct Hd as (_ & Hd & _).
  rewrite Hd. unfold advance_turn in Hadv. case_match eqn:Hl.
  { injection Hadv as <- _. split; [by intros|exact Hb]. }
  destruct (is_betting_round_complete _ _).
  - unfold advance_street, reveal_board in Hadv. cbn in Hadv.
    destruct (next_street _) as [next|] eqn:Hn; destruct (dealing s) as [d|] eqn:Hds;
      injection Hadv as <- _; cbn;
      (split; [by (intros; destruct (hs_street (snapshot s)); naive_solver)|]);
      try done; destruct Hb as (H5 & street & _ & Hsh); (split; [done|]).
    + by exists next.
    + exists River. split; [done|]. cbn. by rewrite take_ge by lia.
  - destruct (actionable_seats_sorted s) as [|y l]; injection Hadv as <- _; cbn;
      (split; [by intros|]); [|exact Hb].
    destruct (dealing s); [|done]. destruct Hb as (? & street & _ & ?).
    split; [done|]. by exists street.
Qed.

Lemma after_move_board s a s1 reset :
  board_ok s → hs_status (snapshot s) = HRunning → legal_move s a s1 reset →
  board_ok (after_move a reset s1).
Proof.
  unfold board_ok. intros Hb _ Hm.
  destruct (legal_move_frame _ _ _ _ Hm) as ([total Hs] & _ & _ & _ & _ & _ & _ & Hd).
  assert (dealing (after_move a reset s1) = dealing s) as -> by (by destruct reset).
  destruct (dealing s); destruct reset; cbn; rewrite Hs; exact Hb.
Qed.

Lemma apply_action_board a s s' r :
  engine_inv s → board_ok s → apply_action a s = (s', r) → board_ok s'.
Proof.
  intros Hinv Hb Happ. pose proof (inv_pot _ Hinv) as [Hc _ _ _].
  apply apply_action_cases in Happ; [|done]. destruct r as [[st]|[]]; try done.
  - destruct Happ as (Hon & s1 & reset & Hmove & Hadv).
    pose proof (on_turn_running _ _ Hinv Hon) as Hrun.
    destruct (after_move_inv _ _ _ _ Hinv Hrun Hmove) as [_ Hrun1].
    eapply advance_turn_board; [|exact Hrun1|exact Hadv]. by eapply after_move_board.
  - by destruct Happ as [-> _].
  - destruct Happ as (_ & _ & Hres). by destruct Hres.
Qed.

Lemma deal_board new_hand_id deck s s' r :
  board_ok s → deal_new_hand_internal_with_deck new_hand_id deck s = (s', r) → board_ok s'.
Proof.
  intros Hb Hd. pose proof (deal_cases new_hand_id deck s) as Hc.
  destruct (deal_refusal s deck) as [e|] eqn:Href; [by rewrite Hc in Hd; injection Hd as <- _|].
  destruct Hc as (d & sb & bb & first & Hdc & _ & _ & _ & _ & _ & _ & _ & Heq).
  rewrite Heq in Hd. injection Hd as <- _. cbn.
  unfold deal_refusal in Href. repeat case_decide; try done.
  destruct (deck_layout _ deck ltac:(apply Nat.nlt_ge; eassumption)) as
    (r1 & r2 & b1 & f1 & f2 & f3 & b2 & t & b3 & rv & rest & Hdeck & Hr1 & Hr2).
  rewrite Hdeck, deal_cards_layout in Hdc by (try done; apply sorted_set_NoDup).
  injection Hdc as <-. split; [done|]. split; [done|]. by exists Preflop.
Qed.

Lemma reachable_board s : reachable s → board_ok s.
Proof.
  induction 1 as [| |s s' Hr IH Hstep]; [done|done|].
  destruct Hstep; [done|by eapply deal_board|].
  eapply apply_action_board; [by apply reachable_engine_inv|done..].
Qed.
End Reach.

(** ** One action *)
Section OneAction.
Context `{CO : CardOps}.
Implicit Types s : EngineState.

(** Every seat still in the hand has acted and has either matched the level of
    the round or is all-in. *)
Definition round_settled s : Prop :=
  ∀ x, x ∈ h_seated_players (hand s) → x ∉ h_folded_seats (hand s) →
    x ∈ b_acted_seats (betting_round s) ∧
    (x ∈ h_all_in_seats (hand s) ∨ seat_bet s x = b_current_bet (betting_round s)).

Lemma round_complete_spec s :
  is_betting_round_complete s (active_seats_sorted s) = true →
  round_settled s.
Proof.
  intros Hc x Hx Hf. assert (x ∈ active_seats_sorted s) as Hin
    by by apply active_seats_elem.
  unfold is_betting_round_complete in Hc. destruct (active_seats_sorted s) as [|y l] eqn:E;
    [done|]. rewrite <-E in Hc, Hin. rewrite forallb_forall in Hc.
  apply list_elem_of_In in Hin. apply Hc in Hin.
  apply andb_true_iff in Hin as [H1 H2]. apply bool_decide_eq_true in H1. split; [done|].
  apply orb_true_iff in H2 as [H2|H2]; boolify; auto.
Qed.

Lemma round_settled_complete s :
  active_seats_sorted s ≠ [] → round_settled s →
  is_betting_round_complete s (active_seats_sorted s) = true.
Proof.
  intros Hne Hs. unfold is_betting_round_complete.
  destruct (active_seats_sorted s) as [|y l] eqn:E; [done|]. rewrite <-E.
  apply forallb_forall. intros x Hx%list_elem_of_In. apply active_seats_elem in Hx as [Hx Hf].
  destruct (Hs x Hx Hf) as [Hacted Hbet].
  apply andb_true_iff. split; [by apply bool_decide_eq_true|]. apply orb_true_iff.
  destruct Hbet as [Hb|Hb]; [left; by apply bool_decide_eq_true|right; by apply N.eqb_eq].
Qed.

(** What the passing of the turn does to the street and the shown board. The
    street moves on when the round is settled, with the cards of the next one; a
    round that is not settled ends only in the showdown, when every seat in the
    hand is all-in, and then no card is revealed. *)
Definition street_follows_round s s' (st : option Street) : Prop :=
  hs_street (snapshot s') = default (hs_street (snapshot s)) st ∧
  match st with
  | None => hs_board_cards (snapshot s') = hs_board_cards (snapshot s) ∧
            (hs_status (snapshot s') = HSettled ∨ ¬ round_settled s)
  | Some next =>
      (round_settled s ∧ next = default Showdown (next_street (hs_street (snapshot s))) ∧
       ∀ d, dealing s = Some d → length (d_board_cards d) = 5%nat →
         hs_board_cards (snapshot s')
           = map card_to_u8 (take (reveal_count next) (d_board_cards d))) ∨
      (¬ round_settled s ∧ next = Showdown ∧
       (∀ x, x ∈ h_seated_players (hand s) → x ∉ h_folded_seats (hand s) →
         x ∈ h_all_in_seats (hand s)) ∧
       hs_board_cards (snapshot s') = hs_board_cards (snapshot s))
  end.

Lemma advance_turn_street seat s s' st :
  advance_turn seat s = (s', st) → street_follows_round s s' st.
Proof.
  unfold advance_turn, street_follows_round. case_match eqn:Hl.
  { intros [= <- <-]. cbn. auto. }
  assert (active_seats_sorted s ≠ []) as Hne by by intros E; rewrite E in Hl.
  destruct (is_betting_round_complete _ _) eqn:Hc.
  - apply round_complete_spec in Hc. unfold advance_street, reveal_board. cbn.
    destruct (next_street (hs_street (snapshot s))) as [next|] eqn:Hn;
      destruct (dealing s) as [d|]; intros [= <- <-]; cbn; (split; [done|]); left;
      (do 2 (split; [done|])); intros ? [= <-]; intros; [done|].
    by rewrite take_ge by lia.
  - assert (¬ round_settled s) as Hns
      by by intros Hs; apply round_settled_complete in Hs; [congruence|].
    destruct (actionable_seats_sorted s) as [|y l] eqn:Hact; intros [= <- <-]; cbn; auto.
    split; [done|]. right. split; [done|]. split; [done|]. split; [|done].
    intros x Hx Hf. destruct (decide (x ∈ h_all_in_seats (hand s))) as [|Ha]; [done|].
    assert (x ∈ actionable_seats_sorted s) as Hin by by apply actionable_seats_elem.
    rewrite Hact in Hin. by apply not_elem_of_nil in Hin.
Qed.

(** The chips a move takes from the seat. *)
Definition moved_chips s (a : PlayerAction) : Chips :=
  let bet := seat_bet s (pa_seat_id a) in
  match pa_action_type a with
  | Fold | Check => 0
  | Call => b_current_bet (betting_round s) - bet
  | RaiseTo | AllIn => default 0 (pa_amount a) - bet
  end.

Lemma legal_move_chips s a s1 reset :
  legal_move s a s1 reset →
  p_main_pot (pot s1) = p_main_pot (pot s) + moved_chips s a ∧
  (∀ x, default 0 (p_player_contributions (pot s1) !! x)
        = default 0 (p_player_contributions (pot s) !! x)
          + (if decide (x = pa_seat_id a) then moved_chips s a else 0)) ∧
  h_folded_seats (hand s1)
  = (if decide (pa_action_type a = Fold) then {[pa_seat_id a]} ∪ h_folded_seats (hand s)
     else h_folded_seats (hand s)) ∧
  h_all_in_seats (hand s1)
  = (if decide (pa_action_type a = AllIn) then {[pa_seat_id a]} ∪ h_all_in_seats (hand s)
     else h_all_in_seats (hand s)).
Proof.
  intros Hm. unfold moved_chips. destruct Hm; simplify_eq/=;
    repeat match goal with
    | H : pa_action_type a = _ |- _ => rewrite !H; clear H
    | H : pa_amount a = _ |- _ => rewrite !H; clear H
    end; cbn -[N.add N.sub]; unfold seat_bet; cbn -[N.add N.sub];
    (split; [lia|]); (split; [|done]); intros y;
    rewrite ?lookup_insert; repeat case_decide; subst; cbn -[N.add N.sub]; try done; lia.
Qed.

Lemma moved_chips_pos s a s1 reset :
  legal_move s a s1 reset → pa_action_type a ≠ Fold → pa_action_type a ≠ Check →
  0 < moved_chips s a.
Proof.
  intros Hm Hf Hc. unfold moved_chips. destruct Hm; try done;
    repeat match goal with
    | H : pa_action_type a = _ |- _ => rewrite !H; clear H
    | H : pa_amount a = _ |- _ => rewrite !H; clear H
    end; cbn; lia.
Qed.
End OneAction.

(** ** Runs of accepted actions *)
Section Runs.
Context `{CO : CardOps}.
Implicit Types s : EngineState.

(** [plays s acts s']: the actions are accepted one after the other. *)
Inductive plays : EngineState → list PlayerAction → EngineState → Prop :=
| plays_nil s : plays s [] s
| plays_cons s a st s1 acts s' :
    apply_action a s = (s1, Ok (Accepted st)) → plays s1 acts s' → plays s (a :: acts) s'.

Lemma plays_reachable s acts s' : reachable s → plays s acts s' → reachable s'.
Proof.
  intros Hr Hp. induction Hp as [|s a st s1 acts s' Ha _ IH]; [done|].
  apply IH. eapply reach_step; [done|]. by eapply step_action.
Qed.

(** An all-in seat [z] is still in the hand but does not count as having acted,
    and the turn is with a seat that is not all-in. *)
Record waiting_for_all_in (z : SeatId) s : Prop := {
  wait_seated : z ∈ h_seated_players (hand s);
  wait_in : z ∉ h_folded_seats (hand s);
  wait_all_in : z ∈ h_all_in_seats (hand s);
  wait_not_acted : z ∉ b_acted_seats (betting_round s);
  wait_turn : ∃ x, hs_acting_seat_id (snapshot s) = Some x ∧
                   x ∈ h_seated_players (hand s) ∧ x ∉ h_folded_seats (hand s) ∧
                   x ∉ h_all_in_seats (hand s);
}.

Lemma advance_turn_waits z x s s' st :
  z ∈ h_seated_players (hand s) → z ∉ h_folded_seats (hand s) →
  z ∈ h_all_in_seats (hand s) → z ∉ b_acted_seats (betting_round s) →
  x ∈ h_seated_players (hand s) → x ∉ h_folded_seats (hand s) →
  x ∉ h_all_in_seats (hand s) →
  advance_turn x s = (s', st) → st = None ∧ waiting_for_all_in z s'.
Proof.
  intros Hz1 Hz2 Hz3 Hz4 Hx1 Hx2 Hx3 Hadv.
  assert (is_betting_round_complete s (active_seats_sorted s) = false) as Hc.
  { apply not_true_iff_false. intros Hc%round_complete_spec.
    by destruct (Hc z Hz1 Hz2) as [? _]. }
  assert (x ∈ active_seats_sorted s) as Hxa by by apply active_seats_elem.
  assert (z ∈ active_seats_sorted s) as Hza by by apply active_seats_elem.
  assert (x ∈ actionable_seats_sorted s) as Hxc by by apply actionable_seats_elem.
  unfold advance_turn in Hadv. rewrite Hc in Hadv.
  destruct (Nat.leb_spec (length (active_seats_sorted s)) 1) as [Hl|_].
  { destruct (active_seats_sorted s) as [|a [|b l]]; cbn in Hl; try lia; [set_solver|].
    apply list_elem_of_singleton in Hxa as ->. apply list_elem_of_singleton in Hza as ->.
    done. }
  destruct (actionable_seats_sorted s) as [|y l] eqn:Hact; [set_solver|].
  injection Hadv as <- <-. split; [done|]. split; try done.
  cbn. eexists. split; [done|].
  rewrite <-actionable_seats_elem, Hact.
  destruct (position _ _ ≫= _) as [w|] eqn:Hw; cbn; [|constructor].
  destruct (position _ _) as [i|]; cbn in Hw; [|done].
  apply rotate_find_Some in Hw as [Hin Hacc]. apply sorted_set_elem in Hin. boolify.
  rewrite <-Hact. by apply actionable_seats_elem.
Qed.

Lemma check_call_waits z s a s1 st :
  engine_inv s → waiting_for_all_in z s → (pa_action_type a = Check ∨ pa_action_type a = Call) →
  apply_action a s = (s1, Ok (Accepted st)) →
  st = None ∧ waiting_for_all_in z s1 ∧
  hs_street (snapshot s1) = hs_street (snapshot s) ∧
  hs_status (snapshot s1) = hs_status (snapshot s).
Proof.
  intros Hinv [Hz1 Hz2 Hz3 Hz4 (x & Hx & Hx1 & Hx2 & Hx3)] Hty Happ.
  pose proof (inv_pot _ Hinv) as [Hc _ _ _].
  apply apply_action_cases in Happ as ([_ Hact] & s2 & reset & Hm & Hadv); [|done].
  rewrite Hact in Hx. injection Hx as <-.
  assert (h_seated_players (hand (after_move a reset s2)) = h_seated_players (hand s) ∧
          h_folded_seats (hand (after_move a reset s2)) = h_folded_seats (hand s) ∧
          h_all_in_seats (hand (after_move a reset s2)) = h_all_in_seats (hand s) ∧
          b_acted_seats (betting_round (after_move a reset s2))
            = {[pa_seat_id a]} ∪ b_acted_seats (betting_round s) ∧
          hs_street (snapshot (after_move a reset s2)) = hs_street (snapshot s) ∧
          hs_status (snapshot (after_move a reset s2)) = hs_status (snapshot s))
    as (E1 & E2 & E3 & E4 & E5 & E6).
  { destruct Hm; destruct Hty; try congruence; done. }
  pose proof (proj1 (advance_turn_street _ _ _ _ Hadv)) as Hstreet.
  pose proof (advance_turn_effect _ _ _ _ Hadv) as Heff.
  assert (st = None ∧ waiting_for_all_in z s1) as [-> Hw].
  { apply (advance_turn_waits z (pa_seat_id a) (after_move a reset s2)); try exact Hadv;
      rewrite ?E1, ?E2, ?E3, ?E4; try done.
    apply not_elem_of_union. split; [|done]. apply not_elem_of_singleton.
    intros ->. done. }
  split; [done|]. split; [done|]. split; [etransitivity; [exact Hstreet|exact E5]|].
  destruct Hw as [_ _ _ _ (w & Hw & _)]. rewrite Hw in Heff.
  destruct Heff as (_ & _ & _ & _ & _ & _ & _ & _ & _ & _ & _ & _ & Hst & _). congruence.
Qed.
End Runs.
