(* ===== verification/ShowdownEval.v ===== *)
(** The showdown ([evaluate_showdown_for_eligible]): the winners are the eligible
    seats with the best rank.

    The ranks come from [rs_poker]; [RankLaws] is the documented behaviour of its
    [Rank] type, a total order whose [==] is equality. *)

From stdpp Require Import base tactics option list gmap sorting.
From Stdlib Require Import NArith Lia.
From S2P Require Import Prelude.
From S2P Require Import Domain.
From S2P Require Import EngineState.
From S2P Require Import Engine.

Local Open Scope N_scope.

Class RankLaws `{RO : RankOps} : Prop := {
  rank_eqb_eq a b : rank_eqb a b = true ↔ a = b;
  rank_gtb_irrefl a : rank_gtb a a = false;
  rank_gtb_trans a b c : rank_gtb a b = true → rank_gtb b c = true → rank_gtb a c = true;
  rank_gtb_total a b : a = b ∨ rank_gtb a b = true ∨ rank_gtb b a = true;
}.

Section Showdown.
Context `{RO : RankOps} {RL : RankLaws}.

Abbreviation Hand := (SeatId * (Card * Card))%type (only parsing).

Definition hand_rank (board : list Card) (e : Hand) : Rank :=
  rank (board ++ [fst (snd e); snd (snd e)]).

Definition may_win (eligible : option (list SeatId)) (e : Hand) : Prop :=
  match eligible with
  | Some seats => fst e ∈ seats
  | None => True
  end.

(** [e] is one of the best hands of [hands] among those that may win. *)
Definition best_of (board : list Card) (eligible : option (list SeatId)) (hands : list Hand)
    (e : Hand) : Prop :=
  e ∈ hands ∧ may_win eligible e ∧
  ∀ e', e' ∈ hands → may_win eligible e' →
    rank_gtb (hand_rank board e') (hand_rank board e) = false.

(** What the loop has computed after the hands [done]. *)
Definition loop_ok (board : list Card) (eligible : option (list SeatId)) (dn : list Hand)
    (acc : option Rank * list SeatId) : Prop :=
  match fst acc with
  | None => snd acc = [] ∧ ∀ e, e ∈ dn → ¬ may_win eligible e
  | Some best =>
      (∃ e, best_of board eligible dn e ∧ hand_rank board e = best) ∧
      ∀ seat, seat ∈ snd acc ↔ ∃ e, best_of board eligible dn e ∧ fst e = seat
  end.

Lemma rank_gtb_asym a b : rank_gtb a b = true → rank_gtb b a = false.
Proof.
  intros Hab. destruct (rank_gtb b a) eqn:E; [|done].
  rewrite <-(rank_gtb_irrefl a). symmetry. by eapply rank_gtb_trans.
Qed.

Lemma best_of_rank board eligible hands e1 e2 :
  best_of board eligible hands e1 → best_of board eligible hands e2 →
  hand_rank board e1 = hand_rank board e2.
Proof.
  intros (Hin1 & Hm1 & Hb1) (Hin2 & Hm2 & Hb2).
  destruct (rank_gtb_total (hand_rank board e1) (hand_rank board e2)) as [|[Hgt|Hgt]]; [done|..].
  - by rewrite Hb2 in Hgt.
  - by rewrite Hb1 in Hgt.
Qed.

Lemma best_of_app board eligible dn e x :
  best_of board eligible (dn ++ [e]) x ↔
  (best_of board eligible dn x ∧
    (may_win eligible e → rank_gtb (hand_rank board e) (hand_rank board x) = false)) ∨
  (x = e ∧ may_win eligible e ∧
    ∀ e', e' ∈ dn → may_win eligible e' →
      rank_gtb (hand_rank board e') (hand_rank board e) = false).
Proof.
  unfold best_of. setoid_rewrite elem_of_app. setoid_rewrite list_elem_of_singleton. split.
  - intros (Hin & Hw & Hb). destruct Hin as [Hin|Hin]; [left; naive_solver|].
    subst. right. naive_solver.
  - intros [((Hin & Hw & Hb) & He)|(-> & Hw & Hb)].
    + split; [by left|]. split; [done|]. intros e' [He'|He']; [by apply Hb|]. subst. auto.
    + split; [by right|]. split; [done|]. intros e' [He'|He']; [by apply Hb|]. subst.
      intros _. apply rank_gtb_irrefl.
Qed.

(** A hand that may not win leaves the best hands as they are. *)
Lemma loop_ok_skip board eligible dn acc e :
  ¬ may_win eligible e → loop_ok board eligible dn acc → loop_ok board eligible (dn ++ [e]) acc.
Proof.
  intros Hn. destruct acc as [[best|] winners]; unfold loop_ok; cbn.
  - setoid_rewrite best_of_app. intros [He Hs]. split; [naive_solver|]. intros x. rewrite Hs.
    naive_solver.
  - intros [-> Hs]. split; [done|]. intros e' [He|He]%elem_of_app; [by apply Hs|].
    by apply list_elem_of_singleton in He as ->.
Qed.

Lemma best_of_first board eligible dn e :
  may_win eligible e → (∀ x, x ∈ dn → ¬ may_win eligible x) →
  ∀ x, best_of board eligible (dn ++ [e]) x ↔ x = e.
Proof.
  intros Hmay Hs x. rewrite best_of_app. unfold best_of. split; [naive_solver|].
  intros ->. right. split; [done|]. split; [done|]. intros e' He' Hm'. by destruct (Hs e' He').
Qed.

Section NextHand.
Context (board : list Card) (eligible : option (list SeatId)) (dn : list (SeatId * (Card * Card)))
  (b e : SeatId * (Card * Card)) (Hb : best_of board eligible dn b) (Hmay : may_win eligible e).

Lemma best_of_same_rank x : best_of board eligible dn x → hand_rank board x = hand_rank board b.
Proof. intros Hx. by eapply best_of_rank. Qed.

Lemma best_of_better :
  rank_gtb (hand_rank board e) (hand_rank board b) = true →
  ∀ x, best_of board eligible (dn ++ [e]) x ↔ x = e.
Proof.
  intros Hgt x. destruct Hb as (Hbin & Hbm & Hbb). rewrite best_of_app. split.
  - intros [[Hx Hx']|[-> _]]; [|done]. rewrite (best_of_same_rank x Hx) in Hx'.
    rewrite Hx' in Hgt by done. done.
  - intros ->. right. split; [done|]. split; [done|]. intros e' He' Hm'.
    destruct (rank_gtb (hand_rank board e') (hand_rank board e)) eqn:E; [|done].
    rewrite <-(Hbb e' He' Hm'). symmetry. by eapply rank_gtb_trans.
Qed.

Lemma best_of_tie :
  hand_rank board e = hand_rank board b →
  ∀ x, best_of board eligible (dn ++ [e]) x ↔ best_of board eligible dn x ∨ x = e.
Proof.
  intros Heq x. rewrite best_of_app. split; [naive_solver|]. intros [Hx| ->].
  - left. split; [done|]. intros _. rewrite (best_of_same_rank x Hx), Heq. apply rank_gtb_irrefl.
  - right. split; [done|]. split; [done|]. rewrite Heq. apply Hb.
Qed.

Lemma best_of_worse :
  rank_gtb (hand_rank board b) (hand_rank board e) = true →
  ∀ x, best_of board eligible (dn ++ [e]) x ↔ best_of board eligible dn x.
Proof.
  intros Hlt x. destruct Hb as (Hbin & Hbm & _). rewrite best_of_app. split.
  - intros [[? _]|(-> & _ & Hx)]; [done|]. by rewrite (Hx b Hbin Hbm) in Hlt.
  - intros Hx. left. split; [done|]. intros _. rewrite (best_of_same_rank x Hx).
    by apply rank_gtb_asym.
Qed.
End NextHand.

Lemma loop_step_ok board eligible dn acc e :
  loop_ok board eligible dn acc →
  loop_ok board eligible (dn ++ [e]) (showdown_step board eligible acc e).
Proof.
  destruct acc as [best winners], e as [seat hole]. unfold showdown_step.
  assert (may_win eligible (seat, hole) ↔
          match eligible with
          | Some filter => negb (bool_decide (seat ∈ filter))
          | None => false
          end = false) as Hw.
  { unfold may_win. cbn. destruct eligible; [|done]. by case_bool_decide. }
  destruct (match eligible with
            | Some filter => negb (bool_decide (seat ∈ filter)) | None => false end).
  { apply loop_ok_skip. intros ?%Hw. done. }
  assert (may_win eligible (seat, hole)) as Hmay by by apply Hw. clear Hw.
  change (rank (board ++ [hole.1; hole.2])) with (hand_rank board (seat, hole)).
  set (e := (seat, hole)) in *. change seat with (fst e). clearbody e.
  unfold loop_ok. cbn [fst snd]. destruct best as [best|].
  - intros [(b & Hb & <-) Hs].
    destruct (rank_gtb (hand_rank board e) (hand_rank board b)) eqn:Hgt; cbn [fst snd];
      [|destruct (rank_eqb (hand_rank board e) (hand_rank board b)) eqn:Heq; cbn [fst snd]].
    + setoid_rewrite (best_of_better _ _ _ _ _ Hb Hmay Hgt). split; [by exists e|]. intros x.
      rewrite list_elem_of_singleton. naive_solver.
    + apply rank_eqb_eq in Heq. setoid_rewrite (best_of_tie _ _ _ _ _ Hb Hmay Heq).
      split; [exists e; auto|]. intros x.
      rewrite elem_of_app, list_elem_of_singleton, Hs. naive_solver.
    + assert (rank_gtb (hand_rank board b) (hand_rank board e) = true) as Hlt.
      { destruct (rank_gtb_total (hand_rank board e) (hand_rank board b)) as [E|[E|E]];
          [|congruence|done]. apply rank_eqb_eq in E. congruence. }
      setoid_rewrite (best_of_worse _ _ _ _ _ Hb Hlt). split; [by exists b|done].
  - intros [-> Hs]. cbn [fst snd]. setoid_rewrite (best_of_first _ _ _ _ Hmay Hs).
    split; [by exists e|]. intros x. rewrite list_elem_of_singleton. naive_solver.
Qed.

Lemma loop_ok_foldl board eligible dn hands acc :
  loop_ok board eligible dn acc →
  loop_ok board eligible (dn ++ hands) (foldl (showdown_step board eligible) acc hands).
Proof.
  revert dn acc. induction hands as [|e hands IH]; intros dn acc Hok; cbn.
  - by rewrite app_nil_r.
  - rewrite cons_middle, app_assoc. apply IH. by apply loop_step_ok.
Qed.

Lemma may_win_sort eligible e : may_win (sortN <$> eligible) e ↔ may_win eligible e.
Proof. destruct eligible; cbn; [|done]. apply sortN_elem. Qed.

Lemma best_of_sort board eligible hands e :
  best_of board (sortN <$> eligible) hands e ↔ best_of board eligible hands e.
Proof. unfold best_of. setoid_rewrite may_win_sort. done. Qed.

Lemma evaluate_showdown_spec input eligible :
  match evaluate_showdown_for_eligible input eligible with
  | Some r =>
      (3 ≤ length (si_board input))%nat ∧ winner_seats r ≠ [] ∧
      StronglySorted N.le (winner_seats r) ∧
      ∀ seat, seat ∈ winner_seats r ↔
        ∃ e, best_of (si_board input) eligible (si_revealed_hole_cards input) e ∧ fst e = seat
  | None =>
      (length (si_board input) < 3)%nat ∨
      ∀ e, e ∈ si_revealed_hole_cards input → ¬ may_win eligible e
  end.
Proof.
  unfold evaluate_showdown_for_eligible.
  destruct (si_revealed_hole_cards input) as [|e0 hands] eqn:Hh; cbn [orb].
  { right. set_solver. }
  rewrite <-Hh. destruct (Nat.ltb_spec (length (si_board input)) 3); [by left|].
  pose proof (loop_ok_foldl (si_board input) (sortN <$> eligible) []
    (si_revealed_hole_cards input) (None, [])) as Hl.
  specialize (Hl ltac:(split; [done|]; set_solver)). cbn [app] in Hl.
  destruct (foldl _ _ _) as [best winners]. cbn [snd]. unfold loop_ok in Hl. cbn [fst snd] in Hl.
  destruct best as [best|].
  - destruct Hl as [(b & Hb & _) Hs].
    assert (fst b ∈ winners) as Hin by (apply Hs; eauto).
    destruct winners as [|w ws] eqn:Hw; [set_solver|]. rewrite <-Hw in Hs, Hin |- *.
    cbn. split; [done|]. split.
    { intros E. apply sortN_elem in Hin. rewrite E in Hin. set_solver. }
    split; [apply sortN_sorted|]. intros seat. rewrite sortN_elem, Hs.
    by setoid_rewrite best_of_sort.
  - destruct Hl as [-> Hs]. right. intros e He. rewrite <-(may_win_sort eligible e).
    by apply Hs.
Qed.
End Showdown.
