(* ===== verification/PassivePlay.v ===== *)
(** Passive play ends the hand: however the seats that may act choose between a
    check, a call and a fold, a hand in which nobody is all-in is over after at most
    one round of the table per street.

    [lag] is the measure of a street: how far along the table, from the seat to act,
    the last seat sits that has yet to act or to match the bet. *)

From stdpp Require Import base tactics option list gmap sorting.
From Stdlib Require Import NArith Lia.
From S2P Require Import Prelude.
From S2P Require Import Domain.
From S2P Require Import EngineState.
From S2P Require Import Pots.
From S2P Require Import Engine.
From S2P Require Import EngineInv.
From S2P Require Import EngineRun.

Local Open Scope N_scope.

(** ** The length of the shortest prefix after which no element passes a test *)

Section Upto.
Context {A : Type}.
Implicit Types (p : A → bool) (l : list A).

Fixpoint upto_last p l : nat :=
  match l with
  | [] => 0
  | x :: l => match upto_last p l with
              | O => if p x then 1 else 0
              | n => S n
              end
  end.

Lemma upto_last_le p l : (upto_last p l ≤ length l)%nat.
Proof. induction l as [|x l IH]; cbn; [done|]. repeat case_match; lia. Qed.

Lemma upto_last_none p l : upto_last p l = 0%nat ↔ ∀ x, x ∈ l → p x = false.
Proof.
  induction l as [|x l IH]; cbn; [by split; [intros _ x Hx%not_elem_of_nil|]|].
  split.
  - destruct (upto_last p l); [|done]. destruct (p x) eqn:Hx; [done|]. intros _ y.
    rewrite elem_of_cons. intros [-> | Hy]; [done|]. by apply IH.
  - intros H. rewrite (H x) by constructor. destruct (upto_last p l); [done|].
    assert (S n = 0)%nat by (apply IH; intros y Hy; apply H; by constructor). lia.
Qed.

Lemma upto_last_app p l k :
  upto_last p (l ++ k)
  = (if (upto_last p k =? 0)%nat then upto_last p l else length l + upto_last p k)%nat.
Proof.
  induction l as [|x l IH]; cbn; [by destruct (upto_last p k)|]. rewrite IH.
  destruct (Nat.eqb_spec (upto_last p k) 0); [done|].
  destruct (length l + upto_last p k)%nat eqn:E; lia.
Qed.

Lemma upto_last_mono p q l :
  (∀ x, x ∈ l → q x = true → p x = true) → (upto_last q l ≤ upto_last p l)%nat.
Proof.
  induction l as [|x l IH]; intros H; cbn; [done|].
  assert (upto_last q l ≤ upto_last p l)%nat as Hle
    by (apply IH; intros y Hy; apply H; by constructor).
  pose proof (H x ltac:(constructor)).
  destruct (upto_last q l), (upto_last p l); try lia; destruct (q x); try lia;
    try (rewrite H0 by done); try case_match; lia.
Qed.

(** Passing over [u]: what is beyond it comes nearer by its length. *)
Lemma upto_last_pass p q u v w :
  (∀ x, x ∈ u ++ w → q x = false) → (∀ x, x ∈ v → q x = true → p x = true) →
  upto_last q v ≠ 0%nat →
  (length u + upto_last q (v ++ w) ≤ upto_last p (u ++ v))%nat.
Proof.
  intros Hw Hv Hne. rewrite !upto_last_app.
  rewrite (proj2 (upto_last_none q w)) by (intros x Hx; apply Hw; set_solver). cbn.
  pose proof (upto_last_mono p q v Hv). destruct (Nat.eqb_spec (upto_last p v) 0); lia.
Qed.
End Upto.

(** ** The table seen from one seat *)

Definition seen_from (x : SeatId) (l : list SeatId) : list SeatId :=
  match position x l with
  | Some i => drop i l ++ take i l
  | None => l
  end.

Lemma position_split x l k : x ∉ l → position x (l ++ x :: k) = Some (length l).
Proof.
  induction l as [|y l IH]; intros Hx; cbn; [by rewrite N.eqb_refl|].
  apply not_elem_of_cons in Hx as [Hne Hx].
  rewrite (proj2 (N.eqb_neq y x)) by congruence. by rewrite IH.
Qed.

Lemma seen_from_split x l k : x ∉ l → seen_from x (l ++ x :: k) = x :: k ++ l.
Proof.
  intros Hx. unfold seen_from. rewrite position_split by done.
  by rewrite drop_app_length, take_app_length.
Qed.

Lemma seen_from_length x l : length (seen_from x l) = length l.
Proof.
  unfold seen_from. destruct (position x l); [|done].
  rewrite length_app, length_drop, length_take. lia.
Qed.

Lemma seen_from_elem x y l : y ∈ seen_from x l ↔ y ∈ l.
Proof.
  unfold seen_from. destruct (position x l) as [i|]; [|done].
  rewrite <-(take_drop i l) at 3. rewrite !elem_of_app. tauto.
Qed.

(** The candidates of [rotate_find] are the others, then the seat itself. *)
Lemma rotate_find_split accept x l k :
  rotate_find accept (l ++ x :: k) (length l)
  = head (filter (λ c, accept c = true) (k ++ l ++ [x])).
Proof.
  unfold rotate_find. do 2 f_equal. set (n := length (l ++ x :: k)).
  assert (n = length l + S (length k))%nat as Hn by (subst n; by rewrite length_app).
  apply list_eq_same_length with n; [rewrite !length_app; cbn; lia|by rewrite length_map, length_seq|].
  intros i y z Hi Hy Hz. rewrite list_lookup_fmap in Hy.
  rewrite lookup_seq_lt in Hy by done. injection Hy as <-. unfold seat_at.
  apply nth_lookup_Some with (d := 0) in Hz. rewrite <-Hz. clear Hz z.
  destruct (decide (i < length k)%nat).
  - rewrite Nat.mod_small by lia. rewrite (app_nth1 k), (app_nth2 l) by lia.
    by replace (length l + S i - length l)%nat with (S i) by lia.
  - rewrite (app_nth2 k) by lia.
    replace ((length l + S i) mod n)%nat with (i - length k)%nat.
    2: { replace (length l + S i)%nat with (i - length k + 1 * n)%nat by lia.
         rewrite Nat.Div0.mod_add. rewrite Nat.mod_small; lia. }
    destruct (decide (i - length k < length l)%nat).
    + by rewrite !app_nth1 by lia.
    + replace (i - length k)%nat with (length l) by lia.
      rewrite !app_nth2 by lia. by rewrite Nat.sub_diag.
Qed.

Lemma head_filter_split (accept : SeatId → bool) l y :
  head (filter (λ c, accept c = true) l) = Some y →
  ∃ u v, l = u ++ y :: v ∧ accept y = true ∧ ∀ z, z ∈ u → accept z = false.
Proof.
  induction l as [|x l IH]; [done|]. rewrite filter_cons. case_decide as Hx; cbn.
  - intros [= ->]. exists [], l. split; [done|]. split; [done|]. by intros z Hz%elem_of_nil.
  - intros (u & v & -> & Hy & Hu)%IH. exists (x :: u), v. split; [done|]. split; [done|].
    intros z [-> | Hz]%elem_of_cons; [by apply not_true_is_false|by apply Hu].
Qed.

(** The table seen from one of the others. *)
Lemma seen_from_other a x b u y v :
  NoDup (a ++ x :: b) → b ++ a = u ++ y :: v →
  seen_from y (a ++ x :: b) = (y :: v) ++ (x :: u).
Proof.
  intros Hnd Hsplit. destruct (app_eq_inv _ _ _ _ Hsplit) as [(c & -> & Hd)|(c & -> & ->)].
  - destruct c as [|y' c]; cbn in Hd.
    + subst a. rewrite app_nil_r. change ((y :: v) ++ x :: u) with ([] ++ y :: (v ++ x :: u)).
      rewrite seen_from_split by apply not_elem_of_nil. by rewrite app_nil_r.
    + injection Hd as -> ->.
      replace (a ++ x :: u ++ y' :: c) with ((a ++ x :: u) ++ y' :: c) in * by by rewrite <-app_assoc.
      apply NoDup_app in Hnd as (_ & Hd & _).
      rewrite seen_from_split; [cbn; by rewrite <-!app_assoc|].
      intros Hin. apply (Hd y' Hin). constructor.
  - rewrite <-app_assoc in *. apply NoDup_app in Hnd as (_ & Hd & _).
    cbn. rewrite seen_from_split; [cbn; by rewrite <-!app_assoc|].
    intros Hin. apply (Hd y Hin). constructor.
Qed.

(** Handing the turn on rotates the view; the seats passed over were refused. *)
Lemma pass_on accept x y l :
  NoDup l → x ∈ l →
  (i ← position x l; rotate_find accept l i) = Some y →
  (y = x ∧ ∀ z, z ∈ l → z ≠ x → accept z = false) ∨
  ∃ u v, seen_from x l = (x :: u) ++ (y :: v) ∧ seen_from y l = (y :: v) ++ (x :: u) ∧
         ∀ z, z ∈ u → accept z = false.
Proof.
  intros Hnd Hx Hf. apply list_elem_of_split in Hx as (a & b & ->).
  pose proof Hnd as (Ha & Hab & Hb)%NoDup_app. apply NoDup_cons in Hb as [Hxb Hb].
  assert (x ∉ a) as Hxa by (intros H; destruct (Hab x H); constructor).
  rewrite position_split in Hf by done. cbn in Hf.
  rewrite rotate_find_split, app_assoc in Hf. rewrite seen_from_split by done.
  apply head_filter_split in Hf as (u & w & Hsplit & Hacc & Hu).
  destruct (app_eq_inv _ _ _ _ Hsplit) as [(c & Hc & Hd)|(c & Hc & Hd)].
  - destruct c as [|y' c]; cbn in Hd.
    + injection Hd as -> _. left. split; [done|]. rewrite app_nil_r in Hc. subst u.
      intros z Hz Hzx. apply Hu. set_solver.
    + injection Hd as <- _. right. exists u, c.
      rewrite (seen_from_other _ _ _ _ _ _ Hnd Hc). rewrite Hc. done.
  - destruct c as [|y' c]; [|by destruct c]. injection Hd as -> _.
    left. split; [done|]. rewrite app_nil_r in Hc. subst u.
    intros z Hz Hzx. apply Hu. set_solver.
Qed.

Lemma pass_on_total accept x z l :
  NoDup l → x ∈ l → z ∈ l → accept z = true →
  ∃ y, (i ← position x l; rotate_find accept l i) = Some y.
Proof.
  intros Hnd Hx Hz Hacc. apply list_elem_of_split in Hx as (a & b & ->).
  apply NoDup_app in Hnd as (_ & Hab & _).
  rewrite position_split by (intros H; destruct (Hab x H); constructor).
  cbn. rewrite rotate_find_split.
  destruct (filter _ _) as [|y r] eqn:E; [|by exists y].
  assert (z ∈ filter (λ c, accept c = true) (b ++ a ++ [x])) as Hin.
  { apply list_elem_of_filter. split; [done|]. set_solver. }
  rewrite E in Hin. by apply elem_of_nil in Hin.
Qed.

(** ** Checks, calls and folds *)

Section Passive.
Context `{CO : CardOps}.
Implicit Types s : EngineState.

Definition passive (a : PlayerAction) : Prop :=
  pa_action_type a = Fold ∨ pa_action_type a = Check ∨ pa_action_type a = Call.

Definition table s : list SeatId := sorted_set (h_seated_players (hand s)).

(** A seat still in the hand that has yet to act or to match the bet. *)
Definition owes s (x : SeatId) : bool :=
  negb (bool_decide (x ∈ h_folded_seats (hand s)))
  && negb (bool_decide (x ∈ b_acted_seats (betting_round s))
           && (seat_bet s x =? b_current_bet (betting_round s))).

Definition lag s : nat :=
  match hs_acting_seat_id (snapshot s) with
  | Some x => upto_last (owes s) (seen_from x (table s))
  | None => 0
  end.

Definition nobody_all_in s : Prop :=
  ∀ x, x ∈ h_seated_players (hand s) → x ∉ h_folded_seats (hand s) → x ∉ h_all_in_seats (hand s).

Definition streets_left (st : Street) : nat :=
  match st with Preflop => 4 | Flop => 3 | Turn => 2 | River | Showdown => 1 end.

(** How many further actions the hand can take after the next one. *)
Definition play_left s : nat :=
  pred (streets_left (hs_street (snapshot s))) * length (table s) + pred (lag s).

Lemma lag_le s : (lag s ≤ length (table s))%nat.
Proof.
  unfold lag. destruct (hs_acting_seat_id _) as [x|]; [|lia].
  rewrite <-(seen_from_length x). apply upto_last_le.
Qed.

Lemma owes_spec s x :
  owes s x = true ↔ x ∉ h_folded_seats (hand s) ∧
    (x ∉ b_acted_seats (betting_round s) ∨ seat_bet s x ≠ b_current_bet (betting_round s)).
Proof.
  unfold owes. rewrite andb_true_iff, !negb_true_iff, bool_decide_eq_false, andb_false_iff,
    bool_decide_eq_false, N.eqb_neq. done.
Qed.

(** A street that is not over has a seat that owes. *)
Lemma somebody_owes s :
  nobody_all_in s → (1 < length (active_seats_sorted s))%nat →
  is_betting_round_complete s (active_seats_sorted s) = false →
  ∃ z, z ∈ table s ∧ owes s z = true.
Proof.
  intros Hna Hlen Hc.
  assert (¬ ∀ z, z ∈ table s → owes s z = false) as Hno.
  { intros Hall. apply not_true_iff_false in Hc. apply Hc.
    apply round_settled_complete; [by destruct (active_seats_sorted s); cbn in Hlen; try lia|].
    intros x Hx Hf. specialize (Hall x ltac:(by apply sorted_set_elem)).
    apply not_true_iff_false in Hall. rewrite owes_spec in Hall.
    destruct (decide (x ∈ b_acted_seats (betting_round s))), 
      (decide (seat_bet s x = b_current_bet (betting_round s))); naive_solver. }
  induction (table s) as [|y l IH]; [exfalso; apply Hno; by intros z Hz%elem_of_nil|].
  destruct (owes s y) eqn:Hy; [exists y; split; [constructor|done]|].
  destruct IH as (z & Hz & Ho); [|exists z; split; [by constructor|done]].
  intros Hall. apply Hno. intros z [-> | Hz]%elem_of_cons; [done|by apply Hall].
Qed.

Lemma actionable_is_active s : nobody_all_in s → actionable_seats_sorted s = active_seats_sorted s.
Proof.
  intros Hna. unfold actionable_seats_sorted, active_seats_sorted. f_equal.
  assert (∀ x, x ∈ elements (h_seated_players (hand s)) → x ∈ h_seated_players (hand s)) as Hin
    by (intros x; by rewrite elem_of_elements).
  induction (elements _) as [|x l IH]; [done|]. rewrite !filter_cons.
  rewrite IH by (intros y Hy; apply Hin; by constructor).
  pose proof (Hna x (Hin x ltac:(constructor))). repeat case_decide; naive_solver.
Qed.

(** The turn after a move that settled the seat [x]: the hand ends, or the last seat
    that owes has come nearer, or a new street begins. *)
Lemma turn_shortens (p : SeatId → bool) x s s' st :
  x ∈ h_seated_players (hand s) → nobody_all_in s → owes s x = false →
  (∀ z, owes s z = true → p z = true) →
  advance_turn x s = (s', st) → is_Some (hs_acting_seat_id (snapshot s')) →
  (hs_street (snapshot s') = hs_street (snapshot s) ∧
   b_current_bet (betting_round s') = b_current_bet (betting_round s) ∧
   lag s' ≠ 0%nat ∧ (S (lag s') ≤ upto_last p (seen_from x (table s)))%nat) ∨
  (streets_left (hs_street (snapshot s)) = S (streets_left (hs_street (snapshot s'))) ∧
   b_current_bet (betting_round s') = 0).
Proof.
  intros Hx Hna Hox Hp. unfold advance_turn.
  destruct (Nat.leb_spec (length (active_seats_sorted s)) 1) as [|Hlen].
  { intros [= <- <-] [? ?]. done. }
  destruct (is_betting_round_complete _ _) eqn:Hc.
  - unfold advance_street, reveal_board.
    destruct (hs_street (snapshot s)) eqn:Hst; cbn; destruct (dealing s); intros [= <- <-];
      cbn; intros [? ?]; try done; right; done.
  - rewrite actionable_is_active by done.
    destruct (active_seats_sorted s) as [|w r] eqn:Hact; [cbn in Hlen; lia|]. rewrite <-Hact in *.
    destruct (somebody_owes s Hna Hlen Hc) as (z & Hz & Hoz).
    set (accept := λ c, negb (bool_decide (c ∈ h_folded_seats (hand s)))
                        && negb (bool_decide (c ∈ h_all_in_seats (hand s)))).
    assert (∀ c, c ∈ table s → owes s c = true → accept c = true) as Hacc.
    { intros c Hct [Hf _]%owes_spec. apply sorted_set_elem in Hct. unfold accept.
      rewrite !bool_decide_false by auto. done. }
    fold (table s). destruct (pass_on_total accept x z (table s)) as [y Hy];
      [apply sorted_set_NoDup|by apply sorted_set_elem|done|by apply Hacc|].
    rewrite Hy. intros [= <- <-] _. left. split; [done|]. split; [done|].
    change (lag (set_acting (Some y) s))
      with (upto_last (owes s) (seen_from y (table s))).
    apply pass_on in Hy as [(-> & Hnone)|(u & v & Ex & Ey & Hu)];
      [| |apply sorted_set_NoDup|by apply sorted_set_elem].
    + exfalso. assert (z ≠ x) as Hzx by congruence. specialize (Hnone z Hz Hzx).
      by rewrite Hacc in Hnone.
    + rewrite Ex, Ey.
      assert (∀ c, c ∈ x :: u → owes s c = false) as Hpassed.
      { intros c [-> | Hcu]%elem_of_cons; [done|]. apply not_true_iff_false. intros Hoc.
        specialize (Hu c Hcu). rewrite Hacc in Hu; [done| |done].
        apply (seen_from_elem x). rewrite Ex. set_solver. }
      assert (upto_last (owes s) (y :: v) ≠ 0%nat) as Hne.
      { intros H0. rewrite upto_last_none in H0.
        apply (seen_from_elem x) in Hz. rewrite Ex in Hz.
        apply elem_of_app in Hz as [Hz|Hz]; [rewrite Hpassed in Hoz|rewrite H0 in Hoz]; done. }
      pose proof (upto_last_pass p (owes s) (x :: u) (y :: v) (x :: u)) as Hpass.
      cbn [length] in Hpass.
      assert (S (upto_last (owes s) ((y :: v) ++ x :: u)) ≤ upto_last p ((x :: u) ++ y :: v))%nat.
      { assert (S (length u) + upto_last (owes s) ((y :: v) ++ x :: u)
                ≤ upto_last p ((x :: u) ++ y :: v))%nat; [|lia].
        apply Hpass; [|by auto|done]. intros c Hcc. apply Hpassed. set_solver. }
      split; [|done]. rewrite upto_last_app.
      rewrite (proj2 (upto_last_none (owes s) (x :: u))) by exact Hpassed. done.
Qed.

(** What a check, a call or a fold leaves for the turn to pass. *)
Lemma passive_move s a s1 reset :
  bets_ok s → passive a → legal_move s a s1 reset →
  let sm := after_move a reset s1 in
  owes sm (pa_seat_id a) = false ∧ (∀ z, owes sm z = true → owes s z = true) ∧
  b_current_bet (betting_round sm) = b_current_bet (betting_round s) ∧
  p_main_pot (pot sm) ≤ p_main_pot (pot s) + b_current_bet (betting_round s) ∧
  h_seated_players (hand sm) = h_seated_players (hand s) ∧
  h_all_in_seats (hand sm) = h_all_in_seats (hand s) ∧
  h_folded_seats (hand s) ⊆ h_folded_seats (hand sm) ∧
  hs_street (snapshot sm) = hs_street (snapshot s).
Proof.
  intros Hb Hty Hm sm. subst sm. pose proof (Hb (pa_seat_id a)) as Hbet.
  destruct Hm as [Ht|Ht Hle|Ht Hlt Hf|target Ht| target Ht | target Ht];
    try (destruct Hty as [|[|]]; congruence).
  all: split; [|split; [|split; [done|split; [cbn; lia|do 3 (split; [done || set_solver|]); done]]]].
  all: try (apply not_true_iff_false; rewrite owes_spec; cbn; set_solver).
  all: try (intros z; rewrite !owes_spec; cbn; set_solver).
  - apply not_true_iff_false. rewrite owes_spec. intros [_ [Ho|Ho]]; cbn in Ho; [set_solver|].
    apply Ho. change (seat_bet s (pa_seat_id a) = b_current_bet (betting_round s)). lia.
  - apply not_true_iff_false. rewrite owes_spec. intros [_ [Ho|Ho]]; cbn in Ho; [set_solver|].
    apply Ho. unfold seat_bet. cbn. by rewrite lookup_insert_eq.
  - intros z. rewrite !owes_spec. cbn. intros [Hfz Ho]. split; [done|].
    destruct Ho as [Ho|Ho]; [left; set_solver|right].
    unfold seat_bet in *. cbn in Ho. revert Ho. rewrite lookup_insert. case_decide; cbn; [|done].
    done.
Qed.

Record playable s : Prop := {
  pl_inv : engine_inv s;
  pl_nobody : nobody_all_in s;
  pl_room : p_main_pot (pot s) + N.of_nat (S (pred (lag s))) * b_current_bet (betting_round s)
            ≤ u128_max;
}.

(** One accepted check, call or fold: the hand is over or closer to its end. *)
Lemma passive_step s a s' st :
  playable s → passive a → apply_action a s = (s', Ok (Accepted st)) →
  table s' = table s ∧
  (hs_acting_seat_id (snapshot s') ≠ None → playable s' ∧ (play_left s' < play_left s)%nat).
Proof.
  intros [Hinv Hna Hroom] Hty Ha. pose proof (apply_action_preserves _ _ _ _ Hinv Ha) as Hinv'.
  pose proof (inv_pot _ Hinv) as [Hc _ _ _].
  apply apply_action_cases in Ha as ([_ Hact] & s1 & reset & Hm & Hadv); [|done].
  pose proof (passive_move _ _ _ _ (inv_bets _ Hinv) Hty Hm) as Hpm. cbv zeta in Hpm.
  set (sm := after_move a reset s1) in *.
  destruct Hpm as (Hox & Hmono & Hcur & Hpot & Hseated & Hall & Hfold & Hstreet).
  pose proof (advance_turn_effect _ _ _ _ Hadv) as (Ep & _ & Es & Ef & Ea & _).
  assert (nobody_all_in sm) as Hnam by (intros x; rewrite Hseated, Hall; intros ? ?; apply Hna; set_solver).
  assert (table s' = table s) as Htab by (unfold table; by rewrite Es, Hseated).
  split; [done|]. intros Hrun.
  assert (lag s = upto_last (owes s) (seen_from (pa_seat_id a) (table s))) as Hlag
    by (unfold lag; by rewrite Hact).
  assert (table sm = table s) as Htabm by (unfold table; by rewrite Hseated).
  assert (is_Some (hs_acting_seat_id (snapshot s'))) as Hsome
    by (destruct (hs_acting_seat_id (snapshot s')); done).
  destruct (turn_shortens (owes s) (pa_seat_id a) sm s' st) as [(H1 & H2 & H3 & H4)|(H1 & H2)];
    [rewrite Hseated; by apply (turn_seated _ (inv_turn _ Hinv))|done..| |].
  - rewrite Htabm, <-Hlag in H4. split.
    + split; [done|intros x; rewrite Es, Ef, Ea; apply Hnam|]. rewrite Ep, H2, Hcur. nia.
    + unfold play_left. rewrite Htab, H1, Hstreet. lia.
  - split.
    + split; [done|intros x; rewrite Es, Ef, Ea; apply Hnam|]. rewrite Ep, H2. nia.
    + unfold play_left. pose proof (lag_le s') as Hle. rewrite Htab in *. rewrite Hstreet in H1.
      rewrite H1. destruct (streets_left (hs_street (snapshot s'))) eqn:E;
        [by destruct (hs_street (snapshot s'))|].
      assert (1 ≤ length (table s))%nat; [|cbn [pred]; nia].
      assert (pa_seat_id a ∈ table s) as Hin
        by (apply sorted_set_elem; by apply (turn_seated _ (inv_turn _ Hinv))).
      destruct (table s); [by apply elem_of_nil in Hin|cbn; lia].
Qed.

(** While the hand runs, the seat to act can check or call. *)
Lemma passive_accepted s a :
  playable s → on_turn s a →
  pa_action_type a = (if b_current_bet (betting_round s) <=? seat_bet s (pa_seat_id a)
                      then Check else Call) →
  ∃ s' st, apply_action a s = (s', Ok (Accepted st)).
Proof.
  intros [Hinv _ Hroom] Hon Hty. pose proof (inv_pot _ Hinv) as [Hc _ _ _].
  assert (∃ s1 reset, legal_move s a s1 reset) as (s1 & reset & Hm).
  { destruct (N.leb_spec (b_current_bet (betting_round s)) (seat_bet s (pa_seat_id a))).
    - eexists _, _. by apply move_check.
    - eexists _, _. apply move_call; [done|done|]. unfold fits. nia. }
  rewrite (apply_action_accepts _ _ _ _ Hc Hon Hm). destruct (advance_turn _ _) as [s' st]. eauto.
Qed.

Lemma playable_start s :
  engine_inv s → nobody_all_in s → hs_acting_seat_id (snapshot s) ≠ None →
  p_main_pot (pot s) + N.of_nat (length (table s)) * b_current_bet (betting_round s) ≤ u128_max →
  playable s ∧ (play_left s < streets_left (hs_street (snapshot s)) * length (table s))%nat.
Proof.
  intros Hinv Hna Hrun Hroom. pose proof (lag_le s) as Hle.
  assert (1 ≤ length (table s))%nat as Hlen.
  { destruct (hs_acting_seat_id (snapshot s)) as [x|] eqn:Hx; [|done].
    assert (x ∈ table s) as Hin by (apply sorted_set_elem; by apply (turn_seated _ (inv_turn _ Hinv))).
    destruct (table s); [by apply elem_of_nil in Hin|cbn; lia]. }
  split.
  - split; [done|done|]. etransitivity; [|exact Hroom]. apply N.add_le_mono_l, N.mul_le_mono_r. lia.
  - unfold play_left. destruct (hs_street (snapshot s)); cbn [streets_left pred]; nia.
Qed.

Lemma passive_run s acts s' :
  playable s → Forall passive acts → plays s acts s' →
  (hs_acting_seat_id (snapshot s) ≠ None) →
  (length acts ≤ S (play_left s))%nat ∧
  (hs_acting_seat_id (snapshot s') ≠ None → playable s' ∧ (length acts + play_left s' ≤ play_left s)%nat).
Proof.
  intros Hp Hty Hrun. revert Hp. induction Hrun as [s|s a st s1 acts s' Ha Hrun IH]; intros Hp Hact.
  { cbn. split; [lia|]. intros _. split; [done|lia]. }
  apply Forall_cons in Hty as [Ht Hty]. destruct (passive_step _ _ _ _ Hp Ht Ha) as [_ Hs].
  destruct (decide (hs_acting_seat_id (snapshot s1) = None)) as [Hnone|Hsome].
  - destruct Hrun as [s1|s1 b st' s2 acts s' Hb Hrun]; [cbn; split; [lia|done]|exfalso].
    pose proof (apply_action_preserves _ _ _ _ (pl_inv _ Hp) Ha) as Hinv1.
    apply apply_action_cases in Hb as ([_ Hb] & _); [congruence|apply (inv_pot _ Hinv1)].
  - destruct (Hs Hsome) as [Hp1 Hlt]. destruct (IH Hty Hp1 Hsome) as [Hlen Hend].
    cbn. split; [lia|]. intros Hx. destruct (Hend Hx). split; [done|lia].
Qed.
End Passive.
