(* ===== verification/EngineProps.v ===== *)
(** What the engine promises: the theorems on hands, pots, deals and showdowns,
    each with an instance on a concrete table where it has hypotheses. *)

From stdpp Require Import base tactics option list gmap sorting.
From Stdlib Require Import NArith Lia.
From S2P Require Import Prelude.
From S2P Require Import Domain.
From S2P Require Import EngineState.
From S2P Require Import Pots.
From S2P Require Import Engine.
From S2P Require Import EngineInv.
From S2P Require Import Dealing.
From S2P Require Import EngineRun.
From S2P Require Import ShowdownEval.
From S2P Require Import PassivePlay.

Local Open Scope N_scope.

(** ** Concrete tables for the instances

    Cards are their indices; the rank of a hand is the sum of its cards. *)
#[local] Instance index_cards : CardOps :=
  {| Card := N; card_to_u8 := id; card_of_u8 := id |}.
#[local] Instance sum_ranks : RankOps :=
  {| Rank := N; rank := nsum; rank_gtb := λ a b, b <? a; rank_eqb := N.eqb |}.
#[local] Instance sum_ranks_laws : RankLaws.
Proof.
  split; cbn.
  - intros a b. apply N.eqb_eq.
  - intros a. apply N.ltb_irrefl.
  - intros a b c. rewrite !N.ltb_lt. lia.
  - intros a b. rewrite !N.ltb_lt. lia.
Qed.

Definition demo_act (seq : N) (seat : SeatId) (ty : ActionType) (amt : option Chips) :=
  mkPlayerAction 1 11 seq seat ty amt.
Definition demo_table (seats : list SeatId) : EngineState :=
  foldr seat_player (EngineState_new 1 1 10) seats.
Definition demo_dealt (seats : list SeatId) : EngineState :=
  fst (deal_new_hand_internal_with_deck 11 ordered_deck (demo_table seats)).
Definition demo_apply (s : EngineState) (a : PlayerAction) : EngineState := fst (apply_action a s).

Lemma demo_table_reachable seats : reachable (demo_table seats).
Proof.
  induction seats as [|x seats IH]; [apply reach_new|].
  eapply reach_step; [done|]. apply step_seat.
Qed.
Lemma demo_dealt_reachable seats : reachable (demo_dealt seats).
Proof.
  eapply reach_step; [apply (demo_table_reachable seats)|].
  unfold demo_dealt. eapply step_deal. apply surjective_pairing.
Qed.
Lemma demo_plays_reachable seats acts :
  reachable (foldl demo_apply (demo_dealt seats) acts).
Proof.
  pose proof (demo_dealt_reachable seats) as Hr. revert Hr.
  generalize (demo_dealt seats). induction acts as [|a acts IH]; intros s Hr; [done|].
  cbn. apply IH. eapply reach_step; [done|]. eapply step_action. apply surjective_pairing.
Qed.
#[local] Hint Resolve demo_dealt_reachable demo_plays_reachable : holdem.

Section Hands.
Context `{CO : CardOps}.
Implicit Types s : EngineState.

(** C1. Every state a table can reach by seating players, dealing and applying
    actions, refused ones included, is consistent: the snapshot, the hand and
    the betting round agree on the shared fields, the pot is the sum of the
    contributions with the side pots of those contributions, the hand is running
    exactly when a seated player is to act, and no bet exceeds the current bet.
    Up to the river the board shown is exactly the prefix of the dealt board that
    the street asks for; at the showdown, where no hand runs, it is the prefix of
    one of the streets, the whole board only when the hand was played to the
    river. *)
Theorem reachable_hand_is_consistent s (Hr : reachable s) : engine_inv s ∧ board_ok s.
Proof. split; [by apply reachable_engine_inv|by apply reachable_board]. Qed.

(** C2. An action is accepted exactly when it is addressed to the current turn
    and is a legal move of the specification, and the new state is then the
    move followed by the passing of the turn. *)
Theorem apply_action_refines_legal_moves s a s' st (Hinv : engine_inv s) :
  apply_action a s = (s', Ok (Accepted st)) ↔
  on_turn s a ∧ ∃ s1 reset, legal_move s a s1 reset ∧
    advance_turn (pa_seat_id a) (after_move a reset s1) = (s', st).
Proof.
  pose proof (inv_pot _ Hinv) as [Hc _ _ _]. split.
  - intros Ha. by apply apply_action_cases in Ha.
  - intros (Hon & s1 & reset & Hm & Hadv).
    by rewrite (apply_action_accepts a s s1 reset Hc Hon Hm), Hadv.
Qed.

(** C37. A refused action never moves chips, cards, seats or the turn: the
    rejections leave the whole state as it was and say why, and the overflow of
    the pot leaves nothing but the bet already written in the betting round. *)
Theorem refused_action_moves_nothing s a s' e (Hinv : engine_inv s)
    (He : apply_action a s = (s', Err e)) :
  snapshot s' = snapshot s ∧ hand s' = hand s ∧ pot s' = pot s ∧ dealing s' = dealing s ∧
  match e with
  | Domain NotYourTurn =>
      s' = s ∧ pa_action_seq a = hs_next_action_seq (snapshot s) ∧
      hs_acting_seat_id (snapshot s) ≠ Some (pa_seat_id a)
  | Domain ActionIllegal =>
      s' = s ∧ (pa_action_seq a ≠ hs_next_action_seq (snapshot s) ∨
                (on_turn s a ∧ ∀ s1 reset, ¬ legal_move s a s1 reset))
  | Money Overflow => on_turn s a ∧ overflow_residue s a s'
  | _ => False
  end.
Proof.
  pose proof (inv_pot _ Hinv) as [Hc _ _ _].
  pose proof (apply_action_cases _ _ _ _ Hc He) as Hcases.
  destruct e as [d|m| | |]; try done.
  - destruct Hcases as [-> ->]. do 4 (split; [done|]). case_decide as Hd.
    + by destruct Hd.
    + split; [done|].
      destruct (decide (pa_action_seq a = hs_next_action_seq (snapshot s))) as [Hs|Hs];
        [right|by left].
      assert (on_turn s a) as Hon.
      { split; [done|].
        destruct (decide (hs_acting_seat_id (snapshot s) = Some (pa_seat_id a))); naive_solver. }
      split; [done|]. intros s1 reset Hm.
      rewrite (apply_action_accepts _ _ _ _ Hc Hon Hm) in He.
      by destruct (advance_turn _ _).
  - destruct Hcases as (Hon & -> & Hres). pose proof Hres as Hres2. by destruct Hres2.
Qed.

(** C19. An accepted action advances the action number (saturating), adds to the
    pot and to the seat's contribution exactly the chips of the move, folds the
    seat exactly on a fold, and hands the turn to a seated player that has not
    folded, or ends the hand or goes to showdown with nobody to act. *)
Theorem accepted_action_effect s a s' st (Hinv : engine_inv s)
    (Ha : apply_action a s = (s', Ok (Accepted st))) :
  hs_next_action_seq (snapshot s')
    = sat_add u32_max (hs_next_action_seq (snapshot s)) 1 ∧
  hs_pot_total (snapshot s') = hs_pot_total (snapshot s) + moved_chips s a ∧
  (∀ x, default 0 (p_player_contributions (pot s') !! x)
        = default 0 (p_player_contributions (pot s) !! x)
          + (if decide (x = pa_seat_id a) then moved_chips s a else 0)) ∧
  (∀ x, x ∈ h_folded_seats (hand s') ↔
        x ∈ h_folded_seats (hand s) ∨ (x = pa_seat_id a ∧ pa_action_type a = Fold)) ∧
  h_seated_players (hand s') = h_seated_players (hand s) ∧
  dealing s' = dealing s ∧
  match hs_acting_seat_id (snapshot s') with
  | Some x => hs_status (snapshot s') = HRunning ∧ x ∈ h_seated_players (hand s') ∧
              x ∉ h_folded_seats (hand s')
  | None => hs_status (snapshot s') = HSettled ∨ hs_status (snapshot s') = HShowdown
  end.
Proof.
  pose proof (inv_pot _ Hinv) as Hp. pose proof (pot_sum _ Hp) as Hc.
  pose proof (apply_action_preserves _ _ _ _ Hinv Ha) as [_ Hp' _ _].
  apply apply_action_cases in Ha as (Hon & s1 & reset & Hm & Hadv); [|done].
  pose proof (on_turn_running _ _ Hinv Hon) as Hrun.
  destruct (after_move_inv _ _ _ _ Hinv Hrun Hm) as [_ Hrun1].
  destruct (legal_move_frame _ _ _ _ Hm) as ([tot Hs1] & _ & _ & _ & _ & Hseat & _ & Hd).
  destruct (legal_move_chips _ _ _ _ Hm) as (Hpot & Hcon & Hfold & _).
  apply advance_turn_effect in Hadv as
    (Ep & Ed & Es & Ef & _ & _ & _ & _ & Eseq & _ & _ & _ & Hact).
  rewrite (pot_total_eq _ Hp'), (pot_total_eq _ Hp), Ep, Ed, Es, Ef, Eseq.
  split; [by destruct reset; cbn; rewrite Hs1|].
  split; [by destruct reset; cbn; rewrite Hpot|].
  split; [intros x; rewrite <-Hcon; by destruct reset|].
  assert (h_folded_seats (hand (after_move a reset s1)) = h_folded_seats (hand s1)) as Hf1
    by by destruct reset.
  assert (h_seated_players (hand (after_move a reset s1)) = h_seated_players (hand s)) as Hs2
    by (rewrite <-Hseat; by destruct reset).
  split; [intros x; rewrite Hf1, Hfold; case_decide; set_solver|].
  split; [done|]. split; [rewrite <-Hd; by destruct reset|].
  rewrite Hrun1 in Hact. by destruct (hs_acting_seat_id (snapshot s')).
Qed.
End Hands.

(** *** Instances *)

(** Both seats go all-in before the flop and then one of them checks: the hand
    is at the showdown, and three cards are shown. *)
Lemma reachable_hand_is_consistent_witness :
  let s := foldl demo_apply (demo_dealt [0; 1])
             [demo_act 1 0 AllIn (Some 500000000000000);
              demo_act 2 1 AllIn (Some 500000000000000); demo_act 3 1 Check None] in
  hs_pot_total (snapshot s) = 1000000000000000 ∧ hs_street (snapshot s) = Showdown ∧
  length (hs_board_cards (snapshot s)) = 3%nat ∧ engine_inv s ∧ board_ok s.
Proof.
  do 3 (split; [by vm_compute|]). apply reachable_hand_is_consistent. auto with holdem.
Defined.

Lemma apply_action_refines_legal_moves_witness :
  let s := demo_dealt [0; 1; 2] in
  let a := demo_act 1 0 RaiseTo (Some 600000000000000) in
  ∃ s1 reset, legal_move s a s1 reset.
Proof.
  set (s := demo_dealt [0; 1; 2]).
  set (a := demo_act 1 0 RaiseTo (Some 600000000000000)).
  assert (engine_inv s) as Hinv by (apply reachable_engine_inv; apply demo_dealt_reachable).
  assert (apply_action a s = (demo_apply s a, Ok (Accepted None))) as Ha by (vm_compute; done).
  apply (apply_action_refines_legal_moves s a _ _ Hinv) in Ha as (_ & s1 & reset & Hm & _).
  exists s1, reset. exact Hm.
Defined.

Lemma refused_action_moves_nothing_witness :
  let s := demo_dealt [0; 1; 2] in
  pot (demo_apply s (demo_act 1 0 RaiseTo (Some 300000000000000))) = pot s.
Proof.
  set (s := demo_dealt [0; 1; 2]). set (a := demo_act 1 0 RaiseTo (Some 300000000000000)).
  assert (engine_inv s) as Hinv by (apply reachable_engine_inv; apply demo_dealt_reachable).
  assert (apply_action a s = (demo_apply s a, Err (Domain ActionIllegal))) as Ha
    by (vm_compute; done).
  apply (refused_action_moves_nothing s a _ _ Hinv) in Ha as (_ & _ & Hp & _). exact Hp.
Defined.

Lemma accepted_action_effect_witness :
  let s := demo_dealt [0; 1; 2] in
  hs_pot_total (snapshot (demo_apply s (demo_act 1 0 Call None)))
  = hs_pot_total (snapshot s) + 200000000000000.
Proof.
  set (s := demo_dealt [0; 1; 2]). set (a := demo_act 1 0 Call None).
  assert (engine_inv s) as Hinv by (apply reachable_engine_inv; apply demo_dealt_reachable).
  assert (apply_action a s = (demo_apply s a, Ok (Accepted None))) as Ha by (vm_compute; done).
  apply (accepted_action_effect s a _ _ Hinv) in Ha as (_ & Hp & _).
  etransitivity; [exact Hp|].
  vm_compute. reflexivity.
Defined.

(** ** Pots *)

(** C4. Chips are conserved by the pot layers: the layers, with the uncalled part
    of the largest contribution, add up to what the seats contributed. *)
Theorem pot_layers_conserve_chips contributions folded
    (Hb : msum contributions ≤ u128_max) :
  layers_total (build_pot_layers contributions folded)
    + uncalled (map_to_list contributions)
  = msum contributions.
Proof. apply pot_layers_from_total. exact Hb. Qed.

Lemma pot_layers_conserve_chips_witness :
  let c : gmap SeatId Chips := <[0 := 300]> (<[1 := 200]> (<[2 := 100]> (<[3 := 50]> ∅))) in
  uncalled (map_to_list c) = 100 ∧ layers_total (build_pot_layers c {[2]}) = 550 ∧
  layers_total (build_pot_layers c {[2]}) + uncalled (map_to_list c) = 650.
Proof.
  set (c := <[0 := 300]> (<[1 := 200]> (<[2 := 100]> (<[3 := 50]> ∅))) : gmap SeatId Chips).
  split; [by vm_compute|]. split; [by vm_compute|].
  assert (msum c = 650) as E by by vm_compute.
  rewrite (pot_layers_conserve_chips c {[2]}); [exact E|]. rewrite E. vm_compute. discriminate.
Defined.

(** C16. The single pass over the sorted contributions computes the reference
    definition, which peels off the smallest level above the previous one without
    sorting, whatever the order in which the hash map yields its entries. *)
Theorem pot_layers_match_reference contributions folded entries
    (Ho : entries ≡ₚ map_to_list contributions) :
  build_pot_layers_from folded entries = build_pot_layers contributions folded ∧
  build_pot_layers contributions folded
    = layers_ref folded (S (size contributions)) true 0 entries.
Proof.
  unfold build_pot_layers. rewrite !build_pot_layers_from_ref.
  rewrite (Permutation_length Ho), length_map_to_list.
  by rewrite (layers_ref_perm folded _ true 0 _ _ Ho).
Qed.

Lemma pot_layers_match_reference_witness :
  build_pot_layers_from ∅ [(2, 100); (0, 300); (1, 200)]
  = build_pot_layers (<[0 := 300]> (<[1 := 200]> (<[2 := 100]> ∅))) ∅.
Proof.
  apply pot_layers_match_reference.
  assert (map_to_list (<[0 := 300]> (<[1 := 200]> (<[2 := 100]> ∅)) : gmap SeatId Chips)
          ≡ₚ [(0, 300); (1, 200); (2, 100)]) as ->.
  { rewrite !map_to_list_insert by by vm_compute. by rewrite map_to_list_empty. }
  solve_Permutation.
Defined.

(** Each layer is the slice of the contributions between two levels, its
    eligible seats are the seats that reached the upper level and did not fold,
    the first layer and only the first is the main pot, and the side pots are the
    other layers in order. *)
Theorem pot_layers_are_slices contributions folded (Hb : msum contributions ≤ u128_max) :
  Forall (layer_is_slice folded (map_to_list contributions))
    (build_pot_layers contributions folded) ∧
  (∀ i ly, build_pot_layers contributions folded !! i = Some ly →
     pl_is_main ly = (i =? 0)%nat) ∧
  build_side_pots contributions folded
    = map (λ ly, mkSidePot (pl_amount ly) (pl_eligible_seats ly))
        (tail (build_pot_layers contributions folded)).
Proof.
  unfold build_side_pots, build_pot_layers. rewrite build_pot_layers_from_ref.
  split; [by apply layers_ref_slices|]. split.
  - intros i ly. apply layers_ref_main_first.
  - by rewrite layers_ref_side.
Qed.

Lemma pot_layers_are_slices_witness :
  let c : gmap SeatId Chips := <[0 := 300]> (<[1 := 200]> (<[2 := 100]> ∅)) in
  build_pot_layers c {[0]}
    = [mkPotLayer 300 [1; 2] true; mkPotLayer 200 [1] false] ∧
  Forall (layer_is_slice {[0]} (map_to_list c)) (build_pot_layers c {[0]}).
Proof.
  set (c := <[0 := 300]> (<[1 := 200]> (<[2 := 100]> ∅)) : gmap SeatId Chips).
  split; [by vm_compute|]. apply pot_layers_are_slices. vm_compute. discriminate.
Defined.

(** ** Deals *)
Section Deals.
Context `{CO : CardOps}.
Implicit Types s : EngineState.

(** The deal refuses exactly for fewer than two seats, repeated cards or a
    short deck, tested in this order, and then leaves the table as it was;
    otherwise it always completes: both blinds are posted by two different
    seats, the pot is the sum of the blinds, every card of the deck is in
    exactly one place, and the hand runs from the preflop with action 1. *)
Theorem deal_outcome new_hand_id deck s :
  match deal_refusal s deck with
  | Some e => deal_new_hand_internal_with_deck new_hand_id deck s = (s, Err e)
  | None => ∃ s' d sb bb,
      deal_new_hand_internal_with_deck new_hand_id deck s = (s', Ok tt) ∧
      dealing s' = Some d ∧ all_cards d ≡ₚ deck ∧
      deal_cards (sorted_set (h_seated_players (hand s))) deck = Ok d ∧
      sb ≠ bb ∧ sb ∈ h_seated_players (hand s) ∧ bb ∈ h_seated_players (hand s) ∧
      p_player_contributions (pot s')
        = <[bb := DEFAULT_BIG_BLIND]> (<[sb := DEFAULT_SMALL_BLIND]> ∅) ∧
      hs_pot_total (snapshot s') = DEFAULT_SMALL_BLIND + DEFAULT_BIG_BLIND ∧
      hs_status (snapshot s') = HRunning ∧ hs_street (snapshot s') = Preflop ∧
      hs_next_action_seq (snapshot s') = 1 ∧ hs_hand_id (snapshot s') = new_hand_id ∧
      hs_hand_no (snapshot s') = hs_hand_no (snapshot (bump_hand_no s))
  end.
Proof.
  pose proof (deal_cases new_hand_id deck s) as Hc. destruct (deal_refusal s deck); [done|].
  destruct Hc as (d & sb & bb & first & Hd & Hp & _ & Hsb & Hbb & _ & Hne & _ & Heq).
  eexists _, d, sb, bb. rewrite Heq. split; [done|].
  repeat split; try done.
Qed.

(** The cards go round the table twice in seat order from the top of the
    deck, then burn, flop, burn, turn, burn, river: the seat of index [i] holds
    the [i]-th card of each round, and nobody else holds cards. *)
Theorem deal_follows_the_deck seats deck d i seat (Hnd : NoDup seats)
    (Hlen : (length seats * 2 + 8 ≤ length deck)%nat) (Hd : deal_cards seats deck = Ok d)
    (Hi : seats !! i = Some seat) :
  (∃ c1 c2, deck !! i = Some c1 ∧ deck !! (length seats + i)%nat = Some c2 ∧
            d_hole_cards d !! seat = Some (c1, c2)) ∧
  (∀ x, x ∉ seats → d_hole_cards d !! x = None) ∧
  (let b := (2 * length seats)%nat in
   map Some (d_burn_cards d) = [deck !! b; deck !! (b + 4)%nat; deck !! (b + 6)%nat] ∧
   map Some (d_board_cards d)
   = [deck !! (b + 1)%nat; deck !! (b + 2)%nat; deck !! (b + 3)%nat; deck !! (b + 5)%nat;
      deck !! (b + 7)%nat] ∧
   d_undealt_deck d = drop (b + 8) deck).
Proof.
  destruct (deck_layout _ _ Hlen) as
    (r1 & r2 & b1 & f1 & f2 & f3 & b2 & t & b3 & r & rest & -> & Hr1 & Hr2).
  rewrite deal_cards_layout in Hd by done. injection Hd as <-.
  cbn [d_hole_cards d_burn_cards d_board_cards d_undealt_deck].
  pose proof (lookup_lt_Some _ _ _ Hi) as Hlt.
  destruct (lookup_lt_is_Some_2 r1 i) as [c1 Hc1]; [lia|].
  destruct (lookup_lt_is_Some_2 r2 i) as [c2 Hc2]; [lia|].
  split; [|split].
  - exists c1, c2. rewrite lookup_app_l by lia. split; [done|].
    rewrite lookup_app_r, lookup_app_l by lia. split; [by rewrite <-Hc2; f_equal; lia|].
    unfold hole_cards_of. apply elem_of_list_to_map_1.
    + rewrite fst_zip; [done|]. rewrite length_zip_with. lia.
    + apply list_elem_of_lookup. exists i. by rewrite !lookup_zip_with, Hi, Hc1, Hc2.
  - intros x Hx. unfold hole_cards_of. apply not_elem_of_list_to_map_1.
    rewrite fst_zip; [done|]. rewrite length_zip_with. lia.
  - assert (∀ k, (r1 ++ r2 ++ [b1; f1; f2; f3; b2; t; b3; r] ++ rest)
                 !! (2 * length seats + k)%nat
               = ([b1; f1; f2; f3; b2; t; b3; r] ++ rest) !! k) as Hk.
    { intros k. rewrite !lookup_app_r by lia. f_equal. lia. }
    cbn zeta. rewrite <-(Nat.add_0_r (2 * length seats)) at 1. rewrite !Hk.
    do 2 (split; [done|]).
    rewrite app_assoc, drop_app_ge by (rewrite length_app; lia).
    rewrite length_app. replace (2 * length seats + 8 - (length r1 + length r2))%nat
      with 8%nat by lia. done.
Qed.

(** The blinds rotate: at a table of [n] seats in order, hand number [k]
    has the dealer at index [(k - 1) mod n]; heads-up the dealer posts the small
    blind, the other seat the big blind and the dealer opens, otherwise the next
    three seats post the small blind, post the big blind and open. *)
Theorem blinds_rotate s seats (Hlen : (2 ≤ length seats)%nat)
    (Hno : 1 ≤ hs_hand_no (snapshot s)) :
  let n := length seats in
  let k := N.to_nat (hs_hand_no (snapshot s) - 1) in
  blinds_and_first_to_act s seats =
    if (n =? 2)%nat
    then Some (seat_at seats (k mod n), seat_at seats ((k + 1) mod n), seat_at seats (k mod n))
    else Some (seat_at seats ((k + 1) mod n), seat_at seats ((k + 2) mod n),
               seat_at seats ((k + 3) mod n)).
Proof.
  intros n k. unfold blinds_and_first_to_act, state_dealer_index, sat_sub. fold n k.
  rewrite (proj2 (Nat.ltb_ge n 2)) by done.
  rewrite (proj2 (Nat.eqb_neq n 0)) by (unfold n; lia).
  rewrite !Nat.Div0.add_mod_idemp_l. done.
Qed.
End Deals.

Lemma deal_follows_the_deck_witness :
  ∃ d, deal_cards [0; 1; 2] (ordered_deck : list N) = Ok d ∧ d_hole_cards d !! 1 = Some (1, 4).
Proof.
  eexists. split; [vm_compute; reflexivity|].
  match goal with |- d_hole_cards ?d !! _ = _ =>
    destruct (deal_follows_the_deck [0; 1; 2] ordered_deck d 1 1) as [(c1 & c2 & H1 & H2 & H) _] end.
  - apply (bool_decide_unpack _). by vm_compute.
  - vm_compute. lia.
  - vm_compute. reflexivity.
  - reflexivity.
  - etransitivity; [exact H|]. vm_compute in H1, H2. injection H1 as <-. injection H2 as <-. reflexivity.
Defined.

Lemma blinds_rotate_witness :
  blinds_and_first_to_act (demo_dealt [2; 5; 7]) [2; 5; 7] = Some (5, 7, 2).
Proof.
  rewrite blinds_rotate; [vm_compute; reflexivity|cbn; lia|vm_compute; discriminate].
Defined.

(** ** Legal actions *)
Section Legal.
Context `{CO : CardOps}.
Implicit Types s : EngineState.

(** The action [a] is one the entry [la] describes: a call costs what the entry
    names, a raise goes above the current bet and to an amount within the entry's
    bounds, an all-in goes above what the seat has already bet. *)
Definition offered s (la : LegalAction) (a : PlayerAction) : Prop :=
  la_action_type la = pa_action_type a ∧
  match pa_action_type a with
  | Fold | Check => True
  | Call => la_min_amount la = Some (moved_chips s a) ∧ la_max_amount la = Some (moved_chips s a)
  | RaiseTo => ∃ t, pa_amount a = Some t ∧ default 0 (la_min_amount la) ≤ t ∧
                    t ≤ default t (la_max_amount la) ∧ b_current_bet (betting_round s) < t
  | AllIn => ∃ t, pa_amount a = Some t ∧ seat_bet s (pa_seat_id a) < t
  end.

(** The list of the seat to act, with what it has to call. *)
Lemma legal_actions_on_turn s a :
  on_turn s a →
  legal_actions s (pa_seat_id a) =
    let cur := b_current_bet (betting_round s) in
    let to_call := cur - seat_bet s (pa_seat_id a) in
    [mkLegalAction Fold None None]
      ++ (if to_call =? 0 then [mkLegalAction Check None None]
          else [mkLegalAction Call (Some to_call) (Some to_call)])
      ++ [mkLegalAction RaiseTo (Some (match b_min_raise_to (betting_round s) with
            | Some m => m
            | None => unwrap_or cur (ChipsOps.checked_add cur 1) end)) None;
          mkLegalAction AllIn None None].
Proof.
  intros [_ Hact]. unfold legal_actions. rewrite bool_decide_true by done. cbn [negb].
  by rewrite chips_sub_or_zero.
Qed.

Lemma offered_is_legal s a la :
  engine_inv s → on_turn s a →
  p_main_pot (pot s) + N.max (b_current_bet (betting_round s)) (default 0 (pa_amount a)) ≤ u128_max →
  la ∈ legal_actions s (pa_seat_id a) → offered s la a → ∃ s1 reset, legal_move s a s1 reset.
Proof.
  intros Hinv Hon Hb. pose proof (inv_bets _ Hinv (pa_seat_id a)) as Hbet.
  rewrite (legal_actions_on_turn s a Hon). cbv zeta. unfold offered. intros Hin [Hty Hoff].
  destruct (N.eqb_spec (b_current_bet (betting_round s) - seat_bet s (pa_seat_id a)) 0);
    repeat (apply elem_of_cons in Hin as [->|Hin]); try (by set_solver);
    cbn in Hty; rewrite <-Hty in Hoff;
    try (destruct Hoff as (t & Ht & Hoff); rewrite Ht in Hb; cbn in Hb).
  all: try (by do 2 eexists; apply move_fold).
  all: try (by do 2 eexists; apply move_check; [|lia]).
  all: try (by do 2 eexists; apply move_call; [done|lia|unfold fits; lia]).
  all: try (destruct Hoff as (Hmin & _ & Hcur); do 2 eexists; apply (move_raise s a t);
    [done|done|lia|done| |unfold fits; lia]; intros m Hm; rewrite Hm in Hmin; exact Hmin).
  all: destruct (N.ltb_spec (b_current_bet (betting_round s)) t);
    [do 2 eexists; apply (move_all_in_raise s a t); try done; unfold fits; lia
    |do 2 eexists; apply (move_all_in_short s a t); try done; unfold fits; lia].
Qed.

Lemma legal_is_offered s a s1 reset :
  on_turn s a → legal_move s a s1 reset →
  ∃ la, la ∈ legal_actions s (pa_seat_id a) ∧ offered s la a.
Proof.
  intros Hon Hm. rewrite (legal_actions_on_turn s a Hon). cbv zeta. unfold offered.
  assert (u128_max ≠ 0) as Hmax by done.
  destruct (N.eqb_spec (b_current_bet (betting_round s) - seat_bet s (pa_seat_id a)) 0)
    as [Hz|Hz]; destruct Hm as [Hty|Hty Hle|Hty Hlt _|t Hty Ht Hlt Hcur Hmin _
      |t Hty Ht Hlt Hcur _|t Hty Ht Hlt Hcur _]; rewrite Hty; try lia.
  all: try (by exists (mkLegalAction Fold None None); split; [set_solver|]).
  all: try (by exists (mkLegalAction Check None None); split; [set_solver|]).
  all: try (by exists (mkLegalAction Call
    (Some (b_current_bet (betting_round s) - seat_bet s (pa_seat_id a)))
    (Some (b_current_bet (betting_round s) - seat_bet s (pa_seat_id a)))); split; [set_solver|];
    split; [done|]; unfold moved_chips; rewrite Hty).
  all: try (exists (mkLegalAction AllIn None None); split; [set_solver|]; split; [done|];
    exists t; by split).
  all: exists (mkLegalAction RaiseTo (Some (match b_min_raise_to (betting_round s) with
    | Some m => m
    | None => unwrap_or (b_current_bet (betting_round s))
                (ChipsOps.checked_add (b_current_bet (betting_round s)) 1)
    end)) None); split; [set_solver|]; split; [done|];
    exists t; split; [done|]; split; [|by split]; cbn.
  all: destruct (b_min_raise_to (betting_round s)) as [m|]; [by apply Hmin|].
  all: unfold ChipsOps.checked_add, Prelude.checked_add; case_match; cbn; lia.
Qed.

(** C35. What [legal_actions] lists for a seat is exactly what [apply_action]
    accepts from it, at the current action number and as long as the pot cannot
    overflow: an action of the seat on turn is accepted when, and only when, an
    entry of the list describes it, with the cost of a call and the least raise
    the entry names, and for any other seat the list is empty and nothing is
    accepted. *)
Theorem legal_actions_are_the_accepted_ones s a (Hinv : engine_inv s)
    (Hseq : pa_action_seq a = hs_next_action_seq (snapshot s))
    (Hb : p_main_pot (pot s) + N.max (b_current_bet (betting_round s)) (default 0 (pa_amount a))
          ≤ u128_max) :
  ((∃ la, la ∈ legal_actions s (pa_seat_id a) ∧ offered s la a) ↔
   ∃ s' st, apply_action a s = (s', Ok (Accepted st))) ∧
  (legal_actions s (pa_seat_id a) = [] ↔ hs_acting_seat_id (snapshot s) ≠ Some (pa_seat_id a)).
Proof.
  pose proof (inv_pot _ Hinv) as [Hc _ _ _].
  destruct (decide (hs_acting_seat_id (snapshot s) = Some (pa_seat_id a))) as [Hact|Hact].
  - assert (on_turn s a) as Hon by done. split.
    + split.
      * intros (la & Hin & Hoff).
        destruct (offered_is_legal s a la Hinv Hon Hb Hin Hoff) as (s1 & reset & Hm).
        rewrite (apply_action_accepts a s s1 reset Hc Hon Hm).
        destruct (advance_turn _ _) as [s' st]. eauto.
      * intros (s' & st & Ha). apply apply_action_cases in Ha; [|done].
        destruct Ha as (_ & s1 & reset & Hm & _). by apply (legal_is_offered s a s1 reset).
    + rewrite legal_actions_on_turn by done. cbv zeta. split; [by intros [=]|by intros []].
  - assert (legal_actions s (pa_seat_id a) = []) as E
      by (unfold legal_actions; by rewrite bool_decide_false by done).
    rewrite E. split; [|done]. split; [by intros (la & Hin%not_elem_of_nil & _)|].
    intros (s' & st & Ha). apply apply_action_cases in Ha; [|done].
    by destruct Ha as ([_ Hon] & _).
Qed.
End Legal.

(** A raise to the least amount; and the list of the other seats is empty. *)
Lemma legal_actions_are_the_accepted_ones_witness :
  let s := demo_dealt [0; 1; 2] in
  (∃ s' st, apply_action (demo_act 1 0 RaiseTo (Some 400000000000000)) s = (s', Ok (Accepted st))) ∧
  legal_actions s 1 = [].
Proof.
  set (s := demo_dealt [0; 1; 2]). split.
  - apply legal_actions_are_the_accepted_ones.
    + apply reachable_engine_inv, demo_dealt_reachable.
    + by vm_compute.
    + vm_compute. discriminate.
    + exists (mkLegalAction RaiseTo (Some 400000000000000) None). split.
      * apply list_elem_of_In. vm_compute. tauto.
      * split; [done|]. exists 400000000000000. split; [done|]. by vm_compute.
  - apply (legal_actions_are_the_accepted_ones s (demo_act 1 1 Fold None)).
    + apply reachable_engine_inv, demo_dealt_reachable.
    + by vm_compute.
    + vm_compute. discriminate.
    + by vm_compute.
Defined.

(** ** Streets and runs *)
Section Streets.
Context `{CO : CardOps}.
Implicit Types s : EngineState.

(** C33. After an accepted action the street stays, with the cards it shows, as
    long as the betting round is not settled: as long as a seat still in the hand
    has not acted, or has neither matched the bet nor gone all-in. It also stays
    when the hand is over. Once the round is settled the street is the next one
    and shows the next prefix of the board, after the river all five cards at the
    showdown. The one way out of an unsettled round is the jump to the showdown
    when every seat in the hand is all-in, and this jump reveals no card. *)
Theorem streets_follow_the_betting_round s a s' st (Hinv : engine_inv s)
    (Ha : apply_action a s = (s', Ok (Accepted st))) :
  ∃ s1 reset, legal_move s a s1 reset ∧
  let sm := after_move a reset s1 in
  hs_street (snapshot s') = default (hs_street (snapshot s)) st ∧
  match st with
  | None => hs_board_cards (snapshot s') = hs_board_cards (snapshot s) ∧
            (hs_status (snapshot s') = HSettled ∨ ¬ round_settled sm)
  | Some next =>
      (round_settled sm ∧ next = default Showdown (next_street (hs_street (snapshot s))) ∧
       ∀ d, dealing s = Some d → length (d_board_cards d) = 5%nat →
         hs_board_cards (snapshot s')
           = map card_to_u8 (take (reveal_count next) (d_board_cards d))) ∨
      (¬ round_settled sm ∧ next = Showdown ∧
       (∀ x, x ∈ h_seated_players (hand sm) → x ∉ h_folded_seats (hand sm) →
         x ∈ h_all_in_seats (hand sm)) ∧
       hs_board_cards (snapshot s') = hs_board_cards (snapshot s))
  end.
Proof.
  pose proof (inv_pot _ Hinv) as [Hc _ _ _].
  apply apply_action_cases in Ha as (_ & s1 & reset & Hm & Hadv); [|done].
  exists s1, reset. split; [done|]. cbn zeta.
  destruct (legal_move_frame _ _ _ _ Hm) as ([tot Hs] & _ & _ & _ & _ & _ & _ & Hd).
  apply advance_turn_street in Hadv. unfold street_follows_round in Hadv.
  assert (hs_street (snapshot (after_move a reset s1)) = hs_street (snapshot s) ∧
          hs_board_cards (snapshot (after_move a reset s1)) = hs_board_cards (snapshot s) ∧
          dealing (after_move a reset s1) = dealing s) as (E1 & E2 & E3)
    by (rewrite <-Hd; destruct reset; cbn; by rewrite Hs).
  by rewrite E1, E2, E3 in Hadv.
Qed.

(** A run of accepted actions that leaves nobody to act has ended the hand. *)
Lemma plays_end s a st s1 acts s' :
  engine_inv s → apply_action a s = (s1, Ok (Accepted st)) → plays s1 acts s' →
  hs_acting_seat_id (snapshot s') = None →
  hs_status (snapshot s') = HSettled ∨ hs_status (snapshot s') = HShowdown.
Proof.
  intros Hinv Ha Hp Hx. revert s a st Hinv Ha.
  induction Hp as [s1|s1 b st' s2 acts s' Hb _ IH]; intros s a st Hinv Ha.
  - pose proof (inv_pot _ Hinv) as [Hc _ _ _].
    apply apply_action_cases in Ha as (_ & s0 & reset & _ & Hadv); [|done].
    apply advance_turn_effect in Hadv. rewrite Hx in Hadv. tauto.
  - apply (IH Hx s1 b st'); [by eapply apply_action_preserves|done].
Qed.

(** C17. Passive play ends the hand. From a running hand in which nobody is all-in and
    the pot has room for the calls of one round, no sequence of accepted checks, calls
    and folds is longer than one round of the table per street that is left; and as
    long as the hand runs, the seat to act can check or call. *)
Theorem passive_hands_end s acts s' (Hinv : engine_inv s)
    (Hrun : hs_status (snapshot s) = HRunning) (Hna : nobody_all_in s)
    (Hroom : p_main_pot (pot s) + N.of_nat (size (h_seated_players (hand s)))
               * b_current_bet (betting_round s) ≤ u128_max)
    (Hty : Forall passive acts) (Hp : plays s acts s') :
  (length acts
   ≤ streets_left (hs_street (snapshot s)) * size (h_seated_players (hand s)))%nat ∧
  (hs_status (snapshot s') = HRunning ∧
     (∃ a s'' st, pa_action_type a ∈ [Check; Call] ∧ on_turn s' a ∧
                  apply_action a s' = (s'', Ok (Accepted st))) ∨
   hs_status (snapshot s') = HShowdown ∨ hs_status (snapshot s') = HSettled).
Proof.
  assert (hs_acting_seat_id (snapshot s) ≠ None) as Hact.
  { apply (turn_running _ (inv_turn _ Hinv)) in Hrun as [x ->]. done. }
  rewrite <-sorted_set_length in *. fold (table s) in *.
  destruct (playable_start s) as [Hpl Hlt]; [done..|].
  destruct (passive_run s acts s' Hpl Hty Hp Hact) as [Hlen Hend]. split; [lia|].
  destruct (hs_acting_seat_id (snapshot s')) as [x|] eqn:Hx.
  - left. destruct (Hend ltac:(done)) as [Hpl' _]. pose proof (pl_inv _ Hpl') as Hinv'.
    split; [apply (turn_running _ (inv_turn _ Hinv')); by exists x|].
    set (a := mkPlayerAction 0 0 (hs_next_action_seq (snapshot s')) x
      (if b_current_bet (betting_round s') <=? seat_bet s' x then Check else Call) None).
    destruct (passive_accepted s' a Hpl') as (s'' & st & Ha); [done..|].
    exists a, s'', st. split; [|done]. cbn. case_match; set_solver.
  - right. destruct Hp as [s|s a st s1 acts s' Ha Hp]; [done|].
    assert (hs_status (snapshot s') = HSettled ∨ hs_status (snapshot s') = HShowdown); [|tauto].
    by apply (plays_end s a st s1 acts s').
Qed.

(** A betting round waits forever for a seat that went all-in on an earlier
    street: once such a seat is in the hand without counting as having acted, and
    the turn is with a seat that is not all-in, no sequence of checks and calls
    ever ends the street. *)
Theorem betting_stalls_on_an_all_in_seat z s acts s' (Hinv : engine_inv s)
    (Hw : waiting_for_all_in z s)
    (Hty : Forall (λ a, pa_action_type a = Check ∨ pa_action_type a = Call) acts)
    (Hp : plays s acts s') :
  hs_street (snapshot s') = hs_street (snapshot s) ∧
  hs_status (snapshot s') = hs_status (snapshot s) ∧ waiting_for_all_in z s'.
Proof.
  induction Hp as [s|s a st s1 acts s' Ha _ IH]; [done|].
  apply Forall_cons in Hty as [Hty1 Hty].
  destruct (check_call_waits z s a s1 st Hinv Hw Hty1 Ha) as (_ & Hw1 & Hs1 & Hs2).
  destruct IH as (E1 & E2 & E3); [by eapply apply_action_preserves|done..|].
  split; [congruence|]. split; [congruence|done].
Qed.

Lemma active_seats_length_mono s s' :
  h_seated_players (hand s') = h_seated_players (hand s) →
  h_folded_seats (hand s) ⊆ h_folded_seats (hand s') →
  (length (active_seats_sorted s') ≤ length (active_seats_sorted s))%nat.
Proof.
  intros Hs Hf. unfold active_seats_sorted. rewrite !sortN_length, Hs.
  induction (elements (h_seated_players (hand s))) as [|x l IH]; [done|].
  rewrite !filter_cons. repeat case_decide; cbn; [lia|set_solver|lia|lia].
Qed.

(** The deal of a new hand keeps the folded and the all-in seats of the
    hand before it; so if that hand ended with a single seat that had not
    folded, the first accepted action ends the new hand as well. *)
Theorem folded_seats_survive_deal new_hand_id deck s s' (Hinv : engine_inv s)
    (Hd : deal_new_hand_internal_with_deck new_hand_id deck s = (s', Ok tt)) :
  h_folded_seats (hand s') = h_folded_seats (hand s) ∧
  h_all_in_seats (hand s') = h_all_in_seats (hand s) ∧
  ((length (active_seats_sorted s) ≤ 1)%nat →
   ∀ a s'' st, apply_action a s' = (s'', Ok (Accepted st)) →
     hs_status (snapshot s'') = HSettled).
Proof.
  pose proof (deal_preserves _ _ _ _ _ Hinv Hd) as Hinv'.
  pose proof (deal_cases new_hand_id deck s) as Hc.
  destruct (deal_refusal s deck); [congruence|].
  destruct Hc as (d & sb & bb & first & _ & _ & _ & _ & _ & _ & _ & _ & Heq).
  rewrite Heq in Hd. injection Hd as <-.
  assert (h_folded_seats (hand (bump_hand_no s)) = h_folded_seats (hand s) ∧
          h_all_in_seats (hand (bump_hand_no s)) = h_all_in_seats (hand s) ∧
          h_seated_players (hand (bump_hand_no s)) = h_seated_players (hand s))
    as (Ef & Ea & Es) by (unfold bump_hand_no; by case_bool_decide).
  split; [done|]. split; [done|]. intros Hone a s'' st Ha.
  pose proof (inv_pot _ Hinv') as [Hcons _ _ _].
  apply apply_action_cases in Ha as (_ & s1 & reset & Hm & Hadv); [|done].
  destruct (legal_move_frame _ _ _ _ Hm) as (_ & _ & _ & _ & _ & Hseat & _ & _).
  destruct (legal_move_chips _ _ _ _ Hm) as (_ & _ & Hfold & _).
  unfold advance_turn in Hadv.
  assert (length (active_seats_sorted (after_move a reset s1)) ≤ 1)%nat as Hle.
  { etransitivity; [|exact Hone]. apply active_seats_length_mono.
    - rewrite <-Es. etransitivity; [|exact Hseat]. by destruct reset.
    - rewrite <-Ef. assert (h_folded_seats (hand (after_move a reset s1))
        = h_folded_seats (hand s1)) as -> by by destruct reset.
      rewrite Hfold. change (h_folded_seats (hand (blinds_posted _ _ _)))
        with (h_folded_seats (hand (bump_hand_no s))). case_decide; set_solver. }
  rewrite (proj2 (Nat.leb_le _ _) Hle) in Hadv. by injection Hadv as <- _.
Qed.

(** The events of an accepted action tell the table what happened: the
    action, the new pot, the new street if it changed, and then the next turn,
    the end of the hand, or nothing when the hand waits for the showdown. *)
Theorem events_follow_the_hand s a s' st (Hinv : engine_inv s)
    (Ha : apply_action a s = (s', Ok (Accepted st))) :
  post_action_event_kinds s' a (Accepted st)
  = [ActionAccepted a; PotUpdated (p_main_pot (pot s'))]
      ++ match st with Some street => [StreetChanged street] | None => [] end
      ++ match hs_acting_seat_id (snapshot s') with
         | Some x => [TurnStarted x]
         | None => if decide (hs_status (snapshot s') = HSettled) then [HandClosed] else []
         end.
Proof.
  pose proof (apply_action_preserves _ _ _ _ Hinv Ha) as [_ Hp' [Hrun' _] _].
  pose proof (inv_pot _ Hinv) as [Hc _ _ _].
  unfold post_action_event_kinds. rewrite (pot_total_eq _ Hp'). do 2 f_equal.
  apply apply_action_cases in Ha as (Hon & s1 & reset & Hm & Hadv); [|done].
  apply advance_turn_effect in Hadv as (_ & _ & _ & _ & _ & _ & _ & _ & _ & _ & _ & _ & Hact).
  destruct (hs_acting_seat_id (snapshot s')) as [x|].
  - rewrite (proj2 Hrun') by by eexists. done.
  - by destruct Hact as [-> | ->].
Qed.
End Streets.

Lemma streets_follow_the_betting_round_witness :
  let s := foldl demo_apply (demo_dealt [0; 1; 2]) [demo_act 1 0 Call None; demo_act 2 1 Call None] in
  hs_street (snapshot (demo_apply s (demo_act 3 2 Check None))) = Flop.
Proof.
  set (s := foldl demo_apply _ _). set (a := demo_act 3 2 Check None).
  assert (apply_action a s = (demo_apply s a, Ok (Accepted (Some Flop)))) as Ha
    by (vm_compute; reflexivity).
  apply streets_follow_the_betting_round in Ha as (s1 & reset & _ & Hs & _).
  - exact Hs.
  - apply reachable_engine_inv, demo_plays_reachable.
Defined.

(** Three players: the hand goes on after the flop, where one of them folded. *)
Lemma passive_hands_end_witness :
  let s := demo_dealt [0; 1; 2] in
  let acts := [demo_act 1 0 Call None; demo_act 2 1 Call None; demo_act 3 2 Check None;
               demo_act 4 1 Fold None; demo_act 5 2 Check None; demo_act 6 0 Check None] in
  (length acts ≤ 12)%nat ∧ hs_status (snapshot (foldl demo_apply s acts)) = HRunning.
Proof.
  set (s := demo_dealt [0; 1; 2]). set (acts := [_; _; _; _; _; _]).
  assert (plays s acts (foldl demo_apply s acts)) as Hp
    by (do 6 (eapply plays_cons; [vm_compute; reflexivity|]); apply plays_nil).
  assert (hs_status (snapshot s) = HRunning) as Hrun by by vm_compute.
  assert (hs_street (snapshot s) = Preflop ∧ size (h_seated_players (hand s)) = 3%nat) as [Hs Hn]
    by by vm_compute.
  assert (hs_status (snapshot (foldl demo_apply s acts)) = HRunning) as Hrun' by by vm_compute.
  destruct (passive_hands_end s acts (foldl demo_apply s acts)) as [Hlen _].
  - apply reachable_engine_inv, demo_dealt_reachable.
  - exact Hrun.
  - assert (h_all_in_seats (hand s) = ∅) as E by by vm_compute. intros x _ _ Hx.
    rewrite E in Hx. exact (not_elem_of_empty _ Hx).
  - vm_compute. discriminate.
  - do 6 (apply Forall_cons; split; [unfold passive; cbn; tauto|]). by apply Forall_nil.
  - exact Hp.
  - rewrite Hs, Hn in Hlen. split; [exact Hlen|exact Hrun'].
Defined.

(** Seat 0 is all-in before the flop; seats 1 and 2 then check for ever. *)
Lemma betting_stalls_on_an_all_in_seat_witness :
  let s := foldl demo_apply (demo_dealt [0; 1; 2])
             [demo_act 1 0 AllIn (Some 200000000000000); demo_act 2 1 Call None;
              demo_act 3 2 Check None] in
  let s' := foldl demo_apply s [demo_act 4 1 Check None; demo_act 5 2 Check None;
                                demo_act 6 1 Check None; demo_act 7 2 Check None] in
  hs_street (snapshot s) = Flop ∧ hs_street (snapshot s') = Flop.
Proof.
  set (s := foldl demo_apply (demo_dealt _) _).
  set (acts := [demo_act 4 1 Check None; demo_act 5 2 Check None;
                demo_act 6 1 Check None; demo_act 7 2 Check None]).
  assert (hs_street (snapshot s) = Flop) as Hf by by vm_compute.
  split; [exact Hf|]. etransitivity; [|exact Hf].
  apply (betting_stalls_on_an_all_in_seat 0 s acts).
  - apply reachable_engine_inv, demo_plays_reachable.
  - split; try (apply (bool_decide_unpack _); by vm_compute).
    exists 1. split; [by vm_compute|]. split; [|split]; apply (bool_decide_unpack _); by vm_compute.
  - repeat constructor.
  - do 4 (eapply plays_cons; [vm_compute; reflexivity|]). apply plays_nil.
Defined.

(** Heads-up: seat 0 folds the first hand, so seat 1's call ends the second one. *)
Lemma folded_seats_survive_deal_witness :
  let s := demo_apply (demo_dealt [0; 1]) (demo_act 1 0 Fold None) in
  let s' := fst (deal_new_hand_internal_with_deck 12 ordered_deck s) in
  hs_status (snapshot (demo_apply s' (demo_act 1 1 Call None))) = HSettled.
Proof.
  set (s := demo_apply _ _).
  set (s' := fst (deal_new_hand_internal_with_deck 12 ordered_deck s)).
  set (a := demo_act 1 1 Call None).
  assert (engine_inv s) as Hinv by exact (reachable_engine_inv _ (demo_plays_reachable [0; 1]
    [demo_act 1 0 Fold None])).
  destruct (folded_seats_survive_deal 12 ordered_deck s s' Hinv) as (_ & _ & Hend).
  - vm_compute. reflexivity.
  - apply (Hend ltac:(vm_compute; lia) a _ None). vm_compute. reflexivity.
Defined.

Lemma events_follow_the_hand_witness :
  let s := demo_dealt [0; 1] in
  post_action_event_kinds (demo_apply s (demo_act 1 0 Fold None)) (demo_act 1 0 Fold None)
    (Accepted None)
  = [ActionAccepted (demo_act 1 0 Fold None); PotUpdated 300000000000000; HandClosed].
Proof.
  set (s := demo_dealt [0; 1]). set (a := demo_act 1 0 Fold None).
  etransitivity; [apply (events_follow_the_hand s a _ None)|].
  - apply reachable_engine_inv, demo_dealt_reachable.
  - vm_compute. reflexivity.
  - vm_compute. reflexivity.
Defined.

(** ** Showdown *)

(** C39. The showdown has a result exactly when at least three board cards are
    known and some revealed hand may win, and the winners are then, in seat order,
    the seats of the best hands among those that may win: ties share. *)
Theorem showdown_winners_are_the_best_hands `{RL : RankLaws} input eligible :
  match evaluate_showdown_for_eligible input eligible with
  | Some r =>
      (3 ≤ length (si_board input))%nat ∧ winner_seats r ≠ [] ∧
      StronglySorted N.le (winner_seats r) ∧
      ∀ seat, seat ∈ winner_seats r ↔
        ∃ e, best_of (si_board input) eligible (si_revealed_hole_cards input) e ∧ fst e = seat
  | None =>
      (length (si_board input) < 3)%nat ∨
      ∀ e, e ∈ si_revealed_hole_cards input → ¬ may_win eligible e
  end.
Proof. apply evaluate_showdown_spec. Qed.

Lemma showdown_winners_are_the_best_hands_witness :
  let input := mkShowdownInput [1; 2; 3] [(4, (10, 5)); (2, (8, 7)); (7, (9, 9))] in
  evaluate_showdown_for_eligible input (Some [2; 4]) = Some (mkShowdownResult [2; 4]) ∧
  ∃ e, best_of [1; 2; 3] (Some [2; 4]) (si_revealed_hole_cards input) e ∧ fst e = 4.
Proof.
  set (input := mkShowdownInput _ _).
  assert (evaluate_showdown_for_eligible input (Some [2; 4]) = Some (mkShowdownResult [2; 4])) as E
    by (vm_compute; reflexivity).
  split; [exact E|].
  pose proof (showdown_winners_are_the_best_hands input (Some [2; 4])) as Hs.
  rewrite E in Hs. destruct Hs as (_ & _ & _ & Hs). apply Hs. apply list_elem_of_In. cbn. tauto.
Defined.
