(* ===== verification/LedgerStore.v ===== *)
(** The stores of the platform (crate [ledger-store]): the records, the
    repository traits as type classes, and the in-memory implementations that
    stand for them in tests and single-process deployments.

    A repository method is a computation of [M] over the world [W] that holds the
    store, so that what it writes before it fails is part of the model. A
    [Mutex] is its content with the poison flag that a panic under the lock
    sets. The PostgreSQL implementations are in [LedgerPostgres]. *)

From stdpp Require Import base tactics option list gmap strings sorting pretty.
From Stdlib Require Import NArith Lia.
From S2P Require Import Prelude.
From S2P Require Import Text.
From S2P Require Import Domain.

Local Open Scope N_scope.

Inductive LedgerStoreError :=
| NotImplemented | LockPoisoned | DuplicateTxBinding | DuplicateTxHashBinding
| Database (message : string) | MissingExpectedAmount.

Definition ledger_error_text (e : LedgerStoreError) : string :=
  match e with
  | NotImplemented => "not implemented"
  | LockPoisoned => "store lock poisoned"
  | DuplicateTxBinding => "duplicate tx binding for hand/action"
  | DuplicateTxHashBinding => "duplicate tx hash binding"
  | Database m => "database error: " +:+ m
  | MissingExpectedAmount => "expected_amount is required for tx_binding"
  end.

Inductive LedgerDirection := Debit | Credit.

(** ** Records *)

Record LedgerEntryInsert := mkLedgerEntryInsert {
  le_entry_type : string;
  le_room_id : option RoomId;
  le_hand_id : option HandId;
  le_seat_id : option SeatId;
  le_agent_id : option AgentId;
  le_asset_type : string;
  le_amount : Chips;
  le_direction : LedgerDirection;
  le_account_scope : string;
  le_related_tx_hash : option string;
  le_related_event_id : option string;
  le_related_attempt_id : option string;
  le_remark : option string;
  le_trace_id : TraceId;
}.

Record TxVerificationUpsert := mkTxVerificationUpsert {
  tv_tx_hash : string;
  tv_room_id : RoomId;
  tv_hand_id : option HandId;
  tv_seat_id : option SeatId;
  tv_action_seq : option N;
  tv_status : string;
  tv_confirmations : N;
  tv_failure_reason : option string;
  tv_observed_from : option string;
  tv_observed_to : option string;
  tv_observed_amount : option Chips;
  tv_verified_at : DateTime;
  tv_trace_id : TraceId;
}.

Record TxBindingInsert := mkTxBindingInsert {
  tb_tx_hash : string;
  tb_room_id : RoomId;
  tb_hand_id : HandId;
  tb_seat_id : SeatId;
  tb_action_seq : N;
  tb_expected_amount : option Chips;
  tb_binding_status : string;
  tb_created_at : DateTime;
  tb_trace_id : TraceId;
}.

Record ExceptionCreditUpsert := mkExceptionCreditUpsert {
  ec_room_id : RoomId;
  ec_seat_id : option SeatId;
  ec_tx_hash : string;
  ec_credit_type : string;
  ec_amount : Chips;
  ec_status : string;
  ec_reason : string;
  ec_updated_at : DateTime;
  ec_trace_id : TraceId;
}.

Record TxVerificationRecord := mkTxVerificationRecord {
  tvr_tx_hash : string;
  tvr_chain_id : string;
  tvr_from_address : option string;
  tvr_to_address : option string;
  tvr_value : option Chips;
  tvr_tx_status : string;
  tvr_confirmations : N;
  tvr_verification_status : string;
  tvr_failure_reason : option string;
  tvr_verified_at : option DateTime;
}.

Record TxBindingRecord := mkTxBindingRecord {
  tbr_room_id : RoomId;
  tbr_hand_id : HandId;
  tbr_action_seq : N;
  tbr_seat_id : SeatId;
  tbr_expected_amount : Chips;
  tbr_tx_hash : string;
  tbr_binding_status : string;
  tbr_bound_at : DateTime;
}.

Record ExceptionCreditRecord := mkExceptionCreditRecord {
  ecr_room_id : RoomId;
  ecr_seat_id : SeatId;
  ecr_hand_id : option HandId;
  ecr_tx_hash : option string;
  ecr_credit_kind : string;
  ecr_amount : Chips;
  ecr_status : string;
  ecr_reason : option string;
  ecr_created_at : DateTime;
  ecr_updated_at : DateTime;
}.

Record RoomSigningKeyRecord := mkRoomSigningKeyRecord {
  rk_room_id : RoomId;
  rk_address : string;
  rk_encrypted_private_key : list N;
  rk_cipher_alg : string;
  rk_key_version : Z;
  rk_kek_id : string;
  rk_nonce : list N;
  rk_aad : list N;
  rk_status : string;
  rk_created_at : DateTime;
  rk_rotated_at : option DateTime;
  rk_revoked_at : option DateTime;
}.

Record SettlementPlanRecordInsert := mkSettlementPlanRecordInsert {
  spr_settlement_plan_id : Uuid;
  spr_room_id : RoomId;
  spr_hand_id : HandId;
  spr_status : string;
  spr_rake_amount : Chips;
  spr_payout_total : Chips;
  spr_payload_json : Json;
  spr_created_at : DateTime;
  spr_finalized_at : option DateTime;
}.

Record SettlementRecordInsert := mkSettlementRecordInsert {
  sr_settlement_record_id : Uuid;
  sr_settlement_plan_id : Uuid;
  sr_room_id : RoomId;
  sr_hand_id : HandId;
  sr_tx_hash : option string;
  sr_settlement_status : string;
  sr_retry_count : Z;
  sr_error_detail : option string;
  sr_created_at : DateTime;
  sr_updated_at : DateTime;
}.

Record SettlementRecordStatusUpdate := mkSettlementRecordStatusUpdate {
  su_tx_hash : string;
  su_settlement_status : string;
  su_retry_count : Z;
  su_error_detail : option string;
  su_updated_at : DateTime;
}.

Record SettlementShowdownSeatCardsRecord := mkSeatCardsRecord {
  sc_seat_id : SeatId;
  sc_cards : string;
}.

Record SettlementShowdownInputRecord := mkShowdownInputRecord {
  sh_room_id : RoomId;
  sh_hand_id : HandId;
  sh_board_cards : string;
  sh_revealed_hole_cards : list SettlementShowdownSeatCardsRecord;
  sh_source : string;
  sh_updated_at : DateTime;
  sh_trace_id : TraceId;
}.

Record PageRequest := mkPageRequest { pg_limit : nat; pg_offset : nat }.
Definition PageRequest_default : PageRequest := mkPageRequest 100 0.

(** ** The repository traits *)

Class LedgerRepository (W : Type) := {
  insert_entries : list LedgerEntryInsert → M W LedgerStoreError unit;
}.

Class ChainTxRepository (W : Type) := {
  upsert_tx_verification : TxVerificationUpsert → M W LedgerStoreError unit;
  insert_tx_binding : TxBindingInsert → M W LedgerStoreError unit;
  upsert_exception_credit : ExceptionCreditUpsert → M W LedgerStoreError unit;
}.

Class ChainTxReadRepository (W : Type) := {
  get_tx_verification : string → M W LedgerStoreError (option TxVerificationRecord);
  get_tx_binding_by_tx_hash : string → M W LedgerStoreError (option TxBindingRecord);
  get_tx_binding_by_hand_action :
    HandId → N → M W LedgerStoreError (option TxBindingRecord);
  list_exception_credits :
    option RoomId → PageRequest → M W LedgerStoreError (list ExceptionCreditRecord);
}.

Class RoomSigningKeyReadRepository (W : Type) := {
  get_active_room_signing_key : RoomId → M W LedgerStoreError (option RoomSigningKeyRecord);
}.

Class SettlementPersistenceRepository (W : Type) := {
  insert_settlement_plan : SettlementPlanRecordInsert → M W LedgerStoreError unit;
  insert_settlement_record : SettlementRecordInsert → M W LedgerStoreError unit;
  update_settlement_record_status_by_tx_hash :
    SettlementRecordStatusUpdate → M W LedgerStoreError unit;
  upsert_settlement_showdown_input : SettlementShowdownInputRecord → M W LedgerStoreError unit;
}.

Class SettlementPersistenceReadRepository (W : Type) := {
  get_settlement_plan : Uuid → M W LedgerStoreError (option SettlementPlanRecordInsert);
  list_settlement_records_by_hand : HandId → M W LedgerStoreError (list SettlementRecordInsert);
  get_settlement_showdown_input :
    HandId → M W LedgerStoreError (option SettlementShowdownInputRecord);
}.

(** ** The repositories that keep nothing *)

Definition NoopLedgerRepository : LedgerRepository unit :=
  {| insert_entries := λ _, mret tt |}.
Definition NoopChainTxRepository : ChainTxRepository unit :=
  {| upsert_tx_verification := λ _, mret tt;
     insert_tx_binding := λ _, mret tt;
     upsert_exception_credit := λ _, mret tt |}.
Definition NoopSettlementPersistenceRepository : SettlementPersistenceRepository unit :=
  {| insert_settlement_plan := λ _, mret tt;
     insert_settlement_record := λ _, mret tt;
     update_settlement_record_status_by_tx_hash := λ _, mret tt;
     upsert_settlement_showdown_input := λ _, mret tt |}.
Definition NoopSettlementPersistenceReadRepository : SettlementPersistenceReadRepository unit :=
  {| get_settlement_plan := λ _, mret None;
     list_settlement_records_by_hand := λ _, mret [];
     get_settlement_showdown_input := λ _, mret None |}.

(** ** Mutexes *)

Record Mutex (A : Type) := mkMutex { mx_poisoned : bool; mx_value : A }.
Arguments mkMutex {_} _ _.
Arguments mx_poisoned {_} _.
Arguments mx_value {_} _.

Definition lock {A} (m : Mutex A) : result LedgerStoreError A :=
  if mx_poisoned m then Err LockPoisoned else Ok (mx_value m).
Definition store {A} (m : Mutex A) (v : A) : Mutex A := mkMutex (mx_poisoned m) v.
(** [lock().map_or(d, f)] *)
Definition lock_or {A B} (m : Mutex A) (d : B) (f : A → B) : B :=
  if mx_poisoned m then d else f (mx_value m).

(** ** The in-memory ledger *)

Definition InMemoryLedgerRepository : Type := Mutex (list LedgerEntryInsert).

Definition entries_snapshot (repo : InMemoryLedgerRepository) : list LedgerEntryInsert :=
  lock_or repo [] id.

#[export] Instance in_memory_ledger : LedgerRepository InMemoryLedgerRepository := {
  insert_entries entries :=
    repo ← get;
    guard ← lift_result (lock repo);
    modify (λ repo, store repo (guard ++ entries));
}.

(** ** The in-memory chain transactions *)

Record InMemoryChainTxRepository := mkInMemoryChainTx {
  tx_verifications : Mutex (gmap string TxVerificationUpsert);
  tx_bindings_by_hash : Mutex (gmap string TxBindingInsert);
  tx_bindings_by_action : Mutex (gmap (HandId * N) string);
  exception_credits : Mutex (gmap string ExceptionCreditUpsert);
  room_signing_keys : Mutex (gmap RoomId RoomSigningKeyRecord);
}.

Definition InMemoryChainTx_new : InMemoryChainTxRepository :=
  mkInMemoryChainTx (mkMutex false ∅) (mkMutex false ∅) (mkMutex false ∅) (mkMutex false ∅)
    (mkMutex false ∅).

Section ChainTxRepo.
Implicit Types repo : InMemoryChainTxRepository.

Definition set_tx_verifications v repo := mkInMemoryChainTx
  (store (tx_verifications repo) v) (tx_bindings_by_hash repo) (tx_bindings_by_action repo)
  (exception_credits repo) (room_signing_keys repo).
Definition set_bindings_by_hash v repo := mkInMemoryChainTx (tx_verifications repo)
  (store (tx_bindings_by_hash repo) v) (tx_bindings_by_action repo)
  (exception_credits repo) (room_signing_keys repo).
Definition set_bindings_by_action v repo := mkInMemoryChainTx (tx_verifications repo)
  (tx_bindings_by_hash repo) (store (tx_bindings_by_action repo) v)
  (exception_credits repo) (room_signing_keys repo).
Definition set_exception_credits v repo := mkInMemoryChainTx (tx_verifications repo)
  (tx_bindings_by_hash repo) (tx_bindings_by_action repo)
  (store (exception_credits repo) v) (room_signing_keys repo).
Definition set_room_signing_keys v repo := mkInMemoryChainTx (tx_verifications repo)
  (tx_bindings_by_hash repo) (tx_bindings_by_action repo)
  (exception_credits repo) (store (room_signing_keys repo) v).

Definition tx_verifications_len repo : nat := lock_or (tx_verifications repo) 0%nat size.
Definition tx_bindings_len repo : nat := lock_or (tx_bindings_by_hash repo) 0%nat size.
Definition exception_credits_len repo : nat := lock_or (exception_credits repo) 0%nat size.

Definition upsert_room_signing_key_record (record : RoomSigningKeyRecord)
    : M InMemoryChainTxRepository LedgerStoreError unit :=
  repo ← get;
  m ← lift_result (lock (room_signing_keys repo));
  modify (set_room_signing_keys (<[rk_room_id record := record]> m)).

Definition in_memory_upsert_tx_verification (record : TxVerificationUpsert)
    : M InMemoryChainTxRepository LedgerStoreError unit :=
  repo ← get;
  m ← lift_result (lock (tx_verifications repo));
  modify (set_tx_verifications (<[tv_tx_hash record := record]> m)).

(** The four critical sections of [insert_tx_binding]. *)
Definition action_is_free (record : TxBindingInsert)
    : M InMemoryChainTxRepository LedgerStoreError unit :=
  repo ← get;
  by_action ← lift_result (lock (tx_bindings_by_action repo));
  match by_action !! (tb_hand_id record, tb_action_seq record) with
  | Some _ => throw DuplicateTxBinding
  | None => mret tt
  end.
Definition hash_is_free (record : TxBindingInsert)
    : M InMemoryChainTxRepository LedgerStoreError unit :=
  repo ← get;
  by_hash ← lift_result (lock (tx_bindings_by_hash repo));
  match by_hash !! tb_tx_hash record with
  | Some _ => throw DuplicateTxHashBinding
  | None => mret tt
  end.
Definition bind_action (record : TxBindingInsert)
    : M InMemoryChainTxRepository LedgerStoreError unit :=
  repo ← get;
  by_action ← lift_result (lock (tx_bindings_by_action repo));
  modify (set_bindings_by_action
    (<[(tb_hand_id record, tb_action_seq record) := tb_tx_hash record]> by_action)).
Definition bind_hash (record : TxBindingInsert)
    : M InMemoryChainTxRepository LedgerStoreError unit :=
  repo ← get;
  by_hash ← lift_result (lock (tx_bindings_by_hash repo));
  modify (set_bindings_by_hash (<[tb_tx_hash record := record]> by_hash)).

Definition in_memory_insert_tx_binding (record : TxBindingInsert)
    : M InMemoryChainTxRepository LedgerStoreError unit :=
  action_is_free record;;
  hash_is_free record;;
  bind_action record;;
  bind_hash record.

Definition in_memory_upsert_exception_credit (record : ExceptionCreditUpsert)
    : M InMemoryChainTxRepository LedgerStoreError unit :=
  repo ← get;
  m ← lift_result (lock (exception_credits repo));
  modify (set_exception_credits (<[ec_tx_hash record := record]> m)).

Definition verification_record (r : TxVerificationUpsert) : TxVerificationRecord :=
  mkTxVerificationRecord (tv_tx_hash r) "cfx-espace" (tv_observed_from r) (tv_observed_to r)
    (tv_observed_amount r) (tv_status r) (tv_confirmations r) (tv_status r)
    (tv_failure_reason r) (Some (tv_verified_at r)).

Definition binding_record (r : TxBindingInsert) : option TxBindingRecord :=
  (λ amt, mkTxBindingRecord (tb_room_id r) (tb_hand_id r) (tb_action_seq r) (tb_seat_id r)
            amt (tb_tx_hash r) (tb_binding_status r) (tb_created_at r))
    <$> tb_expected_amount r.

Definition credit_record (r : ExceptionCreditUpsert) : ExceptionCreditRecord :=
  mkExceptionCreditRecord (ec_room_id r) (default 0 (ec_seat_id r)) None
    (Some (ec_tx_hash r)) (ec_credit_type r) (ec_amount r) (ec_status r)
    (Some (ec_reason r)) (ec_updated_at r) (ec_updated_at r).

Definition in_memory_get_tx_verification (tx_hash : string)
    : M InMemoryChainTxRepository LedgerStoreError (option TxVerificationRecord) :=
  repo ← get;
  guard ← lift_result (lock (tx_verifications repo));
  mret (verification_record <$> guard !! tx_hash).

Definition in_memory_get_tx_binding_by_tx_hash (tx_hash : string)
    : M InMemoryChainTxRepository LedgerStoreError (option TxBindingRecord) :=
  repo ← get;
  by_hash ← lift_result (lock (tx_bindings_by_hash repo));
  mret (by_hash !! tx_hash ≫= binding_record).

Definition in_memory_get_tx_binding_by_hand_action (hand_id : HandId) (action_seq : N)
    : M InMemoryChainTxRepository LedgerStoreError (option TxBindingRecord) :=
  repo ← get;
  by_action ← lift_result (lock (tx_bindings_by_action repo));
  match by_action !! (hand_id, action_seq) with
  | None => mret None
  | Some tx_hash =>
      by_hash ← lift_result (lock (tx_bindings_by_hash repo));
      mret (by_hash !! tx_hash ≫= binding_record)
  end.

(** [skip(offset).take(limit)] over the values in the map's order. *)
Definition in_memory_list_exception_credits (room_id : option RoomId) (page : PageRequest)
    : M InMemoryChainTxRepository LedgerStoreError (list ExceptionCreditRecord) :=
  repo ← get;
  guard ← lift_result (lock (exception_credits repo));
  let kept := filter (λ r, from_option (λ id, ec_room_id r =? id) true room_id = true)
                (map snd (map_to_list guard)) in
  mret (map credit_record (take (pg_limit page) (drop (pg_offset page) kept))).

Definition in_memory_get_active_room_signing_key (room_id : RoomId)
    : M InMemoryChainTxRepository LedgerStoreError (option RoomSigningKeyRecord) :=
  repo ← get;
  guard ← lift_result (lock (room_signing_keys repo));
  mret (guard !! room_id).
End ChainTxRepo.

#[export] Instance in_memory_chain_tx : ChainTxRepository InMemoryChainTxRepository := {
  upsert_tx_verification := in_memory_upsert_tx_verification;
  insert_tx_binding := in_memory_insert_tx_binding;
  upsert_exception_credit := in_memory_upsert_exception_credit;
}.
#[export] Instance in_memory_chain_tx_read : ChainTxReadRepository InMemoryChainTxRepository := {
  get_tx_verification := in_memory_get_tx_verification;
  get_tx_binding_by_tx_hash := in_memory_get_tx_binding_by_tx_hash;
  get_tx_binding_by_hand_action := in_memory_get_tx_binding_by_hand_action;
  list_exception_credits := in_memory_list_exception_credits;
}.
#[export] Instance in_memory_signing_keys :
    RoomSigningKeyReadRepository InMemoryChainTxRepository := {
  get_active_room_signing_key := in_memory_get_active_room_signing_key;
}.

(** ** The in-memory settlement records *)

Record InMemorySettlementPersistenceRepository := mkInMemorySettlement {
  settlement_plans : Mutex (gmap Uuid SettlementPlanRecordInsert);
  settlement_records : Mutex (gmap Uuid SettlementRecordInsert);
  showdown_inputs : Mutex (gmap HandId SettlementShowdownInputRecord);
}.

Definition InMemorySettlement_new : InMemorySettlementPersistenceRepository :=
  mkInMemorySettlement (mkMutex false ∅) (mkMutex false ∅) (mkMutex false ∅).

Section SettlementRepo.
Implicit Types repo : InMemorySettlementPersistenceRepository.

Definition set_settlement_plans v repo := mkInMemorySettlement
  (store (settlement_plans repo) v) (settlement_records repo) (showdown_inputs repo).
Definition set_settlement_records v repo := mkInMemorySettlement
  (settlement_plans repo) (store (settlement_records repo) v) (showdown_inputs repo).
Definition set_showdown_inputs v repo := mkInMemorySettlement
  (settlement_plans repo) (settlement_records repo) (store (showdown_inputs repo) v).

Definition settlement_plans_len repo : nat := lock_or (settlement_plans repo) 0%nat size.
Definition settlement_records_len repo : nat := lock_or (settlement_records repo) 0%nat size.
Definition settlement_records_snapshot repo : list SettlementRecordInsert :=
  lock_or (settlement_records repo) [] (λ m, map snd (map_to_list m)).

Definition in_memory_insert_settlement_plan (record : SettlementPlanRecordInsert)
    : M InMemorySettlementPersistenceRepository LedgerStoreError unit :=
  repo ← get;
  m ← lift_result (lock (settlement_plans repo));
  modify (set_settlement_plans (<[spr_settlement_plan_id record := record]> m)).

Definition in_memory_insert_settlement_record (record : SettlementRecordInsert)
    : M InMemorySettlementPersistenceRepository LedgerStoreError unit :=
  repo ← get;
  m ← lift_result (lock (settlement_records repo));
  modify (set_settlement_records (<[sr_settlement_record_id record := record]> m)).

Definition apply_status_update (update : SettlementRecordStatusUpdate)
    (record : SettlementRecordInsert) : SettlementRecordInsert :=
  if decide (sr_tx_hash record = Some (su_tx_hash update)) then
    mkSettlementRecordInsert (sr_settlement_record_id record) (sr_settlement_plan_id record)
      (sr_room_id record) (sr_hand_id record) (sr_tx_hash record)
      (su_settlement_status update) (su_retry_count update) (su_error_detail update)
      (sr_created_at record) (su_updated_at update)
  else record.

Definition in_memory_update_status_by_tx_hash (update : SettlementRecordStatusUpdate)
    : M InMemorySettlementPersistenceRepository LedgerStoreError unit :=
  repo ← get;
  guard ← lift_result (lock (settlement_records repo));
  modify (set_settlement_records (apply_status_update update <$> guard)).

Definition in_memory_upsert_showdown_input (record : SettlementShowdownInputRecord)
    : M InMemorySettlementPersistenceRepository LedgerStoreError unit :=
  repo ← get;
  m ← lift_result (lock (showdown_inputs repo));
  modify (set_showdown_inputs (<[sh_hand_id record := record]> m)).

Definition in_memory_get_settlement_plan (settlement_plan_id : Uuid)
    : M InMemorySettlementPersistenceRepository LedgerStoreError
        (option SettlementPlanRecordInsert) :=
  repo ← get;
  guard ← lift_result (lock (settlement_plans repo));
  mret (guard !! settlement_plan_id).

Definition in_memory_list_records_by_hand (hand_id : HandId)
    : M InMemorySettlementPersistenceRepository LedgerStoreError
        (list SettlementRecordInsert) :=
  repo ← get;
  guard ← lift_result (lock (settlement_records repo));
  mret (sort_by_key sr_created_at
          (filter (λ r, sr_hand_id r = hand_id) (map snd (map_to_list guard)))).

Definition in_memory_get_showdown_input (hand_id : HandId)
    : M InMemorySettlementPersistenceRepository LedgerStoreError
        (option SettlementShowdownInputRecord) :=
  repo ← get;
  guard ← lift_result (lock (showdown_inputs repo));
  mret (guard !! hand_id).
End SettlementRepo.

#[export] Instance in_memory_settlement :
    SettlementPersistenceRepository InMemorySettlementPersistenceRepository := {
  insert_settlement_plan := in_memory_insert_settlement_plan;
  insert_settlement_record := in_memory_insert_settlement_record;
  update_settlement_record_status_by_tx_hash := in_memory_update_status_by_tx_hash;
  upsert_settlement_showdown_input := in_memory_upsert_showdown_input;
}.
#[export] Instance in_memory_settlement_read :
    SettlementPersistenceReadRepository InMemorySettlementPersistenceRepository := {
  get_settlement_plan := in_memory_get_settlement_plan;
  list_settlement_records_by_hand := in_memory_list_records_by_hand;
  get_settlement_showdown_input := in_memory_get_showdown_input;
}.

Definition chips_to_decimal_string (amount : Chips) : string := pretty amount.
