(* ===== verification/LedgerProps.v ===== *)
(** Properties of the in-memory stores: the two indexes of the transaction
    bindings describe the same bindings, a binding is accepted once, and what the
    separate critical sections of [insert_tx_binding] allow when two calls
    interleave. *)

From stdpp Require Import base tactics option list gmap strings relations.
From Stdlib Require Import NArith Lia.
From S2P Require Import Prelude.
From S2P Require Import Domain.
From S2P Require Import LedgerStore.

Local Open Scope N_scope.

Section Bindings.
Implicit Types repo : InMemoryChainTxRepository.

(** The two indexes are the same set of bindings. *)
Record bindings_ok repo : Prop := {
  bind_action_hash key hash :
    mx_value (tx_bindings_by_action repo) !! key = Some hash →
    ∃ r, mx_value (tx_bindings_by_hash repo) !! hash = Some r ∧
         (tb_hand_id r, tb_action_seq r) = key;
  bind_hash_action hash r :
    mx_value (tx_bindings_by_hash repo) !! hash = Some r →
    tb_tx_hash r = hash ∧
    mx_value (tx_bindings_by_action repo) !! (tb_hand_id r, tb_action_seq r) = Some hash;
}.

Definition bindings_unlocked repo : Prop :=
  mx_poisoned (tx_bindings_by_action repo) = false ∧
  mx_poisoned (tx_bindings_by_hash repo) = false.

Definition bound repo (r : TxBindingInsert) : InMemoryChainTxRepository :=
  set_bindings_by_hash (<[tb_tx_hash r := r]> (mx_value (tx_bindings_by_hash repo)))
    (set_bindings_by_action
       (<[(tb_hand_id r, tb_action_seq r) := tb_tx_hash r]>
          (mx_value (tx_bindings_by_action repo))) repo).

Lemma bindings_ok_new : bindings_ok InMemoryChainTx_new.
Proof. split; cbn; intros *; rewrite lookup_empty; done. Qed.

Lemma insert_tx_binding_cases repo r :
  bindings_unlocked repo →
  in_memory_insert_tx_binding r repo =
    if decide (is_Some (mx_value (tx_bindings_by_action repo)
                          !! (tb_hand_id r, tb_action_seq r)))
    then (repo, Err DuplicateTxBinding)
    else if decide (is_Some (mx_value (tx_bindings_by_hash repo) !! tb_tx_hash r))
    then (repo, Err DuplicateTxHashBinding)
    else (bound repo r, Ok tt).
Proof.
  intros [Ha Hh]. unfold in_memory_insert_tx_binding, action_is_free, hash_is_free,
    bind_action, bind_hash, lock. mrun. rewrite Ha.
  destruct (mx_value (tx_bindings_by_action repo) !! _) eqn:E1.
  { rewrite decide_True by by eexists. done. }
  rewrite decide_False by by intros [? ?]. rewrite Hh.
  destruct (mx_value (tx_bindings_by_hash repo) !! _) eqn:E2.
  { rewrite decide_True by by eexists. done. }
  rewrite decide_False by by intros [? ?]. rewrite Ha. cbn. by rewrite Hh.
Qed.

Lemma bound_ok repo r :
  bindings_ok repo →
  mx_value (tx_bindings_by_action repo) !! (tb_hand_id r, tb_action_seq r) = None →
  mx_value (tx_bindings_by_hash repo) !! tb_tx_hash r = None →
  bindings_ok (bound repo r).
Proof.
  intros [H1 H2] Ha Hh. split; cbn.
  - intros key hash. rewrite lookup_insert. case_decide as Hk.
    + intros [= <-]. exists r. by rewrite lookup_insert_eq.
    + intros Hl. destruct (H1 _ _ Hl) as (r' & Hr' & Hkey). exists r'.
      rewrite lookup_insert_ne; [done|]. intros E. congruence.
  - intros hash r'. rewrite lookup_insert. case_decide as Hk.
    + subst hash. intros [= <-]. by rewrite lookup_insert_eq.
    + intros Hl. destruct (H2 _ _ Hl) as [Hr' Hkey]. split; [done|].
      rewrite lookup_insert_ne; [done|]. intros E. congruence.
Qed.

(** ** Interleavings *)

(** Where a call of [insert_tx_binding] is: before its [n]-th critical section,
    or finished. *)
Inductive BindPc :=
| BindAt (n : nat)
| BindDone (r : result LedgerStoreError unit).

Definition critical_section (n : nat) (record : TxBindingInsert)
    : M InMemoryChainTxRepository LedgerStoreError unit :=
  match n with
  | O => action_is_free record
  | S O => hash_is_free record
  | S (S O) => bind_action record
  | _ => bind_hash record
  end.

Definition bind_step (record : TxBindingInsert) (n : nat) repo
    : InMemoryChainTxRepository * BindPc :=
  match critical_section n record repo with
  | (repo', Ok _) => (repo', if (n <? 3)%nat then BindAt (S n) else BindDone (Ok tt))
  | (repo', Err e) => (repo', BindDone (Err e))
  end.

(** Two calls that run at the same time: either one does its next section. *)
Inductive race_step (r1 r2 : TxBindingInsert) :
    InMemoryChainTxRepository * BindPc * BindPc →
    InMemoryChainTxRepository * BindPc * BindPc → Prop :=
| race_left n repo repo' pc' pc2 :
    bind_step r1 n repo = (repo', pc') →
    race_step r1 r2 (repo, BindAt n, pc2) (repo', pc', pc2)
| race_right n repo repo' pc1 pc' :
    bind_step r2 n repo = (repo', pc') →
    race_step r1 r2 (repo, pc1, BindAt n) (repo', pc1, pc').

(** A call that is not interrupted does what [insert_tx_binding] does. *)
Lemma uninterrupted_call r1 r2 repo pc2 :
  rtc (race_step r1 r2) (repo, BindAt 0, pc2)
    (fst (in_memory_insert_tx_binding r1 repo),
     BindDone (snd (in_memory_insert_tx_binding r1 repo)), pc2).
Proof.
  unfold in_memory_insert_tx_binding. mrun.
  destruct (action_is_free r1 repo) as [repo1 [[]|e]] eqn:E1; cbn.
  2:{ apply rtc_once, race_left. unfold bind_step. cbn. by rewrite E1. }
  eapply rtc_l; [apply (race_left _ _ _ _ repo1 (BindAt 1)); unfold bind_step; cbn; by rewrite E1|].
  destruct (hash_is_free r1 repo1) as [repo2 [[]|e]] eqn:E2; cbn.
  2:{ apply rtc_once, race_left. unfold bind_step. cbn. by rewrite E2. }
  eapply rtc_l; [apply (race_left _ _ _ _ repo2 (BindAt 2)); unfold bind_step; cbn; by rewrite E2|].
  destruct (bind_action r1 repo2) as [repo3 [[]|e]] eqn:E3; cbn.
  2:{ apply rtc_once, race_left. unfold bind_step. cbn. by rewrite E3. }
  eapply rtc_l; [apply (race_left _ _ _ _ repo3 (BindAt 3)); unfold bind_step; cbn; by rewrite E3|].
  apply rtc_once, race_left. unfold bind_step. cbn.
  by destruct (bind_hash r1 repo3) as [repo4 [[]|e]].
Qed.
End Bindings.

Definition demo_binding (hash : string) : TxBindingInsert :=
  mkTxBindingInsert hash 1 7 0 3 (Some 100) "bound" 0 0.

(** Binding a transaction to an action succeeds exactly when neither the
    action nor the transaction is bound yet; it then keeps the two indexes in
    agreement and both lookups return the new binding, and a refusal says which of
    the two was taken and leaves the store as it was. *)
Theorem tx_binding_is_bound_once repo r
    (Hok : bindings_ok repo) (Hlocks : bindings_unlocked repo) :
  let '(repo', res) := in_memory_insert_tx_binding r repo in
  bindings_ok repo' ∧ bindings_unlocked repo' ∧
  match res with
  | Ok _ =>
      in_memory_get_tx_binding_by_tx_hash (tb_tx_hash r) repo' = (repo', Ok (binding_record r)) ∧
      in_memory_get_tx_binding_by_hand_action (tb_hand_id r) (tb_action_seq r) repo'
        = (repo', Ok (binding_record r)) ∧
      snd (in_memory_insert_tx_binding r repo') = Err DuplicateTxBinding
  | Err DuplicateTxBinding =>
      repo' = repo ∧
      is_Some (mx_value (tx_bindings_by_action repo) !! (tb_hand_id r, tb_action_seq r))
  | Err DuplicateTxHashBinding =>
      repo' = repo ∧ is_Some (mx_value (tx_bindings_by_hash repo) !! tb_tx_hash r)
  | Err _ => False
  end.
Proof.
  rewrite insert_tx_binding_cases by done. case_decide as Ha; [done|].
  case_decide as Hh; [done|]. apply eq_None_not_Some in Ha. apply eq_None_not_Some in Hh.
  assert (bindings_unlocked (bound repo r)) as Hl' by done.
  split; [by apply bound_ok|]. split; [done|].
  rewrite (insert_tx_binding_cases _ _ Hl'). destruct Hlocks as [La Lh].
  unfold in_memory_get_tx_binding_by_tx_hash, in_memory_get_tx_binding_by_hand_action, lock.
  mrun. cbn. rewrite La, Lh. rewrite !lookup_insert_eq. cbn. rewrite ?lookup_insert_eq. cbn.
  split; [done|]. split; [done|]. by rewrite decide_True by by eexists.
Qed.

Lemma tx_binding_is_bound_once_witness :
  let repo := fst (in_memory_insert_tx_binding (demo_binding "0xa") InMemoryChainTx_new) in
  bindings_ok repo ∧
  snd (in_memory_get_tx_binding_by_hand_action 7 3 repo)
    = Ok (Some (mkTxBindingRecord 1 7 3 0 100 "0xa" "bound" 0)).
Proof.
  pose proof (tx_binding_is_bound_once InMemoryChainTx_new (demo_binding "0xa")
    bindings_ok_new (conj eq_refl eq_refl)) as H.
  split; [exact (proj1 H)|]. vm_compute. reflexivity.
Defined.

(** The calls are not atomic: two concurrent calls with different
    transactions for the same action can both be accepted, and the store then
    holds a transaction that the action's index does not know. *)
Theorem concurrent_bindings_can_both_be_accepted :
  ∃ r1 r2 repo', tb_tx_hash r1 ≠ tb_tx_hash r2 ∧
    (tb_hand_id r1, tb_action_seq r1) = (tb_hand_id r2, tb_action_seq r2) ∧
    rtc (race_step r1 r2) (InMemoryChainTx_new, BindAt 0, BindAt 0)
      (repo', BindDone (Ok tt), BindDone (Ok tt)) ∧
    ¬ bindings_ok repo'.
Proof.
  exists (demo_binding "0xa"), (demo_binding "0xb"). eexists.
  split; [done|]. split; [done|]. split.
  - eapply rtc_l; [eapply (race_left _ _ 0); vm_compute; reflexivity|].
    eapply rtc_l; [eapply (race_right _ _ 0); vm_compute; reflexivity|].
    eapply rtc_l; [eapply (race_left _ _ 1); vm_compute; reflexivity|].
    eapply rtc_l; [eapply (race_right _ _ 1); vm_compute; reflexivity|].
    eapply rtc_l; [eapply (race_left _ _ 2); vm_compute; reflexivity|].
    eapply rtc_l; [eapply (race_right _ _ 2); vm_compute; reflexivity|].
    eapply rtc_l; [eapply (race_left _ _ 3); vm_compute; reflexivity|].
    apply rtc_once. eapply (race_right _ _ 3). vm_compute. reflexivity.
  - intros [_ Hb]. destruct (Hb "0xa" (demo_binding "0xa")) as [_ H]; [done|].
    vm_compute in H. discriminate.
Qed.
