(* ===== verification/AuditStore.v ===== *)
(** The audit store (crate [audit-store]): the records of action attempts,
    behaviour events, hand events and the outbox, and the in-memory repository. *)

From stdpp Require Import base tactics option list strings.
From Stdlib Require Import NArith Lia.
From S2P Require Import Prelude.
From S2P Require Import Text.
From S2P Require Import Domain.
From S2P Require Import LedgerStore.

Local Open Scope N_scope.

Inductive AuditStoreError :=
| ANotImplemented | ALockPoisoned | ADatabase (message : string)
| AInvalidUuid (field value : string) | ASerialization (message : string).

Definition audit_error_text (e : AuditStoreError) : string :=
  match e with
  | ANotImplemented => "not implemented"
  | ALockPoisoned => "store lock poisoned"
  | ADatabase m => "database error: " +:+ m
  | AInvalidUuid field value => "invalid uuid in field " +:+ field +:+ ": " +:+ value
  | ASerialization m => "serialization error: " +:+ m
  end.

Record ActionAttemptRecord := mkActionAttempt {
  aa_attempt_id : string;
  aa_request_id : string;
  aa_request_nonce : string;
  aa_agent_id : option AgentId;
  aa_session_id : option SessionId;
  aa_room_id : option RoomId;
  aa_hand_id : option HandId;
  aa_seat_id : option SeatId;
  aa_action_seq : option N;
  aa_method : string;
  aa_action_type : option string;
  aa_request_payload_json : Json;
  aa_signature_verify_result : string;
  aa_replay_check_result : string;
  aa_idempotency_check_result : string;
  aa_validation_result : string;
  aa_router_result : string;
  aa_business_result_code : option string;
  aa_error_detail : option string;
  aa_received_at : DateTime;
  aa_completed_at : option DateTime;
  aa_trace_id : TraceId;
}.

Record BehaviorEventRecord := mkBehaviorEvent {
  be_behavior_event_id : string;
  be_event_kind : string;
  be_event_source : string;
  be_room_id : option RoomId;
  be_hand_id : option HandId;
  be_seat_id : option SeatId;
  be_action_seq : option N;
  be_related_attempt_id : option string;
  be_related_tx_hash : option string;
  be_severity : string;
  be_payload_json : Json;
  be_occurred_at : DateTime;
  be_trace_id : TraceId;
}.

Record OutboxEventRecord := mkOutboxEvent {
  ob_outbox_event_id : string;
  ob_topic : string;
  ob_partition_key : string;
  ob_payload_json : Json;
  ob_status : string;
  ob_attempts : N;
  ob_available_at : DateTime;
  ob_delivered_at : option DateTime;
  ob_created_at : DateTime;
}.

Class AuditRepository (W : Type) := {
  insert_action_attempt : ActionAttemptRecord → M W AuditStoreError unit;
  insert_behavior_event : BehaviorEventRecord → M W AuditStoreError unit;
  append_hand_events : list HandEvent → M W AuditStoreError unit;
  insert_outbox_event : OutboxEventRecord → M W AuditStoreError unit;
  fetch_pending_outbox_events : nat → M W AuditStoreError (list OutboxEventRecord);
  mark_outbox_event_delivered : string → DateTime → M W AuditStoreError unit;
}.

Class AuditReadRepository (W : Type) := {
  get_action_attempt_by_request_id : string → M W AuditStoreError (option ActionAttemptRecord);
  list_behavior_events :
    option RoomId → option HandId → PageRequest → M W AuditStoreError (list BehaviorEventRecord);
  list_hand_events : HandId → PageRequest → M W AuditStoreError (list HandEvent);
}.

Definition NoopAuditRepository : AuditRepository unit :=
  {| insert_action_attempt := λ _, mret tt;
     insert_behavior_event := λ _, mret tt;
     append_hand_events := λ _, mret tt;
     insert_outbox_event := λ _, mret tt;
     fetch_pending_outbox_events := λ _, mret [];
     mark_outbox_event_delivered := λ _ _, mret tt |}.

(** ** The in-memory repository *)

Record InMemoryAuditRepository := mkInMemoryAudit {
  action_attempts : Mutex (list ActionAttemptRecord);
  behavior_events : Mutex (list BehaviorEventRecord);
  hand_events : Mutex (list HandEvent);
  outbox_events : Mutex (list OutboxEventRecord);
}.

Section AuditRepo.
Implicit Types repo : InMemoryAuditRepository.

Definition set_action_attempts v repo := mkInMemoryAudit (store (action_attempts repo) v)
  (behavior_events repo) (hand_events repo) (outbox_events repo).
Definition set_behavior_events v repo := mkInMemoryAudit (action_attempts repo)
  (store (behavior_events repo) v) (hand_events repo) (outbox_events repo).
Definition set_hand_events v repo := mkInMemoryAudit (action_attempts repo)
  (behavior_events repo) (store (hand_events repo) v) (outbox_events repo).
Definition set_outbox_events v repo := mkInMemoryAudit (action_attempts repo)
  (behavior_events repo) (hand_events repo) (store (outbox_events repo) v).

(** [lock().map_err(|_| AuditStoreError::LockPoisoned)] *)
Definition audit_lock {A} (m : Mutex A) : result AuditStoreError A :=
  result_map_err (λ _, ALockPoisoned) (lock m).

Definition in_memory_insert_action_attempt (record : ActionAttemptRecord)
    : M InMemoryAuditRepository AuditStoreError unit :=
  repo ← get;
  l ← lift_result (audit_lock (action_attempts repo));
  modify (set_action_attempts (l ++ [record])).

Definition in_memory_insert_behavior_event (record : BehaviorEventRecord)
    : M InMemoryAuditRepository AuditStoreError unit :=
  repo ← get;
  l ← lift_result (audit_lock (behavior_events repo));
  modify (set_behavior_events (l ++ [record])).

Definition in_memory_append_hand_events (events : list HandEvent)
    : M InMemoryAuditRepository AuditStoreError unit :=
  repo ← get;
  l ← lift_result (audit_lock (hand_events repo));
  modify (set_hand_events (l ++ events)).

Definition in_memory_insert_outbox_event (record : OutboxEventRecord)
    : M InMemoryAuditRepository AuditStoreError unit :=
  repo ← get;
  l ← lift_result (audit_lock (outbox_events repo));
  modify (set_outbox_events (l ++ [record])).

Definition is_pending (rec : OutboxEventRecord) : bool := String.eqb (ob_status rec) "pending".

Definition in_memory_fetch_pending (limit : nat)
    : M InMemoryAuditRepository AuditStoreError (list OutboxEventRecord) :=
  repo ← get;
  l ← lift_result (audit_lock (outbox_events repo));
  mret (take limit (filter (λ rec, is_pending rec = true) l)).

Definition delivered (at_ : DateTime) (rec : OutboxEventRecord) : OutboxEventRecord :=
  mkOutboxEvent (ob_outbox_event_id rec) (ob_topic rec) (ob_partition_key rec)
    (ob_payload_json rec) "delivered" (ob_attempts rec) (ob_available_at rec) (Some at_)
    (ob_created_at rec).

(** [iter_mut().find(..)]: the first record with the identifier. *)
Fixpoint deliver_first (id : string) (at_ : DateTime) (l : list OutboxEventRecord)
    : list OutboxEventRecord :=
  match l with
  | [] => []
  | rec :: l =>
      if String.eqb (ob_outbox_event_id rec) id then delivered at_ rec :: l
      else rec :: deliver_first id at_ l
  end.

Definition in_memory_mark_delivered (outbox_event_id : string) (delivered_at : DateTime)
    : M InMemoryAuditRepository AuditStoreError unit :=
  repo ← get;
  l ← lift_result (audit_lock (outbox_events repo));
  modify (set_outbox_events (deliver_first outbox_event_id delivered_at l)).

Definition in_memory_get_action_attempt (request_id : string)
    : M InMemoryAuditRepository AuditStoreError (option ActionAttemptRecord) :=
  repo ← get;
  l ← lift_result (audit_lock (action_attempts repo));
  mret (find (λ r, String.eqb (aa_request_id r) request_id) l).

Definition in_memory_list_behavior_events (room_id : option RoomId) (hand_id : option HandId)
    (page : PageRequest) : M InMemoryAuditRepository AuditStoreError (list BehaviorEventRecord) :=
  repo ← get;
  l ← lift_result (audit_lock (behavior_events repo));
  let l := filter (λ r, from_option (λ id, bool_decide (be_room_id r = Some id)) true room_id
                        = true) l in
  let l := filter (λ r, from_option (λ id, bool_decide (be_hand_id r = Some id)) true hand_id
                        = true) l in
  mret (take (pg_limit page) (drop (pg_offset page) l)).

Definition in_memory_list_hand_events (hand_id : HandId) (page : PageRequest)
    : M InMemoryAuditRepository AuditStoreError (list HandEvent) :=
  repo ← get;
  l ← lift_result (audit_lock (hand_events repo));
  mret (take (pg_limit page) (drop (pg_offset page)
          (filter (λ r, he_hand_id r = hand_id) l))).
End AuditRepo.

#[export] Instance in_memory_audit : AuditRepository InMemoryAuditRepository := {
  insert_action_attempt := in_memory_insert_action_attempt;
  insert_behavior_event := in_memory_insert_behavior_event;
  append_hand_events := in_memory_append_hand_events;
  insert_outbox_event := in_memory_insert_outbox_event;
  fetch_pending_outbox_events := in_memory_fetch_pending;
  mark_outbox_event_delivered := in_memory_mark_delivered;
}.
#[export] Instance in_memory_audit_read : AuditReadRepository InMemoryAuditRepository := {
  get_action_attempt_by_request_id := in_memory_get_action_attempt;
  list_behavior_events := in_memory_list_behavior_events;
  list_hand_events := in_memory_list_hand_events;
}.
