(* ===== verification/Settlement.v ===== *)
(** Settlement plans (crate [settlement]): the rake, the split of the pots among
    the winners, the ledger entries of a plan and its payouts through a wallet.

    The wallet and the repositories are traits, so the methods that use them are
    computations over the world [W] of their implementation. *)

From stdpp Require Import base tactics option list gmap strings sorting pretty.
From Stdlib Require Import NArith Lia.
From S2P Require Import Prelude.
From S2P Require Import Domain.
From S2P Require Import LedgerStore.

Local Open Scope N_scope.

Inductive SettlementError :=
| ELedger (e : LedgerStoreError)
| EMoney (e : MoneyError)
| InvalidPotAward (message : string)
| WalletAdapter (message : string)
| KeyDecrypt (message : string)
| InvalidRakePolicy (message : string).

Record SettlementPayout := mkPayout {
  po_seat_id : SeatId;
  po_amount : Chips;
}.

Record SettlementPlan := mkPlan {
  pn_room_id : RoomId;
  pn_hand_id : HandId;
  pn_rake_amount : Chips;
  pn_payouts : list SettlementPayout;
}.

Record SettlementTransferRequest := mkTransferRequest {
  tq_room_id : RoomId;
  tq_hand_id : HandId;
  tq_to_seat_id : SeatId;
  tq_to_address : string;
  tq_amount : Chips;
}.

Record SettlementTransferSubmission := mkSubmission {
  ts_seat_id : SeatId;
  ts_tx_hash : string;
}.

Inductive SettlementTxStatus := TxPending | TxConfirmed | TxFailed.
#[export] Instance SettlementTxStatus_eq_dec : EqDecision SettlementTxStatus.
Proof. solve_decision. Defined.

Record SettlementTransferReceipt := mkReceipt {
  rc_tx_hash : string;
  rc_status : SettlementTxStatus;
  rc_confirmations : N;
}.

Record BatchSettlementTransferRequest := mkBatchRequest {
  bq_room_id : RoomId;
  bq_hand_id : HandId;
  bq_transfers : list SettlementTransferRequest;
}.

Record BatchSettlementTransferSubmission := mkBatchSubmission {
  bs_tx_hash : string;
  bs_transfer_count : nat;
}.

Record BatchSettlementTransferReceipt := mkBatchReceipt {
  br_tx_hash : string;
  br_status : SettlementTxStatus;
  br_confirmations : N;
  br_applied_count : nat;
}.

Record PotAwardInput := mkPotAward {
  pa_award : Chips;
  pa_eligible_seats : list SeatId;
  pa_winner_seats : list SeatId;
}.

(** ** Error texts ([Display]) *)
Definition money_error_text (e : MoneyError) : string :=
  match e with Overflow => "amount overflow" | Underflow => "amount underflow" end.

Definition settlement_error_text (e : SettlementError) : string :=
  match e with
  | ELedger e => "ledger error: " +:+ ledger_error_text e
  | EMoney e => "money error: " +:+ money_error_text e
  | InvalidPotAward m => "invalid pot award: " +:+ m
  | WalletAdapter m => "wallet adapter error: " +:+ m
  | KeyDecrypt m => "key decrypt error: " +:+ m
  | InvalidRakePolicy m => "invalid rake policy: " +:+ m
  end.

(** [try_fold(Chips::ZERO, |acc, x| acc.checked_add(x))] *)
Fixpoint checked_sum (acc : Chips) (l : list Chips) : result MoneyError Chips :=
  match l with
  | [] => Ok acc
  | x :: l => acc ← ChipsOps.checked_add acc x; checked_sum acc l
  end.

Definition payout_total (plan : SettlementPlan) : result MoneyError Chips :=
  checked_sum ChipsOps.ZERO (map po_amount (pn_payouts plan)).

(** ** The rake *)

Record RakePolicy := mkRakePolicy { rake_bps : N }.
Definition RakePolicy_zero : RakePolicy := mkRakePolicy 0.
Definition RakePolicy_three_percent : RakePolicy := mkRakePolicy 300.

Definition rake_amount_for (policy : RakePolicy) (pot_total : Chips)
    : result SettlementError Chips :=
  if 10000 <? rake_bps policy then
    Err (InvalidRakePolicy ("rake_bps=" +:+ pretty (rake_bps policy) +:+ " exceeds 10000"))
  else Ok (sat_mul u128_max pot_total (rake_bps policy) / 10000).

(** ** Splitting *)

(** [base + u128::from((idx as u128) < remainder)] *)
Definition share (base remainder : N) (idx : nat) : N :=
  base + (if N.of_nat idx <? remainder then 1 else 0).

Definition split_amount_deterministic (amount : Chips) (winners : list SeatId)
    : list SettlementPayout :=
  match winners with
  | [] => []
  | _ =>
      let count := N.of_nat (length winners) in
      let base := amount / count in
      let remainder := amount mod count in
      imap (λ idx seat_id, mkPayout seat_id (share base remainder idx)) winners
  end.

(** A row of [apportion_by_weight]: seat, rounded-down share, remainder. *)
Abbreviation Row := (SeatId * N * N)%type (only parsing).
Definition row_seat (r : Row) : SeatId := fst (fst r).
Definition row_amount (r : Row) : N := snd (fst r).
Definition row_rem (r : Row) : N := snd r.

(** [b.2.cmp(&a.2).then_with(|| a.0.cmp(&b.0))] is not [Greater]. *)
Definition row_le (a b : Row) : bool :=
  match row_rem b ?= row_rem a with
  | Lt => true
  | Gt => false
  | Eq => row_seat a <=? row_seat b
  end.

Fixpoint hand_out (extra : N) (rows : list Row) : list Row :=
  match rows with
  | [] => []
  | r :: rows' =>
      if extra =? 0 then rows
      else (row_seat r, sat_add u128_max (row_amount r) 1, row_rem r) :: hand_out (extra - 1) rows'
  end.

Definition weighted_row (gross_total target : N) (p : SettlementPayout) : Row :=
  let weighted := sat_mul u128_max (po_amount p) target in
  (po_seat_id p, weighted / gross_total, weighted mod gross_total).

Definition apportion_by_weight (gross : list SettlementPayout) (target_total : Chips)
    : result SettlementError (list SettlementPayout) :=
  match gross with
  | [] => Ok []
  | _ =>
      let gross_total := wrapping u128_max (nsum (map po_amount gross)) in
      if gross_total =? 0 then Ok []
      else
        let target := target_total in
        let rows := map (weighted_row gross_total target) gross in
        let floor_sum := foldl (sat_add u128_max) 0 (map row_amount rows) in
        let extra := sat_sub target floor_sum in
        let rows := hand_out extra (sort_by row_le rows) in
        let rows := sort_by_key row_seat rows in
        Ok (map (λ r, mkPayout (row_seat r) (row_amount r))
              (filter (λ r, 0 < row_amount r) rows))
  end.

(** ** Plans *)
Section Plans.
Context (room_id : RoomId) (hand_id : HandId).

Definition build_plan_from_winners (pot_total : Chips) (winner_seats : list SeatId)
    (rake_policy : RakePolicy) : result SettlementError SettlementPlan :=
  let winners := sort_dedup winner_seats in
  match winners with
  | [] => Ok (mkPlan room_id hand_id ChipsOps.ZERO [])
  | _ =>
      rake_amount ← rake_amount_for rake_policy pot_total;
      distributable ← result_map_err EMoney (ChipsOps.checked_sub pot_total rake_amount);
      let winner_count := N.of_nat (length winners) in
      let base := distributable / winner_count in
      let remainder := distributable mod winner_count in
      let payouts := imap (λ idx seat_id, mkPayout seat_id (share base remainder idx)) winners in
      Ok (mkPlan room_id hand_id rake_amount payouts)
  end.

(** [gross_by_seat.insert(seat, gross_by_seat[seat] + amount)] for each payout. *)
Fixpoint add_gross (gross_by_seat : gmap SeatId Chips) (split : list SettlementPayout)
    : result SettlementError (gmap SeatId Chips) :=
  match split with
  | [] => Ok gross_by_seat
  | payout :: split =>
      next ← result_map_err EMoney
               (ChipsOps.checked_add (default ChipsOps.ZERO (gross_by_seat !! po_seat_id payout))
                  (po_amount payout));
      add_gross (<[po_seat_id payout := next]> gross_by_seat) split
  end.

Fixpoint award_pots (gross_by_seat : gmap SeatId Chips) (pots : list PotAwardInput)
    : result SettlementError (gmap SeatId Chips) :=
  match pots with
  | [] => Ok gross_by_seat
  | pot :: pots =>
      if pa_award pot =? ChipsOps.ZERO then award_pots gross_by_seat pots
      else
        let eligible := sort_dedup (pa_eligible_seats pot) in
        let winners := sort_dedup (pa_winner_seats pot) in
        match winners with
        | [] => award_pots gross_by_seat pots
        | _ =>
            if negb (forallb (λ seat, bool_decide (seat ∈ eligible)) winners) then
              Err (InvalidPotAward "winner_seats must be subset of eligible_seats")
            else
              gross_by_seat ← add_gross gross_by_seat
                                (split_amount_deterministic (pa_award pot) winners);
              award_pots gross_by_seat pots
        end
  end.

Definition gross_payouts_of (gross_by_seat : gmap SeatId Chips) : list SettlementPayout :=
  sort_by_key po_seat_id
    (map (λ e, mkPayout (fst e) (snd e)) (map_to_list gross_by_seat)).

Definition build_plan_from_pot_awards (pots : list PotAwardInput) (rake_policy : RakePolicy)
    : result SettlementError SettlementPlan :=
  gross_by_seat ← award_pots ∅ pots;
  let gross_payouts := gross_payouts_of gross_by_seat in
  gross_total ← result_map_err EMoney
                  (checked_sum ChipsOps.ZERO (map po_amount gross_payouts));
  if gross_total =? ChipsOps.ZERO then Ok (mkPlan room_id hand_id ChipsOps.ZERO [])
  else
    rake_amount ← rake_amount_for rake_policy gross_total;
    distributable ← result_map_err EMoney (ChipsOps.checked_sub gross_total rake_amount);
    payouts ← apportion_by_weight gross_payouts distributable;
    Ok (mkPlan room_id hand_id rake_amount payouts).
End Plans.
