(* ===== verification/SettlementPlans.v ===== *)
(** Conservation of chips in settlement plans: the split of a pot is exact and
    fair, the apportionment of the payouts never exceeds its target and meets it
    when the products fit in 128 bits, and a plan pays out what was awarded less
    the rake. *)

From stdpp Require Import base tactics option list gmap strings sorting.
From Stdlib Require Import NArith Lia.
From S2P Require Import Prelude.
From S2P Require Import Domain.
From S2P Require Import LedgerStore.
From S2P Require Import Settlement.

Local Open Scope N_scope.

Definition paid_total (l : list SettlementPayout) : N := nsum (map po_amount l).

(** ** The split of one pot *)

Lemma share_sum {X} (base rem : N) (l : list X) :
  rem ≤ N.of_nat (length l) →
  nsum (imap (λ i _, share base rem i) l) = base * N.of_nat (length l) + rem.
Proof.
  intros Hr.
  assert (∀ k, nsum (imap (λ i (_ : X), share base rem (k + i)) l)
    = base * N.of_nat (length l) + (N.min rem (N.of_nat (k + length l)) - N.min rem (N.of_nat k)))
    as H.
  { clear Hr. induction l as [|x l IH]; intros k; [cbn -[N.of_nat]; lia|].
    rewrite imap_cons. cbn [nsum length].
    specialize (IH (S k)). erewrite imap_ext; [rewrite IH|].
    - unfold share. rewrite Nat.add_0_r. destruct (N.ltb_spec (N.of_nat k) rem); lia.
    - intros i y _. cbn. f_equal. lia. }
  specialize (H 0%nat). cbn in H. rewrite H. lia.
Qed.

Lemma map_imap {X Y Z} (f : Y → Z) (g : nat → X → Y) l :
  map f (imap g l) = imap (λ i x, f (g i x)) l.
Proof. apply fmap_imap. Qed.

Lemma imap_fst {X} (g : nat → X → Chips) (f : X → SeatId) l :
  map po_seat_id (imap (λ i x, mkPayout (f x) (g i x)) l) = map f l.
Proof.
  rewrite map_imap. cbn. revert g. induction l as [|x l IH]; intros g; [done|].
  rewrite imap_cons. cbn. f_equal. apply (IH (λ i, g (S i))).
Qed.

(** Dealing out [amount] over [winners] in order, one chip more for the first
    [amount mod n] of them. *)
Definition even_split (amount : Chips) (winners : list SeatId) (l : list SettlementPayout)
    : Prop :=
  map po_seat_id l = winners ∧ paid_total l = amount ∧
  ∀ i p, l !! i = Some p →
    po_amount p = share (amount / N.of_nat (length winners))
                    (amount mod N.of_nat (length winners)) i.

Lemma even_split_imap amount winners :
  winners ≠ [] →
  even_split amount winners
    (imap (λ idx seat_id, mkPayout seat_id
             (share (amount / N.of_nat (length winners))
                (amount mod N.of_nat (length winners)) idx)) winners).
Proof.
  intros Hne. assert (N.of_nat (length winners) ≠ 0) as Hn by (destruct winners; cbn; [done|lia]).
  split; [|split].
  - rewrite (imap_fst _ id). apply map_id.
  - unfold paid_total. rewrite map_imap. cbn.
    rewrite share_sum.
    + rewrite N.mul_comm. symmetry. apply N.div_mod. done.
    + pose proof (N.mod_lt amount _ Hn). lia.
  - intros i p. rewrite list_lookup_imap. destruct (winners !! i); cbn; [|done].
    by intros [= <-].
Qed.

Lemma split_even amount winners :
  winners ≠ [] → even_split amount winners (split_amount_deterministic amount winners).
Proof. intros Hne. destruct winners; [done|]. by apply even_split_imap. Qed.

(** ** The rake *)

Lemma rake_le policy pot rake : rake_amount_for policy pot = Ok rake → rake ≤ pot.
Proof.
  unfold rake_amount_for. destruct (N.ltb_spec 10000 (rake_bps policy)) as [|Hb]; [done|].
  intros [= <-]. unfold sat_mul. transitivity (pot * rake_bps policy / 10000).
  - apply N.Div0.div_le_mono. lia.
  - apply N.Div0.div_le_upper_bound. nia.
Qed.

Lemma rake_exact policy pot :
  rake_bps policy ≤ 10000 → pot * rake_bps policy ≤ u128_max →
  rake_amount_for policy pot = Ok (pot * rake_bps policy / 10000).
Proof.
  intros Hb Hp. unfold rake_amount_for, sat_mul.
  rewrite (proj2 (N.ltb_ge _ _)) by done. by rewrite N.min_r.
Qed.

(** ** Checked sums *)

Lemma checked_sum_spec acc l :
  acc ≤ u128_max →
  checked_sum acc l =
    if decide (acc + nsum l ≤ u128_max) then Ok (acc + nsum l) else Err Overflow.
Proof.
  revert acc. induction l as [|x l IH]; intros acc Ha; cbn [checked_sum nsum].
  - rewrite N.add_0_r. by rewrite decide_True.
  - unfold ChipsOps.checked_add, Prelude.checked_add.
    destruct (N.leb_spec (acc + x) u128_max); mrun.
    + rewrite IH by done. by rewrite N.add_assoc.
    + by rewrite decide_False by lia.
Qed.

(** ** Apportionment *)

Definition rows_total (rows : list (SeatId * N * N)) : N := nsum (map row_amount rows).

Lemma rows_total_perm r1 r2 : r1 ≡ₚ r2 → rows_total r1 = rows_total r2.
Proof. intros H. unfold rows_total. by rewrite (Permutation_map row_amount H). Qed.

Lemma floor_sum_eq l acc :
  acc + nsum l ≤ u128_max → foldl (sat_add u128_max) acc l = acc + nsum l.
Proof.
  revert acc. induction l as [|x l IH]; intros acc Hb; cbn [foldl nsum] in *; [lia|].
  unfold sat_add at 2. rewrite N.min_r by lia. rewrite IH by lia. lia.
Qed.

Lemma hand_out_total extra rows :
  extra = 0 ∨ Forall (λ r, row_amount r < u128_max) rows →
  rows_total (hand_out extra rows) = rows_total rows + N.min extra (N.of_nat (length rows)).
Proof.
  revert extra. induction rows as [|r rows IH]; intros extra Hf; [cbn; lia|].
  cbn [hand_out]. destruct (N.eqb_spec extra 0) as [->|Hne]; [lia|].
  destruct Hf as [|Hf]; [done|]. apply Forall_cons in Hf as [Hr Hf].
  unfold rows_total in *. cbn [map nsum length]. rewrite IH by auto.
  unfold row_amount at 1, sat_add. cbn [fst snd]. rewrite N.min_r by lia. lia.
Qed.

Lemma hand_out_seats extra rows : map row_seat (hand_out extra rows) = map row_seat rows.
Proof.
  revert extra. induction rows as [|r rows IH]; intros extra; [done|]. cbn [hand_out].
  destruct (_ =? _); [done|]. cbn. by rewrite IH.
Qed.

Lemma hand_out_length extra rows : length (hand_out extra rows) = length rows.
Proof. by rewrite <-(length_map row_seat), hand_out_seats, length_map. Qed.

Lemma nsum_filter_pos {X} (f : X → N) l :
  nsum (map f (filter (λ x, 0 < f x) l)) = nsum (map f l).
Proof.
  induction l as [|x l IH]; [done|]. rewrite filter_cons. case_decide; cbn; lia.
Qed.

(** [apportion_by_weight] on payouts whose total is [g]. *)
Lemma apportion_unfold gross target g :
  g = paid_total gross → 0 < g → g ≤ u128_max →
  apportion_by_weight gross target =
    let rows := map (weighted_row g target) gross in
    let extra := sat_sub target (foldl (sat_add u128_max) 0 (map row_amount rows)) in
    Ok (map (λ r, mkPayout (row_seat r) (row_amount r))
          (filter (λ r, 0 < row_amount r)
             (sort_by_key row_seat (hand_out extra (sort_by row_le rows))))).
Proof.
  intros Hgt Hg Hb. unfold apportion_by_weight. destruct gross as [|p gross]; [cbn in Hgt; lia|].
  fold (paid_total (p :: gross)). rewrite <-Hgt, wrapping_small by done.
  by rewrite (proj2 (N.eqb_neq g 0)) by lia.
Qed.

Section Apportion.
Context (gross : list SettlementPayout) (target : N).
Let g := paid_total gross.
Context (Hg : 0 < g) (Hgb : g ≤ u128_max) (Ht : target ≤ u128_max).
Let rows := map (weighted_row g target) gross.

Lemma floors_le : rows_total rows ≤ target.
Proof.
  assert (∀ l, nsum (map row_amount (map (weighted_row g target) l)) * g
               ≤ paid_total l * target) as H.
  { induction l as [|p l IH]; [cbn; lia|]. unfold paid_total in *. cbn [map nsum].
    unfold row_amount at 1, weighted_row at 1, sat_mul. cbn [fst snd].
    pose proof (N.Div0.mul_div_le (N.min u128_max (po_amount p * target)) g). lia. }
  specialize (H gross). fold g in H. fold rows in H. fold (rows_total rows) in H. nia.
Qed.

(** No product saturates. *)
Definition products_fit : Prop := Forall (λ p, po_amount p * target ≤ u128_max) gross.

Lemma extra_small :
  products_fit → target - rows_total rows < N.of_nat (length gross).
Proof.
  intros Hfit.
  assert (∀ l, Forall (λ p, po_amount p * target ≤ u128_max) l →
    paid_total l * target
    ≤ nsum (map row_amount (map (weighted_row g target) l)) * g
      + N.of_nat (length l) * (g - 1)) as H.
  { induction 1 as [|p l Hp Hl IH]; [cbn; lia|]. unfold paid_total in *.
    cbn [map nsum length]. unfold row_amount at 1, weighted_row at 1, sat_mul.
    cbn [fst snd]. rewrite N.min_r by done.
    pose proof (N.div_mod (po_amount p * target) g ltac:(lia)) as Hdm.
    pose proof (N.mod_lt (po_amount p * target) g ltac:(lia)). lia. }
  specialize (H gross Hfit). fold g in H. fold rows in H. fold (rows_total rows) in H.
  pose proof floors_le as Hle.
  assert ((target - rows_total rows) * g ≤ N.of_nat (length gross) * (g - 1)) as H2 by nia.
  assert (length gross ≠ 0%nat) by (intros E; apply length_zero_iff_nil in E;
    unfold g, paid_total in Hg; rewrite E in Hg; cbn in Hg; lia).
  nia.
Qed.

Lemma apportion_run :
  ∃ payouts, apportion_by_weight gross target = Ok payouts ∧
    paid_total payouts
      = rows_total rows + N.min (target - rows_total rows) (N.of_nat (length gross)) ∧
    (∀ seat, seat ∈ map po_seat_id payouts → seat ∈ map po_seat_id gross) ∧
    Forall (λ p, 0 < po_amount p) payouts.
Proof.
  rewrite (apportion_unfold gross target g) by done. cbn zeta. fold rows.
  pose proof floors_le as Hle. fold (rows_total rows).
  rewrite floor_sum_eq by (fold (rows_total rows); lia). rewrite N.add_0_l.
  fold (rows_total rows).
  eexists. split; [reflexivity|]. unfold sat_sub.
  set (extra := target - rows_total rows).
  assert (sort_by row_le rows ≡ₚ rows) as Hp by apply sort_by_perm.
  assert (length rows = length gross) as Hlen by apply length_map.
  assert (extra = 0 ∨ Forall (λ r, row_amount r < u128_max) (sort_by row_le rows)) as Hex.
  { destruct (decide (extra = 0)) as [|Hne]; [by left|right]. rewrite Hp.
    apply Forall_forall. intros r Hr.
    assert (row_amount r ≤ rows_total rows) as Hr2.
    { apply nsum_elem_le. apply list_elem_of_In, in_map, list_elem_of_In. done. }
    lia. }
  assert (∀ (l : list (SeatId * N * N)),
    paid_total (map (λ r, mkPayout (row_seat r) (row_amount r))
      (filter (λ r, 0 < row_amount r) l)) = rows_total l) as Htot.
  { intros l. unfold paid_total. rewrite map_map. cbn. apply nsum_filter_pos. }
  split; [|split].
  - rewrite Htot. unfold sort_by_key.
    rewrite (rows_total_perm _ _ (sort_by_perm _ _)), hand_out_total by done.
    by rewrite (rows_total_perm _ _ Hp), (Permutation_length Hp), Hlen.
  - intros seat. rewrite map_map. cbn. intros Hin.
    apply list_elem_of_In, in_map_iff in Hin as (r & <- & Hr).
    apply list_elem_of_In, list_elem_of_filter in Hr as [_ Hr].
    unfold sort_by_key in Hr. rewrite sort_by_perm in Hr.
    assert (row_seat r ∈ map row_seat (hand_out extra (sort_by row_le rows))) as Hin
      by (apply list_elem_of_In, in_map, list_elem_of_In; done).
    rewrite hand_out_seats in Hin.
    assert (map row_seat (sort_by row_le rows) ≡ₚ map row_seat rows) as Hp2
      by by apply Permutation_map.
    rewrite Hp2 in Hin. unfold rows in Hin. by rewrite map_map in Hin.
  - apply Forall_forall. intros q Hq.
    apply list_elem_of_In, in_map_iff in Hq as (r & <- & Hr).
    apply list_elem_of_In, list_elem_of_filter in Hr as [Hr _]. done.
Qed.
End Apportion.

(** ** Awarding the pots *)

(** What a pot hands out: nothing when nobody won it. *)
Definition awarded (pot : PotAwardInput) : Chips :=
  match sort_dedup (pa_winner_seats pot) with
  | [] => 0
  | _ => pa_award pot
  end.
Definition awarded_total (pots : list PotAwardInput) : Chips := nsum (map awarded pots).

(** A pot that hands out chips names its winners among the eligible seats. *)
Definition award_valid (pot : PotAwardInput) : Prop :=
  pa_award pot ≠ 0 → ∀ seat, seat ∈ pa_winner_seats pot → seat ∈ pa_eligible_seats pot.

Abbreviation NotASubset :=
  (InvalidPotAward "winner_seats must be subset of eligible_seats") (only parsing).

Lemma add_gross_spec m split :
  match add_gross m split with
  | Ok m' => msum m' = msum m + paid_total split ∧
             ∀ seat, is_Some (m' !! seat) → is_Some (m !! seat) ∨ seat ∈ map po_seat_id split
  | Err e => e = EMoney Overflow ∧ u128_max < msum m + paid_total split
  end.
Proof.
  revert m. induction split as [|p split IH]; intros m; cbn [add_gross].
  { unfold paid_total. cbn. split; [lia|]. by left. }
  unfold ChipsOps.checked_add, Prelude.checked_add.
  pose proof (msum_lookup_le m (po_seat_id p)) as Hle. unfold paid_total in *. cbn [map nsum].
  change ChipsOps.ZERO with 0.
  destruct (N.leb_spec (default 0 (m !! po_seat_id p) + po_amount p) u128_max); mrun.
  2:{ split; [done|]. lia. }
  specialize (IH (<[po_seat_id p := default 0 (m !! po_seat_id p) + po_amount p]> m)).
  pose proof (msum_insert m (po_seat_id p) (default 0 (m !! po_seat_id p) + po_amount p)) as Hi.
  destruct (add_gross _ _) as [m'|e].
  - destruct IH as [Hs Hd]. split; [lia|]. intros seat Hseat. apply Hd in Hseat as [Hs'|Hs'].
    + rewrite lookup_insert in Hs'. case_decide; [right; set_solver|by left].
    + right. set_solver.
  - destruct IH as [-> Hs]. split; [done|]. lia.
Qed.

Lemma winners_subset_spec winners eligible :
  forallb (λ seat, bool_decide (seat ∈ sort_dedup eligible)) (sort_dedup winners) = true ↔
  ∀ seat, seat ∈ winners → seat ∈ eligible.
Proof.
  rewrite forallb_forall. split.
  - intros Hf seat Hs. apply sort_dedup_elem. apply (bool_decide_eq_true_1 _).
    apply Hf, list_elem_of_In. by apply sort_dedup_elem.
  - intros Hf seat Hs. apply bool_decide_eq_true_2, sort_dedup_elem, Hf.
    apply (sort_dedup_elem seat winners). by apply list_elem_of_In.
Qed.

(** What awarding [pots] on top of [m] may come to. *)
Definition awarded_outcome (m : gmap SeatId Chips) (pots : list PotAwardInput)
    (r : result SettlementError (gmap SeatId Chips)) : Prop :=
  match r with
  | Ok m' => msum m' = msum m + awarded_total pots ∧
             (∀ seat, is_Some (m' !! seat) → is_Some (m !! seat) ∨
                ∃ pot, pot ∈ pots ∧ seat ∈ pa_winner_seats pot)
  | Err e => (e = EMoney Overflow ∧ u128_max < msum m + awarded_total pots) ∨
             (e = NotASubset ∧ ∃ pot, pot ∈ pots ∧ ¬ award_valid pot)
  end.

(** One more pot in front, paid out into [m1]. *)
Lemma awarded_outcome_cons m m1 pot pots r :
  msum m1 = msum m + awarded pot →
  (∀ seat, is_Some (m1 !! seat) → is_Some (m !! seat) ∨ seat ∈ pa_winner_seats pot) →
  awarded_outcome m1 pots r → awarded_outcome m (pot :: pots) r.
Proof.
  unfold awarded_outcome, awarded_total. cbn [map nsum]. intros Hsum Hdom. destruct r as [m'|e].
  - intros [Hs Hd]. split; [lia|]. intros seat [[?|?]%Hdom|(p & ? & ?)]%Hd; [by left| |].
    + right. exists pot. split; [constructor|done].
    + right. exists p. split; [by constructor|done].
  - intros [[-> Hlt]|(-> & p & ? & ?)]; [left; split; [done|lia]|].
    right. split; [done|]. exists p. split; [by constructor|done].
Qed.

Lemma award_pots_spec m pots : awarded_outcome m pots (award_pots m pots).
Proof.
  revert m. induction pots as [|pot pots IH]; intros m; cbn [award_pots].
  { unfold awarded_outcome, awarded_total. cbn. split; [lia|]. by left. }
  assert (awarded pot = 0 → awarded_outcome m (pot :: pots) (award_pots m pots)) as Hskip.
  { intros Hz. apply (awarded_outcome_cons m m); [by rewrite Hz, N.add_0_r|by left|done]. }
  unfold ChipsOps.ZERO. destruct (N.eqb_spec (pa_award pot) 0) as [Hz|Hz].
  { apply Hskip. unfold awarded. by destruct (sort_dedup _). }
  destruct (sort_dedup (pa_winner_seats pot)) as [|w ws] eqn:Hw.
  { apply Hskip. unfold awarded. by rewrite Hw. }
  assert (awarded pot = pa_award pot) as Ha by (unfold awarded; by rewrite Hw).
  rewrite <-Hw. destruct (forallb _ _) eqn:Hsub; cbn [negb].
  2:{ right. split; [done|]. exists pot. split; [constructor|]. intros Hv.
      apply not_true_iff_false in Hsub. apply Hsub, winners_subset_spec. auto. }
  pose proof (add_gross_spec m (split_amount_deterministic (pa_award pot)
    (sort_dedup (pa_winner_seats pot)))) as Hadd.
  destruct (split_even (pa_award pot) (sort_dedup (pa_winner_seats pot))) as (Hseats & Htot & _);
    [by rewrite Hw|]. rewrite Hseats, Htot in Hadd. mrun.
  destruct (add_gross m _) as [m1|e].
  - destruct Hadd as [Hs1 Hd1]. apply (awarded_outcome_cons m m1); [by rewrite Ha| |apply IH].
    intros seat [?|Hin]%Hd1; [by left|]. right. exact (proj1 (sort_dedup_elem _ _) Hin).
  - destruct Hadd as [-> Hlt]. left. unfold awarded_total. cbn [map nsum]. split; [done|lia].
Qed.

Lemma gross_payouts_spec m :
  paid_total (gross_payouts_of m) = msum m ∧
  ∀ seat, seat ∈ map po_seat_id (gross_payouts_of m) → is_Some (m !! seat).
Proof.
  unfold gross_payouts_of, sort_by_key. split.
  - unfold paid_total. rewrite (Permutation_map po_amount (sort_by_perm _ _)), map_map. done.
  - intros seat. rewrite (Permutation_map po_seat_id (sort_by_perm _ _)), map_map.
    intros Hin. apply list_elem_of_In, in_map_iff in Hin as ([k v] & <- & He).
    apply list_elem_of_In, elem_of_map_to_list in He. by eexists.
Qed.

(** The outcome of [build_plan_from_pot_awards]. *)
Lemma plan_from_pots_spec room hand pots policy :
  let total := awarded_total pots in
  match build_plan_from_pot_awards room hand pots policy with
  | Ok plan =>
      total ≤ u128_max ∧ pn_room_id plan = room ∧ pn_hand_id plan = hand ∧
      (∀ seat, seat ∈ map po_seat_id (pn_payouts plan) →
         ∃ pot, pot ∈ pots ∧ seat ∈ pa_winner_seats pot) ∧
      Forall (λ p, 0 < po_amount p) (pn_payouts plan) ∧
      ((total = 0 ∧ pn_rake_amount plan = 0 ∧ pn_payouts plan = []) ∨
       (rake_amount_for policy total = Ok (pn_rake_amount plan) ∧ 0 < total ∧
        pn_rake_amount plan + paid_total (pn_payouts plan) ≤ total ∧
        (total * (total - pn_rake_amount plan) ≤ u128_max →
         pn_rake_amount plan + paid_total (pn_payouts plan) = total)))
  | Err (EMoney e) => e = Overflow ∧ u128_max < total
  | Err (InvalidPotAward _) => ∃ pot, pot ∈ pots ∧ ¬ award_valid pot
  | Err (InvalidRakePolicy _) => 10000 < rake_bps policy
  | Err _ => False
  end.
Proof.
  intros total. unfold build_plan_from_pot_awards.
  pose proof (award_pots_spec ∅ pots) as Haw. unfold awarded_outcome in Haw. mrun. rewrite (msum_empty (K:=N)), N.add_0_l in Haw.
  fold total in Haw.
  destruct (award_pots ∅ pots) as [m|e] eqn:Hpots.
  2:{ by destruct Haw as [[-> ?]|[-> ?]]. }
  destruct Haw as [Hm Hseats]. destruct (gross_payouts_spec m) as [Hg Hgs].
  rewrite checked_sum_spec by done. fold (paid_total (gross_payouts_of m)).
  rewrite Hg, Hm, N.add_0_l. case_decide as Hb; [|split; [done|lia]].
  change ChipsOps.ZERO with 0. destruct (N.eqb_spec total 0) as [Hz|Hz].
  { cbn. repeat split; [done|set_solver|constructor|by left]. }
  destruct (rake_amount_for policy total) as [rake|e] eqn:Hrake.
  2:{ unfold rake_amount_for in Hrake. destruct (N.ltb_spec 10000 (rake_bps policy)); [|done].
      by injection Hrake as <-. }
  pose proof (rake_le _ _ _ Hrake) as Hrl.
  unfold ChipsOps.checked_sub, Prelude.checked_sub.
  rewrite (proj2 (N.leb_le _ _)) by done. mrun.
  destruct (apportion_run (gross_payouts_of m) (total - rake)) as (payouts & Hrun & Htot & Hin & Hpos);
    [rewrite Hg, Hm; lia|rewrite Hg, Hm; lia|lia|].
  rewrite Hrun. cbn [pn_room_id pn_hand_id pn_payouts pn_rake_amount].
  split; [done|]. split; [done|]. split; [done|]. split; [|split; [done|right]].
  { intros seat Hs%Hin%Hgs%Hseats. destruct Hs as [[? Hs]|?]; [|done].
    by rewrite lookup_empty in Hs. }
  pose proof (floors_le (gross_payouts_of m) (total - rake)) as Hfl.
  rewrite Hg, Hm in Hfl, Htot. specialize (Hfl ltac:(lia) ltac:(lia) ltac:(lia)).
  split; [done|]. split; [lia|]. split; [lia|]. intros Hfit.
  pose proof (extra_small (gross_payouts_of m) (total - rake)) as Hex.
  rewrite Hg, Hm in Hex. specialize (Hex ltac:(lia) ltac:(lia) ltac:(lia)).
  assert (products_fit (gross_payouts_of m) (total - rake)) as Hpf.
  { apply Forall_forall. intros p Hp. assert (po_amount p ≤ total) as Hle.
    { rewrite <-Hm, <-Hg. apply nsum_elem_le, list_elem_of_In, in_map, list_elem_of_In. done. }
    etransitivity; [|exact Hfit]. by apply N.mul_le_mono_r. }
  specialize (Hex Hpf). lia.
Qed.
