(* ===== verification/SettlementService.v ===== *)
(** The effects of settlement: the ledger entries of a plan, the payouts through a
    wallet adapter, the check of their receipts, and the room's signing key. *)

From stdpp Require Import base tactics option list gmap strings sorting pretty.
From Stdlib Require Import NArith Lia Ascii.
From S2P Require Import Prelude.
From S2P Require Import Text.
From S2P Require Import Ambient.
From S2P Require Import Domain.
From S2P Require Import LedgerStore.
From S2P Require Import Settlement.

Local Open Scope N_scope.

(** The wallets a settlement can be paid from. *)
Class SettlementWalletAdapter (W : Type) := {
  submit_transfer : SettlementTransferRequest → M W string string;
  get_transfer_receipt : string → M W string SettlementTransferReceipt;
}.

Class BatchSettlementWalletAdapter (W : Type) := {
  submit_batch_transfer : BatchSettlementTransferRequest → M W string string;
  get_batch_transfer_receipt : string → M W string BatchSettlementTransferReceipt;
}.

(** ** The ledger *)
Section Record.
Context {W : Type} `{LR : LedgerRepository W}.

Definition rake_entry (plan : SettlementPlan) (trace_id : TraceId) : LedgerEntryInsert :=
  mkLedgerEntryInsert "rake_accrual" (Some (pn_room_id plan)) (Some (pn_hand_id plan)) None None
    "CFX" (pn_rake_amount plan) Credit "room_rake" None None None
    (Some "rake accrual from settlement plan"%string) trace_id.

Definition payout_entry (plan : SettlementPlan) (trace_id : TraceId) (payout : SettlementPayout)
    : LedgerEntryInsert :=
  mkLedgerEntryInsert "settlement_payout" (Some (pn_room_id plan)) (Some (pn_hand_id plan))
    (Some (po_seat_id payout)) None "CFX" (po_amount payout) Debit "room_pot" None None None
    (Some "planned payout"%string) trace_id.

Definition plan_entries (plan : SettlementPlan) (trace_id : TraceId) : list LedgerEntryInsert :=
  (if pn_rake_amount plan =? ChipsOps.ZERO then [] else [rake_entry plan trace_id])
    ++ map (payout_entry plan trace_id) (pn_payouts plan).

Definition record_plan (plan : SettlementPlan) (trace_id : TraceId)
    : M W SettlementError unit :=
  M_map_err ELedger (insert_entries (plan_entries plan trace_id)).
End Record.

(** ** Payouts *)
Section Payouts.
Context {W : Type}.

Definition missing_address (seat_id : SeatId) : SettlementError :=
  WalletAdapter ("missing payout address for seat " +:+ pretty seat_id).

Definition transfer_request (plan : SettlementPlan) (payout : SettlementPayout)
    (to_address : string) : SettlementTransferRequest :=
  mkTransferRequest (pn_room_id plan) (pn_hand_id plan) (po_seat_id payout) to_address
    (po_amount payout).

Fixpoint direct_loop `{SettlementWalletAdapter W} (plan : SettlementPlan)
    (seat_addresses : gmap SeatId string) (payouts : list SettlementPayout)
    : M W SettlementError (list SettlementTransferSubmission) :=
  match payouts with
  | [] => mret []
  | payout :: payouts =>
      if po_amount payout =? ChipsOps.ZERO then direct_loop plan seat_addresses payouts
      else
        match seat_addresses !! po_seat_id payout with
        | None => throw (missing_address (po_seat_id payout))
        | Some to_address =>
            tx_hash ← M_map_err WalletAdapter
                        (submit_transfer (transfer_request plan payout to_address));
            rest ← direct_loop plan seat_addresses payouts;
            mret (mkSubmission (po_seat_id payout) tx_hash :: rest)
        end
  end.

Definition submit_direct_payouts `{SettlementWalletAdapter W} (plan : SettlementPlan)
    (seat_addresses : gmap SeatId string)
    : M W SettlementError (list SettlementTransferSubmission) :=
  direct_loop plan seat_addresses (pn_payouts plan).

(** A confirmed receipt without enough confirmations is still pending. *)
Definition settle_status (status : SettlementTxStatus) (confirmations min_confirmations : N)
    : SettlementTxStatus :=
  if bool_decide (status = TxConfirmed) && (confirmations <? min_confirmations)
  then TxPending else status.

Definition check_payout_submissions `{SettlementWalletAdapter W}
    (submissions : list SettlementTransferSubmission) (min_confirmations : N)
    : M W SettlementError (list SettlementTransferReceipt) :=
  M_map (λ submission,
    receipt ← M_map_err WalletAdapter (get_transfer_receipt (ts_tx_hash submission));
    mret (mkReceipt (rc_tx_hash receipt)
            (settle_status (rc_status receipt) (rc_confirmations receipt) min_confirmations)
            (rc_confirmations receipt))) submissions.

Fixpoint batch_transfers (plan : SettlementPlan) (seat_addresses : gmap SeatId string)
    (payouts : list SettlementPayout) : result SettlementError (list SettlementTransferRequest) :=
  match payouts with
  | [] => Ok []
  | payout :: payouts =>
      if po_amount payout =? ChipsOps.ZERO then batch_transfers plan seat_addresses payouts
      else
        to_address ← ok_or (missing_address (po_seat_id payout))
                       (seat_addresses !! po_seat_id payout);
        rest ← batch_transfers plan seat_addresses payouts;
        Ok (transfer_request plan payout to_address :: rest)
  end.

Definition submit_batch_payouts `{BatchSettlementWalletAdapter W} (plan : SettlementPlan)
    (seat_addresses : gmap SeatId string)
    : M W SettlementError BatchSettlementTransferSubmission :=
  transfers ← lift_result (batch_transfers plan seat_addresses (pn_payouts plan));
  tx_hash ← M_map_err WalletAdapter
              (submit_batch_transfer
                 (mkBatchRequest (pn_room_id plan) (pn_hand_id plan) transfers));
  mret (mkBatchSubmission tx_hash
          (length (filter (λ p, po_amount p ≠ ChipsOps.ZERO) (pn_payouts plan)))).

Definition check_batch_payout_submission `{BatchSettlementWalletAdapter W}
    (submission : BatchSettlementTransferSubmission) (min_confirmations : N)
    : M W SettlementError BatchSettlementTransferReceipt :=
  receipt ← M_map_err WalletAdapter (get_batch_transfer_receipt (bs_tx_hash submission));
  mret (mkBatchReceipt (br_tx_hash receipt)
          (settle_status (br_status receipt) (br_confirmations receipt) min_confirmations)
          (br_confirmations receipt) (br_applied_count receipt)).

(** Returns how many records were updated. *)
Fixpoint mark_failed_receipts_for_manual_review `{SettlementPersistenceRepository W} `{Clock W}
    (receipts : list SettlementTransferReceipt) (retry_count : Z) (reason : string)
    : M W SettlementError nat :=
  match receipts with
  | [] => mret 0%nat
  | receipt :: receipts =>
      if negb (bool_decide (rc_status receipt = TxFailed)) then
        mark_failed_receipts_for_manual_review receipts retry_count reason
      else
        w ← get;
        M_map_err ELedger
          (update_settlement_record_status_by_tx_hash
             (mkSettlementRecordStatusUpdate (rc_tx_hash receipt) "manual_review_required"
                retry_count (Some reason) (utc_now w)));;
        updated ← mark_failed_receipts_for_manual_review receipts retry_count reason;
        mret (S updated)
  end.
End Payouts.

(** ** The room's signing key *)

(** [Aes256Gcm::decrypt] of the [aes_gcm] crate: key, nonce, ciphertext and
    associated data. *)
Class Aes256Gcm := { aes256gcm_decrypt : list N → list N → list N → list N → result string (list N) }.

Record EncryptedRoomSigningKey := mkEncryptedKey {
  ek_room_id : RoomId;
  ek_address : string;
  ek_encrypted_private_key : list N;
  ek_cipher_alg : string;
  ek_key_version : Z;
  ek_kek_id : string;
  ek_nonce : list N;
  ek_aad : list N;
}.

Record RoomSigningKeyHandle := mkKeyHandle {
  kh_address : string;
  kh_key_version : Z;
  kh_private_key_bytes : list N;
}.

Definition has_private_key_material (h : RoomSigningKeyHandle) : bool :=
  negb (bool_decide (kh_private_key_bytes h = [])).

Section Keys.
Context `{Aes256Gcm}.

Definition decrypt_room_signing_key_aes256_gcm (record : EncryptedRoomSigningKey) (kek : list N)
    : result SettlementError (list N) :=
  if negb (eq_ignore_ascii_case (ek_cipher_alg record) "AES-256-GCM") then
    Err (KeyDecrypt ("unsupported cipher_alg " +:+ ek_cipher_alg record))
  else if negb (length (ek_nonce record) =? 12)%nat then
    Err (KeyDecrypt "invalid AES-GCM nonce length")
  else
    result_map_err KeyDecrypt
      (aes256gcm_decrypt kek (ek_nonce record) (ek_encrypted_private_key record) (ek_aad record)).

Definition decrypt_room_signing_key_record_aes256_gcm (record : RoomSigningKeyRecord)
    (kek : list N) : result SettlementError (list N) :=
  decrypt_room_signing_key_aes256_gcm
    (mkEncryptedKey (rk_room_id record) (rk_address record) (rk_encrypted_private_key record)
       (rk_cipher_alg record) (rk_key_version record) (rk_kek_id record) (rk_nonce record)
       (rk_aad record)) kek.

Context {W : Type} `{RoomSigningKeyReadRepository W}.

Definition load_and_decrypt_active_room_signing_key (room_id : RoomId)
    (resolve_kek : string → option (list N)) : M W SettlementError (option (list N)) :=
  found ← M_map_err ELedger (get_active_room_signing_key room_id);
  match found with
  | None => mret None
  | Some record =>
      kek ← lift_result (ok_or
              (KeyDecrypt ("missing KEK material for kek_id=" +:+ rk_kek_id record))
              (resolve_kek (rk_kek_id record)));
      key ← lift_result (decrypt_room_signing_key_record_aes256_gcm record kek);
      mret (Some key)
  end.

Definition load_room_signing_key_for_settlement (room_id : RoomId)
    (resolve_kek : string → option (list N)) : M W SettlementError (option RoomSigningKeyHandle) :=
  found ← M_map_err ELedger (get_active_room_signing_key room_id);
  match found with
  | None => mret None
  | Some record =>
      loaded ← load_and_decrypt_active_room_signing_key room_id resolve_kek;
      private_key_bytes ← lift_result (ok_or (KeyDecrypt "active key disappeared") loaded);
      mret (Some (mkKeyHandle (rk_address record) (rk_key_version record) private_key_bytes))
  end.
End Keys.
