(* ===== verification/JsonRpc.v ===== *)
(** JSON-RPC over HTTP as the chain clients use it: hexadecimal quantities
    ([format!("0x{:x}")], [parse_hex_u64] of the [settlement] and [chain-watcher] crates),
    the decoding of replies as serde's derived instances do it for objects, and the
    [rpc_call] methods of the [settlement] crate.

    The HTTP client is the parameter [JsonRpcTransport]. serde would also read a
    struct from an array of its fields in order; the decoders here refuse that. *)

From stdpp Require Import base tactics option list strings pretty.
From Stdlib Require Import NArith Lia Ascii ZArith.
From S2P Require Import Prelude.
From S2P Require Import Text.

Local Open Scope N_scope.

(** ** Printing *)

Definition hex_char (d : N) : ascii := ascii_of_N (if d <? 10 then 48 + d else 87 + d).

(** The digits of [n], least significant last; [fuel] bounds their number. *)
Fixpoint hex_digits (fuel : nat) (n : N) (acc : string) : string :=
  match fuel with
  | O => acc
  | S fuel =>
      let acc := String (hex_char (n mod 16)) acc in
      if n <? 16 then acc else hex_digits fuel (n / 16) acc
  end.

(** [format!("{:x}", n)] for [n] of at most 128 bits: 32 digits. *)
Definition format_hex (n : N) : string := hex_digits 32 n EmptyString.
Definition format_0x (n : N) : string := "0x" +:+ format_hex n.

(** [hex::encode] *)
Fixpoint hex_encode (bytes : list N) : string :=
  match bytes with
  | [] => EmptyString
  | b :: bytes => String (hex_char (b / 16)) (String (hex_char (b mod 16)) (hex_encode bytes))
  end.

(** ** Parsing *)

(** [char::to_digit(16)] *)
Definition hex_value (c : ascii) : option N :=
  let n := N_of_ascii c in
  if (48 <=? n) && (n <=? 57) then Some (n - 48)
  else if (97 <=? n) && (n <=? 102) then Some (n - 87)
  else if (65 <=? n) && (n <=? 70) then Some (n - 55)
  else None.

(** [u64::from_str_radix(raw, 16)], [u128::from_str_radix(raw, 16)] *)
Definition from_str_radix_16 : N → string → result string N := from_str_radix 16 hex_value.

(** [parse_hex_u64] and [parse_hex_u128] differ in the width only. *)
Definition parse_hex (mx : N) (input : string) : result string N :=
  let s := trim input in
  let raw := default s (strip_0x s) in
  match raw with
  | EmptyString => Ok 0
  | _ => from_str_radix_16 mx raw
  end.
Definition parse_hex_u64 : string → result string N := parse_hex u64_max.
Definition parse_hex_u128 : string → result string N := parse_hex u128_max.

(** ** Parsing inverts printing *)

Definition is_hex (c : ascii) : bool := bool_decide (is_Some (hex_value c)).

Lemma hex_value_char d : d < 16 → hex_value (hex_char d) = Some d.
Proof.
  intros Hd.
  assert (d ∈ map N.of_nat (seq 0 16)) as Hin.
  { apply list_elem_of_In, in_map_iff. exists (N.to_nat d). split; [lia|].
    apply in_seq. lia. }
  cbn in Hin. repeat (apply elem_of_cons in Hin as [->|Hin]; [by vm_compute|]). by apply not_elem_of_nil in Hin.
Qed.

Lemma is_hex_char d : d < 16 → is_hex (hex_char d) = true.
Proof. intros Hd. unfold is_hex. rewrite hex_value_char by done. by vm_compute. Qed.

Lemma hex_digits_forall fuel n acc :
  string_forall is_hex acc = true → string_forall is_hex (hex_digits fuel n acc) = true.
Proof.
  revert n acc. induction fuel as [|fuel IH]; intros n acc Hacc; [done|].
  assert (is_hex (hex_char (n mod 16)) = true) as Hc by (apply is_hex_char, N.mod_lt; lia).
  cbn [hex_digits]. destruct (n <? 16); cbn [string_forall]; [by rewrite Hc|].
  apply IH. cbn [string_forall]. by rewrite Hc.
Qed.

Lemma hex_digits_cons fuel n acc : ∃ c s, hex_digits (S fuel) n acc = String c s.
Proof.
  revert n acc. induction fuel as [|fuel IH]; intros n acc; cbn [hex_digits].
  - destruct (n <? 16); eauto.
  - destruct (n <? 16); [eauto|]. apply IH.
Qed.

Lemma radix_loop_digits mx fuel n acc :
  n < 16 ^ N.of_nat (S fuel) → n ≤ mx →
  radix_loop 16 hex_value mx 0 (hex_digits (S fuel) n acc) = radix_loop 16 hex_value mx n acc.
Proof.
  revert n acc. induction fuel as [|fuel IH]; intros n acc Hn Hmx.
  - assert (n < 16) as Hlt by (change (16 ^ N.of_nat 1) with 16 in Hn; done).
    cbn [hex_digits]. rewrite (proj2 (N.ltb_lt _ _)) by done. cbn [radix_loop].
    rewrite hex_value_char, N.mod_small by (try apply N.mod_lt; lia).
    rewrite N.mul_0_l, N.add_0_l. by rewrite (proj2 (N.leb_le _ _)).
  - assert (∀ s, radix_loop 16 hex_value mx (n / 16) (String (hex_char (n mod 16)) s) = radix_loop 16 hex_value mx n s) as Hs.
    { intros s. cbn [radix_loop]. rewrite hex_value_char by (apply N.mod_lt; lia).
      replace (n / 16 * 16 + n mod 16) with n by (pose proof (N.div_mod n 16); lia).
      by rewrite (proj2 (N.leb_le _ _)). }
    remember (S fuel) as f. cbn [hex_digits].
    destruct (N.ltb_spec n 16) as [Hlt|Hge].
    + rewrite <-Hs. by rewrite N.div_small.
    + rewrite IH.
      * apply Hs.
      * apply N.Div0.div_lt_upper_bound. by rewrite Nat2N.inj_succ, N.pow_succ_r' in Hn.
      * transitivity n; [|done]. apply N.Div0.div_le_upper_bound. lia.
Qed.

Lemma hex_not_sign c : is_hex c = true → Ascii.eqb c "+" = false ∧ Ascii.eqb c "-" = false.
Proof.
  intros Hc. split; apply not_true_iff_false; intros ->%Ascii.eqb_eq; by vm_compute in Hc.
Qed.

(** A printed number has no sign, so its reader is the loop over the digits. *)
Lemma from_str_radix_unsigned mx n : from_str_radix_16 mx (format_hex n) = radix_loop 16 hex_value mx 0 (format_hex n).
Proof.
  assert (string_forall is_hex (format_hex n) = true) as Hh by by apply hex_digits_forall.
  unfold from_str_radix_16, from_str_radix. destruct (hex_digits_cons 31 n EmptyString) as (c & s & Hs).
  fold (format_hex n) in Hs. rewrite Hs in *. cbn [string_forall] in Hh.
  apply andb_true_iff in Hh as [Hc _]. destruct (hex_not_sign c Hc) as [-> ->].
  by destruct s.
Qed.

Lemma format_hex_unsigned mx n :
  match format_hex n with EmptyString => Ok 0 | _ => from_str_radix_16 mx (format_hex n) end
  = radix_loop 16 hex_value mx 0 (format_hex n).
Proof.
  rewrite from_str_radix_unsigned. destruct (hex_digits_cons 31 n EmptyString) as (c & s & Hs).
  fold (format_hex n) in Hs. by rewrite Hs.
Qed.

Lemma hex_not_space c : is_hex c = true → is_space c = false.
Proof.
  unfold is_hex, is_space, hex_value. intros Hc%bool_decide_eq_true_1.
  destruct (N.leb_spec 48 (N_of_ascii c)), (N.leb_spec (N_of_ascii c) 57); cbn in Hc;
    repeat match goal with
    | H : context [ (?a <=? ?b) ] |- _ => destruct (N.leb_spec a b)
    | |- context [ (?a <=? ?b) ] => destruct (N.leb_spec a b)
    | |- context [ (?a =? ?b) ] => destruct (N.eqb_spec a b)
    end; cbn in *; try done; try lia; by destruct Hc.
Qed.

Lemma hex_encode_forall bytes :
  Forall (λ b, b < 256) bytes → string_forall is_hex (hex_encode bytes) = true.
Proof.
  induction 1 as [|b bytes Hb _ IH]; [done|]. cbn [hex_encode string_forall].
  rewrite IH, !is_hex_char; [done|by apply N.mod_lt|]. apply N.Div0.div_lt_upper_bound. lia.
Qed.

Lemma trim_id s : string_forall (λ c, negb (is_space c)) s = true → trim s = s.
Proof.
  intros Hs. unfold trim. rewrite trim_end_id by done. destruct s as [|c s]; [done|].
  cbn [string_forall trim_start] in *. apply andb_true_iff in Hs as [Hc _].
  by destruct (is_space c).
Qed.

Lemma hex_no_space s : string_forall is_hex s = true → string_forall (λ c, negb (is_space c)) s = true.
Proof. apply string_forall_impl. intros c Hc. by rewrite hex_not_space. Qed.

Lemma format_0x_trimmed n : trim (format_0x n) = format_0x n.
Proof.
  unfold trim. rewrite trim_end_id; [done|].
  change (string_forall (λ c, negb (is_space c)) (format_hex n) = true).
  eapply string_forall_impl; [|by apply (hex_digits_forall 32 n EmptyString)].
  intros c Hc. by rewrite hex_not_space.
Qed.

(** A quantity that was printed is read back, whichever side prints it. *)
Lemma parse_format_0x mx n : n ≤ mx → n ≤ u128_max → parse_hex mx (format_0x n) = Ok n.
Proof.
  intros Hn Hb. unfold parse_hex. rewrite format_0x_trimmed.
  change (strip_0x (format_0x n)) with (Some (format_hex n)). cbn [default from_option id].
  rewrite format_hex_unsigned. unfold format_hex. rewrite radix_loop_digits; [done| |done].
  eapply N.le_lt_trans; [exact Hb|]. by vm_compute.
Qed.

(** A quantity above the width is refused: the checked product stops the loop. *)
Lemma radix_loop_large mx fuel n acc :
  n < 16 ^ N.of_nat (S fuel) → mx < n → string_forall is_hex acc = true →
  radix_loop 16 hex_value mx 0 (hex_digits (S fuel) n acc) = Err too_large.
Proof.
  revert n acc. induction fuel as [|fuel IH]; intros n acc Hn Hmx Hacc.
  - assert (n < 16) as Hlt by (change (16 ^ N.of_nat 1) with 16 in Hn; done).
    cbn [hex_digits]. rewrite (proj2 (N.ltb_lt _ _)) by done. cbn [radix_loop].
    rewrite hex_value_char, N.mod_small by (try apply N.mod_lt; lia).
    rewrite N.mul_0_l, N.add_0_l. by rewrite (proj2 (N.leb_gt _ _)).
  - remember (S fuel) as f. cbn [hex_digits].
    assert (is_hex (hex_char (n mod 16)) = true) as Hc by (apply is_hex_char, N.mod_lt; lia).
    assert (hex_value (hex_char (n mod 16)) = Some (n mod 16)) as Hv
      by (apply hex_value_char, N.mod_lt; lia).
    destruct (N.ltb_spec n 16) as [Hlt|Hge].
    + cbn [radix_loop]. rewrite Hv, N.mod_small, N.mul_0_l, N.add_0_l by done.
      by rewrite (proj2 (N.leb_gt _ _)).
    + assert (n / 16 < 16 ^ N.of_nat f) as Hdiv.
      { apply N.Div0.div_lt_upper_bound. by rewrite Nat2N.inj_succ, N.pow_succ_r' in Hn. }
      destruct (N.lt_ge_cases mx (n / 16)) as [Hlarge|Hfit]; subst f.
      * apply IH; [done|done|]. cbn [string_forall]. by rewrite Hc.
      * rewrite radix_loop_digits by done. cbn [radix_loop]. rewrite Hv.
        replace (n / 16 * 16 + n mod 16) with n by (pose proof (N.div_mod n 16); lia).
        by rewrite (proj2 (N.leb_gt _ _)).
Qed.

Lemma parse_format_0x_large n :
  u64_max < n → n ≤ u128_max → parse_hex_u64 (format_0x n) = Err too_large.
Proof.
  intros Hn Hb. unfold parse_hex_u64, parse_hex. rewrite format_0x_trimmed.
  change (strip_0x (format_0x n)) with (Some (format_hex n)). cbn [default from_option id].
  assert (radix_loop 16 hex_value u64_max 0 (format_hex n) = Err too_large) as Hr.
  { apply radix_loop_large; [|done|done]. eapply N.le_lt_trans; [exact Hb|]. by vm_compute. }
  rewrite <-Hr. apply format_hex_unsigned.
Qed.

(** ** Decoding

    A decoder is [T::deserialize]. The derived instance for [Option<T>] maps both
    a missing field and [null] to [None]. *)
Abbreviation Decoder T := (Json → option T) (only parsing).

Definition decode_string : Decoder string := as_str.

Definition decode_option {T} (d : Decoder T) : Decoder (option T) :=
  λ j, match j with
       | JNull => Some None
       | _ => Some <$> d j
       end.

Definition option_field {T} (d : Decoder T) (k : string) (j : Json) : option (option T) :=
  match json_get k j with
  | None => Some None
  | Some v => decode_option d v
  end.

Definition required_field {T} (d : Decoder T) (k : string) (j : Json) : option T :=
  json_get k j ≫= d.

Record JsonRpcError := mkJsonRpcError { je_code : Z; je_message : string }.
Definition decode_rpc_error : Decoder JsonRpcError := λ j,
  code ← required_field as_i64 "code" j;
  message ← required_field decode_string "message" j;
  Some (mkJsonRpcError code message).

Record JsonRpcResponse (T : Type) := mkJsonRpcResponse {
  jr_result : option T;
  jr_error : option JsonRpcError;
}.
Arguments mkJsonRpcResponse {_} _ _.
Arguments jr_result {_} _.
Arguments jr_error {_} _.

Definition is_object (j : Json) : bool := match j with JObj _ => true | _ => false end.

Definition decode_response {T} (d : Decoder T) : Decoder (JsonRpcResponse T) := λ j,
  if negb (is_object j) then None
  else
    r ← option_field d "result" j;
    error ← option_field decode_rpc_error "error" j;
    Some (mkJsonRpcResponse r error).

(** ** The calls *)

(** [post_json] is [client.post(endpoint).json(body).send()] with the reading of
    the reply as JSON; [decode_message] is the text of serde's error. *)
Class JsonRpcTransport (W : Type) := {
  post_json : string → Json → M W string Json;
  decode_message : Json → string;
}.

Definition rpc_body (method : string) (params : Json) : Json :=
  JObj [("jsonrpc", JStr "2.0"); ("id", JNum 1); ("method", JStr method); ("params", params)].

Section Calls.
Context {W : Type} `{JsonRpcTransport W}.

Definition rpc_reply {T} (d : Decoder T) (reply : Json) : result string T :=
  match decode_response d reply with
  | None => Err (decode_message reply)
  | Some payload =>
      match jr_error payload with
      | Some err => Err ("rpc code=" +:+ pretty (je_code err) +:+ " message=" +:+ je_message err)
      | None => ok_or "missing result" (jr_result payload)
      end
  end.

(** [rpc_call::<T>] of the settlement adapters. *)
Definition rpc_call {T} (d : Decoder T) (endpoint method : string) (params : Json)
    : M W string T :=
  reply ← post_json endpoint (rpc_body method params);
  lift_result (rpc_reply d reply).

(** [rpc_call] of the room-scoped adapters, which keeps the raw value. *)
Definition rpc_call_value (endpoint method : string) (params : Json) : M W string Json :=
  payload ← post_json endpoint (rpc_body method params);
  match json_get "error" payload with
  | Some err =>
      let code := default 0%Z (json_get "code" err ≫= as_i64) in
      let msg := default "unknown" (json_get "message" err ≫= as_str) in
      throw ("rpc code=" +:+ pretty code +:+ " message=" +:+ msg)
  | None => lift_result (ok_or "missing result" (json_get "result" payload))
  end.
End Calls.

(** A [null] result never reaches the decoder of the type it was asked for. *)
Lemma null_result_is_missing {W} `{JsonRpcTransport W} {T} (d : Decoder T) fields :
  assoc_field "result" fields = Some JNull → assoc_field "error" fields = None →
  rpc_reply d (JObj fields) = Err "missing result".
Proof.
  intros Hr He. unfold rpc_reply, decode_response, option_field. cbn. by rewrite Hr, He.
Qed.
