(* ===== verification/AgentAuth.v ===== *)
(** Requests that agents sign (crate [agent-auth]): the canonical form of their
    parameters, the message that is signed, EVM personal signatures, the time window
    of a request, and the stores that admit a request only once.

    Curve arithmetic and hashing are the parameters [Secp256k1], the [hex] crate's
    decoder [HexDecode], serde's printer [JsonText] and chrono's [DateTimeText].
    Bytes are numbers below 256. Times are milliseconds, so what chrono compares
    below a millisecond is not seen; an expiry of [i64::MIN], on which
    [Duration::milliseconds] panics, counts as a very small number. *)

From stdpp Require Import base tactics option list gmap strings pretty.
From Stdlib Require Import NArith ZArith Lia Ascii.
From S2P Require Import Prelude.
From S2P Require Import Text.
From S2P Require Import Domain.
From S2P Require Import Ambient.
From S2P Require Import LedgerStore.
From S2P Require Import JsonRpc.

Local Open Scope N_scope.

Inductive AuthError :=
| RequestExpired | RequestFromFuture | Serialization (message : string)
| InvalidEthereumSignature | EthereumSignatureRecoveryFailed | EthereumAddressMismatch
| ReplayDetected | ReplayStoreUnavailable | IdempotencyKeyConflict | IdempotencyStoreUnavailable.

Definition auth_error_text (e : AuthError) : string :=
  match e with
  | RequestExpired => "request expired"
  | RequestFromFuture => "request timestamp too far in future"
  | Serialization m => "serialization error: " +:+ m
  | InvalidEthereumSignature => "invalid ethereum signature"
  | EthereumSignatureRecoveryFailed => "ethereum signature recovery failed"
  | EthereumAddressMismatch => "ethereum address mismatch"
  | ReplayDetected => "replay request detected"
  | ReplayStoreUnavailable => "replay store unavailable"
  | IdempotencyKeyConflict => "idempotency key already consumed"
  | IdempotencyStoreUnavailable => "idempotency store unavailable"
  end.

Record ReplayNonceKey := mkReplayNonceKey {
  rn_agent_id : AgentId;
  rn_request_id : RequestId;
  rn_request_nonce : string;
}.
#[export] Instance ReplayNonceKey_eq_dec : EqDecision ReplayNonceKey.
Proof. solve_decision. Defined.
#[export] Program Instance ReplayNonceKey_countable : Countable ReplayNonceKey :=
  inj_countable' (λ k, (rn_agent_id k, rn_request_id k, rn_request_nonce k))
    (λ '(a, r, n), mkReplayNonceKey a r n) _.
Next Obligation. by intros []. Qed.

Record ActionIdempotencyKey := mkIdempotencyKey {
  ik_room_id : RoomId;
  ik_hand_id : HandId;
  ik_seat_id : SeatId;
  ik_action_seq : ActionSeq;
}.
#[export] Instance ActionIdempotencyKey_eq_dec : EqDecision ActionIdempotencyKey.
Proof. solve_decision. Defined.
#[export] Program Instance ActionIdempotencyKey_countable : Countable ActionIdempotencyKey :=
  inj_countable' (λ k, (ik_room_id k, ik_hand_id k, ik_seat_id k, ik_action_seq k))
    (λ '(r, h, s, a), mkIdempotencyKey r h s a) _.
Next Obligation. by intros []. Qed.

Record SignedRequestMeta := mkMeta {
  rm_request_id : RequestId;
  rm_request_nonce : string;
  rm_request_ts : DateTime;
  rm_request_expiry_ms : Z;
  rm_signature_pubkey_id : string;
  rm_signature : string;
}.

Record SigningMessageInput := mkSigningInput {
  sm_method : string;
  sm_session_id : SessionId;
  sm_room_id : option RoomId;
  sm_hand_id : option string;
  sm_action_seq : option N;
  sm_params : Json;
  sm_meta : SignedRequestMeta;
}.

Record SeatKeyBindingClaim := mkBindingClaim {
  kb_agent_id : option AgentId;
  kb_session_id : option SessionId;
  kb_room_id : RoomId;
  kb_seat_id : SeatId;
  kb_seat_address : string;
  kb_card_encrypt_pubkey : string;
  kb_request_verify_pubkey : string;
  kb_key_algo : string;
  kb_issued_at : DateTime;
  kb_expires_at : option DateTime;
}.

(** ** Stores that admit a key once *)

Class ReplayNonceStore (W : Type) := { consume_nonce_once : ReplayNonceKey → M W AuthError unit }.
Class ActionIdempotencyStore (W : Type) := {
  consume_key_once : ActionIdempotencyKey → M W AuthError unit;
}.

(** [seen.lock()?; if !seen.insert(key) { return Err(..) }] *)
Definition consume_once {K} `{Countable K} (unavailable conflict : AuthError) (key : K)
    : M (Mutex (gset K)) AuthError unit :=
  seen ← get;
  keys ← lift_result (result_map_err (λ _, unavailable) (lock seen));
  if bool_decide (key ∈ keys) then throw conflict
  else modify (λ seen, store seen ({[key]} ∪ keys)).

Definition InMemoryReplayNonceStore : Type := Mutex (gset ReplayNonceKey).
#[export] Instance in_memory_replay : ReplayNonceStore InMemoryReplayNonceStore := {
  consume_nonce_once := consume_once ReplayStoreUnavailable ReplayDetected;
}.
Definition InMemoryActionIdempotencyStore : Type := Mutex (gset ActionIdempotencyKey).
#[export] Instance in_memory_idempotency : ActionIdempotencyStore InMemoryActionIdempotencyStore := {
  consume_key_once := consume_once IdempotencyStoreUnavailable IdempotencyKeyConflict;
}.

Definition consume_replay_nonce {W} `{ReplayNonceStore W} (agent_id : AgentId)
    (meta : SignedRequestMeta) : M W AuthError unit :=
  consume_nonce_once (mkReplayNonceKey agent_id (rm_request_id meta) (rm_request_nonce meta)).
Definition consume_action_idempotency_key {W} `{ActionIdempotencyStore W} (room_id : RoomId)
    (hand_id : HandId) (seat_id : SeatId) (action_seq : ActionSeq) : M W AuthError unit :=
  consume_key_once (mkIdempotencyKey room_id hand_id seat_id action_seq).

(** ** The time window *)

Definition validate_request_window (now request_ts : DateTime)
    (expiry_ms future_skew_tolerance_ms : Z) : result AuthError unit :=
  if (future_skew_tolerance_ms <? Z.of_N request_ts - Z.of_N now)%Z then Err RequestFromFuture
  else if (expiry_ms <? Z.of_N now - Z.of_N request_ts)%Z then Err RequestExpired
  else Ok tt.

(** ** Canonical parameters *)

(** [BTreeMap::insert] and [collect] on the sorted list of entries. *)
Fixpoint btree_insert {A} (k : string) (v : A) (m : list (string * A)) : list (string * A) :=
  match m with
  | [] => [(k, v)]
  | (k', v') :: m' =>
      match String.compare k k' with
      | Lt => (k, v) :: m
      | Eq => (k, v) :: m'
      | Gt => (k', v') :: btree_insert k v m'
      end
  end.
Definition btree_collect {A} (entries : list (string * A)) : list (string * A) :=
  foldl (λ m e, btree_insert (fst e) (snd e) m) [] entries.

(** [serde_json::Map] is an ordered map itself. *)
Fixpoint canonicalize_json (value : Json) : Json :=
  match value with
  | JObj map =>
      let sorted := btree_collect (List.map (λ e, (fst e, canonicalize_json (snd e))) map) in
      JObj (btree_collect sorted)
  | JArr items => JArr (List.map canonicalize_json items)
  | _ => value
  end.

(** [serde_json::to_string] on a value, [DateTime::to_rfc3339]. *)
Class JsonText := { json_to_string : Json → result string string }.
Class DateTimeText := { to_rfc3339 : DateTime → string }.

Section Messages.
Context {UT : UuidText} {JT : JsonText} {DT : DateTimeText}.

Definition canonical_params_json (params : Json) : result AuthError string :=
  result_map_err Serialization (json_to_string (canonicalize_json params)).

(** [format!("name={}|", value)] *)
Definition field (name value : string) : string := name +:+ "=" +:+ value.

Definition build_signing_message (input : SigningMessageInput) : result AuthError string :=
  canonical_params ← canonical_params_json (sm_params input);
  let meta := sm_meta input in
  mret (field "method" (sm_method input)
        +:+ "|" +:+ field "session_id" (uuid_text (sm_session_id input))
        +:+ "|" +:+ field "room_id" (from_option uuid_text "" (sm_room_id input))
        +:+ "|" +:+ field "hand_id" (default "" (sm_hand_id input))
        +:+ "|" +:+ field "action_seq" (from_option pretty "" (sm_action_seq input))
        +:+ "|" +:+ field "params" canonical_params
        +:+ "|" +:+ field "request_id" (uuid_text (rm_request_id meta))
        +:+ "|" +:+ field "request_nonce" (rm_request_nonce meta)
        +:+ "|" +:+ field "request_ts" (to_rfc3339 (rm_request_ts meta))
        +:+ "|" +:+ field "request_expiry_ms" (pretty (rm_request_expiry_ms meta)))%string.

Definition build_seat_key_binding_message (claim : SeatKeyBindingClaim) : string :=
  (field "room_id" (uuid_text (kb_room_id claim))
   +:+ "|" +:+ field "seat_id" (pretty (kb_seat_id claim))
   +:+ "|" +:+ field "seat_address" (kb_seat_address claim)
   +:+ "|" +:+ field "card_encrypt_pubkey" (kb_card_encrypt_pubkey claim)
   +:+ "|" +:+ field "request_verify_pubkey" (kb_request_verify_pubkey claim)
   +:+ "|" +:+ field "key_algo" (kb_key_algo claim)
   +:+ "|" +:+ field "issued_at" (to_rfc3339 (kb_issued_at claim))
   +:+ "|" +:+ field "expires_at" (from_option to_rfc3339 "" (kb_expires_at claim))
   +:+ "|" +:+ field "agent_id" (from_option uuid_text "" (kb_agent_id claim))
   +:+ "|" +:+ field "session_id" (from_option uuid_text "" (kb_session_id claim)))%string.
End Messages.

(** ** Signatures *)

(** Of the crates [k256] and [sha3]. *)
Class Secp256k1 := {
  SigningKey : Type;
  VerifyingKey : Type;
  Signature : Type;
  RecoveryId : Type;
  verifying_key : SigningKey → VerifyingKey;
  encoded_point : VerifyingKey → list N;
  signature_of_bytes : list N → option Signature;
  signature_to_bytes : Signature → list N;
  recovery_id_of_byte : N → option RecoveryId;
  recovery_id_to_byte : RecoveryId → N;
  sign_prehash_recoverable : SigningKey → list N → option (Signature * RecoveryId);
  recover_from_prehash : list N → Signature → RecoveryId → option VerifyingKey;
  keccak256 : list N → list N;
}.
(** [<Vec<u8>>::from_hex] of the crate [hex]. *)
Class HexDecode := { from_hex : string → option (list N) }.

Definition bytes_of_string (s : string) : list N := map N_of_ascii (String.list_ascii_of_string s).

(** [trim_start_matches("0x")]: every repetition of the prefix goes. *)
Fixpoint strip_all_0x (s : string) : string :=
  match s with
  | String a (String b rest) =>
      if Ascii.eqb a "0" && Ascii.eqb b "x" then strip_all_0x rest else s
  | _ => s
  end.

Definition normalize_evm_address (address : string) : string := to_ascii_lowercase (trim address).

Section Signatures.
Context {SK : Secp256k1} {HD : HexDecode} {UT : UuidText} {JT : JsonText} {DT : DateTimeText}.

Definition personal_prefix : string :=
  String (ascii_of_N 25) ("Ethereum Signed Message:" +:+ String (ascii_of_N 10) EmptyString).

Definition evm_personal_sign_hash (message : list N) : list N :=
  keccak256 (bytes_of_string (personal_prefix +:+ pretty (N.of_nat (length message))) ++ message).

Definition evm_address_from_secp256k1_verifying_key (key : VerifyingKey) : string :=
  "0x" +:+ hex_encode (drop 12 (keccak256 (drop 1 (encoded_point key)))).

Definition verify_evm_personal_signature (expected_address : string) (message : list N)
    (signature_hex : string) : result AuthError unit :=
  sig_bytes ← ok_or InvalidEthereumSignature (from_hex (strip_all_0x (trim signature_hex)));
  if negb (length sig_bytes =? 65)%nat then Err InvalidEthereumSignature
  else
    sig ← ok_or InvalidEthereumSignature (signature_of_bytes (take 64 sig_bytes));
    let v := nth 64 sig_bytes 0 in
    let v := if 27 <=? v then sat_sub v 27 else v in
    recid ← ok_or InvalidEthereumSignature (recovery_id_of_byte v);
    key ← ok_or EthereumSignatureRecoveryFailed
            (recover_from_prehash (evm_personal_sign_hash message) sig recid);
    let recovered := evm_address_from_secp256k1_verifying_key key in
    if negb (String.eqb (normalize_evm_address recovered) (normalize_evm_address expected_address))
    then Err EthereumAddressMismatch
    else Ok tt.

Definition sign_evm_personal_message_secp256k1 (signing_key : SigningKey) (message : list N)
    : result AuthError string :=
  sig ← ok_or InvalidEthereumSignature
          (sign_prehash_recoverable signing_key (evm_personal_sign_hash message));
  mret ("0x" +:+ hex_encode (signature_to_bytes (fst sig) ++ [recovery_id_to_byte (snd sig)])).

Definition verify_seat_key_binding_proof_evm (claim : SeatKeyBindingClaim)
    (proof_signature_hex : string) : result AuthError unit :=
  verify_evm_personal_signature (kb_seat_address claim)
    (bytes_of_string (build_seat_key_binding_message claim)) proof_signature_hex.
End Signatures.
