(* ===== verification/AgentAuthProps.v ===== *)
(** Properties of signed requests: canonical parameters are equal exactly when the
    parameters are the same up to the order of names, the signed message determines
    the request, and signatures are accepted for the address of their key. *)

From stdpp Require Import base tactics option list gmap strings pretty.
From Stdlib Require Import NArith ZArith Lia Ascii Sorted OrdersEx.
From S2P Require Import Prelude.
From S2P Require Import Text.
From S2P Require Import Domain.
From S2P Require Import Ambient.
From S2P Require Import JsonRpc.
From S2P Require Import AgentAuth.

Local Open Scope N_scope.

(** ** Ordered maps as lists *)

Section Btree.
Context {A : Type}.
Implicit Types m l : list (string * A).

Definition keys_sorted m : Prop := StronglySorted string_lt (m.*1).

Lemma compare_lt s t : String.compare s t = Lt ↔ string_lt s t.
Proof. done. Qed.

Lemma btree_insert_perm k v m : k ∉ m.*1 → btree_insert k v m ≡ₚ (k, v) :: m.
Proof.
  induction m as [|[k' v'] m IH]; cbn; [done|]. intros [Hne Hin]%not_elem_of_cons.
  destruct (String.compare k k') eqn:Hc; [|done|].
  - by apply String.compare_eq_iff in Hc.
  - rewrite IH by done. apply Permutation_swap.
Qed.

Lemma btree_insert_sorted k v m : keys_sorted m → keys_sorted (btree_insert k v m).
Proof.
  unfold keys_sorted. induction m as [|[k' v'] m IH]; cbn; [by repeat constructor|].
  intros Hs. apply StronglySorted_inv in Hs as [Hs Hall].
  destruct (String.compare k k') eqn:Hc.
  - apply String.compare_eq_iff in Hc as ->. by constructor.
  - apply compare_lt in Hc. cbn. constructor; [by constructor|]. constructor; [done|].
    eapply Forall_impl; [exact Hall|]. intros x Hx. by etransitivity.
  - assert (string_lt k' k) as Hlt.
    { rewrite String.compare_antisym in Hc. apply (proj1 (compare_lt _ _)).
      destruct (String.compare k' k); cbn in Hc; congruence. }
    cbn. constructor; [by apply IH|].
    assert (∀ x, x ∈ (btree_insert k v m).*1 → x = k ∨ x ∈ m.*1) as Hin.
    { clear. induction m as [|[k'' v''] m IH]; cbn; [set_solver|]. intros x.
      destruct (String.compare k k''); cbn; set_solver. }
    rewrite Forall_forall in Hall |- *. intros x Hx.
    apply Hin in Hx as [->|Hx]; [done|by apply Hall].
Qed.

Lemma foldl_btree_perm l m :
  NoDup (l.*1) → (∀ k, k ∈ l.*1 → k ∉ m.*1) →
  foldl (λ m e, btree_insert (fst e) (snd e) m) m l ≡ₚ l ++ m.
Proof.
  revert m. induction l as [|[k v] l IH]; intros m Hnd Hdis; cbn in *; [done|].
  apply NoDup_cons in Hnd as [Hk Hnd].
  assert (btree_insert k v m ≡ₚ (k, v) :: m) as Hp by (apply btree_insert_perm, Hdis; set_solver).
  rewrite IH; [by rewrite Hp, Permutation_middle|done|].
  intros k' Hk'. rewrite Hp. cbn. set_solver.
Qed.

Lemma btree_collect_perm l : NoDup (l.*1) → btree_collect l ≡ₚ l.
Proof. intros Hnd. unfold btree_collect. rewrite foldl_btree_perm by set_solver. by rewrite app_nil_r. Qed.

Lemma btree_collect_sorted l : keys_sorted (btree_collect l).
Proof.
  unfold btree_collect. assert (keys_sorted []) as H by constructor. revert H.
  generalize (@nil (string * A)). induction l as [|[k v] l IH]; intros m Hm; cbn; [done|].
  by apply IH, btree_insert_sorted.
Qed.

Lemma keys_sorted_NoDup m : keys_sorted m → NoDup (m.*1).
Proof.
  unfold keys_sorted. induction 1 as [|k l _ IH Hall]; constructor; [|done].
  intros Hin. rewrite Forall_forall in Hall. apply Hall in Hin.
  by apply (irreflexivity string_lt) in Hin.
Qed.

(** A sorted list of entries is determined by its entries. *)
Lemma keys_sorted_unique m1 m2 : keys_sorted m1 → keys_sorted m2 → m1 ≡ₚ m2 → m1 = m2.
Proof.
  revert m2. induction m1 as [|[k v] m1 IH]; intros m2 H1 H2 Hp.
  { by apply Permutation_nil_l in Hp. }
  destruct m2 as [|[k' v'] m2]; [by apply Permutation_nil_r in Hp|].
  assert ((k, v) = (k', v')) as Heq.
  { unfold keys_sorted in H1, H2. cbn in H1, H2.
    apply StronglySorted_inv in H1 as [_ H1], H2 as [_ H2]. rewrite Forall_forall in H1, H2.
    assert ((k, v) ∈ (k', v') :: m2) as Hin by (rewrite <-Hp; left).
    assert ((k', v') ∈ (k, v) :: m1) as Hin' by (rewrite Hp; left).
    apply elem_of_cons in Hin as [|Hin]; [done|]. apply elem_of_cons in Hin' as [|Hin']; [done|].
    apply (list_elem_of_fmap_2 fst) in Hin, Hin'. cbn in Hin, Hin'.
    exfalso. apply (irreflexivity string_lt k). etransitivity; [apply H1, Hin'|apply H2, Hin]. }
  injection Heq as <- <-. f_equal. apply Permutation_cons_inv in Hp.
  unfold keys_sorted in H1, H2. cbn in H1, H2.
  apply IH; [by apply StronglySorted_inv in H1 as []|by apply StronglySorted_inv in H2 as []|done].
Qed.

Lemma btree_collect_id m : keys_sorted m → btree_collect m = m.
Proof.
  intros Hs. apply keys_sorted_unique; [apply btree_collect_sorted|done|].
  by apply btree_collect_perm, keys_sorted_NoDup.
Qed.

Lemma btree_collect_proper l1 l2 :
  NoDup (l1.*1) → l1 ≡ₚ l2 → btree_collect l1 = btree_collect l2.
Proof.
  intros Hnd Hp. apply keys_sorted_unique; [apply btree_collect_sorted..|].
  rewrite !btree_collect_perm; [done| |done]. by rewrite <-Hp.
Qed.
End Btree.

(** ** Canonical values *)

Definition is_atom (j : Json) : bool := match j with JArr _ | JObj _ => false | _ => true end.

(** Induction that reaches the members of arrays and objects. *)
Section JsonInd.
Context (P : Json → Prop) (Hatom : ∀ j, is_atom j = true → P j).
Context (Harr : ∀ items, Forall P items → P (JArr items)).
Context (Hobj : ∀ map, Forall (P ∘ snd) map → P (JObj map)).

Fixpoint Json_nested_ind (j : Json) : P j :=
  match j with
  | JNull => Hatom JNull eq_refl
  | JBool b => Hatom (JBool b) eq_refl
  | JNum z => Hatom (JNum z) eq_refl
  | JStr s => Hatom (JStr s) eq_refl
  | JArr items =>
      Harr items ((fix go l : Forall P l := match l with
                    | [] => Forall_nil_2 _
                    | x :: l => Forall_cons_2 _ _ _ (Json_nested_ind x) (go l)
                    end) items)
  | JObj map =>
      Hobj map ((fix go l : Forall (P ∘ snd) l := match l with
                  | [] => Forall_nil_2 _
                  | x :: l => Forall_cons_2 _ _ _ (Json_nested_ind (snd x)) (go l)
                  end) map)
  end.
End JsonInd.

(** The names of every object are distinct. *)
Inductive json_wf : Json → Prop :=
| wf_null : json_wf JNull
| wf_bool b : json_wf (JBool b)
| wf_num z : json_wf (JNum z)
| wf_str s : json_wf (JStr s)
| wf_arr items : Forall json_wf items → json_wf (JArr items)
| wf_obj map : NoDup (map.*1) → Forall (json_wf ∘ snd) map → json_wf (JObj map).

(** The same value up to the order of the names of objects, at any depth. *)
Inductive json_eqv : Json → Json → Prop :=
| eqv_null : json_eqv JNull JNull
| eqv_bool b : json_eqv (JBool b) (JBool b)
| eqv_num z : json_eqv (JNum z) (JNum z)
| eqv_str s : json_eqv (JStr s) (JStr s)
| eqv_arr l1 l2 : Forall2 json_eqv l1 l2 → json_eqv (JArr l1) (JArr l2)
| eqv_obj m1 m1' m2 :
    m1 ≡ₚ m1' → Forall2 (λ a b, fst a = fst b ∧ json_eqv (snd a) (snd b)) m1' m2 →
    json_eqv (JObj m1) (JObj m2).

Definition canonical_entry (e : string * Json) : string * Json := (fst e, canonicalize_json (snd e)).

Lemma canonical_entry_keys map : (List.map canonical_entry map).*1 = map.*1.
Proof. induction map as [|[k v] map IH]; cbn; [done|]. by rewrite IH. Qed.

Lemma canonicalize_obj map :
  canonicalize_json (JObj map) = JObj (btree_collect (List.map canonical_entry map)).
Proof.
  cbn. f_equal. rewrite (btree_collect_id (btree_collect _)); [done|]. apply btree_collect_sorted.
Qed.

Lemma eqv_canonical a b : json_wf a → json_eqv a b → canonicalize_json a = canonicalize_json b.
Proof.
  revert b. induction a as [j Hj|items IH|map IH] using Json_nested_ind; intros b Hwf Heq.
  - by destruct j; inversion Heq; subst.
  - inversion Heq as [| | | |? l2 Hall|]; subst. inversion Hwf as [| | | |? Hwfs|]; subst.
    cbn. f_equal. clear Heq Hwf. induction Hall as [|x y l l' Hxy _ IHl]; [done|].
    apply Forall_cons in IH as [IHx IH], Hwfs as [Hx Hwfs]. cbn. f_equal; auto.
  - inversion Heq as [| | | | |? m1' m2 Hp Hall]; subst. inversion Hwf as [| | | | |? Hnd Hwfs]; subst.
    rewrite !canonicalize_obj. f_equal. rewrite Hp in IH, Hwfs.
    assert (List.map canonical_entry m1' = List.map canonical_entry m2) as <-.
    { clear Hp Heq Hwf Hnd. induction Hall as [|[k x] [k' y] l l' [Hk Hxy] _ IHl]; [done|].
      apply Forall_cons in IH as [IHx IH], Hwfs as [Hx Hwfs]. cbn in *. subst k'.
      unfold canonical_entry at 1 3. cbn. f_equal; auto. by rewrite (IHx y). }
    apply btree_collect_proper; [by rewrite canonical_entry_keys|]. by apply Permutation_map.
Qed.

Lemma canonical_eqv a : ∀ b, json_wf a → json_wf b →
  canonicalize_json a = canonicalize_json b → json_eqv a b.
Proof.
  induction a as [j Hj|items IH|map IH] using Json_nested_ind; intros b Ha Hb.
  - destruct j; try done; destruct b; intros Heq; try discriminate Heq; cbn in Heq;
      try (injection Heq as <-); constructor.
  - destruct b as [| | | |items'|map']; intros Heq; try discriminate Heq. cbn in Heq.
    injection Heq as Heq. inversion Ha as [| | | |? Hwfs|]; subst.
    inversion Hb as [| | | |? Hwfs'|]; subst. constructor. clear Ha Hb.
    revert items' Hwfs' Heq. induction IH as [|x l IHx _ IHl]; intros [|y l'] Hwfs' Heq;
      try discriminate Heq; [constructor|]. cbn in Heq. injection Heq as Hxy Heq.
    apply Forall_cons in Hwfs as [? ?], Hwfs' as [? ?]. constructor; auto.
  - destruct b as [| | | |items'|map']; intros Heq; try discriminate Heq.
    rewrite !canonicalize_obj in Heq. injection Heq as Heq.
    inversion Ha as [| | | | |? Hnd Hwfs]; subst. inversion Hb as [| | | | |? Hnd' Hwfs']; subst.
    assert (List.map canonical_entry map' ≡ₚ List.map canonical_entry map) as Hp.
    { rewrite <-(btree_collect_perm (List.map canonical_entry map)), Heq, btree_collect_perm;
        [done|by rewrite canonical_entry_keys..]. }
    apply Permutation_map_inv in Hp as (m1 & Hm & Hp). apply (eqv_obj _ m1); [done|].
    rewrite Hp in IH, Hwfs. clear Hp Heq Ha Hb Hnd Hnd'. revert map' Hm Hwfs'.
    induction IH as [|[k x] l IHx _ IHl]; intros [|[k' y] l'] Hm Hwfs'; try discriminate Hm;
      [constructor|]. cbn in Hm. injection Hm as Hk Hxy Hm.
    apply Forall_cons in Hwfs as [? ?], Hwfs' as [? ?]. constructor; [|by apply IHl].
    cbn in *. split; [done|]. by apply IHx.
Qed.

Lemma canonical_wf a : json_wf a → json_wf (canonicalize_json a).
Proof.
  induction a as [j Hj|items IH|map IH] using Json_nested_ind; intros Hwf; [by destruct j|..].
  - inversion Hwf as [| | | |? Hwfs|]; subst. cbn. constructor. clear Hwf.
    induction IH as [|x l IHx _ IHl]; [constructor|].
    apply Forall_cons in Hwfs as [? ?]. cbn. constructor; auto.
  - inversion Hwf as [| | | | |? Hnd Hwfs]; subst. rewrite canonicalize_obj. constructor.
    + apply keys_sorted_NoDup, btree_collect_sorted.
    + rewrite btree_collect_perm by by rewrite canonical_entry_keys. clear Hwf Hnd.
      induction IH as [|x l IHx _ IHl]; [constructor|].
      apply Forall_cons in Hwfs as [? ?]. cbn. constructor; cbn; auto.
Qed.

Lemma canonical_idempotent a : json_wf a → canonicalize_json (canonicalize_json a) = canonicalize_json a.
Proof.
  induction a as [j Hj|items IH|map IH] using Json_nested_ind; intros Hwf; [by destruct j|..].
  - inversion Hwf as [| | | |? Hwfs|]; subst. cbn. f_equal. clear Hwf.
    induction IH as [|x l IHx _ IHl]; [done|].
    apply Forall_cons in Hwfs as [? ?]. cbn. f_equal; auto.
  - inversion Hwf as [| | | | |? Hnd Hwfs]; subst. rewrite !canonicalize_obj. f_equal.
    set (m := btree_collect (List.map canonical_entry map)).
    assert (List.map canonical_entry m = m) as ->; [|apply btree_collect_id, btree_collect_sorted].
    assert (Forall (λ e, canonical_entry e = e) m) as Hall.
    { subst m. rewrite btree_collect_perm by by rewrite canonical_entry_keys. clear Hwf Hnd.
      induction IH as [|[k x] l IHx _ IHl]; [constructor|].
      apply Forall_cons in Hwfs as [? ?]. cbn. constructor; [|auto].
      unfold canonical_entry. cbn in *. by rewrite IHx. }
    clearbody m. induction Hall as [|e m He _ IHm]; [done|]. cbn. by rewrite He, IHm.
Qed.

Lemma assoc_field_elem k v m : NoDup (m.*1) → assoc_field k m = Some v ↔ (k, v) ∈ m.
Proof.
  induction m as [|[k' v'] m IH]; cbn; intros Hnd; [set_solver|].
  apply NoDup_cons in Hnd as [Hk Hnd]. destruct (String.eqb_spec k' k) as [->|Hne].
  - split; [intros [= ->]; left|]. intros [[= ->]|Hin]%elem_of_cons; [done|].
    by apply (list_elem_of_fmap_2 fst) in Hin.
  - rewrite IH by done. set_solver.
Qed.

Lemma canonical_get k a :
  json_wf a → json_get k (canonicalize_json a) = canonicalize_json <$> json_get k a.
Proof.
  destruct a as [| | | | |map]; try done. intros Hwf.
  inversion Hwf as [| | | | |? Hnd _]; subst. rewrite canonicalize_obj. cbn.
  assert (∀ v, assoc_field k (btree_collect (List.map canonical_entry map)) = Some v ↔
               (canonicalize_json <$> assoc_field k map) = Some v) as Hiff.
  { intros v. rewrite assoc_field_elem
      by apply keys_sorted_NoDup, btree_collect_sorted.
    rewrite btree_collect_perm by by rewrite canonical_entry_keys.
    rewrite fmap_Some. setoid_rewrite (assoc_field_elem k _ map Hnd).
    change (List.map canonical_entry map) with (canonical_entry <$> map).
    rewrite list_elem_of_fmap. split.
    - intros ([k' x] & [= -> ->] & Hin). by exists x.
    - intros (x & Hin & ->). by exists (k, x). }
  apply option_eq. intros v. by rewrite Hiff.
Qed.

(** Two sets of parameters have the same canonical form exactly when they are
    the same up to the order of the names of their objects, at every depth; the
    canonical form is its own canonical form, its names are distinct, and what is
    found under a name is the canonical form of what was there. *)
Theorem canonical_form_decides_sameness a b (Ha : json_wf a) (Hb : json_wf b) :
  (canonicalize_json a = canonicalize_json b ↔ json_eqv a b) ∧
  canonicalize_json (canonicalize_json a) = canonicalize_json a ∧
  json_wf (canonicalize_json a) ∧
  ∀ k, json_get k (canonicalize_json a) = canonicalize_json <$> json_get k a.
Proof.
  split; [split; [by apply canonical_eqv|by apply eqv_canonical]|].
  split; [by apply canonical_idempotent|]. split; [by apply canonical_wf|].
  intros k. by apply canonical_get.
Qed.

Lemma canonical_form_decides_sameness_witness :
  let a := JObj [("b", JObj [("y", JNum 1); ("x", JNull)]); ("a", JArr [JBool true])] in
  let b := JObj [("a", JArr [JBool true]); ("b", JObj [("x", JNull); ("y", JNum 1)])] in
  json_eqv a b ∧ canonicalize_json a = b.
Proof.
  intros a b.
  assert (json_wf a) as Ha by (repeat constructor; cbn; set_solver).
  assert (json_wf b) as Hb by (repeat constructor; cbn; set_solver).
  split; [|reflexivity].
  apply (proj1 (canonical_form_decides_sameness a b Ha Hb)). reflexivity.
Defined.

(** ** The signed message *)

(** serde prints an object as a text that ends where its last brace closes, so no
    text of an object is the beginning of another's. *)
Class JsonTextLaws `{JT : JsonText} : Prop := {
  json_text_delimited : ∀ a b s t x y,
    canonicalize_json (JObj a) = JObj a → canonicalize_json (JObj b) = JObj b →
    json_to_string (JObj a) = Ok s → json_to_string (JObj b) = Ok t →
    s +:+ x = t +:+ y → JObj a = JObj b ∧ x = y;
}.
Class DateTimeTextLaws `{DT : DateTimeText} : Prop := {
  rfc3339_inj : ∀ a b, to_rfc3339 a = to_rfc3339 b → a = b;
  rfc3339_no_bar : ∀ a, no_bar (to_rfc3339 a) = true;
}.

Section SignedMessage.
Context {UT : UuidText} {UL : UuidTextLaws} {JT : JsonText} {JL : JsonTextLaws}.
Context {DT : DateTimeText} {DL : DateTimeTextLaws}.

Lemma optional_uuid_inj (a b : option Uuid) :
  from_option uuid_text "" a = from_option uuid_text "" b → a = b.
Proof.
  destruct a as [a|], b as [b|]; cbn; [|intros H; by apply uuid_text_nonempty in H|
    intros H; symmetry in H; by apply uuid_text_nonempty in H|done].
  by intros ->%uuid_text_inj.
Qed.

Lemma optional_uuid_no_bar (a : option Uuid) : no_bar (from_option uuid_text "" a) = true.
Proof. destruct a; [apply uuid_text_no_bar|done]. Qed.

Lemma optional_number_inj (a b : option N) :
  from_option pretty "" a = from_option pretty "" b → a = b.
Proof.
  destruct a as [a|], b as [b|]; cbn; [|intros H; by apply pretty_nonempty in H|
    intros H; symmetry in H; by apply pretty_nonempty in H|done].
  by intros ->%(inj pretty).
Qed.

Lemma optional_number_no_bar (a : option N) : no_bar (from_option pretty "" a) = true.
Proof. destruct a; [apply pretty_no_bar|done]. Qed.

Lemma canonical_params_obj m s :
  json_wf (JObj m) → canonical_params_json (JObj m) = Ok s →
  ∃ m', canonicalize_json (JObj m) = JObj m' ∧ canonicalize_json (JObj m') = JObj m' ∧
        json_to_string (JObj m') = Ok s.
Proof.
  intros Hwf Hs. exists (btree_collect (List.map canonical_entry m)).
  assert (canonicalize_json (JObj m) = JObj (btree_collect (List.map canonical_entry m))) as Hc
    by apply canonicalize_obj.
  split; [done|]. rewrite <-Hc. split; [by apply canonical_idempotent|].
  unfold canonical_params_json in Hs. by destruct (json_to_string _); simplify_eq/=.
Qed.

Lemma field_inj name a b : field name a = field name b → a = b.
Proof. unfold field. intros H. by do 2 apply append_inj_l in H. Qed.

Lemma field_no_bar name a : no_bar name = true → no_bar a = true → no_bar (field name a) = true.
Proof. intros Hn Ha. unfold field. by rewrite !no_bar_append, Hn, Ha. Qed.

(** The fields after the parameters; the nonce may be any text. *)
Definition signed_tail (m : SignedRequestMeta) : string :=
  (field "request_id" (uuid_text (rm_request_id m))
   +:+ "|" +:+ field "request_nonce" (rm_request_nonce m)
   +:+ "|" +:+ field "request_ts" (to_rfc3339 (rm_request_ts m))
   +:+ "|" +:+ field "request_expiry_ms" (pretty (rm_request_expiry_ms m)))%string.

Lemma signed_tail_inj m m' :
  signed_tail m = signed_tail m' →
  rm_request_id m = rm_request_id m' ∧ rm_request_nonce m = rm_request_nonce m' ∧
  rm_request_ts m = rm_request_ts m' ∧ rm_request_expiry_ms m = rm_request_expiry_ms m'.
Proof.
  unfold signed_tail. intros Heq.
  apply split_bar in Heq as [Hid Heq]; [|apply field_no_bar; [done|apply uuid_text_no_bar]..].
  rewrite <-!append_assoc in Heq. rewrite !(append_assoc _ "|") in Heq.
  apply split_last_bar in Heq as [Heq Hexp]; [|apply field_no_bar; [done|apply pretty_Z_no_bar]..].
  apply split_last_bar in Heq as [Hnonce Hts]; [|apply field_no_bar; [done|apply rfc3339_no_bar]..].
  apply field_inj, uuid_text_inj in Hid. apply field_inj in Hnonce.
  apply field_inj, rfc3339_inj in Hts. by apply field_inj, (inj pretty) in Hexp.
Qed.

Lemma build_signing_message_ok i msg :
  build_signing_message i = Ok msg →
  ∃ s, canonical_params_json (sm_params i) = Ok s ∧
  msg = (field "method" (sm_method i)
         +:+ "|" +:+ field "session_id" (uuid_text (sm_session_id i))
         +:+ "|" +:+ field "room_id" (from_option uuid_text "" (sm_room_id i))
         +:+ "|" +:+ field "hand_id" (default "" (sm_hand_id i))
         +:+ "|" +:+ field "action_seq" (from_option pretty "" (sm_action_seq i))
         +:+ "|" +:+ field "params" s +:+ "|" +:+ signed_tail (sm_meta i))%string.
Proof.
  unfold build_signing_message. mrun.
  destruct (canonical_params_json (sm_params i)) as [s|]; [|done]. intros [= <-]. by exists s.
Qed.

(** The parameters and what follows them. *)
Lemma params_inj p p' s s' (x y : string) :
  json_wf (JObj p) → json_wf (JObj p') →
  canonical_params_json (JObj p) = Ok s → canonical_params_json (JObj p') = Ok s' →
  field "params" s +:+ "|" +:+ x = field "params" s' +:+ "|" +:+ y →
  json_eqv (JObj p) (JObj p') ∧ x = y.
Proof.
  intros Hp Hp' Hs Hs' Heq.
  destruct (canonical_params_obj p s Hp Hs) as (m & Hm & Hmc & Htext).
  destruct (canonical_params_obj p' s' Hp' Hs') as (m' & Hm' & Hmc' & Htext').
  unfold field in Heq. rewrite !append_assoc in Heq. do 2 apply append_inj_l in Heq.
  destruct (json_text_delimited _ _ _ _ _ _ Hmc Hmc' Htext Htext' Heq) as [Hmm Hxy].
  apply append_inj_l in Hxy. split; [|done]. apply canonical_eqv; [done..|]. congruence.
Qed.

(** The message that is signed determines the request: two requests with the
    same message agree on the method, the session, the room, the hand, the number of
    the action, the parameters up to the order of their names, the identifier, the
    nonce, the time and the expiry of the request, although nothing in the message is
    escaped and the nonce may be any text. *)
Lemma signing_message_inj i1 i2 msg p1 p2
    (H1 : build_signing_message i1 = Ok msg) (H2 : build_signing_message i2 = Ok msg)
    (Hp1 : sm_params i1 = JObj p1) (Hp2 : sm_params i2 = JObj p2)
    (Hwf1 : json_wf (JObj p1)) (Hwf2 : json_wf (JObj p2))
    (Hmethods : no_bar (sm_method i1) = true ∧ no_bar (sm_method i2) = true)
    (Hhands : no_bar (default "" (sm_hand_id i1)) = true ∧
              no_bar (default "" (sm_hand_id i2)) = true) :
  sm_method i1 = sm_method i2 ∧ sm_session_id i1 = sm_session_id i2 ∧
  sm_room_id i1 = sm_room_id i2 ∧ default "" (sm_hand_id i1) = default "" (sm_hand_id i2) ∧
  sm_action_seq i1 = sm_action_seq i2 ∧ json_eqv (sm_params i1) (sm_params i2) ∧
  rm_request_id (sm_meta i1) = rm_request_id (sm_meta i2) ∧
  rm_request_nonce (sm_meta i1) = rm_request_nonce (sm_meta i2) ∧
  rm_request_ts (sm_meta i1) = rm_request_ts (sm_meta i2) ∧
  rm_request_expiry_ms (sm_meta i1) = rm_request_expiry_ms (sm_meta i2).
Proof.
  destruct (build_signing_message_ok i1 msg H1) as (s1 & Hs1 & Hm1).
  destruct (build_signing_message_ok i2 msg H2) as (s2 & Hs2 & Hm2).
  rewrite Hp1 in Hs1. rewrite Hp2 in Hs2. rewrite Hm1 in Hm2. clear Hm1 H1 H2.
  apply split_bar in Hm2 as [Hmethod Hm2]; [|apply field_no_bar; [done|apply Hmethods]..].
  apply split_bar in Hm2 as [Hsession Hm2]; [|apply field_no_bar; [done|apply uuid_text_no_bar]..].
  apply split_bar in Hm2 as [Hroom Hm2]; [|apply field_no_bar; [done|apply optional_uuid_no_bar]..].
  apply split_bar in Hm2 as [Hhand Hm2]; [|apply field_no_bar; [done|apply Hhands]..].
  apply split_bar in Hm2 as [Hseq Hm2]; [|apply field_no_bar; [done|apply optional_number_no_bar]..].
  apply (params_inj p1 p2) in Hm2 as [Hparams Htail]; [|done..].
  apply signed_tail_inj in Htail. rewrite Hp1, Hp2.
  apply field_inj in Hmethod, Hhand. apply field_inj, uuid_text_inj in Hsession.
  apply field_inj, optional_uuid_inj in Hroom. by apply field_inj, optional_number_inj in Hseq.
Qed.
End SignedMessage.

(** ** An instance of the laws: values are printed as a number and a bar *)

Fixpoint json_tree (j : Json) : gen_tree (bool + Z + string) :=
  match j with
  | JNull => GenNode 0 []
  | JBool b => GenLeaf (inl (inl b))
  | JNum z => GenLeaf (inl (inr z))
  | JStr s => GenLeaf (inr s)
  | JArr items => GenNode 1 (List.map json_tree items)
  | JObj map => GenNode 2 (List.map (λ e, GenNode 3 [GenLeaf (inr (fst e)); json_tree (snd e)]) map)
  end.

Lemma json_tree_inj a b : json_tree a = json_tree b → a = b.
Proof.
  revert b. induction a as [j Hj|items IH|map IH] using Json_nested_ind; intros b.
  - destruct j; try done; destruct b; cbn; congruence.
  - destruct b as [| | | |items'|]; try done. cbn. intros [= Heq]. f_equal.
    revert items' Heq. induction IH as [|x l Hx _ IHl]; intros [|y l']; try done.
    cbn. intros [= Hxy Heq]. f_equal; auto.
  - destruct b as [| | | | |map']; try done. cbn. intros [= Heq]. f_equal.
    revert map' Heq. induction IH as [|[k x] l Hx _ IHl]; intros [|[k' y] l']; try done.
    cbn. intros [= Hk Hxy Heq]. f_equal; [|auto]. cbn in Hx. f_equal; auto.
Qed.

#[local] Instance toy_json_text : JsonText :=
  {| json_to_string j := Ok (pretty (Npos (encode (json_tree j))) +:+ "|")%string |}.
#[local] Instance toy_json_text_laws : JsonTextLaws.
Proof.
  split. intros a b s t x y _ _ [= <-] [= <-]. rewrite !append_assoc. intros Heq.
  apply split_bar in Heq as [Heq ->]; [|apply pretty_no_bar..].
  apply (inj pretty) in Heq. injection Heq as Heq%(inj encode).
  split; [|done]. by apply json_tree_inj.
Qed.
#[local] Instance toy_date_text : DateTimeText := {| to_rfc3339 := pretty |}.
#[local] Instance toy_date_laws : DateTimeTextLaws.
Proof. split; intros a; [intros b; apply (inj pretty)|apply pretty_no_bar]. Qed.
#[local] Instance toy_auth_uuid : UuidText := {| uuid_text := pretty |}.
#[local] Instance toy_auth_uuid_laws : UuidTextLaws.
Proof. split; intros a; [intros b; apply (inj pretty)|apply pretty_no_bar|apply pretty_nonempty]. Qed.

(** ** Signatures *)

Class Secp256k1Laws `{SK : Secp256k1} : Prop := {
  signed_recovers : ∀ k d s r,
    sign_prehash_recoverable k d = Some (s, r) → recover_from_prehash d s r = Some (verifying_key k);
  signature_reads : ∀ s, signature_of_bytes (signature_to_bytes s) = Some s;
  signature_length : ∀ s, length (signature_to_bytes s) = 64%nat;
  signature_bytes : ∀ s, Forall (λ b, b < 256) (signature_to_bytes s);
  recovery_id_reads : ∀ r, recovery_id_of_byte (recovery_id_to_byte r) = Some r;
  recovery_id_small : ∀ r, recovery_id_to_byte r < 4;
}.
Class HexDecodeLaws `{HD : HexDecode} : Prop := {
  from_hex_encode : ∀ bytes, Forall (λ b, b < 256) bytes → from_hex (hex_encode bytes) = Some bytes;
}.

Section SignatureRoundTrip.
Context {SK : Secp256k1} {SL : Secp256k1Laws} {HD : HexDecode} {HL : HexDecodeLaws}.

Lemma strip_hex s : string_forall is_hex s = true → strip_all_0x s = s.
Proof.
  destruct s as [|a [|b s]]; [done..|]. cbn [string_forall strip_all_0x].
  intros [_ [Hb _]%andb_true_iff]%andb_true_iff.
  destruct (Ascii.eqb_spec b "x") as [->|]; [by vm_compute in Hb|by rewrite andb_false_r].
Qed.

Lemma signature_text_reads bytes :
  Forall (λ b, b < 256) bytes → from_hex (strip_all_0x (trim ("0x" +:+ hex_encode bytes))) = Some bytes.
Proof.
  intros Hb. pose proof (hex_encode_forall bytes Hb) as Hhex.
  rewrite trim_id by (apply hex_no_space in Hhex; exact Hhex).
  change (strip_all_0x ("0x" +:+ hex_encode bytes)) with (strip_all_0x (hex_encode bytes)).
  rewrite strip_hex by done. by apply from_hex_encode.
Qed.

(** What a key signs is accepted for the address of the key, in whatever case
    and with whatever white space the address is written, and for no other address;
    the recovery byte may be written as 0 and 1 or as 27 and 28. *)
Theorem signature_is_accepted_for_its_key key msg s r
    (Hsign : sign_prehash_recoverable key (evm_personal_sign_hash msg) = Some (s, r)) :
  let text v := "0x" +:+ hex_encode (signature_to_bytes s ++ [v]) in
  sign_evm_personal_message_secp256k1 key msg = Ok (text (recovery_id_to_byte r)) ∧
  ∀ address v, v = recovery_id_to_byte r ∨ v = recovery_id_to_byte r + 27 →
    verify_evm_personal_signature address msg (text v)
    = if decide (normalize_evm_address address
                 = normalize_evm_address (evm_address_from_secp256k1_verifying_key
                                            (verifying_key key)))
      then Ok tt else Err EthereumAddressMismatch.
Proof.
  intros text. split; [unfold sign_evm_personal_message_secp256k1; by rewrite Hsign|].
  intros address v Hv. unfold verify_evm_personal_signature, text. pose proof (recovery_id_small r).
  rewrite signature_text_reads by (apply Forall_app; split; [apply signature_bytes|];
    constructor; [lia|done]).
  mrun. rewrite length_app, signature_length. cbn [length Nat.add Nat.eqb negb].
  rewrite take_app_length' by (symmetry; apply signature_length). rewrite signature_reads.
  rewrite app_nth2, signature_length by (rewrite signature_length; lia). cbn [Nat.sub nth].
  replace (if 27 <=? v then sat_sub v 27 else v) with (recovery_id_to_byte r)
    by (unfold sat_sub; destruct Hv as [->| ->]; destruct (N.leb_spec 27 (recovery_id_to_byte r)),
        (N.leb_spec 27 (recovery_id_to_byte r + 27)); lia).
  rewrite recovery_id_reads, (signed_recovers _ _ _ _ Hsign).
  destruct (String.eqb_spec (normalize_evm_address (evm_address_from_secp256k1_verifying_key
    (verifying_key key))) (normalize_evm_address address)) as [Heq|Hne]; cbn [negb].
  - by rewrite decide_True.
  - rewrite decide_False; [done|]. congruence.
Qed.
End SignatureRoundTrip.

(** ** An instance of the laws: two keys, whose signatures are their own bytes *)

#[local] Instance toy_secp : Secp256k1 :=
  {| SigningKey := bool; VerifyingKey := bool; Signature := bool; RecoveryId := unit;
     verifying_key := id; encoded_point k := [4; if k then 1 else 0];
     signature_of_bytes l := Some (hd 0 l =? 1);
     signature_to_bytes k := replicate 64 (if k then 1 else 0);
     recovery_id_of_byte v := if v =? 0 then Some tt else None; recovery_id_to_byte _ := 0;
     sign_prehash_recoverable k _ := Some (k, tt); recover_from_prehash _ s _ := Some s;
     keccak256 l := replicate 20 0 ++ l |}.
#[local] Instance toy_secp_laws : Secp256k1Laws.
Proof.
  split; try done.
  - by intros k d s r [= <- <-].
  - by intros [].
  - intros []; by repeat constructor.
  - by intros [].
Qed.
Fixpoint toy_from_hex (s : string) : option (list N) :=
  match s with
  | EmptyString => Some []
  | String a (String b rest) =>
      x ← hex_value a; y ← hex_value b; bytes ← toy_from_hex rest; Some (x * 16 + y :: bytes)
  | _ => None
  end.
#[local] Instance toy_hex : HexDecode := {| from_hex := toy_from_hex |}.
#[local] Instance toy_hex_laws : HexDecodeLaws.
Proof.
  split. cbn [from_hex toy_hex]. induction 1 as [|b bytes Hb _ IH]; [done|].
  assert (b / 16 < 16) by (apply N.Div0.div_lt_upper_bound; lia).
  assert (b mod 16 < 16) by by apply N.mod_lt.
  cbn [hex_encode toy_from_hex]. rewrite !hex_value_char, IH by done.
  cbv [mbind option_bind]. do 2 f_equal. pose proof (N.div_mod b 16). lia.
Qed.

Lemma signature_is_accepted_for_its_key_witness :
  ∃ text, sign_evm_personal_message_secp256k1 true [1; 2; 3] = Ok text ∧
  verify_evm_personal_signature (evm_address_from_secp256k1_verifying_key true) [1; 2; 3] text = Ok tt ∧
  verify_evm_personal_signature (evm_address_from_secp256k1_verifying_key false) [1; 2; 3] text
  = Err EthereumAddressMismatch.
Proof.
  destruct (signature_is_accepted_for_its_key (SK := toy_secp) true [1; 2; 3] true tt eq_refl)
    as [Hs Hv].
  eexists. split; [exact Hs|]. split.
  - rewrite (Hv _ _ (or_introl eq_refl)). by rewrite decide_True.
  - rewrite (Hv _ _ (or_introl eq_refl)). rewrite decide_False; [done|]. by vm_compute.
Defined.
