(* ===== verification/EvmWallet.v ===== *)
(** The settlement wallets over an EVM node ([ReqwestEvmSettlementWalletAdapter]
    and [ReqwestEvmBatchSettlementWalletAdapter] of the [settlement] crate): nonce
    reservation, the transactions sent, and the reading of receipts.

    A wallet's own memory, the next nonce and the transfer counts, lives next to
    the world it talks to in [EvmWallet]. *)

From stdpp Require Import base tactics option list gmap strings pretty.
From Stdlib Require Import NArith ZArith Lia.
From S2P Require Import Prelude.
From S2P Require Import Ambient.
From S2P Require Import Domain.
From S2P Require Import LedgerStore.
From S2P Require Import Settlement.
From S2P Require Import SettlementService.
From S2P Require Import Text.
From S2P Require Import JsonRpc.

Local Open Scope N_scope.

(** What the adapters use of [ethabi] and [sha3]: parsing an address, the call
    data of [settleBatch] and the hash. *)
Class EvmAbi := {
  Address : Type;
  parse_address : string → result string Address;
  encode_settle_batch : list Address → list N → list N → result string (list N);
  keccak256 : list N → list N;
}.

(** [Uuid::as_bytes]: sixteen bytes, the most significant first. *)
Fixpoint big_endian (n : nat) (v : N) : list N :=
  match n with
  | O => []
  | S n => (v / 256 ^ N.of_nat n) mod 256 :: big_endian n v
  end.
Definition uuid_bytes (v : Uuid) : list N := big_endian 16 v.

Record EvmWallet (W : Type) := mkEvmWallet {
  ew_world : W;
  ew_endpoint : string;
  ew_from_address : string;
  ew_contract_address : string;
  ew_next_nonce : Mutex (option N);
  ew_tx_transfer_count : Mutex (gmap string nat);
}.
Arguments mkEvmWallet {_} _ _ _ _ _ _.
Arguments ew_world {_} _.
Arguments ew_endpoint {_} _.
Arguments ew_from_address {_} _.
Arguments ew_contract_address {_} _.
Arguments ew_next_nonce {_} _.
Arguments ew_tx_transfer_count {_} _.

(** The receipt as the node sends it. *)
Record EthTransactionReceipt := mkEthReceipt {
  er_status : option string;
  er_block_number : option string;
}.
Definition decode_receipt : Json → option EthTransactionReceipt := λ j,
  if negb (is_object j) then None
  else
    status ← option_field decode_string "status" j;
    block_number ← option_field decode_string "blockNumber" j;
    Some (mkEthReceipt status block_number).

Section Wallet.
Context {W : Type} `{JsonRpcTransport W} `{EvmAbi}.

Definition on_world {E A} (m : M W E A) : M (EvmWallet W) E A :=
  λ s, let '(w, r) := m (ew_world s) in
       (mkEvmWallet w (ew_endpoint s) (ew_from_address s) (ew_contract_address s)
          (ew_next_nonce s) (ew_tx_transfer_count s), r).
Definition set_next_nonce (v : option N) (s : EvmWallet W) : EvmWallet W :=
  mkEvmWallet (ew_world s) (ew_endpoint s) (ew_from_address s) (ew_contract_address s)
    (store (ew_next_nonce s) v) (ew_tx_transfer_count s).
Definition set_transfer_count (v : gmap string nat) (s : EvmWallet W) : EvmWallet W :=
  mkEvmWallet (ew_world s) (ew_endpoint s) (ew_from_address s) (ew_contract_address s)
    (ew_next_nonce s) (store (ew_tx_transfer_count s) v).

Definition EvmWallet_new (w : W) (endpoint from_address contract_address : string)
    : EvmWallet W :=
  mkEvmWallet w endpoint from_address contract_address (mkMutex false None) (mkMutex false ∅).

Definition call {T} (d : Json → option T) (method : string) (params : Json)
    : M (EvmWallet W) string T :=
  s ← get;
  on_world (rpc_call d (ew_endpoint s) method params).

Definition next_free_nonce (local_next : option N) (chain_pending : N) : N :=
  match local_next with
  | Some local_next => N.max local_next chain_pending
  | None => chain_pending
  end.

Definition reserve_nonce : M (EvmWallet W) string N :=
  s ← get;
  pending_hex ← call decode_string "eth_getTransactionCount"
                  (JArr [JStr (ew_from_address s); JStr "pending"]);
  chain_pending ← lift_result (parse_hex_u64 pending_hex);
  s ← get;
  guard ← lift_result (result_map_err (λ _, "nonce lock poisoned") (lock (ew_next_nonce s)));
  let nonce := next_free_nonce guard chain_pending in
  modify (set_next_nonce (Some (sat_add u64_max nonce 1)));;
  mret nonce.

Definition evm_submit_transfer (request : SettlementTransferRequest)
    : M (EvmWallet W) string string :=
  let value_hex := format_0x (tq_amount request) in
  nonce ← reserve_nonce;
  let nonce_hex := format_0x nonce in
  s ← get;
  call decode_string "eth_sendTransaction"
    (JArr [JObj [("from", JStr (ew_from_address s)); ("to", JStr (tq_to_address request));
                 ("value", JStr value_hex); ("nonce", JStr nonce_hex)]]).

(** Confirmations and success of a mined transaction. *)
Definition receipt_outcome (receipt : EthTransactionReceipt)
    : M (EvmWallet W) string (SettlementTxStatus * N) :=
  latest_block_hex ← call decode_string "eth_blockNumber" (JArr []);
  latest_block ← lift_result (parse_hex_u64 latest_block_hex);
  receipt_block ← lift_result (transpose parse_hex_u64 (er_block_number receipt));
  let confirmations :=
    sat_add u64_max (sat_sub latest_block (default 0 receipt_block)) 1 in
  status ← lift_result (transpose parse_hex_u64 (er_status receipt));
  let success := default false ((λ v, v =? 1) <$> status) in
  mret (if success then TxConfirmed else TxFailed, confirmations).

Definition evm_get_transfer_receipt (tx_hash : string)
    : M (EvmWallet W) string SettlementTransferReceipt :=
  receipt ← call (decode_option decode_receipt) "eth_getTransactionReceipt"
              (JArr [JStr tx_hash]);
  match receipt with
  | None => mret (mkReceipt tx_hash TxPending 0)
  | Some receipt =>
      '(status, confirmations) ← receipt_outcome receipt;
      mret (mkReceipt tx_hash status confirmations)
  end.

#[export] Instance ReqwestEvmSettlementWalletAdapter : SettlementWalletAdapter (EvmWallet W) := {
  submit_transfer := evm_submit_transfer;
  get_transfer_receipt := evm_get_transfer_receipt;
}.

(** ** Batches *)

Definition build_settlement_batch_id (room_id : RoomId) (hand_id : HandId) : list N :=
  keccak256 (uuid_bytes room_id ++ uuid_bytes hand_id).

Fixpoint recipients (transfers : list SettlementTransferRequest)
    : result string (list Address) :=
  match transfers with
  | [] => Ok []
  | t :: transfers =>
      a ← result_map_err (λ e, "invalid recipient address " +:+ tq_to_address t +:+ ": " +:+ e)
            (parse_address (tq_to_address t));
      rest ← recipients transfers;
      Ok (a :: rest)
  end.

Definition encode_batch_settlement_call (request : BatchSettlementTransferRequest)
    : result string string :=
  to ← recipients (bq_transfers request);
  let amounts := map tq_amount (bq_transfers request) in
  let settlement_id := build_settlement_batch_id (bq_room_id request) (bq_hand_id request) in
  data ← result_map_err (λ e, "abi encode failed: " +:+ e)
           (encode_settle_batch to amounts settlement_id);
  Ok ("0x" +:+ hex_encode data).

Definition evm_submit_batch_transfer (request : BatchSettlementTransferRequest)
    : M (EvmWallet W) string string :=
  match bq_transfers request with
  | [] => throw "batch transfer list cannot be empty"
  | _ =>
      total_value ← lift_result
        (result_map_err (λ e, "batch payout total overflow: " +:+ money_error_text e)
           (checked_sum ChipsOps.ZERO (map tq_amount (bq_transfers request))));
      data ← lift_result (encode_batch_settlement_call request);
      nonce ← reserve_nonce;
      let nonce_hex := format_0x nonce in
      let value_hex := format_0x total_value in
      s ← get;
      tx_hash ← call decode_string "eth_sendTransaction"
        (JArr [JObj [("from", JStr (ew_from_address s)); ("to", JStr (ew_contract_address s));
                     ("value", JStr value_hex); ("data", JStr data);
                     ("nonce", JStr nonce_hex)]]);
      s ← get;
      counts ← lift_result (result_map_err (λ _, "tx_transfer_count lock poisoned")
                              (lock (ew_tx_transfer_count s)));
      modify (set_transfer_count (<[tx_hash := length (bq_transfers request)]> counts));;
      mret tx_hash
  end.

(** [lock().ok().and_then(|m| m.get(tx_hash).copied()).unwrap_or(0)] *)
Definition applied_count (tx_hash : string) (s : EvmWallet W) : nat :=
  lock_or (ew_tx_transfer_count s) 0%nat (λ m, default 0%nat (m !! tx_hash)).

Definition evm_get_batch_transfer_receipt (tx_hash : string)
    : M (EvmWallet W) string BatchSettlementTransferReceipt :=
  receipt ← call (decode_option decode_receipt) "eth_getTransactionReceipt"
              (JArr [JStr tx_hash]);
  match receipt with
  | None =>
      s ← get;
      mret (mkBatchReceipt tx_hash TxPending 0 (applied_count tx_hash s))
  | Some receipt =>
      '(status, confirmations) ← receipt_outcome receipt;
      s ← get;
      mret (mkBatchReceipt tx_hash status confirmations (applied_count tx_hash s))
  end.

#[export] Instance ReqwestEvmBatchSettlementWalletAdapter :
    BatchSettlementWalletAdapter (EvmWallet W) := {
  submit_batch_transfer := evm_submit_batch_transfer;
  get_batch_transfer_receipt := evm_get_batch_transfer_receipt;
}.
End Wallet.
