(* ===== verification/ChainWatcher.v ===== *)
(** The chain watcher ([chain-watcher/src/lib.rs]): querying a transaction with
    retries, its classification against what was expected, and the dispatch of the
    verdict.

    The node is the transport of [JsonRpc], the timer the class [Timer]. A client
    of another kind is any instance of [EvmLikeTxRpcClient]. *)

From stdpp Require Import base tactics option list strings pretty.
From Stdlib Require Import NArith ZArith Lia.
From S2P Require Import Prelude.
From S2P Require Import Text.
From S2P Require Import Domain.
From S2P Require Import JsonRpc.

Local Open Scope N_scope.

Inductive ChainWatcherError :=
| UnsupportedRpc
| CallbackSink (message : string)
| Http (message : string)
| Rpc (message : string)
| Parse (message : string).

Inductive VerificationStatus := VPending | VMatched | VLate | VUnmatched | VFailed.
#[export] Instance VerificationStatus_eq_dec : EqDecision VerificationStatus.
Proof. solve_decision. Defined.

Record TxVerificationInput := mkTxVerificationInput {
  vi_room_id : RoomId;
  vi_hand_id : option HandId;
  vi_seat_id : option SeatId;
  vi_action_seq : option N;
  vi_tx_hash : string;
  vi_expected_to : string;
  vi_expected_from : option string;
  vi_expected_amount : option Chips;
  vi_min_confirmations : N;
}.

Record TxVerificationResult := mkTxVerificationResult {
  vr_tx_hash : string;
  vr_status : VerificationStatus;
  vr_confirmations : N;
  vr_failure_reason : option string;
}.

Record TxVerificationCallback := mkTxVerificationCallback {
  vc_room_id : RoomId;
  vc_hand_id : option HandId;
  vc_seat_id : option SeatId;
  vc_action_seq : option N;
  vc_tx_hash : string;
  vc_status : VerificationStatus;
  vc_confirmations : N;
  vc_failure_reason : option string;
}.

Record ObservedTx := mkObservedTx {
  ob_tx_hash : string;
  ob_from : string;
  ob_to : string;
  ob_value : Chips;
  ob_success : bool;
  ob_confirmations : N;
}.

Class VerificationCallbackSink (W : Type) := {
  on_verification_result : TxVerificationCallback → M W ChainWatcherError unit;
}.

Class EvmLikeTxRpcClient (W : Type) := {
  get_tx : string → M W ChainWatcherError (option ObservedTx);
}.

(** [tokio::time::sleep] *)
Class Timer (W : Type) := { sleep_ms : N → W → W }.

(** ** Classification *)

(** What all verdicts share: the hash asked for and the confirmations seen. *)
Definition verdict (input : TxVerificationInput) (observed : ObservedTx)
    (status : VerificationStatus) (reason : option string) : TxVerificationResult :=
  mkTxVerificationResult (vi_tx_hash input) status (ob_confirmations observed) reason.

Definition check_tx_status_and_identity (input : TxVerificationInput) (observed : ObservedTx)
    : option TxVerificationResult :=
  if negb (String.eqb (ob_tx_hash observed) (vi_tx_hash input))
  then Some (verdict input observed VFailed (Some "tx_hash_mismatch"%string))
  else if negb (ob_success observed)
  then Some (verdict input observed VFailed (Some "tx_failed"%string))
  else None.

Inductive ConfirmationDecision := DecisionPending | DecisionConfirmed.

Definition evaluate_confirmations (min_confirmations observed_confirmations : N)
    : ConfirmationDecision :=
  if observed_confirmations <? min_confirmations then DecisionPending else DecisionConfirmed.

(** [if let Some(expected) = .. && observed != expected] *)
Definition differs {A} (eqb : A → A → bool) (observed : A) (expected : option A) : bool :=
  match expected with
  | Some expected => negb (eqb observed expected)
  | None => false
  end.

Definition check_tx_fields (input : TxVerificationInput) (observed : ObservedTx)
    : option TxVerificationResult :=
  if negb (String.eqb (ob_to observed) (vi_expected_to input))
  then Some (verdict input observed VUnmatched (Some "to_mismatch"%string))
  else if differs String.eqb (ob_from observed) (vi_expected_from input)
  then Some (verdict input observed VUnmatched (Some "from_mismatch"%string))
  else if differs N.eqb (ob_value observed) (vi_expected_amount input)
  then Some (verdict input observed VUnmatched (Some "value_mismatch"%string))
  else None.

Definition is_none {A} (o : option A) : bool := match o with None => true | Some _ => false end.

Definition classify_tx_verification (input : TxVerificationInput) (observed : ObservedTx)
    : TxVerificationResult :=
  match check_tx_status_and_identity input observed with
  | Some r => r
  | None =>
      match evaluate_confirmations (vi_min_confirmations input) (ob_confirmations observed) with
      | DecisionPending => verdict input observed VPending None
      | DecisionConfirmed =>
          match check_tx_fields input observed with
          | Some r => r
          | None =>
              if is_none (vi_hand_id input) || is_none (vi_action_seq input)
              then verdict input observed VLate (Some "missing_binding_context"%string)
              else verdict input observed VMatched None
          end
      end
  end.

(** ** Retries *)

Record RetryPolicy := mkRetryPolicy {
  rp_max_attempts : N;
  rp_base_backoff_ms : N;
  rp_max_backoff_ms : N;
}.
Definition RetryPolicy_default : RetryPolicy := mkRetryPolicy 5 300 5000.

(** [2_u64.saturating_pow(attempt_no.min(10))], then two saturating steps. *)
Definition backoff_ms (policy : RetryPolicy) (attempt_no : N) : N :=
  let factor := N.min u64_max (2 ^ N.min attempt_no 10) in
  N.min (sat_mul u64_max (rp_base_backoff_ms policy) factor) (rp_max_backoff_ms policy).

Section Watcher.
Context {W : Type} `{EvmLikeTxRpcClient W} `{Timer W}.

Definition sleep (ms : N) : M W ChainWatcherError unit := modify (sleep_ms ms).

(** [for attempt in attempt..max_attempts]; [rounds] are left. *)
Fixpoint query_loop (tx_hash : string) (policy : RetryPolicy) (attempt : N) (rounds : nat)
    : M W ChainWatcherError (option ObservedTx) :=
  match rounds with
  | O => mret None
  | S rounds =>
      found ← get_tx tx_hash;
      match found with
      | Some tx => mret (Some tx)
      | None =>
          M_when (attempt + 1 <? rp_max_attempts policy) (sleep (backoff_ms policy attempt));;
          query_loop tx_hash policy (attempt + 1) rounds
      end
  end.

Definition query_tx_with_retry (tx_hash : string) (policy : RetryPolicy)
    : M W ChainWatcherError (option ObservedTx) :=
  query_loop tx_hash policy 0 (N.to_nat (rp_max_attempts policy)).

Definition verify_tx_with_retry (input : TxVerificationInput) (policy : RetryPolicy)
    : M W ChainWatcherError TxVerificationResult :=
  observed ← query_tx_with_retry (vi_tx_hash input) policy;
  match observed with
  | None =>
      mret (mkTxVerificationResult (vi_tx_hash input) VPending 0 (Some "tx_not_found"%string))
  | Some observed => mret (classify_tx_verification input observed)
  end.

Definition build_verification_callback (input : TxVerificationInput)
    (r : TxVerificationResult) : TxVerificationCallback :=
  mkTxVerificationCallback (vi_room_id input) (vi_hand_id input) (vi_seat_id input)
    (vi_action_seq input) (vr_tx_hash r) (vr_status r) (vr_confirmations r)
    (vr_failure_reason r).

Definition dispatch_verification_callback `{VerificationCallbackSink W}
    (input : TxVerificationInput) (r : TxVerificationResult) : M W ChainWatcherError unit :=
  on_verification_result (build_verification_callback input r).

(** [EvmChainWatcher::verify_and_dispatch]; the watcher is its client and policy. *)
Definition verify_and_dispatch `{VerificationCallbackSink W} (policy : RetryPolicy)
    (input : TxVerificationInput) : M W ChainWatcherError TxVerificationResult :=
  r ← verify_tx_with_retry input policy;
  dispatch_verification_callback input r;;
  mret r.
End Watcher.

(** [ChainWatcher::verify_tx], the placeholder. *)
Definition placeholder_verify_tx (input : TxVerificationInput) : TxVerificationResult :=
  mkTxVerificationResult (vi_tx_hash input) VPending 0 None.

(** ** The shipped client *)

Record WatcherRpcResponse (T : Type) := mkWatcherRpcResponse {
  wr_jsonrpc : string;
  wr_id : Json;
  wr_result : option T;
  wr_error : option JsonRpcError;
}.
Arguments mkWatcherRpcResponse {_} _ _ _ _.
Arguments wr_result {_} _.
Arguments wr_error {_} _.

Definition decode_watcher_response {T} (d : Json → option T) (j : Json)
    : option (WatcherRpcResponse T) :=
  if negb (is_object j) then None
  else
    jsonrpc ← required_field decode_string "jsonrpc" j;
    id ← required_field Some "id" j;
    r ← option_field d "result" j;
    error ← option_field decode_rpc_error "error" j;
    Some (mkWatcherRpcResponse jsonrpc id r error).

Record EthTransaction := mkEthTransaction {
  et_hash : string;
  et_from : string;
  et_to : option string;
  et_value : string;
  et_block_number : option string;
}.
Definition decode_transaction (j : Json) : option EthTransaction :=
  if negb (is_object j) then None
  else
    hash ← required_field decode_string "hash" j;
    from ← required_field decode_string "from" j;
    to ← option_field decode_string "to" j;
    value ← required_field decode_string "value" j;
    block_number ← option_field decode_string "blockNumber" j;
    Some (mkEthTransaction hash from to value block_number).

(** The receipt's status, the only field this client reads. *)
Definition decode_receipt_status (j : Json) : option (option string) :=
  if negb (is_object j) then None else option_field decode_string "status" j.

Definition parse_u64 (s : string) : result ChainWatcherError N :=
  result_map_err Parse (parse_hex_u64 s).
Definition parse_u128 (s : string) : result ChainWatcherError N :=
  result_map_err Parse (parse_hex_u128 s).

Section ShippedClient.
Context {W : Type} `{JsonRpcTransport W}.
Context (endpoint : string).

Definition watcher_rpc_reply {T} (d : Json → option T) (reply : Json)
    : result ChainWatcherError T :=
  match decode_watcher_response d reply with
  | None => Err (Http (decode_message reply))
  | Some payload =>
      match wr_error payload with
      | Some err =>
          Err (Rpc ("code=" +:+ pretty (je_code err) +:+ " message=" +:+ je_message err))
      | None => ok_or (Rpc "missing result") (wr_result payload)
      end
  end.

Definition watcher_rpc_call {T} (d : Json → option T) (method : string) (params : Json)
    : M W ChainWatcherError T :=
  reply ← M_map_err Http (post_json endpoint (rpc_body method params));
  lift_result (watcher_rpc_reply d reply).

(** [tx_block == 0 || latest_block < tx_block] has no confirmations. *)
Definition tx_confirmations (latest_block tx_block : N) : N :=
  if (tx_block =? 0) || (latest_block <? tx_block) then 0
  else sat_add u64_max (sat_sub latest_block tx_block) 1.

Definition shipped_get_tx (tx_hash : string) : M W ChainWatcherError (option ObservedTx) :=
  tx ← watcher_rpc_call (decode_option decode_transaction) "eth_getTransactionByHash"
         (JArr [JStr tx_hash]);
  match tx with
  | None => mret None
  | Some tx =>
      receipt ← watcher_rpc_call (decode_option decode_receipt_status)
                  "eth_getTransactionReceipt" (JArr [JStr tx_hash]);
      latest_block_hex ← watcher_rpc_call decode_string "eth_blockNumber" (JArr []);
      latest_block ← lift_result (parse_u64 latest_block_hex);
      tx_block ← lift_result (transpose parse_u64 (et_block_number tx));
      status ← lift_result (transpose parse_u64 (mjoin receipt));
      value ← lift_result (parse_u128 (et_value tx));
      mret (Some (mkObservedTx (et_hash tx) (et_from tx) (default ""%string (et_to tx)) value
                    (default true ((λ v, v =? 1) <$> status))
                    (tx_confirmations latest_block (default 0 tx_block))))
  end.

#[export] Instance ReqwestEvmJsonRpcClient : EvmLikeTxRpcClient W := { get_tx := shipped_get_tx }.
End ShippedClient.
