(* ===== verification/ChainWatcherProps.v ===== *)
(** Properties of the chain watcher: the classification of a transaction, the
    retries, and what the shipped client makes of an unknown transaction. *)

From stdpp Require Import base tactics option list strings.
From Stdlib Require Import NArith ZArith Lia.
From S2P Require Import Prelude.
From S2P Require Import Text.
From S2P Require Import Domain.
From S2P Require Import JsonRpc.
From S2P Require Import ChainWatcher.

Local Open Scope N_scope.

(** ** Classification *)

Definition authentic (input : TxVerificationInput) (observed : ObservedTx) : Prop :=
  ob_tx_hash observed = vi_tx_hash input ∧ ob_success observed = true.
Definition confirmed (input : TxVerificationInput) (observed : ObservedTx) : Prop :=
  vi_min_confirmations input ≤ ob_confirmations observed.
Definition as_expected (input : TxVerificationInput) (observed : ObservedTx) : Prop :=
  ob_to observed = vi_expected_to input ∧
  (∀ from, vi_expected_from input = Some from → ob_from observed = from) ∧
  (∀ amount, vi_expected_amount input = Some amount → ob_value observed = amount).
Definition bound_to_action (input : TxVerificationInput) : Prop :=
  is_Some (vi_hand_id input) ∧ is_Some (vi_action_seq input).

Lemma differs_spec {A} (eqb : A → A → bool) (Heqb : ∀ x y, reflect (x = y) (eqb x y)) x o :
  differs eqb x o = false ↔ ∀ y, o = Some y → x = y.
Proof.
  destruct o as [y|]; cbn; [|naive_solver].
  destruct (Heqb x y); cbn; naive_solver.
Qed.

Lemma status_and_identity_spec input observed :
  match check_tx_status_and_identity input observed with
  | None => authentic input observed
  | Some r => ¬ authentic input observed ∧ vr_status r = VFailed ∧
              vr_tx_hash r = vi_tx_hash input ∧
              vr_confirmations r = ob_confirmations observed ∧ is_Some (vr_failure_reason r)
  end.
Proof.
  unfold check_tx_status_and_identity, authentic.
  destruct (String.eqb_spec (ob_tx_hash observed) (vi_tx_hash input)), (ob_success observed);
    cbn; naive_solver.
Qed.

Lemma fields_spec input observed :
  match check_tx_fields input observed with
  | None => as_expected input observed
  | Some r => ¬ as_expected input observed ∧ vr_status r = VUnmatched ∧
              vr_tx_hash r = vi_tx_hash input ∧
              vr_confirmations r = ob_confirmations observed ∧ is_Some (vr_failure_reason r)
  end.
Proof.
  unfold check_tx_fields, as_expected.
  pose proof (differs_spec String.eqb String.eqb_spec (ob_from observed) (vi_expected_from input)) as Hf.
  pose proof (differs_spec N.eqb N.eqb_spec (ob_value observed) (vi_expected_amount input)) as Ha.
  destruct (String.eqb_spec (ob_to observed) (vi_expected_to input)); cbn; [|naive_solver].
  destruct (differs String.eqb _ _); [cbn; naive_solver|].
  destruct (differs N.eqb _ _); cbn; naive_solver.
Qed.

Lemma none_bound input :
  (is_none (vi_hand_id input) || is_none (vi_action_seq input)) = false ↔ bound_to_action input.
Proof.
  unfold bound_to_action. destruct (vi_hand_id input), (vi_action_seq input); cbn; split;
    intros; try done; destruct_and?; try done; try (by eauto); by destruct (is_Some_None (A:=N)).
Qed.

(** C20. The verdict on a transaction is the first of the tests that fails: a
    foreign or reverted transaction has failed, one without enough confirmations is
    pending whatever its fields, one that moves the wrong amount, or between the
    wrong parties, is unmatched, one that belongs to no action is late, and only
    what passes every test is matched. A reason is given exactly for the verdicts
    other than pending and matched, and every verdict carries the hash asked for
    and the confirmations seen. *)
Theorem classification_is_exact input observed :
  let r := classify_tx_verification input observed in
  vr_tx_hash r = vi_tx_hash input ∧ vr_confirmations r = ob_confirmations observed ∧
  (vr_status r = VFailed ↔ ¬ authentic input observed) ∧
  (vr_status r = VPending ↔ authentic input observed ∧ ¬ confirmed input observed) ∧
  (vr_status r = VUnmatched ↔
     authentic input observed ∧ confirmed input observed ∧ ¬ as_expected input observed) ∧
  (vr_status r = VLate ↔
     authentic input observed ∧ confirmed input observed ∧ as_expected input observed ∧
     ¬ bound_to_action input) ∧
  (vr_status r = VMatched ↔
     authentic input observed ∧ confirmed input observed ∧ as_expected input observed ∧
     bound_to_action input) ∧
  (vr_failure_reason r = None ↔ vr_status r = VPending ∨ vr_status r = VMatched).
Proof.
  unfold classify_tx_verification, evaluate_confirmations.
  pose proof (status_and_identity_spec input observed) as Hid.
  destruct (check_tx_status_and_identity input observed) as [r|].
  { destruct Hid as (Ha & Hs & -> & -> & [why ->]). rewrite Hs. naive_solver. }
  assert (vi_min_confirmations input ≤ ob_confirmations observed ↔ confirmed input observed)
    as Hc by done.
  destruct (N.ltb_spec (ob_confirmations observed) (vi_min_confirmations input)) as [Hlt|Hge].
  { apply N.lt_nge in Hlt. cbn. naive_solver. }
  pose proof (fields_spec input observed) as Hf.
  destruct (check_tx_fields input observed) as [r|].
  { destruct Hf as (Hn & Hs & -> & -> & [why ->]). rewrite Hs. naive_solver. }
  pose proof (none_bound input) as Hb.
  destruct (is_none _ || is_none _); cbn; naive_solver.
Qed.

(** ** Retries *)

(** A node that gives scripted answers, and a timer that keeps what it was told. *)
Record Script := mkScript {
  answers : list (result ChainWatcherError (option ObservedTx));
  asked : list string;
  slept : list N;
}.
#[export] Instance scripted_client : EvmLikeTxRpcClient Script :=
  {| get_tx := λ tx_hash w,
       match answers w with
       | [] => (mkScript [] (asked w ++ [tx_hash]) (slept w), Ok None)
       | a :: rest => (mkScript rest (asked w ++ [tx_hash]) (slept w), a)
       end |}.
#[export] Instance scripted_timer : Timer Script :=
  {| sleep_ms := λ ms w, mkScript (answers w) (asked w) (slept w ++ [ms]) |}.

(** The pauses after attempts [from], [from + 1], ... *)
Definition pauses (policy : RetryPolicy) (from : N) (k : nat) : list N :=
  map (λ i, backoff_ms policy (from + N.of_nat i)) (seq 0 k).

Lemma pauses_S policy from k :
  pauses policy from (S k) = backoff_ms policy from :: pauses policy (from + 1) k.
Proof.
  unfold pauses. cbn [seq map]. rewrite N.add_0_r. f_equal. rewrite <-seq_shift, map_map.
  apply map_ext. intros i. f_equal. lia.
Qed.

Lemma query_loop_answered tx_hash policy a rest k attempt rounds w :
  a ≠ Ok None → (k < rounds)%nat → attempt + N.of_nat rounds = rp_max_attempts policy →
  answers w = replicate k (Ok None) ++ a :: rest →
  query_loop tx_hash policy attempt rounds w
  = (mkScript rest (asked w ++ replicate (S k) tx_hash) (slept w ++ pauses policy attempt k), a).
Proof.
  intros Ha. revert attempt rounds w. induction k as [|k IH]; intros attempt rounds w Hk Hr Hw;
    (destruct rounds as [|rounds]; [lia|]); cbn [query_loop]; mrun; cbn [get_tx scripted_client];
    rewrite Hw; cbn [replicate app].
  - rewrite app_nil_r. by destruct a as [[tx|]|e].
  - rewrite (proj2 (N.ltb_lt _ _)) by lia. unfold sleep. mrun. cbn [sleep_ms scripted_timer].
    rewrite (IH (attempt + 1)) by (try done; lia). cbn [answers asked slept].
    rewrite pauses_S, <-!app_assoc. done.
Qed.

Lemma query_loop_exhausted tx_hash policy rest attempt rounds w :
  attempt + N.of_nat rounds = rp_max_attempts policy →
  answers w = replicate rounds (Ok None) ++ rest →
  query_loop tx_hash policy attempt rounds w
  = (mkScript rest (asked w ++ replicate rounds tx_hash)
       (slept w ++ pauses policy attempt (pred rounds)), Ok None).
Proof.
  revert attempt w. induction rounds as [|rounds IH]; intros attempt w Hr Hw; cbn [query_loop]; mrun.
  - cbn in Hw. rewrite <-Hw, !app_nil_r. by destruct w.
  - cbn [get_tx scripted_client]. rewrite Hw. cbn [replicate app].
    destruct rounds as [|rounds].
    + rewrite (proj2 (N.ltb_ge _ _)) by lia. cbn [query_loop]. mrun. cbn. by rewrite app_nil_r.
    + rewrite (proj2 (N.ltb_lt _ _)) by lia. unfold sleep. mrun. cbn [sleep_ms scripted_timer].
      rewrite (IH (attempt + 1)) by (try done; lia). cbn [answers asked slept pred].
      rewrite pauses_S, <-!app_assoc. done.
Qed.

Lemma backoff_bounds policy i j :
  i ≤ j → backoff_ms policy i ≤ backoff_ms policy j ∧ backoff_ms policy j ≤ rp_max_backoff_ms policy.
Proof.
  intros Hij. unfold backoff_ms, sat_mul. split; [|lia].
  assert (2 ^ N.min i 10 ≤ 2 ^ N.min j 10) as Hp by (apply N.pow_le_mono_r; lia).
  apply N.min_le_compat_r, N.min_le_compat_l, N.mul_le_mono_l, N.min_le_compat_l, Hp.
Qed.

(** A query asks the node again only while it does not know the transaction:
    the first other answer, a failure included, is the result; after the last
    attempt allowed the result is that nothing was found, and there is no pause
    after it. The pauses between the attempts never shrink and never exceed the
    policy's bound, whatever overflows on the way. *)
Theorem query_retries_until_answered tx_hash policy w k a rest
    (Hanswers : answers w = replicate k (Ok None) ++ a :: rest) (Ha : a ≠ Ok None) :
  query_tx_with_retry tx_hash policy w
  = (if decide (N.of_nat k < rp_max_attempts policy)
     then (mkScript rest (asked w ++ replicate (S k) tx_hash)
             (slept w ++ pauses policy 0 k), a)
     else let n := N.to_nat (rp_max_attempts policy) in
          (mkScript (drop n (answers w)) (asked w ++ replicate n tx_hash)
             (slept w ++ pauses policy 0 (pred n)), Ok None)) ∧
  (∀ i j, i ≤ j → backoff_ms policy i ≤ backoff_ms policy j ∧
                  backoff_ms policy j ≤ rp_max_backoff_ms policy).
Proof.
  split; [|apply backoff_bounds]. unfold query_tx_with_retry. case_decide as Hk.
  - apply query_loop_answered; [done|lia|lia|done].
  - apply query_loop_exhausted; [lia|]. rewrite <-(take_drop (N.to_nat (rp_max_attempts policy)) (answers w)) at 1.
    f_equal. rewrite Hanswers, take_app_le by (rewrite length_replicate; lia).
    rewrite take_replicate. f_equal. lia.
Qed.

Definition demo_tx : ObservedTx := mkObservedTx "0xaa" "0xfrom" "0xto" 5 true 3.

Lemma query_retries_until_answered_witness :
  query_tx_with_retry "0xaa" RetryPolicy_default
    (mkScript [Ok None; Ok None; Ok (Some demo_tx)] [] [])
  = (mkScript [] ["0xaa"; "0xaa"; "0xaa"]%string [300; 600], Ok (Some demo_tx)).
Proof.
  etransitivity;
    [refine (proj1 (query_retries_until_answered "0xaa" RetryPolicy_default
       (mkScript [Ok None; Ok None; Ok (Some demo_tx)] [] []) 2 (Ok (Some demo_tx)) [] _ _));
     [reflexivity|discriminate]|].
  vm_compute. reflexivity.
Defined.

(** ** The shipped client *)

Lemma null_reply_is_missing {W} `{JsonRpcTransport W} {T} (d : Json → option T) fields version id :
  assoc_field "jsonrpc" fields = Some (JStr version) → assoc_field "id" fields = Some id →
  assoc_field "result" fields = Some JNull → assoc_field "error" fields = None →
  watcher_rpc_reply d (JObj fields) = Err (Rpc "missing result").
Proof.
  intros Hv Hi Hr He.
  unfold watcher_rpc_reply, decode_watcher_response, option_field, required_field, json_get.
  cbn. by rewrite Hv, Hi, Hr, He.
Qed.

(** With the shipped client the retries never happen: a node that does not
    know the transaction answers null, which the client reports as an error, so a
    verification asks once, never pauses, and fails where the watcher would have
    found the transaction pending. *)
Theorem shipped_client_never_retries `{JsonRpcTransport W} `{Timer W} endpoint input policy
    (w w' : W) fields version id
    (Hmax : 0 < rp_max_attempts policy)
    (Hreply : post_json endpoint
                (rpc_body "eth_getTransactionByHash" (JArr [JStr (vi_tx_hash input)])) w
              = (w', Ok (JObj fields)))
    (Hversion : assoc_field "jsonrpc" fields = Some (JStr version))
    (Hid : assoc_field "id" fields = Some id)
    (Hnull : assoc_field "result" fields = Some JNull)
    (Herr : assoc_field "error" fields = None) :
  verify_tx_with_retry (H := ReqwestEvmJsonRpcClient endpoint) input policy w
  = (w', Err (Rpc "missing result")).
Proof.
  unfold verify_tx_with_retry, query_tx_with_retry.
  destruct (N.to_nat (rp_max_attempts policy)) as [|rounds] eqn:Hr; [lia|].
  cbn [query_loop]. mrun. cbn [get_tx ReqwestEvmJsonRpcClient]. unfold shipped_get_tx, watcher_rpc_call.
  mrun. rewrite Hreply. cbn [result_map_err]. by rewrite (null_reply_is_missing _ _ _ _ Hversion Hid).
Qed.

Definition null_reply : list (string * Json) :=
  [("jsonrpc", JStr "2.0"); ("id", JNum 1); ("result", JNull)]%string.
#[local] Instance null_node : JsonRpcTransport Script :=
  {| post_json := λ _ _ w, (w, Ok (JObj null_reply)); decode_message := λ _, "decode error"%string |}.

Lemma shipped_client_never_retries_witness :
  let input := mkTxVerificationInput 1 (Some 2) None (Some 3) "0xaa" "0xto" None None 1 in
  verify_tx_with_retry (H := ReqwestEvmJsonRpcClient "http://node") input RetryPolicy_default
    (mkScript [] [] [])
  = (mkScript [] [] [], Err (Rpc "missing result")).
Proof.
  intros input.
  refine (shipped_client_never_retries "http://node" input RetryPolicy_default _ _ null_reply
    "2.0" (JNum 1) _ _ _ _ _ _); reflexivity.
Defined.
