(* ===== verification/SettlementProps.v ===== *)
(** What settlement promises: plans conserve chips and split them fairly, the
    ledger entries of a plan add up, payouts go to the winners in order, receipts
    are not believed too early, and the wallets' quantities and nonces are sound. *)

From stdpp Require Import base tactics option list gmap strings sorting.
From Stdlib Require Import NArith ZArith Lia.
From S2P Require Import Prelude.
From S2P Require Import Ambient.
From S2P Require Import Domain.
From S2P Require Import LedgerStore.
From S2P Require Import Settlement.
From S2P Require Import SettlementPlans.
From S2P Require Import SettlementService.
From S2P Require Import Text.
From S2P Require Import JsonRpc.
From S2P Require Import EvmWallet.

Local Open Scope N_scope.

(** ** Plans *)

(** A plan built from the winners of one pot always exists for a rake of at
    most 100%, pays exactly the pot less the rake, rounded down, to the distinct
    winners in seat order, and any two shares differ by at most one chip. *)
Theorem plan_from_winners_is_exact room hand pot winners policy
    (Hw : winners ≠ []) (Hr : rake_bps policy ≤ 10000)
    (Hfit : pot * rake_bps policy ≤ u128_max) :
  ∃ plan, build_plan_from_winners room hand pot winners policy = Ok plan ∧
    pn_rake_amount plan = pot * rake_bps policy / 10000 ∧
    map po_seat_id (pn_payouts plan) = sort_dedup winners ∧
    pn_rake_amount plan + paid_total (pn_payouts plan) = pot ∧
    ∀ i j p q, pn_payouts plan !! i = Some p → pn_payouts plan !! j = Some q →
      po_amount p ≤ po_amount q + 1.
Proof.
  unfold build_plan_from_winners.
  pose proof (rake_exact policy pot Hr Hfit) as Hrake.
  pose proof (rake_le _ _ _ Hrake) as Hle.
  destruct (sort_dedup winners) as [|w ws] eqn:Hs; [by apply (proj1 (sort_dedup_nil _)) in Hs|].
  rewrite Hrake. mrun. unfold ChipsOps.checked_sub, Prelude.checked_sub.
  rewrite (proj2 (N.leb_le _ _)) by done. cbn [ok_or]. eexists. split; [reflexivity|].
  cbn [pn_rake_amount pn_payouts].
  destruct (even_split_imap (pot - pot * rake_bps policy / 10000) (w :: ws)) as (H1 & H2 & H3);
    [done|].
  split; [done|]. split; [done|]. split; [rewrite H2; lia|].
  intros i j p q Hi%H3 Hj%H3. rewrite Hi, Hj. unfold share.
  do 2 destruct (_ <? _); lia.
Qed.

Lemma plan_from_winners_is_exact_witness :
  ∃ plan, build_plan_from_winners 1 2 1000 [5; 3; 5; 8] RakePolicy_three_percent = Ok plan ∧
    pn_rake_amount plan + paid_total (pn_payouts plan) = 1000.
Proof.
  destruct (plan_from_winners_is_exact 1 2 1000 [5; 3; 5; 8] RakePolicy_three_percent)
    as (plan & H1 & _ & _ & H2 & _).
  - discriminate.
  - vm_compute. discriminate.
  - vm_compute. discriminate.
  - exists plan. split; [exact H1|exact H2].
Defined.

(** C7. A plan built from the pots never pays more than was awarded: the rake and
    the payouts together are at most the total of the pots that have winners, and
    are exactly that total whenever its square fits in 128 bits; only winners are
    paid, and never an empty amount. It fails only on a rake above 100%, on a
    winner who is not eligible for the pot, or on a total above 128 bits. *)
Theorem plan_from_pots_conserves_chips room hand pots policy :
  let total := awarded_total pots in
  match build_plan_from_pot_awards room hand pots policy with
  | Ok plan =>
      pn_rake_amount plan + paid_total (pn_payouts plan) ≤ total ∧
      (total * total ≤ u128_max → pn_rake_amount plan + paid_total (pn_payouts plan) = total) ∧
      Forall (λ p, 0 < po_amount p) (pn_payouts plan) ∧
      (∀ seat, seat ∈ map po_seat_id (pn_payouts plan) →
         ∃ pot, pot ∈ pots ∧ seat ∈ pa_winner_seats pot)
  | Err (EMoney e) => e = Overflow ∧ u128_max < total
  | Err (InvalidPotAward _) => ∃ pot, pot ∈ pots ∧ ¬ award_valid pot
  | Err (InvalidRakePolicy _) => 10000 < rake_bps policy
  | Err _ => False
  end.
Proof.
  intros total. pose proof (plan_from_pots_spec room hand pots policy) as Hs. cbn zeta in Hs.
  fold total in Hs. destruct (build_plan_from_pot_awards _ _ _ _) as [plan|[]]; try done.
  destruct Hs as (Hb & _ & _ & Hseats & Hpos & Hcases).
  destruct Hcases as [(-> & -> & ->)|(Hrake & Hgt & Hle & Heq)].
  - split; [done|]. split; [done|]. split; [constructor|]. cbn. set_solver.
  - split; [done|]. split; [|done]. intros Hfit. apply Heq. nia.
Qed.

Lemma single_pot_gross seat pot :
  0 < pot → pot ≤ u128_max →
  award_pots ∅ [mkPotAward pot [seat] [seat]] = Ok (<[seat := pot]> ∅) ∧
  gross_payouts_of (<[seat := pot]> ∅) = [mkPayout seat pot].
Proof.
  intros Hp Hb. split.
  - cbn [award_pots pa_award pa_eligible_seats pa_winner_seats].
    rewrite (proj2 (N.eqb_neq pot ChipsOps.ZERO)) by (unfold ChipsOps.ZERO; lia).
    change (sort_dedup [seat]) with [seat]. cbn [forallb].
    rewrite bool_decide_true by constructor. cbn [andb negb split_amount_deterministic length imap].
    change (N.of_nat 1) with 1. rewrite N.div_1_r, N.mod_1_r.
    change (share pot 0 0) with (pot + 0). rewrite N.add_0_r.
    cbn [add_gross po_seat_id po_amount]. rewrite lookup_empty.
    unfold ChipsOps.checked_add, Prelude.checked_add.
    change (default ChipsOps.ZERO None + pot) with pot.
    by rewrite (proj2 (N.leb_le _ _)).
  - unfold gross_payouts_of. rewrite insert_empty, map_to_list_singleton. done.
Qed.

(** The apportionment multiplies in 128 bits and saturates: a pot above 2^64
    chips with a single winner and no rake is not paid out in full. *)
Theorem large_pot_is_underpaid room hand seat pot
    (Hpot : 2 ^ 64 < pot) (Hb : pot ≤ u128_max) :
  ∃ plan, build_plan_from_pot_awards room hand [mkPotAward pot [seat] [seat]] RakePolicy_zero
          = Ok plan ∧
    pn_rake_amount plan = 0 ∧ paid_total (pn_payouts plan) < pot.
Proof.
  assert (2 ^ 64 = 18446744073709551616) as H64 by done. rewrite H64 in Hpot.
  destruct (single_pot_gross seat pot) as [Ha Hg]; [lia|done|].
  unfold build_plan_from_pot_awards. rewrite Ha. mrun. rewrite Hg. cbn [map po_amount].
  rewrite checked_sum_spec by done. cbn [nsum]. rewrite N.add_0_r.
  change (ChipsOps.ZERO + pot) with pot. rewrite decide_True by done.
  change ChipsOps.ZERO with 0. rewrite (proj2 (N.eqb_neq pot 0)) by lia.
  unfold rake_amount_for, sat_mul. cbn [rake_bps RakePolicy_zero]. rewrite N.mul_0_r.
  change (N.min u128_max 0 / 10000) with 0. change (10000 <? 0) with false.
  unfold ChipsOps.checked_sub, Prelude.checked_sub. rewrite (proj2 (N.leb_le 0 pot)) by lia.
  cbn [ok_or]. rewrite N.sub_0_r.
  assert (paid_total [mkPayout seat pot] = pot) as Hpt by (unfold paid_total; cbn; lia).
  rewrite (apportion_unfold _ _ pot) by (congruence || lia). cbn zeta.
  eexists. split; [reflexivity|]. cbn [pn_rake_amount pn_payouts]. split; [done|].
  unfold paid_total. rewrite map_map. cbn [po_amount].
  change (map (λ r, row_amount r)) with (map row_amount). rewrite nsum_filter_pos.
  unfold sort_by_key. fold (rows_total (sort_by (λ x y, row_seat x <=? row_seat y)
    (hand_out (sat_sub pot (foldl (sat_add u128_max) 0
       (map row_amount (map (weighted_row pot pot) [mkPayout seat pot]))))
       (sort_by row_le (map (weighted_row pot pot) [mkPayout seat pot]))))).
  rewrite (rows_total_perm _ _ (sort_by_perm _ _)). cbn [map sort_by insert_by].
  assert (u128_max / pot + 1 < pot) as Hdiv.
  { assert (u128_max / pot ≤ 18446744073709551615) as Hd; [|lia].
    apply N.Div0.div_le_upper_bound. unfold u128_max. lia. }
  assert (row_amount (weighted_row pot pot (mkPayout seat pot)) = u128_max / pot) as Hrow.
  { unfold row_amount, weighted_row, sat_mul. cbn [fst snd po_amount].
    rewrite N.min_l; [done|]. unfold u128_max. nia. }
  rewrite hand_out_total.
  - unfold rows_total. cbn [map nsum length]. rewrite Hrow. lia.
  - right. constructor; [|constructor]. rewrite Hrow. lia.
Qed.

Lemma large_pot_is_underpaid_witness :
  ∃ plan, build_plan_from_pot_awards 1 2 [mkPotAward 20000000000000000000 [4] [4]] RakePolicy_zero
          = Ok plan ∧ paid_total (pn_payouts plan) < 20000000000000000000.
Proof.
  destruct (large_pot_is_underpaid 1 2 4 20000000000000000000) as (plan & H1 & _ & H2).
  - by vm_compute.
  - by vm_compute.
  - exists plan. split; [exact H1|exact H2].
Defined.

(** ** Ledger entries *)

Definition entries_with (dir : LedgerDirection) (l : list LedgerEntryInsert) : N :=
  nsum (map (λ e, match le_direction e, dir with
                  | Debit, Debit | Credit, Credit => le_amount e
                  | _, _ => 0
                  end) l).

Lemma plan_entries_credit plan t : entries_with Credit (plan_entries plan t) = pn_rake_amount plan.
Proof.
  unfold entries_with, plan_entries. rewrite map_app, nsum_app, map_map. cbn.
  rewrite nsum_map_const, N.mul_0_l, N.add_0_r. unfold ChipsOps.ZERO.
  destruct (N.eqb_spec (pn_rake_amount plan) 0) as [->|]; cbn; lia.
Qed.

Lemma plan_entries_debit plan t :
  entries_with Debit (plan_entries plan t) = paid_total (pn_payouts plan).
Proof.
  unfold entries_with, plan_entries. rewrite map_app, nsum_app, map_map. cbn.
  destruct (_ =? _); cbn; done.
Qed.

(** Recording a plan appends to the ledger one credit of the rake, unless it
    is zero, and one debit of the pot for each payout: the credits add up to the
    rake, the debits to the payouts, and every entry names the plan's hand. *)
Theorem recorded_plan_adds_up (plan : SettlementPlan) (trace_id : TraceId)
    (ledger : InMemoryLedgerRepository) (Hlock : mx_poisoned ledger = false) :
  ∃ entries, record_plan plan trace_id ledger
             = (mkMutex false (mx_value ledger ++ entries), Ok tt) ∧
    entries_with Credit entries = pn_rake_amount plan ∧
    entries_with Debit entries = paid_total (pn_payouts plan) ∧
    Forall (λ e, le_room_id e = Some (pn_room_id plan) ∧ le_hand_id e = Some (pn_hand_id plan))
      entries ∧
    length entries = (length (pn_payouts plan)
                      + (if decide (pn_rake_amount plan = 0%N) then 0 else 1))%nat.
Proof.
  exists (plan_entries plan trace_id). split.
  { unfold record_plan, insert_entries, in_memory_ledger, lock, store. mrun. by rewrite Hlock. }
  split; [apply plan_entries_credit|]. split; [apply plan_entries_debit|].
  unfold plan_entries, ChipsOps.ZERO. split.
  - apply Forall_app. split.
    + destruct (_ =? _); repeat constructor.
    + apply Forall_forall. intros e He. by apply list_elem_of_In, in_map_iff in He as (p & <- & _).
  - rewrite length_app, length_map.
    destruct (N.eqb_spec (pn_rake_amount plan) 0); case_decide; cbn [length]; done || lia.
Qed.

Lemma recorded_plan_adds_up_witness :
  let plan := mkPlan 1 2 30 [mkPayout 3 500; mkPayout 5 470] in
  ∃ entries, record_plan plan 9 (mkMutex false [] : InMemoryLedgerRepository)
             = (mkMutex false entries, Ok tt) ∧ entries_with Debit entries = 970.
Proof.
  destruct (recorded_plan_adds_up (mkPlan 1 2 30 [mkPayout 3 500; mkPayout 5 470]) 9
    (mkMutex false [])) as (entries & H1 & _ & H2 & _); [reflexivity|].
  exists entries. split; [exact H1|exact H2].
Defined.

(** ** Payouts *)
Section PayoutProps.
Context {W : Type}.

(** The payouts that move chips. *)
Definition due (plan : SettlementPlan) : list SettlementPayout :=
  filter (λ p, po_amount p ≠ 0) (pn_payouts plan).

Definition pay_one `{SettlementWalletAdapter W} (plan : SettlementPlan)
    (addresses : gmap SeatId string) (p : SettlementPayout)
    : M W SettlementError SettlementTransferSubmission :=
  tx_hash ← M_map_err WalletAdapter
              (submit_transfer (transfer_request plan p (default "" (addresses !! po_seat_id p))));
  mret (mkSubmission (po_seat_id p) tx_hash).

Lemma pay_one_run `{SettlementWalletAdapter W} plan (addresses : gmap SeatId string) p a (w : W) :
  addresses !! po_seat_id p = Some a →
  pay_one plan addresses p w
  = match submit_transfer (transfer_request plan p a) w with
    | (w', Ok h) => (w', Ok (mkSubmission (po_seat_id p) h))
    | (w', Err e) => (w', Err (WalletAdapter e))
    end.
Proof. intros Ha. unfold pay_one. rewrite Ha. mrun. by destruct (submit_transfer _ w) as [? []]. Qed.

Lemma direct_loop_zero `{SettlementWalletAdapter W} plan addresses p l (w : W) :
  po_amount p = 0 → direct_loop plan addresses (p :: l) w = direct_loop plan addresses l w.
Proof. intros Hz. cbn [direct_loop]. by rewrite Hz. Qed.

Lemma direct_loop_pays `{SettlementWalletAdapter W} plan addresses l (w : W) :
  Forall (λ p, is_Some (addresses !! po_seat_id p)) (filter (λ p, po_amount p ≠ 0) l) →
  direct_loop plan addresses l w
  = M_map (pay_one plan addresses) (filter (λ p, po_amount p ≠ 0) l) w.
Proof.
  revert w. induction l as [|p l IH]; intros w; [done|]. rewrite filter_cons.
  destruct (decide (po_amount p ≠ 0)) as [Hz|Hz].
  - intros [[a Ha] Hl]%Forall_cons. cbn [direct_loop M_map].
    unfold ChipsOps.ZERO. rewrite (proj2 (N.eqb_neq _ _)) by done. rewrite Ha. mrun.
    rewrite (pay_one_run _ _ _ a) by done.
    destruct (submit_transfer _ w) as [w1 [h|e]]; [|done]. by rewrite IH.
  - intros Hl. assert (po_amount p = 0) as Hz2 by (destruct (decide (po_amount p = 0)); tauto).
    rewrite direct_loop_zero by done. by apply IH.
Qed.

Lemma direct_loop_stops `{SettlementWalletAdapter W} plan addresses l pre p post (w : W) :
  filter (λ p, po_amount p ≠ 0) l = pre ++ p :: post →
  Forall (λ p, is_Some (addresses !! po_seat_id p)) pre → addresses !! po_seat_id p = None →
  direct_loop plan addresses l w
  = match M_map (pay_one plan addresses) pre w with
    | (w', Ok _) => (w', Err (missing_address (po_seat_id p)))
    | (w', Err e) => (w', Err e)
    end.
Proof.
  revert w pre. induction l as [|q l IH]; intros w pre; [by destruct pre|]. rewrite filter_cons.
  destruct (decide (po_amount q ≠ 0)) as [Hz|Hz].
  - intros Heq Hpre Hp. cbn [direct_loop]. unfold ChipsOps.ZERO.
    rewrite (proj2 (N.eqb_neq _ _)) by done.
    destruct pre as [|q' pre]; injection Heq as -> Heq.
    + by rewrite Hp.
    + apply Forall_cons in Hpre as [[a Ha] Hpre]. rewrite Ha. cbn [M_map].
      mrun. rewrite (pay_one_run _ _ _ a) by done.
      destruct (submit_transfer _ w) as [w1 [h|e]]; [|done].
      rewrite (IH w1 pre Heq Hpre Hp). by destruct (M_map _ pre w1) as [? []].
  - intros Heq Hpre Hp.
    assert (po_amount q = 0) as Hz2 by (destruct (decide (po_amount q = 0)); tauto).
    rewrite direct_loop_zero by done. by apply IH.
Qed.

Lemma batch_transfers_spec plan addresses l :
  batch_transfers plan addresses l =
    match find (λ p, bool_decide (addresses !! po_seat_id p = None))
            (filter (λ p, po_amount p ≠ 0) l) with
    | Some p => Err (missing_address (po_seat_id p))
    | None => Ok (map (λ p, transfer_request plan p (default "" (addresses !! po_seat_id p)))
                    (filter (λ p, po_amount p ≠ 0) l))
    end.
Proof.
  induction l as [|p l IH]; [done|]. rewrite filter_cons. cbn [batch_transfers].
  unfold ChipsOps.ZERO. case_decide as Hz.
  - rewrite (proj2 (N.eqb_neq _ _)) by done. cbn [find map].
    destruct (addresses !! po_seat_id p) as [a|] eqn:Ha; cbn; [|done].
    mrun. rewrite IH. by destruct (find _ _).
  - assert (po_amount p = 0) as -> by (destruct (decide (po_amount p = 0)); tauto). done.
Qed.

Lemma first_missing (addresses : gmap SeatId string) pre p post :
  Forall (λ p, is_Some (addresses !! po_seat_id p)) pre → addresses !! po_seat_id p = None →
  find (λ q, bool_decide (addresses !! po_seat_id q = None)) (pre ++ p :: post) = Some p.
Proof.
  intros Hpre Hp. induction Hpre as [|q pre [a Ha] _ IH]; cbn.
  - by rewrite bool_decide_true.
  - by rewrite bool_decide_false by (by rewrite Ha).
Qed.

(** Direct payouts send one transfer per payout that moves chips, in order,
    and stop at the first seat without an address: what was sent before it stays
    sent. A batch looks up every address first and sends nothing at all when one
    is missing. *)
Theorem direct_payouts_stop_where_batches_refuse `{SettlementWalletAdapter W}
    `{BatchSettlementWalletAdapter W} plan addresses pre p post (w : W)
    (Hdue : due plan = pre ++ p :: post)
    (Hpre : Forall (λ p, is_Some (addresses !! po_seat_id p)) pre)
    (Hp : addresses !! po_seat_id p = None) :
  submit_direct_payouts plan addresses w
  = match M_map (pay_one plan addresses) pre w with
    | (w', Ok _) => (w', Err (missing_address (po_seat_id p)))
    | (w', Err e) => (w', Err e)
    end ∧
  submit_batch_payouts plan addresses w = (w, Err (missing_address (po_seat_id p))).
Proof.
  split; [by eapply direct_loop_stops|].
  unfold submit_batch_payouts. rewrite batch_transfers_spec. fold (due plan). rewrite Hdue.
  by rewrite first_missing.
Qed.

(** A receipt is reported as confirmed only if the wallet says so and it has
    the confirmations asked for; the receipts come back one per submission, in
    order, and a failed transfer stays failed. *)
Theorem receipts_wait_for_confirmations `{SettlementWalletAdapter W} submissions minc
    (w w' : W) receipts
    (Hc : check_payout_submissions submissions minc w = (w', Ok receipts)) :
  length receipts = length submissions ∧
  Forall (λ r, rc_status r = TxConfirmed → minc ≤ rc_confirmations r) receipts.
Proof.
  revert w receipts Hc. unfold check_payout_submissions.
  induction submissions as [|s submissions IH]; intros w receipts; cbn [M_map].
  - mrun. intros [= _ <-]. by split.
  - mrun. destruct (get_transfer_receipt (ts_tx_hash s) w) as [w1 [r|e]]; [|done].
    destruct (M_map _ submissions w1) as [w2 [rs|e]] eqn:Hm; [|done].
    intros [= <- <-]. destruct (IH w1 rs Hm) as [Hlen Hall].
    split; [cbn; by rewrite Hlen|]. constructor; [|done]. cbn.
    unfold settle_status. case_bool_decide; cbn; [|done].
    by destruct (N.ltb_spec (rc_confirmations r) minc).
Qed.
End PayoutProps.

(** A wallet that keeps the transfers it was asked for. *)
#[local] Instance demo_wallet : SettlementWalletAdapter (list SettlementTransferRequest) := {
  submit_transfer request := λ w, (w ++ [request], Ok "0xaa"%string);
  get_transfer_receipt tx_hash := λ w, (w, Ok (mkReceipt tx_hash TxConfirmed 3));
}.
#[local] Instance demo_batch_wallet : BatchSettlementWalletAdapter (list SettlementTransferRequest) := {
  submit_batch_transfer request := λ w, (w ++ bq_transfers request, Ok "0xbb"%string);
  get_batch_transfer_receipt tx_hash := λ w, (w, Ok (mkBatchReceipt tx_hash TxConfirmed 3 0));
}.

Lemma direct_payouts_stop_where_batches_refuse_witness :
  let plan := mkPlan 1 2 0 [mkPayout 3 500; mkPayout 4 0; mkPayout 5 470] in
  let addresses : gmap SeatId string := <[3 := "0x3"]> ∅ in
  submit_direct_payouts plan addresses []
    = ([mkTransferRequest 1 2 3 "0x3" 500], Err (missing_address 5)) ∧
  submit_batch_payouts plan addresses [] = ([], Err (missing_address 5)).
Proof.
  destruct (direct_payouts_stop_where_batches_refuse
    (mkPlan 1 2 0 [mkPayout 3 500; mkPayout 4 0; mkPayout 5 470]) (<[3 := "0x3"]> ∅)
    [mkPayout 3 500] (mkPayout 5 470) [] ([] : list SettlementTransferRequest)) as [H1 H2].
  - vm_compute. reflexivity.
  - constructor; [|constructor]. exists "0x3". vm_compute. reflexivity.
  - vm_compute. reflexivity.
  - split; [rewrite H1; vm_compute; reflexivity|exact H2].
Defined.

Lemma receipts_wait_for_confirmations_witness :
  ∃ receipts, check_payout_submissions [mkSubmission 3 "0xaa"] 5 ([] : list SettlementTransferRequest)
              = ([], Ok receipts) ∧
    Forall (λ r, rc_status r = TxConfirmed → 5 ≤ rc_confirmations r) receipts.
Proof.
  eexists. split; [vm_compute; reflexivity|].
  refine (proj2 (receipts_wait_for_confirmations [mkSubmission 3 "0xaa"] 5
    ([] : list SettlementTransferRequest) [] _ _)).
  vm_compute. reflexivity.
Defined.

(** ** The EVM wallet *)
Section WalletProps.
Context {W : Type} `{JsonRpcTransport W} `{EvmAbi}.

(** [n] has been handed out by the wallet [s]. *)
Definition nonce_taken (s : EvmWallet W) (n : N) : Prop :=
  ∃ next, mx_value (ew_next_nonce s) = Some next ∧ n < next.

Lemma call_keeps_memory {T} (d : Json → option T) method params (s s' : EvmWallet W) r :
  call d method params s = (s', r) →
  ew_next_nonce s' = ew_next_nonce s ∧ ew_tx_transfer_count s' = ew_tx_transfer_count s.
Proof.
  unfold call, on_world. mrun. destruct (rpc_call _ _ _ _ _) as [w x]. by intros [= <- _].
Qed.

Lemma reserve_nonce_spec (s s' : EvmWallet W) r :
  reserve_nonce s = (s', r) →
  match r with
  | Err _ => ew_next_nonce s' = ew_next_nonce s
  | Ok n => ∃ pending, n = next_free_nonce (mx_value (ew_next_nonce s)) pending ∧
              ew_next_nonce s' = store (ew_next_nonce s) (Some (sat_add u64_max n 1)) ∧
              mx_poisoned (ew_next_nonce s) = false
  end.
Proof.
  unfold reserve_nonce. mrun.
  destruct (call decode_string _ _ s) as [s1 [hex|e]] eqn:Hc;
    apply call_keeps_memory in Hc as [Hn _]; [|by intros [= <- <-]].
  destruct (parse_hex_u64 hex) as [pending|e]; [|by intros [= <- <-]].
  rewrite Hn. unfold lock. destruct (mx_poisoned (ew_next_nonce s)) eqn:Hp;
    intros [= <- <-]; [done|]. exists pending. split; [done|]. split; [|done].
  cbn. by rewrite Hn.
Qed.

(** A nonce is never handed out twice: each reservation, whatever the node
    answers, is above every nonce the wallet has handed out before and marks its
    own as taken, up to the last 64-bit nonce; a failed reservation takes none. *)
Theorem nonces_never_repeat (s s' : EvmWallet W) r (Hrun : reserve_nonce s = (s', r)) :
  match r with
  | Ok n => (∀ k, nonce_taken s k → k < n) ∧
            (n < u64_max → nonce_taken s' n ∧ ∀ k, nonce_taken s k → nonce_taken s' k)
  | Err _ => ∀ k, nonce_taken s' k ↔ nonce_taken s k
  end.
Proof.
  apply reserve_nonce_spec in Hrun. unfold nonce_taken. destruct r as [n|e].
  2:{ intros k. by rewrite Hrun. }
  destruct Hrun as (pending & -> & -> & _).
  destruct (mx_value (ew_next_nonce s)) as [next|] eqn:Hv; cbn.
  - split.
    + intros k (m & [= <-] & Hk). lia.
    + intros Hlt. split.
      * exists (N.min u64_max (N.max next pending + 1)). split; [done|]. lia.
      * intros k (m & [= <-] & Hk). exists (N.min u64_max (N.max next pending + 1)).
        split; [done|]. lia.
  - split; [by intros k (m & ? & _)|]. intros Hlt. split.
    + exists (N.min u64_max (pending + 1)). split; [done|]. lia.
    + by intros k (m & ? & _).
Qed.

(** A transaction the node does not know yet is not reported as pending: a
    null receipt is dropped by the decoding of the reply, and the wallet's check
    fails, although the method has a branch for it. *)
Theorem unknown_receipt_is_an_error (s : EvmWallet W) tx_hash w' fields
    (Hreply : post_json (ew_endpoint s)
                (rpc_body "eth_getTransactionReceipt" (JArr [JStr tx_hash])) (ew_world s)
              = (w', Ok (JObj fields)))
    (Hnull : assoc_field "result" fields = Some JNull)
    (Herr : assoc_field "error" fields = None) :
  snd (evm_get_transfer_receipt tx_hash s) = Err "missing result" ∧
  snd (evm_get_batch_transfer_receipt tx_hash s) = Err "missing result".
Proof.
  assert (snd (call (decode_option decode_receipt) "eth_getTransactionReceipt"
                 (JArr [JStr tx_hash]) s) = Err "missing result") as Hc.
  { unfold call, on_world, rpc_call. mrun. rewrite Hreply. cbn [snd].
    by apply null_result_is_missing. }
  unfold evm_get_transfer_receipt, evm_get_batch_transfer_receipt. mrun.
  destruct (call _ _ _ s) as [s1 [r|e]]; cbn in Hc; [done|]. by injection Hc as ->.
Qed.
End WalletProps.

(** A node that answers every call with the same object. *)
#[local] Instance demo_node (reply : Json) : JsonRpcTransport unit :=
  {| post_json := λ _ _ w, (w, Ok reply); decode_message := λ _, "decode error"%string |}.
#[local] Instance demo_abi : EvmAbi :=
  {| Address := string; parse_address := Ok; encode_settle_batch := λ _ _ id, Ok id;
     keccak256 := λ b, b |}.

Lemma nonces_never_repeat_witness :
  let node := demo_node (JObj [("result", JStr "0x7")]) in
  let s := EvmWallet_new tt "http://node" "0xfrom" "0xcontract" in
  let s1 := fst (@reserve_nonce unit node s) in
  snd (@reserve_nonce unit node s1) = Ok 8 ∧ nonce_taken s1 7.
Proof.
  set (node := demo_node (JObj [("result", JStr "0x7")])).
  set (s := EvmWallet_new tt "http://node" "0xfrom" "0xcontract").
  split; [vm_compute; reflexivity|].
  refine (proj1 (proj2 (@nonces_never_repeat unit node s (fst (@reserve_nonce unit node s))
    (Ok 7) _) _)); vm_compute; reflexivity.
Defined.

Lemma unknown_receipt_is_an_error_witness :
  let node := demo_node (JObj [("jsonrpc", JStr "2.0"); ("id", JNum 1); ("result", JNull)]) in
  snd (@evm_get_transfer_receipt unit node "0xab"
         (EvmWallet_new tt "http://node" "0xfrom" "0xcontract")) = Err "missing result"%string.
Proof.
  set (node := demo_node _).
  refine (proj1 (@unknown_receipt_is_an_error unit node
    (EvmWallet_new tt "http://node" "0xfrom" "0xcontract") "0xab" tt _ _ _ _)).
  - reflexivity.
  - reflexivity.
  - reflexivity.
Defined.

(** Quantities survive the wire: a number of at most 64 (128) bits printed as
    the node's protocol asks is read back by [parse_hex_u64] ([parse_hex_u128]), and
    a 64-bit reader refuses what does not fit instead of truncating it. *)
Theorem quantities_round_trip n :
  (n ≤ u64_max → parse_hex_u64 (format_0x n) = Ok n) ∧
  (n ≤ u128_max → parse_hex_u128 (format_0x n) = Ok n) ∧
  (u64_max < n → n ≤ u128_max → parse_hex_u64 (format_0x n) = Err too_large).
Proof.
  split; [|split].
  - intros Hn. apply parse_format_0x; [done|]. etransitivity; [exact Hn|]. by vm_compute.
  - intros Hn. by apply parse_format_0x.
  - apply parse_format_0x_large.
Qed.

Lemma quantities_round_trip_witness :
  parse_hex_u64 (format_0x 48879) = Ok 48879 ∧
  parse_hex_u64 (format_0x (2 ^ 64)) = Err too_large.
Proof.
  split.
  - apply quantities_round_trip. vm_compute. discriminate.
  - apply (quantities_round_trip (2 ^ 64)); vm_compute; [reflexivity|discriminate].
Defined.
