(* ===== verification/Orchestrator.v ===== *)
(** From a showdown to its settlement, of the [app-server] crate: the plan
    ([showdown_settlement.rs]), for which each pot layer is awarded to the best hands among
    its eligible seats, and the orchestration ([settlement_orchestrator.rs]): plan,
    persistence, ledger, payouts, receipts, alerts and the completion of the hand, in the
    order of the code.

    All collaborators share one world [W]; the optional sinks are optional
    functions. The identifier and the time of each record are drawn where the code
    draws them. *)

From stdpp Require Import base tactics option list gmap strings pretty.
From Stdlib Require Import NArith Lia ZArith.
From S2P Require Import Prelude.
From S2P Require Import Text.
From S2P Require Import Domain.
From S2P Require Import Ambient.
From S2P Require Import EngineState.
From S2P Require Import Pots.
From S2P Require Import Engine.
From S2P Require Import LedgerStore.
From S2P Require Import AuditStore.
From S2P Require Import Settlement.
From S2P Require Import SettlementService.

Local Open Scope N_scope.

Section ShowdownPlan.
Context `{RO : RankOps}.

Definition no_layers : string := "pot_total > 0 but no pot layers derived".
Definition no_showdown : string := "unable to evaluate showdown for pot layer".

Fixpoint award_layers (input : ShowdownInput) (layers : list PotLayer)
    : result string (list PotAwardInput) :=
  match layers with
  | [] => Ok []
  | layer :: layers =>
      if pl_amount layer =? 0 then award_layers input layers
      else
        showdown ← ok_or no_showdown
                     (evaluate_showdown_for_eligible input (Some (pl_eligible_seats layer)));
        rest ← award_layers input layers;
        Ok (mkPotAward (pl_amount layer) (pl_eligible_seats layer) (winner_seats showdown) :: rest)
  end.

Definition build_settlement_plan_from_showdown (state : EngineState) (input : ShowdownInput)
    (rake_policy : RakePolicy) : result string SettlementPlan :=
  let layers := pot_layers state in
  if match layers with [] => true | _ => false end && (0 <? hs_pot_total (snapshot state))
  then Err no_layers
  else
    pot_awards ← award_layers input layers;
    result_map_err settlement_error_text
      (build_plan_from_pot_awards (hs_room_id (snapshot state)) (hs_hand_id (snapshot state))
         pot_awards rake_policy).
End ShowdownPlan.

Class SettlementLifecyclePort (W : Type) := { complete_settlement : HandId → M W string unit }.

Record SettlementAlert := mkSettlementAlert {
  sa_room_id : RoomId;
  sa_hand_id : HandId;
  sa_tx_hash : string;
  sa_kind : string;
  sa_message : string;
}.

(** [Option<&dyn SettlementAlertSink>], [Option<&dyn SettlementAuditSink>] *)
Abbreviation AlertSink W := (option (SettlementAlert → M W string unit)) (only parsing).
Abbreviation AuditSink W := (option (BehaviorEventRecord → M W string unit)) (only parsing).

(** [serde_json::to_value(&plan)]: the library's rendering of the plan, and with it
    the text of an identifier. *)
Class Rendering := {
  plan_to_value : SettlementPlan → result string Json;
  rendering_uuid_text :: UuidText;
}.

Record PayoutSettlementInput := mkPayoutInput {
  pi_seat_addresses : gmap SeatId string;
  pi_min_confirmations : N;
}.

(** [format!("{:?}", status)] *)
Definition status_debug (s : SettlementTxStatus) : string :=
  match s with TxPending => "Pending" | TxConfirmed => "Confirmed" | TxFailed => "Failed" end.
Definition is_confirmed (r : SettlementTransferReceipt) : bool :=
  bool_decide (rc_status r = TxConfirmed).
Definition is_failed (r : SettlementTransferReceipt) : bool :=
  bool_decide (rc_status r = TxFailed).

Section Orchestrator.
Context {CO : CardOps} {RO : RankOps} {RN : Rendering}.
Context {W : Type} {CK : Clock W} {FI : FreshIds W}.
Context {LR : LedgerRepository W} {SR : SettlementPersistenceRepository W}.
Context {LP : SettlementLifecyclePort W}.
Context (state : EngineState).
Let room_id := hs_room_id (snapshot state).
Let hand_id := hs_hand_id (snapshot state).

(** ** Persistence *)

(** [insert_settlement_plan] with the plan's record; the payout total and the
    rendering are evaluated first. *)
Definition persist_plan (settlement_plan_id : Uuid) (plan : SettlementPlan) : M W string unit :=
  total ← lift_result (result_map_err
            (λ e, "settlement payout_total failed: " +:+ money_error_text e) (payout_total plan));
  payload ← lift_result (plan_to_value plan);
  created_at ← now;
  M_map_err ledger_error_text
    (insert_settlement_plan
       (mkSettlementPlanRecordInsert settlement_plan_id room_id hand_id "created"
          (pn_rake_amount plan) total payload created_at None)).

Definition record_settlement_plan (plan : SettlementPlan) (trace_id : TraceId)
    : M W string unit :=
  M_map_err settlement_error_text (record_plan plan trace_id).

Definition insert_record (settlement_plan_id : Uuid) (tx_hash : option string) (status : string)
    : M W string unit :=
  id ← new_uuid;
  created_at ← now;
  updated_at ← now;
  M_map_err ledger_error_text
    (insert_settlement_record
       (mkSettlementRecordInsert id settlement_plan_id room_id hand_id tx_hash status 0 None
          created_at updated_at)).

Definition persist_submission_records (settlement_plan_id : Uuid)
    (submissions : list SettlementTransferSubmission) (status : string) : M W string unit :=
  M_iter (λ submission, insert_record settlement_plan_id (Some (ts_tx_hash submission)) status)
    submissions.

Definition persist_batch_submission_record (settlement_plan_id : Uuid)
    (submission : BatchSettlementTransferSubmission) : M W string unit :=
  insert_record settlement_plan_id (Some (bs_tx_hash submission)) "submitted".

Definition receipt_update (receipt : SettlementTransferReceipt) (updated_at : DateTime)
    : SettlementRecordStatusUpdate :=
  let '(status, retry_count, error_detail) :=
    match rc_status receipt with
    | TxConfirmed => ("confirmed"%string, 0%Z, None)
    | TxPending => ("pending"%string, 0%Z, None)
    | TxFailed => ("failed"%string, 1%Z, Some "wallet receipt returned failed status"%string)
    end in
  mkSettlementRecordStatusUpdate (rc_tx_hash receipt) status retry_count error_detail updated_at.

Definition persist_receipt_status_updates (receipts : list SettlementTransferReceipt)
    : M W string unit :=
  M_iter (λ receipt,
    updated_at ← now;
    M_map_err ledger_error_text
      (update_settlement_record_status_by_tx_hash (receipt_update receipt updated_at))) receipts.

(** ** Audit events and alerts: failures are only logged *)

Definition emit_behavior (sink : AuditSink W) (record : BehaviorEventRecord) : M W string unit :=
  match sink with
  | Some emit => ignore_error (emit record)
  | None => mret tt
  end.

Definition behavior (kind severity : string) (seat_id : option SeatId) (tx_hash : string)
    (payload : Json) (trace_id : TraceId) (sink : AuditSink W) : M W string unit :=
  id ← new_uuid;
  occurred_at ← now;
  emit_behavior sink
    (mkBehaviorEvent (uuid_text id) kind "settlement_orchestrator" (Some room_id)
       (Some hand_id) seat_id None None (Some tx_hash) severity payload occurred_at trace_id).

Definition emit_settlement_submission_audits (sink : AuditSink W)
    (submissions : list SettlementTransferSubmission) (trace_id : TraceId) : M W string unit :=
  M_iter (λ s, behavior "settlement_payout_submitted" "info" (Some (ts_seat_id s)) (ts_tx_hash s)
            (JObj [("seat_id", json_N (ts_seat_id s)); ("tx_hash", JStr (ts_tx_hash s))])
            trace_id sink) submissions.

Definition emit_batch_submission_audit (sink : AuditSink W)
    (s : BatchSettlementTransferSubmission) (trace_id : TraceId) : M W string unit :=
  behavior "settlement_batch_submitted" "info" None (bs_tx_hash s)
    (JObj [("tx_hash", JStr (bs_tx_hash s));
           ("transfer_count", json_N (N.of_nat (bs_transfer_count s)))]) trace_id sink.

Definition receipt_severity (s : SettlementTxStatus) : string :=
  match s with TxFailed => "error" | TxPending => "warn" | TxConfirmed => "info" end.

Definition emit_settlement_receipt_audits (sink : AuditSink W)
    (receipts : list SettlementTransferReceipt) (trace_id : TraceId) : M W string unit :=
  M_iter (λ r, behavior "settlement_payout_receipt" (receipt_severity (rc_status r)) None
            (rc_tx_hash r)
            (JObj [("tx_hash", JStr (rc_tx_hash r));
                   ("status", JStr (to_ascii_lowercase (status_debug (rc_status r))));
                   ("confirmations", json_N (rc_confirmations r))])
            trace_id sink) receipts.

Definition emit_batch_receipt_audit (sink : AuditSink W) (r : BatchSettlementTransferReceipt)
    (trace_id : TraceId) : M W string unit :=
  behavior "settlement_batch_receipt"
    (if bool_decide (br_status r = TxFailed) then "warn" else "info") None (br_tx_hash r)
    (JObj [("status", JStr (status_debug (br_status r)));
           ("confirmations", json_N (br_confirmations r));
           ("applied_count", json_N (N.of_nat (br_applied_count r)))]) trace_id sink.

Definition emit_manual_review_audits (sink : AuditSink W)
    (receipts : list SettlementTransferReceipt) (trace_id : TraceId) : M W string unit :=
  M_iter (λ r, if negb (is_failed r) then mret tt
               else behavior "settlement_manual_review_required" "error" None (rc_tx_hash r)
                      (JObj [("tx_hash", JStr (rc_tx_hash r));
                             ("reason", JStr "direct payout receipt failed")])
                      trace_id sink) receipts.

Definition failed_alert (r : SettlementTransferReceipt) : SettlementAlert :=
  mkSettlementAlert room_id hand_id (rc_tx_hash r) "settlement_manual_review_required"
    "direct payout receipt failed; manual review required".

Definition emit_failed_payout_alerts (sink : AlertSink W)
    (receipts : list SettlementTransferReceipt) : M W string unit :=
  M_iter (λ r, if negb (is_failed r) then mret tt
               else match sink with
                    | Some emit => ignore_error (emit (failed_alert r))
                    | None => mret tt
                    end) receipts.

(** ** The runs *)

Definition complete : M W string unit :=
  M_map_err (λ e, "complete settlement failed: " +:+ e) (complete_settlement hand_id).

Definition run_showdown_settlement (showdown_input : ShowdownInput) (rake_policy : RakePolicy)
    (trace_id : TraceId) : M W string SettlementPlan :=
  plan ← lift_result (build_settlement_plan_from_showdown state showdown_input rake_policy);
  record_settlement_plan plan trace_id;;
  complete;;
  mret plan.

Definition run_showdown_settlement_with_persistence (showdown_input : ShowdownInput)
    (rake_policy : RakePolicy) (trace_id : TraceId) : M W string SettlementPlan :=
  plan ← lift_result (build_settlement_plan_from_showdown state showdown_input rake_policy);
  settlement_plan_id ← new_uuid;
  persist_plan settlement_plan_id plan;;
  record_settlement_plan plan trace_id;;
  insert_record settlement_plan_id None "planned_offchain_recorded";;
  complete;;
  mret plan.

Definition direct_review_reason : string :=
  "manual review required after failed direct payout receipt".
Definition batch_review_reason : string :=
  "manual review required after failed batch payout receipt".

Definition run_direct_payouts_and_alerts `{SettlementWalletAdapter W}
    (showdown_input : ShowdownInput) (rake_policy : RakePolicy) (direct : PayoutSettlementInput)
    (trace_id : TraceId) (alert_sink : AlertSink W) (audit_sink : AuditSink W)
    : M W string SettlementPlan :=
  plan ← lift_result (build_settlement_plan_from_showdown state showdown_input rake_policy);
  settlement_plan_id ← new_uuid;
  persist_plan settlement_plan_id plan;;
  record_settlement_plan plan trace_id;;
  submissions ← M_map_err settlement_error_text
                  (submit_direct_payouts plan (pi_seat_addresses direct));
  persist_submission_records settlement_plan_id submissions "submitted";;
  emit_settlement_submission_audits audit_sink submissions trace_id;;
  receipts ← M_map_err settlement_error_text
               (check_payout_submissions submissions (pi_min_confirmations direct));
  persist_receipt_status_updates receipts;;
  emit_settlement_receipt_audits audit_sink receipts trace_id;;
  manual_marked ← M_map_err settlement_error_text
                    (mark_failed_receipts_for_manual_review receipts 1 direct_review_reason);
  M_when (0 <? manual_marked)%nat
    (emit_manual_review_audits audit_sink receipts trace_id;;
     emit_failed_payout_alerts alert_sink receipts);;
  M_when (forallb is_confirmed receipts) complete;;
  mret plan.

Definition run_direct_payouts `{SettlementWalletAdapter W} (showdown_input : ShowdownInput)
    (rake_policy : RakePolicy) (direct : PayoutSettlementInput) (trace_id : TraceId)
    : M W string SettlementPlan :=
  run_direct_payouts_and_alerts showdown_input rake_policy direct trace_id None None.

Definition as_single_receipt (r : BatchSettlementTransferReceipt) : SettlementTransferReceipt :=
  mkReceipt (br_tx_hash r) (br_status r) (br_confirmations r).

Definition run_batch_payouts_and_alerts `{BatchSettlementWalletAdapter W}
    (showdown_input : ShowdownInput) (rake_policy : RakePolicy) (batch : PayoutSettlementInput)
    (trace_id : TraceId) (alert_sink : AlertSink W) (audit_sink : AuditSink W)
    : M W string SettlementPlan :=
  plan ← lift_result (build_settlement_plan_from_showdown state showdown_input rake_policy);
  settlement_plan_id ← new_uuid;
  persist_plan settlement_plan_id plan;;
  record_settlement_plan plan trace_id;;
  submission ← M_map_err settlement_error_text
                 (submit_batch_payouts plan (pi_seat_addresses batch));
  persist_batch_submission_record settlement_plan_id submission;;
  emit_batch_submission_audit audit_sink submission trace_id;;
  receipt ← M_map_err settlement_error_text
              (check_batch_payout_submission submission (pi_min_confirmations batch));
  persist_receipt_status_updates [as_single_receipt receipt];;
  emit_batch_receipt_audit audit_sink receipt trace_id;;
  M_when (bool_decide (br_status receipt = TxFailed))
    (marked ← M_map_err settlement_error_text
      (mark_failed_receipts_for_manual_review [as_single_receipt receipt] 1 batch_review_reason);
     emit_manual_review_audits audit_sink [as_single_receipt receipt] trace_id;;
     emit_failed_payout_alerts alert_sink [as_single_receipt receipt]);;
  M_when (bool_decide (br_status receipt = TxConfirmed)) complete;;
  mret plan.
End Orchestrator.
