(* ===== verification/AutoSettlement.v ===== *)
(** Automatic settlement ([auto_settlement.rs] of the [app-server] crate): where
    the showdown input and the payout addresses come from, the attempt to settle
    one room, and one tick of the loop over all rooms. *)

From stdpp Require Import base tactics option list gmap strings pretty.
From Stdlib Require Import NArith ZArith Lia.
From S2P Require Import Prelude.
From S2P Require Import Ambient.
From S2P Require Import Text.
From S2P Require Import Domain.
From S2P Require Import EngineState.
From S2P Require Import Engine.
From S2P Require Import LedgerStore.
From S2P Require Import AuditStore.
From S2P Require Import Settlement.
From S2P Require Import SettlementService.
From S2P Require Import Orchestrator.

Local Open Scope N_scope.

Inductive AutoSettlementOutcome :=
| NoActiveHand | NotShowdown | WaitingForShowdownInput | WaitingForSeatAddresses | AutoSettled.

Class AutoSettlementRoomPort `{CardOps} (W : Type) := {
  get_engine_state : RoomId → M W string (option EngineState);
  room_complete_settlement : RoomId → HandId → M W string unit;
}.

Class ShowdownInputProvider `{CardOps} (W : Type) := {
  get_showdown_input : RoomId → HandId → M W string (option ShowdownInput);
  get_settlement_seat_addresses : RoomId → HandId → M W string (gmap SeatId string);
}.

(** ** Where the showdown input comes from *)

(** What the records use of [rs_poker]: the text of a card and the parser of a
    hand of cards. *)
Class CardText `{CardOps} := {
  card_to_string : Card → string;
  flat_hand_from_str : string → result string (list Card);
}.

Section Inputs.
Context `{CardText}.

Definition showdown_input_from_engine_state (state : EngineState) : option ShowdownInput :=
  dealing ← dealing state;
  if (length (d_board_cards dealing) <? 5)%nat then None
  else Some (mkShowdownInput (d_board_cards dealing)
               (sort_by_key fst (map_to_list (d_hole_cards dealing)))).

Fixpoint cards_to_compact_string (cards : list Card) : string :=
  match cards with
  | [] => ""
  | c :: cards => card_to_string c +:+ cards_to_compact_string cards
  end.

Definition showdown_input_to_record {W} `{Clock W} `{FreshIds W} (room_id : RoomId)
    (hand_id : HandId) (input : ShowdownInput) : M W string SettlementShowdownInputRecord :=
  updated_at ← now;
  trace_id ← new_uuid;
  mret (mkShowdownInputRecord room_id hand_id (cards_to_compact_string (si_board input))
          (map (λ e, mkSeatCardsRecord (fst e)
                       (cards_to_compact_string [fst (snd e); snd (snd e)]))
             (si_revealed_hole_cards input))
          "admin_ops_http" updated_at trace_id).

Fixpoint seat_cards_from_records (l : list SettlementShowdownSeatCardsRecord)
    : result string (list (SeatId * (Card * Card))) :=
  match l with
  | [] => Ok []
  | seat :: l =>
      cards ← result_map_err
        (λ e, "invalid persisted seat cards for seat " +:+ pretty (sc_seat_id seat) +:+ ": " +:+ e)
        (flat_hand_from_str (sc_cards seat));
      match cards with
      | [c0; c1] =>
          rest ← seat_cards_from_records l;
          Ok ((sc_seat_id seat, (c0, c1)) :: rest)
      | _ => Err ("invalid persisted seat cards length for seat " +:+ pretty (sc_seat_id seat))
      end
  end.

Definition showdown_input_from_record (record : SettlementShowdownInputRecord)
    : result string ShowdownInput :=
  board ← result_map_err (λ e, "invalid persisted board cards: " +:+ e)
            (flat_hand_from_str (sh_board_cards record));
  revealed_hole_cards ← seat_cards_from_records (sh_revealed_hole_cards record);
  Ok (mkShowdownInput board revealed_hole_cards).

(** *** The in-memory provider *)

Record InMemoryShowdownInputProvider := mkInMemoryProvider {
  ip_showdown_inputs : Mutex (gmap (RoomId * HandId) ShowdownInput);
  ip_seat_addresses : Mutex (gmap (RoomId * HandId) (gmap SeatId string));
}.

Definition InMemoryProvider_new : InMemoryShowdownInputProvider :=
  mkInMemoryProvider (mkMutex false ∅) (mkMutex false ∅).

Definition poisoned_err {A} (what : string) (m : Mutex A) : result string A :=
  result_map_err (λ _, what +:+ " lock poisoned") (lock m).

Definition inner_upsert_showdown_input (room_id : RoomId) (hand_id : HandId)
    (input : ShowdownInput) : M InMemoryShowdownInputProvider string unit :=
  p ← get;
  m ← lift_result (poisoned_err "showdown_inputs" (ip_showdown_inputs p));
  modify (λ p, mkInMemoryProvider
    (store (ip_showdown_inputs p) (<[(room_id, hand_id) := input]> m)) (ip_seat_addresses p)).

Definition inner_upsert_seat_addresses (room_id : RoomId) (hand_id : HandId)
    (addresses : gmap SeatId string) : M InMemoryShowdownInputProvider string unit :=
  p ← get;
  m ← lift_result (poisoned_err "seat_addresses" (ip_seat_addresses p));
  modify (λ p, mkInMemoryProvider (ip_showdown_inputs p)
    (store (ip_seat_addresses p) (<[(room_id, hand_id) := addresses]> m))).

Definition inner_get_showdown_input (room_id : RoomId) (hand_id : HandId)
    : M InMemoryShowdownInputProvider string (option ShowdownInput) :=
  p ← get;
  m ← lift_result (poisoned_err "showdown_inputs" (ip_showdown_inputs p));
  mret (m !! (room_id, hand_id)).

Definition inner_get_seat_addresses (room_id : RoomId) (hand_id : HandId)
    : M InMemoryShowdownInputProvider string (gmap SeatId string) :=
  p ← get;
  m ← lift_result (poisoned_err "seat_addresses" (ip_seat_addresses p));
  mret (default ∅ (m !! (room_id, hand_id))).

#[export] Instance in_memory_provider : ShowdownInputProvider InMemoryShowdownInputProvider := {
  get_showdown_input := inner_get_showdown_input;
  get_settlement_seat_addresses := inner_get_seat_addresses;
}.

(** *** The provider of the application

    It caches in the in-memory provider, reads and writes through the optional
    repositories, and falls back on the room's own hand. *)
Class AppProviderWorld (W : Type) := {
  provider_inner : W → InMemoryShowdownInputProvider;
  set_provider_inner : InMemoryShowdownInputProvider → W → W;
  showdown_read_repo : W → option (HandId → M W string (option SettlementShowdownInputRecord));
  showdown_write_repo : W → option (SettlementShowdownInputRecord → M W string unit);
  app_get_engine_state : RoomId → M W string (option EngineState);
  app_bound_seat_addresses : RoomId → M W string (gmap SeatId string);
}.

Context {W : Type} `{AppProviderWorld W} `{Clock W} `{FreshIds W}.

Definition on_inner {A} (m : M InMemoryShowdownInputProvider string A) : M W string A :=
  λ w, let '(p, r) := m (provider_inner w) in (set_provider_inner p w, r).

Definition app_upsert_showdown_input (room_id : RoomId) (hand_id : HandId)
    (input : ShowdownInput) : M W string unit :=
  on_inner (inner_upsert_showdown_input room_id hand_id input);;
  w ← get;
  match showdown_write_repo w with
  | None => mret tt
  | Some upsert =>
      record ← showdown_input_to_record room_id hand_id input;
      upsert record
  end.

Definition derive_showdown_input (room_id : RoomId) (hand_id : HandId)
    : M W string (option ShowdownInput) :=
  found ← app_get_engine_state room_id;
  match found with
  | None => mret None
  | Some state =>
      if negb (hs_hand_id (snapshot state) =? hand_id)
         || negb (bool_decide (hs_status (snapshot state) = HShowdown))
      then mret None
      else
        match showdown_input_from_engine_state state with
        | None => mret None
        | Some input =>
            M_map_err (λ e, "cache derived showdown input failed: " +:+ e)
              (on_inner (inner_upsert_showdown_input room_id hand_id input));;
            w ← get;
            (match showdown_write_repo w with
             | None => mret tt
             | Some upsert =>
                 record ← showdown_input_to_record room_id hand_id input;
                 ignore_error (upsert record)
             end);;
            mret (Some input)
        end
  end.

Definition app_get_showdown_input (room_id : RoomId) (hand_id : HandId)
    : M W string (option ShowdownInput) :=
  cached ← on_inner (inner_get_showdown_input room_id hand_id);
  match cached with
  | Some input => mret (Some input)
  | None =>
      w ← get;
      found ← (match showdown_read_repo w with
               | None => mret None
               | Some read => read hand_id
               end);
      match found with
      | Some record =>
          if sh_room_id record =? room_id then
            input ← lift_result (showdown_input_from_record record);
            M_map_err (λ e, "cache showdown input failed: " +:+ e)
              (on_inner (inner_upsert_showdown_input room_id hand_id input));;
            mret (Some input)
          else derive_showdown_input room_id hand_id
      | None => derive_showdown_input room_id hand_id
      end
  end.

Definition app_get_seat_addresses (room_id : RoomId) (hand_id : HandId)
    : M W string (gmap SeatId string) :=
  addresses ← on_inner (inner_get_seat_addresses room_id hand_id);
  if decide (addresses = ∅) then app_bound_seat_addresses room_id else mret addresses.

Definition AppRoomShowdownInputProvider : ShowdownInputProvider W :=
  {| get_showdown_input := app_get_showdown_input;
     get_settlement_seat_addresses := app_get_seat_addresses |}.
End Inputs.

(** ** The attempt to settle a room *)

Record AutoSettlementLoopConfig := mkLoopConfig {
  lc_poll_interval_ms : N;
  lc_min_confirmations : N;
  lc_rake_policy : RakePolicy;
}.
Definition AutoSettlementLoopConfig_default : AutoSettlementLoopConfig :=
  mkLoopConfig 500 1 RakePolicy_zero.

Section Attempt.
Context {CO : CardOps} {RO : RankOps} {RN : Rendering}.
Context {W : Type} {CK : Clock W} {FI : FreshIds W}.
Context {LR : LedgerRepository W} {SR : SettlementPersistenceRepository W}.
Context {RP : AutoSettlementRoomPort W} {SP : ShowdownInputProvider W}.

Definition RoomLifecycleAdapter (room_id : RoomId) : SettlementLifecyclePort W :=
  {| complete_settlement := room_complete_settlement room_id |}.

(** The guards all three variants share: the hand at showdown and its input. *)
Definition with_showdown (room_id : RoomId)
    (k : EngineState → ShowdownInput → M W string AutoSettlementOutcome)
    : M W string AutoSettlementOutcome :=
  found ← get_engine_state room_id;
  match found with
  | None => mret NoActiveHand
  | Some state =>
      if negb (bool_decide (hs_status (snapshot state) = HShowdown)) then mret NotShowdown
      else
        input ← get_showdown_input room_id (hs_hand_id (snapshot state));
        match input with
        | None => mret WaitingForShowdownInput
        | Some input => k state input
        end
  end.

Definition with_addresses (room_id : RoomId) (hand_id : HandId)
    (k : gmap SeatId string → M W string AutoSettlementOutcome)
    : M W string AutoSettlementOutcome :=
  seat_addresses ← get_settlement_seat_addresses room_id hand_id;
  if decide (seat_addresses = ∅) then mret WaitingForSeatAddresses else k seat_addresses.

Definition try_auto_settle_showdown_room `{SettlementWalletAdapter W} (room_id : RoomId)
    (rake_policy : RakePolicy) (min_confirmations : N) (trace_id : TraceId)
    (alert_sink : AlertSink W) (audit_sink : AuditSink W) : M W string AutoSettlementOutcome :=
  with_showdown room_id (λ state input,
    with_addresses room_id (hs_hand_id (snapshot state)) (λ seat_addresses,
      run_direct_payouts_and_alerts (LP := RoomLifecycleAdapter room_id) state input rake_policy
        (mkPayoutInput seat_addresses min_confirmations) trace_id alert_sink audit_sink;;
      mret AutoSettled)).

Definition try_auto_settle_showdown_room_with_batch `{BatchSettlementWalletAdapter W}
    (room_id : RoomId) (rake_policy : RakePolicy) (min_confirmations : N) (trace_id : TraceId)
    (alert_sink : AlertSink W) (audit_sink : AuditSink W) : M W string AutoSettlementOutcome :=
  with_showdown room_id (λ state input,
    with_addresses room_id (hs_hand_id (snapshot state)) (λ seat_addresses,
      run_batch_payouts_and_alerts (LP := RoomLifecycleAdapter room_id) state input rake_policy
        (mkPayoutInput seat_addresses min_confirmations) trace_id alert_sink audit_sink;;
      mret AutoSettled)).

Definition try_auto_settle_showdown_room_without_wallet (room_id : RoomId)
    (rake_policy : RakePolicy) (trace_id : TraceId) : M W string AutoSettlementOutcome :=
  with_showdown room_id (λ state input,
    run_showdown_settlement_with_persistence (LP := RoomLifecycleAdapter room_id) state input
      rake_policy trace_id;;
    mret AutoSettled).

(** One tick: every room is tried, failures are only logged. *)
Definition settlement_tick `{SettlementWalletAdapter W} (cfg : AutoSettlementLoopConfig)
    (alert_sink : AlertSink W) (audit_sink : AuditSink W) (room_ids : list RoomId)
    : M W string unit :=
  M_iter (λ room_id,
    trace_id ← new_uuid;
    ignore_error (try_auto_settle_showdown_room room_id (lc_rake_policy cfg)
      (lc_min_confirmations cfg) trace_id alert_sink audit_sink)) room_ids.

Definition settlement_tick_with_batch `{BatchSettlementWalletAdapter W}
    (cfg : AutoSettlementLoopConfig) (alert_sink : AlertSink W) (audit_sink : AuditSink W)
    (room_ids : list RoomId) : M W string unit :=
  M_iter (λ room_id,
    trace_id ← new_uuid;
    ignore_error (try_auto_settle_showdown_room_with_batch room_id (lc_rake_policy cfg)
      (lc_min_confirmations cfg) trace_id alert_sink audit_sink)) room_ids.

Definition settlement_tick_without_wallet (cfg : AutoSettlementLoopConfig)
    (room_ids : list RoomId) : M W string unit :=
  M_iter (λ room_id,
    trace_id ← new_uuid;
    ignore_error (try_auto_settle_showdown_room_without_wallet room_id (lc_rake_policy cfg)
      trace_id)) room_ids.
End Attempt.
