(* ===== verification/SettlementFlow.v ===== *)
(** From the hand to the money: the plan of a showdown accounts for the pot, what
    keeps a showdown from being settled at all, and what repeated settlement
    attempts send. *)

From stdpp Require Import base tactics option list gmap strings sorting.
From Stdlib Require Import NArith ZArith Lia.
From S2P Require Import Prelude.
From S2P Require Import Ambient.
From S2P Require Import Text.
From S2P Require Import Domain.
From S2P Require Import EngineState.
From S2P Require Import Pots.
From S2P Require Import Engine.
From S2P Require Import EngineInv.
From S2P Require Import EngineRun.
From S2P Require Import LedgerStore.
From S2P Require Import AuditStore.
From S2P Require Import Settlement.
From S2P Require Import SettlementPlans.
From S2P Require Import SettlementService.
From S2P Require Import SettlementProps.
From S2P Require Import Orchestrator.
From S2P Require Import AutoSettlement.

Local Open Scope N_scope.

(** ** The plan of a showdown *)
Section Plan.
Context {CO : CardOps} {RO : RankOps}.

Lemma showdown_has_winners input eligible r :
  evaluate_showdown_for_eligible input eligible = Some r → sort_dedup (winner_seats r) ≠ [].
Proof.
  unfold evaluate_showdown_for_eligible. case_match; [done|].
  destruct (snd _) as [|w ws]; [done|]. intros [= <-] Hnil. cbn [winner_seats] in Hnil.
  apply (proj1 (sort_dedup_nil _)) in Hnil.
  apply (not_elem_of_nil w). rewrite <-Hnil. apply (sortN_elem w (w :: ws)). constructor.
Qed.

Lemma award_layers_total input layers pots :
  award_layers input layers = Ok pots → awarded_total pots = layers_total layers.
Proof.
  revert pots. induction layers as [|ly layers IH]; intros pots; cbn [award_layers].
  - by intros [= <-].
  - unfold layers_total in *. cbn [map nsum].
    destruct (N.eqb_spec (pl_amount ly) 0) as [->|Hne]; [intros H; rewrite (IH _ H); lia|].
    destruct (evaluate_showdown_for_eligible _ _) as [r|] eqn:Hr; mrun; [|done].
    apply showdown_has_winners in Hr.
    destruct (award_layers input layers) as [rest|e]; [|done]. intros [= <-].
    unfold awarded_total in *. cbn [map nsum]. rewrite (IH rest eq_refl).
    unfold awarded at 1. cbn [pa_winner_seats pa_award]. by destruct (sort_dedup _).
Qed.

Lemma award_layers_stuck input layers ly :
  ly ∈ layers → pl_amount ly ≠ 0 → pl_eligible_seats ly = [] →
  award_layers input layers = Err no_showdown.
Proof.
  intros Hin Hne Hel. induction Hin as [layers|ly layers ly' Hin IH]; cbn [award_layers].
  - rewrite (proj2 (N.eqb_neq _ _)) by done. rewrite Hel.
    enough (evaluate_showdown_for_eligible input (Some []) = None) as -> by done.
    unfold evaluate_showdown_for_eligible. case_match; [done|]. cbn [fmap option_fmap option_map].
    change (sortN []) with (@nil N).
    assert (∀ hands, foldl (showdown_step (si_board input) (Some [])) (None, []) hands
            = (None, [])) as ->; [|done].
    induction hands as [|[seat hole] hands IHh]; [done|]. cbn.
    rewrite bool_decide_false by apply not_elem_of_nil. done.
  - rewrite (IH Hne Hel). case_match; [done|]. by destruct (evaluate_showdown_for_eligible _ _).
Qed.

(** C8. The plan of a showdown accounts for the pot of the hand: the rake, the
    payouts and the uncalled part of the largest contribution, which no layer
    holds and nobody is paid back, never exceed the pot, and make it up exactly
    whenever the square of the pot fits in 128 bits. *)
Theorem showdown_plan_accounts_for_the_pot state input policy plan (Hinv : engine_inv state)
    (Hplan : build_settlement_plan_from_showdown state input policy = Ok plan) :
  let back := uncalled (map_to_list (p_player_contributions (pot state))) in
  let pot_total := hs_pot_total (snapshot state) in
  pn_rake_amount plan + paid_total (pn_payouts plan) + back ≤ pot_total ∧
  (pot_total * pot_total ≤ u128_max →
   pn_rake_amount plan + paid_total (pn_payouts plan) + back = pot_total).
Proof.
  intros back pot_total. unfold build_settlement_plan_from_showdown in Hplan.
  pose proof (inv_pot _ Hinv) as [Hsum Htot Hb _].
  case_match; [done|]. mrun in Hplan.
  destruct (award_layers input (pot_layers state)) as [pots|] eqn:Haw; [|done].
  apply award_layers_total in Haw.
  pose proof (plan_from_pots_spec (hs_room_id (snapshot state)) (hs_hand_id (snapshot state))
    pots policy) as Hs. cbn zeta in Hs.
  destruct (build_plan_from_pot_awards _ _ pots policy) as [plan'|]; [|done].
  injection Hplan as ->. unfold pot_conserved in Hsum.
  pose proof (pot_layers_from_total (h_folded_seats (hand state))
    (map_to_list (p_player_contributions (pot state)))) as Hlay.
  fold (msum (p_player_contributions (pot state))) in Hlay.
  change (build_pot_layers_from _ _) with (pot_layers state) in Hlay. fold back in Hlay.
  specialize (Hlay ltac:(lia)). unfold pot_total. rewrite Htot, Hsum, <-Hlay, <-Haw.
  destruct Hs as (_ & _ & _ & _ & _ & [(Hz & -> & ->)|(_ & _ & Hle & Heq)]).
  - rewrite Hz. change (paid_total []) with 0. lia.
  - split; [lia|]. intros Hfit. rewrite Heq; [lia|]. nia.
Qed.

(** A pot layer whose contributors have all folded blocks the settlement of
    the whole hand: no showdown input makes a plan, for no rake. *)
Theorem orphaned_layer_blocks_settlement state ly input policy
    (Hin : ly ∈ pot_layers state) (Hne : pl_amount ly ≠ 0) (Hel : pl_eligible_seats ly = []) :
  build_settlement_plan_from_showdown state input policy = Err no_showdown.
Proof.
  unfold build_settlement_plan_from_showdown.
  destruct (pot_layers state) as [|ly0 layers] eqn:Hl; [by apply not_elem_of_nil in Hin|].
  cbn [andb]. by rewrite (award_layers_stuck input (ly0 :: layers) ly).
Qed.
End Plan.

(** ** Concrete hands for the instances *)
#[local] Instance flow_cards : CardOps :=
  {| Card := N; card_to_u8 := id; card_of_u8 := id |}.
#[local] Instance flow_ranks : RankOps :=
  {| Rank := N; rank := nsum; rank_gtb := λ a b, b <? a; rank_eqb := N.eqb |}.

Definition flow_act (seq : N) (seat : SeatId) (ty : ActionType) (amt : option Chips) :=
  mkPlayerAction 1 11 seq seat ty amt.
Definition flow_apply (s : EngineState) (a : PlayerAction) : EngineState := fst (apply_action a s).
Definition flow_hand (seats : list SeatId) (acts : list PlayerAction) : EngineState :=
  foldl flow_apply
    (fst (deal_new_hand_internal_with_deck 11 ordered_deck
            (foldr seat_player (EngineState_new 1 1 10) seats))) acts.

Lemma flow_hand_reachable seats acts : reachable (flow_hand seats acts).
Proof.
  unfold flow_hand.
  assert (∀ s, reachable s → reachable (foldl flow_apply s acts)) as Hacts.
  { induction acts as [|a acts IH]; intros s Hr; [done|]. cbn. apply IH.
    eapply reach_step; [done|]. eapply step_action. apply surjective_pairing. }
  apply Hacts. eapply reach_step; [|eapply step_deal; apply surjective_pairing].
  clear Hacts. induction seats as [|x seats IH]; [apply reach_new|].
  eapply reach_step; [done|]. apply step_seat.
Qed.

(** Seat 1 is all-in for less than seat 0 put in: the difference is in no layer. *)
Lemma showdown_plan_accounts_for_the_pot_witness :
  let state := flow_hand [0; 1] [flow_act 1 0 AllIn (Some 900000000000000);
                                 flow_act 2 1 AllIn (Some 500000000000000)] in
  ∃ plan, build_settlement_plan_from_showdown state
            (mkShowdownInput [1; 2; 3; 4; 5] [(0, (40, 41)); (1, (10, 11))])
            RakePolicy_three_percent = Ok plan ∧
    pn_rake_amount plan + paid_total (pn_payouts plan) + 400000000000000
      = hs_pot_total (snapshot state).
Proof.
  set (state := flow_hand _ _). set (input := mkShowdownInput _ _).
  assert (∃ plan, build_settlement_plan_from_showdown state input RakePolicy_three_percent
                  = Ok plan) as [plan Hplan] by (eexists; vm_compute; reflexivity).
  exists plan. split; [exact Hplan|].
  refine (proj2 (showdown_plan_accounts_for_the_pot state input RakePolicy_three_percent plan
    _ Hplan) _).
  - apply reachable_engine_inv, flow_hand_reachable.
  - vm_compute. discriminate.
Defined.

(** Seats 0 and 3 are all-in for the big blind, seats 1 and 2 go on to the flop
    with more and both leave: nobody may win the part above the blind. *)
Definition orphaned_hand : EngineState :=
  flow_hand [0; 1; 2; 3]
    [flow_act 1 3 AllIn (Some 400000000000000); flow_act 2 0 AllIn (Some 400000000000000);
     flow_act 3 1 RaiseTo (Some 1000000000000000); flow_act 4 2 Call None;
     flow_act 5 1 Fold None; flow_act 6 2 Fold None].

Lemma orphaned_layer_blocks_settlement_witness :
  reachable orphaned_hand ∧
  build_settlement_plan_from_showdown orphaned_hand
    (mkShowdownInput [1; 2; 3; 4; 5] [(0, (40, 41)); (3, (10, 11))]) RakePolicy_zero
  = Err no_showdown.
Proof.
  split; [apply flow_hand_reachable|].
  apply (orphaned_layer_blocks_settlement orphaned_hand (mkPotLayer 1200000000000000 [] false)).
  - apply list_elem_of_In. vm_compute. tauto.
  - discriminate.
  - reflexivity.
Defined.

(** ** Repeated attempts

    A deployment whose stores accept everything and whose wallet accepts every
    transfer and answers each receipt with the same status. The room answers with
    the hand at showdown until its settlement is completed. *)
Module Deployment.
Record World := mkWorld {
  settled : bool;
  sent : list SettlementTransferRequest;
}.

Section Run.
Context {CO : CardOps} {RO : RankOps} {RN : Rendering}.
Context (state : EngineState) (input : ShowdownInput) (addresses : gmap SeatId string)
  (status : SettlementTxStatus) (confirmations minc : N) (policy : RakePolicy)
  (plan : SettlementPlan).

#[local] Instance clock : Clock World := {| utc_now := λ _, 0 |}.
#[local] Instance ids : FreshIds World := {| fresh_uuid := λ w, (w, 0) |}.
#[local] Instance ledger : LedgerRepository World := {| insert_entries := λ _, mret tt |}.
#[local] Instance repo : SettlementPersistenceRepository World :=
  {| insert_settlement_plan := λ _, mret tt;
     insert_settlement_record := λ _, mret tt;
     update_settlement_record_status_by_tx_hash := λ _, mret tt;
     upsert_settlement_showdown_input := λ _, mret tt |}.
#[local] Instance wallet : SettlementWalletAdapter World :=
  {| submit_transfer := λ request w, (mkWorld (settled w) (sent w ++ [request]), Ok "0xaa"%string);
     get_transfer_receipt := λ h w, (w, Ok (mkReceipt h status confirmations)) |}.
#[local] Instance room : AutoSettlementRoomPort World :=
  {| get_engine_state := λ _ w,
       (w, Ok (Some (if settled w then set_snap_status HSettled state else state)));
     room_complete_settlement := λ _ _ w, (mkWorld true (sent w), Ok tt) |}.
#[local] Instance provider : ShowdownInputProvider World :=
  {| get_showdown_input := λ _ _ w, (w, Ok (Some input));
     get_settlement_seat_addresses := λ _ _ w, (w, Ok addresses) |}.

(** One attempt, as the loop makes it. *)
Definition attempt (room_id : RoomId) (w : World) : World :=
  fst (try_auto_settle_showdown_room room_id policy minc 0 None None w).

Context (Hstatus : hs_status (snapshot state) = HShowdown).
Context (Hplan : build_settlement_plan_from_showdown state input policy = Ok plan).
Context (Hvalue : ∃ payload, plan_to_value plan = Ok payload).
Context (Htotal : ∃ total, payout_total plan = Ok total).
Context (Haddr : Forall (λ p, is_Some (addresses !! po_seat_id p)) (due plan)).
Context (Hdue : due plan ≠ []).

(** The transfers the plan asks for. *)
Definition transfers : list SettlementTransferRequest :=
  map (λ p, transfer_request plan p (default "" (addresses !! po_seat_id p))) (due plan).
Definition settles : bool :=
  bool_decide (settle_status status confirmations minc = TxConfirmed).

Lemma iter_id {X} (f : X → M World string unit) l w :
  (∀ x, f x w = (w, Ok tt)) → M_iter f l w = (w, Ok tt).
Proof. intros Hf. induction l as [|x l IH]; [done|]. cbn [M_iter]. mrun. by rewrite Hf. Qed.

Lemma pay_all l w :
  ∃ subs, M_map (pay_one plan addresses) l w
  = (mkWorld (settled w)
       (sent w ++ map (λ p, transfer_request plan p (default "" (addresses !! po_seat_id p))) l),
     Ok subs) ∧ length subs = length l.
Proof.
  revert w. induction l as [|p l IH]; intros w; cbn [M_map map].
  - exists []. rewrite app_nil_r. by destruct w.
  - mrun. unfold pay_one at 1. mrun. cbn [submit_transfer wallet].
    destruct (IH (mkWorld (settled w) (sent w ++ [transfer_request plan p
      (default "" (addresses !! po_seat_id p))]))) as (subs & Hrun & Hlen). rewrite Hrun.
    eexists. split; [cbn; rewrite <-app_assoc; reflexivity|]. cbn. by rewrite Hlen.
Qed.

Lemma check_all subs w :
  ∃ receipts, check_payout_submissions subs minc w = (w, Ok receipts) ∧
    forallb is_confirmed receipts = (match subs with [] => true | _ => settles end).
Proof.
  unfold check_payout_submissions. induction subs as [|s subs IH]; cbn [M_map].
  - by exists [].
  - destruct IH as (rs & Hrun & Hall). mrun. mrun in Hrun.
    cbn [get_transfer_receipt wallet] in Hrun |- *. rewrite Hrun. eexists. split; [reflexivity|]. cbn [forallb].
    rewrite Hall. unfold is_confirmed, settles. cbn [rc_status rc_confirmations].
    destruct subs; [by rewrite andb_true_r|]. by destruct (bool_decide _).
Qed.

Lemma review_all receipts w r1 r2 :
  ∃ n, mark_failed_receipts_for_manual_review receipts r1 r2 w = (w, Ok n).
Proof.
  induction receipts as [|r receipts [n IH]]; cbn [mark_failed_receipts_for_manual_review].
  - by exists 0%nat.
  - destruct (negb _); [by exists n|]. mrun. cbn. rewrite IH. by eexists.
Qed.

(** An attempt on a hand at showdown sends every transfer of the plan, and
    completes the settlement exactly when the receipts are confirmed. *)
Lemma attempt_effect room_id w :
  settled w = false →
  attempt room_id w = mkWorld settles (sent w ++ transfers).
Proof.
  intros Hw. unfold attempt, try_auto_settle_showdown_room, with_showdown, with_addresses.
  mrun. cbn [get_engine_state room get_showdown_input get_settlement_seat_addresses provider].
  rewrite Hw, bool_decide_true by done. cbn [negb].
  destruct (decide (addresses = ∅)) as [He|_].
  { exfalso. destruct (due plan) as [|p l] eqn:Hd; [done|].
    apply Forall_cons in Haddr as [[a Ha] _]. by rewrite He, lookup_empty in Ha. }
  unfold run_direct_payouts_and_alerts. mrun. rewrite Hplan.
  cbn [new_uuid fresh_uuid ids fst snd].
  destruct Hvalue as [payload Hv], Htotal as [total Ht].
  unfold persist_plan. mrun. rewrite Ht, Hv. unfold now.
  cbn [insert_settlement_plan repo mret M_ret].
  unfold record_settlement_plan, record_plan. mrun. cbn [insert_entries ledger mret M_ret].
  cbn [pi_seat_addresses pi_min_confirmations].
  unfold submit_direct_payouts. rewrite direct_loop_pays by exact Haddr.
  fold (due plan). destruct (pay_all (due plan) w) as (subs & Hpay & Hlen). rewrite Hpay.
  unfold persist_submission_records, emit_settlement_submission_audits,
    persist_receipt_status_updates, emit_settlement_receipt_audits.
  rewrite iter_id by (intros; reflexivity). rewrite iter_id by (intros; reflexivity).
  destruct (check_all subs (mkWorld (settled w) (sent w ++ map (λ p, transfer_request plan p
    (default "" (addresses !! po_seat_id p))) (due plan)))) as (receipts & Hchk & Hall).
  rewrite Hchk, Hall. rewrite iter_id by (intros; reflexivity).
  rewrite iter_id by (intros; reflexivity).
  destruct (review_all receipts (mkWorld (settled w) (sent w ++ map (λ p, transfer_request plan
    p (default "" (addresses !! po_seat_id p))) (due plan))) 1 direct_review_reason)
    as [n Hn]. rewrite Hn.
  unfold emit_manual_review_audits, emit_failed_payout_alerts.
  assert (∃ s0 subs', subs = s0 :: subs') as (s0 & subs' & ->).
  { destruct subs as [|s0 subs']; [|by eauto]. cbn in Hlen. by destruct (due plan). }
  rewrite Hw. fold transfers.
  destruct (0 <? n)%nat; rewrite ?iter_id by (intros x; by destruct (negb _));
    destruct settles; done.
Qed.

Lemma attempt_settled room_id w : settled w = true → attempt room_id w = w.
Proof.
  intros Hw. unfold attempt, try_auto_settle_showdown_room, with_showdown. mrun.
  cbn [get_engine_state room]. rewrite Hw. done.
Qed.
End Run.
End Deployment.

(** The loop attempts every open room on every tick. Against stores and a wallet
    that refuse nothing, a settlement whose receipts are confirmed at the first
    attempt pays every transfer of its plan exactly once, however often the loop
    comes back, and leaves the hand settled; a settlement whose receipts are not
    confirmed (still pending, or below the confirmation threshold) sends the whole
    list of transfers again at every attempt, and the hand stays at showdown. *)
Theorem unconfirmed_payouts_are_sent_again `{CO : CardOps} `{RO : RankOps} `{RN : Rendering}
    state input addresses status confirmations minc policy plan room_id (n : nat) sent0
    (Hstatus : hs_status (snapshot state) = HShowdown)
    (Hplan : build_settlement_plan_from_showdown state input policy = Ok plan)
    (Hvalue : ∃ payload, plan_to_value plan = Ok payload)
    (Htotal : ∃ total, payout_total plan = Ok total)
    (Haddr : Forall (λ p, is_Some (addresses !! po_seat_id p)) (due plan))
    (Hdue : due plan ≠ []) :
  Nat.iter n (Deployment.attempt state input addresses status confirmations minc policy room_id)
      (Deployment.mkWorld false sent0)
  = if decide (settle_status status confirmations minc = TxConfirmed)
    then match n with
         | O => Deployment.mkWorld false sent0
         | S _ => Deployment.mkWorld true (sent0 ++ Deployment.transfers addresses plan)
         end
    else Deployment.mkWorld false
           (sent0 ++ concat (replicate n (Deployment.transfers addresses plan))).
Proof.
  assert (Hone : ∀ w, Deployment.settled w = false →
    Deployment.attempt state input addresses status confirmations minc policy room_id w
    = Deployment.mkWorld (Deployment.settles status confirmations minc)
        (Deployment.sent w ++ Deployment.transfers addresses plan))
    by (intros w Hw; by apply Deployment.attempt_effect).
  unfold Deployment.settles in Hone. case_decide as Hc.
  - rewrite bool_decide_true in Hone by done.
    destruct n as [|n]; [done|]. rewrite Nat.iter_succ_r, Hone by done.
    induction n as [|n IH]; [done|].
    by rewrite Nat.iter_succ_r, Deployment.attempt_settled.
  - rewrite bool_decide_false in Hone by done. revert sent0.
    induction n as [|n IH]; intros sent0; [by rewrite app_nil_r|].
    rewrite Nat.iter_succ_r, Hone by done. rewrite IH. cbn.
    f_equal. symmetry. apply app_assoc.
Qed.

#[local] Instance flow_rendering : Rendering :=
  {| plan_to_value := λ plan, Ok (JArr (map (λ p, json_N (po_amount p)) (pn_payouts plan)));
     rendering_uuid_text :=
       {| uuid_text := λ _, "00000000-0000-0000-0000-000000000000"%string |} |}.
Definition flow_paid_hand : EngineState :=
  flow_hand [0; 1]
    [flow_act 1 0 Call None; flow_act 2 1 Check None; flow_act 3 1 Check None;
     flow_act 4 0 Check None; flow_act 5 1 Check None; flow_act 6 0 Check None;
     flow_act 7 1 Check None; flow_act 8 0 Check None].
Definition flow_paid_input : ShowdownInput :=
  mkShowdownInput [1; 2; 3; 4; 5] [(0, (40, 41)); (1, (10, 11))].
Definition flow_addresses : gmap SeatId string := {[ 0 := "0xa"%string; 1 := "0xb"%string ]}.
Definition flow_plan : SettlementPlan :=
  match build_settlement_plan_from_showdown flow_paid_hand flow_paid_input RakePolicy_zero with
  | Ok plan => plan
  | Err _ => mkPlan 0 0 0 []
  end.

Lemma unconfirmed_payouts_are_sent_again_witness :
  Nat.iter 3 (Deployment.attempt flow_paid_hand flow_paid_input flow_addresses
      TxPending 0 1 RakePolicy_zero 7) (Deployment.mkWorld false [])
  = Deployment.mkWorld false
      (concat (replicate 3 (Deployment.transfers flow_addresses flow_plan)))
  ∧ map tq_amount (Deployment.transfers flow_addresses flow_plan) ≠ [].
Proof.
  split; [|by vm_compute].
  refine (unconfirmed_payouts_are_sent_again flow_paid_hand flow_paid_input _ TxPending 0 1
    RakePolicy_zero flow_plan 7 3 [] _ _ _ _ _ _).
  - by vm_compute.
  - by vm_compute.
  - eexists. vm_compute. reflexivity.
  - eexists. vm_compute. reflexivity.
  - assert (due flow_plan = [mkPayout 0 400000000000000]) as -> by (vm_compute; reflexivity).
    constructor; [exists "0xa"%string; vm_compute; reflexivity|constructor].
  - by vm_compute.
Defined.
