(* ===== verification/SeatCrypto.v ===== *)
(** The sealing of hole cards for a seat ([seat-crypto/src/lib.rs]): an ephemeral
    X25519 key agreement, a key and a nonce derived from the shared secret and the
    address of the event, and an authenticated cipher.

    The primitives are the parameters [SeatCryptoPrimitives]; bytes are
    [Byte.byte], arrays of a fixed length are lists whose length is tested where
    the code converts to an array. *)

From stdpp Require Import base tactics option list strings pretty.
From Stdlib Require Import NArith Lia.
From Stdlib Require Strings.Byte Strings.String.
From S2P Require Import Prelude.
From S2P Require Import Ambient.
From S2P Require Import Domain.

Local Open Scope N_scope.

Abbreviation Bytes := (list Byte.byte) (only parsing).

Inductive SeatCryptoError :=
| InvalidBase64 (message : string)
| InvalidEphemeralPublicKeyLength
| InvalidNonceLength
| Aead
| Hkdf.

(** [x25519_dalek], [hkdf] over SHA-256, ChaCha20-Poly1305 and base64. *)
Class SeatCryptoPrimitives := {
  x25519_public : Bytes → Bytes;
  x25519 : Bytes → Bytes → Bytes;
  hkdf_expand : Bytes → Bytes → Bytes → nat → option Bytes;
  aead_encrypt : Bytes → Bytes → Bytes → Bytes → option Bytes;
  aead_decrypt : Bytes → Bytes → Bytes → Bytes → option Bytes;
  base64_encode : Bytes → string;
  base64_decode : string → result string Bytes;
}.

(** [StaticSecret::random_from_rng(OsRng)] *)
Class EphemeralSecrets (W : Type) := { random_secret : W → W * Bytes }.

Record SeatEventAad := mkSeatEventAad {
  ad_room_id : RoomId;
  ad_hand_id : HandId;
  ad_seat_id : SeatId;
  ad_event_seq : N;
}.

Definition aad_as_bytes `{UuidText} (aad : SeatEventAad) : Bytes :=
  String.list_byte_of_string
    ("room_id=" +:+ uuid_text (ad_room_id aad) +:+ "|hand_id=" +:+ uuid_text (ad_hand_id aad)
     +:+ "|seat_id=" +:+ pretty (ad_seat_id aad) +:+ "|event_seq=" +:+ pretty (ad_event_seq aad)).

Record CipherEnvelope := mkCipherEnvelope {
  ce_key_id : string;
  ce_algorithm : string;
  ce_ephemeral_pubkey_b64 : option string;
  ce_nonce_b64 : string;
  ce_ciphertext_b64 : string;
}.

Record HoleCardsDealtCipherPayload := mkHoleCardsPayload {
  hc_aad : SeatEventAad;
  hc_envelope : CipherEnvelope;
}.

Record HoleCardsDeliveryAuditEvent := mkHoleCardsAudit {
  ha_room_id : RoomId;
  ha_hand_id : HandId;
  ha_seat_id : SeatId;
  ha_event_seq : N;
  ha_key_id : string;
  ha_algorithm : string;
  ha_ciphertext_len : nat;
}.

Definition ALG_X25519_CHACHA20POLY1305 : string := "x25519+hkdf-sha256+chacha20poly1305".

Section SeatCrypto.
Context `{SeatCryptoPrimitives} `{UuidText}.

Definition new_placeholder (key_id : string) (plaintext : Bytes) : CipherEnvelope :=
  mkCipherEnvelope key_id "placeholder" None "" (base64_encode plaintext).

Definition b64 (s : string) : result SeatCryptoError Bytes :=
  result_map_err InvalidBase64 (base64_decode s).

Definition decode_ciphertext (e : CipherEnvelope) : result SeatCryptoError Bytes :=
  b64 (ce_ciphertext_b64 e).

Definition seat_crypto_salt : Bytes := String.list_byte_of_string "seat-crypto-v1".

Definition derive_aead_key (shared_secret aad : Bytes) : result SeatCryptoError Bytes :=
  ok_or Hkdf
    (hkdf_expand seat_crypto_salt shared_secret (String.list_byte_of_string "aead-key" ++ aad) 32).

Definition derive_nonce (shared_secret aad : Bytes) : result SeatCryptoError Bytes :=
  ok_or Hkdf
    (hkdf_expand seat_crypto_salt shared_secret (String.list_byte_of_string "aead-nonce" ++ aad) 12).

(** [bytes.try_into::<[u8; n]>()] *)
Definition to_array (n : nat) (e : SeatCryptoError) (bytes : Bytes)
    : result SeatCryptoError Bytes :=
  if (length bytes =? n)%nat then Ok bytes else Err e.

Definition decrypt_with_x25519_secret (e : CipherEnvelope) (recipient_secret : Bytes)
    (aad : SeatEventAad) : result SeatCryptoError Bytes :=
  if negb (String.eqb (ce_algorithm e) ALG_X25519_CHACHA20POLY1305) then decode_ciphertext e
  else
    eph_b64 ← ok_or InvalidEphemeralPublicKeyLength (ce_ephemeral_pubkey_b64 e);
    eph_pubkey_bytes ← b64 eph_b64;
    eph_pubkey ← to_array 32 InvalidEphemeralPublicKeyLength eph_pubkey_bytes;
    nonce_bytes ← b64 (ce_nonce_b64 e);
    nonce ← to_array 12 InvalidNonceLength nonce_bytes;
    ciphertext ← b64 (ce_ciphertext_b64 e);
    let shared := x25519 recipient_secret eph_pubkey in
    sym_key ← derive_aead_key shared (aad_as_bytes aad);
    ok_or Aead (aead_decrypt sym_key nonce (aad_as_bytes aad) ciphertext).

Definition encrypt_for_recipient_x25519_with_ephemeral (key_id : string)
    (recipient_public : Bytes) (aad : SeatEventAad) (plaintext ephemeral_secret : Bytes)
    : result SeatCryptoError CipherEnvelope :=
  let eph_public := x25519_public ephemeral_secret in
  let shared := x25519 ephemeral_secret recipient_public in
  aead_key ← derive_aead_key shared (aad_as_bytes aad);
  nonce ← derive_nonce shared (aad_as_bytes aad);
  ciphertext ← ok_or Aead (aead_encrypt aead_key nonce (aad_as_bytes aad) plaintext);
  Ok (mkCipherEnvelope key_id ALG_X25519_CHACHA20POLY1305 (Some (base64_encode eph_public))
        (base64_encode nonce) (base64_encode ciphertext)).

Context {W : Type} `{EphemeralSecrets W}.

Definition new_secret {E} : M W E Bytes := λ w, let '(w, secret) := random_secret w in (w, Ok secret).

Definition encrypt_for_recipient_x25519 (key_id : string) (recipient_public : Bytes)
    (aad : SeatEventAad) (plaintext : Bytes) : M W SeatCryptoError CipherEnvelope :=
  eph_secret ← new_secret;
  lift_result (encrypt_for_recipient_x25519_with_ephemeral key_id recipient_public aad plaintext
                 eph_secret).

Definition decrypt_with_recipient_x25519 (recipient_secret : Bytes) (aad : SeatEventAad)
    (e : CipherEnvelope) : result SeatCryptoError Bytes :=
  decrypt_with_x25519_secret e recipient_secret aad.

Definition encrypt_hole_cards_dealt_payload (key_id : string) (recipient_public : Bytes)
    (aad : SeatEventAad) (plaintext_payload : Bytes)
    : M W SeatCryptoError HoleCardsDealtCipherPayload :=
  e ← encrypt_for_recipient_x25519 key_id recipient_public aad plaintext_payload;
  mret (mkHoleCardsPayload aad e).

(** The audit sink's failure is dropped. *)
Definition encrypt_hole_cards_dealt_payload_with_audit (key_id : string)
    (recipient_public : Bytes) (aad : SeatEventAad) (plaintext_payload : Bytes)
    (audit_sink : option (HoleCardsDeliveryAuditEvent → M W string unit))
    : M W SeatCryptoError HoleCardsDealtCipherPayload :=
  payload ← encrypt_hole_cards_dealt_payload key_id recipient_public aad plaintext_payload;
  (match audit_sink with
   | None => mret tt
   | Some sink =>
       ignore_error (sink (mkHoleCardsAudit (ad_room_id aad) (ad_hand_id aad) (ad_seat_id aad)
         (ad_event_seq aad) key_id (ce_algorithm (hc_envelope payload))
         (String.length (ce_ciphertext_b64 (hc_envelope payload)))))
   end);;
  mret payload.
End SeatCrypto.
