(* ===== verification/SeatCryptoProps.v ===== *)
(** Properties of the sealing of hole cards: the seat it was made for opens it, the
    address that is authenticated names one event only, and an envelope with
    another label is not authenticated at all. *)

From stdpp Require Import base tactics option list strings pretty.
From Stdlib Require Import NArith Lia Ascii.
From Stdlib Require Strings.Byte Strings.String.
From S2P Require Import Prelude.
From S2P Require Import Text.
From S2P Require Import Ambient.
From S2P Require Import Domain.
From S2P Require Import JsonRpc.
From S2P Require Import SeatCrypto.

Local Open Scope N_scope.

(** What the primitives are documented to do. *)
Class SeatCryptoLaws `{SP : SeatCryptoPrimitives} : Prop := {
  x25519_agrees : ∀ a b, x25519 a (x25519_public b) = x25519 b (x25519_public a);
  x25519_public_length : ∀ a, length (x25519_public a) = 32%nat;
  hkdf_length : ∀ salt ikm info n out, hkdf_expand salt ikm info n = Some out → length out = n;
  aead_opens : ∀ k n ad m c, aead_encrypt k n ad m = Some c → aead_decrypt k n ad c = Some m;
  base64_reads : ∀ l, base64_decode (base64_encode l) = Ok l;
}.

(** ** The address of an event *)

Lemma aad_as_bytes_inj `{UuidTextLaws} a b : aad_as_bytes a = aad_as_bytes b → a = b.
Proof.
  destruct a as [room hand seat seq], b as [room' hand' seat' seq'].
  intros Heq%list_byte_inj. cbn in Heq. repeat (injection Heq as Heq).
  apply split_at_bar in Heq as [Hroom Heq]; try apply uuid_text_no_bar.
  repeat (injection Heq as Heq).
  apply split_at_bar in Heq as [Hhand Heq]; try apply uuid_text_no_bar.
  repeat (injection Heq as Heq).
  apply split_at_bar in Heq as [Hseat Heq]; try apply pretty_no_bar.
  repeat (injection Heq as Heq).
  apply uuid_text_inj in Hroom, Hhand. apply (inj pretty) in Hseat, Heq. by subst.
Qed.

(** ** Sealing and opening *)

Section Sealing.
Context {SP : SeatCryptoPrimitives} {SL : SeatCryptoLaws} {UT : UuidText} {UL : UuidTextLaws}.

Lemma to_array_length n e bytes : length bytes = n → to_array n e bytes = Ok bytes.
Proof. intros <-. unfold to_array. by rewrite Nat.eqb_refl. Qed.

Lemma derive_nonce_length shared aad nonce :
  derive_nonce shared aad = Ok nonce → length nonce = 12%nat.
Proof.
  unfold derive_nonce. destruct (hkdf_expand _ _ _ 12) eqn:Hh; [|done].
  intros [= ->]. by apply hkdf_length in Hh.
Qed.

(** C40. What is sealed for a seat is opened with the seat's secret and the same
    event address, whatever the ephemeral secret; the address that key, nonce and
    authentication depend on determines the room, the hand, the seat and the number
    of the event. An envelope that carries any other algorithm label, however, is
    opened by anyone, for any address: its content is only decoded, not
    authenticated. *)
Theorem sealed_cards_open_for_their_seat key_id secret aad plaintext ephemeral envelope
    (Hseal : encrypt_for_recipient_x25519_with_ephemeral key_id (x25519_public secret) aad
               plaintext ephemeral = Ok envelope) :
  decrypt_with_recipient_x25519 secret aad envelope = Ok plaintext ∧
  (∀ aad', aad_as_bytes aad' = aad_as_bytes aad → aad' = aad) ∧
  (∀ label any_secret any_aad forged, label ≠ ALG_X25519_CHACHA20POLY1305 →
     decrypt_with_recipient_x25519 any_secret any_aad
       (mkCipherEnvelope key_id label None "" (base64_encode forged)) = Ok forged).
Proof.
  split; [|split; [by intros aad'; apply aad_as_bytes_inj|]].
  - unfold encrypt_for_recipient_x25519_with_ephemeral in Hseal. mrun in Hseal.
    destruct (derive_aead_key _ _) as [key|] eqn:Hkey; [|done].
    destruct (derive_nonce _ _) as [nonce|] eqn:Hnonce; [|done].
    destruct (aead_encrypt key nonce _ plaintext) as [c|] eqn:Henc; [|done].
    injection Hseal as <-. apply derive_nonce_length in Hnonce.
    unfold decrypt_with_recipient_x25519, decrypt_with_x25519_secret, b64. mrun.
    cbn [ce_algorithm ce_ephemeral_pubkey_b64 ce_nonce_b64 ce_ciphertext_b64].
    rewrite String.eqb_refl. cbn [negb]. rewrite !base64_reads.
    rewrite !to_array_length by (done || apply x25519_public_length).
    rewrite x25519_agrees, Hkey. by rewrite (aead_opens _ _ _ _ _ Henc).
  - intros label s a forged Hl. unfold decrypt_with_recipient_x25519, decrypt_with_x25519_secret.
    cbn [ce_algorithm]. rewrite (proj2 (String.eqb_neq _ _)) by done. cbn [negb].
    unfold decode_ciphertext, b64. cbn [ce_ciphertext_b64]. by rewrite base64_reads.
Qed.
End Sealing.

(** ** An instance of the laws

    Key agreement by exclusive or, a cipher that prefixes its key, a text that is
    the bytes themselves. *)
Definition byte_xor (a b : Byte.byte) : Byte.byte :=
  default Byte.x00 (Byte.of_N (N.lxor (Byte.to_N a) (Byte.to_N b))).
Definition pad (n : nat) (l : Bytes) : Bytes := take n (l ++ replicate n Byte.x00).
Fixpoint strip_prefix (p l : Bytes) : option Bytes :=
  match p, l with
  | [], _ => Some l
  | x :: p, y :: l => if Byte.eqb x y then strip_prefix p l else None
  | _, [] => None
  end.
#[local] Instance toy_crypto : SeatCryptoPrimitives :=
  {| x25519_public := pad 32;
     x25519 := λ a p, zip_with byte_xor (pad 32 a) p;
     hkdf_expand := λ salt ikm info n, Some (pad n (ikm ++ info));
     aead_encrypt := λ k n ad m, Some (k ++ n ++ ad ++ m);
     aead_decrypt := λ k n ad c, strip_prefix (k ++ n ++ ad) c;
     base64_encode := String.string_of_list_byte;
     base64_decode := λ s, Ok (String.list_byte_of_string s) |}.
#[local] Instance toy_uuid_text : UuidText := {| uuid_text := pretty |}.

Lemma pad_length n l : length (pad n l) = n.
Proof. unfold pad. rewrite length_take, length_app, length_replicate. lia. Qed.

Lemma strip_prefix_app p l : strip_prefix p (p ++ l) = Some l.
Proof.
  induction p as [|x p IH]; [by destruct l|]. cbn. by rewrite (Byte.byte_dec_lb eq_refl).
Qed.

#[local] Instance toy_crypto_laws : SeatCryptoLaws.
Proof.
  split.
  - intros a b. cbn. assert (∀ k l, zip_with byte_xor k l = zip_with byte_xor l k) as Hc.
    { induction k as [|x k IH]; intros [|y l]; cbn; [done..|]. rewrite IH. f_equal.
      unfold byte_xor. by rewrite N.lxor_comm. }
    apply Hc.
  - intros a. apply pad_length.
  - intros salt ikm info n out [= <-]. apply pad_length.
  - intros k n ad m c [= <-]. cbn. rewrite !(assoc_L (++)). apply strip_prefix_app.
  - intros l. exact (f_equal Ok (String.list_byte_of_string_of_list_byte l)).
Qed.
#[local] Instance toy_uuid_laws : UuidTextLaws.
Proof. split; intros a; [intros b; apply (inj pretty)|apply pretty_no_bar|apply pretty_nonempty]. Qed.

Lemma sealed_cards_open_for_their_seat_witness :
  let aad := mkSeatEventAad 1 2 3 4 in
  ∃ envelope,
    encrypt_for_recipient_x25519_with_ephemeral "k" (x25519_public [Byte.x07]) aad
      [Byte.x2a] [Byte.x05] = Ok envelope ∧
    decrypt_with_recipient_x25519 [Byte.x07] aad envelope = Ok [Byte.x2a].
Proof.
  intros aad. eexists. split; [reflexivity|].
  refine (proj1 (sealed_cards_open_for_their_seat "k" [Byte.x07] aad [Byte.x2a] [Byte.x05] _ _)).
  reflexivity.
Defined.
