(* ===== verification/TableService.v ===== *)
(** The room actor ([table-service/src/lib.rs]): one handler per [RoomCommand] over
    the actor's local variables, which [RoomState] collects, in the order of the
    code's loop.

    An [Actor] is the task: its variables, its mailbox and the world it talks to.
    Every call of the event sink and every reply is an output, in order: the code
    drops the results of the sink, so nothing else depends on them. The error type
    of a handler is empty: the loop never fails. What the actor takes from outside
    are the clocks, fresh identifiers, the shuffle, the node of the chain and the
    sealing of cards. *)

From stdpp Require Import base tactics option list gmap strings pretty.
From Stdlib Require Import NArith ZArith Lia.
From S2P Require Import Prelude.
From S2P Require Import Ambient.
From S2P Require Import Text.
From S2P Require Import Domain.
From S2P Require Import EngineState.
From S2P Require Import Engine.
From S2P Require Import LedgerStore.
From S2P Require Import JsonRpc.
From S2P Require Import ChainWatcher.
From S2P Require Import SeatCrypto.

Local Open Scope N_scope.

(** ** Constants and data *)

(** Durations in milliseconds. *)
Definition DEFAULT_STEP_TIMEOUT : N := 360000.
Definition TURN_REMINDER_INTERVAL : N := 20000.
Definition PENDING_WARN_INTERVAL : N := 10000.
Definition DEFAULT_CHAIN_VERIFY_MIN_CONFIRMATIONS : N := 1.

Record RoomActorConfig := mkRoomActorConfig {
  cf_chain_verify_rpc_endpoint : option string;
  cf_chain_verify_min_confirmations : N;
}.
Definition RoomActorConfig_default : RoomActorConfig :=
  mkRoomActorConfig None DEFAULT_CHAIN_VERIFY_MIN_CONFIRMATIONS.

Record ChainTxVerifiedCallback := mkChainCallback {
  cb_tx_hash : string;
  cb_status : string;
  cb_confirmations : N;
  cb_hand_id : option HandId;
  cb_seat_id : option SeatId;
  cb_action_seq : option N;
  cb_failure_reason : option string;
}.

(** [Instant::now()] in milliseconds; [duration_since] saturates at zero. *)
Record PendingChainAction := mkPending {
  pc_action : PlayerAction;
  pc_queued_at : N;
  pc_last_warn_at : option N;
}.

Record TurnSchedulerState := mkTurnScheduler {
  ts_hand_id : HandId;
  ts_action_seq : N;
  ts_seat_id : SeatId;
  ts_started_at : N;
  ts_last_reminder_at : option N;
}.

Record RoomBehaviorEvent := mkRoomBehaviorEvent {
  rb_room_id : RoomId;
  rb_occurred_at_unix_ms : N;
  rb_trace_id : TraceId;
  rb_kind : AuditBehaviorEventKind;
}.

Record SeatPrivateEvent := mkSeatPrivateEvent {
  sp_room_id : RoomId;
  sp_hand_id : HandId;
  sp_seat_id : SeatId;
  sp_event_name : string;
  sp_payload : Json;
}.

(** [oneshot::Sender]: the address of a reply. *)
Abbreviation ReplyTo := N (only parsing).

Inductive RoomCommand :=
| Join (seat_id : SeatId)
| Leave (seat_id : SeatId)
| BindAddress (seat_id : SeatId) (seat_address : string)
| BindSessionKeys (seat_id : SeatId)
    (card_encrypt_pubkey request_verify_pubkey key_algo proof_signature : string)
| Ready (seat_id : SeatId)
| GetState (reply : ReplyTo)
| GetEngineState (reply : ReplyTo)
| GetLegalActions (seat_id : SeatId) (reply : ReplyTo)
| GetPrivateEvents (seat_id : SeatId) (hand_id : option HandId) (reply : ReplyTo)
| Act (action : PlayerAction) (reply : ReplyTo)
| QueuePendingChainAction (tx_hash : string) (action : PlayerAction) (reply : ReplyTo)
| ChainTxVerified (callback : ChainTxVerifiedCallback)
| CompleteSettlement (hand_id : HandId)
| TurnTimeoutElapsed (expected_generation : N)
| TurnReminderElapsed (expected_generation : N)
| SchedulerTick.

(** ** Error texts ([Display]) *)
Definition domain_error_text (e : DomainError) : string :=
  match e with
  | InvalidRoomState => "invalid room state"
  | InvalidHandState => "invalid hand state"
  | ActionIllegal => "action is not legal"
  | NotYourTurn => "not your turn"
  end.
Definition engine_error_text (e : EngineError) : string :=
  match e with
  | Domain e => domain_error_text e
  | Money Overflow => "amount overflow"
  | Money Underflow => "amount underflow"
  | NotEnoughPlayersToDeal => "not enough seated players to deal"
  | InsufficientDeck => "deck does not contain enough cards"
  | DuplicateCardsInDeck => "deck contains duplicate cards"
  end.

(** ** What the actor takes from outside *)

(** [deck.shuffle(&mut rand::thread_rng())] *)
Class Shuffler `{CardOps} (W : Type) := { draw_shuffle : W → W * (list Card → list Card) }.

(** [serde_json::to_vec], [serde_json::to_value] and [<[u8; 32]>::from_hex]. *)
Class RoomCodec := {
  json_to_vec : Json → option Bytes;
  cipher_payload_to_value : HoleCardsDealtCipherPayload → option Json;
  pubkey_from_hex : string → option Bytes;
}.

Section Room.
Context {CO : CardOps}.

Record RoomState := mkRoomState {
  rs_state : EngineState;
  rs_seated : gset SeatId;
  rs_ready : gset SeatId;
  rs_bound_addresses : gmap SeatId string;
  rs_request_pubkeys : gmap SeatId string;
  rs_card_pubkeys : gmap SeatId string;
  rs_pending_chain_actions : gmap string PendingChainAction;
  rs_private_events : list SeatPrivateEvent;
  rs_timeout_generation : N;
  rs_next_hand_event_seq : N;
  rs_turn_scheduler : option TurnSchedulerState;
}.

Definition set_state (v : EngineState) (r : RoomState) : RoomState :=
  mkRoomState v (rs_seated r) (rs_ready r) (rs_bound_addresses r) (rs_request_pubkeys r)
    (rs_card_pubkeys r) (rs_pending_chain_actions r) (rs_private_events r)
    (rs_timeout_generation r) (rs_next_hand_event_seq r) (rs_turn_scheduler r).
Definition set_seated (v : gset SeatId) (r : RoomState) : RoomState :=
  mkRoomState (rs_state r) v (rs_ready r) (rs_bound_addresses r) (rs_request_pubkeys r)
    (rs_card_pubkeys r) (rs_pending_chain_actions r) (rs_private_events r)
    (rs_timeout_generation r) (rs_next_hand_event_seq r) (rs_turn_scheduler r).
Definition set_ready (v : gset SeatId) (r : RoomState) : RoomState :=
  mkRoomState (rs_state r) (rs_seated r) v (rs_bound_addresses r) (rs_request_pubkeys r)
    (rs_card_pubkeys r) (rs_pending_chain_actions r) (rs_private_events r)
    (rs_timeout_generation r) (rs_next_hand_event_seq r) (rs_turn_scheduler r).
Definition set_bound_addresses (v : gmap SeatId string) (r : RoomState) : RoomState :=
  mkRoomState (rs_state r) (rs_seated r) (rs_ready r) v (rs_request_pubkeys r)
    (rs_card_pubkeys r) (rs_pending_chain_actions r) (rs_private_events r)
    (rs_timeout_generation r) (rs_next_hand_event_seq r) (rs_turn_scheduler r).
Definition set_request_pubkeys (v : gmap SeatId string) (r : RoomState) : RoomState :=
  mkRoomState (rs_state r) (rs_seated r) (rs_ready r) (rs_bound_addresses r) v
    (rs_card_pubkeys r) (rs_pending_chain_actions r) (rs_private_events r)
    (rs_timeout_generation r) (rs_next_hand_event_seq r) (rs_turn_scheduler r).
Definition set_card_pubkeys (v : gmap SeatId string) (r : RoomState) : RoomState :=
  mkRoomState (rs_state r) (rs_seated r) (rs_ready r) (rs_bound_addresses r)
    (rs_request_pubkeys r) v (rs_pending_chain_actions r) (rs_private_events r)
    (rs_timeout_generation r) (rs_next_hand_event_seq r) (rs_turn_scheduler r).
Definition set_pending_chain_actions (v : gmap string PendingChainAction) (r : RoomState) : RoomState :=
  mkRoomState (rs_state r) (rs_seated r) (rs_ready r) (rs_bound_addresses r)
    (rs_request_pubkeys r) (rs_card_pubkeys r) v (rs_private_events r)
    (rs_timeout_generation r) (rs_next_hand_event_seq r) (rs_turn_scheduler r).
Definition set_private_events (v : list SeatPrivateEvent) (r : RoomState) : RoomState :=
  mkRoomState (rs_state r) (rs_seated r) (rs_ready r) (rs_bound_addresses r)
    (rs_request_pubkeys r) (rs_card_pubkeys r) (rs_pending_chain_actions r) v
    (rs_timeout_generation r) (rs_next_hand_event_seq r) (rs_turn_scheduler r).
Definition set_timeout_generation (v : N) (r : RoomState) : RoomState :=
  mkRoomState (rs_state r) (rs_seated r) (rs_ready r) (rs_bound_addresses r)
    (rs_request_pubkeys r) (rs_card_pubkeys r) (rs_pending_chain_actions r)
    (rs_private_events r) v (rs_next_hand_event_seq r) (rs_turn_scheduler r).
Definition set_next_hand_event_seq (v : N) (r : RoomState) : RoomState :=
  mkRoomState (rs_state r) (rs_seated r) (rs_ready r) (rs_bound_addresses r)
    (rs_request_pubkeys r) (rs_card_pubkeys r) (rs_pending_chain_actions r)
    (rs_private_events r) (rs_timeout_generation r) v (rs_turn_scheduler r).
Definition set_turn_scheduler (v : option TurnSchedulerState) (r : RoomState) : RoomState :=
  mkRoomState (rs_state r) (rs_seated r) (rs_ready r) (rs_bound_addresses r)
    (rs_request_pubkeys r) (rs_card_pubkeys r) (rs_pending_chain_actions r)
    (rs_private_events r) (rs_timeout_generation r) (rs_next_hand_event_seq r) v.

Definition RoomState_new (room_id : RoomId) (hand_id : HandId) : RoomState :=
  mkRoomState (EngineState_new room_id 1 hand_id) ∅ ∅ ∅ ∅ ∅ ∅ [] 0 1 None.

(** What a command is answered with. *)
Inductive RoomReply :=
| ReplyState (snapshot : option HandSnapshot)
| ReplyEngineState (state : option EngineState)
| ReplyLegalActions (actions : list LegalAction)
| ReplyPrivateEvents (events : list SeatPrivateEvent)
| ReplyAct (r : result string EngineActionResult)
| ReplyQueued (r : result string unit).

(** The calls of the event sink and the replies. *)
Inductive RoomOutput :=
| UpsertHandSnapshot (snapshot : HandSnapshot)
| AppendHandEvents (events : list HandEvent)
| RecordBehaviorEvent (event : RoomBehaviorEvent)
| AppendPrivateEvents (events : list SeatPrivateEvent)
| Reply (to : ReplyTo) (reply : RoomReply).
End Room.

Record Actor `{CardOps} (W : Type) := mkActor {
  ac_world : W;
  ac_room : RoomState;
  ac_mailbox : list RoomCommand;
  ac_out : list RoomOutput;
}.
Arguments mkActor {_ _} _ _ _ _.
Arguments ac_world {_ _} _.
Arguments ac_room {_ _} _.
Arguments ac_mailbox {_ _} _.
Arguments ac_out {_ _} _.

(** ** The handlers *)

Section Handlers.
Context {CO : CardOps} {W : Type}.
Context {CK : Clock W} {FI : FreshIds W} {MC : MonotonicClock W} {SH : Shuffler W}.
Context {CR : SeatCryptoPrimitives} {UT : UuidText} {ES : EphemeralSecrets W} {RC : RoomCodec}.
Context {TR : JsonRpcTransport W}.
Context (room_id : RoomId) (queue_capacity : nat) (config : RoomActorConfig).

(** A handler cannot fail. *)
Abbreviation H A := (M (Actor W) Empty_set A) (only parsing).

Definition modify_room (f : RoomState → RoomState) : H unit :=
  modify (λ a, mkActor (ac_world a) (f (ac_room a)) (ac_mailbox a) (ac_out a)).
Definition room : H RoomState := λ a, (a, Ok (ac_room a)).
Definition output (o : RoomOutput) : H unit :=
  modify (λ a, mkActor (ac_world a) (ac_room a) (ac_mailbox a) (ac_out a ++ [o])).

(** A call to the outside, and one to the engine on the actor's state: the outcome
    is a value. *)
Definition outside {E A} (m : M W E A) : H (result E A) :=
  λ a, let '(w, r) := m (ac_world a) in
       (mkActor w (ac_room a) (ac_mailbox a) (ac_out a), Ok r).
Definition draw {A} (f : W → W * A) : H A :=
  λ a, let '(w, x) := f (ac_world a) in
       (mkActor w (ac_room a) (ac_mailbox a) (ac_out a), Ok x).
Definition engine {A} (m : M EngineState EngineError A) : H (result EngineError A) :=
  λ a, let '(s, r) := m (rs_state (ac_room a)) in
       (mkActor (ac_world a) (set_state s (ac_room a)) (ac_mailbox a) (ac_out a), Ok r).

(** ** Events *)

Definition utc : H DateTime := draw (λ w, (w, utc_now w)).
Definition instant : H N := draw (λ w, (w, instant_now w)).

Definition new_hand_event (hand_id : HandId) (kind : HandEventKind) : H HandEvent :=
  r ← room;
  trace_id ← draw fresh_uuid;
  occurred_at ← utc;
  modify_room (set_next_hand_event_seq (sat_add u32_max (rs_next_hand_event_seq r) 1));;
  mret (mkHandEvent room_id hand_id (rs_next_hand_event_seq r) trace_id occurred_at kind).

Definition append_hand_event (hand_id : HandId) (kind : HandEventKind) : H unit :=
  event ← new_hand_event hand_id kind;
  output (AppendHandEvents [event]).

Definition record_behavior (kind : AuditBehaviorEventKind) : H unit :=
  occurred_at ← utc;
  trace_id ← draw fresh_uuid;
  output (RecordBehaviorEvent (mkRoomBehaviorEvent room_id occurred_at trace_id kind)).

Definition bump_generation : H unit :=
  modify_room (λ r, set_timeout_generation (sat_add u64_max (rs_timeout_generation r) 1) r).
Definition clear_scheduler : H unit := modify_room (set_turn_scheduler None).

Definition action_event_kinds (s : EngineState) (submitted_action : PlayerAction)
    (engine_result : EngineActionResult) : list HandEventKind :=
  let '(Accepted street_changed) := engine_result in
  [ActionAccepted submitted_action; PotUpdated (hs_pot_total (snapshot s))]
    ++ match street_changed with
       | Some street => [StreetChanged street]
       | None => []
       end
    ++ match hs_acting_seat_id (snapshot s) with
       | Some next_seat_id => [TurnStarted next_seat_id]
       | None =>
           match hs_status (snapshot s) with
           | HSettled | HAborted => [HandClosed]
           | _ => []
           end
       end.

(** Whether the turn passed to somebody or the hand was closed. *)
Definition turn_passed (s : EngineState) : bool :=
  match hs_acting_seat_id (snapshot s) with
  | Some _ => true
  | None => match hs_status (snapshot s) with HSettled | HAborted => true | _ => false end
  end.

Definition emit_post_action_hand_events (submitted_action : PlayerAction)
    (engine_result : EngineActionResult) : H unit :=
  r ← room;
  let s := rs_state r in
  hand_events ← M_map (new_hand_event (hs_hand_id (snapshot s)))
                  (action_event_kinds s submitted_action engine_result);
  M_when (turn_passed s) bump_generation;;
  output (AppendHandEvents hand_events).

(** [engine.apply_action] with the snapshot and the events of an accepted action. *)
Definition play (action : PlayerAction) : H (result EngineError EngineActionResult) :=
  outcome ← engine (apply_action action);
  match outcome with
  | Ok engine_result =>
      r ← room;
      output (UpsertHandSnapshot (snapshot (rs_state r)));;
      emit_post_action_hand_events action engine_result;;
      mret outcome
  | Err _ => mret outcome
  end.

Definition is_ok {E A} (r : result E A) : bool := match r with Ok _ => true | Err _ => false end.

(** ** Seats *)

Definition handle_join (seat_id : SeatId) : H unit :=
  modify_room (λ r, set_seated ({[seat_id]} ∪ rs_seated r) r);;
  modify_room (λ r, set_state (seat_player seat_id (rs_state r)) r);;
  modify_room (λ r, set_ready (rs_ready r ∖ {[seat_id]}) r);;
  record_behavior (SeatJoined seat_id).

Definition handle_leave (seat_id : SeatId) : H unit :=
  modify_room (λ r, set_seated (rs_seated r ∖ {[seat_id]}) r);;
  modify_room (λ r, set_ready (rs_ready r ∖ {[seat_id]}) r);;
  modify_room (λ r, set_bound_addresses (delete seat_id (rs_bound_addresses r)) r);;
  record_behavior (SeatLeft seat_id).

Definition handle_bind_address (seat_id : SeatId) (seat_address : string) : H unit :=
  r ← room;
  M_when (bool_decide (seat_id ∈ rs_seated r))
    (modify_room (λ r, set_bound_addresses (<[seat_id := seat_address]> (rs_bound_addresses r)) r);;
     record_behavior (SeatAddressBound seat_id)).

Definition handle_bind_session_keys (seat_id : SeatId)
    (card_encrypt_pubkey request_verify_pubkey key_algo : string) : H unit :=
  r ← room;
  M_when (bool_decide (seat_id ∈ rs_seated r))
    (modify_room (λ r, set_card_pubkeys (<[seat_id := card_encrypt_pubkey]> (rs_card_pubkeys r)) r);;
     modify_room (λ r, set_request_pubkeys
                         (<[seat_id := request_verify_pubkey]> (rs_request_pubkeys r)) r);;
     record_behavior (SeatSessionKeysBound seat_id key_algo)).

(** ** The start of a hand *)

Definition hole_cards_event (s : EngineState) (card_pubkeys : gmap SeatId string)
    (event_seq : N) (entry : SeatId * (Card * Card)) : H (option SeatPrivateEvent) :=
  let '(seat_id, (c0, c1)) := entry in
  match card_pubkeys !! seat_id ≫= pubkey_from_hex with
  | None => mret None
  | Some recipient_public =>
      let aad := mkSeatEventAad (hs_room_id (snapshot s)) (hs_hand_id (snapshot s)) seat_id
                   event_seq in
      match json_to_vec (JObj [("cards", JArr [json_N (card_to_u8 c0);
                                               json_N (card_to_u8 c1)])]) with
      | None => mret None
      | Some plaintext =>
          payload ← outside (encrypt_hole_cards_dealt_payload
                      ("seat-card-key-" +:+ pretty seat_id) recipient_public aad plaintext);
          mret (match payload with
                | Err _ => None
                | Ok payload =>
                    (λ payload_json,
                       mkSeatPrivateEvent (hs_room_id (snapshot s)) (hs_hand_id (snapshot s))
                         seat_id "hole_cards_dealt" payload_json)
                      <$> cipher_payload_to_value payload
                end)
      end
  end.

Definition build_hole_cards_private_events (s : EngineState)
    (card_pubkeys : gmap SeatId string) (event_seq : N) : H (list SeatPrivateEvent) :=
  match dealing s with
  | None => mret []
  | Some d =>
      events ← M_map (hole_cards_event s card_pubkeys event_seq) (map_to_list (d_hole_cards d));
      mret (omap id events)
  end.

(** The ready seats with an address and both keys. *)
Definition eligible_ready (r : RoomState) : list SeatId :=
  sortN (filter (λ sid, is_Some (rs_bound_addresses r !! sid) ∧ is_Some (rs_card_pubkeys r !! sid)
                        ∧ is_Some (rs_request_pubkeys r !! sid)) (elements (rs_ready r))).

(** The snapshot, the sealed cards and the first two events of the hand. *)
Definition publish_hand (seat_id : SeatId) : H unit :=
  r ← room;
  output (UpsertHandSnapshot (snapshot (rs_state r)));;
  new_private_events ← build_hole_cards_private_events (rs_state r) (rs_card_pubkeys r)
                         (rs_next_hand_event_seq r);
  M_when (negb (length new_private_events =? 0)%nat)
    (modify_room (λ r, set_private_events (rs_private_events r ++ new_private_events) r);;
     output (AppendPrivateEvents new_private_events));;
  hand_started ← new_hand_event (hs_hand_id (snapshot (rs_state r))) HandStarted;
  turn_started ← new_hand_event (hs_hand_id (snapshot (rs_state r)))
                   (TurnStarted (default seat_id (hs_acting_seat_id (snapshot (rs_state r)))));
  output (AppendHandEvents [hand_started; turn_started]).

Definition announce_hand (seat_id : SeatId) : H unit :=
  publish_hand seat_id;;
  bump_generation;;
  clear_scheduler.

Definition handle_ready (seat_id : SeatId) : H unit :=
  r ← room;
  M_when (bool_decide (seat_id ∈ rs_seated r))
    (modify_room (λ r, set_ready ({[seat_id]} ∪ rs_ready r) r);;
     r ← room;
     M_when (bool_decide (hs_acting_seat_id (snapshot (rs_state r)) = None)
             && (2 <=? length (eligible_ready r))%nat)
       (new_hand_id ← draw fresh_uuid;
        shuffle ← draw draw_shuffle;
        dealt ← engine (deal_new_hand_internal new_hand_id shuffle);
        M_when (is_ok dealt) (announce_hand seat_id))).

(** ** Questions *)

Definition private_events_for (seat_id : SeatId) (hand_id : option HandId)
    (events : list SeatPrivateEvent) : list SeatPrivateEvent :=
  filter (λ ev, Is_true (match hand_id with Some h => sp_hand_id ev =? h | None => true end))
    (filter (λ ev, sp_seat_id ev = seat_id) events).

(** ** Actions *)

Definition handle_act (action : PlayerAction) (reply : ReplyTo) : H unit :=
  outcome ← play action;
  M_when (is_ok outcome) clear_scheduler;;
  output (Reply reply (ReplyAct (result_map_err engine_error_text outcome))).

Definition handle_queue_pending (tx_hash : string) (action : PlayerAction) (reply : ReplyTo)
    : H unit :=
  queued_at ← instant;
  modify_room (λ r, set_pending_chain_actions
    (<[tx_hash := mkPending action queued_at None]> (rs_pending_chain_actions r)) r);;
  record_behavior
    (ChainTxVerificationCallback None None tx_hash "pending_action_queued" 0 None);;
  output (Reply reply (ReplyQueued (Ok tt))).

Definition concerns_current_hand (cb : ChainTxVerifiedCallback) (s : EngineState) : bool :=
  bool_decide (cb_hand_id cb = Some (hs_hand_id (snapshot s))).
Definition is_negative (status : string) : bool :=
  String.eqb status "failed" || String.eqb status "unmatched".
Definition is_open (status : HandStatus) : bool :=
  match status with HRunning | HShowdown | HSettling => true | _ => false end.

(** [status = ..; acting_seat_id = None] in the three places. *)
Definition close_hand (status : HandStatus) (s : EngineState) : EngineState :=
  set_round_acting None (set_hand_acting None (set_snap_acting None (set_snap_status status s))).

Definition close_and_announce (status : HandStatus) : H unit :=
  modify_room (λ r, set_state (close_hand status (rs_state r)) r);;
  r ← room;
  append_hand_event (hs_hand_id (snapshot (rs_state r))) HandClosed;;
  bump_generation;;
  clear_scheduler.

Definition apply_pending (cb : ChainTxVerifiedCallback) : H unit :=
  r ← room;
  match rs_pending_chain_actions r !! cb_tx_hash cb with
  | None => mret tt
  | Some pending =>
      modify_room (set_pending_chain_actions (delete (cb_tx_hash cb) (rs_pending_chain_actions r)));;
      outcome ← play (pc_action pending);
      M_when (is_ok outcome) clear_scheduler
  end.

Definition handle_chain_tx_verified (cb : ChainTxVerifiedCallback) : H unit :=
  r ← room;
  M_when (String.eqb (cb_status cb) "matched" && concerns_current_hand cb (rs_state r))
    (apply_pending cb);;
  r ← room;
  M_when (is_negative (cb_status cb) && concerns_current_hand cb (rs_state r)
          && is_open (hs_status (snapshot (rs_state r))))
    (close_and_announce HAborted);;
  record_behavior
    (ChainTxVerificationCallback (cb_seat_id cb) (cb_action_seq cb) (cb_tx_hash cb)
       (cb_status cb) (cb_confirmations cb) (cb_failure_reason cb)).

Definition handle_complete_settlement (hand_id : HandId) : H unit :=
  r ← room;
  let s := snapshot (rs_state r) in
  M_when ((hand_id =? hs_hand_id s)
          && match hs_status s with HShowdown | HSettling => true | _ => false end)
    (close_and_announce HSettled).

(** ** Timers *)

Definition auto_fold (s : EngineState) (seat_id : SeatId) : PlayerAction :=
  mkPlayerAction room_id (hs_hand_id (snapshot s)) (hs_next_action_seq (snapshot s)) seat_id
    Fold None.

(** The fold of a seat whose time is up: both timers do the same. *)
Definition fold_for_timeout (seat_id : SeatId) : H unit :=
  r ← room;
  outcome ← play (auto_fold (rs_state r) seat_id);
  M_when (negb (is_ok outcome)) bump_generation;;
  clear_scheduler;;
  r ← room;
  record_behavior
    (TurnTimeoutAutoFold seat_id (sat_sub (hs_next_action_seq (snapshot (rs_state r))) 1)).

Definition handle_turn_timeout (expected_generation : N) : H unit :=
  r ← room;
  M_when (expected_generation =? rs_timeout_generation r)
    (match hs_acting_seat_id (snapshot (rs_state r)) with
     | None => mret tt
     | Some acting_seat_id => fold_for_timeout acting_seat_id
     end).

Definition remind (s : EngineState) (seat_id : SeatId) : H unit :=
  append_hand_event (hs_hand_id (snapshot s)) (TurnStarted seat_id).

Definition handle_turn_reminder (expected_generation : N) : H unit :=
  r ← room;
  M_when (expected_generation =? rs_timeout_generation r)
    (match hs_acting_seat_id (snapshot (rs_state r)) with
     | None => mret tt
     | Some acting_seat_id => remind (rs_state r) acting_seat_id
     end).

(** A pending action older than the interval is warned about, and again after
    each further interval. *)
Definition warn_pending (now : N) (p : PendingChainAction) : PendingChainAction :=
  if (PENDING_WARN_INTERVAL <=? sat_sub now (pc_queued_at p))
     && match pc_last_warn_at p with
        | None => true
        | Some t => PENDING_WARN_INTERVAL <=? sat_sub now t
        end
  then mkPending (pc_action p) (pc_queued_at p) (Some now)
  else p.

(** [actor_sender.try_send]: a full mailbox drops the message. *)
Definition try_send (cmd : RoomCommand) : H unit :=
  modify (λ a, if (length (ac_mailbox a) <? queue_capacity)%nat
               then mkActor (ac_world a) (ac_room a) (ac_mailbox a ++ [cmd]) (ac_out a)
               else a).

(** The status the actor itself gives to an observed transaction. *)
Definition observed_status (observed : ObservedTx) : string * option string :=
  if negb (ob_success observed) then ("failed", Some "tx_failed")%string
  else if ob_confirmations observed <? cf_chain_verify_min_confirmations config
  then ("pending"%string, None)
  else ("matched"%string, None).

Definition verify_pending (endpoint : string) (entry : string * PendingChainAction) : H unit :=
  let '(tx_hash, pending) := entry in
  found ← outside (shipped_get_tx endpoint tx_hash);
  match found with
  | Err _ | Ok None => mret tt
  | Ok (Some observed) =>
      let '(status, failure_reason) := observed_status observed in
      M_when (negb (String.eqb status "pending"))
        (try_send (ChainTxVerified
           (mkChainCallback tx_hash status (ob_confirmations observed)
              (Some (pa_hand_id (pc_action pending))) (Some (pa_seat_id (pc_action pending)))
              (Some (pa_action_seq (pc_action pending))) failure_reason)))
  end.

(** What the tick decides about the turn it is watching. *)
Inductive TurnDecision := KeepWaiting | SendReminder | TimeIsUp.

Definition same_turn (t : TurnSchedulerState) (s : HandSnapshot) (seat_id : SeatId) : bool :=
  (ts_hand_id t =? hs_hand_id s) && (ts_action_seq t =? hs_next_action_seq s)
  && (ts_seat_id t =? seat_id).

Definition turn_decision (now : N) (t : TurnSchedulerState) : TurnDecision :=
  let elapsed := sat_sub now (ts_started_at t) in
  if DEFAULT_STEP_TIMEOUT <=? elapsed then TimeIsUp
  else if match ts_last_reminder_at t with
          | Some last => TURN_REMINDER_INTERVAL <=? sat_sub now last
          | None => TURN_REMINDER_INTERVAL <=? elapsed
          end
  then SendReminder
  else KeepWaiting.

Definition watch_turn (now : N) (seat_id : SeatId) : H unit :=
  r ← room;
  let s := snapshot (rs_state r) in
  let fresh := mkTurnScheduler (hs_hand_id s) (hs_next_action_seq s) seat_id now None in
  match rs_turn_scheduler r with
  | None => modify_room (set_turn_scheduler (Some fresh))
  | Some t =>
      if negb (same_turn t s seat_id) then modify_room (set_turn_scheduler (Some fresh))
      else
        match turn_decision now t with
        | KeepWaiting => mret tt
        | SendReminder =>
            modify_room (set_turn_scheduler
              (Some (mkTurnScheduler (ts_hand_id t) (ts_action_seq t) (ts_seat_id t)
                       (ts_started_at t) (Some now))));;
            remind (rs_state r) seat_id
        | TimeIsUp => fold_for_timeout seat_id
        end
  end.

Definition verify_all_pending : H unit :=
  match cf_chain_verify_rpc_endpoint config with
  | None => mret tt
  | Some endpoint =>
      r ← room;
      M_iter (verify_pending endpoint) (map_to_list (rs_pending_chain_actions r))
  end.

Definition watch_current_turn (now : N) : H unit :=
  r ← room;
  match hs_acting_seat_id (snapshot (rs_state r)) with
  | None => clear_scheduler
  | Some acting_seat_id =>
      if negb (bool_decide (hs_status (snapshot (rs_state r)) = HRunning)) then clear_scheduler
      else watch_turn now acting_seat_id
  end.

Definition handle_scheduler_tick : H unit :=
  now ← instant;
  modify_room (λ r, set_pending_chain_actions (warn_pending now <$> rs_pending_chain_actions r) r);;
  verify_all_pending;;
  watch_current_turn now.

(** ** The loop *)

Definition handle (cmd : RoomCommand) : H unit :=
  match cmd with
  | Join seat_id => handle_join seat_id
  | Leave seat_id => handle_leave seat_id
  | BindAddress seat_id seat_address => handle_bind_address seat_id seat_address
  | BindSessionKeys seat_id card_key request_key key_algo _ =>
      handle_bind_session_keys seat_id card_key request_key key_algo
  | Ready seat_id => handle_ready seat_id
  | GetState reply =>
      r ← room; output (Reply reply (ReplyState (Some (snapshot (rs_state r)))))
  | GetEngineState reply =>
      r ← room; output (Reply reply (ReplyEngineState (Some (rs_state r))))
  | GetLegalActions seat_id reply =>
      r ← room; output (Reply reply (ReplyLegalActions (legal_actions (rs_state r) seat_id)))
  | GetPrivateEvents seat_id hand_id reply =>
      r ← room;
      output (Reply reply
        (ReplyPrivateEvents (private_events_for seat_id hand_id (rs_private_events r))))
  | Act action reply => handle_act action reply
  | QueuePendingChainAction tx_hash action reply => handle_queue_pending tx_hash action reply
  | ChainTxVerified callback => handle_chain_tx_verified callback
  | CompleteSettlement hand_id => handle_complete_settlement hand_id
  | TurnTimeoutElapsed expected_generation => handle_turn_timeout expected_generation
  | TurnReminderElapsed expected_generation => handle_turn_reminder expected_generation
  | SchedulerTick => handle_scheduler_tick
  end.

(** [spawn_room_actor_with_sink_and_config] *)
Definition spawn_room_actor (w : W) : Actor W :=
  let '(w, hand_id) := fresh_uuid w in mkActor w (RoomState_new room_id hand_id) [] [].

Definition receive (cmd : RoomCommand) (a : Actor W) : Actor W := fst (handle cmd a).

(** The task takes the head of its mailbox; the others put commands at its end
    while there is room, and the world moves on by itself. *)
Inductive room_step : Actor W → Actor W → Prop :=
| step_receive w r cmd mailbox out :
    room_step (mkActor w r (cmd :: mailbox) out) (receive cmd (mkActor w r mailbox out))
| step_send a cmd :
    (length (ac_mailbox a) < queue_capacity)%nat →
    room_step a (mkActor (ac_world a) (ac_room a) (ac_mailbox a ++ [cmd]) (ac_out a))
| step_world a w' :
    room_step a (mkActor w' (ac_room a) (ac_mailbox a) (ac_out a)).
End Handlers.
