(* ===== verification/RoomLogic.v ===== *)
(** How the room actor moves: rules for relations between the actor before and
    after a handler, the game a room plays as a step relation ([game_step]), and
    the invariants of the actor.

    A relation that is reflexive and transitive holds across a handler as soon as
    it holds across its parts ([moves]); the lemmas below instantiate it with the
    steps of the game, with the unchanged engine state and with the generations of
    the turn timer. *)

From stdpp Require Import base tactics option list gmap relations strings.
From Stdlib Require Import NArith Lia.
From S2P Require Import Prelude.
From S2P Require Import Ambient.
From S2P Require Import Text.
From S2P Require Import Domain.
From S2P Require Import EngineState.
From S2P Require Import Engine.
From S2P Require Import EngineInv.
From S2P Require Import Dealing.
From S2P Require Import JsonRpc.
From S2P Require Import ChainWatcher.
From S2P Require Import SeatCrypto.
From S2P Require Import TableService.

Local Open Scope N_scope.

(** ** The game of a room *)

Section Game.
Context {CO : CardOps}.
Implicit Types s : EngineState.

(** What can happen to the hand of a room: a seat joins, a hand is dealt while no
    seat is to act, an action is played or refused, the hand is aborted while it is
    open, or settled while it is at showdown. *)
Inductive game_step : EngineState → EngineState → Prop :=
| game_seat seat s : game_step s (seat_player seat s)
| game_deal hand_id shuffle s s' r :
    hs_acting_seat_id (snapshot s) = None →
    deal_new_hand_internal hand_id shuffle s = (s', r) → game_step s s'
| game_action a s s' r : apply_action a s = (s', r) → game_step s s'
| game_abort s : is_open (hs_status (snapshot s)) = true → game_step s (close_hand HAborted s)
| game_settle s :
    hs_status (snapshot s) = HShowdown ∨ hs_status (snapshot s) = HSettling →
    game_step s (close_hand HSettled s).

Lemma engine_inv_close s status :
  status ≠ HRunning → engine_inv s → engine_inv (close_hand status s).
Proof.
  intros Hst [Hm Hp Ht Hb]. split.
  - destruct Hm. by split.
  - destruct Hp. by split.
  - split; [|done]. cbn. split; [done|by intros [? ?]].
  - exact Hb.
Qed.

Lemma game_step_inv s s' : engine_inv s → game_step s s' → engine_inv s'.
Proof.
  intros Hinv Hstep. destruct Hstep as [| id shuffle s s' r _ Hd | | |].
  - by apply engine_inv_seat_player.
  - exact (deal_preserves id (shuffle ordered_deck) s s' r Hinv Hd).
  - by eapply apply_action_preserves.
  - by apply engine_inv_close.
  - by apply engine_inv_close.
Qed.

(** The statuses of a hand: never [HSettling], and running exactly from the deal
    to the showdown, the settlement by folds or the abort. *)
Definition status_may (from to : HandStatus) : Prop :=
  from = to ∨
  match from, to with
  | HCreated, HRunning | HSettled, HRunning | HAborted, HRunning | HShowdown, HRunning => True
  | HRunning, HShowdown | HRunning, HSettled | HRunning, HAborted => True
  | HShowdown, HSettled | HShowdown, HAborted => True
  | _, _ => False
  end.

Definition settling s : Prop := hs_status (snapshot s) = HSettling.

(** An action keeps the room, the hand and the seats, and moves the status of a
    running hand at most to showdown or settled; a refused one keeps the whole
    snapshot. *)
Lemma action_frame a s s' r :
  engine_inv s → apply_action a s = (s', r) →
  hs_room_id (snapshot s') = hs_room_id (snapshot s) ∧
  hs_hand_id (snapshot s') = hs_hand_id (snapshot s) ∧
  h_seated_players (hand s') = h_seated_players (hand s) ∧
  match r with
  | Ok _ =>
      hs_status (snapshot s) = HRunning ∧
      match hs_acting_seat_id (snapshot s') with
      | Some _ => hs_status (snapshot s') = HRunning
      | None => hs_status (snapshot s') = HSettled ∨ hs_status (snapshot s') = HShowdown
      end
  | Err _ => snapshot s' = snapshot s
  end.
Proof.
  intros Hinv Happ. pose proof (pot_sum _ (inv_pot _ Hinv)) as Hc.
  apply apply_action_cases in Happ; [|done].
  destruct r as [[st]|[]]; try done.
  - destruct Happ as (Hon & s1 & reset & Hm & Hadv).
    pose proof (on_turn_running _ _ Hinv Hon) as Hrun.
    destruct (after_move_inv _ _ _ _ Hinv Hrun Hm) as [_ Hrun1].
    destruct (legal_move_frame _ _ _ _ Hm) as ([total Hsnap] & _ & _ & _ & _ & Hseat & _).
    destruct (advance_turn_effect _ _ _ _ Hadv) as
      (_ & _ & Hseat' & _ & _ & Hroom & Hhand & _ & _ & _ & _ & _ & Hact).
    assert (hs_room_id (snapshot (after_move a reset s1)) = hs_room_id (snapshot s) ∧
            hs_hand_id (snapshot (after_move a reset s1)) = hs_hand_id (snapshot s) ∧
            h_seated_players (hand (after_move a reset s1)) = h_seated_players (hand s1))
      as (H1 & H2 & H3) by (destruct reset; cbn; rewrite ?Hsnap; done).
    split; [congruence|]. split; [congruence|]. split; [congruence|]. split; [done|].
    destruct (hs_acting_seat_id (snapshot s')); [|done]. destruct Hact as (-> & _). done.
  - destruct Happ as [-> _]. done.
  - destruct Happ as (_ & _ & Hres). destruct Hres; done.
Qed.

Lemma game_step_status s s' :
  engine_inv s → ¬ settling s → game_step s s' →
  status_may (hs_status (snapshot s)) (hs_status (snapshot s')) ∧ ¬ settling s' ∧
  hs_room_id (snapshot s') = hs_room_id (snapshot s) ∧
  h_seated_players (hand s) ⊆ h_seated_players (hand s').
Proof.
  intros Hinv Hns Hstep. destruct Hstep as [seat s|id sh s s' r Hact Hd|a s s' r Ha|s Hs|s Hs].
  - split; [by left|]. split; [done|]. split; [done|]. cbn. set_solver.
  - pose proof (deal_cases id (sh ordered_deck) s) as Hc.
    unfold deal_new_hand_internal in Hd. destruct (deal_refusal s _).
    { rewrite Hc in Hd. injection Hd as <- _. split; [by left|done]. }
    destruct Hc as (d & sb & bb & first & _ & _ & _ & _ & _ & _ & _ & _ & Hc).
    rewrite Hc in Hd. injection Hd as <- _. cbn.
    assert (hs_status (snapshot s) ≠ HRunning) as Hnr.
    { intros [x Hx]%(turn_running _ (inv_turn _ Hinv)). congruence. }
    split; [|split; [by unfold settling|unfold bump_hand_no; by case_match]].
    unfold settling in Hns. right. by destruct (hs_status (snapshot s)).
  - destruct (action_frame _ _ _ _ Hinv Ha) as (Hroom & _ & Hseat & Hr).
    rewrite Hseat. destruct r as [r|e].
    + destruct Hr as [-> Hr]. destruct (hs_acting_seat_id (snapshot s')).
      * rewrite Hr. split; [by left|]. unfold settling. by rewrite Hr.
      * unfold settling. destruct Hr as [-> | ->]; split; try done; by right.
    + unfold settling. rewrite Hr. split; [by left|]. done.
  - cbn. split; [|by unfold settling]. unfold settling in Hns. right.
    by destruct (hs_status (snapshot s)).
  - cbn. split; [|by unfold settling]. right. by destruct Hs as [-> | Hs].
Qed.
End Game.

(** ** Relations across a handler *)

Section Moves.
Context {CO : CardOps} {W : Type}.
Context {CK : Clock W} {FI : FreshIds W} {MC : MonotonicClock W} {SH : Shuffler W}.
Context {CR : SeatCryptoPrimitives} {UT : UuidText} {ES : EphemeralSecrets W} {RC : RoomCodec}.
Context {TR : JsonRpcTransport W}.
Context (room_id : RoomId) (queue_capacity : nat) (config : RoomActorConfig).

Abbreviation H A := (M (Actor W) Empty_set A) (only parsing).
Abbreviation st a := (rs_state (ac_room a)) (only parsing).

Definition moves (R : relation (Actor W)) {A} (m : H A) (a : Actor W) : Prop := R a (fst (m a)).

Section Rules.
Context (R : relation (Actor W)) `{!PreOrder R}.

Lemma moves_bind {A B} (m : H A) (k : A → H B) a :
  moves R m a → (∀ a' x, m a = (a', Ok x) → moves R (k x) a') → moves R (m ≫= k) a.
Proof.
  unfold moves. mrun. intros Hm Hk. destruct (m a) as [a' [x|[]]]; cbn in *.
  etransitivity; [exact Hm|]. by apply Hk.
Qed.
Lemma moves_ret {A} (x : A) a : moves R (mret x) a.
Proof. unfold moves. cbn. reflexivity. Qed.
Lemma moves_when b (m : H unit) a : (b = true → moves R m a) → moves R (M_when b m) a.
Proof. unfold moves, M_when. destruct b; cbn; [auto|reflexivity]. Qed.
Lemma moves_room {B} (k : RoomState → H B) a :
  moves R (k (ac_room a)) a → moves R (room ≫= k) a.
Proof. unfold moves, room. by mrun. Qed.
Lemma moves_map {A B} (f : A → H B) l a :
  (∀ x a', moves R (f x) a') → moves R (M_map f l) a.
Proof.
  intros Hf. revert a. induction l as [|x l IH]; intros a; cbn [M_map]; [apply moves_ret|].
  apply moves_bind; [done|]. intros a1 y _. apply moves_bind; [apply IH|].
  intros a2 ys _. apply moves_ret.
Qed.
Lemma moves_iter {A} (f : A → H unit) l a :
  (∀ x a', moves R (f x) a') → moves R (M_iter f l) a.
Proof.
  intros Hf. revert a. induction l as [|x l IH]; intros a; cbn [M_iter]; [apply moves_ret|].
  apply moves_bind; [done|]. intros a1 y _. apply IH.
Qed.
End Rules.

(** Steps that leave the engine's state, the seats and the timer alone. *)
Record quiet (a a' : Actor W) : Prop := {
  quiet_state : st a' = st a;
  quiet_seated : rs_seated (ac_room a') = rs_seated (ac_room a);
  quiet_ready : rs_ready (ac_room a') = rs_ready (ac_room a);
  quiet_bound : rs_bound_addresses (ac_room a') = rs_bound_addresses (ac_room a);
  quiet_pending : rs_pending_chain_actions (ac_room a') = rs_pending_chain_actions (ac_room a);
  quiet_generation : rs_timeout_generation (ac_room a') = rs_timeout_generation (ac_room a);
  quiet_scheduler : rs_turn_scheduler (ac_room a') = rs_turn_scheduler (ac_room a);
}.
#[export] Instance quiet_preorder : PreOrder quiet.
Proof.
  split; [by split|]. intros a b c [? ? ? ? ? ? ?] [? ? ? ? ? ? ?]. split; by etransitivity.
Qed.

Lemma quiet_output o a : moves quiet (output o) a.
Proof. by split. Qed.
Lemma quiet_draw {A} (f : W → W * A) a : moves quiet (draw f) a.
Proof. unfold moves, draw. destruct (f _). by split. Qed.
Lemma quiet_outside {E A} (m : M W E A) a : moves quiet (outside m) a.
Proof. unfold moves, outside. destruct (m _). by split. Qed.
Lemma quiet_try_send cmd a : moves quiet (try_send queue_capacity cmd) a.
Proof. unfold moves, try_send, modify. cbn [fst]. by case_match; split. Qed.
Lemma quiet_private_events v a : moves quiet (modify_room (set_private_events v)) a.
Proof. by split. Qed.
End Moves.

(** Decomposes a handler by its binds; [lf] closes the leaves. *)
Ltac room_moves lf :=
  repeat lazymatch goal with
    | |- moves _ (room ≫= _) _ => apply moves_room
    | |- moves _ (_ ≫= _) _ => apply moves_bind; [exact _| |intros ? ? ?]
    | |- moves _ (M_when _ _) _ => apply moves_when; [exact _|intros ?]
    | |- moves _ (M_iter _ _) _ => apply moves_iter; [exact _|intros ? ?]
    | |- moves _ (mret _) _ => apply moves_ret; exact _
    | |- moves _ (M_map _ _) _ => apply moves_map; [exact _|intros ? ?]
    | |- _ => lf
    end.

Section Invariant.
Context {CO : CardOps} {W : Type}.
Context {CK : Clock W} {FI : FreshIds W} {MC : MonotonicClock W} {SH : Shuffler W}.
Context {CR : SeatCryptoPrimitives} {UT : UuidText} {ES : EphemeralSecrets W} {RC : RoomCodec}.
Context {TR : JsonRpcTransport W}.
Context (room_id : RoomId) (queue_capacity : nat) (config : RoomActorConfig).

Abbreviation H A := (M (Actor W) Empty_set A) (only parsing).
Abbreviation st a := (rs_state (ac_room a)) (only parsing).

Lemma quiet_new_hand_event hand_id kind a :
  moves quiet (new_hand_event room_id hand_id kind) a.
Proof.
  unfold new_hand_event, utc.
  room_moves ltac:(first [apply quiet_draw|by split]).
Qed.
Lemma quiet_append_hand_event hand_id kind a :
  moves quiet (append_hand_event room_id hand_id kind) a.
Proof. unfold append_hand_event. room_moves ltac:(first [apply quiet_new_hand_event|apply quiet_output]). Qed.
Lemma quiet_record_behavior kind a : moves quiet (record_behavior room_id kind) a.
Proof. unfold record_behavior, utc. room_moves ltac:(first [apply quiet_draw|apply quiet_output]). Qed.
Lemma quiet_private s keys seq a : moves quiet (build_hole_cards_private_events s keys seq) a.
Proof.
  unfold build_hole_cards_private_events. destruct (dealing s); room_moves fail.
  unfold hole_cards_event. destruct x as [seat [c0 c1]]. repeat case_match; room_moves ltac:(apply quiet_outside).
Qed.
Lemma quiet_verify_pending endpoint entry a :
  moves quiet (verify_pending queue_capacity config endpoint entry) a.
Proof.
  unfold verify_pending. destruct entry. apply moves_bind; [exact _|apply quiet_outside|].
  intros a' x _. repeat case_match; room_moves ltac:(apply quiet_try_send).
Qed.

Lemma quiet_verify_all a : moves quiet (verify_all_pending queue_capacity config) a.
Proof.
  unfold verify_all_pending. case_match; room_moves ltac:(apply quiet_verify_pending).
Qed.
Lemma quiet_publish seat a : moves quiet (publish_hand room_id seat) a.
Proof.
  unfold publish_hand.
  room_moves ltac:(first [apply quiet_private | apply quiet_new_hand_event | by split]).
Qed.

(** ** The invariant of the actor *)

(** The game is consistent and is the room's; a ready seat and a bound address
    belong to a seat at the table, and the table's seats are the engine's. *)
Record room_ok (a : Actor W) : Prop := {
  ok_engine : engine_inv (st a);
  ok_status : ¬ settling (st a);
  ok_room : hs_room_id (snapshot (st a)) = room_id;
  ok_ready : rs_ready (ac_room a) ⊆ rs_seated (ac_room a);
  ok_bound : dom (rs_bound_addresses (ac_room a)) ⊆ rs_seated (ac_room a);
  ok_seated : rs_seated (ac_room a) ⊆ h_seated_players (hand (st a));
}.

(** Across a handler the game moves by its steps and the invariant is kept. *)
Definition evolves (a a' : Actor W) : Prop :=
  room_ok a → rtc game_step (st a) (st a') ∧ room_ok a'.
#[export] Instance evolves_preorder : PreOrder evolves.
Proof.
  split; [by intros a Ha|]. intros a b c Hab Hbc Ha.
  destruct (Hab Ha) as [? Hb]. destruct (Hbc Hb) as [? Hc]. split; [by etransitivity|done].
Qed.

Lemma evolves_quiet a a' : quiet a a' → evolves a a'.
Proof.
  intros [Hs Hse Hr Hb _ _ _] [? ? ? ? ? ?]. rewrite Hs. split; [done|].
  split; rewrite ?Hs, ?Hse, ?Hr, ?Hb; done.
Qed.

Lemma evolves_game a a' :
  game_step (st a) (st a') → rs_seated (ac_room a') = rs_seated (ac_room a) →
  rs_ready (ac_room a') = rs_ready (ac_room a) →
  rs_bound_addresses (ac_room a') = rs_bound_addresses (ac_room a) → evolves a a'.
Proof.
  intros Hg Hse Hr Hb [He Hst Hroom Hready Hbound Hseated].
  destruct (game_step_status _ _ He Hst Hg) as (_ & Hst' & Hroom' & Hsub).
  split; [by apply rtc_once|]. split; rewrite ?Hse, ?Hr, ?Hb; try done.
  - by eapply game_step_inv.
  - congruence.
  - by etransitivity.
Qed.

Lemma evolves_seats f (a : Actor W) :
  (∀ r, rs_state (f r) = rs_state r) →
  (room_ok a → room_ok (mkActor (ac_world a) (f (ac_room a)) (ac_mailbox a) (ac_out a))) →
  moves evolves (modify_room f) a.
Proof. intros Hs Hok Ha. cbn. rewrite Hs. split; [done|]. by apply Hok. Qed.

Lemma evolves_frame f (a : Actor W) :
  (∀ r, rs_state (f r) = rs_state r ∧ rs_seated (f r) = rs_seated r ∧ rs_ready (f r) = rs_ready r ∧
        rs_bound_addresses (f r) = rs_bound_addresses r) →
  moves evolves (modify_room f) a.
Proof.
  intros Hf. apply evolves_seats; [by intros r; destruct (Hf r)|].
  destruct (Hf (ac_room a)) as (H1 & H2 & H3 & H4).
  intros []. split; cbn; rewrite ?H1, ?H2, ?H3, ?H4; done.
Qed.

Lemma evolves_apply action a : moves evolves (engine (apply_action action)) a.
Proof.
  unfold moves, engine. destruct (apply_action action (st a)) as [s r] eqn:Ha.
  apply evolves_game; try done. by eapply game_action.
Qed.

Ltac evolve_leaf :=
  idtac; lazymatch goal with
  | |- moves _ (modify_room _) _ => apply evolves_frame; by intros []
  | |- moves _ (engine (apply_action _)) _ => apply evolves_apply
  | |- _ =>
      apply evolves_quiet;
      lazymatch goal with
      | |- quiet _ (fst (output _ _)) => apply quiet_output
      | |- _ => first [ apply quiet_draw | apply quiet_outside
                      | apply quiet_new_hand_event | apply quiet_append_hand_event
                      | apply quiet_record_behavior | apply quiet_private
                      | apply quiet_verify_pending ]
      end
  end.

Lemma evolves_emit action r a : moves evolves (emit_post_action_hand_events room_id action r) a.
Proof. unfold emit_post_action_hand_events, bump_generation. room_moves evolve_leaf. Qed.

Lemma evolves_play action a : moves evolves (play room_id action) a.
Proof.
  unfold play. apply moves_bind; [exact _|apply evolves_apply|]. intros a' [r|e] _.
  - room_moves ltac:(first [apply evolves_emit|evolve_leaf]).
  - room_moves fail.
Qed.

Lemma evolves_close status a :
  game_step (st a) (close_hand status (st a)) → moves evolves (close_and_announce room_id status) a.
Proof.
  intros Hg. unfold close_and_announce, bump_generation, clear_scheduler.
  apply moves_bind; [exact _|by apply evolves_game|]. intros a' x _.
  room_moves evolve_leaf.
Qed.

Lemma evolves_fold seat a : moves evolves (fold_for_timeout room_id seat) a.
Proof.
  unfold fold_for_timeout, bump_generation, clear_scheduler.
  room_moves ltac:(first [apply evolves_play|evolve_leaf]).
Qed.

Lemma evolves_join seat a : moves evolves (handle_join room_id seat) a.
Proof.
  unfold handle_join. intros Hok.
  set (a1 := mkActor (ac_world a)
     (set_ready (rs_ready (ac_room a) ∖ {[seat]})
        (set_state (seat_player seat (st a))
           (set_seated ({[seat]} ∪ rs_seated (ac_room a)) (ac_room a))))
     (ac_mailbox a) (ac_out a)).
  assert (game_step (st a) (st a1)) as Hg by constructor.
  assert (room_ok a1) as Hok1.
  { destruct Hok as [He Hst Hroom Hready Hbound Hseated].
    split; cbn; [by apply engine_inv_seat_player|done|done|set_solver..]. }
  destruct (evolves_quiet _ _ (quiet_record_behavior (SeatJoined seat) a1) Hok1) as [Hr Hok2].
  split; [|exact Hok2]. etransitivity; [by apply rtc_once|exact Hr].
Qed.

Lemma evolves_leave seat a : moves evolves (handle_leave room_id seat) a.
Proof.
  unfold handle_leave. intros Hok.
  set (a1 := mkActor (ac_world a)
     (set_bound_addresses (delete seat (rs_bound_addresses (ac_room a)))
        (set_ready (rs_ready (ac_room a) ∖ {[seat]})
           (set_seated (rs_seated (ac_room a) ∖ {[seat]}) (ac_room a))))
     (ac_mailbox a) (ac_out a)).
  assert (room_ok a1) as Hok1.
  { destruct Hok as [He Hst Hroom Hready Hbound Hseated].
    split; cbn; [done|done|done|set_solver|rewrite dom_delete_L; set_solver|set_solver]. }
  exact (evolves_quiet _ _ (quiet_record_behavior (SeatLeft seat) a1) Hok1).
Qed.

Lemma evolves_bind_address seat addr a : moves evolves (handle_bind_address room_id seat addr) a.
Proof.
  unfold handle_bind_address. apply moves_room. apply moves_when; [exact _|].
  intros Hin%bool_decide_eq_true. apply moves_bind; [exact _| |intros; evolve_leaf].
  apply evolves_seats; [done|]. intros [He Hst Hroom Hready Hbound Hseated].
  split; cbn; try done. rewrite dom_insert_L. set_solver.
Qed.

Lemma evolves_bind_keys seat k1 k2 algo a :
  moves evolves (handle_bind_session_keys room_id seat k1 k2 algo) a.
Proof. unfold handle_bind_session_keys. room_moves evolve_leaf. Qed.

Lemma evolves_announce seat a : moves evolves (announce_hand room_id seat) a.
Proof.
  unfold announce_hand, bump_generation, clear_scheduler.
  room_moves ltac:(first [apply evolves_quiet, quiet_publish|evolve_leaf]).
Qed.

(** The deal of [handle_ready]: nothing happened to the game since the test. *)
Lemma evolves_deal hand_id shuffle a :
  hs_acting_seat_id (snapshot (st a)) = None →
  moves evolves (engine (deal_new_hand_internal hand_id shuffle)) a.
Proof.
  intros Hact. unfold moves, engine.
  destruct (deal_new_hand_internal hand_id shuffle (st a)) as [s r] eqn:Hd.
  apply evolves_game; try done. by eapply game_deal.
Qed.

Lemma draw_state {A} (f : W → W * A) (a a' : Actor W) x :
  draw f a = (a', Ok x) → ac_room a' = ac_room a.
Proof. unfold draw. destruct (f _). by intros [= <- _]. Qed.

Lemma evolves_ready seat a : moves evolves (handle_ready room_id seat) a.
Proof.
  unfold handle_ready. apply moves_room. apply moves_when; [exact _|].
  intros Hin%bool_decide_eq_true. apply moves_bind; [exact _| |intros a1 x _].
  - apply evolves_seats; [done|]. intros [He Hst Hroom Hready Hbound Hseated].
    split; cbn; try done. set_solver.
  - apply moves_room. apply moves_when; [exact _|].
    intros [Hact%bool_decide_eq_true _]%andb_true_iff.
    apply moves_bind; [exact _|evolve_leaf|]. intros a2 id H2%draw_state.
    apply moves_bind; [exact _|evolve_leaf|]. intros a3 sh H3%draw_state.
    apply moves_bind; [exact _|apply evolves_deal; congruence|].
    intros a4 dealt _. apply moves_when; [exact _|]. intros _. apply evolves_announce.
Qed.

Lemma evolves_chain cb a : moves evolves (handle_chain_tx_verified room_id cb) a.
Proof.
  unfold handle_chain_tx_verified. apply moves_room. apply moves_bind; [exact _| |intros a1 x _].
  - apply moves_when; [exact _|]. intros _. unfold apply_pending. apply moves_room.
    case_match; [|by room_moves fail]. unfold clear_scheduler.
    room_moves ltac:(first [apply evolves_play|evolve_leaf]).
  - apply moves_room. apply moves_bind; [exact _| |intros; evolve_leaf].
    apply moves_when; [exact _|]. intros [_ Hopen]%andb_true_iff.
    by apply evolves_close, game_abort.
Qed.

Lemma evolves_complete hand_id a : moves evolves (handle_complete_settlement room_id hand_id) a.
Proof.
  unfold handle_complete_settlement. apply moves_room. apply moves_when; [exact _|].
  intros [_ Hs]%andb_true_iff. apply evolves_close, game_settle.
  destruct (hs_status (snapshot (st a))); (done || auto).
Qed.

Lemma evolves_watch now seat a : moves evolves (watch_turn room_id now seat) a.
Proof.
  unfold watch_turn, remind. apply moves_room.
  repeat case_match; room_moves ltac:(first [apply evolves_fold|evolve_leaf]).
Qed.

Lemma evolves_tick a : moves evolves (handle_scheduler_tick room_id queue_capacity config) a.
Proof.
  unfold handle_scheduler_tick, instant.
  apply moves_bind; [exact _|evolve_leaf|]. intros a1 now _.
  apply moves_bind; [exact _|evolve_leaf|]. intros a2 x _.
  apply moves_bind; [exact _|apply evolves_quiet, quiet_verify_all|]. intros a3 y _.
  unfold watch_current_turn, clear_scheduler.
  apply moves_room. case_match; [|evolve_leaf]. case_match; [evolve_leaf|apply evolves_watch].
Qed.

Lemma evolves_handle cmd a : moves evolves (handle room_id queue_capacity config cmd) a.
Proof.
  destruct cmd; cbn [handle].
  - apply evolves_join.
  - apply evolves_leave.
  - apply evolves_bind_address.
  - apply evolves_bind_keys.
  - apply evolves_ready.
  - room_moves evolve_leaf.
  - room_moves evolve_leaf.
  - room_moves evolve_leaf.
  - room_moves evolve_leaf.
  - unfold handle_act, clear_scheduler. room_moves ltac:(first [apply evolves_play|evolve_leaf]).
  - unfold handle_queue_pending, instant. room_moves evolve_leaf.
  - apply evolves_chain.
  - apply evolves_complete.
  - unfold handle_turn_timeout. apply moves_room. apply moves_when; [exact _|]. intros _.
    case_match; [apply evolves_fold|room_moves fail].
  - unfold handle_turn_reminder, remind. apply moves_room. apply moves_when; [exact _|]. intros _.
    case_match; room_moves evolve_leaf.
  - apply evolves_tick.
Qed.

Lemma evolves_step a a' : room_step room_id queue_capacity config a a' → evolves a a'.
Proof.
  intros []; [|by apply evolves_quiet..].
  etransitivity; [|exact (evolves_handle cmd (mkActor w r mailbox out))].
  by apply evolves_quiet.
Qed.

Lemma room_ok_spawn w : room_ok (spawn_room_actor room_id w).
Proof.
  unfold spawn_room_actor. destruct (fresh_uuid w) as [w' hand_id].
  split; [apply engine_inv_new|done|done|done|cbn; by rewrite dom_empty_L|done].
Qed.

Lemma room_evolves w a :
  rtc (room_step room_id queue_capacity config) (spawn_room_actor room_id w) a →
  room_ok a ∧ rtc game_step (st (spawn_room_actor room_id w)) (st a).
Proof.
  intros Hr. assert (evolves (spawn_room_actor room_id w) a) as He.
  { induction Hr as [b|b c d Hs _ IH]; [reflexivity|].
    etransitivity; [by apply evolves_step|exact IH]. }
  by destruct (He (room_ok_spawn w)).
Qed.
End Invariant.
