(* ===== verification/RoomDemo.v ===== *)
(** A concrete room for the instances of the room's theorems: a world with a clock
    and a counter of identifiers, no node, no sealing, and a deck in order. The
    instances are plain definitions; the files that use them declare them. *)

From stdpp Require Import base tactics option list gmap relations strings.
From Stdlib Require Import NArith Lia.
From S2P Require Import Prelude.
From S2P Require Import Ambient.
From S2P Require Import Text.
From S2P Require Import Domain.
From S2P Require Import EngineState.
From S2P Require Import Engine.
From S2P Require Import JsonRpc.
From S2P Require Import ChainWatcher.
From S2P Require Import SeatCrypto.
From S2P Require Import TableService.

Local Open Scope N_scope.

Record DemoWorld := mkDemoWorld { dw_time : N; dw_next_id : N }.

Definition demo_cards : CardOps := {| Card := N; card_to_u8 := id; card_of_u8 := id |}.
Definition demo_clock : Clock DemoWorld := {| utc_now := dw_time |}.
Definition demo_instant : MonotonicClock DemoWorld := {| instant_now := dw_time |}.
Definition demo_ids : FreshIds DemoWorld :=
  {| fresh_uuid := λ w, (mkDemoWorld (dw_time w) (dw_next_id w + 1), dw_next_id w) |}.
Definition demo_shuffler : @Shuffler demo_cards DemoWorld := {| draw_shuffle := λ w, (w, id) |}.
Definition demo_secrets : EphemeralSecrets DemoWorld := {| random_secret := λ w, (w, []) |}.
Definition demo_no_crypto : SeatCryptoPrimitives :=
  {| x25519_public := id; x25519 := λ _ p, p; hkdf_expand := λ _ _ _ _, None;
     aead_encrypt := λ _ _ _ _, None; aead_decrypt := λ _ _ _ _, None;
     base64_encode := λ _, ""%string; base64_decode := λ _, Ok [] |}.
Definition demo_uuid_text : UuidText := {| uuid_text := λ _, "id"%string |}.
Definition demo_codec : RoomCodec :=
  {| json_to_vec := λ _, Some []; cipher_payload_to_value := λ _, None;
     pubkey_from_hex := λ _, None |}.
Definition demo_offline : JsonRpcTransport DemoWorld :=
  {| post_json := λ _ _ w, (w, Err "offline"%string); decode_message := λ _, ""%string |}.

Section Run.
Context {CO : CardOps} {W : Type}.
Context {CK : Clock W} {FI : FreshIds W} {MC : MonotonicClock W} {SH : Shuffler W}.
Context {CR : SeatCryptoPrimitives} {UT : UuidText} {ES : EphemeralSecrets W} {RC : RoomCodec}.
Context {TR : JsonRpcTransport W}.
Context (room_id : RoomId) (queue_capacity : nat) (config : RoomActorConfig).

(** Commands one after the other, each handled before the next is sent. *)
Fixpoint run_commands (cmds : list RoomCommand) (a : Actor W) : Actor W :=
  match cmds with
  | [] => a
  | cmd :: cmds => run_commands cmds (receive room_id queue_capacity config cmd a)
  end.
Fixpoint drained (cmds : list RoomCommand) (a : Actor W) : bool :=
  (length (ac_mailbox a) =? 0)%nat &&
  match cmds with
  | [] => true
  | cmd :: cmds => drained cmds (receive room_id queue_capacity config cmd a)
  end.

Lemma run_commands_steps cmds a :
  (0 < queue_capacity)%nat → drained cmds a = true →
  rtc (room_step room_id queue_capacity config) a (run_commands cmds a).
Proof.
  intros Hq. revert a. induction cmds as [|cmd cmds IH]; intros a Hd; [apply rtc_refl|].
  cbn [drained run_commands] in *. apply andb_true_iff in Hd as [Hmb Hd].
  apply Nat.eqb_eq, nil_length_inv in Hmb. destruct a as [w r mb out]. cbn in Hmb. subst mb.
  eapply rtc_l; [apply (step_send _ _ _ _ cmd); done|]. cbn [ac_world ac_room ac_mailbox ac_out app].
  eapply rtc_l; [apply step_receive|]. by apply IH.
Qed.
End Run.

(** Two seats join, bind an address and keys, and get ready: the hand is dealt. *)
Definition demo_seating : list RoomCommand :=
  [Join 0; Join 1; BindAddress 0 "0xa"; BindAddress 1 "0xb";
   BindSessionKeys 0 "k0" "r0" "algo" "p0"; BindSessionKeys 1 "k1" "r1" "algo" "p1";
   Ready 0; Ready 1]%string.

(** The hand is checked down to the showdown. *)
Definition demo_action (seq : N) (seat : SeatId) (ty : ActionType) : RoomCommand :=
  Act (mkPlayerAction 7 2 seq seat ty None) 0.
Definition demo_check_down : list RoomCommand :=
  [demo_action 1 0 Call; demo_action 2 1 Check; demo_action 3 1 Check; demo_action 4 0 Check;
   demo_action 5 1 Check; demo_action 6 0 Check; demo_action 7 1 Check; demo_action 8 0 Check].

Definition demo_spawn : @Actor demo_cards DemoWorld :=
  @spawn_room_actor demo_cards DemoWorld demo_ids 7 (mkDemoWorld 1000 100).
Definition demo_run (cmds : list RoomCommand) (a : @Actor demo_cards DemoWorld)
    : @Actor demo_cards DemoWorld :=
  @run_commands demo_cards DemoWorld demo_clock demo_ids demo_instant demo_shuffler demo_no_crypto
    demo_uuid_text demo_secrets demo_codec demo_offline 7 8 RoomActorConfig_default cmds a.
Definition demo_room : @Actor demo_cards DemoWorld := demo_run demo_seating demo_spawn.
Definition demo_showdown : @Actor demo_cards DemoWorld := demo_run demo_check_down demo_room.

(** Both rooms are reached by the steps of the actor. *)
Definition demo_step : @Actor demo_cards DemoWorld → @Actor demo_cards DemoWorld → Prop :=
  @room_step demo_cards DemoWorld demo_clock demo_ids demo_instant demo_shuffler demo_no_crypto
    demo_uuid_text demo_secrets demo_codec demo_offline 7 8 RoomActorConfig_default.

Lemma demo_room_reached : rtc demo_step demo_spawn demo_room.
Proof.
  unfold demo_step, demo_room, demo_run. apply run_commands_steps; [lia|].
  vm_cast_no_check (eq_refl true).
Qed.

Lemma demo_showdown_reached : rtc demo_step demo_spawn demo_showdown.
Proof.
  etransitivity; [exact demo_room_reached|].
  unfold demo_step, demo_showdown, demo_run. apply run_commands_steps; [lia|].
  vm_cast_no_check (eq_refl true).
Qed.
