(* ===== verification/RoomProps.v ===== *)
(** Properties of the room actor: the game it plays and its invariant, and the
    numbers of its events. *)

From stdpp Require Import base tactics option list gmap relations strings pretty.
From Stdlib Require Import NArith Lia.
From S2P Require Import Prelude.
From S2P Require Import Ambient.
From S2P Require Import Text.
From S2P Require Import Domain.
From S2P Require Import EngineState.
From S2P Require Import Engine.
From S2P Require Import EngineInv.
From S2P Require Import Dealing.
From S2P Require Import JsonRpc.
From S2P Require Import ChainWatcher.
From S2P Require Import SeatCrypto.
From S2P Require Import TableService.
From S2P Require Import RoomLogic.
From S2P Require Import RoomDemo.

Local Open Scope N_scope.

Section Props.
Context {CO : CardOps} {W : Type}.
Context {CK : Clock W} {FI : FreshIds W} {MC : MonotonicClock W} {SH : Shuffler W}.
Context {CR : SeatCryptoPrimitives} {UT : UuidText} {ES : EphemeralSecrets W} {RC : RoomCodec}.
Context {TR : JsonRpcTransport W}.
Context (room_id : RoomId) (queue_capacity : nat) (config : RoomActorConfig).

Abbreviation H A := (M (Actor W) Empty_set A) (only parsing).
Abbreviation st a := (rs_state (ac_room a)) (only parsing).
Abbreviation step := (room_step room_id queue_capacity config) (only parsing).
Abbreviation on cmd := (receive room_id queue_capacity config cmd) (only parsing).

(** C3. Whatever commands a room is sent, in whatever order and however the world
    around it behaves, its hand only ever makes the steps of the game, starting from
    a fresh hand: the hand is consistent and belongs to the room, it is never in the
    status "settling", every ready seat and every bound address belongs to a seat at
    the table, and every seat at the table is a seat of the engine. *)
Theorem room_plays_the_game w a
    (Hr : rtc step (spawn_room_actor room_id w) a) :
  room_ok room_id a ∧
  rtc game_step (EngineState_new room_id 1 (snd (fresh_uuid w))) (st a).
Proof.
  destruct (room_evolves _ _ _ _ _ Hr) as [Hok Hg]. split; [exact Hok|].
  revert Hg. unfold spawn_room_actor. by destruct (fresh_uuid w).
Qed.

(** ** The numbers of the events *)

Definition appended (o : RoomOutput) : list HandEvent :=
  match o with AppendHandEvents events => events | _ => [] end.
Definition hand_events (a : Actor W) : list HandEvent := concat (map appended (ac_out a)).
Abbreviation next_no a := (rs_next_hand_event_seq (ac_room a)) (only parsing).

(** The number of the [i]-th event: the count, as far as 32 bits go. *)
Definition event_no (i : nat) : N := N.min u32_max (1 + N.of_nat i).

Record numbered (a : Actor W) : Prop := {
  num_seq : map he_event_seq (hand_events a) = map event_no (seq 0 (length (hand_events a)));
  num_next : next_no a = event_no (length (hand_events a));
  num_room : Forall (λ e, he_room_id e = room_id) (hand_events a);
}.

Definition numbers (a a' : Actor W) : Prop := numbered a → numbered a'.
#[local] Instance numbers_preorder : PreOrder numbers.
Proof. split; [by intros a Ha|]. intros a b c Hab Hbc Ha. by apply Hbc, Hab. Qed.

Lemma hand_events_out (w : W) r mb out o :
  hand_events (mkActor w r mb (out ++ [o])) = hand_events (mkActor w r mb out) ++ appended o.
Proof. unfold hand_events. cbn. by rewrite map_app, concat_app; cbn; rewrite app_nil_r. Qed.

(** Nothing is numbered. *)
Definition mute (a a' : Actor W) : Prop :=
  hand_events a' = hand_events a ∧ next_no a' = next_no a.
#[local] Instance mute_preorder : PreOrder mute.
Proof. split; [by split|]. intros a b c [] []. split; by etransitivity. Qed.
Lemma numbers_mute a a' : mute a a' → numbers a a'.
Proof. intros [He Hn] [? ? ?]. split; by rewrite ?He, ?Hn. Qed.

Lemma mute_output o (a : Actor W) : appended o = [] → moves mute (output o) a.
Proof.
  intros Ho. split; [|done]. unfold output, modify. cbn [fst]. rewrite hand_events_out, Ho.
  by rewrite app_nil_r.
Qed.
Lemma mute_draw {A} (f : W → W * A) a : moves mute (draw f) a.
Proof. unfold moves, draw. by destruct (f _). Qed.
Lemma mute_outside {E A} (m : M W E A) a : moves mute (outside m) a.
Proof. unfold moves, outside. by destruct (m _). Qed.
Lemma mute_engine {A} (m : M EngineState EngineError A) a : moves mute (engine m) a.
Proof. unfold moves, engine. by destruct (m _). Qed.
Lemma mute_room f (a : Actor W) :
  (∀ r, rs_next_hand_event_seq (f r) = rs_next_hand_event_seq r) → moves mute (modify_room f) a.
Proof. intros Hf. split; [done|]. apply Hf. Qed.
Lemma mute_try_send cmd (a : Actor W) : moves mute (try_send queue_capacity cmd) a.
Proof. unfold moves, try_send, modify. cbn [fst]. by case_match. Qed.
Lemma mute_private s keys seq a : moves mute (build_hole_cards_private_events s keys seq) a.
Proof.
  unfold build_hole_cards_private_events. destruct (dealing s); room_moves fail.
  unfold hole_cards_event. destruct x as [seat [c0 c1]]. repeat case_match; room_moves ltac:(apply mute_outside).
Qed.
Lemma mute_behavior kind a : moves mute (record_behavior room_id kind) a.
Proof.
  unfold record_behavior, utc. room_moves ltac:(first [apply mute_draw|by apply mute_output]).
Qed.
Lemma mute_verify_pending endpoint entry a :
  moves mute (verify_pending queue_capacity config endpoint entry) a.
Proof.
  unfold verify_pending. destruct entry. apply moves_bind; [exact _|apply mute_outside|].
  intros a' x _. repeat case_match; room_moves ltac:(apply mute_try_send).
Qed.

Lemma event_no_S n : sat_add u32_max (event_no n) 1 = event_no (S n).
Proof. unfold sat_add, event_no. lia. Qed.

(** One event takes the next number. *)
Lemma new_hand_event_run hand_id kind (a : Actor W) :
  ∃ a' e, new_hand_event room_id hand_id kind a = (a', Ok e) ∧
    he_event_seq e = next_no a ∧ he_room_id e = room_id ∧
    next_no a' = sat_add u32_max (next_no a) 1 ∧ hand_events a' = hand_events a.
Proof.
  unfold new_hand_event, utc, room, draw. mrun. destruct (fresh_uuid (ac_world a)) as [w id].
  eexists _, _. split; [reflexivity|done].
Qed.

Lemma new_hand_events_run hand_id kinds n (a : Actor W) :
  next_no a = event_no n →
  ∃ a' events, M_map (new_hand_event room_id hand_id) kinds a = (a', Ok events) ∧
    map he_event_seq events = map event_no (seq n (length kinds)) ∧
    length events = length kinds ∧ Forall (λ e, he_room_id e = room_id) events ∧
    next_no a' = event_no (n + length kinds) ∧ hand_events a' = hand_events a.
Proof.
  revert n a. induction kinds as [|kind kinds IH]; intros n a Hn; cbn [M_map].
  - exists a, []. rewrite Nat.add_0_r. done.
  - destruct (new_hand_event_run hand_id kind a) as (a1 & e & Hrun & He & Hroom & Hn1 & Hev).
    rewrite Hn, event_no_S in Hn1.
    destruct (IH (S n) a1 Hn1) as (a2 & es & Hruns & Hes & Hlen & Hrooms & Hn2 & Hev2).
    mrun. rewrite Hrun. mrun in Hruns. rewrite Hruns. exists a2, (e :: es). split; [done|].
    cbn. rewrite Hes, Hlen, He, Hn, Hn2, Hev2. repeat split; try done; [by constructor|].
    f_equal. lia.
Qed.

(** Numbered events, once appended, continue the numbering. *)
Lemma numbered_append (a a' : Actor W) events :
  numbered a →
  map he_event_seq events = map event_no (seq (length (hand_events a)) (length events)) →
  Forall (λ e, he_room_id e = room_id) events →
  next_no a' = event_no (length (hand_events a) + length events) →
  hand_events a' = hand_events a ++ events → numbered a'.
Proof.
  intros [Hs Hn Hr] He Hre Hn' Hev. split; rewrite Hev, ?length_app.
  - by rewrite map_app, Hs, He, seq_app, map_app.
  - done.
  - by apply Forall_app.
Qed.

Ltac mute_leaf :=
  apply numbers_mute;
  first [ by apply mute_output | apply mute_draw | apply mute_outside | apply mute_engine
        | apply mute_room; by intros [] | apply mute_private | apply mute_behavior
        | apply mute_verify_pending ].

Lemma numbers_append_hand_event hand_id kind a :
  moves numbers (append_hand_event room_id hand_id kind) a.
Proof.
  intros Ha. unfold append_hand_event, output. mrun.
  destruct (new_hand_event_run hand_id kind a) as (a1 & e & Hrun & He & Hroom & Hn1 & Hev).
  rewrite Hrun. cbn [fst]. apply (numbered_append a _ [e]); [done| | | |].
  - cbn. by rewrite He, (num_next _ Ha).
  - by constructor.
  - cbn. rewrite Hn1, (num_next _ Ha), event_no_S. f_equal. lia.
  - rewrite hand_events_out. cbn. by rewrite <-Hev; destruct a1.
Qed.

Lemma numbers_emit action r a : moves numbers (emit_post_action_hand_events room_id action r) a.
Proof.
  intros Ha. unfold emit_post_action_hand_events, room, output. mrun.
  destruct (new_hand_events_run (hs_hand_id (snapshot (st a)))
    (action_event_kinds (st a) action r) _ a (num_next _ Ha))
    as (a1 & es & Hrun & Hes & Hlen & Hrooms & Hn1 & Hev).
  mrun in Hrun. rewrite Hrun.
  set (a2 := if turn_passed (st a) then (fst (bump_generation a1)) else a1).
  assert ((if turn_passed (st a) then bump_generation a1 else (a1, Ok tt)) = (a2, Ok tt)) as ->
    by (unfold a2; by destruct (turn_passed (st a))).
  assert (hand_events a2 = hand_events a1 ∧ next_no a2 = next_no a1) as [He2 Hn2]
    by (unfold a2; by destruct (turn_passed (st a))).
  cbn [fst]. rewrite <-Hlen in Hes, Hn1. apply (numbered_append a _ es); [done..| |].
  - cbn. by rewrite Hn2.
  - rewrite hand_events_out. rewrite <-Hev, <-He2. by destruct a2.
Qed.

Lemma numbers_play action a : moves numbers (play room_id action) a.
Proof.
  unfold play. apply moves_bind; [exact _|mute_leaf|]. intros a' [r|e] _; [|room_moves fail].
  room_moves ltac:(first [apply numbers_emit|mute_leaf]).
Qed.

Lemma numbers_publish seat a : moves numbers (publish_hand room_id seat) a.
Proof.
  unfold publish_hand.
  apply moves_room. apply moves_bind; [exact _|mute_leaf|]. intros a1 x _.
  apply moves_bind; [exact _|mute_leaf|]. intros a2 private _.
  apply moves_bind; [exact _|room_moves mute_leaf|]. intros a3 y _ Ha3.
  set (hid := hs_hand_id (snapshot (st a))).
  set (kind := TurnStarted (default seat (hs_acting_seat_id (snapshot (st a))))).
  destruct (new_hand_events_run hid [HandStarted; kind] _ a3 (num_next _ Ha3))
    as (a4 & es & Hrun & Hes & Hlen & Hrooms & Hn4 & Hev).
  cbn [M_map] in Hrun. mrun in Hrun. mrun.
  destruct (new_hand_event room_id hid HandStarted a3) as [b1 [e1|[]]].
  destruct (new_hand_event room_id hid kind b1) as [b2 [e2|[]]].
  injection Hrun as -> <-. unfold output, modify_room, modify. cbn [fst].
  apply (numbered_append a3 _ [e1; e2]); [done..|].
  rewrite <-Hev. unfold hand_events. cbn [ac_out]. by rewrite map_app, concat_app.
Qed.

Lemma numbers_announce seat a : moves numbers (announce_hand room_id seat) a.
Proof.
  unfold announce_hand, bump_generation, clear_scheduler.
  room_moves ltac:(first [apply numbers_publish|mute_leaf]).
Qed.

Lemma numbers_close status a : moves numbers (close_and_announce room_id status) a.
Proof.
  unfold close_and_announce, bump_generation, clear_scheduler.
  room_moves ltac:(first [apply numbers_append_hand_event|mute_leaf]).
Qed.

Lemma numbers_fold seat a : moves numbers (fold_for_timeout room_id seat) a.
Proof.
  unfold fold_for_timeout, bump_generation, clear_scheduler.
  room_moves ltac:(first [apply numbers_play|mute_leaf]).
Qed.

Ltac number_leaf :=
  first [ apply numbers_append_hand_event | apply numbers_play | apply numbers_announce
        | apply numbers_close | apply numbers_fold | mute_leaf ].

Lemma numbers_handle cmd a : moves numbers (handle room_id queue_capacity config cmd) a.
Proof.
  destruct cmd; cbn [handle];
    unfold handle_join, handle_leave, handle_bind_address, handle_bind_session_keys, handle_ready,
      handle_act, handle_queue_pending, handle_chain_tx_verified, apply_pending,
      handle_complete_settlement, handle_turn_timeout, handle_turn_reminder,
      handle_scheduler_tick, verify_all_pending, watch_current_turn, watch_turn, remind, instant, clear_scheduler;
    room_moves ltac:(first [number_leaf | case_match]).
Qed.

Lemma numbered_run a a' : rtc step a a' → numbered a → numbered a'.
Proof.
  induction 1 as [|a b c Hs _ IH]; [done|]. intros Ha. apply IH. destruct Hs; [|by destruct Ha..].
  apply (numbers_handle cmd (mkActor w r mailbox out)). by destruct Ha.
Qed.

(** C21. The hand events a room ever appends are numbered 1, 2, 3, ... without a gap
    or a repetition across hands, whatever the order of the commands, until 32 bits
    run out and the number stays at the last one; all of them name the room. *)
Theorem hand_events_are_numbered w a
    (Hr : rtc step (spawn_room_actor room_id w) a) :
  map he_event_seq (hand_events a) = map event_no (seq 0 (length (hand_events a))) ∧
  Forall (λ e, he_room_id e = room_id) (hand_events a) ∧
  next_no a = event_no (length (hand_events a)).
Proof.
  assert (numbered a) as [Hs Hn Hroom]; [|done].
  apply (numbered_run _ _ Hr). unfold spawn_room_actor. by destruct (fresh_uuid w).
Qed.
End Props.

(** ** Instances *)

#[local] Existing Instances demo_cards demo_clock demo_instant demo_ids demo_shuffler
  demo_secrets demo_no_crypto demo_uuid_text demo_codec demo_offline.

Lemma room_plays_the_game_witness :
  hs_status (snapshot (rs_state (ac_room demo_showdown))) = HShowdown ∧ room_ok 7 demo_showdown.
Proof.
  split; [vm_compute; reflexivity|].
  refine (proj1 (room_plays_the_game 7 8 RoomActorConfig_default (mkDemoWorld 1000 100)
    demo_showdown demo_showdown_reached)).
Defined.

Lemma hand_events_are_numbered_witness :
  map he_event_seq (hand_events demo_room) = [1; 2].
Proof.
  etransitivity;
    [exact (proj1 (hand_events_are_numbered 7 8 RoomActorConfig_default (mkDemoWorld 1000 100)
       demo_room demo_room_reached))|].
  vm_compute. reflexivity.
Defined.
