(* ===== verification/RoomTurns.v ===== *)
(** What the room actor does to the hand on a turn: actions that wait for the
    chain, the timers of a turn, and the start of a hand. *)

From stdpp Require Import base tactics option list gmap relations strings pretty.
From Stdlib Require Import NArith Lia.
From S2P Require Import Prelude.
From S2P Require Import Ambient.
From S2P Require Import Text.
From S2P Require Import Domain.
From S2P Require Import EngineState.
From S2P Require Import Engine.
From S2P Require Import EngineInv.
From S2P Require Import Dealing.
From S2P Require Import JsonRpc.
From S2P Require Import ChainWatcher.
From S2P Require Import SeatCrypto.
From S2P Require Import TableService.
From S2P Require Import RoomLogic.
From S2P Require Import RoomDemo.

Local Open Scope N_scope.

Section Turns.
Context {CO : CardOps} {W : Type}.
Context {CK : Clock W} {FI : FreshIds W} {MC : MonotonicClock W} {SH : Shuffler W}.
Context {CR : SeatCryptoPrimitives} {UT : UuidText} {ES : EphemeralSecrets W} {RC : RoomCodec}.
Context {TR : JsonRpcTransport W}.
Context (room_id : RoomId) (queue_capacity : nat) (config : RoomActorConfig).

Abbreviation H A := (M (Actor W) Empty_set A) (only parsing).
Abbreviation st a := (rs_state (ac_room a)) (only parsing).
Abbreviation pending a := (rs_pending_chain_actions (ac_room a)) (only parsing).
Abbreviation generation a := (rs_timeout_generation (ac_room a)) (only parsing).
Abbreviation scheduler a := (rs_turn_scheduler (ac_room a)) (only parsing).
Abbreviation step := (room_step room_id queue_capacity config) (only parsing).
Abbreviation on cmd := (receive room_id queue_capacity config cmd) (only parsing).

(** ** Playing an action *)

(** Every handler ends. *)
Lemma total {A} (m : H A) a : ∃ a' x, m a = (a', Ok x).
Proof. destruct (m a) as [a' [x|[]]]. eauto. Qed.

Lemma quiet_run {A} (m : H A) a : moves quiet m a → ∃ a' x, m a = (a', Ok x) ∧ quiet a a'.
Proof. unfold moves. destruct (total m a) as (a' & x & ->). eauto. Qed.

Definition next_generation (passed : bool) (g : N) : N :=
  if passed then sat_add u64_max g 1 else g.

(** Everything but the engine's state and the generation of the timer. *)
Record beside (a a' : Actor W) : Prop := {
  beside_pending : pending a' = pending a;
  beside_scheduler : scheduler a' = scheduler a;
  beside_seated : rs_seated (ac_room a') = rs_seated (ac_room a);
}.

Lemma emit_run action r a :
  ∃ a', emit_post_action_hand_events room_id action r a = (a', Ok tt) ∧
    st a' = st a ∧ beside a a' ∧
    generation a' = next_generation (turn_passed (st a)) (generation a).
Proof.
  unfold emit_post_action_hand_events, room, output. mrun.
  destruct (quiet_run (M_map (new_hand_event room_id (hs_hand_id (snapshot (st a))))
    (action_event_kinds (st a) action r)) a) as (a1 & es & Hrun & [Hs Hse _ _ Hp Hg Hsc]).
  { room_moves ltac:(apply quiet_new_hand_event). }
  mrun in Hrun. rewrite Hrun. unfold bump_generation, modify_room, modify, next_generation.
  destruct (turn_passed (st a)); eexists; (split; [reflexivity|]); cbn;
    rewrite Hs, ?Hg; (split; [done|]); (split; [by split|done]).
Qed.

Lemma play_run action a :
  let '(s', r) := apply_action action (st a) in
  ∃ a', play room_id action a = (a', Ok r) ∧ st a' = s' ∧ beside a a' ∧
    generation a' = next_generation (is_ok r && turn_passed s') (generation a).
Proof.
  unfold play, engine. destruct (apply_action action (st a)) as [s' r] eqn:Ha. mrun. rewrite Ha.
  destruct r as [r|e]; [|eexists; split; [reflexivity|]; by repeat split].
  unfold room, output, modify. cbn [ac_world ac_room ac_mailbox ac_out fst snd].
  match goal with |- context [emit_post_action_hand_events room_id action r ?b] =>
    destruct (emit_run action r b) as (a2 & Hrun & Hs & [Hp Hsc Hse] & Hg) end.
  rewrite Hrun. cbn [ac_room] in *. eexists. split; [reflexivity|].
  cbn in Hs, Hp, Hsc, Hse, Hg. rewrite Hs in *. split; [done|]. split; [by split|done].
Qed.

(** ** Actions that wait for the chain *)

(** What a callback of the chain may do to the hand and to the waiting actions. *)
Definition chain_effect (cb : ChainTxVerifiedCallback) (s : EngineState)
    (waiting : gmap string PendingChainAction) : EngineState * gmap string PendingChainAction :=
  if concerns_current_hand cb s then
    if String.eqb (cb_status cb) "matched" then
      match waiting !! cb_tx_hash cb with
      | Some p => (fst (apply_action (pc_action p) s), delete (cb_tx_hash cb) waiting)
      | None => (s, waiting)
      end
    else if is_negative (cb_status cb) && is_open (hs_status (snapshot s))
    then (close_hand HAborted s, waiting)
    else (s, waiting)
  else (s, waiting).

Lemma matched_not_negative status : String.eqb status "matched" = true → is_negative status = false.
Proof. by intros ->%String.eqb_eq. Qed.

Lemma apply_pending_run cb a :
  ∃ a', apply_pending room_id cb a = (a', Ok tt) ∧
    match pending a !! cb_tx_hash cb with
    | Some p => st a' = fst (apply_action (pc_action p) (st a)) ∧
                pending a' = delete (cb_tx_hash cb) (pending a)
    | None => a' = a
    end.
Proof.
  unfold apply_pending, room. mrun. destruct (pending a !! cb_tx_hash cb) as [p|]; [|by eexists].
  unfold modify_room at 1, modify. cbn [ac_room].
  match goal with |- context [play room_id (pc_action p) ?b] => set (a1 := b) end.
  pose proof (play_run (pc_action p) a1) as Hplay.
  change (st a1) with (st a) in Hplay.
  destruct (apply_action (pc_action p) (st a)) as [s' r] eqn:Ha.
  destruct Hplay as (a2 & Hrun & Hs & [Hp _ _] & _). rewrite Hrun.
  unfold clear_scheduler, modify_room, modify.
  destruct (is_ok r); eexists; (split; [reflexivity|]); cbn; rewrite Hs, Hp; done.
Qed.

Lemma close_run status a :
  ∃ a', close_and_announce room_id status a = (a', Ok tt) ∧
    st a' = close_hand status (st a) ∧
    generation a' = next_generation true (generation a) ∧ pending a' = pending a.
Proof.
  unfold close_and_announce, bump_generation, clear_scheduler, room. mrun.
  unfold modify_room at 1, modify. cbn [ac_room].
  match goal with |- context [append_hand_event room_id ?h ?k ?b] =>
    destruct (quiet_run (append_hand_event room_id h k) b) as (a1 & [] & Hrun & [Hs _ _ _ Hp Hg _]) end.
  { apply quiet_append_hand_event. }
  rewrite Hrun. eexists. split; [reflexivity|]. cbn. by rewrite Hs, Hp, Hg.
Qed.

Lemma chain_callback_effect cb a :
  (st (on (ChainTxVerified cb) a), pending (on (ChainTxVerified cb) a))
  = chain_effect cb (st a) (pending a).
Proof.
  unfold receive. cbn [handle]. unfold handle_chain_tx_verified, room. mrun.
  match goal with |- context [record_behavior room_id ?k] => set (kind := k) end.
  assert (∀ b, st (fst (record_behavior room_id kind b)) = st b ∧
               pending (fst (record_behavior room_id kind b)) = pending b) as Hrec.
  { intros b. by destruct (quiet_record_behavior room_id kind b). }
  unfold chain_effect.
  destruct (String.eqb (cb_status cb) "matched") eqn:Hm; cbn [andb].
  - rewrite (matched_not_negative _ Hm). cbn [andb].
    destruct (concerns_current_hand cb (st a)); mrun; [|destruct (Hrec a) as [-> ->]; done].
    destruct (apply_pending_run cb a) as (a1 & Hrun & Heff). rewrite Hrun.
    destruct (Hrec a1) as [-> ->].
    destruct (pending a !! cb_tx_hash cb); [by destruct Heff as [-> ->]|by subst a1].
  - destruct (concerns_current_hand cb (st a));
      [|rewrite andb_false_r; cbn [andb]; mrun; destruct (Hrec a) as [-> ->]; done].
    rewrite andb_true_r.
    destruct (is_negative (cb_status cb) && is_open (hs_status (snapshot (st a)))); mrun;
      [|destruct (Hrec a) as [-> ->]; done].
    destruct (close_run HAborted a) as (a1 & Hrun & Hs & _ & Hp). rewrite Hrun.
    destruct (Hrec a1) as [-> ->]. by rewrite Hs, Hp.
Qed.

Lemma chain_effect_replay cb s waiting :
  let '(s1, waiting1) := chain_effect cb s waiting in
  chain_effect cb s1 waiting1 = (s1, waiting1).
Proof.
  unfold chain_effect.
  destruct (concerns_current_hand cb s) eqn:Hc; [|by rewrite Hc].
  destruct (String.eqb (cb_status cb) "matched") eqn:Hm.
  - destruct (waiting !! cb_tx_hash cb) as [p|] eqn:Hp; [|by rewrite Hc, Hp].
    rewrite lookup_delete_eq. by case_match.
  - destruct (is_negative (cb_status cb)) eqn:Hn; cbn [andb]; [|by rewrite Hc].
    destruct (is_open (hs_status (snapshot s))) eqn:Ho; [|by rewrite Hc, Ho].
    by destruct (concerns_current_hand _ _).
Qed.

(** C6. An action that waits for its transaction is played by one callback only: a
    matched one for its transaction and for the current hand, which takes it off the
    list whether or not the engine accepts it; a failed or unmatched one for the
    current hand aborts the hand while it is open, whichever transaction it is about,
    and leaves the list alone; every other callback changes neither. Delivering the
    same callback again changes nothing. *)
Theorem waiting_action_is_played_once cb a :
  (st (on (ChainTxVerified cb) a), pending (on (ChainTxVerified cb) a))
  = chain_effect cb (st a) (pending a) ∧
  st (on (ChainTxVerified cb) (on (ChainTxVerified cb) a)) = st (on (ChainTxVerified cb) a) ∧
  pending (on (ChainTxVerified cb) (on (ChainTxVerified cb) a))
  = pending (on (ChainTxVerified cb) a).
Proof.
  pose proof (chain_callback_effect cb a) as H1.
  pose proof (chain_callback_effect cb (on (ChainTxVerified cb) a)) as H2.
  pose proof (chain_effect_replay cb (st a) (pending a)) as Hr.
  split; [exact H1|]. rewrite <-H1 in Hr. rewrite Hr in H2. by injection H2.
Qed.

(** ** The generations of the turn timer *)

(** The turn a seat is on: the hand, the number of the action and the seat. *)
Definition turn_of (s : EngineState) : HandId * N * option SeatId :=
  (hs_hand_id (snapshot s), hs_next_action_seq (snapshot s), hs_acting_seat_id (snapshot s)).

(** While the generation stays, the turn stays, as long as somebody is to act; the
    counter saturates, so its last value says nothing. *)
Definition aged_ok (a : Actor W) : Prop := room_ok room_id a ∧ generation a ≤ u64_max.
Definition ages (a a' : Actor W) : Prop :=
  aged_ok a →
  aged_ok a' ∧ generation a ≤ generation a' ∧
  (generation a' = generation a → generation a' < u64_max →
   is_Some (hs_acting_seat_id (snapshot (st a'))) → turn_of (st a') = turn_of (st a)).
#[local] Instance ages_preorder : PreOrder ages.
Proof.
  split; [by intros a Ha|]. intros a b c Hab Hbc Ha.
  destruct (Hab Ha) as (Hb & Hg1 & Ht1). destruct (Hbc Hb) as (Hc & Hg2 & Ht2).
  split; [done|]. split; [lia|]. intros Hg Hmax Hact.
  assert (turn_of (st c) = turn_of (st b)) as Hcb by (apply Ht2; [lia|done|done]).
  rewrite Hcb. apply Ht1; [lia|lia|]. unfold turn_of in Hcb. injection Hcb as _ _ Hx.
  by rewrite <-Hx.
Qed.

(** A step that keeps the turn and the generation. *)
Lemma ages_same_turn a a' :
  evolves room_id a a' → snapshot (st a') = snapshot (st a) → generation a' = generation a →
  ages a a'.
Proof.
  intros He Hs Hg [Ha Hb]. destruct (He Ha) as [_ Ha']. split; [split; [done|lia]|].
  split; [lia|]. intros _ _ _. unfold turn_of. by rewrite Hs.
Qed.
Lemma ages_quiet a a' : quiet a a' → ages a a'.
Proof.
  intros Hq. apply ages_same_turn; [by apply evolves_quiet| |]; destruct Hq as [Hs _ _ _ _ Hg _].
  - by rewrite Hs.
  - done.
Qed.
Lemma ages_frame f a :
  (∀ r, rs_state (f r) = rs_state r ∧ rs_seated (f r) = rs_seated r ∧ rs_ready (f r) = rs_ready r ∧
        rs_bound_addresses (f r) = rs_bound_addresses r ∧
        rs_timeout_generation (f r) = rs_timeout_generation r) →
  moves ages (modify_room f) a.
Proof.
  intros Hf. destruct (Hf (ac_room a)) as (H1 & _ & _ & _ & H5).
  apply ages_same_turn; [apply evolves_frame; intros r; destruct (Hf r); naive_solver|
                         by cbn; rewrite H1|exact H5].
Qed.

(** A step that leaves nobody to act, or bumps the generation. *)
Lemma ages_passed passed a a' :
  evolves room_id a a' → generation a' = next_generation passed (generation a) →
  (is_Some (hs_acting_seat_id (snapshot (st a'))) → passed = true) →
  ages a a'.
Proof.
  intros He Hg Hb [Ha Hmx]. destruct (He Ha) as [_ Ha'].
  unfold next_generation, sat_add in Hg. rewrite Hg.
  split; [split; [done|destruct passed; lia]|]. split; [destruct passed; lia|].
  intros Heq Hmax Hact. rewrite (Hb Hact) in Heq, Hmax. lia.
Qed.

Lemma ages_play action a : moves ages (play room_id action) a.
Proof.
  intros Ha. pose proof (evolves_play room_id action a) as He.
  pose proof (play_run action a) as Hrun.
  destruct (apply_action action (st a)) as [s' r] eqn:Happ.
  destruct Hrun as (a' & Hrun & Hs & _ & Hg). unfold moves in He. rewrite Hrun in *.
  cbn [fst] in *. revert Ha.
  destruct r as [r|e]; cbn [is_ok andb] in Hg.
  - apply (ages_passed (turn_passed s')); [done|done|]. rewrite Hs. unfold turn_passed.
    by intros [x ->].
  - intros Hok. refine (ages_same_turn _ _ He _ Hg Hok). rewrite Hs.
    by destruct (action_frame _ _ _ _ (ok_engine _ _ (proj1 Hok)) Happ) as (_ & _ & _ & ?).
Qed.

Lemma ages_close status a :
  game_step (st a) (close_hand status (st a)) → moves ages (close_and_announce room_id status) a.
Proof.
  intros Hg. pose proof (evolves_close room_id status a Hg) as He.
  destruct (close_run status a) as (a' & Hrun & Hs & Hgen & _). unfold moves in *.
  rewrite Hrun in *. cbn [fst] in *. apply (ages_passed true); [done|done|done].
Qed.

Lemma ages_bump (a : Actor W) : moves ages bump_generation a.
Proof.
  intros [Ha Hg]. assert (evolves room_id a (fst (bump_generation a))) as He
    by (apply evolves_frame; by intros []).
  destruct (He Ha) as [_ Ha']. unfold aged_ok. cbn. unfold sat_add.
  split; [split; [done|lia]|]. split; [lia|]. intros ? ? ?. done.
Qed.

Lemma fold_state seat a :
  st (fst (fold_for_timeout room_id seat a))
  = fst (apply_action (auto_fold room_id (st a) seat) (st a)).
Proof.
  unfold fold_for_timeout, room. mrun.
  pose proof (play_run (auto_fold room_id (st a) seat) a) as Hrun.
  destruct (apply_action _ (st a)) as [s' r]. destruct Hrun as (a1 & Hrun & Hs & _).
  rewrite Hrun. unfold bump_generation, clear_scheduler, modify_room, modify.
  destruct (negb (is_ok r)); cbn beta iota;
    match goal with |- context [record_behavior room_id ?k ?b] =>
      destruct (quiet_record_behavior room_id k b) as [Hq _ _ _ _ _ _]; unfold moves in Hq;
      rewrite Hq end; exact Hs.
Qed.

Lemma ages_fold seat a : moves ages (fold_for_timeout room_id seat) a.
Proof.
  unfold fold_for_timeout, clear_scheduler.
  apply moves_room. apply moves_bind; [exact _|apply ages_play|]. intros a1 r _.
  apply moves_bind; [exact _|apply moves_when; [exact _|intros _; apply ages_bump]|].
  intros a2 x _. apply moves_bind; [exact _|apply ages_frame; by intros []|]. intros a3 y _.
  apply moves_room. apply ages_quiet, quiet_record_behavior.
Qed.

Lemma announce_run seat a :
  ∃ a', announce_hand room_id seat a = (a', Ok tt) ∧ st a' = st a ∧
    pending a' = pending a ∧ generation a' = next_generation true (generation a).
Proof.
  unfold announce_hand, bump_generation, clear_scheduler, modify_room, modify. mrun.
  destruct (quiet_run (publish_hand room_id seat) a (quiet_publish room_id seat a))
    as (a1 & [] & Hrun & [Hs _ _ _ Hp Hg _]).
  rewrite Hrun. eexists. split; [reflexivity|]. cbn. by rewrite Hs, Hp, Hg.
Qed.

(** Steps that keep the snapshot and the generation, whatever they do to the seats. *)
Definition steady (a a' : Actor W) : Prop :=
  snapshot (st a') = snapshot (st a) ∧ generation a' = generation a.
#[local] Instance steady_preorder : PreOrder steady.
Proof. split; [by split|]. intros a b c [] []. split; by etransitivity. Qed.
Lemma steady_quiet a a' : quiet a a' → steady a a'.
Proof. intros [Hs _ _ _ _ Hg _]. split; [by rewrite Hs|done]. Qed.
Lemma steady_room f (a : Actor W) :
  (∀ r, snapshot (rs_state (f r)) = snapshot (rs_state r) ∧
        rs_timeout_generation (f r) = rs_timeout_generation r) →
  moves steady (modify_room f) a.
Proof. intros Hf. by destruct (Hf (ac_room a)). Qed.
Lemma ages_steady {A} (m : H A) a :
  moves (evolves room_id) m a → moves steady m a → moves ages m a.
Proof. intros He [Hs Hg]. by apply ages_same_turn. Qed.

Ltac steady_leaf :=
  idtac; lazymatch goal with
  | |- moves _ (modify_room _) _ => apply steady_room; by intros []
  | |- _ => apply steady_quiet;
      first [ apply quiet_output | apply quiet_draw | apply quiet_outside
            | apply quiet_append_hand_event | apply quiet_record_behavior
            | apply quiet_verify_pending ]
  end.

(** The deal of a ready seat, when the guards let it through. *)
Definition may_deal (seat : SeatId) (r : RoomState) : bool :=
  bool_decide (seat ∈ rs_seated r)
  && (bool_decide (hs_acting_seat_id (snapshot (rs_state r)) = None)
      && (2 <=? length (eligible_ready (set_ready ({[seat]} ∪ rs_ready r) r)))%nat).

Lemma ready_run seat a :
  if may_deal seat (ac_room a) then
    let '(w1, hand_id) := fresh_uuid (ac_world a) in
    let '(w2, shuffle) := draw_shuffle w1 in
    let '(s', r) := deal_new_hand_internal hand_id shuffle (st a) in
    ∃ a', handle_ready room_id seat a = (a', Ok tt) ∧ st a' = s' ∧
      generation a' = next_generation (is_ok r) (generation a)
  else steady a (fst (handle_ready room_id seat a)).
Proof.
  unfold may_deal, handle_ready, room. mrun.
  destruct (bool_decide (seat ∈ _)); cbn [andb]; [|done].
  unfold modify_room, modify. cbn beta iota.
  match goal with |- context [eligible_ready (ac_room ?b)] => set (a1 := b) end.
  cbn [ac_room]. change (rs_state (ac_room a1)) with (st a).
  change (set_ready ({[seat]} ∪ rs_ready (ac_room a)) (ac_room a)) with (ac_room a1).
  destruct (bool_decide _ && _); [|by split].
  unfold draw. change (ac_world a1) with (ac_world a).
  destruct (fresh_uuid (ac_world a)) as [w1 hand_id].
  cbn [ac_world]. destruct (draw_shuffle w1) as [w2 shuffle].
  unfold engine. cbn [ac_room ac_world]. change (rs_state (ac_room a1)) with (st a).
  destruct (deal_new_hand_internal hand_id shuffle (st a)) as [s' r].
  destruct r as [r|e]; cbn [is_ok].
  - match goal with |- context [announce_hand room_id seat ?b] =>
      destruct (announce_run seat b) as (a2 & Hrun & Hs & _ & Hg); rewrite Hrun end.
    by exists a2.
  - eexists. split; [reflexivity|]. done.
Qed.

Lemma ages_ready seat a : moves ages (handle_ready room_id seat) a.
Proof.
  pose proof (evolves_ready room_id seat a) as He. pose proof (ready_run seat a) as Hrun.
  destruct (may_deal seat (ac_room a)).
  2:{ destruct Hrun as [Hs Hg]. by apply ages_same_turn. }
  destruct (fresh_uuid (ac_world a)) as [w1 hand_id]. destruct (draw_shuffle w1) as [w2 shuffle].
  destruct (deal_new_hand_internal hand_id shuffle (st a)) as [s' r] eqn:Hd.
  destruct Hrun as (a' & Hrun & Hs & Hg). unfold moves in *. rewrite Hrun in *.
  destruct r as [r|e]; cbn [is_ok] in Hg.
  - by apply (ages_passed true).
  - apply ages_same_turn; [exact He| |exact Hg]. cbn. rewrite Hs.
    pose proof (deal_cases hand_id (shuffle ordered_deck) (st a)) as Hc.
    unfold deal_new_hand_internal in Hd. destruct (deal_refusal _ _).
    + rewrite Hc in Hd. by injection Hd as <- _.
    + destruct Hc as (? & ? & ? & ? & _ & _ & _ & _ & _ & _ & _ & _ & Hc). by rewrite Hc in Hd.
Qed.

Lemma ages_chain cb a : moves ages (handle_chain_tx_verified room_id cb) a.
Proof.
  unfold handle_chain_tx_verified. apply moves_room. apply moves_bind; [exact _| |intros a1 x _].
  - apply moves_when; [exact _|]. intros _. unfold apply_pending. apply moves_room.
    case_match; [|by room_moves fail]. unfold clear_scheduler.
    apply moves_bind; [exact _|apply ages_frame; by intros []|]. intros a1 x _.
    apply moves_bind; [exact _|apply ages_play|]. intros a2 y _.
    apply moves_when; [exact _|]. intros _. apply ages_frame; by intros [].
  - apply moves_room. apply moves_bind; [exact _| |intros; apply ages_quiet, quiet_record_behavior].
    apply moves_when; [exact _|]. intros [_ Hopen]%andb_true_iff.
    by apply ages_close, game_abort.
Qed.

Lemma ages_complete hand_id a : moves ages (handle_complete_settlement room_id hand_id) a.
Proof.
  unfold handle_complete_settlement. apply moves_room. apply moves_when; [exact _|].
  intros [_ Hs]%andb_true_iff. apply ages_close, game_settle.
  destruct (hs_status (snapshot (st a))); (done || auto).
Qed.

Lemma ages_tick a : moves ages (handle_scheduler_tick room_id queue_capacity config) a.
Proof.
  unfold handle_scheduler_tick, instant.
  apply moves_bind; [exact _|apply ages_quiet, quiet_draw|]. intros a1 now _.
  apply moves_bind; [exact _|apply ages_frame; by intros []|]. intros a2 x _.
  apply moves_bind; [exact _|apply ages_quiet, quiet_verify_all|]. intros a3 y _.
  unfold watch_current_turn, clear_scheduler.
  apply moves_room. case_match; [|apply ages_frame; by intros []].
  case_match; [apply ages_frame; by intros []|].
  unfold watch_turn, remind. apply moves_room.
  repeat case_match;
    room_moves ltac:(idtac; first [ apply ages_fold | apply ages_quiet, quiet_append_hand_event
                                  | apply ages_frame; by intros [] ]).
Qed.

Lemma ages_handle cmd a : moves ages (handle room_id queue_capacity config cmd) a.
Proof.
  destruct cmd; cbn [handle];
    try (by room_moves ltac:(apply ages_quiet, quiet_output)).
  - apply ages_steady; [apply evolves_join|]. unfold handle_join. room_moves steady_leaf.
  - apply ages_steady; [apply evolves_leave|]. unfold handle_leave. room_moves steady_leaf.
  - apply ages_steady; [apply evolves_bind_address|].
    unfold handle_bind_address. room_moves steady_leaf.
  - apply ages_steady; [apply evolves_bind_keys|].
    unfold handle_bind_session_keys. room_moves steady_leaf.
  - apply ages_ready.
  - unfold handle_act, clear_scheduler.
    room_moves ltac:(idtac; first [ apply ages_play | apply ages_quiet, quiet_output
                                  | apply ages_frame; by intros [] ]).
  - unfold handle_queue_pending, instant.
    room_moves ltac:(idtac; first [ apply ages_frame; by intros []
      | apply ages_quiet; first [apply quiet_draw | apply quiet_record_behavior | apply quiet_output] ]).
  - apply ages_chain.
  - apply ages_complete.
  - unfold handle_turn_timeout. apply moves_room. apply moves_when; [exact _|]. intros _.
    case_match; [apply ages_fold|room_moves fail].
  - unfold handle_turn_reminder, remind. apply moves_room. apply moves_when; [exact _|]. intros _.
    case_match; room_moves ltac:(apply ages_quiet, quiet_append_hand_event).
  - apply ages_tick.
Qed.

Lemma ages_steps a a' : rtc step a a' → ages a a'.
Proof.
  induction 1 as [|a b c Hs _ IH]; [reflexivity|]. etransitivity; [|exact IH].
  destruct Hs; [|by apply ages_quiet..].
  etransitivity; [|exact (ages_handle cmd (mkActor w r mailbox out))]. by apply ages_quiet.
Qed.

Lemma aged_ok_spawn w a : rtc step (spawn_room_actor room_id w) a → aged_ok a.
Proof.
  intros Hr. apply (ages_steps _ _ Hr). split; [apply room_ok_spawn|].
  unfold spawn_room_actor. by destruct (fresh_uuid w).
Qed.

(** A turn timer folds nobody but the seat it was started for. A timer started
    now carries the current generation; when it elapses later, after any commands,
    then either the generation has moved on and nothing happens at all, or it is
    still the same turn of the same hand, the seat that was to act is still to act,
    and it is this seat that is folded, as long as the 64-bit counter has not reached
    its end. *)
Theorem timer_folds_its_own_turn w a a'
    (Ha : rtc step (spawn_room_actor room_id w) a) (Hlater : rtc step a a')
    (Hmax : generation a' < u64_max) :
  let elapsed := on (TurnTimeoutElapsed (generation a)) a' in
  if decide (generation a' = generation a) then
    match hs_acting_seat_id (snapshot (st a')) with
    | None => elapsed = a'
    | Some seat =>
        turn_of (st a') = turn_of (st a) ∧
        st elapsed = fst (apply_action (auto_fold room_id (st a') seat) (st a'))
    end
  else elapsed = a'.
Proof.
  pose proof (aged_ok_spawn _ _ Ha) as Hok.
  destruct (ages_steps _ _ Hlater Hok) as (_ & _ & Hturn).
  unfold receive. cbn [handle]. unfold handle_turn_timeout, room. mrun.
  case_decide as Hg.
  - rewrite (proj2 (N.eqb_eq _ _)) by done.
    destruct (hs_acting_seat_id (snapshot (st a'))) as [seat|] eqn:Hact; [|done].
    split; [apply Hturn; [done|done|by eexists]|].
    apply fold_state.
  - by rewrite (proj2 (N.eqb_neq _ _)).
Qed.

(** ** The watch over a turn *)

(** A tick of the scheduler in a world that has moved on to [w]. *)
Definition tick_in (a : Actor W) (w : W) : Actor W :=
  on SchedulerTick (mkActor w (ac_room a) (ac_mailbox a) (ac_out a)).

(** What the watch makes of a turn at time [now]: the hand and the watch after it. *)
Definition watched (now : N) (seat : SeatId) (s : EngineState) (t : option TurnSchedulerState)
    : EngineState * option TurnSchedulerState :=
  let fresh := mkTurnScheduler (hs_hand_id (snapshot s)) (hs_next_action_seq (snapshot s)) seat
                 now None in
  match t with
  | None => (s, Some fresh)
  | Some t =>
      if same_turn t (snapshot s) seat then
        match turn_decision now t with
        | KeepWaiting => (s, Some t)
        | SendReminder =>
            (s, Some (mkTurnScheduler (ts_hand_id t) (ts_action_seq t) (ts_seat_id t)
                        (ts_started_at t) (Some now)))
        | TimeIsUp => (fst (apply_action (auto_fold room_id s seat) s), None)
        end
      else (s, Some fresh)
  end.

Lemma fold_clears seat a : scheduler (fst (fold_for_timeout room_id seat a)) = None.
Proof.
  unfold fold_for_timeout, room. mrun.
  pose proof (play_run (auto_fold room_id (st a) seat) a) as Hrun.
  destruct (apply_action _ (st a)) as [s' r]. destruct Hrun as (a1 & Hrun & _).
  rewrite Hrun. unfold bump_generation, clear_scheduler, modify_room, modify.
  destruct (negb (is_ok r)); cbn beta iota;
    match goal with |- context [record_behavior room_id ?k ?b] =>
      destruct (quiet_record_behavior room_id k b) as [_ _ _ _ _ _ Hq]; unfold moves in Hq;
      rewrite Hq end; done.
Qed.

Lemma watch_turn_run now seat a :
  (st (fst (watch_turn room_id now seat a)), scheduler (fst (watch_turn room_id now seat a)))
  = watched now seat (st a) (scheduler a).
Proof.
  unfold watch_turn, room, watched. mrun. destruct (scheduler a) as [t|] eqn:Hsc; [|done].
  destruct (same_turn t (snapshot (st a)) seat); cbn [negb]; [|done].
  destruct (turn_decision now t); [by cbn; rewrite Hsc| |].
  - unfold remind, modify_room, modify. cbn beta iota.
    match goal with |- context [append_hand_event room_id ?h ?k ?b] =>
      destruct (quiet_append_hand_event room_id h k b) as [Hs _ _ _ _ _ Hq];
      unfold moves in Hs, Hq; rewrite Hs, Hq end. done.
  - by rewrite fold_state, fold_clears.
Qed.

Lemma tick_run a w seat :
  hs_status (snapshot (st a)) = HRunning →
  hs_acting_seat_id (snapshot (st a)) = Some seat →
  (st (tick_in a w), scheduler (tick_in a w)) = watched (instant_now w) seat (st a) (scheduler a).
Proof.
  intros Hrun Hact. unfold tick_in, receive. cbn [handle].
  unfold handle_scheduler_tick, instant, draw. mrun. cbn [ac_world ac_room].
  unfold modify_room, modify. cbn beta iota. cbn [ac_world ac_room ac_mailbox ac_out].
  match goal with |- context [verify_all_pending queue_capacity config ?b] => set (a1 := b) end.
  destruct (quiet_run (verify_all_pending queue_capacity config) a1 (quiet_verify_all _ _ a1))
    as (a2 & [] & Hverify & [Hs _ _ _ _ _ Hsc]).
  rewrite Hverify. unfold watch_current_turn, room. mrun.
  change (st a1) with (st a) in Hs. change (scheduler a1) with (scheduler a) in Hsc.
  rewrite Hs, Hact, bool_decide_true by done. cbn [negb]. rewrite watch_turn_run. by rewrite Hs, Hsc.
Qed.

Definition watching (seat : SeatId) (a : Actor W) : bool :=
  match scheduler a with
  | Some t => same_turn t (snapshot (st a)) seat
  | None => false
  end.

(** The watch over the current turn has been running since [t0]. *)
Definition watched_since (t0 : N) (seat : SeatId) (s : EngineState) (a : Actor W) : Prop :=
  st a = s ∧ ∃ t, scheduler a = Some t ∧ same_turn t (snapshot s) seat = true ∧ ts_started_at t = t0.

Lemma tick_starts_watch seat a w :
  hs_status (snapshot (st a)) = HRunning → hs_acting_seat_id (snapshot (st a)) = Some seat →
  watching seat a = false → watched_since (instant_now w) seat (st a) (tick_in a w).
Proof.
  intros Hrun Hact Hw. pose proof (tick_run a w seat Hrun Hact) as Htick.
  assert (watched (instant_now w) seat (st a) (scheduler a)
          = (st a, Some (mkTurnScheduler (hs_hand_id (snapshot (st a)))
                (hs_next_action_seq (snapshot (st a))) seat (instant_now w) None))) as Heq.
  { unfold watched, watching in *. destruct (scheduler a); [by rewrite Hw|done]. }
  rewrite Heq in Htick. injection Htick as Hs Hsc. split; [done|].
  eexists. split; [exact Hsc|]. split; [|done]. unfold same_turn. cbn. by rewrite !N.eqb_refl.
Qed.

Lemma tick_keeps_watch t0 seat s a w :
  hs_status (snapshot s) = HRunning → hs_acting_seat_id (snapshot s) = Some seat →
  watched_since t0 seat s a → instant_now w - t0 < DEFAULT_STEP_TIMEOUT →
  watched_since t0 seat s (tick_in a w).
Proof.
  intros Hrun Hact (<- & t & Hsc & Hsame & Ht0) Htime.
  pose proof (tick_run a w seat Hrun Hact) as Htick. unfold watched in Htick.
  rewrite Hsc, Hsame in Htick. unfold turn_decision, sat_sub in Htick.
  rewrite Ht0, (proj2 (N.leb_gt _ _)) in Htick by done.
  destruct (match ts_last_reminder_at t with Some _ => _ | None => _ end);
    injection Htick as Hs Hsc'; split; try done; eexists; (split; [exact Hsc'|]); by split.
Qed.

Lemma tick_ends_watch t0 seat s a w :
  hs_status (snapshot s) = HRunning → hs_acting_seat_id (snapshot s) = Some seat →
  watched_since t0 seat s a → DEFAULT_STEP_TIMEOUT ≤ instant_now w - t0 →
  st (tick_in a w) = fst (apply_action (auto_fold room_id s seat) s).
Proof.
  intros Hrun Hact (<- & t & Hsc & Hsame & Ht0) Htime.
  pose proof (tick_run a w seat Hrun Hact) as Htick. unfold watched in Htick.
  rewrite Hsc, Hsame in Htick. unfold turn_decision, sat_sub in Htick.
  rewrite Ht0, (proj2 (N.leb_le _ _)) in Htick by done. by injection Htick.
Qed.

(** The automatic fold is always accepted. *)
Lemma auto_fold_accepted seat s :
  engine_inv s → hs_acting_seat_id (snapshot s) = Some seat →
  ∃ s' street, apply_action (auto_fold room_id s seat) s = (s', Ok (Accepted street)) ∧
    seat ∈ h_folded_seats (hand s') ∧
    hs_next_action_seq (snapshot s') = sat_add u32_max (hs_next_action_seq (snapshot s)) 1.
Proof.
  intros Hinv Hact. pose proof (pot_sum _ (inv_pot _ Hinv)) as Hc.
  pose proof (apply_action_accepts (auto_fold room_id s seat) s _ _ Hc (conj eq_refl Hact)
    (move_fold s (auto_fold room_id s seat) eq_refl)) as Happ.
  destruct (advance_turn _ _) as [s' street] eqn:Hadv. exists s', street. split; [exact Happ|].
  destruct (advance_turn_effect _ _ _ _ Hadv) as (_ & _ & _ & Hf & _ & _ & _ & _ & Hseq & _).
  rewrite Hf, Hseq. cbn. split; [set_solver|done].
Qed.

(** C29. A seat that does not move is folded by the first tick of the scheduler that
    comes at least 360 seconds after the first tick of its turn, and by no tick
    before: until then the hand stays as it is, reminders and queries of the chain
    included, however the ticks are spaced and whatever the node answers. *)
Theorem idle_turn_is_folded_on_time seat a w0 ws wn
    (Hok : room_ok room_id a)
    (Hact : hs_acting_seat_id (snapshot (st a)) = Some seat)
    (Hnew : watching seat a = false)
    (Hearly : Forall (λ w, instant_now w - instant_now w0 < DEFAULT_STEP_TIMEOUT) ws)
    (Hlate : DEFAULT_STEP_TIMEOUT ≤ instant_now wn - instant_now w0) :
  let waiting := foldl tick_in (tick_in a w0) ws in
  st waiting = st a ∧
  st (tick_in waiting wn) = fst (apply_action (auto_fold room_id (st a) seat) (st a)) ∧
  seat ∈ h_folded_seats (hand (st (tick_in waiting wn))) ∧
  hs_next_action_seq (snapshot (st (tick_in waiting wn)))
  = sat_add u32_max (hs_next_action_seq (snapshot (st a))) 1.
Proof.
  assert (hs_status (snapshot (st a)) = HRunning) as Hrun.
  { apply (turn_running _ (inv_turn _ (ok_engine _ _ Hok))). by rewrite Hact. }
  assert (watched_since (instant_now w0) seat (st a) (foldl tick_in (tick_in a w0) ws)) as Hw.
  { pose proof (tick_starts_watch seat a w0 Hrun Hact Hnew) as Hs0. revert Hs0.
    generalize (tick_in a w0). induction Hearly as [|w ws Hw _ IH]; intros b Hb; [exact Hb|].
    cbn. apply IH. by apply tick_keeps_watch. }
  cbv zeta. split; [by destruct Hw|].
  rewrite (tick_ends_watch _ _ _ _ _ Hrun Hact Hw Hlate). split; [done|].
  destruct (auto_fold_accepted seat (st a) (ok_engine _ _ Hok) Hact) as (s' & street & -> & H1 & H2).
  done.
Qed.

(** ** The start of a hand *)

(** A hand at showdown is not protected while it waits for its settlement: a
    single ready message deals the next hand over it. The pot of the old hand is
    gone from the table, which holds the blinds of the new one, and the settlement
    of the old hand, when it is completed, finds nothing to close. *)
Theorem ready_deals_over_an_unsettled_hand seat a w1 hand_id w2 shuffle
    (Hok : room_ok room_id a)
    (Hst : hs_status (snapshot (st a)) = HShowdown)
    (Hseat : seat ∈ rs_seated (ac_room a))
    (Hready : (2 ≤ length (eligible_ready
                  (set_ready ({[seat]} ∪ rs_ready (ac_room a)) (ac_room a))))%nat)
    (Hid : fresh_uuid (ac_world a) = (w1, hand_id))
    (Hshuffle : draw_shuffle w1 = (w2, shuffle))
    (Hdeck : deal_refusal (st a) (shuffle ordered_deck) = None)
    (Hnew : hand_id ≠ hs_hand_id (snapshot (st a))) :
  let dealt := on (Ready seat) a in
  hs_status (snapshot (st dealt)) = HRunning ∧
  hs_hand_id (snapshot (st dealt)) = hand_id ∧
  hs_pot_total (snapshot (st dealt)) = DEFAULT_SMALL_BLIND + DEFAULT_BIG_BLIND ∧
  p_main_pot (pot (st dealt)) = DEFAULT_SMALL_BLIND + DEFAULT_BIG_BLIND ∧
  on (CompleteSettlement (hs_hand_id (snapshot (st a)))) dealt = dealt.
Proof.
  assert (hs_acting_seat_id (snapshot (st a)) = None) as Hact.
  { pose proof (turn_running _ (inv_turn _ (ok_engine _ _ Hok))) as Hr. rewrite Hst in Hr.
    destruct (hs_acting_seat_id (snapshot (st a))) as [x|]; [|done].
    discriminate (proj2 Hr (mk_is_Some _ x eq_refl)). }
  pose proof (ready_run seat a) as Hrun.
  assert (may_deal seat (ac_room a) = true) as Hmay.
  { unfold may_deal. rewrite !bool_decide_true by done. cbn [andb]. by apply Nat.leb_le. }
  rewrite Hmay, Hid, Hshuffle in Hrun. unfold deal_new_hand_internal in Hrun.
  pose proof (deal_cases hand_id (shuffle ordered_deck) (st a)) as Hc. rewrite Hdeck in Hc.
  destruct Hc as (d & sb & bb & first & _ & _ & _ & _ & _ & _ & _ & _ & Hc).
  rewrite Hc in Hrun. destruct Hrun as (a' & Hrun & Hs & _).
  intros dealt. assert (dealt = a') as -> by (unfold dealt, receive; cbn [handle]; by rewrite Hrun).
  rewrite Hs. do 4 (split; [done|]).
  unfold receive. cbn [handle]. unfold handle_complete_settlement, room. mrun. rewrite Hs.
  cbn [snapshot hs_hand_id]. rewrite (proj2 (N.eqb_neq _ _)); [done|].
  cbn. congruence.
Qed.
End Turns.

(** ** Instances *)

#[local] Existing Instances demo_cards demo_clock demo_instant demo_ids demo_shuffler
  demo_secrets demo_no_crypto demo_uuid_text demo_codec demo_offline.

Lemma timer_folds_its_own_turn_witness :
  let elapsed := receive 7 8 RoomActorConfig_default (TurnTimeoutElapsed 1) demo_room in
  hs_acting_seat_id (snapshot (rs_state (ac_room demo_room))) = Some 0 ∧
  rs_state (ac_room elapsed)
  = fst (apply_action (auto_fold 7 (rs_state (ac_room demo_room)) 0) (rs_state (ac_room demo_room))).
Proof.
  assert (hs_acting_seat_id (snapshot (rs_state (ac_room demo_room))) = Some 0) as Hact
    by (vm_compute; reflexivity).
  split; [exact Hact|].
  pose proof (timer_folds_its_own_turn 7 8 RoomActorConfig_default (mkDemoWorld 1000 100)
    demo_room demo_room demo_room_reached (rtc_refl _ _) ltac:(vm_compute; reflexivity)) as Hfold.
  cbv zeta in Hfold. rewrite decide_True, Hact in Hfold by reflexivity.
  exact (proj2 Hfold).
Defined.

Lemma demo_run_ok cmds a : room_ok 7 a → room_ok 7 (demo_run cmds a).
Proof.
  revert a. induction cmds as [|cmd cmds IH]; intros a Ha; [done|]. apply IH.
  exact (proj2 (evolves_handle 7 8 RoomActorConfig_default cmd a Ha)).
Qed.

Lemma demo_room_ok : room_ok 7 demo_room.
Proof. exact (demo_run_ok demo_seating _ (room_ok_spawn 7 _)). Qed.

Lemma demo_showdown_ok : room_ok 7 demo_showdown.
Proof. exact (demo_run_ok demo_check_down _ demo_room_ok). Qed.

Definition demo_at (seconds : N) : DemoWorld := mkDemoWorld (seconds * 1000) 500.

Lemma idle_turn_is_folded_on_time_witness :
  let tick := tick_in 7 8 RoomActorConfig_default in
  let waiting := foldl tick (tick demo_room (demo_at 100)) [demo_at 130; demo_at 459] in
  0 ∈ h_folded_seats (hand (rs_state (ac_room (tick waiting (demo_at 460))))).
Proof.
  refine (proj1 (proj2 (proj2 (idle_turn_is_folded_on_time 7 8 RoomActorConfig_default 0 demo_room
    (demo_at 100) [demo_at 130; demo_at 459] (demo_at 460) _ _ _ _ _)))).
  - exact demo_room_ok.
  - vm_compute. reflexivity.
  - vm_compute. reflexivity.
  - repeat constructor.
  - vm_compute. discriminate.
Defined.

Lemma ready_deals_over_an_unsettled_hand_witness :
  let dealt := receive 7 8 RoomActorConfig_default (Ready 1) demo_showdown in
  hs_pot_total (snapshot (rs_state (ac_room demo_showdown))) = 400000000000000 ∧
  hs_pot_total (snapshot (rs_state (ac_room dealt))) = 300000000000000 ∧
  receive 7 8 RoomActorConfig_default
    (CompleteSettlement (hs_hand_id (snapshot (rs_state (ac_room demo_showdown))))) dealt = dealt.
Proof.
  split; [vm_compute; reflexivity|].
  pose (next := fresh_uuid (ac_world demo_showdown)).
  pose proof (ready_deals_over_an_unsettled_hand 7 8 RoomActorConfig_default 1 demo_showdown
    next.1 next.2 next.1 id) as Hready. cbv zeta in Hready.
  destruct Hready as (_ & _ & Hpot & _ & Hclose).
  - exact demo_showdown_ok.
  - vm_compute. reflexivity.
  - apply (bool_decide_eq_true_1 (1 ∈ rs_seated (ac_room demo_showdown))). vm_compute. reflexivity.
  - vm_compute. lia.
  - apply surjective_pairing.
  - reflexivity.
  - vm_compute. reflexivity.
  - vm_compute. discriminate.
  - split; [exact Hpot|exact Hclose].
Defined.
