(* ===== verification/GatewayTypes.v ===== *)
(** The vocabulary of the gateway (crate [rpc-gateway]): requests, replies, errors,
    the traits it calls and is called through, the policy of methods, and the checks
    of a request's fields. Replies are the envelopes of [platform-core]. *)

From stdpp Require Import base tactics option list gmap strings pretty.
From Stdlib Require Import NArith ZArith Lia Ascii.
From S2P Require Import Prelude.
From S2P Require Import Text.
From S2P Require Import Domain.
From S2P Require Import Ambient.
From S2P Require Import JsonRpc.
From S2P Require Import AgentAuth.

Local Open Scope N_scope.

(** ** Envelopes ([platform-core/src/lib.rs]) *)

Inductive ErrorCode :=
| CodeRequestInvalid | CodeForbidden | CodeRoomListFailed | CodeRoomCreateFailed
| CodeRoomReadyFailed | CodeRoomBindAddressFailed | CodeRoomBindKeysFailed
| CodeGameGetStateFailed | CodeGameActFailed | CodeKeyBindingProofInvalid
| CodeSubscribeFailed | CodeUnsubscribeFailed | CodeInternalError.

Record ErrorBody := mkErrorBody { err_code : ErrorCode; err_message : string }.

Record ResponseEnvelope (T : Type) := mkEnvelope {
  env_ok : bool;
  env_data : option T;
  env_error : option ErrorBody;
}.
Arguments mkEnvelope {_} _ _ _.
Arguments env_ok {_} _.
Arguments env_data {_} _.
Arguments env_error {_} _.

Definition envelope_ok {T} (data : T) : ResponseEnvelope T := mkEnvelope true (Some data) None.
Definition envelope_err {T} (code : ErrorCode) (message : string) : ResponseEnvelope T :=
  mkEnvelope false None (Some (mkErrorBody code message)).

(** ** Errors and requests *)

Inductive RpcGatewayError :=
| GNotImplemented | RoomNotFound | InvalidActionType | InvalidAmount | Upstream (message : string)
| Forbidden | InvalidKeyBindingProof | JsonRpcRegistration (message : string)
| TooManyConcurrentRequests | TooManyRequests.

Definition gateway_error_text (e : RpcGatewayError) : string :=
  match e with
  | GNotImplemented => "method not implemented"
  | RoomNotFound => "room not found"
  | InvalidActionType => "invalid action type"
  | InvalidAmount => "invalid amount"
  | Upstream m => "upstream error: " +:+ m
  | Forbidden => "forbidden"
  | InvalidKeyBindingProof => "invalid key binding proof"
  | JsonRpcRegistration m => "jsonrpc registration failed: " +:+ m
  | TooManyConcurrentRequests => "too many concurrent requests"
  | TooManyRequests => "too many requests"
  end.

Record GameActRequest := mkGameAct {
  ga_room_id : RoomId;
  ga_hand_id : HandId;
  ga_action_seq : ActionSeq;
  ga_seat_id : SeatId;
  ga_action_type : string;
  ga_amount : option string;
  ga_tx_hash : option string;
  ga_request_meta : SignedRequestMeta;
}.
Record GameGetStateRequest := mkGetState {
  gs_room_id : RoomId; gs_hand_id : option HandId; gs_seat_id : option SeatId;
}.
Record GameGetLegalActionsRequest := mkGetLegal { gl_room_id : RoomId; gl_seat_id : SeatId }.
Record GameGetPrivatePayloadsRequest := mkGetPrivate {
  gp_room_id : RoomId; gp_seat_id : SeatId; gp_hand_id : option HandId;
}.
Record PrivatePayloadEvent := mkPrivatePayload {
  pp_room_id : RoomId;
  pp_hand_id : HandId;
  pp_seat_id : SeatId;
  pp_event_name : string;
  pp_payload : Json;
}.
Record RoomBindAddressRequest := mkBindAddress {
  ba_room_id : RoomId;
  ba_seat_id : SeatId;
  ba_seat_address : string;
  ba_request_meta : SignedRequestMeta;
}.
Record RoomReadyRequest := mkRoomReady {
  rr_room_id : RoomId; rr_seat_id : SeatId; rr_request_meta : SignedRequestMeta;
}.
Record RoomListRequest := mkRoomList { rl_include_inactive : option bool }.
Record RoomCreateRequest := mkRoomCreate { rc_room_id : option RoomId }.
Record RoomSummary := mkRoomSummary {
  sum_room_id : RoomId; sum_status : string; sum_chain_address : option string;
}.
Record RoomBindSessionKeysRequest := mkBindKeys {
  bk_room_id : RoomId;
  bk_seat_id : SeatId;
  bk_seat_address : string;
  bk_card_encrypt_pubkey : string;
  bk_request_verify_pubkey : string;
  bk_key_algo : string;
  bk_proof_signature : string;
  bk_request_meta : SignedRequestMeta;
}.

Inductive EventTopic := PublicRoomEvents | SeatEvents | HandEvents.
#[export] Instance EventTopic_eq_dec : EqDecision EventTopic.
Proof. solve_decision. Defined.

Record SubscribeRequest := mkSubscribe {
  sub_topic : EventTopic;
  sub_room_id : RoomId;
  sub_hand_id : option HandId;
  sub_seat_id : option SeatId;
}.
Record UnsubscribeRequest := mkUnsubscribe { un_subscription_id : string }.
Record EventEnvelope := mkEvent {
  ev_topic : EventTopic;
  ev_room_id : RoomId;
  ev_hand_id : option HandId;
  ev_seat_id : option SeatId;
  ev_event_name : string;
  ev_payload : Json;
}.

Inductive RequestRejectReason :=
| RequestExpiredOrInvalidWindow | MissingOrInvalidSignature | RejectedKeyBindingProof | ReplayRejected.

Record RequestRejectAuditEvent := mkReject {
  rj_method : string;
  rj_reason : RequestRejectReason;
  rj_trace_id : TraceId;
  rj_request_id : option RequestId;
  rj_request_nonce : option string;
  rj_room_id : option RoomId;
  rj_hand_id : option HandId;
  rj_seat_id : option SeatId;
  rj_action_seq : option ActionSeq;
  rj_detail : option string;
}.

Record RequestContext := mkRequestContext {
  cx_trace_id : TraceId;
  cx_request_id : option RequestId;
  cx_session_id : option SessionId;
  cx_agent_id : option AgentId;
}.

(** ** Traits *)

Abbreviation RequestRejectAuditSink W := (RequestRejectAuditEvent → M W string unit) (only parsing).

Record RequestSignatureVerifier (W : Type) := mkVerifier {
  verify_bind_address : RoomBindAddressRequest → M W string unit;
  verify_bind_session_keys : RoomBindSessionKeysRequest → M W string unit;
  verify_room_ready : RoomReadyRequest → M W string unit;
  verify_game_act : GameActRequest → M W string unit;
}.
Arguments mkVerifier {_} _ _ _ _.
Arguments verify_bind_address {_} _ _.
Arguments verify_bind_session_keys {_} _ _.
Arguments verify_room_ready {_} _ _.
Arguments verify_game_act {_} _ _.

(** The trait's default methods. *)
Definition default_verifier {W} : RequestSignatureVerifier W :=
  mkVerifier (λ _, mret tt) (λ _, mret tt) (λ _, mret tt) (λ _, mret tt).

Class RoomServicePort (W : Type) := {
  svc_create_room : RoomCreateRequest → M W RpcGatewayError RoomSummary;
  svc_list_rooms : RoomListRequest → M W RpcGatewayError (list RoomSummary);
  svc_join : RoomReadyRequest → M W RpcGatewayError unit;
  svc_ready : RoomReadyRequest → M W RpcGatewayError unit;
  svc_bind_address : RoomBindAddressRequest → M W RpcGatewayError unit;
  svc_bind_session_keys : RoomBindSessionKeysRequest → M W RpcGatewayError unit;
  svc_get_state : GameGetStateRequest → M W RpcGatewayError (option HandSnapshot);
  svc_get_legal_actions : RoomId → SeatId → M W RpcGatewayError (list LegalAction);
  svc_get_private_payloads :
    GameGetPrivatePayloadsRequest → M W RpcGatewayError (list PrivatePayloadEvent);
  svc_act : GameActRequest → M W RpcGatewayError unit;
}.

Class EventSubscriptionPort (W : Type) := {
  bus_subscribe : SubscribeRequest → M W RpcGatewayError string;
  bus_unsubscribe : string → M W RpcGatewayError unit;
  bus_publish : EventEnvelope → M W RpcGatewayError N;
}.

(** ** The policy of methods *)

Inductive Role := Agent | Admin.
Inductive MethodScope := ScopePublic | ScopeAgent | ScopeAdmin.
Record MethodPolicy := mkPolicy { po_scope : MethodScope; po_requires_signature : bool }.
Record RequestAuthContext := mkAuthContext { ac_role : Role; ac_has_valid_signature : bool }.

Definition describe_methods : list string :=
  ["auth.register_agent"; "auth.get_challenge"; "room.create"; "room.list"; "room.join";
   "room.ready"; "room.bind_address"; "room.bind_session_keys"; "game.get_state";
   "game.get_legal_actions"; "game.get_private_payloads"; "game.act"; "game.get_hand_history";
   "game.get_ledger"; "subscribe.events"; "unsubscribe.events"]%string.

Definition is_one_of (methods : list string) (method : string) : bool :=
  existsb (String.eqb method) methods.

Definition method_policy (method : string) : MethodPolicy :=
  if is_one_of ["room.create"; "room.list"; "game.get_state"; "game.get_legal_actions";
                "game.get_private_payloads"] method
  then mkPolicy ScopeAgent false
  else if is_one_of ["room.bind_address"; "room.bind_session_keys"; "room.ready"; "game.act"] method
  then mkPolicy ScopeAgent true
  else if String.eqb method "room.join" then mkPolicy ScopeAgent false
  else if String.eqb method "admin.dump_state" then mkPolicy ScopeAdmin true
  else mkPolicy ScopePublic false.

Definition role_allowed (scope : MethodScope) (role : Role) : bool :=
  match scope, role with
  | ScopePublic, _ => true
  | ScopeAgent, (Agent | Admin) => true
  | ScopeAdmin, Admin => true
  | ScopeAdmin, Agent => false
  end.

Definition authorize_method (method : string) (ctx : RequestAuthContext)
    : result RpcGatewayError unit :=
  let policy := method_policy method in
  if negb (role_allowed (po_scope policy) (ac_role ctx)) then Err Forbidden
  else if po_requires_signature policy && negb (ac_has_valid_signature ctx) then Err Forbidden
  else Ok tt.

(** ** The fields of an action *)

Definition parse_action_type (action_type : string) : result RpcGatewayError ActionType :=
  if String.eqb action_type "fold" then Ok Fold
  else if String.eqb action_type "check" then Ok Check
  else if String.eqb action_type "call" then Ok Call
  else if String.eqb action_type "raise_to" then Ok RaiseTo
  else if String.eqb action_type "all_in" then Ok AllIn
  else Err InvalidActionType.

Definition parse_amount_u128 (amount : option string) : result RpcGatewayError (option Chips) :=
  transpose (λ raw, result_map_err (λ _, InvalidAmount) (parse_u128_dec raw)) amount.

Definition to_player_action (request : GameActRequest) : result RpcGatewayError PlayerAction :=
  action_type ← parse_action_type (ga_action_type request);
  amount ← parse_amount_u128 (ga_amount request);
  Ok (mkPlayerAction (ga_room_id request) (ga_hand_id request) (ga_action_seq request)
        (ga_seat_id request) action_type amount).

Definition is_monetary (action_type : ActionType) : bool :=
  match action_type with Call | RaiseTo | AllIn => true | Fold | Check => false end.

Definition tx_hash_present (request : GameActRequest) : bool :=
  match ga_tx_hash request with
  | Some v => negb (String.eqb (trim v) "")
  | None => false
  end.

Definition validate_game_act_funding_fields (request : GameActRequest)
    : result RpcGatewayError unit :=
  action_type ← parse_action_type (ga_action_type request);
  amount ← parse_amount_u128 (ga_amount request);
  let amount_present := match amount with Some _ => true | None => false end in
  if is_monetary action_type then
    if negb amount_present then Err (Upstream "amount is required for monetary action")
    else if negb (tx_hash_present request)
    then Err (Upstream "tx_hash is required for monetary action")
    else Ok tt
  else if amount_present || tx_hash_present request
  then Err (Upstream "amount/tx_hash must be absent for non-monetary action")
  else Ok tt.

(** [validate_request_meta], at the time [now]: five seconds of skew. *)
Definition validate_request_meta (now : DateTime) (meta : SignedRequestMeta)
    : result RpcGatewayError unit :=
  result_map_err (λ e, Upstream (auth_error_text e))
    (validate_request_window now (rm_request_ts meta) (rm_request_expiry_ms meta) 5000).

Definition build_request_context {W E} `{FreshIds W} (session_id : option SessionId)
    (agent_id : option AgentId) (request_meta : option SignedRequestMeta)
    : M W E RequestContext :=
  trace_id ← new_uuid;
  mret (mkRequestContext trace_id (rm_request_id <$> request_meta) session_id agent_id).

Section Proofs.
Context {SK : Secp256k1} {HD : HexDecode} {UT : UuidText} {DT : DateTimeText}.

Definition validate_bind_session_keys_proof (request : RoomBindSessionKeysRequest)
    : result RpcGatewayError unit :=
  let claim := mkBindingClaim None None (bk_room_id request) (bk_seat_id request)
    (bk_seat_address request) (bk_card_encrypt_pubkey request) (bk_request_verify_pubkey request)
    (bk_key_algo request) (rm_request_ts (bk_request_meta request)) None in
  result_map_err (λ _, InvalidKeyBindingProof)
    (verify_seat_key_binding_proof_evm claim (bk_proof_signature request)).
End Proofs.
