(* ===== verification/GatewayLimits.v ===== *)
(** The shared state of the gateway: the two limiters of a connection and the
    in-memory event bus of [rpc-gateway].

    Each keeps its maps behind a mutex. A subscriber's stream is a bounded channel
    whose two ends share a queue: [bus_channels] holds the queues of the streams that
    still have a receiver, so that a subscriber that was dropped from the bus can
    still read what it was sent. *)

From stdpp Require Import base tactics option list gmap strings.
From Stdlib Require Import NArith Lia.
From S2P Require Import Prelude.
From S2P Require Import Text.
From S2P Require Import Domain.
From S2P Require Import Ambient.
From S2P Require Import LedgerStore.
From S2P Require Import GatewayTypes.

Local Open Scope N_scope.

(** [lock().map_err(|_| RpcGatewayError::Upstream(..))] *)
Definition lock_gateway {A} (message : string) (m : Mutex A) : result RpcGatewayError A :=
  result_map_err (λ _, Upstream message) (lock m).

Record RpcGatewayLimits := mkLimits {
  max_concurrent_per_connection : N;
  max_requests_per_second_per_connection : N;
}.
Definition RpcGatewayLimits_default : RpcGatewayLimits := mkLimits 64 256.

(** ** Requests per window *)

Record ConnectionRateLimiter := mkRateLimiter {
  max_requests_per_window : N;
  window_ms : N;
  rate_state : Mutex (gmap string (N * N));
}.

Definition ConnectionRateLimiter_new (max_requests_per_window window : N) : ConnectionRateLimiter :=
  mkRateLimiter (N.max max_requests_per_window 1) (if window =? 0 then 1000 else window)
    (mkMutex false ∅).

Definition set_rate_state (v : gmap string (N * N)) (l : ConnectionRateLimiter)
    : ConnectionRateLimiter :=
  mkRateLimiter (max_requests_per_window l) (window_ms l) (store (rate_state l) v).

(** The entry of a connection at the time [now]: a new one, the one of the window
    that is open, or a fresh one when the window is over. *)
Definition current_window (window now : N) (entry : option (N * N)) : N * N :=
  let entry := default (now, 0) entry in
  if window <=? sat_sub now (fst entry) then (now, 0) else entry.

Definition check_and_record (connection_id : string) (now : N)
    : M ConnectionRateLimiter RpcGatewayError unit :=
  l ← get;
  guard ← lift_result (lock_gateway "rate limiter lock poisoned" (rate_state l));
  let entry := current_window (window_ms l) now (guard !! connection_id) in
  modify (set_rate_state (<[connection_id := entry]> guard));;
  if max_requests_per_window l <=? snd entry then throw TooManyRequests
  else modify (set_rate_state (<[connection_id := (fst entry, snd entry + 1)]> guard)).

Definition count_for (l : ConnectionRateLimiter) (connection_id : string) : N :=
  lock_or (rate_state l) 0 (λ m, from_option snd 0 (m !! connection_id)).

(** ** Concurrent requests *)

Record ConnectionConcurrencyLimiter := mkConcurrencyLimiter {
  per_connection_limit : N;
  permit_counts : Mutex (gmap string N);
}.

Definition ConnectionConcurrencyLimiter_new (per_connection_limit : N)
    : ConnectionConcurrencyLimiter :=
  mkConcurrencyLimiter (N.max per_connection_limit 1) (mkMutex false ∅).

Definition set_permit_counts (v : gmap string N) (l : ConnectionConcurrencyLimiter)
    : ConnectionConcurrencyLimiter :=
  mkConcurrencyLimiter (per_connection_limit l) (store (permit_counts l) v).

(** A permit is the connection it is for. *)
Record ConnectionConcurrencyPermit := mkPermit { permit_connection_id : string }.

Definition try_acquire (connection_id : string)
    : M ConnectionConcurrencyLimiter RpcGatewayError ConnectionConcurrencyPermit :=
  l ← get;
  guard ← lift_result (lock_gateway "connection limiter lock poisoned" (permit_counts l));
  let count := default 0 (guard !! connection_id) in
  modify (set_permit_counts (<[connection_id := count]> guard));;
  if per_connection_limit l <=? count then throw TooManyConcurrentRequests
  else
    modify (set_permit_counts (<[connection_id := count + 1]> guard));;
    mret (mkPermit connection_id).

Definition active_for (l : ConnectionConcurrencyLimiter) (connection_id : string) : N :=
  lock_or (permit_counts l) 0 (λ m, default 0 (m !! connection_id)).

(** [release], run when the permit is dropped; a poisoned lock is passed over. *)
Definition release_permit (permit : ConnectionConcurrencyPermit) (l : ConnectionConcurrencyLimiter)
    : ConnectionConcurrencyLimiter :=
  match lock_gateway "" (permit_counts l) with
  | Err _ => l
  | Ok guard =>
      match guard !! permit_connection_id permit with
      | None => l
      | Some count =>
          let count := sat_sub count 1 in
          if count =? 0 then set_permit_counts (delete (permit_connection_id permit) guard) l
          else set_permit_counts (<[permit_connection_id permit := count]> guard) l
      end
  end.

(** [run_with_connection_limit]: the permit is held while the request runs. *)
Definition run_with_connection_limit {W A} (connection_id : string) (fut : M W RpcGatewayError A)
    : M (ConnectionConcurrencyLimiter * W) RpcGatewayError A :=
  λ '(l, w),
    match try_acquire connection_id l with
    | (l, Err e) => ((l, w), Err e)
    | (l, Ok permit) => let '(w, r) := fut w in ((release_permit permit l, w), r)
    end.

(** ** The event bus *)

Record InMemoryEventBus := mkBus {
  subscriptions : Mutex (gmap string SubscribeRequest);
  live_subscribers : Mutex (gmap string SubscribeRequest);
  published_events : Mutex (list EventEnvelope);
  stream_buffer_capacity : N;
  slow_subscriber_disconnects : Mutex N;
  bus_channels : gmap string (list EventEnvelope);
}.

Definition InMemoryEventBus_new : InMemoryEventBus :=
  mkBus (mkMutex false ∅) (mkMutex false ∅) (mkMutex false []) 64 (mkMutex false 0) ∅.

Definition with_stream_buffer_capacity (capacity : N) (b : InMemoryEventBus) : InMemoryEventBus :=
  mkBus (subscriptions b) (live_subscribers b) (published_events b) (N.max capacity 1)
    (slow_subscriber_disconnects b) (bus_channels b).

Definition set_subscriptions v b := mkBus (store (subscriptions b) v) (live_subscribers b)
  (published_events b) (stream_buffer_capacity b) (slow_subscriber_disconnects b) (bus_channels b).
Definition set_live_subscribers v b := mkBus (subscriptions b) (store (live_subscribers b) v)
  (published_events b) (stream_buffer_capacity b) (slow_subscriber_disconnects b) (bus_channels b).
Definition set_published_events v b := mkBus (subscriptions b) (live_subscribers b)
  (store (published_events b) v) (stream_buffer_capacity b) (slow_subscriber_disconnects b)
  (bus_channels b).
Definition set_slow_disconnects v b := mkBus (subscriptions b) (live_subscribers b)
  (published_events b) (stream_buffer_capacity b) (store (slow_subscriber_disconnects b) v)
  (bus_channels b).
Definition set_bus_channels v b := mkBus (subscriptions b) (live_subscribers b)
  (published_events b) (stream_buffer_capacity b) (slow_subscriber_disconnects b) v.

Definition subscription_count (b : InMemoryEventBus) : nat := lock_or (subscriptions b) 0%nat size.
Definition published_count (b : InMemoryEventBus) : nat := lock_or (published_events b) 0%nat length.
Definition live_subscription_count (b : InMemoryEventBus) : nat :=
  lock_or (live_subscribers b) 0%nat size.
Definition slow_disconnect_count (b : InMemoryEventBus) : N :=
  lock_or (slow_subscriber_disconnects b) 0 id.

(** [if let Some(id) = sub.id && event.id != Some(id) { return false; }] *)
Definition admits (wanted got : option N) : bool :=
  match wanted with
  | Some id => bool_decide (got = Some id)
  | None => true
  end.

Definition event_matches (sub : SubscribeRequest) (event : EventEnvelope) : bool :=
  bool_decide (sub_topic sub = ev_topic event) && (sub_room_id sub =? ev_room_id event)
  && admits (sub_hand_id sub) (ev_hand_id event) && admits (sub_seat_id sub) (ev_seat_id event).

(** [tx.try_send(event)] on a channel with its queue: the queue if there was room. *)
Definition channel_try_send (capacity : N) (event : EventEnvelope) (queue : list EventEnvelope)
    : option (list EventEnvelope) :=
  if capacity <=? N.of_nat (length queue) then None else Some (queue ++ [event]).

(** One turn of the delivery loop: the channels, the number delivered, and the
    subscribers to remove. *)
Definition deliver_one (capacity : N) (event : EventEnvelope)
    (acc : gmap string (list EventEnvelope) * N * list string) (entry : string * SubscribeRequest)
    : gmap string (list EventEnvelope) * N * list string :=
  let '(channels, delivered, to_remove) := acc in
  let '(sub_id, sub) := entry in
  if negb (event_matches sub event) then acc
  else
    match channels !! sub_id ≫= channel_try_send capacity event with
    | Some queue => (<[sub_id := queue]> channels, delivered + 1, to_remove)
    | None => (channels, delivered, to_remove ++ [sub_id])
    end.

Definition matched_control (event : EventEnvelope) (subs : gmap string SubscribeRequest) : N :=
  N.of_nat (length (filter (λ sub, event_matches sub event = true) (map_to_list subs).*2)).

Section Bus.
Context {W : Type} `{FreshIds W} {UT : UuidText}.

(** The bus and the world around it. *)
Abbreviation B A := (M (InMemoryEventBus * W) RpcGatewayError A) (only parsing).

Definition the_bus : B InMemoryEventBus := λ s, (s, Ok (fst s)).
Definition update_bus (f : InMemoryEventBus → InMemoryEventBus) : B unit :=
  modify (λ '(b, w), (f b, w)).
Definition new_subscription_id : B string :=
  λ '(b, w), let '(w, u) := fresh_uuid w in ((b, w), Ok (uuid_text u)).

Definition subscribe (request : SubscribeRequest) : B string :=
  b ← the_bus;
  guard ← lift_result (lock_gateway "subscriptions lock poisoned" (subscriptions b));
  subscription_id ← new_subscription_id;
  update_bus (set_subscriptions (<[subscription_id := request]> guard));;
  mret subscription_id.

Definition unsubscribe (subscription_id : string) : B unit :=
  b ← the_bus;
  guard ← lift_result (lock_gateway "subscriptions lock poisoned" (subscriptions b));
  update_bus (set_subscriptions (delete subscription_id guard)).

(** The channel exists before the lock is taken; it goes when the insertion fails. *)
Definition subscribe_stream (request : SubscribeRequest) : B string :=
  subscription_id ← new_subscription_id;
  b ← the_bus;
  guard ← lift_result (lock_gateway "live_subscribers lock poisoned" (live_subscribers b));
  update_bus (set_live_subscribers (<[subscription_id := request]> guard));;
  update_bus (λ b, set_bus_channels (<[subscription_id := []]> (bus_channels b)) b);;
  mret subscription_id.

Definition unsubscribe_stream (subscription_id : string) : B unit :=
  b ← the_bus;
  guard ← lift_result (lock_gateway "live_subscribers lock poisoned" (live_subscribers b));
  update_bus (set_live_subscribers (delete subscription_id guard)).

(** The streams that did not take the event are disconnected and counted. *)
Definition disconnect_slow (to_remove : list string) : B unit :=
  b ← the_bus;
  guard ← lift_result (lock_gateway "live_subscribers lock poisoned" (live_subscribers b));
  update_bus (set_live_subscribers (foldr delete guard to_remove));;
  slow ← lift_result (lock_gateway "slow_subscriber_disconnects lock poisoned"
                        (slow_subscriber_disconnects b));
  update_bus (set_slow_disconnects (wrapping u64_max (slow + N.of_nat (length to_remove)))).

(** In the code the delivery and the removal of the slow subscribers are two sections of
    the lock of [live_subscribers]; here one step. *)
Definition publish (event : EventEnvelope) : B N :=
  b ← the_bus;
  controls ← lift_result (lock_gateway "subscriptions lock poisoned" (subscriptions b));
  live ← lift_result (lock_gateway "live_subscribers lock poisoned" (live_subscribers b));
  let '(channels, delivered, to_remove) :=
    foldl (deliver_one (stream_buffer_capacity b) event) (bus_channels b, 0, [])
      (map_to_list live) in
  update_bus (set_bus_channels channels);;
  M_when (negb (length to_remove =? 0)%nat) (disconnect_slow to_remove);;
  b ← the_bus;
  events ← lift_result (lock_gateway "published_events lock poisoned" (published_events b));
  update_bus (set_published_events (events ++ [event]));;
  mret (matched_control event controls + delivered).

#[export] Instance in_memory_event_bus : EventSubscriptionPort (InMemoryEventBus * W) := {
  bus_subscribe := subscribe;
  bus_unsubscribe := unsubscribe;
  bus_publish := publish;
}.

(** The subscriber's side of a stream ([subscribe.events.native]): it takes the
    oldest event of its channel, or goes away. *)
Definition channel_recv (sub_id : string) (b : InMemoryEventBus)
    : InMemoryEventBus * option EventEnvelope :=
  match bus_channels b !! sub_id with
  | Some (event :: queue) =>
      (set_bus_channels (<[sub_id := queue]> (bus_channels b)) b, Some event)
  | _ => (b, None)
  end.

Definition drop_receiver (sub_id : string) (b : InMemoryEventBus) : InMemoryEventBus :=
  set_bus_channels (delete sub_id (bus_channels b)) b.
End Bus.
