(* ===== verification/GatewayHandlers.v ===== *)
(** The handlers of the gateway and its method tables ([RpcGateway] of the crate
    [rpc-gateway]).

    A handler checks the time window of a request, its nonce, its signature and its
    fields, in the order of the code, and then calls the room service; every early
    return is an error of the handler's monad, whose error is the body of the reply
    ([respond] builds the envelope). The parsing of parameters belongs to jsonrpsee
    and serde ([ParamsParse]); the optional sink, store and verifier of the context
    are optional arguments. The envelope of a call that is refused for its permit has
    no data, so that it is the same text for every method: it is a [ReplyUnit]. *)

From stdpp Require Import base tactics option list gmap strings.
From Stdlib Require Import NArith ZArith Lia.
From S2P Require Import Prelude.
From S2P Require Import Text.
From S2P Require Import Domain.
From S2P Require Import Ambient.
From S2P Require Import LedgerStore.
From S2P Require Import AgentAuth.
From S2P Require Import GatewayTypes.
From S2P Require Import GatewayLimits.

Local Open Scope N_scope.

(** [Err(err) => return RpcResult::err(code, err.to_string())] *)
Definition or_reply {W A} (code : ErrorCode) (m : M W RpcGatewayError A) : M W ErrorBody A :=
  M_map_err (λ e, mkErrorBody code (gateway_error_text e)) m.

Definition to_envelope {A} (r : result ErrorBody A) : ResponseEnvelope A :=
  match r with
  | Ok data => envelope_ok data
  | Err e => envelope_err (err_code e) (err_message e)
  end.
Definition respond {W A} (m : M W ErrorBody A) : W → W * ResponseEnvelope A :=
  λ w, let '(w, r) := m w in (w, to_envelope r).

Section Checks.
Context {W : Type} {CK : Clock W} {FI : FreshIds W}.

Definition audit_request_rejection (audit_sink : option (RequestRejectAuditSink W))
    (event : RequestRejectAuditEvent) : M W RpcGatewayError unit :=
  match audit_sink with
  | Some sink => ignore_error (sink event)
  | None => mret tt
  end.

(** The rejection of a signed request; the trace is drawn first. *)
Definition reject (audit_sink : option (RequestRejectAuditSink W)) (method : string)
    (reason : RequestRejectReason) (meta : SignedRequestMeta) (room_id : option RoomId)
    (hand_id : option HandId) (seat_id : option SeatId) (action_seq : option ActionSeq)
    (detail : string) : M W RpcGatewayError unit :=
  trace_id ← new_uuid;
  audit_request_rejection audit_sink
    (mkReject method reason trace_id (Some (rm_request_id meta)) (Some (rm_request_nonce meta))
       room_id hand_id seat_id action_seq (Some detail)).

Definition nonce_key (meta : SignedRequestMeta) : ReplayNonceKey :=
  mkReplayNonceKey (rm_request_id meta) (rm_request_id meta) (rm_request_nonce meta).

(** Runs a check that gives its failure as a value. *)
Definition try_m {E E' A} (m : M W E A) : M W E' (result E A) :=
  λ w, let '(w, r) := m w in (w, Ok r).

Definition validate_request_meta_with_audit (method : string) (meta : SignedRequestMeta)
    (audit_sink : option (RequestRejectAuditSink W))
    (replay_nonce_store : option (ReplayNonceKey → M W AuthError unit))
    (room_id : option RoomId) (hand_id : option HandId) (seat_id : option SeatId)
    (action_seq : option ActionSeq) : M W RpcGatewayError unit :=
  t ← now;
  match validate_request_meta t meta with
  | Ok _ =>
      match replay_nonce_store with
      | None => mret tt
      | Some consume_once =>
          consumed ← try_m (consume_once (nonce_key meta));
          match consumed with
          | Ok _ => mret tt
          | Err err =>
              reject audit_sink method ReplayRejected meta room_id hand_id seat_id action_seq
                (auth_error_text err);;
              throw (Upstream (auth_error_text err))
          end
      end
  | Err err =>
      reject audit_sink method RequestExpiredOrInvalidWindow meta room_id hand_id seat_id
        action_seq (gateway_error_text err);;
      throw err
  end.

(** The four signature checks differ in what they verify and report. *)
Definition verify_signature_with_audit {Request} (method : string)
    (verify : option (Request → M W string unit)) (request : Request) (meta : SignedRequestMeta)
    (audit_sink : option (RequestRejectAuditSink W)) (room_id : option RoomId)
    (hand_id : option HandId) (seat_id : option SeatId) (action_seq : option ActionSeq)
    : M W RpcGatewayError unit :=
  match verify with
  | None => mret tt
  | Some verify =>
      verified ← try_m (verify request);
      match verified with
      | Ok _ => mret tt
      | Err err =>
          reject audit_sink method MissingOrInvalidSignature meta room_id hand_id seat_id
            action_seq err;;
          throw Forbidden
      end
  end.

Definition verify_game_act_signature_with_audit (request : GameActRequest)
    (verifier : option (RequestSignatureVerifier W))
    (audit_sink : option (RequestRejectAuditSink W)) : M W RpcGatewayError unit :=
  verify_signature_with_audit "game.act" (verify_game_act <$> verifier) request
    (ga_request_meta request) audit_sink (Some (ga_room_id request)) (Some (ga_hand_id request))
    (Some (ga_seat_id request)) (Some (ga_action_seq request)).
Definition verify_bind_address_signature_with_audit (request : RoomBindAddressRequest)
    (verifier : option (RequestSignatureVerifier W))
    (audit_sink : option (RequestRejectAuditSink W)) : M W RpcGatewayError unit :=
  verify_signature_with_audit "room.bind_address" (verify_bind_address <$> verifier) request
    (ba_request_meta request) audit_sink (Some (ba_room_id request)) None
    (Some (ba_seat_id request)) None.
Definition verify_room_ready_signature_with_audit (request : RoomReadyRequest)
    (verifier : option (RequestSignatureVerifier W))
    (audit_sink : option (RequestRejectAuditSink W)) : M W RpcGatewayError unit :=
  verify_signature_with_audit "room.ready" (verify_room_ready <$> verifier) request
    (rr_request_meta request) audit_sink (Some (rr_room_id request)) None
    (Some (rr_seat_id request)) None.
Definition verify_bind_session_keys_signature_with_audit (request : RoomBindSessionKeysRequest)
    (verifier : option (RequestSignatureVerifier W))
    (audit_sink : option (RequestRejectAuditSink W)) : M W RpcGatewayError unit :=
  verify_signature_with_audit "room.bind_session_keys" (verify_bind_session_keys <$> verifier)
    request (bk_request_meta request) audit_sink (Some (bk_room_id request)) None
    (Some (bk_seat_id request)) None.

Definition authorize_method_with_audit (method : string) (ctx : RequestAuthContext)
    (request_meta : option SignedRequestMeta) (audit_sink : option (RequestRejectAuditSink W))
    : M W RpcGatewayError unit :=
  match authorize_method method ctx with
  | Ok _ => mret tt
  | Err Forbidden =>
      trace_id ← new_uuid;
      audit_request_rejection audit_sink
        (mkReject method MissingOrInvalidSignature trace_id (rm_request_id <$> request_meta)
           (rm_request_nonce <$> request_meta) None None None None
           (Some "forbidden by method policy"%string));;
      throw Forbidden
  | Err err => throw err
  end.
End Checks.

(** ** The handlers *)

Section Handlers.
Context {W : Type} {CK : Clock W} {FI : FreshIds W} {RS : RoomServicePort W}.
Context {SK : Secp256k1} {HD : HexDecode} {UT : UuidText} {DT : DateTimeText}.

Definition handle_room_list (request : RoomListRequest) : W → W * ResponseEnvelope (list RoomSummary) :=
  respond (or_reply CodeRoomListFailed (svc_list_rooms request)).
Definition handle_room_create (request : RoomCreateRequest) : W → W * ResponseEnvelope RoomSummary :=
  respond (or_reply CodeInternalError (svc_create_room request)).
Definition handle_get_state (request : GameGetStateRequest)
    : W → W * ResponseEnvelope (option HandSnapshot) :=
  respond (or_reply CodeGameGetStateFailed (svc_get_state request)).
Definition handle_get_legal_actions (request : GameGetLegalActionsRequest)
    : W → W * ResponseEnvelope (list LegalAction) :=
  respond (or_reply CodeGameGetStateFailed
             (svc_get_legal_actions (gl_room_id request) (gl_seat_id request))).
Definition handle_get_private_payloads (request : GameGetPrivatePayloadsRequest)
    : W → W * ResponseEnvelope (list PrivatePayloadEvent) :=
  respond (or_reply CodeGameGetStateFailed (svc_get_private_payloads request)).

Section WithAudit.
Context (audit_sink : option (RequestRejectAuditSink W)).
Context (replay_nonce_store : option (ReplayNonceKey → M W AuthError unit)).
Context (signature_verifier : option (RequestSignatureVerifier W)).

Definition handle_bind_address_with_audit (request : RoomBindAddressRequest)
    : W → W * ResponseEnvelope unit :=
  respond (
    or_reply CodeRequestInvalid
      (validate_request_meta_with_audit "room.bind_address" (ba_request_meta request) audit_sink
         replay_nonce_store (Some (ba_room_id request)) None (Some (ba_seat_id request)) None);;
    or_reply CodeRequestInvalid
      (verify_bind_address_signature_with_audit request signature_verifier audit_sink);;
    or_reply CodeRoomBindAddressFailed (svc_bind_address request)).

(** The verifier is not asked about a join. *)
Definition handle_room_join_with_audit (request : RoomReadyRequest) : W → W * ResponseEnvelope unit :=
  respond (
    or_reply CodeRequestInvalid
      (validate_request_meta_with_audit "room.join" (rr_request_meta request) audit_sink
         replay_nonce_store (Some (rr_room_id request)) None (Some (rr_seat_id request)) None);;
    or_reply CodeRoomReadyFailed (svc_join request)).

Definition handle_room_ready_with_audit (request : RoomReadyRequest) : W → W * ResponseEnvelope unit :=
  respond (
    or_reply CodeRequestInvalid
      (validate_request_meta_with_audit "room.ready" (rr_request_meta request) audit_sink
         replay_nonce_store (Some (rr_room_id request)) None (Some (rr_seat_id request)) None);;
    or_reply CodeForbidden
      (verify_room_ready_signature_with_audit request signature_verifier audit_sink);;
    or_reply CodeRoomReadyFailed (svc_ready request)).

(** The proof of the keys, and the rejection of a bad one. *)
Definition check_binding_proof (request : RoomBindSessionKeysRequest) : M W RpcGatewayError unit :=
  match validate_bind_session_keys_proof request with
  | Ok _ => mret tt
  | Err err =>
      reject audit_sink "room.bind_session_keys" RejectedKeyBindingProof
        (bk_request_meta request) (Some (bk_room_id request)) None (Some (bk_seat_id request)) None
        (gateway_error_text err);;
      throw err
  end.

Definition handle_bind_session_keys_with_audit (request : RoomBindSessionKeysRequest)
    : W → W * ResponseEnvelope unit :=
  respond (
    or_reply CodeRequestInvalid
      (validate_request_meta_with_audit "room.bind_session_keys" (bk_request_meta request)
         audit_sink replay_nonce_store (Some (bk_room_id request)) None (Some (bk_seat_id request))
         None);;
    or_reply CodeKeyBindingProofInvalid (check_binding_proof request);;
    or_reply CodeForbidden
      (verify_bind_session_keys_signature_with_audit request signature_verifier audit_sink);;
    or_reply CodeRoomBindKeysFailed (svc_bind_session_keys request)).

Definition handle_game_act_with_audit (request : GameActRequest) : W → W * ResponseEnvelope unit :=
  respond (
    or_reply CodeRequestInvalid (lift_result (validate_game_act_funding_fields request));;
    or_reply CodeRequestInvalid
      (validate_request_meta_with_audit "game.act" (ga_request_meta request) audit_sink
         replay_nonce_store (Some (ga_room_id request)) (Some (ga_hand_id request))
         (Some (ga_seat_id request)) (Some (ga_action_seq request)));;
    or_reply CodeForbidden
      (verify_game_act_signature_with_audit request signature_verifier audit_sink);;
    or_reply CodeGameActFailed (svc_act request)).
End WithAudit.

(** The variants without sink, store and verifier. *)
Definition handle_bind_address (request : RoomBindAddressRequest) : W → W * ResponseEnvelope unit :=
  respond (
    or_reply CodeRequestInvalid
      (validate_request_meta_with_audit "room.bind_address" (ba_request_meta request) None None
         (Some (ba_room_id request)) None (Some (ba_seat_id request)) None);;
    or_reply CodeRoomBindAddressFailed (svc_bind_address request)).
Definition handle_room_ready (request : RoomReadyRequest) : W → W * ResponseEnvelope unit :=
  respond (
    or_reply CodeRequestInvalid
      (validate_request_meta_with_audit "room.ready" (rr_request_meta request) None None
         (Some (rr_room_id request)) None (Some (rr_seat_id request)) None);;
    or_reply CodeRoomReadyFailed (svc_ready request)).
Definition handle_room_join (request : RoomReadyRequest) : W → W * ResponseEnvelope unit :=
  respond (
    or_reply CodeRequestInvalid
      (validate_request_meta_with_audit "room.join" (rr_request_meta request) None None
         (Some (rr_room_id request)) None (Some (rr_seat_id request)) None);;
    or_reply CodeRoomReadyFailed (svc_join request)).
Definition handle_bind_session_keys (request : RoomBindSessionKeysRequest)
    : W → W * ResponseEnvelope unit :=
  respond (
    or_reply CodeRequestInvalid
      (validate_request_meta_with_audit "room.bind_session_keys" (bk_request_meta request) None
         None (Some (bk_room_id request)) None (Some (bk_seat_id request)) None);;
    or_reply CodeKeyBindingProofInvalid
      (lift_result (validate_bind_session_keys_proof request));;
    or_reply CodeRoomBindKeysFailed (svc_bind_session_keys request)).
Definition handle_game_act (request : GameActRequest) : W → W * ResponseEnvelope unit :=
  respond (
    or_reply CodeRequestInvalid (lift_result (validate_game_act_funding_fields request));;
    or_reply CodeRequestInvalid
      (validate_request_meta_with_audit "game.act" (ga_request_meta request) None None
         (Some (ga_room_id request)) (Some (ga_hand_id request)) (Some (ga_seat_id request))
         (Some (ga_action_seq request)));;
    or_reply CodeGameActFailed (svc_act request)).
End Handlers.

Section EventHandlers.
Context {W : Type} {EB : EventSubscriptionPort W}.

Definition handle_subscribe_events (request : SubscribeRequest) : W → W * ResponseEnvelope string :=
  respond (or_reply CodeSubscribeFailed (bus_subscribe request)).
Definition handle_unsubscribe_events (request : UnsubscribeRequest) : W → W * ResponseEnvelope unit :=
  respond (or_reply CodeUnsubscribeFailed (bus_unsubscribe (un_subscription_id request))).
End EventHandlers.

(** ** The method tables *)

(** [params.parse()] for each type of request. *)
Class ParamsParse := {
  parse_room_create : Json → result string RoomCreateRequest;
  parse_room_list : Json → result string RoomListRequest;
  parse_room_ready : Json → result string RoomReadyRequest;
  parse_bind_address : Json → result string RoomBindAddressRequest;
  parse_bind_session_keys : Json → result string RoomBindSessionKeysRequest;
  parse_get_state : Json → result string GameGetStateRequest;
  parse_get_legal_actions : Json → result string GameGetLegalActionsRequest;
  parse_get_private_payloads : Json → result string GameGetPrivatePayloadsRequest;
  parse_game_act : Json → result string GameActRequest;
  parse_subscribe : Json → result string SubscribeRequest;
  parse_unsubscribe : Json → result string UnsubscribeRequest;
}.

(** What a call answers: an envelope, or an error of the protocol. *)
Inductive RpcReply :=
| ReplyUnit (r : ResponseEnvelope unit)
| ReplyRoom (r : ResponseEnvelope RoomSummary)
| ReplyRooms (r : ResponseEnvelope (list RoomSummary))
| ReplySnapshot (r : ResponseEnvelope (option HandSnapshot))
| ReplyActions (r : ResponseEnvelope (list LegalAction))
| ReplyPayloads (r : ResponseEnvelope (list PrivatePayloadEvent))
| ReplySubscription (r : ResponseEnvelope string)
| InvalidParams (message : string)
| MethodNotFound.

Section Modules.
Context {W : Type} {CK : Clock W} {FI : FreshIds W} {RS : RoomServicePort W}.
Context {SK : Secp256k1} {HD : HexDecode} {UT : UuidText} {DT : DateTimeText} {PP : ParamsParse}.

(** [let req = params.parse()?; Ok(handler(req).await)] *)
Definition call {Request A} (parse : Json → result string Request)
    (handler : Request → W → W * ResponseEnvelope A) (wrap : ResponseEnvelope A → RpcReply)
    (params : Json) : W → W * RpcReply :=
  λ w, match parse params with
       | Ok req => let '(w, r) := handler req w in (w, wrap r)
       | Err e => (w, InvalidParams e)
       end.

(** [build_rpc_module]: nothing is audited, no nonce consumed and no request
    signature verified. *)
Definition rpc_module (method : string) (params : Json) : W → W * RpcReply :=
  if String.eqb method "room.create"
  then call (λ p, Ok (unwrap_or (mkRoomCreate None) (parse_room_create p))) handle_room_create
         ReplyRoom params
  else if String.eqb method "room.list"
  then call (λ p, Ok (unwrap_or (mkRoomList None) (parse_room_list p))) handle_room_list
         ReplyRooms params
  else if String.eqb method "room.join" then call parse_room_ready handle_room_join ReplyUnit params
  else if String.eqb method "room.ready" then call parse_room_ready handle_room_ready ReplyUnit params
  else if String.eqb method "room.bind_address"
  then call parse_bind_address handle_bind_address ReplyUnit params
  else if String.eqb method "room.bind_session_keys"
  then call parse_bind_session_keys handle_bind_session_keys ReplyUnit params
  else if String.eqb method "game.get_state"
  then call parse_get_state handle_get_state ReplySnapshot params
  else if String.eqb method "game.act" then call parse_game_act handle_game_act ReplyUnit params
  else if String.eqb method "game.get_private_payloads"
  then call parse_get_private_payloads handle_get_private_payloads ReplyPayloads params
  else λ w, (w, MethodNotFound).

Context {EB : EventSubscriptionPort W}.

(** [RpcContext]: the optional collaborators. *)
Record RpcContext := mkRpcContext {
  request_reject_audit_sink : option (RequestRejectAuditSink W);
  replay_nonce_store : option (ReplayNonceKey → M W AuthError unit);
  request_signature_verifier : option (RequestSignatureVerifier W);
}.
Context (ctx : RpcContext).

(** The handlers of [build_rpc_module_with_subscriptions_and_limits_and_audit],
    inside their permit: those about rooms, about hands and about events. *)
Definition room_methods (method : string) (params : Json) : option (W → W * RpcReply) :=
  let audit_sink := request_reject_audit_sink ctx in
  let store := replay_nonce_store ctx in
  let verifier := request_signature_verifier ctx in
  if String.eqb method "room.create"
  then Some (call (λ p, Ok (unwrap_or (mkRoomCreate None) (parse_room_create p)))
               handle_room_create ReplyRoom params)
  else if String.eqb method "room.list"
  then Some (call (λ p, Ok (unwrap_or (mkRoomList None) (parse_room_list p)))
               handle_room_list ReplyRooms params)
  else if String.eqb method "room.join"
  then Some (call parse_room_ready (handle_room_join_with_audit audit_sink store) ReplyUnit params)
  else if String.eqb method "room.ready"
  then Some (call parse_room_ready (handle_room_ready_with_audit audit_sink store verifier)
               ReplyUnit params)
  else if String.eqb method "room.bind_address"
  then Some (call parse_bind_address (handle_bind_address_with_audit audit_sink store verifier)
               ReplyUnit params)
  else if String.eqb method "room.bind_session_keys"
  then Some (call parse_bind_session_keys
               (handle_bind_session_keys_with_audit audit_sink store verifier) ReplyUnit params)
  else None.

Definition game_methods (method : string) (params : Json) : option (W → W * RpcReply) :=
  if String.eqb method "game.get_state"
  then Some (call parse_get_state handle_get_state ReplySnapshot params)
  else if String.eqb method "game.get_legal_actions"
  then Some (call parse_get_legal_actions handle_get_legal_actions ReplyActions params)
  else if String.eqb method "game.act"
  then Some (call parse_game_act
               (handle_game_act_with_audit (request_reject_audit_sink ctx)
                  (replay_nonce_store ctx) (request_signature_verifier ctx)) ReplyUnit params)
  else if String.eqb method "game.get_private_payloads"
  then Some (call parse_get_private_payloads handle_get_private_payloads ReplyPayloads params)
  else None.

Definition event_methods (method : string) (params : Json) : option (W → W * RpcReply) :=
  if String.eqb method "subscribe.events"
  then Some (call parse_subscribe handle_subscribe_events ReplySubscription params)
  else if String.eqb method "unsubscribe.events"
  then Some (call parse_unsubscribe handle_unsubscribe_events ReplyUnit params)
  else None.

Definition rpc_method (method : string) (params : Json) : option (W → W * RpcReply) :=
  match room_methods method params with
  | Some handler => Some handler
  | None =>
      match game_methods method params with
      | Some handler => Some handler
      | None => event_methods method params
      end
  end.

(** The limiters of the context and the world the handlers run in. *)
Record Gateway := mkGateway {
  gw_connection_limiter : option ConnectionConcurrencyLimiter;
  gw_connection_rate_limiter : option ConnectionRateLimiter;
  gw_world : W;
}.

Definition Gateway_new (limits : RpcGatewayLimits) (w : W) : Gateway :=
  mkGateway (Some (ConnectionConcurrencyLimiter_new (max_concurrent_per_connection limits)))
    (Some (ConnectionRateLimiter_new (max_requests_per_second_per_connection limits) 1000)) w.

Context {MC : MonotonicClock W}.

Definition check_rate (connection_id : string) : M Gateway RpcGatewayError unit :=
  λ g, match gw_connection_rate_limiter g with
       | None => (g, Ok tt)
       | Some l =>
           let '(l, r) := check_and_record connection_id (instant_now (gw_world g)) l in
           (mkGateway (gw_connection_limiter g) (Some l) (gw_world g), r)
       end.

Definition acquire_permit (connection_id : string)
    : M Gateway RpcGatewayError (option ConnectionConcurrencyPermit) :=
  λ g, match gw_connection_limiter g with
       | None => (g, Ok None)
       | Some l =>
           let '(l, r) := try_acquire connection_id l in
           (mkGateway (Some l) (gw_connection_rate_limiter g) (gw_world g),
            result_bind r (λ p, Ok (Some p)))
       end.

Definition try_acquire_ctx_connection_permit (connection_id : string)
    : M Gateway RpcGatewayError (option ConnectionConcurrencyPermit) :=
  check_rate connection_id;;
  acquire_permit connection_id.

Definition drop_permit (permit : option ConnectionConcurrencyPermit) (g : Gateway) : Gateway :=
  match permit with
  | None => g
  | Some p =>
      mkGateway (release_permit p <$> gw_connection_limiter g) (gw_connection_rate_limiter g)
        (gw_world g)
  end.

(** One call from its first check to its reply. *)
Definition gateway_call (connection_id method : string) (params : Json) (g : Gateway)
    : Gateway * RpcReply :=
  match rpc_method method params with
  | None => (g, MethodNotFound)
  | Some handler =>
      match try_acquire_ctx_connection_permit connection_id g with
      | (g, Err err) => (g, ReplyUnit (envelope_err CodeForbidden (gateway_error_text err)))
      | (g, Ok permit) =>
          let '(w, r) := handler (gw_world g) in
          (drop_permit permit
             (mkGateway (gw_connection_limiter g) (gw_connection_rate_limiter g) w), r)
      end
  end.
End Modules.
Arguments RpcContext : clear implicits.
Arguments Gateway : clear implicits.

(** ** Native subscriptions *)

Section NativeStreams.
Context {W : Type} {FI : FreshIds W} {UT : UuidText} {PP : ParamsParse}.

Inductive NativeReply :=
| StreamOpened (subscription_id : string)
| StreamInvalidParams (message : string)
| StreamRefused (code : Z) (message : string)
| StreamNotAccepted.

(** ["subscribe.events.native"] up to its loop; [accepted] is the outcome of
    [pending.accept()], whose failure ends the task and with it the receiver. *)
Definition subscribe_events_native (accepted : bool) (params : Json)
    (s : InMemoryEventBus * W) : (InMemoryEventBus * W) * NativeReply :=
  match parse_subscribe params with
  | Err err => (s, StreamInvalidParams err)
  | Ok req =>
      match subscribe_stream req s with
      | (s, Err err) => (s, StreamRefused (-32050) (gateway_error_text err))
      | ((b, w), Ok local_sub_id) =>
          if accepted then ((b, w), StreamOpened local_sub_id)
          else ((drop_receiver local_sub_id b, w), StreamNotAccepted)
      end
  end.

(** What [select!] takes up: the sink was closed, or the receiver has its turn, and
    then whether the sink takes the event. *)
Inductive NativeTurn := SinkClosed | ReceiverTurn (sent : bool).

(** [let _ = unsubscribe_stream(..); break]: the task ends and drops its receiver. *)
Definition native_end (local_sub_id : string) (s : InMemoryEventBus * W)
    : (InMemoryEventBus * W) * bool :=
  let '((b, w), _) := unsubscribe_stream local_sub_id s in
  ((drop_receiver local_sub_id b, w), false).

(** One turn of the loop, and whether there is another. An empty channel whose
    sender is gone gives [None]; one whose sender is there keeps the receiver waiting. *)
Definition native_turn (local_sub_id : string) (turn : NativeTurn) (s : InMemoryEventBus * W)
    : (InMemoryEventBus * W) * bool :=
  match turn with
  | SinkClosed => native_end local_sub_id s
  | ReceiverTurn sent =>
      match channel_recv local_sub_id (fst s) with
      | (b, Some _) =>
          if sent then ((b, snd s), true) else native_end local_sub_id (b, snd s)
      | (_, None) =>
          match mx_value (live_subscribers (fst s)) !! local_sub_id with
          | Some _ => (s, true)
          | None => native_end local_sub_id s
          end
      end
  end.
End NativeStreams.
