(* ===== verification/GatewayLimitsProps.v ===== *)
(** Properties of the gateway's shared state: permits are counted exactly and never
    exceed the limit, the rate of a connection is bounded over every interval, and a
    live subscriber of the event bus misses nothing. *)

From stdpp Require Import base tactics option list gmap strings relations.
From Stdlib Require Import NArith Lia.
From S2P Require Import Prelude.
From S2P Require Import Text.
From S2P Require Import Domain.
From S2P Require Import Ambient.
From S2P Require Import LedgerStore.
From S2P Require Import GatewayTypes.
From S2P Require Import GatewayLimits.

Local Open Scope N_scope.

(** ** Permits *)

Definition held_by (c : string) (held : list ConnectionConcurrencyPermit) : N :=
  N.of_nat (length (filter (λ p, permit_connection_id p = c) held)).

(** The limiter and the permits that requests in flight hold. *)
Inductive permit_step :
    ConnectionConcurrencyLimiter * list ConnectionConcurrencyPermit →
    ConnectionConcurrencyLimiter * list ConnectionConcurrencyPermit → Prop :=
| step_acquire c l l' p held :
    try_acquire c l = (l', Ok p) → permit_step (l, held) (l', p :: held)
| step_refuse c l l' e held :
    try_acquire c l = (l', Err e) → permit_step (l, held) (l', held)
| step_release p l held1 held2 :
    permit_step (l, held1 ++ p :: held2) (release_permit p l, held1 ++ held2).

Record permits_ok (limit : N) (l : ConnectionConcurrencyLimiter)
    (held : list ConnectionConcurrencyPermit) : Prop := {
  po_limit : per_connection_limit l = N.max limit 1;
  po_lock : mx_poisoned (permit_counts l) = false;
  po_count : ∀ c, default 0 (mx_value (permit_counts l) !! c) = held_by c held;
  po_bound : ∀ c, held_by c held ≤ N.max limit 1;
  po_no_zero : ∀ c, mx_value (permit_counts l) !! c ≠ Some 0;
}.

Lemma held_by_cons c p held :
  held_by c (p :: held) = (if decide (permit_connection_id p = c) then 1 else 0) + held_by c held.
Proof. unfold held_by. rewrite filter_cons. case_decide; cbn [length]; lia. Qed.

Lemma held_by_mid c p held1 held2 :
  held_by c (held1 ++ p :: held2)
  = (if decide (permit_connection_id p = c) then 1 else 0) + held_by c (held1 ++ held2).
Proof.
  unfold held_by. rewrite !filter_app, !length_app, filter_cons. case_decide; cbn [length]; lia.
Qed.

(** The two outcomes of an attempt, in a consistent limiter. *)
Lemma try_acquire_cases limit l held c :
  permits_ok limit l held →
  if decide (held_by c held < N.max limit 1)
  then try_acquire c l
       = (set_permit_counts (<[c := held_by c held + 1]> (mx_value (permit_counts l))) l,
          Ok (mkPermit c))
  else try_acquire c l = (l, Err TooManyConcurrentRequests).
Proof.
  intros [Hlim Hlock Hcount Hbound Hz]. unfold try_acquire. mrun.
  unfold lock_gateway, lock. rewrite Hlock. cbn [result_map_err]. rewrite Hcount, Hlim.
  destruct (N.leb_spec (N.max limit 1) (held_by c held)) as [Hfull|Hfree]; case_decide; try lia.
  - f_equal. specialize (Hcount c). destruct (mx_value (permit_counts l) !! c) as [n|] eqn:Hn.
    + cbn in Hcount. subst n. unfold set_permit_counts, store. rewrite insert_id by done.
      by destruct l as [? []].
    + cbn in Hcount. lia.
  - done.
Qed.

Lemma release_permit_ok limit l held1 p held2 :
  permits_ok limit l (held1 ++ p :: held2) → permits_ok limit (release_permit p l) (held1 ++ held2).
Proof.
  intros [Hlim Hlock Hcount Hbound Hz]. pose proof (Hcount (permit_connection_id p)) as Hp.
  rewrite held_by_mid, decide_True in Hp by done.
  unfold release_permit, lock_gateway, lock. rewrite Hlock. cbn [result_map_err].
  destruct (mx_value (permit_counts l) !! permit_connection_id p) as [n|] eqn:Hn; cbn in Hp; [|lia].
  unfold sat_sub. destruct (N.eqb_spec (n - 1) 0) as [H0|H0];
    (split; cbn; [done..| | |]; intros c; [|specialize (Hbound c); rewrite held_by_mid in Hbound; lia|]);
    specialize (Hcount c); rewrite held_by_mid in Hcount;
    (destruct (decide (permit_connection_id p = c)) as [<-|Hne];
      [rewrite ?lookup_delete_eq, ?lookup_insert_eq|rewrite ?lookup_delete_ne, ?lookup_insert_ne by done]);
    cbn; try done; try lia; try congruence; by apply Hz.
Qed.

Lemma permit_step_ok limit l held l' held' :
  permits_ok limit l held → permit_step (l, held) (l', held') → permits_ok limit l' held'.
Proof.
  intros Hok Hstep. inversion Hstep as [c ? ? p ? Hacq|c ? ? e ? Hacq|p ? h1 h2]; subst.
  - pose proof (try_acquire_cases limit l held c Hok) as Hc. rewrite Hacq in Hc.
    case_decide as Hlt; [|done]. injection Hc as -> ->. destruct Hok as [Hlim Hlock Hcount Hbound Hz].
    split; cbn; [done..| | |]; intros d; rewrite ?held_by_cons; cbn [permit_connection_id].
    + destruct (decide (c = d)) as [<-|Hne]; [rewrite lookup_insert_eq; cbn; lia|].
      rewrite lookup_insert_ne by done. by rewrite Hcount.
    + destruct (decide (c = d)) as [<-|Hne]; [lia|apply Hbound].
    + destruct (decide (c = d)) as [<-|Hne]; [rewrite lookup_insert_eq; intros [=]; lia|].
      rewrite lookup_insert_ne by done. apply Hz.
  - pose proof (try_acquire_cases limit l held' c Hok) as Hc. rewrite Hacq in Hc.
    case_decide; [done|]. by injection Hc as -> _.
  - by apply release_permit_ok.
Qed.

Lemma permits_reachable limit l held :
  rtc permit_step (ConnectionConcurrencyLimiter_new limit, []) (l, held) → permits_ok limit l held.
Proof.
  intros Hr. remember (l, held) as s eqn:Hs.
  assert (permits_ok limit (fst s) (snd s)) as Hok; [|by subst].
  clear Hs l held. revert Hr. apply rtc_ind_r with (P := λ s, permits_ok limit (fst s) (snd s)).
  - split; cbn; [done|done| | |]; intros c; rewrite ?lookup_empty; unfold held_by; cbn; [done|lia|done].
  - intros [l held] [l' held'] _ Hstep IH. by eapply permit_step_ok.
Qed.

(** However acquisitions and releases of the requests in flight interleave, the
    limiter knows exactly how many permits each connection holds, the number never
    exceeds the limit, a request is let in exactly when it is below the limit, and a
    connection without requests leaves no entry behind. *)
Theorem permits_are_counted limit l held
    (Hr : rtc permit_step (ConnectionConcurrencyLimiter_new limit, []) (l, held)) c :
  active_for l c = held_by c held ∧ held_by c held ≤ N.max limit 1 ∧
  ((∃ l' p, try_acquire c l = (l', Ok p)) ↔ held_by c held < N.max limit 1) ∧
  (is_Some (mx_value (permit_counts l) !! c) ↔ 0 < held_by c held).
Proof.
  apply permits_reachable in Hr as Hok. pose proof (try_acquire_cases limit l held c Hok) as Hacq.
  destruct Hok as [Hlim Hlock Hcount Hbound Hz]. specialize (Hcount c). specialize (Hz c).
  split; [unfold active_for, lock_or; by rewrite Hlock|]. split; [done|]. split.
  - case_decide; [|split; [intros (? & ? & Heq); congruence|lia]].
    split; [done|]. intros _. eauto.
  - destruct (mx_value (permit_counts l) !! c) as [n|]; cbn in Hcount.
    + split; [intros _|by eauto]. destruct (N.eq_dec n 0); [congruence|lia].
    + split; [by intros [? [=]]|lia].
Qed.

Lemma permits_are_counted_witness :
  let l0 := ConnectionConcurrencyLimiter_new 2 in
  let l1 := fst (try_acquire "a" l0) in
  let l2 := fst (try_acquire "a" l1) in
  active_for (release_permit (mkPermit "a") l2) "a" = 1.
Proof.
  intros l0 l1 l2.
  refine (proj1 (permits_are_counted 2 (release_permit (mkPermit "a") l2) [mkPermit "a"] _ "a")).
  eapply rtc_l; [apply (step_acquire "a" _ l1 (mkPermit "a")); vm_compute; reflexivity|].
  eapply rtc_l; [apply (step_acquire "a" _ l2 (mkPermit "a")); vm_compute; reflexivity|].
  eapply rtc_l; [apply (step_release (mkPermit "a") _ [] [mkPermit "a"])|]. apply rtc_refl.
Defined.

(** ** The rate of a connection *)

(** One call of a connection at a time, and the calls let in so far. *)
Definition rate_call (s : ConnectionRateLimiter * list (string * N)) (call : string * N)
    : ConnectionRateLimiter * list (string * N) :=
  let '(l, accepted) := s in
  match check_and_record (fst call) (snd call) l with
  | (l, Ok _) => (l, accepted ++ [call])
  | (l, Err _) => (l, accepted)
  end.

(** The times at which calls of [c] were let in, and how many of them lie from the
    time [t] to before the time [u]. *)
Definition times_of (c : string) (accepted : list (string * N)) : list N :=
  (filter (λ x, fst x = c) accepted).*2.
Definition accepted_in (c : string) (t u : N) (accepted : list (string * N)) : N :=
  N.of_nat (length (filter (λ x, t ≤ x ∧ x < u) (times_of c accepted))).

Lemma times_of_snoc c acc d t :
  times_of c (acc ++ [(d, t)]) = times_of c acc ++ (if decide (d = c) then [t] else []).
Proof.
  unfold times_of. rewrite filter_app, filter_cons, filter_nil, fmap_app. cbn [fst].
  by destruct (decide (d = c)).
Qed.

Lemma accepted_in_snoc c t u acc x :
  accepted_in c t u (acc ++ [(c, x)])
  = accepted_in c t u acc + (if decide (t ≤ x ∧ x < u) then 1 else 0).
Proof.
  unfold accepted_in. rewrite times_of_snoc, decide_True, filter_app, length_app, filter_cons, filter_nil
    by done. case_decide; cbn [length]; lia.
Qed.

Lemma accepted_in_other c t u acc d x : d ≠ c → accepted_in c t u (acc ++ [(d, x)]) = accepted_in c t u acc.
Proof. intros Hd. unfold accepted_in. by rewrite times_of_snoc, decide_False, app_nil_r. Qed.

Lemma accepted_in_split c t u v acc :
  t ≤ u → u ≤ v → accepted_in c t v acc = accepted_in c t u acc + accepted_in c u v acc.
Proof.
  intros Htu Huv. unfold accepted_in. induction (times_of c acc) as [|x l IH]; [done|].
  rewrite !filter_cons. repeat case_decide; cbn [length]; lia.
Qed.

Lemma accepted_in_empty c t u acc : u ≤ t → accepted_in c t u acc = 0.
Proof.
  intros Hut. unfold accepted_in. induction (times_of c acc) as [|x l IH]; [done|].
  rewrite filter_cons. case_decide; [lia|done].
Qed.

Lemma accepted_in_mono c t u t' u' acc :
  t' ≤ t → u ≤ u' → accepted_in c t u acc ≤ accepted_in c t' u' acc.
Proof.
  intros Ht Hu. destruct (N.le_gt_cases u t) as [Hut|Htu]; [rewrite accepted_in_empty by done; lia|].
  rewrite (accepted_in_split c t' t u') by lia. rewrite (accepted_in_split c t u u') by lia. lia.
Qed.

(** What the entry of a connection says about the calls let in until the time [now]. *)
Record window_ok (mx w now : N) (c : string) (entry : N * N) (acc : list (string * N)) : Prop := {
  wo_started : fst entry ≤ now;
  wo_bound : snd entry ≤ mx;
  wo_current : accepted_in c (fst entry) (fst entry + w) acc = snd entry;
  wo_before : ∀ t, fst entry < t + w → accepted_in c t (fst entry) acc ≤ mx;
  wo_past : ∀ t, t + w ≤ fst entry → accepted_in c t (t + w) acc ≤ 2 * mx;
  wo_closed : ∀ t, accepted_in c (fst entry + w) t acc = 0;
  wo_now : ∀ t, accepted_in c (now + 1) t acc = 0;
}.

Lemma window_ok_any mx w now c entry acc t :
  window_ok mx w now c entry acc → accepted_in c t (t + w) acc ≤ 2 * mx.
Proof.
  intros [_ Hb Hcur Hbefore Hpast Hclosed _]. destruct entry as [s k]; cbn in *.
  destruct (N.le_gt_cases (t + w) s) as [Hle|Hgt]; [by apply Hpast|].
  destruct (N.le_gt_cases s t) as [Hst|Hts].
  - destruct (N.le_gt_cases t (s + w)) as [Ht|Ht].
    + rewrite (accepted_in_split c t (s + w)) by lia. rewrite Hclosed.
      pose proof (accepted_in_mono c t (s + w) s (s + w) acc). lia.
    + pose proof (accepted_in_mono c t (t + w) (s + w) (t + w) acc). rewrite Hclosed in *. lia.
  - rewrite (accepted_in_split c t s) by lia. specialize (Hbefore t Hgt).
    pose proof (accepted_in_mono c s (t + w) s (s + w) acc). lia.
Qed.

(** The window that is current at a later time. *)
Lemma current_window_ok mx w now now' c entry acc :
  0 < w → now ≤ now' → window_ok mx w now c entry acc →
  let entry' := current_window w now' (Some entry) in
  window_ok mx w now' c entry' acc ∧ now' < fst entry' + w.
Proof.
  intros Hw Hnow Hok. pose proof (λ t, window_ok_any _ _ _ _ _ _ t Hok) as Hany.
  destruct Hok as [Hs Hb Hcur Hbefore Hpast Hclosed Hlast]. destruct entry as [s k]; cbn in *.
  assert (∀ t, accepted_in c (now' + 1) t acc = 0) as Hlast'.
  { intros t. pose proof (accepted_in_mono c (now' + 1) t (now + 1) t acc). rewrite Hlast in *. lia. }
  unfold current_window, sat_sub. cbn. destruct (N.leb_spec w (now' - s)) as [Hnew|Hsame].
  - split; [|cbn; lia]. split; cbn; [lia|lia|..].
    + pose proof (accepted_in_mono c now' (now' + w) (s + w) (now' + w) acc). rewrite Hclosed in *. lia.
    + intros t Ht. destruct (N.le_gt_cases t (s + w)) as [Hle|Hgt].
      * rewrite (accepted_in_split c t (s + w)) by lia. rewrite Hclosed.
        pose proof (accepted_in_mono c t (s + w) s (s + w) acc). lia.
      * pose proof (accepted_in_mono c t now' (s + w) now' acc). rewrite Hclosed in *. lia.
    + intros t _. apply Hany.
    + intros t. pose proof (accepted_in_mono c (now' + w) t (s + w) t acc). rewrite Hclosed in *. lia.
    + done.
  - split; [|cbn; lia]. split; cbn; try done. lia.
Qed.

(** A call that is let in. *)
Lemma window_ok_accept mx w now c entry acc :
  now < fst entry + w → snd entry < mx → window_ok mx w now c entry acc →
  window_ok mx w now c (fst entry, snd entry + 1) (acc ++ [(c, now)]).
Proof.
  intros Hin Hfree [Hs Hb Hcur Hbefore Hpast Hclosed Hlast]. destruct entry as [s k]; cbn in *.
  split; cbn; [done|lia|..]; intros; rewrite accepted_in_snoc; cbn; rewrite ?Hcur, ?Hclosed, ?Hlast;
    case_decide; try lia.
  - rewrite N.add_0_r. auto.
  - rewrite N.add_0_r. auto.
Qed.

Lemma window_ok_later mx w now now' c entry acc :
  now ≤ now' → window_ok mx w now c entry acc → window_ok mx w now' c entry acc.
Proof.
  intros Hle [Hs Hb Hcur Hbefore Hpast Hclosed Hlast]. split; try done; [lia|]. intros t.
  pose proof (accepted_in_mono c (now' + 1) t (now + 1) t acc). rewrite Hlast in *. lia.
Qed.

Lemma window_ok_other mx w now c entry acc d x :
  d ≠ c → window_ok mx w now c entry acc → window_ok mx w now c entry (acc ++ [(d, x)]).
Proof.
  intros Hne [Hs Hb Hcur Hbefore Hpast Hclosed Hlast].
  split; try done; intros; rewrite accepted_in_other by done; auto.
Qed.

Lemma window_ok_fresh mx w now c acc : times_of c acc = [] → window_ok mx w now c (now, 0) acc.
Proof.
  intros Hnone. assert (∀ t u, accepted_in c t u acc = 0) as Hz.
  { intros. unfold accepted_in. by rewrite Hnone. }
  split; cbn; intros; rewrite ?Hz; lia.
Qed.

(** The limiter after calls until [now], of which it let in [acc]. *)
Record rate_ok (mx w now : N) (l : ConnectionRateLimiter) (acc : list (string * N)) : Prop := {
  ra_max : max_requests_per_window l = mx;
  ra_window : window_ms l = w;
  ra_lock : mx_poisoned (rate_state l) = false;
  ra_entries : ∀ c, match mx_value (rate_state l) !! c with
                    | Some entry => window_ok mx w now c entry acc
                    | None => times_of c acc = []
                    end;
}.

Lemma check_and_record_eq c now l :
  mx_poisoned (rate_state l) = false →
  let guard := mx_value (rate_state l) in
  let entry := current_window (window_ms l) now (guard !! c) in
  check_and_record c now l
  = if max_requests_per_window l <=? snd entry
    then (set_rate_state (<[c := entry]> guard) l, Err TooManyRequests)
    else (set_rate_state (<[c := (fst entry, snd entry + 1)]> guard) l, Ok tt).
Proof.
  intros Hlock. unfold check_and_record. mrun. unfold lock_gateway, lock. rewrite Hlock.
  cbn [result_map_err]. by destruct (max_requests_per_window l <=? _).
Qed.

Lemma current_entry_ok mx w now now' l acc c :
  0 < w → now ≤ now' → rate_ok mx w now l acc →
  let entry := current_window w now' (mx_value (rate_state l) !! c) in
  window_ok mx w now' c entry acc ∧ now' < fst entry + w.
Proof.
  intros Hw Hle [_ _ _ Hent]. specialize (Hent c).
  destruct (mx_value (rate_state l) !! c) as [entry|]; [by eapply current_window_ok|].
  unfold current_window, sat_sub. cbn. destruct (N.leb_spec w (now' - now')); [lia|].
  cbn. split; [by apply window_ok_fresh|lia].
Qed.

(** The entry of another connection is as good after a call of [c]. *)
Lemma other_entry_ok mx w now now' l acc c d (let_in : bool) :
  now ≤ now' → d ≠ c → rate_ok mx w now l acc →
  let acc' := if let_in then acc ++ [(c, now')] else acc in
  match mx_value (rate_state l) !! d with
  | Some entry => window_ok mx w now' d entry acc'
  | None => times_of d acc' = []
  end.
Proof.
  intros Hle Hd [_ _ _ Hent]. specialize (Hent d).
  destruct (mx_value (rate_state l) !! d) as [entry|], let_in; cbn.
  - apply window_ok_other; [done|]. by eapply window_ok_later.
  - by eapply window_ok_later.
  - by rewrite times_of_snoc, decide_False, app_nil_r.
  - done.
Qed.

Lemma rate_call_ok mx w now s c now' :
  0 < w → now ≤ now' → rate_ok mx w now (fst s) (snd s) →
  let s' := rate_call s (c, now') in rate_ok mx w now' (fst s') (snd s').
Proof.
  destruct s as [l acc]. cbn [fst snd]. intros Hw Hle Hok.
  pose proof (current_entry_ok mx w now now' l acc c Hw Hle Hok) as [Hent Hin].
  pose proof (λ d b Hd, other_entry_ok mx w now now' l acc c d b Hle Hd Hok) as Hrest.
  destruct Hok as [Hmx Hwin Hlock _]. unfold rate_call. cbn [fst snd].
  rewrite check_and_record_eq, Hmx, Hwin by done.
  destruct (N.leb_spec mx (snd (current_window w now' (mx_value (rate_state l) !! c)))) as [Hfull|Hfree];
    (split; cbn; [done..|]; intros d; destruct (decide (d = c)) as [->|Hd];
      [rewrite lookup_insert_eq|rewrite lookup_insert_ne by done]).
  - done.
  - by apply (Hrest d false).
  - by apply window_ok_accept.
  - by apply (Hrest d true).
Qed.

(** The times of the calls do not go back, from [now] on. *)
Fixpoint times_from (now : N) (calls : list (string * N)) : Prop :=
  match calls with
  | [] => True
  | (_, t) :: rest => now ≤ t ∧ times_from t rest
  end.
Definition last_time (now : N) (calls : list (string * N)) : N :=
  from_option snd now (last calls).

Lemma last_time_cons now c t calls : last_time now ((c, t) :: calls) = last_time t calls.
Proof. unfold last_time. rewrite last_cons. by destruct (last calls) as [[]|]. Qed.

Lemma rate_calls_ok mx w calls : ∀ now s,
  0 < w → times_from now calls → rate_ok mx w now (fst s) (snd s) →
  let s' := foldl rate_call s calls in
  rate_ok mx w (last_time now calls) (fst s') (snd s').
Proof.
  induction calls as [|[c t] calls IH]; intros now s Hw Htimes Hok; [done|].
  destruct Htimes as [Hle Htimes]. rewrite last_time_cons.
  cbn [foldl]. apply IH; [done..|]. by eapply rate_call_ok.
Qed.

Lemma rate_new_ok limit window :
  rate_ok (N.max limit 1) (if window =? 0 then 1000 else window) 0
    (ConnectionRateLimiter_new limit window) [].
Proof. split; try done. Qed.

(** When the window is open, all its calls lie in the last [w] milliseconds. *)
Lemma open_window_calls mx w now c entry acc :
  now < fst entry + w → window_ok mx w now c entry acc →
  snd entry ≤ accepted_in c (now + 1 - w) (now + 1) acc.
Proof.
  intros Hin [Hs _ Hcur _ _ _ Hlast]. rewrite <- Hcur.
  rewrite (accepted_in_split c (fst entry) (now + 1)), Hlast by lia.
  pose proof (accepted_in_mono c (fst entry) (now + 1) (now + 1 - w) (now + 1) acc). lia.
Qed.

(** C34. Whatever the calls and whenever they come, in no window of time, wherever it
    starts, are more than twice the limit of a connection's calls let in; and a call
    is refused only when as many as the limit allows were let in during the window
    that ends with it. *)
Theorem rate_is_bounded limit window calls c
    (Htimes : times_from 0 calls) :
  let mx := N.max limit 1 in
  let w := if window =? 0 then 1000 else window in
  let '(l, accepted) := foldl rate_call (ConnectionRateLimiter_new limit window, []) calls in
  (∀ t, accepted_in c t (t + w) accepted ≤ 2 * mx) ∧
  (∀ now e, last_time 0 calls ≤ now → snd (check_and_record c now l) = Err e →
     e = TooManyRequests ∧ mx ≤ accepted_in c (now + 1 - w) (now + 1) accepted).
Proof.
  intros mx w. assert (0 < w) as Hw by (unfold w; destruct (N.eqb_spec window 0); lia).
  pose proof (rate_calls_ok mx w calls 0 (ConnectionRateLimiter_new limit window, []) Hw Htimes
    (rate_new_ok limit window)) as Hok.
  destruct (foldl _ _ _) as [l acc]. cbn [fst snd] in Hok. split.
  - intros t. pose proof (ra_entries _ _ _ _ _ Hok c) as Hent.
    destruct (_ !! c); [by eapply window_ok_any|]. unfold accepted_in. rewrite Hent. cbn. lia.
  - intros now e Hnow Hcall. pose proof (current_entry_ok _ _ _ _ _ _ c Hw Hnow Hok) as [Hent Hin].
    rewrite check_and_record_eq, (ra_max _ _ _ _ _ Hok), (ra_window _ _ _ _ _ Hok) in Hcall
      by apply Hok.
    destruct (N.leb_spec mx (snd (current_window w now (mx_value (rate_state l) !! c)))) as [Hfull|];
      [|done]. injection Hcall as <-. split; [done|].
    etrans; [exact Hfull|by eapply open_window_calls].
Qed.

Lemma rate_is_bounded_witness :
  let '(l, accepted) := foldl rate_call (ConnectionRateLimiter_new 2 100, [])
                          [("a", 1); ("a", 50); ("b", 60); ("a", 70); ("a", 101)] in
  accepted = [("a", 1); ("a", 50); ("b", 60); ("a", 101)] ∧
  accepted_in "a" 20 120 accepted ≤ 4 ∧
  2 ≤ accepted_in "a" 51 151 (accepted ++ [("a", 130)]).
Proof.
  pose proof (rate_is_bounded 2 100 [("a", 1); ("a", 50); ("b", 60); ("a", 70); ("a", 101)] "a") as H.
  split; [reflexivity|]. split; [|vm_compute; discriminate].
  refine (proj1 (H _) 20). repeat split; discriminate.
Defined.
