(* ===== verification/EventBusProps.v ===== *)
(** The event bus: what a subscriber reads is the events published since it
    subscribed that match its filter, in order and without a gap, for as long as the
    bus keeps it. *)

From stdpp Require Import base tactics option list gmap strings relations pretty.
From Stdlib Require Import NArith Lia.
From S2P Require Import Prelude.
From S2P Require Import Text.
From S2P Require Import Domain.
From S2P Require Import Ambient.
From S2P Require Import LedgerStore.
From S2P Require Import GatewayTypes.
From S2P Require Import GatewayLimits.
From S2P Require Import GatewayHandlers.

Local Open Scope N_scope.

Lemma lookup_foldr_delete {A} (ids : list string) (m : gmap string A) id :
  foldr delete m ids !! id = if decide (id ∈ ids) then None else m !! id.
Proof.
  induction ids as [|i ids IH]; cbn [foldr].
  - by rewrite decide_False by apply not_elem_of_nil.
  - destruct (decide (i = id)) as [->|Hne].
    + by rewrite lookup_delete_eq, decide_True by apply list_elem_of_here.
    + rewrite lookup_delete_ne, IH by done.
      destruct (decide (id ∈ ids)) as [Hin|Hin].
      * by rewrite decide_True by by apply list_elem_of_further.
      * rewrite decide_False; [done|]. by rewrite elem_of_cons; intros [?|?].
Qed.

(** ** One delivery *)

(** What happens to the stream of one subscriber: its queue grows, or it is put on
    the list of those to remove. *)
Definition delivery (cap : N) (ev : EventEnvelope) (sub : option SubscribeRequest)
    (queue : option (list EventEnvelope)) : option (list EventEnvelope) * bool :=
  match sub with
  | Some req =>
      if event_matches req ev then
        match queue ≫= channel_try_send cap ev with
        | Some queue' => (Some queue', false)
        | None => (queue, true)
        end
      else (queue, false)
  | None => (queue, false)
  end.

Lemma deliver_other cap ev acc i sub id :
  id ≠ i →
  let acc' := deliver_one cap ev acc (i, sub) in
  acc'.1.1 !! id = acc.1.1 !! id ∧ (id ∈ acc'.2 ↔ id ∈ acc.2).
Proof.
  intros Hne. destruct acc as [[chs n] rem]. cbn. destruct (event_matches sub ev); cbn; [|done].
  destruct (chs !! i ≫= _); cbn.
  - by rewrite lookup_insert_ne.
  - split; [done|]. rewrite elem_of_app, list_elem_of_singleton. naive_solver.
Qed.

Lemma deliver_same cap ev acc i sub :
  i ∉ acc.2 →
  let acc' := deliver_one cap ev acc (i, sub) in
  acc'.1.1 !! i = (delivery cap ev (Some sub) (acc.1.1 !! i)).1 ∧
  (i ∈ acc'.2 ↔ (delivery cap ev (Some sub) (acc.1.1 !! i)).2 = true).
Proof.
  intros Hnot. destruct acc as [[chs n] rem]. cbn in *.
  destruct (event_matches sub ev); cbn; [|by split].
  destruct (chs !! i ≫= _); cbn.
  - by rewrite lookup_insert_eq.
  - split; [done|]. rewrite elem_of_app, list_elem_of_singleton. naive_solver.
Qed.

Lemma deliver_loop cap ev id subs : ∀ acc,
  NoDup subs.*1 → id ∉ acc.2 →
  let acc' := foldl (deliver_one cap ev) acc subs in
  let sub := (list_to_map subs : gmap string SubscribeRequest) !! id in
  acc'.1.1 !! id = (delivery cap ev sub (acc.1.1 !! id)).1 ∧
  (id ∈ acc'.2 ↔ (delivery cap ev sub (acc.1.1 !! id)).2 = true).
Proof.
  induction subs as [|[i s] subs IH]; intros acc Hnd Hnot; cbn [foldl list_to_map foldr].
  { rewrite lookup_empty. by split. }
  apply NoDup_cons in Hnd as [Hi Hnd]. destruct (decide (id = i)) as [->|Hne].
  - cbn in Hi. rewrite lookup_insert_eq. cbn [fst snd]. pose proof (deliver_same cap ev acc i s Hnot) as [Hq Hr].
    rewrite <- Hq, <- Hr. clear IH Hq Hr Hnot Hnd. revert Hi.
    generalize (deliver_one cap ev acc (i, s)).
    induction subs as [|[j s'] subs IH]; intros acc' Hi; cbn [foldl]; [done|].
    cbn in Hi. apply not_elem_of_cons in Hi as [Hij Hi].
    destruct (IH (deliver_one cap ev acc' (j, s')) Hi) as [-> ->]. by apply deliver_other.
  - pose proof (deliver_other cap ev acc i s id Hne) as [Hq Hr].
    destruct (IH (deliver_one cap ev acc (i, s)) Hnd) as [Hq' Hr']; [by rewrite Hr|].
    cbn. rewrite lookup_insert_ne by done. by rewrite <- Hq.
Qed.

Lemma deliver_all cap ev chs live id :
  let acc := foldl (deliver_one cap ev) (chs, 0, []) (map_to_list live) in
  acc.1.1 !! id = (delivery cap ev (live !! id) (chs !! id)).1 ∧
  (id ∈ acc.2 ↔ (delivery cap ev (live !! id) (chs !! id)).2 = true).
Proof.
  pose proof (deliver_loop cap ev id (map_to_list live) (chs, 0, []) (NoDup_fst_map_to_list live)
    (not_elem_of_nil _)) as H. by rewrite list_to_map_to_list in H.
Qed.

(** ** The bus and its streams *)

Record bus_unpoisoned (b : InMemoryEventBus) : Prop := {
  bu_subs : mx_poisoned (subscriptions b) = false;
  bu_live : mx_poisoned (live_subscribers b) = false;
  bu_published : mx_poisoned (published_events b) = false;
  bu_slow : mx_poisoned (slow_subscriber_disconnects b) = false;
}.

(** What happened on the bus. *)
Inductive BusEvent :=
  | Subscribed (id : string) (req : SubscribeRequest)
  | Published (ev : EventEnvelope)
  | Received (id : string) (ev : EventEnvelope).

(** What a log says about the latest stream with an identifier: its filter, the
    events published for it, and those its subscriber has read. *)
Record View := mkView {
  v_req : SubscribeRequest;
  v_sent : list EventEnvelope;
  v_read : list EventEnvelope;
}.

Definition view_step (id : string) (v : option View) (e : BusEvent) : option View :=
  match e with
  | Subscribed i req => if decide (i = id) then Some (mkView req [] []) else v
  | Published ev =>
      (λ v, mkView (v_req v) (v_sent v ++ (if event_matches (v_req v) ev then [ev] else [])) (v_read v))
        <$> v
  | Received i ev =>
      if decide (i = id) then (λ v, mkView (v_req v) (v_sent v) (v_read v ++ [ev])) <$> v else v
  end.
Definition stream_view (id : string) (log : list BusEvent) : option View :=
  foldl (view_step id) None log.

Lemma stream_view_snoc id log e : stream_view id (log ++ [e]) = view_step id (stream_view id log) e.
Proof. unfold stream_view. by rewrite foldl_app. Qed.

Section Streams.
Context {W : Type} `{FreshIds W} {UT : UuidText}.

(** The operations of the bus and of its subscribers, with what they add to the log. *)
Inductive bus_step :
    (InMemoryEventBus * W) * list BusEvent → (InMemoryEventBus * W) * list BusEvent → Prop :=
| bus_subscribe_control req s s' id log :
    subscribe req s = (s', Ok id) → bus_step (s, log) (s', log)
| bus_unsubscribe_control id s s' log :
    unsubscribe id s = (s', Ok tt) → bus_step (s, log) (s', log)
| bus_subscribe_stream req s s' id log :
    subscribe_stream req s = (s', Ok id) → bus_step (s, log) (s', log ++ [Subscribed id req])
| bus_unsubscribe_stream id s s' log :
    unsubscribe_stream id s = (s', Ok tt) → bus_step (s, log) (s', log)
| bus_publishes ev s s' n log :
    publish ev s = (s', Ok n) → bus_step (s, log) (s', log ++ [Published ev])
| bus_receives id ev b b' w log :
    channel_recv id b = (b', Some ev) → bus_step ((b, w), log) ((b', w), log ++ [Received id ev])
| bus_drops_receiver id b w log :
    bus_step ((b, w), log) ((drop_receiver id b, w), log).

(** The stream of one identifier, as the bus and the log see it. *)
Record stream_ok (cap : N) (live : option SubscribeRequest) (queue : option (list EventEnvelope))
    (v : View) : Prop := {
  so_filter : ∀ req, live = Some req → req = v_req v;
  so_queue : ∀ q, queue = Some q → N.of_nat (length q) ≤ cap ∧ v_read v ++ q `prefix_of` v_sent v;
  so_live : ∀ q, queue = Some q → is_Some live → v_read v ++ q = v_sent v;
}.

Record bus_ok (b : InMemoryEventBus) (log : list BusEvent) : Prop := {
  bo_unpoisoned : bus_unpoisoned b;
  bo_streams : ∀ id,
    match stream_view id log with
    | Some v => stream_ok (stream_buffer_capacity b) (mx_value (live_subscribers b) !! id)
                  (bus_channels b !! id) v
    | None => mx_value (live_subscribers b) !! id = None ∧ bus_channels b !! id = None
    end;
}.

(** Publishing delivers to every live stream at once. *)
Lemma publish_eq ev b (w : W) :
  bus_unpoisoned b →
  ∃ b' n, publish ev (b, w) = ((b', w), Ok n) ∧ bus_unpoisoned b' ∧
    stream_buffer_capacity b' = stream_buffer_capacity b ∧
    mx_value (published_events b') = mx_value (published_events b) ++ [ev] ∧
    ∀ id,
      let d := delivery (stream_buffer_capacity b) ev (mx_value (live_subscribers b) !! id)
                 (bus_channels b !! id) in
      bus_channels b' !! id = d.1 ∧
      mx_value (live_subscribers b') !! id
      = if d.2 then None else mx_value (live_subscribers b) !! id.
Proof.
  intros [Hs Hl Hp Hd].
  pose proof (deliver_all (stream_buffer_capacity b) ev (bus_channels b) (mx_value (live_subscribers b)))
    as Hdel.
  unfold publish, disconnect_slow, the_bus, update_bus, lock_gateway, lock. mrun.
  cbn -[foldl foldr]. rewrite Hs, Hl. destruct (foldl _ _ _) as [[chs n] rem].
  cbn [fst snd] in Hdel. destruct rem as [|i rem]; cbn -[foldr].
  - rewrite Hp. eexists _, _. split; [done|].
    split; [by split|]. do 2 (split; [done|]). intros id. destruct (Hdel id) as [Hq Hr].
    cbn. split; [done|]. destruct (delivery _ _ _ _) as [? []]; [|done].
    by destruct (not_elem_of_nil id (proj2 Hr eq_refl)).
  - rewrite Hl, Hd. cbn -[foldr]. rewrite Hp. cbn -[foldr]. eexists _, _. split; [done|].
    split; [by split|]. do 2 (split; [done|]). intros id. destruct (Hdel id) as [Hq Hr].
    cbn -[foldr]. split; [done|]. rewrite lookup_foldr_delete.
    destruct (delivery _ _ _ _) as [? []]; cbn in *.
    + rewrite decide_True; [done|]. by apply Hr.
    + rewrite decide_False; [done|]. intros Hin. by apply Hr in Hin.
Qed.

Lemma delivery_ok cap ev live queue v :
  stream_ok cap live queue v →
  let d := delivery cap ev live queue in
  stream_ok cap (if d.2 then None else live) d.1
    (mkView (v_req v) (v_sent v ++ (if event_matches (v_req v) ev then [ev] else [])) (v_read v)).
Proof.
  intros [Hf Hq Hl]. unfold delivery. destruct live as [req|]; cbn.
  2: { split; cbn; [done| |by intros ? _ []]. intros q Heq. destruct (Hq q Heq). split; [done|].
       by apply prefix_app_r. }
  destruct v as [r sent rd]; cbn in *. pose proof (Hf req eq_refl) as ->. destruct (event_matches r ev).
  2: { cbn. rewrite app_nil_r. by split. }
  destruct queue as [q|]; cbn; [|by split].
  specialize (Hq q eq_refl) as [Hcap Hpre]. specialize (Hl q eq_refl (mk_is_Some _ _ eq_refl)).
  unfold channel_try_send. destruct (N.leb_spec cap (N.of_nat (length q))) as [Hfull|Hroom]; cbn.
  - split; cbn; [done| |by intros ? _ []]. intros ? [= <-]. split; [done|]. by apply prefix_app_r.
  - split; cbn; [done| |]; intros ? [= <-]; rewrite app_assoc, Hl; [|done].
    rewrite length_app. cbn. split; [lia|done].
Qed.

Lemma stream_ok_read cap live ev q v :
  stream_ok cap live (Some (ev :: q)) v →
  stream_ok cap live (Some q) (mkView (v_req v) (v_sent v) (v_read v ++ [ev])).
Proof.
  intros [Hf Hq Hl]. split; cbn; [done| |]; intros ? [= <-]; rewrite <- app_assoc; cbn.
  - destruct (Hq _ eq_refl). cbn in *. split; [lia|done].
  - by apply Hl.
Qed.

Lemma stream_ok_closed cap live v : stream_ok cap live None v → stream_ok cap None None v.
Proof. by split. Qed.

Lemma stream_ok_dropped cap live queue v : stream_ok cap live queue v → stream_ok cap None queue v.
Proof. intros [Hf Hq Hl]. split; [done|done|by intros ? _ []]. Qed.

Lemma stream_ok_gone cap live queue v : stream_ok cap live queue v → stream_ok cap live None v.
Proof. by intros [Hf Hq Hl]; split. Qed.

(** Unfolds an operation of the bus whose locks are fine. *)
Ltac bus_run Hok H :=
  unfold subscribe, unsubscribe, subscribe_stream, unsubscribe_stream, new_subscription_id, the_bus,
    update_bus, lock_gateway, lock in H; mrun in H; cbn in H;
  repeat match type of H with
  | context [fresh_uuid ?w] => destruct (fresh_uuid w); cbn in H
  end;
  rewrite ?(bu_subs _ Hok), ?(bu_live _ Hok) in H; cbn in H; simplify_eq/=.

Lemma bus_step_ok s log s' log' :
  bus_ok s.1 log → bus_step (s, log) (s', log') → bus_ok s'.1 log'.
Proof.
  destruct s as [b w]. cbn [fst]. intros [Hu Hok] Hstep.
  inversion Hstep as [req ? ? id ? Heq|id ? ? ? Heq|req ? ? id ? Heq|id ? ? ? Heq
    |ev ? ? n ? Heq|id ev ? b' ? ? Heq|id ? ? ?]; subst; clear Hstep.
  - bus_run Hu Heq. split; [by destruct Hu; split|done].
  - bus_run Hu Heq. split; [by destruct Hu; split|done].
  - bus_run Hu Heq. split; [by destruct Hu; split|]. intros i. specialize (Hok i).
    rewrite stream_view_snoc. cbn. destruct (decide (_ = i)) as [<-|Hne].
    + rewrite !lookup_insert_eq. split; cbn; [by intros ? [=]| |]; intros ? [= <-]; [|done].
      split; [cbn; lia|done].
    + by rewrite !lookup_insert_ne.
  - bus_run Hu Heq. split; [by destruct Hu; split|]. intros i. specialize (Hok i). cbn.
    destruct (decide (id = i)) as [<-|Hne]; [rewrite lookup_delete_eq|by rewrite lookup_delete_ne].
    destruct (stream_view id log'); [by eapply stream_ok_dropped|by destruct Hok].
  - destruct (publish_eq ev b w Hu) as (b' & n' & Heq' & Hu' & Hcap & _ & Hs).
    rewrite Heq' in Heq. injection Heq as <- _. split; [done|]. intros i. specialize (Hok i).
    rewrite stream_view_snoc. cbn [fst]. destruct (Hs i) as [-> ->]. rewrite Hcap.
    destruct (stream_view i log) as [v|]; cbn [view_step fmap option_fmap option_map].
    + by apply delivery_ok.
    + destruct Hok as [-> ->]. done.
  - unfold channel_recv in Heq. destruct (bus_channels b !! id) as [[|ev' q]|] eqn:Hq; simplify_eq/=.
    split; [by destruct Hu; split|]. intros i. specialize (Hok i). rewrite stream_view_snoc. cbn.
    destruct (decide (id = i)) as [<-|Hne]; [rewrite lookup_insert_eq|by rewrite lookup_insert_ne].
    destruct (stream_view id log) as [v|]; cbn; [|by destruct Hok; congruence].
    rewrite Hq in Hok. by apply stream_ok_read.
  - split; [by destruct Hu; split|]. intros i. specialize (Hok i). cbn.
    destruct (decide (id = i)) as [<-|Hne]; [rewrite lookup_delete_eq|by rewrite lookup_delete_ne].
    destruct (stream_view id log'); [by eapply stream_ok_gone|by destruct Hok].
Qed.

Lemma bus_reachable b0 w0 s log :
  bus_ok b0 [] → rtc bus_step ((b0, w0), []) (s, log) → bus_ok s.1 log.
Proof.
  intros Hok0 Hr. remember (s, log) as x eqn:Hx.
  assert (bus_ok x.1.1 x.2) as Hok; [|by subst].
  clear Hx s log. revert Hr. apply rtc_ind_r with (P := λ x, bus_ok x.1.1 x.2); [done|].
  intros [s log] [s' log'] _ Hstep IH. by eapply bus_step_ok.
Qed.

Lemma bus_new_ok capacity : bus_ok (with_stream_buffer_capacity capacity InMemoryEventBus_new) [].
Proof. split; [by split|]. intros id. cbn. by rewrite lookup_empty. Qed.

(** C27. However subscriptions, publications and reads interleave, what a subscriber
    has read and what waits in its channel are the events that were published since
    it subscribed and that match its filter, in order and without a gap: all of them
    while the bus keeps it, a prefix of them once it was disconnected. Its channel
    never holds more than its capacity. *)
Theorem subscriber_misses_nothing capacity w0 b w log id
    (Hr : rtc bus_step ((with_stream_buffer_capacity capacity InMemoryEventBus_new, w0), [])
            ((b, w), log)) queue
    (Hopen : bus_channels b !! id = Some queue) :
  ∃ v, stream_view id log = Some v ∧
    N.of_nat (length queue) ≤ stream_buffer_capacity b ∧
    v_read v ++ queue `prefix_of` v_sent v ∧
    (∀ req, mx_value (live_subscribers b) !! id = Some req →
       req = v_req v ∧ v_read v ++ queue = v_sent v).
Proof.
  apply bus_reachable in Hr as [_ Hok]; [|apply bus_new_ok]. specialize (Hok id). cbn in Hok.
  destruct (stream_view id log) as [v|]; [|destruct Hok; congruence].
  destruct Hok as [Hf Hq Hl]. destruct (Hq queue Hopen) as [Hcap Hpre].
  exists v. split; [done|]. split; [done|]. split; [done|]. intros req Hreq.
  split; [by apply Hf|]. apply Hl; [done|]. by rewrite Hreq.
Qed.

(** A native subscription moves the bus only by the steps above: a turn of its loop
    that goes on has sent the oldest event of the channel or waits, and one that ends
    leaves neither a subscriber nor a channel behind. *)
Lemma native_turn_steps id turn s s' goes log :
  mx_poisoned (live_subscribers s.1) = false →
  native_turn id turn s = (s', goes) →
  (∃ more, rtc bus_step (s, log) (s', log ++ more)) ∧
  if goes then
    s' = s ∨ ∃ ev queue, turn = ReceiverTurn true ∧ bus_channels s.1 !! id = Some (ev :: queue) ∧
      bus_channels s'.1 !! id = Some queue ∧ live_subscribers s'.1 = live_subscribers s.1
  else mx_value (live_subscribers s'.1) !! id = None ∧ bus_channels s'.1 !! id = None.
Proof.
  destruct s as [b w]. cbn [fst]. intros Hlock Hturn.
  assert (Hend : ∀ b1 log1, live_subscribers b1 = live_subscribers b →
    ∃ b2, native_end id (b1, w) = ((b2, w), false) ∧ rtc bus_step ((b1, w), log1) ((b2, w), log1) ∧
      mx_value (live_subscribers b2) !! id = None ∧ bus_channels b2 !! id = None).
  { intros b1 log1 Hlive. unfold native_end.
    destruct (unsubscribe_stream id (b1, w)) as [[b2 w2] r] eqn:Hun. pose proof Hun as Hrun.
    unfold unsubscribe_stream, the_bus, update_bus, lock_gateway, lock in Hrun. mrun in Hrun.
    cbn in Hrun. rewrite Hlive, Hlock in Hrun. cbn in Hrun. injection Hrun as <- <- <-.
    eexists. split; [done|]. split.
    - eapply rtc_l; [by eapply bus_unsubscribe_stream|]. apply rtc_once, bus_drops_receiver.
    - cbn. by rewrite !lookup_delete_eq. }
  unfold native_turn in Hturn. destruct turn as [|sent].
  - destruct (Hend b log eq_refl) as (b2 & Heq & Hr & Hgone). rewrite Heq in Hturn.
    injection Hturn as <- <-. split; [exists []; by rewrite app_nil_r|done].
  - destruct (channel_recv id (fst (b, w))) as [b1 [ev|]] eqn:Hrecv; cbn [fst snd] in *.
    + pose proof (bus_receives id ev b b1 w log Hrecv) as Hstep. unfold channel_recv in Hrecv.
      destruct (bus_channels b !! id) as [[|ev' q]|] eqn:Hq; simplify_eq/=. destruct sent.
      * injection Hturn as <- <-. split; [eexists; by apply rtc_once|]. right. cbn.
        exists ev, q. by rewrite lookup_insert_eq.
      * destruct (Hend _ (log ++ [Received id ev]) (eq_refl : live_subscribers
          (set_bus_channels (<[id:=q]> (bus_channels b)) b) = live_subscribers b))
          as (b2 & Heq & Hr & Hgone).
        rewrite Heq in Hturn. injection Hturn as <- <-. split; [|done].
        eexists. by eapply rtc_l.
    + destruct (mx_value (live_subscribers b) !! id) eqn:Hl.
      * injection Hturn as <- <-. split; [exists []; by rewrite app_nil_r|by left].
      * destruct (Hend b log eq_refl) as (b2 & Heq & Hr & Hgone). rewrite Heq in Hturn.
        injection Hturn as <- <-. split; [exists []; by rewrite app_nil_r|done].
Qed.
End Streams.

#[local] Instance counting_ids : FreshIds N := {| fresh_uuid := λ w, (w + 1, w) |}.
#[local] Instance counting_text : UuidText := {| uuid_text := pretty |}.

Definition demo_event (room : RoomId) (name : string) : EventEnvelope :=
  mkEvent PublicRoomEvents room None None name JNull.

(** A subscriber with room for one event is sent one, another is for another room,
    and the third finds its channel full: the first can still be read. *)
Lemma subscriber_misses_nothing_witness :
  let demo_a := demo_event 7 "a" in
  let demo_c := demo_event 7 "c" in
  ∃ b v, slow_disconnect_count b = 1 ∧ bus_channels b !! "0"%string = Some [demo_a] ∧
    v_sent v = [demo_a; demo_c] ∧ v_read v ++ [demo_a] `prefix_of` v_sent v.
Proof.
  intros demo_a demo_c.
  assert (∃ b w log, rtc bus_step ((with_stream_buffer_capacity 1 InMemoryEventBus_new, 0), [])
            ((b, w), log) ∧ slow_disconnect_count b = 1 ∧ bus_channels b !! "0"%string = Some [demo_a] ∧
            v_sent <$> stream_view "0" log = Some [demo_a; demo_c])
    as (b & w & log & Hr & Hslow & Hopen & Hsent).
  { eexists _, _, _. split.
    - eapply rtc_l; [eapply (bus_subscribe_stream (mkSubscribe PublicRoomEvents 7 None None));
        vm_compute; reflexivity|].
      eapply rtc_l; [eapply (bus_publishes demo_a); vm_compute; reflexivity|].
      eapply rtc_l; [eapply (bus_publishes (demo_event 8 "b")); vm_compute; reflexivity|].
      eapply rtc_l; [eapply (bus_publishes demo_c); vm_compute; reflexivity|]. apply rtc_refl.
    - vm_compute. auto. }
  destruct (subscriber_misses_nothing 1 0 b w log "0" Hr [demo_a] Hopen) as (v & Hv & _ & Hpre & _).
  exists b, v. rewrite Hv in Hsent. injection Hsent as Hsent. auto.
Defined.
