(* ===== verification/GatewayProps.v ===== *)
(** What the handlers of the gateway promise the room service: a request that
    reaches it was in its time window, carried a nonce that was not used before, and,
    unless it is a join, had its signature verified; whatever becomes of a request
    whose window is checked, its nonce cannot be used again; and a call gives back
    the permit it took. *)

From stdpp Require Import base tactics option list gmap strings relations.
From Stdlib Require Import NArith ZArith Lia.
From S2P Require Import Prelude.
From S2P Require Import Text.
From S2P Require Import Domain.
From S2P Require Import Ambient.
From S2P Require Import LedgerStore.
From S2P Require Import AgentAuth.
From S2P Require Import AgentAuthProps.
From S2P Require Import GatewayTypes.
From S2P Require Import GatewayLimits.
From S2P Require Import GatewayHandlers.
From S2P Require Import GatewayLimitsProps.

Local Open Scope N_scope.

(** ** Signed requests *)

(** The five methods whose parameters carry [request_meta]. *)
Inductive SignedRequest :=
| SignedJoin (r : RoomReadyRequest)
| SignedReady (r : RoomReadyRequest)
| SignedBindAddress (r : RoomBindAddressRequest)
| SignedBindKeys (r : RoomBindSessionKeysRequest)
| SignedAct (r : GameActRequest).

Definition signed_meta (sr : SignedRequest) : SignedRequestMeta :=
  match sr with
  | SignedJoin r | SignedReady r => rr_request_meta r
  | SignedBindAddress r => ba_request_meta r
  | SignedBindKeys r => bk_request_meta r
  | SignedAct r => ga_request_meta r
  end.

Section Gate.
Context {W : Type} {CK : Clock W} {FI : FreshIds W} {RS : RoomServicePort W}.
Context {SK : Secp256k1} {HD : HexDecode} {UT : UuidText} {DT : DateTimeText}.
Context (audit_sink : option (RequestRejectAuditSink W)).
Context (consume : ReplayNonceKey → M W AuthError unit).
Context (verifier : option (RequestSignatureVerifier W)).

Definition handle_signed (sr : SignedRequest) : W → W * ResponseEnvelope unit :=
  match sr with
  | SignedJoin r => handle_room_join_with_audit audit_sink (Some consume) r
  | SignedReady r => handle_room_ready_with_audit audit_sink (Some consume) verifier r
  | SignedBindAddress r => handle_bind_address_with_audit audit_sink (Some consume) verifier r
  | SignedBindKeys r => handle_bind_session_keys_with_audit audit_sink (Some consume) verifier r
  | SignedAct r => handle_game_act_with_audit audit_sink (Some consume) verifier r
  end.

(** What a request asks of the room service, and of the verifier. *)
Definition signed_service (sr : SignedRequest) : M W RpcGatewayError unit :=
  match sr with
  | SignedJoin r => svc_join r
  | SignedReady r => svc_ready r
  | SignedBindAddress r => svc_bind_address r
  | SignedBindKeys r => svc_bind_session_keys r
  | SignedAct r => svc_act r
  end.
Definition signed_verification (sr : SignedRequest) : option (M W string unit) :=
  match sr with
  | SignedJoin _ => None
  | SignedReady r => (λ v, verify_room_ready v r) <$> verifier
  | SignedBindAddress r => (λ v, verify_bind_address v r) <$> verifier
  | SignedBindKeys r => (λ v, verify_bind_session_keys v r) <$> verifier
  | SignedAct r => (λ v, verify_game_act v r) <$> verifier
  end.

(** The checks that depend on the request alone. *)
Definition signed_fields (sr : SignedRequest) : result RpcGatewayError unit :=
  match sr with
  | SignedBindKeys r => validate_bind_session_keys_proof r
  | SignedAct r => validate_game_act_funding_fields r
  | _ => Ok tt
  end.

(** The requests whose signature is asked about: all but the joins. *)
Definition asks_signature (sr : SignedRequest) : bool :=
  match sr with SignedJoin _ => false | _ => true end.

(** An action is turned away for its own fields before anything else. *)
Definition refused_unread (sr : SignedRequest) : bool :=
  match sr with
  | SignedAct r => match validate_game_act_funding_fields r with Ok _ => false | Err _ => true end
  | _ => false
  end.

Context {R : Type} (room : W → R) (seen : W → ReplayNonceKey → Prop).

(** Steps that leave the rooms alone and forget no nonce. *)
Record quiet (w w' : W) : Prop := {
  qu_room : room w' = room w;
  qu_seen : ∀ k, seen w k → seen w' k;
}.

#[export] Instance quiet_preorder : PreOrder quiet.
Proof.
  split; [by split|]. intros w1 w2 w3 [Hr1 Hs1] [Hr2 Hs2]. split; [congruence|auto].
Qed.

(** What the checks' collaborators promise: none touches a room; the nonce store
    takes a key once and remembers it. *)
Record collaborators_ok : Prop := {
  co_uuid : ∀ w, quiet w (fst (fresh_uuid w));
  co_sink : ∀ sink e w, audit_sink = Some sink → quiet w (fst (sink e w));
  co_verify : ∀ sr verify w, signed_verification sr = Some verify → quiet w (fst (verify w));
  co_consume : ∀ k w, quiet w (fst (consume k w)) ∧ seen (fst (consume k w)) k;
  co_once : ∀ k w, snd (consume k w) = Ok tt ↔ ¬ seen w k;
}.
Context (CO : collaborators_ok).

Lemma reject_quiet method reason meta r h s a d w :
  quiet w (fst (reject audit_sink method reason meta r h s a d w)) ∧
  snd (reject audit_sink method reason meta r h s a d w) = Ok tt.
Proof.
  unfold reject, new_uuid. mrun. pose proof (co_uuid CO w) as Hid.
  destruct (fresh_uuid w) as [w1 u]. cbn in Hid.
  unfold audit_request_rejection. destruct audit_sink as [sink|] eqn:Hs; [|done].
  unfold ignore_error. cbn. split; [|done]. etrans; [exact Hid|]. by apply (co_sink CO).
Qed.

(** The window and the nonce. *)
Lemma meta_check method meta r h s a w w' res :
  validate_request_meta_with_audit method meta audit_sink (Some consume) r h s a w = (w', res) →
  quiet w w' ∧
  match validate_request_meta (utc_now w) meta with
  | Ok _ => seen w' (nonce_key meta) ∧ (res = Ok tt ↔ ¬ seen w (nonce_key meta))
  | Err e => res = Err e
  end.
Proof.
  unfold validate_request_meta_with_audit, now. mrun.
  destruct (validate_request_meta (utc_now w) meta) as [[]|err].
  - unfold try_m. pose proof (co_consume CO (nonce_key meta) w) as [Hq Hseen].
    pose proof (co_once CO (nonce_key meta) w) as Honce.
    destruct (consume (nonce_key meta) w) as [w1 [[]|e]]; cbn in Hq, Hseen, Honce.
    + intros [= <- <-]. split; [done|]. split; [done|]. split; [|done].
      intros _. by apply Honce.
    + destruct (reject_quiet method ReplayRejected meta r h s a (auth_error_text e) w1) as [Hq' Hok].
      destruct (reject _ _ _ _ _ _ _ _ _ w1) as [w2 r2]. cbn in Hq', Hok. subst r2.
      intros [= <- <-]. split; [by etrans|]. split; [by apply (qu_seen _ _ Hq')|].
      split; [done|]. intros Hn. by apply Honce in Hn.
  - destruct (reject_quiet method RequestExpiredOrInvalidWindow meta r h s a (gateway_error_text err) w)
      as [Hq' Hok].
    destruct (reject _ _ _ _ _ _ _ _ _ w) as [w2 r2]. cbn in Hq', Hok. subst r2.
    by intros [= <- <-].
Qed.

(** The signature. *)
Lemma signature_check {Request} method (verify : option (Request → M W string unit)) req meta r h s a w w' res :
  (∀ v, verify = Some v → quiet w (fst (v req w))) →
  verify_signature_with_audit method verify req meta audit_sink r h s a w = (w', res) →
  quiet w w' ∧ (res = Ok tt ↔ ∀ v, verify = Some v → snd (v req w) = Ok tt).
Proof.
  intros Hv. unfold verify_signature_with_audit. destruct verify as [v|].
  2: { intros [= <- <-]. by repeat split. }
  specialize (Hv v eq_refl). mrun. unfold try_m.
  destruct (v req w) as [w1 [[]|e]] eqn:Hrun; cbn in Hv.
  - intros [= <- <-]. split; [done|]. split; [|done]. intros _ ? [= <-]. by rewrite Hrun.
  - destruct (reject_quiet method MissingOrInvalidSignature meta r h s a e w1) as [Hq' Hok].
    destruct (reject _ _ _ _ _ _ _ _ _ w1) as [w2 r2]. cbn in Hq', Hok. subst r2.
    intros [= <- <-]. split; [by etrans|]. split; [done|]. intros Hall.
    specialize (Hall v eq_refl). rewrite Hrun in Hall. discriminate.
Qed.
(** The checks of a request, up to the call of the room service. *)
Definition signed_checks (sr : SignedRequest) : M W ErrorBody unit :=
  let check_meta method room_id hand_id seat_id action_seq :=
    or_reply CodeRequestInvalid
      (validate_request_meta_with_audit method (signed_meta sr) audit_sink (Some consume) room_id
         hand_id seat_id action_seq) in
  match sr with
  | SignedJoin r => check_meta "room.join" (Some (rr_room_id r)) None (Some (rr_seat_id r)) None
  | SignedReady r =>
      check_meta "room.ready" (Some (rr_room_id r)) None (Some (rr_seat_id r)) None;;
      or_reply CodeForbidden (verify_room_ready_signature_with_audit r verifier audit_sink)
  | SignedBindAddress r =>
      check_meta "room.bind_address" (Some (ba_room_id r)) None (Some (ba_seat_id r)) None;;
      or_reply CodeRequestInvalid (verify_bind_address_signature_with_audit r verifier audit_sink)
  | SignedBindKeys r =>
      check_meta "room.bind_session_keys" (Some (bk_room_id r)) None (Some (bk_seat_id r)) None;;
      or_reply CodeKeyBindingProofInvalid (check_binding_proof audit_sink r);;
      or_reply CodeForbidden (verify_bind_session_keys_signature_with_audit r verifier audit_sink)
  | SignedAct r =>
      or_reply CodeRequestInvalid (lift_result (validate_game_act_funding_fields r));;
      check_meta "game.act" (Some (ga_room_id r)) (Some (ga_hand_id r)) (Some (ga_seat_id r))
        (Some (ga_action_seq r));;
      or_reply CodeForbidden (verify_game_act_signature_with_audit r verifier audit_sink)
  end.
Definition service_failure (sr : SignedRequest) : ErrorCode :=
  match sr with
  | SignedJoin _ | SignedReady _ => CodeRoomReadyFailed
  | SignedBindAddress _ => CodeRoomBindAddressFailed
  | SignedBindKeys _ => CodeRoomBindKeysFailed
  | SignedAct _ => CodeGameActFailed
  end.

Lemma M_bind_assoc {S E A B C} (m : M S E A) (f : A → M S E B) (g : B → M S E C) s :
  M_bind (M_bind m f) g s = M_bind m (λ a, M_bind (f a) g) s.
Proof. unfold M_bind. by destruct (m s) as [? []]. Qed.

Lemma M_bind_ext {S E A B} (m : M S E A) (f g : A → M S E B) s :
  (∀ a s, f a s = g a s) → M_bind m f s = M_bind m g s.
Proof. intros Hfg. unfold M_bind. destruct (m s) as [? []]; auto. Qed.

Lemma respond_ext {A} (m m' : M W ErrorBody A) w : m w = m' w → respond m w = respond m' w.
Proof. unfold respond. by intros ->. Qed.

Lemma handle_signed_checks sr w :
  handle_signed sr w
  = respond (signed_checks sr;; or_reply (service_failure sr) (signed_service sr)) w.
Proof.
  destruct sr; apply respond_ext; cbn [signed_checks]; unfold mbind, M_mbind; [done| | | |];
    rewrite M_bind_assoc; apply M_bind_ext; intros _ ?; by rewrite ?M_bind_assoc.
Qed.

(** A check that goes through when [need] holds, and after which [grant] does. *)
Definition check_ok (m : M W ErrorBody unit) (need grant : W → Prop) : Prop :=
  ∀ w w' res, m w = (w', res) →
    quiet w w' ∧ match res with Ok _ => grant w | Err _ => ¬ need w end.

Lemma check_bind m1 m2 need1 need2 grant1 grant2 :
  check_ok m1 need1 grant1 → check_ok m2 need2 grant2 →
  check_ok (m1;; m2) (λ w, need1 w ∧ ∀ w1, quiet w w1 → need2 w1)
    (λ w, grant1 w ∧ ∃ w1, quiet w w1 ∧ grant2 w1).
Proof.
  intros H1 H2 w w' res. unfold mbind, M_mbind, M_bind.
  destruct (m1 w) as [w1 [[]|e]] eqn:Hm1; apply H1 in Hm1 as [Hq1 Hr1].
  - intros Hm2. apply H2 in Hm2 as [Hq2 Hr2]. split; [by etrans|].
    destruct res; [by eauto|]. intros [_ Hall]. by apply Hr2, Hall.
  - intros [= <- <-]. split; [done|]. by intros [? _].
Qed.

Lemma check_meta_ok method meta r h s a code :
  check_ok
    (or_reply code (validate_request_meta_with_audit method meta audit_sink (Some consume) r h s a))
    (λ w, validate_request_meta (utc_now w) meta = Ok tt ∧ ¬ seen w (nonce_key meta))
    (λ w, validate_request_meta (utc_now w) meta = Ok tt ∧ ¬ seen w (nonce_key meta)).
Proof.
  intros w w' res. unfold or_reply, M_map_err.
  destruct (validate_request_meta_with_audit _ _ _ _ _ _ _ _ w) as [w1 r1] eqn:Hm.
  apply meta_check in Hm as [Hq Hres]. intros [= <- <-]. split; [done|].
  destruct (validate_request_meta (utc_now w) meta) as [[]|e].
  - destruct Hres as [_ Hiff]. destruct r1 as [[]|e]; cbn; [by split; [|apply Hiff]|].
    intros [_ Hn]. by apply Hiff in Hn.
  - subst r1. cbn. by intros [? _].
Qed.

Lemma check_signature_ok {Request} method (verify : option (Request → M W string unit)) req meta r h s a code :
  (∀ v w, verify = Some v → quiet w (fst (v req w))) →
  check_ok
    (or_reply code (verify_signature_with_audit method verify req meta audit_sink r h s a))
    (λ w, ∀ v, verify = Some v → snd (v req w) = Ok tt)
    (λ w, ∀ v, verify = Some v → snd (v req w) = Ok tt).
Proof.
  intros Hv w w' res. unfold or_reply, M_map_err.
  destruct (verify_signature_with_audit _ _ _ _ _ _ _ _ _ w) as [w1 r1] eqn:Hm.
  apply signature_check in Hm as [Hq Hres]; [|by intros v; apply Hv].
  intros [= <- <-]. split; [done|]. destruct r1 as [[]|e]; cbn; [by apply Hres|].
  intros Hall. by apply Hres in Hall.
Qed.

Lemma check_proof_ok request code :
  check_ok (or_reply code (check_binding_proof audit_sink request))
    (λ _, validate_bind_session_keys_proof request = Ok tt)
    (λ _, validate_bind_session_keys_proof request = Ok tt).
Proof.
  intros w w' res. unfold or_reply, M_map_err, check_binding_proof.
  destruct (validate_bind_session_keys_proof request) as [[]|e].
  - by intros [= <- <-].
  - mrun. destruct (reject_quiet "room.bind_session_keys" RejectedKeyBindingProof
      (bk_request_meta request) (Some (bk_room_id request)) None (Some (bk_seat_id request)) None
      (gateway_error_text e) w) as [Hq Hok].
    destruct (reject _ _ _ _ _ _ _ _ _ w) as [w1 r1]. cbn in Hq, Hok. subst r1.
    by intros [= <- <-].
Qed.
Lemma check_after_meta code e r h s a method meta m2 need grant w w' res :
  check_ok m2 need grant →
  validate_request_meta (utc_now w) meta = Ok tt →
  (or_reply code (validate_request_meta_with_audit method meta audit_sink (Some consume) r h s a);;
   m2) w = (w', res) →
  e = nonce_key meta → seen w' e.
Proof.
  intros H2 Hwin. unfold mbind, M_mbind, M_bind, or_reply, M_map_err.
  destruct (validate_request_meta_with_audit _ _ _ _ _ _ _ _ w) as [w1 r1] eqn:Hm.
  apply meta_check in Hm as [_ Hres]. rewrite Hwin in Hres. destruct Hres as [Hseen _].
  intros Hrun ->. destruct r1 as [[]|e']; cbn in Hrun; [|by injection Hrun as <- _].
  apply H2 in Hrun as [Hq _]. by apply (qu_seen _ _ Hq).
Qed.

Lemma or_reply_lift_bind {A} code (x : result RpcGatewayError A) (m : M W ErrorBody unit) w :
  (or_reply code (lift_result x);; m) w
  = match x with
    | Ok _ => m w
    | Err e => (w, Err (mkErrorBody code (gateway_error_text e)))
    end.
Proof. by destruct x. Qed.

(** Whether the verifier accepts a request in a state. *)
Definition verified (sr : SignedRequest) (w : W) : Prop :=
  ∀ verify, signed_verification sr = Some verify → snd (verify w) = Ok tt.

Lemma check_verified {Request} sr (f : RequestSignatureVerifier W → Request → M W string unit)
    req code method meta r h s a :
  signed_verification sr = (λ v, f v req) <$> verifier →
  check_ok
    (or_reply code
       (verify_signature_with_audit method (f <$> verifier) req meta audit_sink r h s a))
    (verified sr) (verified sr).
Proof.
  intros Hsr w w' res Hrun. pose proof (co_verify CO sr) as Hv. unfold verified. rewrite Hsr in *.
  eapply check_signature_ok in Hrun as [Hq Hres].
  - split; [done|]. destruct verifier as [v|], res; cbn in *; naive_solver.
  - destruct verifier as [v|]; cbn in *; naive_solver.
Qed.

(** How the checks of a request come out: only a request that satisfies them all
    passes, and one that satisfies them wherever the signature is checked does. *)
Lemma checks_cases sr :
  check_ok (signed_checks sr)
    (λ w, validate_request_meta (utc_now w) (signed_meta sr) = Ok tt ∧
          ¬ seen w (nonce_key (signed_meta sr)) ∧ signed_fields sr = Ok tt ∧
          ∀ w1, quiet w w1 → verified sr w1)
    (λ w, validate_request_meta (utc_now w) (signed_meta sr) = Ok tt ∧
          ¬ seen w (nonce_key (signed_meta sr)) ∧ signed_fields sr = Ok tt ∧
          ∃ w1, quiet w w1 ∧ verified sr w1).
Proof.
  intros w w' res. unfold signed_checks. destruct sr as [r|r|r|r|r].
  - intros Hrun. apply check_meta_ok in Hrun as [Hq Hr]. split; [done|].
    assert (∀ w, verified (SignedJoin r) w) as Hv by done. destruct res; naive_solver.
  - intros Hrun. eapply check_bind in Hrun as [Hq Hr]; [|apply check_meta_ok|
      by apply (check_verified (SignedReady r) verify_room_ready)].
    split; [done|]. destruct res; naive_solver.
  - intros Hrun. eapply check_bind in Hrun as [Hq Hr]; [|apply check_meta_ok|
      by apply (check_verified (SignedBindAddress r) verify_bind_address)].
    split; [done|]. destruct res; naive_solver.
  - intros Hrun. eapply check_bind in Hrun as [Hq Hr]; [|apply check_meta_ok|
      apply check_bind; [apply check_proof_ok|
        by apply (check_verified (SignedBindKeys r) verify_bind_session_keys)]].
    split; [done|]. destruct res.
    + destruct Hr as [[? ?] (w1 & Hq1 & Hp & w2 & Hq2 & Hv)]. repeat (split; [done|]).
      exists w2. split; [by etrans|done].
    + intros (? & ? & ? & Hall). apply Hr. split; [done|]. intros w1 Hq1. split; [done|].
      intros w2 Hq2. apply Hall. by etrans.
  - rewrite or_reply_lift_bind. destruct (validate_game_act_funding_fields r) as [[]|e] eqn:Hf; intros Hrun.
    + eapply check_bind in Hrun as [Hq Hr]; [|apply check_meta_ok|
        by apply (check_verified (SignedAct r) verify_game_act)].
      split; [done|]. destruct res; naive_solver.
    + injection Hrun as <- <-. split; [done|]. cbn. rewrite Hf. naive_solver.
Qed.

(** The nonce of a request that came in its window is used up, whatever else is
    wrong with it; only an action whose own fields do not pass is turned away
    before. *)
Lemma checks_burn_nonce sr w w' res :
  signed_checks sr w = (w', res) →
  validate_request_meta (utc_now w) (signed_meta sr) = Ok tt →
  (∀ r, sr = SignedAct r → signed_fields sr = Ok tt) →
  seen w' (nonce_key (signed_meta sr)).
Proof.
  unfold signed_checks. destruct sr as [r|r|r|r|r]; intros Hrun Hwin Hf.
  - unfold or_reply, M_map_err in Hrun.
    destruct (validate_request_meta_with_audit _ _ _ _ _ _ _ _ w) as [w1 r1] eqn:Hm.
    apply meta_check in Hm as [_ Hres]. rewrite Hwin in Hres. destruct Hres as [Hseen _].
    by injection Hrun as <- _.
  - eapply check_after_meta in Hrun; [done| |done|done].
    by apply (check_verified (SignedReady r) verify_room_ready).
  - eapply check_after_meta in Hrun; [done| |done|done].
    by apply (check_verified (SignedBindAddress r) verify_bind_address).
  - eapply check_after_meta in Hrun; [done| |done|done].
    apply check_bind; [apply check_proof_ok|].
    by apply (check_verified (SignedBindKeys r) verify_bind_session_keys).
  - specialize (Hf r eq_refl). cbn in Hf. rewrite or_reply_lift_bind, Hf in Hrun.
    eapply check_after_meta in Hrun; [done| |done|done].
    by apply (check_verified (SignedAct r) verify_game_act).
Qed.

(** C5. The gate before the room service. A request whose handling reaches the room
    service came in its time window, with a nonce that had not been used and with
    fields that pass their checks; unless it is a join, its signature was put to the
    verifier, when one is configured, and accepted. A join reaches the service
    without its signature being looked at. The reply is then the service's. Any
    other request leaves every room as it was and is answered with an error; and a
    request that satisfies the checks, with a signature that is accepted whenever it
    is asked about, or a join whatever its signature, is never one of these. *)
Theorem rooms_see_only_checked_requests sr w w' env
    (Hrun : handle_signed sr w = (w', env)) :
  let key := nonce_key (signed_meta sr) in
  let acceptable :=
    validate_request_meta (utc_now w) (signed_meta sr) = Ok tt ∧ ¬ seen w key ∧
    signed_fields sr = Ok tt in
  (∃ w1 res, quiet w w1 ∧ acceptable ∧
     (asks_signature sr = true → ∃ w0, quiet w w0 ∧ verified sr w0) ∧
     signed_service sr w1 = (w', res) ∧
     env = match res with
           | Ok _ => envelope_ok tt
           | Err e => envelope_err (service_failure sr) (gateway_error_text e)
           end)
  ∨ (quiet w w' ∧ env_ok env = false ∧
     ¬ (acceptable ∧ (asks_signature sr = true → ∀ w1, quiet w w1 → verified sr w1))).
Proof.
  intros key acceptable. rewrite handle_signed_checks in Hrun.
  unfold respond, mbind, M_mbind, M_bind in Hrun.
  destruct (signed_checks sr w) as [w1 [[]|e]] eqn:Hc; apply checks_cases in Hc as [Hq Hr].
  - left. unfold or_reply, M_map_err in Hrun. destruct (signed_service sr w1) as [w2 r2] eqn:Hs.
    exists w1, r2. split; [done|]. split; [unfold acceptable; naive_solver|]. split; [naive_solver|].
    destruct r2 as [[]|e]; by injection Hrun as <- <-.
  - right. injection Hrun as <- <-. split; [done|]. split; [done|].
    intros [(? & ? & ?) Hv]. apply Hr. repeat (split; [done|]).
    destruct sr; [by intros ? ? ? [=]|by apply Hv..].
Qed.

(** C11. No replay. Once a request came in its window, every later request with the
    same identifier and nonce is refused and leaves the rooms as they were: also when
    the first was refused itself, because of its signature or its keys. The one
    exception is an action whose fields do not pass: it is refused before its nonce
    is looked at and changes nothing at all, so its nonce can still be used. *)
Theorem nonce_admits_one_request sr1 sr2 w1 w1' env1 w2 w2' env2
    (Hserve : ∀ sr w k, seen w k → seen (fst (signed_service sr w)) k)
    (H1 : handle_signed sr1 w1 = (w1', env1))
    (Hwindow : validate_request_meta (utc_now w1) (signed_meta sr1) = Ok tt)
    (Hlater : ∀ k, seen w1' k → seen w2 k)
    (Hsame : nonce_key (signed_meta sr2) = nonce_key (signed_meta sr1))
    (H2 : handle_signed sr2 w2 = (w2', env2)) :
  if refused_unread sr1
  then w1' = w1 ∧ env_ok env1 = false
  else env_ok env2 = false ∧ room w2' = room w2.
Proof.
  destruct (refused_unread sr1) eqn:Hbad.
  { destruct sr1 as [| | | |r]; try discriminate Hbad. cbn in Hbad.
    rewrite handle_signed_checks in H1. cbn [signed_checks] in H1.
    unfold respond, mbind, M_mbind in H1. rewrite M_bind_assoc in H1.
    change (M_bind (or_reply ?c (lift_result ?x)) ?f ?w) with ((or_reply c (lift_result x);; f tt) w)
      in H1.
    destruct (validate_game_act_funding_fields r) as [[]|e]; [done|].
    by injection H1 as <- <-. }
  assert (∀ r, sr1 = SignedAct r → signed_fields sr1 = Ok tt) as Hact.
  { intros r ->. cbn in *. by destruct (validate_game_act_funding_fields r) as [[]|e]. }
  assert (seen w2 (nonce_key (signed_meta sr2))) as Hseen.
  { rewrite Hsame. apply Hlater. rewrite handle_signed_checks in H1.
    unfold respond, mbind, M_mbind, M_bind in H1.
    destruct (signed_checks sr1 w1) as [w3 r3] eqn:Hc. apply checks_burn_nonce in Hc; [|done..].
    destruct r3 as [[]|e]; [|by injection H1 as <- _].
    unfold or_reply, M_map_err in H1. specialize (Hserve sr1 w3 _ Hc).
    destruct (signed_service sr1 w3) as [w4 r4]. by injection H1 as <- _. }
  rewrite handle_signed_checks in H2. unfold respond, mbind, M_mbind, M_bind in H2.
  destruct (signed_checks sr2 w2) as [w3 [[]|e]] eqn:Hc; apply checks_cases in Hc as [Hq Hr].
  - by destruct Hr as (_ & Hn & _).
  - injection H2 as <- <-. split; [done|]. by apply Hq.
Qed.
End Gate.

(** ** A call *)

Section Calls.
Context {W : Type} {CK : Clock W} {FI : FreshIds W} {RS : RoomServicePort W}.
Context {SK : Secp256k1} {HD : HexDecode} {UT : UuidText} {DT : DateTimeText} {PP : ParamsParse}.
Context {EB : EventSubscriptionPort W} {MC : MonotonicClock W} (ctx : RpcContext W).

(** The permits the other requests hold, in a gateway with a concurrency limiter. *)
Definition gateway_ok (limit : N) (g : Gateway W) (held : list ConnectionConcurrencyPermit) : Prop :=
  ∃ l, gw_connection_limiter g = Some l ∧ permits_ok limit l held.

Lemma check_rate_frame c g g' r :
  check_rate c g = (g', r) →
  gw_connection_limiter g' = gw_connection_limiter g ∧ gw_world g' = gw_world g.
Proof.
  unfold check_rate. destruct (gw_connection_rate_limiter g) as [l|]; [|by intros [= <- <-]].
  destruct (check_and_record _ _ l) as [l' r']. by intros [= <- <-].
Qed.

Lemma acquire_permit_cases limit c g held g' r :
  gateway_ok limit g held → acquire_permit c g = (g', r) →
  gw_world g' = gw_world g ∧
  match r with
  | Ok p => p = Some (mkPermit c) ∧ held_by c held < N.max limit 1 ∧
            gateway_ok limit g' (mkPermit c :: held)
  | Err e => e = TooManyConcurrentRequests ∧ gateway_ok limit g' held
  end.
Proof.
  intros (l & Hl & Hok). unfold acquire_permit. rewrite Hl.
  pose proof (try_acquire_cases limit l held c Hok) as Hcases.
  destruct (try_acquire c l) as [l' r'] eqn:Hacq. intros [= <- <-]. split; [done|].
  case_decide as Hlt; injection Hcases as Hl' Hr'; subst l' r'; cbn.
  - split; [done|]. split; [done|]. eexists. split; [done|].
    eapply permit_step_ok; [exact Hok|]. by eapply step_acquire.
  - split; [done|]. by eexists.
Qed.

(** A call lets nothing through beyond the limits and keeps nothing: when it has
    been answered, the limiter holds exactly the permits it held before; a handler ran
    only when its connection was below the limit, and a refused call left the world
    alone. *)
Theorem calls_give_back_their_permit limit held c method params g g' reply
    (Hok : gateway_ok limit g held)
    (Hcall : gateway_call ctx c method params g = (g', reply)) :
  gateway_ok limit g' held ∧
  ((held_by c held < N.max limit 1 ∧
    ∃ handler, rpc_method ctx method params = Some handler ∧
               handler (gw_world g) = (gw_world g', reply)) ∨
   (gw_world g' = gw_world g ∧
    (reply = MethodNotFound ∨
     ∃ e, reply = ReplyUnit (envelope_err CodeForbidden (gateway_error_text e))))).
Proof.
  unfold gateway_call in Hcall.
  destruct (rpc_method ctx method params) as [handler|]; [|injection Hcall as <- <-; by auto].
  unfold try_acquire_ctx_connection_permit in Hcall. mrun in Hcall.
  destruct (check_rate c g) as [g1 [[]|e]] eqn:Hrate; apply check_rate_frame in Hrate as [Hlim Hw].
  2: { injection Hcall as <- <-. split; [by unfold gateway_ok; rewrite Hlim|]. right. eauto. }
  destruct (acquire_permit c g1) as [g2 r2] eqn:Hacq.
  eapply acquire_permit_cases in Hacq as [Hw' Hr]; [|by unfold gateway_ok; rewrite Hlim].
  destruct r2 as [p|e].
  - destruct Hr as (-> & Hlt & l & Hl & Hp). destruct (handler (gw_world g2)) as [w r] eqn:Hh.
    injection Hcall as <- <-. cbn. split.
    + unfold gateway_ok. cbn. rewrite Hl. eexists. split; [done|]. by apply (release_permit_ok limit l []).
    + left. split; [done|]. exists handler. split; [done|]. by rewrite <- Hw, <- Hw'.
  - destruct Hr as [_ Hok']. injection Hcall as <- <-. split; [done|]. right.
    split; [congruence|]. eauto.
Qed.

End Calls.

(** ** The in-memory nonce store *)

(** A key is used once it is in the set; a poisoned lock admits nothing. *)
Definition nonce_used (s : InMemoryReplayNonceStore) (k : ReplayNonceKey) : Prop :=
  mx_poisoned s = true ∨ k ∈ mx_value s.

Lemma in_memory_consume s k :
  let run := consume_nonce_once k s in
  (snd run = Ok tt ↔ ¬ nonce_used s k) ∧ nonce_used (fst run) k ∧
  ∀ k', nonce_used s k' → nonce_used (fst run) k'.
Proof.
  unfold consume_nonce_once, in_memory_replay, consume_once, lock, nonce_used. mrun.
  destruct s as [[] keys]; cbn; [by intuition|].
  case_bool_decide as Hk; cbn.
  - intuition done.
  - split; [by split; [intros _ [?|?]|]|]. set_solver.
Qed.

(** ** A gateway with that store *)

#[local] Existing Instances toy_secp toy_hex toy_auth_uuid toy_date_text.

Record DemoGate := mkDemoGate {
  dg_nonces : InMemoryReplayNonceStore;
  dg_served : list (string * RoomReadyRequest);
  dg_time : DateTime;
  dg_ids : N;
}.
#[local] Instance demo_clock : Clock DemoGate := {| utc_now := dg_time |}.
#[local] Instance demo_ids : FreshIds DemoGate :=
  {| fresh_uuid g := (mkDemoGate (dg_nonces g) (dg_served g) (dg_time g) (dg_ids g + 1), dg_ids g) |}.
Definition demo_serve (method : string) (r : RoomReadyRequest) : M DemoGate RpcGatewayError unit :=
  modify (λ g, mkDemoGate (dg_nonces g) (dg_served g ++ [(method, r)]) (dg_time g) (dg_ids g)).
#[local] Instance demo_rooms : RoomServicePort DemoGate := {|
  svc_create_room _ := throw GNotImplemented;
  svc_list_rooms _ := mret [];
  svc_join := demo_serve "join";
  svc_ready := demo_serve "ready";
  svc_bind_address _ := mret tt;
  svc_bind_session_keys _ := mret tt;
  svc_get_state _ := mret None;
  svc_get_legal_actions _ _ := mret [];
  svc_get_private_payloads _ := mret [];
  svc_act _ := mret tt;
|}.
(** It takes one text for a signature. *)
Definition demo_verify {Request} (meta : Request → SignedRequestMeta) (r : Request)
    : M DemoGate string unit :=
  if String.eqb (rm_signature (meta r)) "signature" then mret tt else throw "bad signature"%string.
Definition demo_verifier : RequestSignatureVerifier DemoGate :=
  mkVerifier (demo_verify ba_request_meta) (demo_verify bk_request_meta)
    (demo_verify rr_request_meta) (demo_verify ga_request_meta).
Definition demo_consume (k : ReplayNonceKey) : M DemoGate AuthError unit := λ g,
  let '(s, r) := consume_nonce_once k (dg_nonces g) in
  (mkDemoGate s (dg_served g) (dg_time g) (dg_ids g), r).
Definition demo_seen (g : DemoGate) : ReplayNonceKey → Prop := nonce_used (dg_nonces g).

Lemma demo_collaborators :
  collaborators_ok None demo_consume (Some demo_verifier) dg_served demo_seen.
Proof.
  split.
  - by split.
  - done.
  - intros [] verify w; cbn; intros [= <-]; unfold demo_verify; by destruct (String.eqb _ _).
  - intros k w. pose proof (in_memory_consume (dg_nonces w) k) as (_ & Hu & Hk).
    unfold demo_consume, demo_seen. destruct (consume_nonce_once k (dg_nonces w)) as [s r].
    by repeat split.
  - intros k w. pose proof (in_memory_consume (dg_nonces w) k) as (Hr & _ & _).
    unfold demo_consume, demo_seen. by destruct (consume_nonce_once k (dg_nonces w)) as [s r].
Qed.

Definition demo_gate : DemoGate := mkDemoGate (mkMutex false ∅) [] 1000 0.
Definition demo_request (nonce : string) (ts : N) (signature : string) : RoomReadyRequest :=
  mkRoomReady 7 2 (mkMeta 5 nonce ts 500 "key" signature).
Definition demo_join (nonce : string) (ts : N) : RoomReadyRequest := demo_request nonce ts "signature".
Definition demo_handle := handle_signed None demo_consume (Some demo_verifier).

(** A ready request with the right signature reaches the service, the same with a
    forged one does not, and a join with a forged one does. *)
Lemma rooms_see_only_checked_requests_witness :
  let run sr := demo_handle sr demo_gate in
  let good := demo_request "n" 900 "signature" in
  let forged := demo_request "n" 900 "forged" in
  dg_served (fst (run (SignedReady good))) = [("ready", good)]%string ∧
  snd (demo_verify rr_request_meta good demo_gate) = Ok tt ∧
  dg_served (fst (run (SignedReady forged))) = [] ∧ env_ok (snd (run (SignedReady forged))) = false ∧
  dg_served (fst (run (SignedJoin forged))) = [("join", forged)]%string.
Proof.
  cbv zeta. split; [reflexivity|].
  destruct (demo_handle (SignedReady (demo_request "n" 900 "signature")) demo_gate)
    as [g env] eqn:Hrun.
  destruct (rooms_see_only_checked_requests None demo_consume (Some demo_verifier)
    dg_served demo_seen demo_collaborators _ _ _ _ Hrun)
    as [(w1 & res & _ & _ & Hsig & _)|(_ & Hno & _)].
  2: { vm_compute in Hrun. injection Hrun as <- <-. discriminate Hno. }
  split.
  { destruct (Hsig eq_refl) as (w0 & _ & Hv). exact (Hv _ eq_refl). }
  destruct (demo_handle (SignedReady (demo_request "n" 900 "forged")) demo_gate)
    as [g2 env2] eqn:Hrun2.
  destruct (rooms_see_only_checked_requests None demo_consume (Some demo_verifier)
    dg_served demo_seen demo_collaborators _ _ _ _ Hrun2)
    as [(_ & _ & _ & _ & Hsig2 & _)|([Hroom _] & Hno2 & _)].
  { destruct (Hsig2 eq_refl) as (w0 & _ & Hv). specialize (Hv _ eq_refl). discriminate Hv. }
  split; [exact Hroom|]. split; [exact Hno2|]. reflexivity.
Defined.

(** The second request with a nonce is refused, also under another time. *)
Lemma nonce_admits_one_request_witness :
  let '(g1, env1) := demo_handle (SignedJoin (demo_join "n" 900)) demo_gate in
  let '(g2, env2) := demo_handle (SignedReady (demo_join "n" 950)) g1 in
  env_ok env1 = true ∧ env_ok env2 = false ∧ dg_served g2 = dg_served g1.
Proof.
  destruct (demo_handle (SignedJoin (demo_join "n" 900)) demo_gate) as [g1 env1] eqn:H1.
  destruct (demo_handle (SignedReady (demo_join "n" 950)) g1) as [g2 env2] eqn:H2.
  split; [vm_compute in H1; by injection H1 as <- <-|].
  refine (nonce_admits_one_request None demo_consume (Some demo_verifier) dg_served demo_seen
    demo_collaborators _ _ _ _ _ _ _ _ _ H1 _ (λ _ H, H) _ H2).
  - intros [] w k Hk; exact Hk.
  - vm_compute. reflexivity.
  - reflexivity.
Defined.

#[local] Instance demo_parse : ParamsParse := {|
  parse_room_create _ := Err "";
  parse_room_list _ := Err "";
  parse_room_ready j := match j with JStr n => Ok (demo_join n 900) | _ => Err "invalid params" end;
  parse_bind_address _ := Err "";
  parse_bind_session_keys _ := Err "";
  parse_get_state _ := Err "";
  parse_get_legal_actions _ := Err "";
  parse_get_private_payloads _ := Err "";
  parse_game_act _ := Err "";
  parse_subscribe _ := Err "";
  parse_unsubscribe _ := Err "";
|}%string.
#[local] Instance demo_bus : EventSubscriptionPort DemoGate := {|
  bus_subscribe _ := mret ""%string;
  bus_unsubscribe _ := mret tt;
  bus_publish _ := mret 0;
|}.
#[local] Instance demo_instants : MonotonicClock DemoGate := {| instant_now := dg_time |}.

(** A join through a gateway that allows one request at a time, from an idle
    connection: it is served, and the permit is back. *)
Lemma calls_give_back_their_permit_witness :
  let ctx := mkRpcContext None (Some demo_consume) (Some demo_verifier) in
  let '(g, reply) := gateway_call ctx "c" "room.join" (JStr "n")
                       (Gateway_new (mkLimits 1 1) demo_gate) in
  reply = ReplyUnit (envelope_ok tt) ∧ dg_served (gw_world g) = [("join", demo_join "n" 900)]%string ∧
  gateway_ok 1 g [].
Proof.
  intros ctx.
  destruct (gateway_call ctx "c" "room.join" (JStr "n") (Gateway_new (mkLimits 1 1) demo_gate))
    as [g reply] eqn:Hcall.
  destruct (calls_give_back_their_permit ctx 1 [] "c" "room.join" (JStr "n")
    (Gateway_new (mkLimits 1 1) demo_gate) g reply) as [Hok _]; [|exact Hcall|].
  - eexists. split; [reflexivity|]. apply permits_reachable. apply rtc_refl.
  - vm_compute in Hcall. injection Hcall as <- <-. split; [reflexivity|]. split; [reflexivity|exact Hok].
Defined.

(** ** The fields of an action *)

(** An action passes the check of its fields exactly when it can be handed to the
    engine and its money fits its kind: a call, raise or all-in names an amount and
    the transaction that pays it, a fold or check neither. *)
Theorem funding_fields_decide request :
  validate_game_act_funding_fields request = Ok tt ↔
  ∃ pa, to_player_action request = Ok pa ∧
    is_monetary (pa_action_type pa) = bool_decide (is_Some (pa_amount pa)) ∧
    is_monetary (pa_action_type pa) = tx_hash_present request.
Proof.
  unfold validate_game_act_funding_fields, to_player_action. mrun.
  destruct (parse_action_type (ga_action_type request)) as [ty|e]; cbn; [|naive_solver].
  destruct (parse_amount_u128 (ga_amount request)) as [amount|e]; cbn; [|naive_solver].
  destruct (is_monetary ty) eqn:Hm, amount, (tx_hash_present request); cbn;
    (split; [try (by intros [=]); intros _; eexists; by repeat split
            |intros (pa & [= <-] & Ha & Ht); cbn in *; congruence]).
Qed.
