(* ===== verification/RoomHandles.v ===== *)
(** How the rest of the server talks to its rooms ([RoomHandle], [RoomRegistry] and
    the event sinks of [table-service/src/lib.rs]).

    [RoomActors] is the interface: a room is spawned once and then sent commands and
    asked questions. [House] implements it with the room actor of [TableService]:
    the tasks of a process, each with its variables, its mailbox and its outputs, over
    one shared world; a message is answered when the actor has worked off what was
    queued before it. *)

From stdpp Require Import base tactics option list gmap strings.
From Stdlib Require Import NArith Lia.
From S2P Require Import Prelude.
From S2P Require Import Ambient.
From S2P Require Import Text.
From S2P Require Import Domain.
From S2P Require Import EngineState.
From S2P Require Import Engine.
From S2P Require Import LedgerStore.
From S2P Require Import JsonRpc.
From S2P Require Import SeatCrypto.
From S2P Require Import TableService.

Local Open Scope N_scope.

(** [mpsc::Sender<RoomCommand>]: the address of a room's task. *)
Record RoomHandle := mkHandle { handle_sender : N }.
#[export] Instance RoomHandle_eq_dec : EqDecision RoomHandle.
Proof. solve_decision. Defined.

Definition actor_gone : string := "room actor unavailable".
Definition reply_dropped : string := "room actor dropped reply".

(** [send] is [sender.send(cmd).await]; [ask] sends a command that carries the
    address of its reply and waits for that. *)
Class RoomActors `{CardOps} (W : Type) := {
  spawn_room : RoomId → W → W * RoomHandle;
  send : RoomHandle → RoomCommand → M W string unit;
  ask : RoomHandle → (ReplyTo → RoomCommand) → M W string RoomReply;
}.

Section Handle.
Context {CO : CardOps} {W : Type} {RA : RoomActors W}.
Implicit Types h : RoomHandle.

Definition room_join h (seat_id : SeatId) : M W string unit := send h (Join seat_id).
Definition room_leave h (seat_id : SeatId) : M W string unit := send h (Leave seat_id).
Definition room_bind_address h (seat_id : SeatId) (seat_address : string) : M W string unit :=
  send h (BindAddress seat_id seat_address).
Definition room_ready h (seat_id : SeatId) : M W string unit := send h (Ready seat_id).
Definition room_bind_session_keys h (seat_id : SeatId)
    (card_encrypt_pubkey request_verify_pubkey key_algo proof_signature : string)
    : M W string unit :=
  send h (BindSessionKeys seat_id card_encrypt_pubkey request_verify_pubkey key_algo
            proof_signature).
Definition room_chain_tx_verified h (callback : ChainTxVerifiedCallback) : M W string unit :=
  send h (ChainTxVerified callback).
Definition room_complete_settlement h (hand_id : HandId) : M W string unit :=
  send h (CompleteSettlement hand_id).

(** The channel of a reply has the type of its question; another value cannot come. *)
Definition room_get_state h : M W string (option HandSnapshot) :=
  reply ← ask h GetState;
  match reply with ReplyState s => mret s | _ => throw reply_dropped end.
Definition room_get_engine_state h : M W string (option EngineState) :=
  reply ← ask h GetEngineState;
  match reply with ReplyEngineState s => mret s | _ => throw reply_dropped end.
Definition room_get_legal_actions h (seat_id : SeatId) : M W string (list LegalAction) :=
  reply ← ask h (GetLegalActions seat_id);
  match reply with ReplyLegalActions l => mret l | _ => throw reply_dropped end.
Definition room_get_private_events h (seat_id : SeatId) (hand_id : option HandId)
    : M W string (list SeatPrivateEvent) :=
  reply ← ask h (GetPrivateEvents seat_id hand_id);
  match reply with ReplyPrivateEvents l => mret l | _ => throw reply_dropped end.
Definition room_act h (action : PlayerAction) : M W string EngineActionResult :=
  reply ← ask h (Act action);
  match reply with ReplyAct r => lift_result r | _ => throw reply_dropped end.
Definition room_queue_pending_chain_action h (tx_hash : string) (action : PlayerAction)
    : M W string unit :=
  reply ← ask h (QueuePendingChainAction tx_hash action);
  match reply with ReplyQueued r => lift_result r | _ => throw reply_dropped end.
End Handle.

(** ** The registry *)

Record RoomRegistry := mkRegistry { rg_rooms : gmap RoomId RoomHandle }.
Definition RoomRegistry_new : RoomRegistry := mkRegistry ∅.
Definition registry_insert (room_id : RoomId) (handle : RoomHandle) (r : RoomRegistry)
    : RoomRegistry := mkRegistry (<[room_id := handle]> (rg_rooms r)).
Definition registry_get (r : RoomRegistry) (room_id : RoomId) : option RoomHandle :=
  rg_rooms r !! room_id.

(** ** Event sinks *)

(** The trait with its default methods. *)
Record RoomEventSink (W : Type) := mkEventSink {
  es_upsert_hand_snapshot : HandSnapshot → M W string unit;
  es_append_hand_events : list HandEvent → M W string unit;
  es_record_behavior_event : RoomBehaviorEvent → M W string unit;
  es_append_private_events : list SeatPrivateEvent → M W string unit;
}.
Arguments mkEventSink {_} _ _ _ _.
Arguments es_upsert_hand_snapshot {_} _ _.
Arguments es_append_hand_events {_} _ _.
Arguments es_record_behavior_event {_} _ _.
Arguments es_append_private_events {_} _ _.

Definition NoopRoomEventSink {W} : RoomEventSink W :=
  mkEventSink (λ _, mret tt) (λ _, mret tt) (λ _, mret tt) (λ _, mret tt).

Record InMemoryRoomEventSink := mkMemorySink {
  ms_hand_events : Mutex (list HandEvent);
  ms_behavior_events : Mutex (list RoomBehaviorEvent);
  ms_private_events : Mutex (list SeatPrivateEvent);
}.
Definition InMemoryRoomEventSink_new : InMemoryRoomEventSink :=
  mkMemorySink (mkMutex false []) (mkMutex false []) (mkMutex false []).

Definition hand_events_len (s : InMemoryRoomEventSink) : nat :=
  lock_or (ms_hand_events s) 0%nat length.
Definition behavior_events_len (s : InMemoryRoomEventSink) : nat :=
  lock_or (ms_behavior_events s) 0%nat length.
Definition private_events_len (s : InMemoryRoomEventSink) : nat :=
  lock_or (ms_private_events s) 0%nat length.
Definition hand_events_snapshot (s : InMemoryRoomEventSink) : list HandEvent :=
  lock_or (ms_hand_events s) [] id.
Definition behavior_events_snapshot (s : InMemoryRoomEventSink) : list RoomBehaviorEvent :=
  lock_or (ms_behavior_events s) [] id.
Definition private_events_snapshot (s : InMemoryRoomEventSink) : list SeatPrivateEvent :=
  lock_or (ms_private_events s) [] id.

(** [lock().map_err(|_| message.to_string())] *)
Definition lock_text {A} (message : string) (m : Mutex A) : result string A :=
  result_map_err (λ _, message) (lock m).

Definition in_memory_append_hand_events (events : list HandEvent)
    : M InMemoryRoomEventSink string unit :=
  s ← get;
  guard ← lift_result (lock_text "hand_events mutex poisoned" (ms_hand_events s));
  modify (λ s, mkMemorySink (store (ms_hand_events s) (guard ++ events)) (ms_behavior_events s)
                 (ms_private_events s)).
Definition in_memory_record_behavior_event (event : RoomBehaviorEvent)
    : M InMemoryRoomEventSink string unit :=
  s ← get;
  guard ← lift_result (lock_text "behavior_events mutex poisoned" (ms_behavior_events s));
  modify (λ s, mkMemorySink (ms_hand_events s) (store (ms_behavior_events s) (guard ++ [event]))
                 (ms_private_events s)).
Definition in_memory_append_private_events (events : list SeatPrivateEvent)
    : M InMemoryRoomEventSink string unit :=
  s ← get;
  guard ← lift_result (lock_text "private_events mutex poisoned" (ms_private_events s));
  modify (λ s, mkMemorySink (ms_hand_events s) (ms_behavior_events s)
                 (store (ms_private_events s) (guard ++ events))).
Definition in_memory_event_sink : RoomEventSink InMemoryRoomEventSink :=
  mkEventSink (λ _, mret tt) in_memory_append_hand_events in_memory_record_behavior_event
    in_memory_append_private_events.

(** [let _ = event_sink...] for the outputs of an actor, in order. *)
Definition sink_output `{CardOps} {W} (sink : RoomEventSink W) (o : RoomOutput) : M W Empty_set unit :=
  match o with
  | UpsertHandSnapshot s => ignore_error (es_upsert_hand_snapshot sink s)
  | AppendHandEvents events => ignore_error (es_append_hand_events sink events)
  | RecordBehaviorEvent event => ignore_error (es_record_behavior_event sink event)
  | AppendPrivateEvents events => ignore_error (es_append_private_events sink events)
  | Reply _ _ => mret tt
  end.
Definition sink_outputs `{CardOps} {W} (sink : RoomEventSink W) (out : list RoomOutput)
    : M W Empty_set unit := M_iter (sink_output sink) out.

(** ** The rooms of a process *)

(** A task: the room it serves and its actor, whose world is elsewhere. *)
Record Task `{CardOps} := mkTask {
  tk_room_id : RoomId;
  tk_room : RoomState;
  tk_mailbox : list RoomCommand;
  tk_out : list RoomOutput;
}.

Arguments mkTask {_} _ _ _ _.
Arguments tk_room_id {_} _.
Arguments tk_room {_} _.
Arguments tk_mailbox {_} _.
Arguments tk_out {_} _.

Record House `{CardOps} (W : Type) := mkHouse {
  ho_world : W;
  ho_tasks : gmap N Task;
  ho_next_task : N;
  ho_next_reply : N;
}.
Arguments mkHouse {_ _} _ _ _ _.
Arguments ho_world {_ _} _.
Arguments ho_tasks {_ _} _.
Arguments ho_next_task {_ _} _.
Arguments ho_next_reply {_ _} _.

Section House.
Context {CO : CardOps} {W : Type}.
Context {CK : Clock W} {FI : FreshIds W} {MC : MonotonicClock W} {SH : Shuffler W}.
Context {CR : SeatCryptoPrimitives} {UT : UuidText} {ES : EphemeralSecrets W} {RC : RoomCodec}.
Context {TR : JsonRpcTransport W}.
Context (config : RoomActorConfig).

(** The service spawns its rooms with a mailbox of 128 commands. *)
Definition queue_capacity : nat := 128.

Definition house_spawn (room_id : RoomId) (ho : House W) : House W * RoomHandle :=
  let a := spawn_room_actor room_id (ho_world ho) in
  let task := mkTask room_id (ac_room a) [] [] in
  (mkHouse (ac_world a) (<[ho_next_task ho := task]> (ho_tasks ho)) (ho_next_task ho + 1)
     (ho_next_reply ho),
   mkHandle (ho_next_task ho)).

(** [sender.send(cmd).await]: the command is put behind what waits in the mailbox, and
    that is all that the caller sees. A channel of bounded capacity serves its waiting
    senders in the order they came, so that the mailbox here is what is queued followed
    by those who wait for a place. *)
Definition task_enqueue (cmd : RoomCommand) (t : Task) : Task :=
  mkTask (tk_room_id t) (tk_room t) (tk_mailbox t ++ [cmd]) (tk_out t).
Definition house_enqueue (h : RoomHandle) (cmd : RoomCommand) : M (House W) string unit :=
  λ ho, match ho_tasks ho !! handle_sender h with
        | None => (ho, Err actor_gone)
        | Some t =>
            (mkHouse (ho_world ho) (<[handle_sender h := task_enqueue cmd t]> (ho_tasks ho))
               (ho_next_task ho) (ho_next_reply ho), Ok tt)
        end.

(** [rx.recv().await] and the handling of what it gives, if there is something: one turn
    of the actor's loop. *)
Definition task_turn (w : W) (t : Task) : W * Task :=
  match tk_mailbox t with
  | [] => (w, t)
  | cmd :: rest =>
      let a := receive (tk_room_id t) queue_capacity config cmd (mkActor w (tk_room t) rest (tk_out t)) in
      (ac_world a, mkTask (tk_room_id t) (ac_room a) (ac_mailbox a) (ac_out a))
  end.
Fixpoint task_turns (n : nat) (w : W) (t : Task) : W * Task :=
  match n with
  | O => (w, t)
  | S n => let '(w, t) := task_turn w t in task_turns n w t
  end.
(** The actor works off what is in its mailbox; what it sends itself meanwhile stays. *)
Definition task_serve (w : W) (t : Task) : W * Task := task_turns (length (tk_mailbox t)) w t.

(** A task runs in its house. *)
Definition house_run (step : W → Task → W * Task) (h : RoomHandle) (ho : House W) : House W :=
  match ho_tasks ho !! handle_sender h with
  | None => ho
  | Some t =>
      let '(w, t) := step (ho_world ho) t in
      mkHouse w (<[handle_sender h := t]> (ho_tasks ho)) (ho_next_task ho) (ho_next_reply ho)
  end.
Definition house_turn : RoomHandle → House W → House W := house_run task_turn.
Definition house_work : RoomHandle → House W → House W := house_run task_serve.

(** The schedule on which a sender goes on when the actor has worked off its mailbox.
    Other schedules are steps of their own, of [house_enqueue] and [house_turn], in
    [RoomRequests]. *)
Definition house_send (h : RoomHandle) (cmd : RoomCommand) : M (House W) string unit :=
  house_enqueue h cmd;; modify (house_work h).

(** The reply sent to an address. *)
Definition reply_to (to : ReplyTo) (out : list RoomOutput) : option RoomReply :=
  last (omap (λ o, match o with
                   | Reply to' r => if to' =? to then Some r else None
                   | _ => None
                   end) out).

Definition house_ask (h : RoomHandle) (question : ReplyTo → RoomCommand)
    : M (House W) string RoomReply :=
  λ ho,
    let to := ho_next_reply ho in
    let ho := mkHouse (ho_world ho) (ho_tasks ho) (ho_next_task ho) (to + 1) in
    match house_send h (question to) ho with
    | (ho, Err e) => (ho, Err e)
    | (ho, Ok _) =>
        (ho, ok_or reply_dropped
               (ho_tasks ho !! handle_sender h ≫= λ t, reply_to to (tk_out t)))
    end.

#[export] Instance house_actors : RoomActors (House W) := {
  spawn_room := house_spawn;
  send := house_send;
  ask := house_ask;
}.
End House.
