(* ===== verification/RoomService.v ===== *)
(** The application's room service ([app-server/src/room_service_port.rs]) and its
    verifier of request signatures ([rpc_request_signature_verifier.rs]).

    The service keeps four maps behind mutexes: the handles of its rooms, the seats
    that joined through it, the addresses bound through it, and the chain account of
    each room. The rooms themselves, the repository of chain transactions, clocks and
    identifiers are the world [W] around it. *)

From stdpp Require Import base tactics option list gmap strings pretty.
From Stdlib Require Import NArith Lia.
From S2P Require Import Prelude.
From S2P Require Import Text.
From S2P Require Import Domain.
From S2P Require Import Ambient.
From S2P Require Import EngineState.
From S2P Require Import LedgerStore.
From S2P Require Import JsonRpc.
From S2P Require Import AgentAuth.
From S2P Require Import TableService.
From S2P Require Import GatewayTypes.
From S2P Require Import RoomHandles.

Local Open Scope N_scope.

Record RoomChainAccount := mkChainAccount { ca_address : string; ca_private_key_hex : string }.

Record AppRoomService := mkRoomService {
  rooms : Mutex (gmap RoomId RoomHandle);
  joined_seats : Mutex (gmap RoomId (gset SeatId));
  bound_addresses : Mutex (gmap RoomId (gmap SeatId string));
  room_chain_accounts : Mutex (gmap RoomId RoomChainAccount);
}.
Definition AppRoomService_new : AppRoomService :=
  mkRoomService (mkMutex false ∅) (mkMutex false ∅) (mkMutex false ∅) (mkMutex false ∅).

(** [EvmSigningKey::random(&mut OsRng)] and [signing_key.to_bytes()]. *)
Class RandomKeys `{Secp256k1} (W : Type) := {
  random_signing_key : W → W * SigningKey;
  signing_key_to_bytes : SigningKey → list N;
}.

(** A row of the table [rooms]; [persist] runs the statement of [upsert_room_record]. *)
Record RoomRow := mkRoomRow {
  row_room_id : RoomId;
  row_room_status : string;
  row_dealer_address : string;
  row_small_blind : string;
  row_big_blind : string;
  row_min_buy_in : string;
  row_max_players : N;
  row_step_timeout_ms : N;
  row_rake_bps : N;
}.

(** [room_actor_config_from_env], with the two variables of the environment. *)
Definition room_actor_config_from_env (endpoint confirmations : option string) : RoomActorConfig :=
  mkRoomActorConfig
    (match endpoint with
     | Some v => if String.eqb (trim v) "" then None else Some v
     | None => None
     end)
    (N.max 1 (default 1 (confirmations ≫= λ v,
       match parse_u128_dec v with
       | Ok n => if n <=? u64_max then Some n else None
       | Err _ => None
       end))).

Section Service.
Context {CO : CardOps} {W : Type} {RA : RoomActors W} {CT : ChainTxRepository W}.
Context {CK : Clock W} {FI : FreshIds W} {SK : Secp256k1} {RK : RandomKeys W}.
(** [db_pool] *)
Context (persist : option (RoomRow → M W string unit)).

Abbreviation S A := (M (AppRoomService * W) RpcGatewayError A) (only parsing).

Definition service : S AppRoomService := λ s, (s, Ok (fst s)).
Definition update_service (f : AppRoomService → AppRoomService) : S unit :=
  modify (λ '(v, w), (f v, w)).
Definition world {A} (m : M W RpcGatewayError A) : S A :=
  λ '(v, w), let '(w, r) := m w in ((v, w), r).
Definition draw_world {A} (f : W → W * A) : S A :=
  λ '(v, w), let '(w, x) := f w in ((v, w), Ok x).

Definition set_rooms m v := mkRoomService (store (rooms v) m) (joined_seats v) (bound_addresses v)
  (room_chain_accounts v).
Definition set_joined m v := mkRoomService (rooms v) (store (joined_seats v) m) (bound_addresses v)
  (room_chain_accounts v).
Definition set_bound m v := mkRoomService (rooms v) (joined_seats v) (store (bound_addresses v) m)
  (room_chain_accounts v).
Definition set_accounts m v := mkRoomService (rooms v) (joined_seats v) (bound_addresses v)
  (store (room_chain_accounts v) m).

(** [lock().map_err(|_| RpcGatewayError::Upstream(message))] *)
Definition locked {A} (message : string) (m : Mutex A) : S A :=
  lift_result (result_map_err (λ _, Upstream message) (lock m)).
Definition lock_rooms : S (gmap RoomId RoomHandle) :=
  v ← service; locked "room map lock poisoned" (rooms v).
Definition lock_joined : S (gmap RoomId (gset SeatId)) :=
  v ← service; locked "joined seat map lock poisoned" (joined_seats v).
Definition lock_bound : S (gmap RoomId (gmap SeatId string)) :=
  v ← service; locked "bound address map lock poisoned" (bound_addresses v).
Definition lock_accounts : S (gmap RoomId RoomChainAccount) :=
  v ← service; locked "room chain account map lock poisoned" (room_chain_accounts v).

(** ** Rooms and their accounts *)

Definition ensure_room_chain_account (room_id : RoomId) : S (string * string) :=
  accounts ← lock_accounts;
  match accounts !! room_id with
  | Some a => mret (ca_address a, ca_private_key_hex a)
  | None =>
      signing_key ← draw_world random_signing_key;
      let address := evm_address_from_secp256k1_verifying_key (verifying_key signing_key) in
      let private_key_hex := hex_encode (signing_key_to_bytes signing_key) in
      update_service (set_accounts (<[room_id := mkChainAccount address private_key_hex]> accounts));;
      mret (address, private_key_hex)
  end.

Definition ensure_room (room_id : RoomId) : S RoomHandle :=
  guard ← lock_rooms;
  match guard !! room_id with
  | Some handle => mret handle
  | None =>
      handle ← draw_world (spawn_room room_id);
      update_service (set_rooms (<[room_id := handle]> guard));;
      ensure_room_chain_account room_id;;
      mret handle
  end.

Definition get_room (room_id : RoomId) : S RoomHandle :=
  guard ← lock_rooms;
  lift_result (ok_or RoomNotFound (guard !! room_id)).

Definition room_ids : S (list RoomId) :=
  guard ← lock_rooms; mret (map_to_list guard).*1.

Definition room_chain_address (room_id : RoomId) : S (option string) :=
  accounts ← lock_accounts; mret (ca_address <$> accounts !! room_id).

Definition room_chain_signer (room_id : RoomId) : S (option (string * string)) :=
  accounts ← lock_accounts;
  mret ((λ a, (ca_address a, ca_private_key_hex a)) <$> accounts !! room_id).

Definition bound_seat_addresses (room_id : RoomId) : S (gmap SeatId string) :=
  all ← lock_bound; mret (default ∅ (all !! room_id)).
Definition bound_seat_address (room_id : RoomId) (seat_id : SeatId) : S (option string) :=
  all ← lock_bound; mret (all !! room_id ≫= λ m, m !! seat_id).

(** [handle.method(..).await.map_err(RpcGatewayError::Upstream)] *)
Definition upstream {A} (m : M W string A) : S A := world (M_map_err Upstream m).

Definition get_engine_state (room_id : RoomId) : S (option EngineState) :=
  room ← get_room room_id;
  upstream (room_get_engine_state room).

Definition ensure_joined (room_id : RoomId) (seat_id : SeatId) : S unit :=
  joined ← lock_joined;
  match joined !! room_id with
  | Some seats =>
      if bool_decide (seat_id ∈ seats) then mret tt
      else throw (Upstream ("seat " +:+ pretty seat_id +:+ " must call room.join before bind/ready"))
  | None =>
      throw (Upstream ("seat " +:+ pretty seat_id +:+ " must call room.join before bind/ready"))
  end.

Definition upsert_room_record (room_id : RoomId) : S unit :=
  match persist with
  | None => mret tt
  | Some persist =>
      address ← room_chain_address room_id;
      world (M_map_err (λ e, Upstream ("persist room row failed: " +:+ e))
        (persist (mkRoomRow room_id "active" (default "unknown"%string address)
           "100000000000000" "200000000000000" "1000000000000000" 9 360000 300)))
  end.

(** ** The port *)

Definition create_room (request : RoomCreateRequest) : S RoomSummary :=
  room_id ← match rc_room_id request with
            | Some room_id => mret room_id
            | None => draw_world fresh_uuid
            end;
  ensure_room room_id;;
  upsert_room_record room_id;;
  chain_address ← room_chain_address room_id;
  mret (mkRoomSummary room_id "active" chain_address).

Definition list_rooms (_ : RoomListRequest) : S (list RoomSummary) :=
  guard ← lock_rooms;
  v ← service;
  mret ((λ room_id, mkRoomSummary room_id "active"
           (lock_or (room_chain_accounts v) None (λ m, ca_address <$> m !! room_id)))
        <$> (map_to_list guard).*1).

(** [joined.entry(request.room_id).or_default().insert(request.seat_id)], under its lock. *)
Definition note_joined (request : RoomReadyRequest) : S unit :=
  joined ← lock_joined;
  update_service (set_joined
    (<[rr_room_id request := {[rr_seat_id request]} ∪ default ∅ (joined !! rr_room_id request)]>
       joined)).

Definition join (request : RoomReadyRequest) : S unit :=
  room ← get_room (rr_room_id request);
  upstream (room_join room (rr_seat_id request));;
  note_joined request.

Definition ready (request : RoomReadyRequest) : S unit :=
  ensure_joined (rr_room_id request) (rr_seat_id request);;
  room ← get_room (rr_room_id request);
  upstream (room_ready room (rr_seat_id request)).

(** [all.entry(request.room_id).or_default().insert(request.seat_id, ..)], in the block
    that holds its lock. *)
Definition note_address (request : RoomBindAddressRequest) : S unit :=
  all ← lock_bound;
  update_service (set_bound
    (<[ba_room_id request :=
         <[ba_seat_id request := ba_seat_address request]> (default ∅ (all !! ba_room_id request))]>
       all)).

Definition bind_address (request : RoomBindAddressRequest) : S unit :=
  ensure_joined (ba_room_id request) (ba_seat_id request);;
  room ← get_room (ba_room_id request);
  note_address request;;
  upstream (room_bind_address room (ba_seat_id request) (ba_seat_address request)).

Definition bind_session_keys (request : RoomBindSessionKeysRequest) : S unit :=
  ensure_joined (bk_room_id request) (bk_seat_id request);;
  room ← get_room (bk_room_id request);
  upstream (room_bind_session_keys room (bk_seat_id request) (bk_card_encrypt_pubkey request)
              (bk_request_verify_pubkey request) (bk_key_algo request)
              (bk_proof_signature request)).

Definition get_state (request : GameGetStateRequest) : S (option HandSnapshot) :=
  room ← get_room (gs_room_id request);
  upstream (room_get_state room).

Definition get_legal_actions (room_id : RoomId) (seat_id : SeatId) : S (list LegalAction) :=
  room ← get_room room_id;
  upstream (room_get_legal_actions room seat_id).

Definition get_private_payloads (request : GameGetPrivatePayloadsRequest)
    : S (list PrivatePayloadEvent) :=
  room ← get_room (gp_room_id request);
  events ← upstream (room_get_private_events room (gp_seat_id request) (gp_hand_id request));
  mret ((λ ev, mkPrivatePayload (sp_room_id ev) (sp_hand_id ev) (sp_seat_id ev)
                 (sp_event_name ev) (sp_payload ev)) <$> events).

(** An action that names a transaction is bound to it and queued; any other is played. *)
Definition act (request : GameActRequest) : S unit :=
  room ← get_room (ga_room_id request);
  action ← lift_result (to_player_action request);
  match ga_tx_hash request with
  | Some tx_hash =>
      created_at ← draw_world (λ w, (w, utc_now w));
      trace_id ← draw_world fresh_uuid;
      world (M_map_err (λ e, Upstream (ledger_error_text e))
        (insert_tx_binding
           (mkTxBindingInsert tx_hash (ga_room_id request) (ga_hand_id request)
              (ga_seat_id request) (ga_action_seq request) (pa_amount action) "submitted"
              created_at trace_id)));;
      upstream (room_queue_pending_chain_action room tx_hash action)
  | None =>
      upstream (room_act room action);;
      mret tt
  end.

#[export] Instance app_room_service : RoomServicePort (AppRoomService * W) := {
  svc_create_room := create_room;
  svc_list_rooms := list_rooms;
  svc_join := join;
  svc_ready := ready;
  svc_bind_address := bind_address;
  svc_bind_session_keys := bind_session_keys;
  svc_get_state := get_state;
  svc_get_legal_actions := get_legal_actions;
  svc_get_private_payloads := get_private_payloads;
  svc_act := act;
}.

(** ** Request signatures *)

Section Verifier.
Context {HD : HexDecode} {UT : UuidText} {JT : JsonText} {DT : DateTimeText}.

Definition nil_session : SessionId := 0.

(** The message of a request and the verification of its signature. *)
Definition verify_signed_message (address : string) (input : SigningMessageInput)
    : result string unit :=
  message ← result_map_err auth_error_text (build_signing_message input);
  result_map_err auth_error_text
    (verify_evm_personal_signature address (bytes_of_string message) (rm_signature (sm_meta input))).

Definition bind_address_input (request : RoomBindAddressRequest) : SigningMessageInput :=
  mkSigningInput "room.bind_address" nil_session (Some (ba_room_id request)) None None
    (JObj [("seat_id", json_N (ba_seat_id request));
           ("seat_address", JStr (ba_seat_address request))])
    (ba_request_meta request).
Definition bind_session_keys_input (request : RoomBindSessionKeysRequest) : SigningMessageInput :=
  mkSigningInput "room.bind_session_keys" nil_session (Some (bk_room_id request)) None None
    (JObj [("seat_id", json_N (bk_seat_id request));
           ("seat_address", JStr (bk_seat_address request));
           ("card_encrypt_pubkey", JStr (bk_card_encrypt_pubkey request));
           ("request_verify_pubkey", JStr (bk_request_verify_pubkey request));
           ("key_algo", JStr (bk_key_algo request));
           ("proof_signature", JStr (bk_proof_signature request))])
    (bk_request_meta request).
Definition room_ready_input (request : RoomReadyRequest) : SigningMessageInput :=
  mkSigningInput "room.ready" nil_session (Some (rr_room_id request)) None None
    (JObj [("seat_id", json_N (rr_seat_id request))]) (rr_request_meta request).
Definition game_act_input (request : GameActRequest) : SigningMessageInput :=
  mkSigningInput "game.act" nil_session (Some (ga_room_id request))
    (Some (uuid_text (ga_hand_id request))) (Some (ga_action_seq request))
    (JObj [("seat_id", json_N (ga_seat_id request));
           ("action_type", JStr (ga_action_type request));
           ("amount", json_opt JStr (ga_amount request));
           ("tx_hash", json_opt JStr (ga_tx_hash request))])
    (ga_request_meta request).

(** [bound_seat_address(..).map_err(|e| e.to_string())?.ok_or_else(..)] *)
Definition seat_address_of (room_id : RoomId) (seat_id : SeatId)
    : M (AppRoomService * W) string string :=
  address ← M_map_err gateway_error_text (bound_seat_address room_id seat_id);
  lift_result (ok_or "missing bound seat address"%string address).

Definition app_verify_bind_address (request : RoomBindAddressRequest)
    : M (AppRoomService * W) string unit :=
  lift_result (verify_signed_message (ba_seat_address request) (bind_address_input request)).
Definition app_verify_bind_session_keys (request : RoomBindSessionKeysRequest)
    : M (AppRoomService * W) string unit :=
  lift_result (verify_signed_message (bk_seat_address request) (bind_session_keys_input request)).
Definition app_verify_room_ready (request : RoomReadyRequest) : M (AppRoomService * W) string unit :=
  seat_address ← seat_address_of (rr_room_id request) (rr_seat_id request);
  lift_result (verify_signed_message seat_address (room_ready_input request)).
Definition app_verify_game_act (request : GameActRequest) : M (AppRoomService * W) string unit :=
  seat_address ← seat_address_of (ga_room_id request) (ga_seat_id request);
  lift_result (verify_signed_message seat_address (game_act_input request)).

Definition AppRpcRequestSignatureVerifier : RequestSignatureVerifier (AppRoomService * W) :=
  mkVerifier app_verify_bind_address app_verify_bind_session_keys app_verify_room_ready
    app_verify_game_act.
End Verifier.
End Service.
