(* ===== verification/RoomHandlesProps.v ===== *)
(** What a room keeps track of for its handle: the seats and their addresses after
    each command, and what a task does to the rest of the process. *)

From stdpp Require Import base tactics option list gmap strings.
From Stdlib Require Import NArith Lia.
From S2P Require Import Prelude.
From S2P Require Import Ambient.
From S2P Require Import Text.
From S2P Require Import Domain.
From S2P Require Import EngineState.
From S2P Require Import Engine.
From S2P Require Import LedgerStore.
From S2P Require Import JsonRpc.
From S2P Require Import SeatCrypto.
From S2P Require Import TableService.
From S2P Require Import RoomLogic.
From S2P Require Import RoomHandles.

Local Open Scope N_scope.

Section Seats.
Context {CO : CardOps} {W : Type}.
Context {CK : Clock W} {FI : FreshIds W} {MC : MonotonicClock W} {SH : Shuffler W}.
Context {CR : SeatCryptoPrimitives} {UT : UuidText} {ES : EphemeralSecrets W} {RC : RoomCodec}.
Context {TR : JsonRpcTransport W}.
Context (room_id : RoomId) (config : RoomActorConfig).

(** Steps that keep the seats and the addresses, and put at most callbacks of
    observed transactions into the mailbox. *)
Record aside (a a' : Actor W) : Prop := {
  as_seated : rs_seated (ac_room a') = rs_seated (ac_room a);
  as_bound : rs_bound_addresses (ac_room a') = rs_bound_addresses (ac_room a);
  as_mailbox : ∃ cbs, ac_mailbox a' = ac_mailbox a ++ map ChainTxVerified cbs;
}.
#[local] Instance aside_preorder : PreOrder aside.
Proof.
  split; [split; [done|done|by exists []; rewrite app_nil_r]|].
  intros a b c [H1 H2 [l H3]] [H4 H5 [l' H6]]. split; [congruence|congruence|].
  exists (l ++ l'). by rewrite H6, H3, map_app, app_assoc.
Qed.

Lemma aside_same_mailbox (a a' : Actor W) :
  rs_seated (ac_room a') = rs_seated (ac_room a) →
  rs_bound_addresses (ac_room a') = rs_bound_addresses (ac_room a) →
  ac_mailbox a' = ac_mailbox a → aside a a'.
Proof. intros H1 H2 H3. split; [done|done|]. exists []. by rewrite H3, app_nil_r. Qed.

Lemma aside_output o (a : Actor W) : moves aside (output o) a.
Proof. by apply aside_same_mailbox. Qed.
Lemma aside_draw {A} (f : W → W * A) (a : Actor W) : moves aside (draw f) a.
Proof. unfold moves, draw. destruct (f _). by apply aside_same_mailbox. Qed.
Lemma aside_outside {E A} (m : M W E A) (a : Actor W) : moves aside (outside m) a.
Proof. unfold moves, outside. destruct (m _). by apply aside_same_mailbox. Qed.
Lemma aside_engine {A} (m : M EngineState EngineError A) (a : Actor W) : moves aside (engine m) a.
Proof. unfold moves, engine. destruct (m _). by apply aside_same_mailbox. Qed.
Lemma aside_room f (a : Actor W) :
  (∀ r, rs_seated (f r) = rs_seated r ∧ rs_bound_addresses (f r) = rs_bound_addresses r) →
  moves aside (modify_room f) a.
Proof. intros Hf. destruct (Hf (ac_room a)). by apply aside_same_mailbox. Qed.
Lemma aside_try_send cb (a : Actor W) : moves aside (try_send queue_capacity (ChainTxVerified cb)) a.
Proof.
  unfold moves, try_send, modify. cbn [fst]. case_match; [|by apply aside_same_mailbox].
  split; [done|done|]. by exists [cb].
Qed.

Ltac aside_leaf :=
  idtac; first [ apply aside_output | apply aside_draw | apply aside_outside | apply aside_engine
               | apply aside_try_send | apply aside_room; by intros [] | case_match ].
Ltac unfold_handlers :=
  unfold handle_join, handle_leave, handle_bind_address, handle_bind_session_keys, handle_ready,
    handle_act, handle_queue_pending, handle_chain_tx_verified, handle_complete_settlement,
    handle_turn_timeout, handle_turn_reminder, handle_scheduler_tick, announce_hand, publish_hand,
    build_hole_cards_private_events, hole_cards_event, apply_pending, verify_all_pending,
    verify_pending, watch_current_turn, watch_turn, remind, close_and_announce, fold_for_timeout,
    play, emit_post_action_hand_events, append_hand_event, new_hand_event, record_behavior,
    instant, utc, bump_generation, clear_scheduler.

Definition moves_seats (cmd : RoomCommand) : bool :=
  match cmd with Join _ | Leave _ | BindAddress _ _ => true | _ => false end.

Lemma aside_handle cmd a :
  moves_seats cmd = false → moves aside (handle room_id queue_capacity config cmd) a.
Proof.
  intros Hcmd. destruct cmd; try discriminate Hcmd; cbn [handle]; unfold_handlers;
    room_moves aside_leaf.
Qed.

Lemma aside_behavior kind (a : Actor W) : moves aside (record_behavior room_id kind) a.
Proof. unfold_handlers. room_moves aside_leaf. Qed.

(** The seats and their addresses after a command. *)
Definition seats_after (cmd : RoomCommand) (s : gset SeatId * gmap SeatId string)
    : gset SeatId * gmap SeatId string :=
  let '(seated, bound) := s in
  match cmd with
  | Join seat => ({[seat]} ∪ seated, bound)
  | Leave seat => (seated ∖ {[seat]}, delete seat bound)
  | BindAddress seat address =>
      (seated, if bool_decide (seat ∈ seated) then <[seat := address]> bound else bound)
  | _ => s
  end.
Definition seats_of (r : RoomState) : gset SeatId * gmap SeatId string :=
  (rs_seated r, rs_bound_addresses r).

Lemma aside_seats (a a' : Actor W) : aside a a' → seats_of (ac_room a') = seats_of (ac_room a).
Proof. intros [H1 H2 _]. unfold seats_of. by rewrite H1, H2. Qed.

Lemma seats_handle cmd a :
  let a' := fst (handle room_id queue_capacity config cmd a) in
  seats_of (ac_room a') = seats_after cmd (seats_of (ac_room a)) ∧
  ∃ cbs, ac_mailbox a' = ac_mailbox a ++ map ChainTxVerified cbs.
Proof.
  cbv zeta. destruct (moves_seats cmd) eqn:Hcmd.
  2: { pose proof (aside_handle cmd a Hcmd) as Ha. unfold moves in Ha.
       split; [|by apply (as_mailbox _ _ Ha)]. rewrite (aside_seats _ _ Ha). by destruct cmd. }
  destruct cmd as [seat|seat|seat address| | | | | | | | | | | | |]; try discriminate Hcmd; cbn [handle];
    clear Hcmd; unfold handle_join, handle_leave, handle_bind_address, modify_room, modify, room; mrun.
  - match goal with |- context [record_behavior room_id ?k ?a0] =>
      pose proof (aside_behavior k a0) as Ha end.
    unfold moves in Ha. split; [by rewrite (aside_seats _ _ Ha)|by apply (as_mailbox _ _ Ha)].
  - match goal with |- context [record_behavior room_id ?k ?a0] =>
      pose proof (aside_behavior k a0) as Ha end.
    unfold moves in Ha. split; [by rewrite (aside_seats _ _ Ha)|by apply (as_mailbox _ _ Ha)].
  - cbn [seats_of seats_after]. destruct (bool_decide _) eqn:Hin.
    + match goal with |- context [record_behavior room_id ?k ?a0] =>
        pose proof (aside_behavior k a0) as Ha end.
      unfold moves in Ha. split; [by rewrite (aside_seats _ _ Ha)|by apply (as_mailbox _ _ Ha)].
    + split; [done|]. exists []. cbn. by rewrite app_nil_r.
Qed.
End Seats.

Section Tasks.
Context {CO : CardOps} {W : Type}.
Context {CK : Clock W} {FI : FreshIds W} {MC : MonotonicClock W} {SH : Shuffler W}.
Context {CR : SeatCryptoPrimitives} {UT : UuidText} {ES : EphemeralSecrets W} {RC : RoomCodec}.
Context {TR : JsonRpcTransport W}.
Context (config : RoomActorConfig).

(** A task keeps only callbacks for later. *)
Definition task_ok (t : Task) : Prop := ∃ cbs, tk_mailbox t = map ChainTxVerified cbs.
Definition task_seats (t : Task) : gset SeatId * gmap SeatId string := seats_of (tk_room t).

(** The seats and addresses when the commands of a list, or what is in the mailbox, have
    been worked off. *)
Definition seats_after_all (cmds : list RoomCommand) (s : gset SeatId * gmap SeatId string)
    : gset SeatId * gmap SeatId string := foldl (λ s cmd, seats_after cmd s) s cmds.
Definition settled_seats (t : Task) : gset SeatId * gmap SeatId string :=
  seats_after_all (tk_mailbox t) (task_seats t).

Lemma seats_after_callbacks cbs s : seats_after_all (map ChainTxVerified cbs) s = s.
Proof. induction cbs as [|cb cbs IH]; [done|]. cbn. by destruct s. Qed.
Lemma seats_after_app l l' s : seats_after_all (l ++ l') s = seats_after_all l' (seats_after_all l s).
Proof. apply foldl_app. Qed.

(** The actor takes the head of its mailbox. *)
Lemma task_turn_head (w : W) t cmd rest w' t' :
  tk_mailbox t = cmd :: rest → task_turn config w t = (w', t') →
  tk_room_id t' = tk_room_id t ∧ task_seats t' = seats_after cmd (task_seats t) ∧
  ∃ cbs, tk_mailbox t' = rest ++ map ChainTxVerified cbs.
Proof.
  unfold task_turn. intros -> [= <- <-]. split; [done|].
  destruct (seats_handle (tk_room_id t) config cmd (mkActor w (tk_room t) rest (tk_out t)))
    as [Hs Hm]. by split.
Qed.

(** It takes the commands of its mailbox in their order. *)
Lemma task_turns_prefix m : ∀ rest (w : W) t w' t',
  tk_mailbox t = m ++ rest → task_turns config (length m) w t = (w', t') →
  tk_room_id t' = tk_room_id t ∧ task_seats t' = seats_after_all m (task_seats t) ∧
  ∃ cbs, tk_mailbox t' = rest ++ map ChainTxVerified cbs.
Proof.
  induction m as [|cmd m IH]; intros rest w t w' t' Hm; cbn [length task_turns].
  - intros [= <- <-]. split; [done|]. split; [done|]. exists []. by rewrite app_nil_r.
  - destruct (task_turn config w t) as [w1 t1] eqn:Hturn. intros Hrun.
    destruct (task_turn_head w t cmd (m ++ rest) w1 t1 Hm Hturn) as (Hid & Hs & cbs & Hm1).
    rewrite <- app_assoc in Hm1. destruct (IH _ _ _ _ _ Hm1 Hrun) as (Hid' & Hs' & cbs' & Hm').
    split; [congruence|]. split; [by rewrite Hs', Hs|].
    exists (cbs ++ cbs'). by rewrite Hm', map_app, app_assoc.
Qed.

(** Working the head off does not change what the whole mailbox comes to. *)
Lemma task_turn_settled (w : W) t w' t' :
  task_turn config w t = (w', t') →
  tk_room_id t' = tk_room_id t ∧ settled_seats t' = settled_seats t ∧
  ∃ cbs, tk_mailbox t' = tail (tk_mailbox t) ++ map ChainTxVerified cbs.
Proof.
  destruct (tk_mailbox t) as [|cmd rest] eqn:Hm; intros Hturn.
  - unfold task_turn in Hturn. rewrite Hm in Hturn. injection Hturn as <- <-.
    split; [done|]. split; [done|]. by exists [].
  - destruct (task_turn_head w t cmd rest w' t' Hm Hturn) as (Hid & Hs & cbs & Hm').
    split; [done|]. split; [|by exists cbs]. unfold settled_seats.
    by rewrite Hm', Hm, Hs, seats_after_app, seats_after_callbacks.
Qed.

Lemma task_turns_add n m (w : W) t :
  task_turns config (n + m) w t
  = let '(w, t) := task_turns config n w t in task_turns config m w t.
Proof.
  revert w t. induction n as [|n IH]; intros w t; [done|]. cbn [Nat.add task_turns].
  destruct (task_turn config w t). apply IH.
Qed.

Lemma task_serve_seats (w : W) t cmd w' t' :
  task_ok t → task_serve config w (task_enqueue cmd t) = (w', t') →
  task_ok t' ∧ tk_room_id t' = tk_room_id t ∧ task_seats t' = seats_after cmd (task_seats t).
Proof.
  intros [cbs Hm]. unfold task_serve. intros Hrun.
  destruct (task_turns_prefix _ [] w (task_enqueue cmd t) w' t'
    (eq_sym (app_nil_r _)) Hrun) as (Hid & Hs & kept & Hm').
  split; [by exists kept|]. split; [done|].
  rewrite Hs. unfold task_enqueue. cbn [tk_mailbox]. by rewrite Hm, seats_after_app, seats_after_callbacks.
Qed.

(** What sending a command and waiting for the actor does to the tasks. *)
Lemma house_send_run h cmd (ho : House W) :
  house_send config h cmd ho
  = match ho_tasks ho !! handle_sender h with
    | None => (ho, Err actor_gone)
    | Some t =>
        let '(w, t') := task_serve config (ho_world ho) (task_enqueue cmd t) in
        (mkHouse w (<[handle_sender h := t']> (ho_tasks ho)) (ho_next_task ho) (ho_next_reply ho),
         Ok tt)
    end.
Proof.
  unfold house_send, house_enqueue. mrun. destruct (ho_tasks ho !! handle_sender h) as [t|]; [|done].
  unfold modify, house_work, house_run. cbn [ho_tasks ho_world ho_next_task ho_next_reply].
  rewrite lookup_insert_eq. destruct (task_serve _ _ _) as [w t']. by rewrite insert_insert_eq.
Qed.
(** A room with an empty mailbox. *)
Lemma task_serve_idle (w : W) t cmd :
  tk_mailbox t = [] →
  task_serve config w (task_enqueue cmd t)
  = let a := receive (tk_room_id t) queue_capacity config cmd (mkActor w (tk_room t) [] (tk_out t)) in
    (ac_world a, mkTask (tk_room_id t) (ac_room a) (ac_mailbox a) (ac_out a)).
Proof. destruct t as [id r m out]. by intros [= ->]. Qed.

Lemma house_send_cases h cmd (ho ho' : House W) r :
  house_send config h cmd ho = (ho', r) →
  match ho_tasks ho !! handle_sender h with
  | None => ho' = ho ∧ r = Err actor_gone
  | Some t => ∃ w t', task_serve config (ho_world ho) (task_enqueue cmd t) = (w, t') ∧ r = Ok tt ∧
      ho' = mkHouse w (<[handle_sender h := t']> (ho_tasks ho)) (ho_next_task ho) (ho_next_reply ho)
  end.
Proof.
  rewrite house_send_run. destruct (ho_tasks ho !! handle_sender h) as [t|]; [|by intros [= <- <-]].
  destruct (task_serve _ _ _) as [w t']. intros [= <- <-]. by exists w, t'.
Qed.

(** An action that is to wait: it waits under its transaction, and the reply says so. *)
Lemma queue_run room_id tx action to (a : Actor W) :
  let a' := fst (handle_queue_pending room_id tx action to a) in
  (∃ queued_at, rs_pending_chain_actions (ac_room a')
                = <[tx := mkPending action queued_at None]> (rs_pending_chain_actions (ac_room a))) ∧
  ∃ out, ac_out a' = out ++ [Reply to (ReplyQueued (Ok tt))].
Proof.
  unfold handle_queue_pending, modify_room, instant, draw, modify, output. mrun. cbn [fst].
  match goal with |- context [record_behavior room_id ?k ?a0] =>
    pose proof (quiet_record_behavior room_id k a0) as Hq;
    unfold moves in Hq; destruct (record_behavior room_id k a0) as [a1 [[]|[]]] end.
  cbn in *. split; [|by eexists]. exists (instant_now (ac_world a)). by rewrite (quiet_pending _ _ Hq).
Qed.

Lemma reply_to_last to r out : reply_to to (out ++ [Reply to r]) = Some r.
Proof. unfold reply_to. rewrite omap_app. cbn. rewrite N.eqb_refl. by rewrite last_snoc. Qed.

Lemma house_queue_run h t tx action (ho : House W) :
  ho_tasks ho !! handle_sender h = Some t →
  ∃ ho' t' queued_at,
    house_ask config h (QueuePendingChainAction tx action) ho = (ho', Ok (ReplyQueued (Ok tt))) ∧
    ho_tasks ho' !! handle_sender h = Some t' ∧
    rs_pending_chain_actions (tk_room t') !! tx = Some (mkPending action queued_at None).
Proof.
  intros Ht. unfold house_ask. rewrite house_send_run. cbn [ho_tasks ho_world ho_next_task]. rewrite Ht.
  set (to := ho_next_reply ho). unfold task_serve.
  destruct (task_turns config (length _) (ho_world ho) _) as [w2 t2] eqn:Hrun.
  change (tk_mailbox (task_enqueue (QueuePendingChainAction tx action to) t))
    with (tk_mailbox t ++ [QueuePendingChainAction tx action to]) in Hrun.
  rewrite length_app, task_turns_add in Hrun.
  destruct (task_turns config (length (tk_mailbox t)) (ho_world ho) _) as [w1 t1] eqn:Hrun1.
  eapply (task_turns_prefix (tk_mailbox t) [_]) in Hrun1 as (Hid & _ & cbs & Hm); [|reflexivity].
  cbn [length task_turns] in Hrun. unfold task_turn in Hrun. rewrite Hm in Hrun. cbn [app] in Hrun.
  pose proof (queue_run (tk_room_id t1) tx action to
    (mkActor w1 (tk_room t1) (map ChainTxVerified cbs) (tk_out t1))) as [[queued_at Hp] [out Hout]].
  unfold receive in Hrun. cbn [handle] in Hrun. injection Hrun as <- <-.
  eexists _, _, queued_at. split; [|split].
  - f_equal. cbn [ho_tasks]. rewrite lookup_insert_eq. cbn. rewrite Hout. by rewrite reply_to_last.
  - cbn. apply lookup_insert_eq.
  - cbn. rewrite Hp. apply lookup_insert_eq.
Qed.
End Tasks.
