(* ===== verification/RoomServiceProps.v ===== *)
(** The room service over the rooms of its process: what it believes about seats and
    addresses is what its rooms know, and every room has a chain account of its own. *)

From stdpp Require Import base tactics option list gmap strings relations.
From Stdlib Require Import NArith Lia.
From S2P Require Import Prelude.
From S2P Require Import Ambient.
From S2P Require Import Text.
From S2P Require Import Domain.
From S2P Require Import EngineState.
From S2P Require Import LedgerStore.
From S2P Require Import JsonRpc.
From S2P Require Import AgentAuth.
From S2P Require Import SeatCrypto.
From S2P Require Import TableService.
From S2P Require Import GatewayTypes.
From S2P Require Import RoomHandles.
From S2P Require Import RoomHandlesProps.
From S2P Require Import RoomService.
From S2P Require Import AgentAuthProps.
From S2P Require Import RoomDemo.

Local Open Scope N_scope.

Section Server.
Context {CO : CardOps} {W : Type}.
Context {CK : Clock W} {FI : FreshIds W} {MC : MonotonicClock W} {SH : Shuffler W}.
Context {CR : SeatCryptoPrimitives} {UT : UuidText} {ES : EphemeralSecrets W} {RC : RoomCodec}.
Context {TR : JsonRpcTransport W} {CT : ChainTxRepository W}.
Context {SK : Secp256k1} {RK : RandomKeys W}.
Context (config : RoomActorConfig).

(** What the service needs of the world beside its rooms. *)
Definition on_world {E A} (m : M W E A) : M (House W) E A :=
  λ ho, let '(w, r) := m (ho_world ho) in
        (mkHouse w (ho_tasks ho) (ho_next_task ho) (ho_next_reply ho), r).
Definition draw_house {A} (f : W → W * A) (ho : House W) : House W * A :=
  let '(w, x) := f (ho_world ho) in
  (mkHouse w (ho_tasks ho) (ho_next_task ho) (ho_next_reply ho), x).

#[export] Instance house_clock : Clock (House W) := {| utc_now ho := utc_now (ho_world ho) |}.
#[export] Instance house_ids : FreshIds (House W) := {| fresh_uuid := draw_house fresh_uuid |}.
#[export] Instance house_chain_tx : ChainTxRepository (House W) := {|
  upsert_tx_verification r := on_world (upsert_tx_verification r);
  insert_tx_binding r := on_world (insert_tx_binding r);
  upsert_exception_credit r := on_world (upsert_exception_credit r);
|}.
#[export] Instance house_keys : RandomKeys (House W) := {|
  random_signing_key := draw_house random_signing_key;
  signing_key_to_bytes := signing_key_to_bytes (W := W);
|}.
#[export] Instance house_rooms : RoomActors (House W) := house_actors config.

Context (persist : option (RoomRow → M W string unit)).
Definition house_persist : option (RoomRow → M (House W) string unit) :=
  (λ p row, on_world (p row)) <$> persist.

Abbreviation Server := (AppRoomService * House W)%type (only parsing).

(** ** The invariant *)

Record unlocked (v : AppRoomService) : Prop := {
  ul_rooms : mx_poisoned (rooms v) = false;
  ul_joined : mx_poisoned (joined_seats v) = false;
  ul_bound : mx_poisoned (bound_addresses v) = false;
  ul_accounts : mx_poisoned (room_chain_accounts v) = false;
}.

(** The account of a room was made from a key. *)
Definition account_of_key (a : RoomChainAccount) : Prop :=
  ∃ k, ca_address a = evm_address_from_secp256k1_verifying_key (verifying_key k) ∧
       ca_private_key_hex a = hex_encode (signing_key_to_bytes (W := W) k).

(** One room: its task, and what the service holds about its seats. *)
Record room_agrees (id : RoomId) (joined : option (gset SeatId))
    (bound : option (gmap SeatId string)) (t : Task) : Prop := {
  rg_id : tk_room_id t = id;
  rg_task : task_ok t;
  rg_joined : default ∅ joined ⊆ (task_seats t).1;
  rg_bound : default ∅ bound = (task_seats t).2;
}.

Record agrees (s : Server) : Prop := {
  ag_unlocked : unlocked (fst s);
  ag_rooms : ∀ id h, mx_value (rooms (fst s)) !! id = Some h →
    handle_sender h < ho_next_task (snd s) ∧
    ∃ t, ho_tasks (snd s) !! handle_sender h = Some t ∧
         room_agrees id (mx_value (joined_seats (fst s)) !! id)
           (mx_value (bound_addresses (fst s)) !! id) t;
  ag_nothing : ∀ id, mx_value (rooms (fst s)) !! id = None →
    mx_value (joined_seats (fst s)) !! id = None ∧
    mx_value (bound_addresses (fst s)) !! id = None ∧
    mx_value (room_chain_accounts (fst s)) !! id = None;
  ag_accounts : ∀ id, is_Some (mx_value (rooms (fst s)) !! id) →
    ∃ a, mx_value (room_chain_accounts (fst s)) !! id = Some a ∧ account_of_key a;
}.

(** A step keeps the agreement, the handles and the accounts. *)
Definition keeps (s s' : Server) : Prop :=
  agrees s →
  agrees s' ∧ mx_value (rooms (fst s)) ⊆ mx_value (rooms (fst s')) ∧
  mx_value (room_chain_accounts (fst s)) ⊆ mx_value (room_chain_accounts (fst s')).
#[local] Instance keeps_preorder : PreOrder keeps.
Proof.
  split; [by intros s Hs|]. intros a b c Hab Hbc Ha.
  destruct (Hab Ha) as (Hb & H1 & H2). destruct (Hbc Hb) as (Hc & H3 & H4).
  split; [done|]. split; by etrans.
Qed.

(** What happens in the world leaves the tasks alone. *)
Lemma keeps_world v (ho ho' : House W) :
  ho_tasks ho' = ho_tasks ho → ho_next_task ho' = ho_next_task ho → keeps (v, ho) (v, ho').
Proof. intros Ht Hn [Hu Hr Hno Ha]. split; [|done]. split; cbn in *; rewrite ?Ht, ?Hn; done. Qed.

(** A computation that keeps the agreement, and the rule of sequence. *)
Definition keeping {E A} (m : M Server E A) : Prop := ∀ s, keeps s (fst (m s)).

Lemma keeping_bind {E A B} (m : M Server E A) (k : A → M Server E B) :
  keeping m → (∀ x, keeping (k x)) → keeping (m ≫= k).
Proof.
  intros Hm Hk s. unfold mbind, M_mbind, M_bind. specialize (Hm s).
  destruct (m s) as [s' [x|e]]; [|done]. etrans; [exact Hm|apply Hk].
Qed.
Lemma keeping_pure {E A} (m : M Server E A) : (∀ s, fst (m s) = s) → keeping m.
Proof. intros Hm s. by rewrite Hm. Qed.
Lemma keeping_map_err {E E' A} (f : E → E') (m : M Server E A) : keeping m → keeping (M_map_err f m).
Proof. intros Hm s. unfold M_map_err. specialize (Hm s). by destruct (m s). Qed.
Lemma keeping_draw {A} (f : W → W * A) : keeping (draw_world (draw_house f)).
Proof.
  intros [v ho]. unfold draw_world, draw_house. destruct (f (ho_world ho)) as [w x].
  by apply keeps_world.
Qed.
Lemma keeping_on_world {E A} (m : M W E A) (g : E → RpcGatewayError) :
  keeping (world (M_map_err g (on_world m))).
Proof.
  intros [v ho]. unfold world, M_map_err, on_world. destruct (m (ho_world ho)) as [w r].
  by apply keeps_world.
Qed.

(** ** Messages to the rooms *)

(** One room has moved, and with it at most what the service holds about it. *)
Lemma agrees_room v ho id h t w t' v' nr :
  agrees (v, ho) → mx_value (rooms v) !! id = Some h →
  ho_tasks ho !! handle_sender h = Some t →
  unlocked v' → mx_value (rooms v') = mx_value (rooms v) →
  mx_value (room_chain_accounts v') = mx_value (room_chain_accounts v) →
  (∀ id', id' ≠ id → mx_value (joined_seats v') !! id' = mx_value (joined_seats v) !! id' ∧
                     mx_value (bound_addresses v') !! id' = mx_value (bound_addresses v) !! id') →
  room_agrees id (mx_value (joined_seats v') !! id) (mx_value (bound_addresses v') !! id) t' →
  agrees (v', mkHouse w (<[handle_sender h := t']> (ho_tasks ho)) (ho_next_task ho) nr).
Proof.
  intros [_ Hr Hno Ha] Hid Ht Hu Hrooms Hacc Hother Hok. cbn in *. split; cbn; rewrite ?Hrooms, ?Hacc.
  - done.
  - intros id' h' Hid'. destruct (Hr id' h' Hid') as (Hlt & t0 & Ht0 & Hag). split; [done|].
    destruct (decide (id' = id)) as [->|Hne].
    + rewrite Hid in Hid'. injection Hid' as <-. exists t'. by rewrite lookup_insert_eq.
    + destruct (Hother id' Hne) as [-> ->]. exists t0. rewrite lookup_insert_ne; [done|]. intros Heq.
      destruct (Hr id h Hid) as (_ & t1 & Ht1 & Hag1). rewrite Heq in Ht1.
      rewrite Ht0 in Ht1. injection Ht1 as ->. apply Hne. by rewrite <- (rg_id _ _ _ _ Hag), (rg_id _ _ _ _ Hag1).
  - intros id' Hid'. destruct (decide (id' = id)) as [->|Hne]; [congruence|].
    destruct (Hother id' Hne) as [-> ->]. by apply Hno.
  - done.
Qed.

(** A command that neither removes a seat nor binds an address. *)
Definition harmless (cmd : RoomCommand) : bool :=
  match cmd with Leave _ | BindAddress _ _ => false | _ => true end.

Lemma room_agrees_harmless id j b t t' cmd :
  harmless cmd = true → room_agrees id j b t → task_ok t' → tk_room_id t' = tk_room_id t →
  task_seats t' = seats_after cmd (task_seats t) → room_agrees id j b t'.
Proof.
  intros Hcmd [Hid _ Hj Hb] Hok Hid' Hs. split; [congruence|done|rewrite Hs|rewrite Hs];
    destruct (task_seats t) as [seated bound]; cbn in *; destruct cmd; try done; set_solver.
Qed.

Lemma send_cases id h cmd v ho ho' r :
  agrees (v, ho) → mx_value (rooms v) !! id = Some h → send h cmd ho = (ho', r) →
  r = Ok tt ∧ ∃ t w t', ho_tasks ho !! handle_sender h = Some t ∧
    room_agrees id (mx_value (joined_seats v) !! id) (mx_value (bound_addresses v) !! id) t ∧
    ho' = mkHouse w (<[handle_sender h := t']> (ho_tasks ho)) (ho_next_task ho) (ho_next_reply ho) ∧
    task_ok t' ∧ tk_room_id t' = tk_room_id t ∧ task_seats t' = seats_after cmd (task_seats t).
Proof.
  intros Hag Hid Hsend. apply house_send_cases in Hsend.
  destruct (ag_rooms _ Hag id h Hid) as (_ & t & Ht & Hr). cbn in Ht. rewrite Ht in Hsend.
  destruct Hsend as (w & t' & Hserve & -> & ->). split; [done|]. exists t, w, t'.
  apply task_serve_seats in Hserve as (H1 & H2 & H3); [|apply Hr]. done.
Qed.

Lemma keeps_send id h cmd v (ho ho' : House W) r :
  harmless cmd = true → mx_value (rooms v) !! id = Some h →
  send h cmd ho = (ho', r) → keeps (v, ho) (v, ho').
Proof.
  intros Hcmd Hid Hsend Hag. split; [|done].
  destruct (send_cases _ _ _ _ _ _ _ Hag Hid Hsend) as (_ & t & w & t' & Ht & Hr & -> & Hok & Hid' & Hs).
  eapply agrees_room; [done|done|done|apply (ag_unlocked _ Hag)|done|done|done|].
  by eapply room_agrees_harmless.
Qed.

Lemma keeps_ask id h question v (ho ho' : House W) r :
  (∀ to, harmless (question to) = true) → mx_value (rooms v) !! id = Some h →
  ask h question ho = (ho', r) → keeps (v, ho) (v, ho').
Proof.
  intros Hcmd Hid Hask. cbn in Hask. unfold house_ask in Hask.
  set (ho1 := mkHouse _ _ _ _) in Hask.
  destruct (house_send config h (question (ho_next_reply ho)) ho1) as [ho2 r2] eqn:Hsend.
  etrans; [by apply (keeps_world v ho ho1)|].
  assert (ho' = ho2) as -> by (destruct r2; by injection Hask).
  by eapply (keeps_send id h (question (ho_next_reply ho))).
Qed.

(** ** The operations *)

(** Runs an operation whose locks are free. *)
Ltac run_locks Hu H :=
  rewrite ?(ul_rooms _ Hu), ?(ul_joined _ Hu), ?(ul_bound _ Hu), ?(ul_accounts _ Hu) in H.

Lemma get_room_run v (ho : House W) id :
  unlocked v →
  get_room id (v, ho) = ((v, ho), ok_or RoomNotFound (mx_value (rooms v) !! id)).
Proof.
  intros Hu. unfold get_room, lock_rooms, service, locked, lock. mrun. cbn.
  rewrite (ul_rooms _ Hu). by destruct (_ !! id).
Qed.

(** A question to a room by its identifier. *)
Lemma keeping_room {A} id (k : RoomHandle → M Server RpcGatewayError A) :
  (∀ h v ho, mx_value (rooms v) !! id = Some h → keeps (v, ho) (fst (k h (v, ho)))) →
  keeping (get_room id ≫= k).
Proof.
  intros Hk [v ho] Hag. unfold mbind, M_mbind, M_bind. rewrite get_room_run by apply Hag.
  destruct (mx_value (rooms v) !! id) as [h|] eqn:Hid; [|done]. cbn [ok_or]. by apply Hk.
Qed.

Lemma keeps_upstream {A} (m : M (House W) string A) v ho :
  keeps (v, ho) (v, fst (m ho)) → keeps (v, ho) (fst (upstream m (v, ho))).
Proof. unfold upstream, world, M_map_err. by destruct (m ho). Qed.

Lemma keeps_sent id h cmd v (ho : House W) :
  harmless cmd = true → mx_value (rooms v) !! id = Some h →
  keeps (v, ho) (fst (upstream (send h cmd) (v, ho))).
Proof.
  intros Hcmd Hid. apply keeps_upstream. destruct (send h cmd ho) as [ho' r] eqn:Hs.
  by eapply keeps_send.
Qed.

(** A question and the reading of its reply. *)
Lemma keeps_asked {A} id h question (read : RoomReply → M (House W) string A) v (ho : House W) :
  (∀ to, harmless (question to) = true) → (∀ r ho, fst (read r ho) = ho) →
  mx_value (rooms v) !! id = Some h →
  keeps (v, ho) (fst (upstream (ask h question ≫= read) (v, ho))).
Proof.
  intros Hcmd Hread Hid. apply keeps_upstream. unfold mbind, M_mbind, M_bind.
  destruct (ask h question ho) as [ho' [r|e]] eqn:Hs; [rewrite Hread|]; by eapply keeps_ask.
Qed.

Ltac read_only :=
  intros [v ho]; unfold lock_rooms, lock_joined, lock_bound, lock_accounts, service, locked, lock;
  mrun; cbn; repeat case_match; done.

Lemma ensure_joined_reads id seat (s : Server) : fst (ensure_joined id seat s) = s.
Proof. revert s. unfold ensure_joined. read_only. Qed.
Lemma room_chain_address_reads id (s : Server) : fst (room_chain_address id s) = s.
Proof. revert s. unfold room_chain_address. read_only. Qed.
Lemma list_rooms_reads request (s : Server) : fst (list_rooms request s) = s.
Proof. revert s. unfold list_rooms. read_only. Qed.

(** A new room: its task is empty, and so is what the service holds about it. *)
Definition key_account (k : SigningKey) : RoomChainAccount :=
  mkChainAccount (evm_address_from_secp256k1_verifying_key (verifying_key k))
    (hex_encode (signing_key_to_bytes (W := W) k)).

Lemma spawn_run id (ho : House W) ho' h :
  house_spawn id ho = (ho', h) →
  ∃ t, ho_tasks ho' = <[ho_next_task ho := t]> (ho_tasks ho) ∧ h = mkHandle (ho_next_task ho) ∧
    ho_next_task ho' = ho_next_task ho + 1 ∧ room_agrees id None None t.
Proof.
  unfold house_spawn. intros [= <- <-]. eexists. split; [done|]. split; [done|]. split; [done|].
  unfold spawn_room_actor. destruct (fresh_uuid (ho_world ho)) as [w hand].
  split; [done|by exists []|done|done].
Qed.

Lemma agrees_spawn v ho id ho' h k :
  agrees (v, ho) → mx_value (rooms v) !! id = None → house_spawn id ho = (ho', h) →
  agrees (set_accounts (<[id := key_account k]> (mx_value (room_chain_accounts v)))
            (set_rooms (<[id := h]> (mx_value (rooms v))) v), ho').
Proof.
  intros [Hu Hr Hno Ha] Hid Hspawn. destruct (Hno id Hid) as (Hj & Hb & Hacc). cbn in *.
  apply spawn_run in Hspawn as (t & Ht & -> & Hn & Hag). split; cbn.
  - by destruct Hu.
  - intros id' h' Hid'. rewrite Hn, Ht. destruct (decide (id = id')) as [<-|Hne].
    + rewrite lookup_insert_eq in Hid'. injection Hid' as <-. split; [cbn; lia|].
      exists t. cbn. by rewrite lookup_insert_eq, Hj, Hb.
    + rewrite lookup_insert_ne in Hid' by done. destruct (Hr id' h' Hid') as (Hlt & t' & Ht' & Hag').
      split; [lia|]. exists t'. rewrite lookup_insert_ne by lia. done.
  - intros id' Hid'. destruct (decide (id = id')) as [<-|Hne]; [by rewrite lookup_insert_eq in Hid'|].
    rewrite lookup_insert_ne in Hid' by done. rewrite lookup_insert_ne by done. by apply Hno.
  - intros id' Hid'. destruct (decide (id = id')) as [<-|Hne].
    + eexists. rewrite lookup_insert_eq. split; [done|]. by exists k.
    + rewrite lookup_insert_ne in Hid' by done. rewrite lookup_insert_ne by done. by apply Ha.
Qed.

Lemma ensure_room_run id v (ho : House W) :
  unlocked v → (mx_value (rooms v) !! id = None → mx_value (room_chain_accounts v) !! id = None) →
  ensure_room id (v, ho)
  = match mx_value (rooms v) !! id with
    | Some h => ((v, ho), Ok h)
    | None =>
        let '(ho1, h) := house_spawn id ho in
        let '(ho2, k) := draw_house random_signing_key ho1 in
        ((set_accounts (<[id := key_account k]> (mx_value (room_chain_accounts v)))
            (set_rooms (<[id := h]> (mx_value (rooms v))) v), ho2), Ok h)
    end.
Proof.
  intros Hu Hnone.
  unfold ensure_room, lock_rooms, service, locked, lock. mrun. cbn -[house_spawn]. rewrite (ul_rooms _ Hu).
  destruct (mx_value (rooms v) !! id) as [h|] eqn:Hid; [done|].
  unfold draw_world, update_service. mrun. cbn -[house_spawn].
  destruct (house_spawn id ho) as [ho1 h]. cbn.
  unfold ensure_room_chain_account, lock_accounts, service, locked, lock. mrun. cbn.
  rewrite (ul_accounts _ Hu), Hnone by done. unfold draw_world, update_service. mrun. cbn.
  by destruct (draw_house random_signing_key ho1) as [ho2 k].
Qed.

Lemma keeping_ensure_room id : keeping (ensure_room id).
Proof.
  intros [v ho] Hag. rewrite ensure_room_run; [|apply Hag|intros Hid; by apply (ag_nothing _ Hag)].
  destruct (mx_value (rooms v) !! id) as [h|] eqn:Hid; [done|].
  destruct (house_spawn id ho) as [ho1 h] eqn:Hspawn.
  destruct (draw_house random_signing_key ho1) as [ho2 k] eqn:Hkey. cbn [fst].
  pose proof (agrees_spawn v ho id ho1 h k Hag Hid Hspawn) as Hag'.
  destruct (ag_nothing _ Hag id Hid) as (_ & _ & Hacc). cbn in Hacc.
  split; [|split; by apply insert_subseteq].
  unfold draw_house in Hkey. destruct (random_signing_key (ho_world ho1)) as [w k'].
  injection Hkey as <- <-. by apply (keeps_world _ ho1).
Qed.

(** ** Every operation keeps the agreement *)

Lemma keeping_create_room request : keeping (create_room house_persist request).
Proof.
  unfold create_room. apply keeping_bind; [|intros id; apply keeping_bind; [apply keeping_ensure_room|
    intros _; apply keeping_bind; [|intros _; apply keeping_bind; [|by intros a s]]]].
  - destruct (rc_room_id request); [by intros s|apply keeping_draw].
  - unfold upsert_room_record, house_persist. destruct persist as [p|]; [|by intros s]. cbn [fmap option_fmap option_map].
    apply keeping_bind; [apply keeping_pure, room_chain_address_reads|]. intros a. apply keeping_on_world.
  - apply keeping_pure, room_chain_address_reads.
Qed.

Lemma keeping_list_rooms request : keeping (list_rooms request).
Proof. apply keeping_pure, list_rooms_reads. Qed.

Lemma keeping_ready request : keeping (ready request).
Proof.
  unfold ready. apply keeping_bind; [apply keeping_pure, ensure_joined_reads|]. intros _.
  apply keeping_room. intros h v ho Hid. by eapply keeps_sent.
Qed.

Lemma keeping_bind_session_keys request : keeping (bind_session_keys request).
Proof.
  unfold bind_session_keys. apply keeping_bind; [apply keeping_pure, ensure_joined_reads|]. intros _.
  apply keeping_room. intros h v ho Hid. by eapply keeps_sent.
Qed.

Ltac asked := intros h v ho Hid; eapply keeps_asked; [done|intros []; done|done].

Lemma keeping_get_state request : keeping (get_state request).
Proof. apply keeping_room. asked. Qed.
Lemma keeping_get_engine_state id : keeping (get_engine_state id).
Proof. apply keeping_room. asked. Qed.
Lemma keeping_get_legal_actions id seat : keeping (get_legal_actions id seat).
Proof. apply keeping_room. asked. Qed.

Lemma keeps_then {A B} (m : M Server RpcGatewayError A) (k : A → M Server RpcGatewayError B) s :
  keeps s (fst (m s)) → (∀ x, keeping (k x)) → keeps s (fst ((m ≫= k) s)).
Proof.
  intros Hm Hk. unfold mbind, M_mbind, M_bind. destruct (m s) as [s' [x|e]]; [|done].
  etrans; [exact Hm|apply Hk].
Qed.

Lemma keeping_get_private_payloads request : keeping (get_private_payloads request).
Proof.
  apply keeping_room. intros h v ho Hid. apply keeps_then; [|by intros l s].
  eapply keeps_asked; [done|intros []; done|done].
Qed.

Lemma keeps_lift {A B} (r : result RpcGatewayError A) (k : A → M Server RpcGatewayError B) s :
  (∀ x, keeps s (fst (k x s))) → keeps s (fst ((lift_result r ≫= k) s)).
Proof. intros Hk. destruct r as [x|e]; [apply Hk|done]. Qed.

(** The service's own maps are not touched by what happens in the world, and so the
    handle stays the room's. *)
Lemma keeps_draw_then {A B} (f : W → W * A) (k : A → M Server RpcGatewayError B) v ho :
  (∀ x ho', keeps (v, ho') (fst (k x (v, ho')))) →
  keeps (v, ho) (fst ((draw_world (draw_house f) ≫= k) (v, ho))).
Proof.
  intros Hk. unfold mbind, M_mbind, M_bind. pose proof (keeping_draw f (v, ho)) as Hd.
  unfold draw_world, draw_house in *. destruct (f (ho_world ho)) as [w x]. cbn in Hd.
  etrans; [exact Hd|apply Hk].
Qed.
Lemma keeps_time_then {A} (k : DateTime → M Server RpcGatewayError A) v (ho : House W) :
  keeps (v, ho) (fst (k (utc_now ho) (v, ho))) →
  keeps (v, ho) (fst ((draw_world (λ ho, (ho, utc_now ho)) ≫= k) (v, ho))).
Proof. done. Qed.
Lemma keeps_on_world_then {E A B} (m : M W E A) (g : E → RpcGatewayError)
    (k : A → M Server RpcGatewayError B) v ho :
  (∀ x ho', keeps (v, ho') (fst (k x (v, ho')))) →
  keeps (v, ho) (fst ((world (M_map_err g (on_world m)) ≫= k) (v, ho))).
Proof.
  intros Hk. unfold mbind, M_mbind, M_bind. pose proof (keeping_on_world m g (v, ho)) as Hd.
  unfold world, M_map_err, on_world in *. destruct (m (ho_world ho)) as [w [x|e]]; cbn in *; [|exact Hd].
  etrans; [exact Hd|apply Hk].
Qed.

Lemma keeping_act request : keeping (act request).
Proof.
  apply keeping_room. intros h v ho Hid. apply keeps_lift. intros action.
  destruct (ga_tx_hash request) as [tx|].
  - apply keeps_time_then, keeps_draw_then. intros trace ho2.
    apply keeps_on_world_then. intros _ ho3. eapply keeps_asked; [done|intros []; done|done].
  - apply keeps_then; [|by intros l s]. eapply keeps_asked; [done|intros []; done|done].
Qed.

Lemma keeping_join request : keeping (join request).
Proof.
  apply keeping_room. intros h v ho Hid.
  match goal with |- keeps _ ?x => remember x as s' eqn:Hrun end.
  intros Hag. pose proof (ag_unlocked _ Hag) as Hu. cbn in Hu.
  unfold upstream, world, M_map_err, mbind, M_mbind, M_bind, room_join in Hrun.
  destruct (send h (Join (rr_seat_id request)) ho) as [ho' r] eqn:Hsend.
  destruct (send_cases _ _ _ _ _ _ _ Hag Hid Hsend)
    as (-> & t & w & t' & Ht & Hr & Hho & Hok & Htid & Hs).
  unfold note_joined, lock_joined, service, locked, lock, update_service in Hrun. mrun in Hrun. cbn in Hrun.
  rewrite (ul_joined _ Hu) in Hrun. cbn in Hrun. subst s'.
  split; [|done]. rewrite Hho. eapply agrees_room; [done|done|done|by destruct Hu|done|done| |].
  - intros id' Hne. cbn. by rewrite lookup_insert_ne.
  - cbn. rewrite lookup_insert_eq. destruct Hr as [Hrid _ Hj Hb].
    split; [congruence|done|rewrite Hs|rewrite Hs]; destruct (task_seats t) as [seated bound]; cbn in *;
      [set_solver|done].
Qed.

(** The seats that may bind an address or get ready. *)
Lemma ensure_joined_run v (ho : House W) id seat :
  unlocked v →
  snd (ensure_joined id seat (v, ho)) = Ok tt ↔
  seat ∈ default ∅ (mx_value (joined_seats v) !! id).
Proof.
  intros Hu. unfold ensure_joined, lock_joined, service, locked, lock. mrun. cbn.
  rewrite (ul_joined _ Hu).
  destruct (mx_value (joined_seats v) !! id) as [seats|]; cbn; [|by split; [|set_solver]].
  case_bool_decide; by split.
Qed.

(** Behind the check, the seat has joined. *)
Lemma keeping_joined {A} id seat (k : unit → M Server RpcGatewayError A) :
  (∀ v ho, seat ∈ default ∅ (mx_value (joined_seats v) !! id) → keeps (v, ho) (fst (k tt (v, ho)))) →
  keeping (ensure_joined id seat ≫= k).
Proof.
  intros Hk [v ho] Hag. pose proof (ensure_joined_run v ho id seat (ag_unlocked _ Hag)) as Hin.
  pose proof (ensure_joined_reads id seat (v, ho)) as Hsame.
  unfold mbind, M_mbind, M_bind. destruct (ensure_joined id seat (v, ho)) as [s1 [[]|e]].
  - cbn in Hsame, Hin. subst s1. apply Hk; [by apply Hin|done].
  - cbn in Hsame. by subst s1.
Qed.

Lemma keeping_bind_address request : keeping (bind_address request).
Proof.
  apply keeping_joined. intros v ho Hseat.
  match goal with |- keeps _ ?x => remember x as s' eqn:Hrun end.
  intros Hag. pose proof (ag_unlocked _ Hag) as Hu. cbn in Hu.
  unfold mbind, M_mbind, M_bind in Hrun. rewrite get_room_run in Hrun by done.
  destruct (mx_value (rooms v) !! ba_room_id request) as [h|] eqn:Hid; cbn [ok_or] in Hrun;
    [|by subst s'].
  unfold note_address, lock_bound, service, locked, lock, update_service, upstream, world, M_map_err,
    room_bind_address in Hrun.
  mrun in Hrun. cbn [fst] in Hrun. rewrite (ul_bound _ Hu) in Hrun.
  destruct (send h (BindAddress (ba_seat_id request) (ba_seat_address request)) ho)
    as [ho' r] eqn:Hsend.
  destruct (send_cases _ _ _ _ _ _ _ Hag Hid Hsend)
    as (-> & t & w & t' & Ht & Hr & Hho & Hok & Htid & Hs).
  subst s'. split; [|done]. rewrite Hho.
  eapply agrees_room; [done|done|done|by destruct Hu|done|done| |].
  - intros id' Hne. cbn. by rewrite lookup_insert_ne.
  - cbn. rewrite lookup_insert_eq. destruct Hr as [Hrid _ Hjo Hb].
    split; [congruence|done|rewrite Hs|rewrite Hs]; destruct (task_seats t) as [seated bound]; cbn in *;
      [done|]. rewrite bool_decide_true by set_solver. by rewrite Hb.
Qed.

(** ** The server as a whole *)

(** The requests of the port, the calls of the other parts of the application, and
    what goes on beside: the ticks of the rooms' clocks and the world. No caller
    makes a room forget a seat. *)
Inductive server_step : Server → Server → Prop :=
| step_create request s : server_step s (fst (create_room house_persist request s))
| step_list request s : server_step s (fst (list_rooms request s))
| step_join request s : server_step s (fst (join request s))
| step_ready request s : server_step s (fst (ready request s))
| step_bind_address request s : server_step s (fst (bind_address request s))
| step_bind_keys request s : server_step s (fst (bind_session_keys request s))
| step_get_state request s : server_step s (fst (get_state request s))
| step_legal_actions id seat s : server_step s (fst (get_legal_actions id seat s))
| step_payloads request s : server_step s (fst (get_private_payloads request s))
| step_act request s : server_step s (fst (act request s))
| step_engine_state id s : server_step s (fst (get_engine_state id s))
| step_ensure_room id s : server_step s (fst (ensure_room id s))
| step_message id h cmd v ho :
    mx_value (rooms v) !! id = Some h → harmless cmd = true →
    server_step (v, ho) (v, fst (send h cmd ho))
| step_world v ho w :
    server_step (v, ho) (v, mkHouse w (ho_tasks ho) (ho_next_task ho) (ho_next_reply ho)).

Lemma server_step_keeps s s' : server_step s s' → keeps s s'.
Proof.
  destruct 1; [apply keeping_create_room|apply keeping_list_rooms|apply keeping_join|
    apply keeping_ready|apply keeping_bind_address|apply keeping_bind_session_keys|
    apply keeping_get_state|apply keeping_get_legal_actions|apply keeping_get_private_payloads|
    apply keeping_act|apply keeping_get_engine_state|apply keeping_ensure_room| |by apply keeps_world].
  destruct (send h cmd ho) as [ho' r] eqn:Hsend. by eapply keeps_send.
Qed.

Definition server_new (w : W) : Server := (AppRoomService_new, mkHouse w ∅ 0 0).

Lemma agrees_new w : agrees (server_new w).
Proof.
  split; [by split| |done|]; cbn; intros id; [intros h|]; rewrite lookup_empty; [done|by intros []].
Qed.

Lemma server_runs s s' : rtc server_step s s' → keeps s s'.
Proof. induction 1; [done|]. etrans; [by eapply server_step_keeps|done]. Qed.

(** C22. Money before play. An action that names a transaction waits in its room only
    under a binding: when the request succeeds, the repository has accepted the
    transaction for exactly this hand, seat, action and amount, and the room holds the
    action under the transaction; when it fails, whatever the reason, no room has heard
    of it. *)
Theorem paid_actions_wait_under_a_binding request tx w v ho s' r
    (Hreach : rtc server_step (server_new w) (v, ho))
    (Htx : ga_tx_hash request = Some tx)
    (Hact : act request (v, ho) = (s', r)) :
  fst s' = v ∧
  match r with
  | Ok _ => ∃ h t' action queued_at record w1 w2,
      mx_value (rooms v) !! ga_room_id request = Some h ∧
      ho_tasks (snd s') !! handle_sender h = Some t' ∧
      to_player_action request = Ok action ∧
      rs_pending_chain_actions (tk_room t') !! tx = Some (mkPending action queued_at None) ∧
      insert_tx_binding (W := W) record w1 = (w2, Ok tt) ∧
      (tb_tx_hash record, tb_room_id record, tb_hand_id record, tb_seat_id record,
       tb_action_seq record, tb_expected_amount record)
      = (tx, ga_room_id request, ga_hand_id request, ga_seat_id request, ga_action_seq request,
         pa_amount action)
  | Err _ => ho_tasks (snd s') = ho_tasks ho
  end.
Proof.
  apply server_runs in Hreach as Hk. destruct (Hk (agrees_new w)) as (Hag & _ & _).
  pose proof (ag_unlocked _ Hag) as Hu. cbn in Hu.
  unfold act, mbind, M_mbind, M_bind in Hact. rewrite get_room_run in Hact by done.
  destruct (mx_value (rooms v) !! ga_room_id request) as [h|] eqn:Hid; cbn [ok_or] in Hact;
    [|by injection Hact as <- <-].
  unfold lift_result in Hact.
  destruct (to_player_action request) as [action|e] eqn:Hpa; [|by injection Hact as <- <-].
  rewrite Htx in Hact. unfold draw_world, world, M_map_err in Hact. cbn in Hact.
  unfold draw_house, on_world in Hact. destruct (fresh_uuid (ho_world ho)) as [w1 trace].
  cbn [ho_world ho_tasks ho_next_task ho_next_reply] in Hact.
  destruct (insert_tx_binding _ w1) as [w2 [[]|e]] eqn:Hins; [|by injection Hact as <- <-].
  cbn in Hact. destruct (ag_rooms _ Hag _ h Hid) as (_ & t & Ht & _). cbn in Ht.
  destruct (house_queue_run config h t tx action
    (mkHouse w2 (ho_tasks ho) (ho_next_task ho) (ho_next_reply ho)) Ht)
    as (ho' & t' & queued_at & Hask & Ht' & Hp).
  unfold upstream, world, M_map_err, room_queue_pending_chain_action, mbind, M_mbind, M_bind in Hact.
  cbn in Hact. rewrite Hask in Hact. injection Hact as <- <-. split; [done|].
  exists h, t', action, queued_at. eexists _, w1, w2.
  split; [done|]. split; [done|]. split; [done|]. split; [done|]. by split; [exact Hins|].
Qed.
End Server.

(** ** A small server *)

#[local] Existing Instances demo_cards demo_clock demo_instant demo_ids demo_shuffler demo_secrets
  demo_no_crypto demo_uuid_text demo_codec demo_offline toy_secp.
#[local] Instance demo_ledger : ChainTxRepository DemoWorld := {|
  upsert_tx_verification _ := mret tt;
  insert_tx_binding _ := mret tt;
  upsert_exception_credit _ := mret tt;
|}.
#[local] Instance demo_keys : RandomKeys DemoWorld :=
  {| random_signing_key w := (w, true); signing_key_to_bytes _ := [10; 11] |}.

Definition demo_meta : SignedRequestMeta := mkMeta 1 "n" 0 1000 "" "".
Definition demo_join : RoomReadyRequest := mkRoomReady 7 2 demo_meta.
Definition demo_bind : RoomBindAddressRequest := mkBindAddress 7 2 "0xab" demo_meta.
Definition demo_server : AppRoomService * House DemoWorld := server_new (mkDemoWorld 0 100).
Abbreviation demo_server_step := (server_step RoomActorConfig_default None) (only parsing).
Definition demo_joined : AppRoomService * House DemoWorld :=
  fst (bind_address (RA := house_rooms RoomActorConfig_default) demo_bind
    (fst (join (RA := house_rooms RoomActorConfig_default) demo_join
      (fst (ensure_room (RA := house_rooms RoomActorConfig_default) 7 demo_server))))).

Lemma demo_joined_reached : rtc demo_server_step demo_server demo_joined.
Proof.
  eapply rtc_l; [apply (step_ensure_room _ _ 7)|].
  eapply rtc_l; [apply (step_join _ _ demo_join)|].
  eapply rtc_l; [apply (step_bind_address _ _ demo_bind)|]. apply rtc_refl.
Qed.

Lemma demo_joined_facts :
  mx_value (rooms (fst demo_joined)) !! 7 = Some (mkHandle 0) ∧
  bound_seat_addresses (W := House DemoWorld) 7 demo_joined
  = (demo_joined, Ok {[2 := "0xab"%string]}) ∧
  snd (ensure_joined (W := House DemoWorld) 7 2 demo_joined) = Ok tt.
Proof. vm_compute. auto. Qed.

Definition demo_paid_call : GameActRequest :=
  mkGameAct 7 100 1 2 "call" (Some "50"%string) (Some "0xfeed"%string) demo_meta.

Lemma demo_paid_call_facts :
  snd (act (RA := house_rooms RoomActorConfig_default) demo_paid_call demo_joined) = Ok tt.
Proof. vm_compute. reflexivity. Qed.

(** A call that is paid by a transaction waits for it. *)
Lemma paid_actions_wait_under_a_binding_witness :
  ∃ t queued_at,
    ho_tasks (snd (fst (act (RA := house_rooms RoomActorConfig_default) demo_paid_call demo_joined)))
      !! 0 = Some t ∧
    rs_pending_chain_actions (tk_room t) !! "0xfeed"%string
    = Some (mkPending (mkPlayerAction 7 100 1 2 Call (Some 50)) queued_at None).
Proof.
  pose proof demo_joined_reached as Hreach. pose proof demo_joined_facts as (Hid & _).
  pose proof demo_paid_call_facts as Hok. destruct demo_joined as [v ho].
  destruct (act demo_paid_call (v, ho)) as [s' r] eqn:Hact. cbn [fst snd] in *. subst r.
  destruct (paid_actions_wait_under_a_binding RoomActorConfig_default None demo_paid_call "0xfeed"
    (mkDemoWorld 0 100) v ho s' (Ok tt) Hreach eq_refl Hact)
    as (_ & h & t & action & queued_at & record & w1 & w2 & Hh & Ht & Hpa & Hp & _).
  cbn in Hh. rewrite Hid in Hh. injection Hh as <-. vm_compute in Hpa. injection Hpa as <-.
  exists t, queued_at. split; [exact Ht|exact Hp].
Defined.
