(* ===== verification/RoomRequests.v ===== *)
(** Requests to the rooms as they run on the server: side by side.

    A request holds a lock of the service for one section at a time, and between two
    sections, and while its command waits in a room's mailbox, everything else may go
    on. Here a request is cut into those sections; a run is any interleaving of the
    sections of any number of requests, of the turns of the room actors, and of the rest
    of the traffic. *)

From stdpp Require Import base tactics option list gmap strings relations.
From Stdlib Require Import NArith Lia.
From S2P Require Import Prelude.
From S2P Require Import Ambient.
From S2P Require Import Text.
From S2P Require Import Domain.
From S2P Require Import EngineState.
From S2P Require Import LedgerStore.
From S2P Require Import JsonRpc.
From S2P Require Import AgentAuth.
From S2P Require Import SeatCrypto.
From S2P Require Import TableService.
From S2P Require Import GatewayTypes.
From S2P Require Import RoomHandles.
From S2P Require Import RoomHandlesProps.
From S2P Require Import RoomService.
From S2P Require Import AgentAuthProps.
From S2P Require Import RoomDemo.
From S2P Require Import RoomServiceProps.

Local Open Scope N_scope.

(** ** Requests and their sections *)

Inductive Request :=
  | JoinRequest (r : RoomReadyRequest)
  | ReadyRequest (r : RoomReadyRequest)
  | BindRequest (r : RoomBindAddressRequest)
  | KeysRequest (r : RoomBindSessionKeysRequest).

(** How far a request is: the seat has been checked, the room found, what it brings
    noted in a map of the service, its command sent. *)
Inductive Phase :=
  | Arrived
  | Checked
  | Found (h : RoomHandle)
  | Noted (h : RoomHandle)
  | Sent
  | Finished (r : result RpcGatewayError unit).

Definition request_room (rq : Request) : RoomId :=
  match rq with
  | JoinRequest r | ReadyRequest r => rr_room_id r
  | BindRequest r => ba_room_id r
  | KeysRequest r => bk_room_id r
  end.
Definition request_seat (rq : Request) : SeatId :=
  match rq with
  | JoinRequest r | ReadyRequest r => rr_seat_id r
  | BindRequest r => ba_seat_id r
  | KeysRequest r => bk_seat_id r
  end.

Section Requests.
Context {CO : CardOps} {W : Type}.
Context {CK : Clock W} {FI : FreshIds W} {MC : MonotonicClock W} {SH : Shuffler W}.
Context {CR : SeatCryptoPrimitives} {UT : UuidText} {ES : EphemeralSecrets W} {RC : RoomCodec}.
Context {TR : JsonRpcTransport W}.
Context {SK : Secp256k1} {RK : RandomKeys W}.
Context (config : RoomActorConfig).
#[local] Instance request_rooms : RoomActors (House W) := house_rooms config.

Abbreviation Server := (AppRoomService * House W)%type (only parsing).

Definition check_seat (rq : Request) : M Server RpcGatewayError Phase :=
  ensure_joined (request_room rq) (request_seat rq);; mret Checked.
Definition find_room (rq : Request) : M Server RpcGatewayError Phase :=
  h ← get_room (request_room rq); mret (Found h).
(** The command is sent: it is in the mailbox, or in the queue of those who wait for a
    place there. *)
Definition send_on (h : RoomHandle) (cmd : RoomCommand) (next : Phase)
    : M Server RpcGatewayError Phase := upstream (house_enqueue h cmd);; mret next.

(** The next section of a request: [join], [ready], [bind_address] and
    [bind_session_keys] of the service, up to where they let go of a lock or wait. *)
Definition next_section (rq : Request) (p : Phase) : M Server RpcGatewayError Phase :=
  match rq, p with
  | JoinRequest _, Arrived => find_room rq
  | JoinRequest r, Found h => send_on h (Join (rr_seat_id r)) Sent
  | JoinRequest r, Sent => note_joined r;; mret (Finished (Ok tt))
  | _, Arrived => check_seat rq
  | _, Checked => find_room rq
  | ReadyRequest r, Found h => send_on h (Ready (rr_seat_id r)) (Finished (Ok tt))
  | KeysRequest r, Found h =>
      send_on h (BindSessionKeys (bk_seat_id r) (bk_card_encrypt_pubkey r)
                     (bk_request_verify_pubkey r) (bk_key_algo r) (bk_proof_signature r))
        (Finished (Ok tt))
  | BindRequest r, Found h => note_address r;; mret (Noted h)
  | BindRequest r, Noted h =>
      send_on h (BindAddress (ba_seat_id r) (ba_seat_address r)) (Finished (Ok tt))
  | _, _ => mret p
  end.
Definition advance (rq : Request) (p : Phase) (s : Server) : Server * Phase :=
  let '(s, r) := next_section rq p s in
  (s, match r with Ok p => p | Err e => Finished (Err e) end).

(** The server and the requests it has seen, each where it is. *)
Record Traffic := mkTraffic { tf_server : Server; tf_requests : list (Request * Phase) }.

Inductive traffic_step : Traffic → Traffic → Prop :=
| go_arrive rq s l : traffic_step (mkTraffic s l) (mkTraffic s (l ++ [(rq, Arrived)]))
| go_on i rq p s l s' p' :
    l !! i = Some (rq, p) → advance rq p s = (s', p') →
    traffic_step (mkTraffic s l) (mkTraffic s' (<[i := (rq, p')]> l))
| go_turn h v ho l :
    traffic_step (mkTraffic (v, ho) l) (mkTraffic (v, house_turn config h ho) l)
| go_message id h cmd v ho l :
    mx_value (rooms v) !! id = Some h → harmless cmd = true →
    traffic_step (mkTraffic (v, ho) l) (mkTraffic (v, fst (house_enqueue h cmd ho)) l)
| go_room id s l : traffic_step (mkTraffic s l) (mkTraffic (fst (ensure_room id s)) l)
| go_world v ho w n l :
    traffic_step (mkTraffic (v, ho) l)
      (mkTraffic (v, mkHouse w (ho_tasks ho) (ho_next_task ho) n) l).

Definition traffic_new (w : W) : Traffic := mkTraffic (server_new w) [].

(** No two requests are between the note and the command of a binding of one seat. *)
Definition one_at_a_time (c : Traffic) : Prop := ∀ i j r r' h h',
  tf_requests c !! i = Some (BindRequest r, Noted h) →
  tf_requests c !! j = Some (BindRequest r', Noted h') →
  ba_room_id r = ba_room_id r' → ba_seat_id r = ba_seat_id r' → i = j.
Definition orderly_step (c c' : Traffic) : Prop := traffic_step c c' ∧ one_at_a_time c'.

(** A binding of a seat is under way: noted, and its command not yet sent. *)
Definition binding_under_way (c : Traffic) (id : RoomId) (seat : SeatId) : Prop :=
  ∃ r h, (BindRequest r, Noted h) ∈ tf_requests c ∧ ba_room_id r = id ∧ ba_seat_id r = seat.
(** A request has asked for this address, passed the check of its seat and got as far
    as its note. *)
Definition bind_noted (p : Phase) : Prop :=
  match p with Noted _ | Finished (Ok _) => True | _ => False end.
Definition asked_for (c : Traffic) (id : RoomId) (seat : SeatId) (address : string) : Prop :=
  ∃ r p, (BindRequest r, p) ∈ tf_requests c ∧ bind_noted p ∧
    ba_room_id r = id ∧ ba_seat_id r = seat ∧ ba_seat_address r = address.

(** The room when it has worked off what is in its mailbox now. *)
Definition caught_up (ho : House W) (t : Task) : RoomState :=
  tk_room (snd (task_serve config (ho_world ho) t)).

Lemma caught_up_seats (ho : House W) t : seats_of (caught_up ho t) = settled_seats t.
Proof.
  unfold caught_up, task_serve. destruct (task_turns config _ _ t) as [w' t'] eqn:Hrun.
  by destruct (task_turns_prefix config _ [] _ _ _ _ (eq_sym (app_nil_r _)) Hrun) as (_ & Hs & _).
Qed.

(** ** What the service and its rooms hold about a room *)

Definition room_task (s : Server) (id : RoomId) : option Task :=
  mx_value (rooms (fst s)) !! id ≫= λ h, ho_tasks (snd s) !! handle_sender h.
Definition room_seats (s : Server) (id : RoomId) : gset SeatId * gmap SeatId string :=
  from_option settled_seats (∅, ∅) (room_task s id).
Definition joined_of (s : Server) (id : RoomId) : gset SeatId :=
  default ∅ (mx_value (joined_seats (fst s)) !! id).
Definition bound_of (s : Server) (id : RoomId) : gmap SeatId string :=
  default ∅ (mx_value (bound_addresses (fst s)) !! id).

Record sound (s : Server) : Prop := {
  so_unlocked : unlocked (fst s);
  so_rooms : ∀ id h, mx_value (rooms (fst s)) !! id = Some h →
    handle_sender h < ho_next_task (snd s) ∧
    ∃ t, ho_tasks (snd s) !! handle_sender h = Some t ∧ tk_room_id t = id;
  so_accounts : ∀ id, is_Some (mx_value (rooms (fst s)) !! id) →
    ∃ a, mx_value (room_chain_accounts (fst s)) !! id = Some a ∧ account_of_key a;
  so_nothing : ∀ id, mx_value (rooms (fst s)) !! id = None →
    mx_value (room_chain_accounts (fst s)) !! id = None;
}.

(** Rooms, accounts and seats stay. *)
Record further (s s' : Server) : Prop := {
  fu_sound : sound s';
  fu_rooms : mx_value (rooms (fst s)) ⊆ mx_value (rooms (fst s'));
  fu_accounts : mx_value (room_chain_accounts (fst s)) ⊆ mx_value (room_chain_accounts (fst s'));
  fu_joined : ∀ id, joined_of s id ⊆ joined_of s' id;
  fu_seated : ∀ id, (room_seats s id).1 ⊆ (room_seats s' id).1;
}.

Lemma further_refl s : sound s → further s s.
Proof. by split. Qed.

(** One task has moved. *)
Lemma room_seats_task v (ho : House W) n t' w nr id :
  room_seats (v, mkHouse w (<[n := t']> (ho_tasks ho)) (ho_next_task ho) nr) id
  = if bool_decide (mx_value (rooms v) !! id = Some (mkHandle n)) then settled_seats t'
    else room_seats (v, ho) id.
Proof.
  unfold room_seats, room_task. cbn. destruct (mx_value (rooms v) !! id) as [[m]|] eqn:Hid; cbn.
  - destruct (decide (m = n)) as [->|Hne].
    + by rewrite lookup_insert_eq, bool_decide_true.
    + rewrite lookup_insert_ne by done. by rewrite bool_decide_false by congruence.
  - by rewrite bool_decide_false by done.
Qed.

Lemma sound_task v (ho : House W) n t t' w nr :
  sound (v, ho) → ho_tasks ho !! n = Some t → tk_room_id t' = tk_room_id t →
  sound (v, mkHouse w (<[n := t']> (ho_tasks ho)) (ho_next_task ho) nr).
Proof.
  intros [Hu Hr Ha Hn] Ht Hid. split; cbn in *; [done| |done|done].
  intros id h Hh. destruct (Hr id h Hh) as (Hlt & t0 & Ht0 & Hid0). split; [done|].
  destruct (decide (handle_sender h = n)) as [<-|Hne].
  - exists t'. rewrite lookup_insert_eq. split; [done|]. congruence.
  - exists t0. by rewrite lookup_insert_ne.
Qed.

(** The seats of the rooms after a command to the room [id]. *)
Definition commanded (id : RoomId) (cmd : RoomCommand)
    (f : RoomId → gset SeatId * gmap SeatId string) (id' : RoomId) :=
  if decide (id' = id) then seats_after cmd (f id) else f id'.

Lemma enqueued id h cmd v (ho : House W) ho' r :
  sound (v, ho) → mx_value (rooms v) !! id = Some h → house_enqueue h cmd ho = (ho', r) →
  r = Ok tt ∧ sound (v, ho') ∧
  ∀ id', room_seats (v, ho') id' = commanded id cmd (room_seats (v, ho)) id'.
Proof.
  intros Hs Hid. destruct (so_rooms _ Hs id h Hid) as (_ & t & Ht & Htid). cbn in Ht.
  unfold house_enqueue. rewrite Ht. intros [= <- <-]. split; [done|]. split.
  - by eapply sound_task.
  - intros id'. rewrite (room_seats_task v ho (handle_sender h)). unfold commanded.
    assert (room_seats (v, ho) id = settled_seats t) as Hseats.
    { unfold room_seats, room_task. cbn. rewrite Hid. cbn. by rewrite Ht. }
    destruct (decide (id' = id)) as [->|Hne].
    + rewrite bool_decide_true by (rewrite Hid; by destruct h). rewrite Hseats.
      unfold settled_seats, task_enqueue. cbn [tk_mailbox]. by rewrite seats_after_app.
    + rewrite bool_decide_false; [done|]. intros Hid'.
      destruct (so_rooms _ Hs id' _ Hid') as (_ & t' & Ht' & Htid'). cbn in Ht'.
      rewrite Ht in Ht'. congruence.
Qed.

Lemma turned h v (ho : House W) :
  sound (v, ho) →
  sound (v, house_turn config h ho) ∧
  ∀ id, room_seats (v, house_turn config h ho) id = room_seats (v, ho) id.
Proof.
  intros Hs. unfold house_turn, house_run.
  destruct (ho_tasks ho !! handle_sender h) as [t|] eqn:Ht; [|done].
  destruct (task_turn config (ho_world ho) t) as [w t'] eqn:Hturn.
  destruct (task_turn_settled config _ _ _ _ Hturn) as (Hid & Hset & _).
  split; [by eapply sound_task|]. intros id. rewrite (room_seats_task v ho).
  case_bool_decide as Hr; [|done]. unfold room_seats, room_task. cbn. rewrite Hr. cbn. by rewrite Ht.
Qed.

Lemma spawned id (s s' : Server) r :
  sound s → ensure_room id s = (s', r) →
  further s s' ∧ (∀ id', joined_of s' id' = joined_of s id') ∧
  (∀ id', bound_of s' id' = bound_of s id') ∧ ∀ id', (room_seats s' id').2 = (room_seats s id').2.
Proof.
  destruct s as [v ho]. intros Hs. pose proof (so_nothing _ Hs id) as Hnone.
  unfold request_rooms. rewrite (ensure_room_run config id v ho) by (first [apply Hs|done]).
  destruct (mx_value (rooms v) !! id) as [h|] eqn:Hid.
  { intros [= <- <-]. split; [by apply further_refl|done]. }
  destruct (house_spawn id ho) as [ho1 h] eqn:Hspawn.
  destruct (draw_house random_signing_key ho1) as [ho2 k] eqn:Hkey. intros [= <- <-].
  apply spawn_run in Hspawn as (t & Ht & -> & Hn & Hag).
  unfold draw_house in Hkey. destruct (random_signing_key (ho_world ho1)) as [w k'].
  injection Hkey as <- <-. specialize (Hnone Hid). cbn in Hnone. destruct Hs as [Hu Hr Ha Hno].
  match goal with |- further _ ?s1 ∧ _ => assert (∀ id',
    (room_seats (v, ho) id').1 ⊆ (room_seats s1 id').1 ∧
    (room_seats s1 id').2 = (room_seats (v, ho) id').2) as Hseats end.
  { intros id'. unfold room_seats, room_task. cbn. rewrite Ht.
    destruct (decide (id = id')) as [<-|Hne].
    - rewrite lookup_insert_eq, Hid. cbn. rewrite lookup_insert_eq. cbn.
      destruct Hag as [_ [cbs Hm] Hj Hb]. unfold settled_seats. rewrite Hm, seats_after_callbacks.
      split; [set_solver|symmetry; exact Hb].
    - rewrite lookup_insert_ne by done. destruct (mx_value (rooms v) !! id') as [h'|] eqn:Hid'; [|done].
      cbn. rewrite lookup_insert_ne; [done|]. destruct (Hr id' h' Hid'). cbn in *. lia. }
  split; [|split; [done|split; [done|apply Hseats]]].
  split; [|by apply insert_subseteq|by apply insert_subseteq|done|apply Hseats].
  split; cbn; [by destruct Hu| | |].
  - intros id' h' Hid'. rewrite Hn, Ht. destruct (decide (id = id')) as [<-|Hne].
    + rewrite lookup_insert_eq in Hid'. injection Hid' as <-. split; [cbn; lia|].
      exists t. cbn. rewrite lookup_insert_eq. split; [done|apply Hag].
    + rewrite lookup_insert_ne in Hid' by done. destruct (Hr id' h' Hid') as (Hlt & t' & Ht' & Hag').
      cbn in *. split; [lia|]. exists t'. rewrite lookup_insert_ne by lia. done.
  - intros id' Hid'. destruct (decide (id = id')) as [<-|Hne].
    + eexists. rewrite lookup_insert_eq. split; [done|]. by exists k'.
    + rewrite lookup_insert_ne in Hid' by done. rewrite lookup_insert_ne by done. by apply Ha.
  - intros id' Hid'. destruct (decide (id = id')) as [<-|Hne]; [by rewrite lookup_insert_eq in Hid'|].
    rewrite lookup_insert_ne in Hid' by done. rewrite lookup_insert_ne by done. by apply Hno.
Qed.

(** ** The sections, one by one *)

Lemma check_seat_run rq (s : Server) :
  unlocked (fst s) →
  let '(s', r) := check_seat rq s in
  s' = s ∧ match r with
           | Ok p => p = Checked ∧ request_seat rq ∈ joined_of s (request_room rq)
           | Err _ => True
           end.
Proof.
  destruct s as [v ho]. intros Hu. unfold check_seat. mrun.
  pose proof (ensure_joined_run v ho (request_room rq) (request_seat rq) Hu) as Hin.
  pose proof (ensure_joined_reads (request_room rq) (request_seat rq) (v, ho)) as Hsame.
  destruct (ensure_joined _ _ (v, ho)) as [s1 [[]|e]]; cbn in Hsame; subst s1; [|done].
  split; [done|]. split; [done|]. by apply Hin.
Qed.
Lemma find_room_run rq v (ho : House W) :
  unlocked v →
  find_room rq (v, ho)
  = ((v, ho), ok_or RoomNotFound (Found <$> mx_value (rooms v) !! request_room rq)).
Proof.
  intros Hu. unfold find_room, mbind, M_mbind, M_bind. rewrite get_room_run by done.
  by destruct (mx_value (rooms v) !! request_room rq).
Qed.
Lemma send_on_run id h cmd next v (ho : House W) :
  sound (v, ho) → mx_value (rooms v) !! id = Some h →
  ∃ ho', send_on h cmd next (v, ho) = ((v, ho'), Ok next) ∧ sound (v, ho') ∧
    ∀ id', room_seats (v, ho') id' = commanded id cmd (room_seats (v, ho)) id'.
Proof.
  intros Hs Hid. unfold send_on, upstream, world, M_map_err. mrun.
  destruct (house_enqueue h cmd ho) as [ho' r] eqn:Hq.
  destruct (enqueued id h cmd v ho ho' r Hs Hid Hq) as (-> & Hs' & Hseats). by exists ho'.
Qed.
Lemma send_on_ok id h cmd next v (ho : House W) s' r :
  sound (v, ho) → mx_value (rooms v) !! id = Some h →
  send_on h cmd next (v, ho) = (s', r) → ∃ p, r = Ok p.
Proof.
  intros Hs Hid. destruct (send_on_run id h cmd next v ho Hs Hid) as (ho' & -> & _).
  intros [= _ <-]. by exists next.
Qed.
Lemma note_joined_run r v (ho : House W) :
  unlocked v →
  note_joined r (v, ho)
  = ((set_joined (<[rr_room_id r := {[rr_seat_id r]} ∪ joined_of (v, ho) (rr_room_id r)]>
        (mx_value (joined_seats v))) v, ho), Ok tt).
Proof.
  intros Hu. unfold note_joined, lock_joined, service, locked, lock, update_service. mrun. cbn.
  by rewrite (ul_joined _ Hu).
Qed.
Lemma note_address_run r v (ho : House W) :
  unlocked v →
  note_address r (v, ho)
  = ((set_bound (<[ba_room_id r := <[ba_seat_id r := ba_seat_address r]>
                     (bound_of (v, ho) (ba_room_id r))]> (mx_value (bound_addresses v))) v, ho),
     Ok tt).
Proof.
  intros Hu. unfold note_address, lock_bound, service, locked, lock, update_service. mrun. cbn.
  by rewrite (ul_bound _ Hu).
Qed.

(** What a request between two sections has seen. *)
Definition request_ok (s : Server) (rq : Request) (p : Phase) : Prop :=
  match p with
  | Found h | Noted h => mx_value (rooms (fst s)) !! request_room rq = Some h
  | _ => True
  end ∧
  match rq, p with
  | JoinRequest _, Sent => request_seat rq ∈ (room_seats s (request_room rq)).1
  | BindRequest _, (Checked | Found _ | Noted _) => request_seat rq ∈ joined_of s (request_room rq)
  | _, _ => True
  end.

Lemma request_ok_further s s' rq p : further s s' → request_ok s rq p → request_ok s' rq p.
Proof.
  intros [_ Hr _ Hj Hs] [H1 H2]. split.
  - destruct p; try done; by eapply lookup_weaken.
  - pose proof (Hj (request_room rq)). pose proof (Hs (request_room rq)).
    destruct rq, p; try done; set_solver.
Qed.

(** The addresses of a room: in the map after a section, and in the room once it has
    caught up. *)
Definition bind_into (r : RoomBindAddressRequest) (id : RoomId) (m : gmap SeatId string) :=
  if decide (id = ba_room_id r) then <[ba_seat_id r := ba_seat_address r]> m else m.
Definition noted_by (rq : Request) (p : Phase) (id : RoomId) (m : gmap SeatId string) :=
  match rq, p with BindRequest r, Found _ => bind_into r id m | _, _ => m end.
Definition sent_by (rq : Request) (p : Phase) (id : RoomId) (m : gmap SeatId string) :=
  match rq, p with BindRequest r, Noted _ => bind_into r id m | _, _ => m end.
Definition follows (rq : Request) (p p' : Phase) : Prop :=
  match rq with
  | BindRequest _ =>
      match p with
      | Found h => p' = Noted h
      | Noted _ => p' = Finished (Ok tt)
      | Finished _ => p' = p
      | _ => ¬ bind_noted p'
      end
  | _ => True
  end.

Definition seats_noted (s : Server) : Prop := ∀ id, joined_of s id ⊆ (room_seats s id).1.

Record section_effect (rq : Request) (p : Phase) (s s' : Server) (p' : Phase) : Prop := {
  se_further : further s s';
  se_seats : seats_noted s';
  se_request : request_ok s' rq p';
  se_noted : ∀ id, bound_of s' id = noted_by rq p id (bound_of s id);
  se_sent : ∀ id, (room_seats s' id).2 = sent_by rq p id (room_seats s id).2;
  se_follows : follows rq p p';
}.

(** A section that only looks. *)
Lemma effect_reads rq p s p' :
  sound s → seats_noted s → request_ok s rq p' → follows rq p p' →
  (∀ h r, (rq, p) ≠ (BindRequest r, Found h)) → (∀ h r, (rq, p) ≠ (BindRequest r, Noted h)) →
  section_effect rq p s s p'.
Proof.
  intros Hs Hn Hok Hf H1 H2. split; [by apply further_refl|done|done| | |done]; intros id;
    unfold noted_by, sent_by; destruct rq, p; try done; exfalso; naive_solver.
Qed.

(** A section that sends a command which binds no address. *)
Lemma effect_sends rq p v (ho : House W) h cmd next s' p' :
  sound (v, ho) → seats_noted (v, ho) → mx_value (rooms v) !! request_room rq = Some h →
  (match cmd with Join _ => True | _ => harmless cmd = true end) →
  match rq with BindRequest _ => False | _ => True end →
  (match rq, next with
   | JoinRequest _, Sent => cmd = Join (request_seat rq)
   | _, Finished _ => True
   | _, _ => False
   end) →
  send_on h cmd next (v, ho) = (s', Ok p') → section_effect rq p (v, ho) s' p'.
Proof.
  intros Hs Hn Hh Hcmd Hbind Hnext Hrun.
  destruct (send_on_run _ h cmd next v ho Hs Hh) as (ho' & Hrun' & Hs' & Hseats).
  rewrite Hrun' in Hrun. injection Hrun as <- <-.
  assert (∀ id, (room_seats (v, ho) id).1 ⊆ (room_seats (v, ho') id).1 ∧
    (room_seats (v, ho') id).2 = (room_seats (v, ho) id).2) as Hmore.
  { intros id. rewrite Hseats. unfold commanded. case_decide as Hid; [subst id|done].
    destruct (room_seats _ _) as [seated bound]. destruct cmd; try done; cbn; split; set_solver. }
  split.
  - split; [done|done|done|done|apply Hmore].
  - intros id. etrans; [apply Hn|apply Hmore].
  - split; [by destruct next; destruct rq|]. destruct rq, next; try done. subst cmd. cbn.
    rewrite Hseats. unfold commanded. rewrite decide_True by done. cbn.
    destruct (room_seats _ _). cbn. set_solver.
  - by destruct rq.
  - intros id. rewrite (proj2 (Hmore id)). by destruct rq.
  - by destruct rq.
Qed.

Lemma sound_maps v (ho : House W) v' :
  sound (v, ho) → unlocked v' → mx_value (rooms v') = mx_value (rooms v) →
  mx_value (room_chain_accounts v') = mx_value (room_chain_accounts v) → sound (v', ho).
Proof. intros [Hu Hr Ha Hn] Hu' Hrooms Hacc. split; cbn in *; rewrite ?Hrooms, ?Hacc; done. Qed.

Lemma effect_joined r v (ho : House W) :
  sound (v, ho) → seats_noted (v, ho) → request_ok (v, ho) (JoinRequest r) Sent →
  section_effect (JoinRequest r) Sent (v, ho) (fst (note_joined r (v, ho))) (Finished (Ok tt)).
Proof.
  intros Hs Hn [_ Hseat]. rewrite note_joined_run by apply Hs. cbn [fst].
  set (v' := set_joined _ v). assert (sound (v', ho)) as Hs'.
  { apply (sound_maps v); [done| |done|done]. by destruct (so_unlocked _ Hs). }
  assert (∀ id, joined_of (v', ho) id
    = if decide (id = rr_room_id r) then {[rr_seat_id r]} ∪ joined_of (v, ho) id
      else joined_of (v, ho) id) as Hj.
  { intros id. unfold joined_of at 1. cbn. case_decide as Hid; [subst id; by rewrite lookup_insert_eq|].
    by rewrite lookup_insert_ne. }
  split; [split| | | | |]; try done; intros id; try rewrite Hj; try done.
  - case_decide; set_solver.
  - case_decide as Hid; [|apply Hn]. subst id. specialize (Hn (rr_room_id r)). cbn in Hseat.
    change (room_seats (v', ho)) with (room_seats (v, ho)). set_solver.
Qed.

Lemma effect_noted r h v (ho : House W) :
  sound (v, ho) → seats_noted (v, ho) → request_ok (v, ho) (BindRequest r) (Found h) →
  section_effect (BindRequest r) (Found h) (v, ho) (fst (note_address r (v, ho))) (Noted h).
Proof.
  intros Hs Hn [Hh Hseat]. rewrite note_address_run by apply Hs. cbn [fst].
  set (v' := set_bound _ v). assert (sound (v', ho)) as Hs'.
  { apply (sound_maps v); [done| |done|done]. by destruct (so_unlocked _ Hs). }
  split; [by split|done|done| |done|done].
  intros id. cbn. unfold bind_into, bound_of at 1. cbn.
  case_decide as Hid; [subst id; by rewrite lookup_insert_eq|by rewrite lookup_insert_ne].
Qed.

Lemma effect_bound r h v (ho : House W) s' p' :
  sound (v, ho) → seats_noted (v, ho) → request_ok (v, ho) (BindRequest r) (Noted h) →
  send_on h (BindAddress (ba_seat_id r) (ba_seat_address r)) (Finished (Ok tt)) (v, ho)
  = (s', Ok p') →
  section_effect (BindRequest r) (Noted h) (v, ho) s' p'.
Proof.
  intros Hs Hn [Hh Hseat] Hrun.
  destruct (send_on_run _ h (BindAddress (ba_seat_id r) (ba_seat_address r)) (Finished (Ok tt))
    v ho Hs Hh) as (ho' & Hrun' & Hs' & Hseats).
  rewrite Hrun' in Hrun. injection Hrun as <- <-.
  assert (∀ id, room_seats (v, ho') id
    = ((room_seats (v, ho) id).1, bind_into r id (room_seats (v, ho) id).2)) as Heq.
  { intros id. rewrite Hseats. unfold commanded, bind_into. cbn [request_room].
    case_decide as Hid; [|by destruct (room_seats _ _)]. subst id.
    specialize (Hn (ba_room_id r)). cbn in Hseat.
    destruct (room_seats (v, ho) (ba_room_id r)) as [seated bound]. cbn in *.
    by rewrite bool_decide_true by set_solver. }
  split; [split| | | | |]; try done; intros id; try by rewrite Heq.
  rewrite Heq. apply Hn.
Qed.

Definition phase_of (r : result RpcGatewayError Phase) : Phase :=
  match r with Ok p => p | Err e => Finished (Err e) end.

Lemma effect_check rq s s' r :
  sound s → seats_noted s → check_seat rq s = (s', r) → section_effect rq Arrived s s' (phase_of r).
Proof.
  intros Hs Hn Hrun. pose proof (check_seat_run rq s (so_unlocked _ Hs)) as Hc. rewrite Hrun in Hc.
  destruct Hc as [-> Hr]. apply effect_reads; try done; destruct r as [p|e]; cbn.
  - destruct Hr as [-> Hr]. split; [done|]. by destruct rq.
  - by split; destruct rq.
  - destruct Hr as [-> _]. by destruct rq; cbn; try intros [].
  - by destruct rq; cbn; try intros [].
Qed.

Lemma effect_find rq p s s' r :
  sound s → seats_noted s → request_ok s rq p →
  match rq, p with JoinRequest _, Arrived | _, Checked => True | _, _ => False end →
  find_room rq s = (s', r) → section_effect rq p s s' (phase_of r).
Proof.
  destruct s as [v ho]. intros Hs Hn [_ Hok] Hp. rewrite find_room_run by apply Hs. intros [= <- <-].
  apply effect_reads; try done.
  - destruct (mx_value (rooms v) !! request_room rq) as [h|] eqn:Hh; split; cbn; try done;
      destruct rq, p; done.
  - destruct (mx_value (rooms v) !! request_room rq); destruct rq, p; cbn in *; try done; try by intros [].
  - intros h b [= -> ->]. done.
  - intros h b [= -> ->]. done.
Qed.

Ltac sends :=
  lazymatch goal with
  | Hs : sound ?s, Hok : request_ok ?s _ _, Hrun : send_on _ _ _ _ = (_, ?r) |- _ =>
      let p := fresh "p" in
      destruct (send_on_ok _ _ _ _ _ _ _ _ Hs (proj1 Hok) Hrun) as [p ->];
      eapply effect_sends; [done|done|apply Hok| | | |exact Hrun]; done
  end.

Lemma advance_effect rq p s s' p' :
  sound s → seats_noted s → request_ok s rq p → advance rq p s = (s', p') →
  section_effect rq p s s' p'.
Proof.
  destruct s as [v ho]. intros Hs Hn Hok. unfold advance.
  destruct (next_section rq p (v, ho)) as [s1 r] eqn:Hrun.
  change (match r with Ok p => p | Err e => Finished (Err e) end) with (phase_of r).
  intros [= <- <-].
  assert (∀ p0, (s1, r) = ((v, ho), Ok p0) → request_ok (v, ho) rq p0 → follows rq p p0 →
    (∀ h r, (rq, p) ≠ (BindRequest r, Found h)) → (∀ h r, (rq, p) ≠ (BindRequest r, Noted h)) →
    section_effect rq p (v, ho) s1 (phase_of r)) as Hstay.
  { intros p0 [= -> ->]. by apply effect_reads. }
  destruct rq as [b|b|b|b], p as [| |h|h| |fr]; cbn [next_section] in Hrun;
    try (by apply effect_check);
    try (by eapply effect_find);
    try (by eapply Hstay; [symmetry; exact Hrun|..]).
  - sends.
  - pose proof (effect_joined b v ho Hs Hn Hok) as He.
    rewrite note_joined_run in He by apply Hs. unfold mbind, M_mbind, M_bind in Hrun.
    rewrite note_joined_run in Hrun by apply Hs. by injection Hrun as <- <-.
  - sends.
  - pose proof (effect_noted b h v ho Hs Hn Hok) as He.
    rewrite note_address_run in He by apply Hs. unfold mbind, M_mbind, M_bind in Hrun.
    rewrite note_address_run in Hrun by apply Hs. by injection Hrun as <- <-.
  - destruct (send_on_ok _ _ _ _ _ _ _ _ Hs (proj1 Hok) Hrun) as [p' ->].
    by eapply effect_bound.
  - eapply Hstay; [symmetry; exact Hrun|done|by intros []|done|done].
  - sends.
Qed.

(** ** What holds in every run *)

Record coherent (c : Traffic) : Prop := {
  ch_sound : sound (tf_server c);
  ch_seats : seats_noted (tf_server c);
  ch_requests : ∀ i rq p, tf_requests c !! i = Some (rq, p) → request_ok (tf_server c) rq p;
  ch_bound : ∀ id seat a, bound_of (tf_server c) id !! seat = Some a → asked_for c id seat a;
  ch_room_bound : ∀ id seat a, (room_seats (tf_server c) id).2 !! seat = Some a →
    asked_for c id seat a;
}.

(** The server has moved, the requests and the addresses have not. *)
Lemma coherent_beside s s' l :
  coherent (mkTraffic s l) → further s s' → seats_noted s' →
  (∀ id, bound_of s' id = bound_of s id) → (∀ id, (room_seats s' id).2 = (room_seats s id).2) →
  coherent (mkTraffic s' l).
Proof.
  intros [_ _ Hreq Hb Hr] Hf Hn Hbound Hseats. cbn in *. split; cbn; [apply Hf|done| | |].
  - intros i rq p Hi. eapply request_ok_further; [done|by eapply Hreq].
  - intros id seat a. rewrite Hbound. apply Hb.
  - intros id seat a. rewrite Hseats. apply Hr.
Qed.

(** What has been asked for stays so when requests arrive or go on. *)
Lemma asked_for_arrive s s' l rq id seat a :
  asked_for (mkTraffic s l) id seat a → asked_for (mkTraffic s' (l ++ [(rq, Arrived)])) id seat a.
Proof. intros (r & p & Hin & H). exists r, p. split; [|done]. cbn in *. set_solver. Qed.
Lemma asked_for_go_on s s' l i rq p p' id seat a :
  l !! i = Some (rq, p) → follows rq p p' →
  asked_for (mkTraffic s l) id seat a → asked_for (mkTraffic s' (<[i := (rq, p')]> l)) id seat a.
Proof.
  intros Hi Hf (r & p0 & Hin & Hp & H). cbn in Hin. apply list_elem_of_lookup in Hin as [j Hj].
  destruct (decide (j = i)) as [->|Hne].
  - rewrite Hi in Hj. injection Hj as -> ->. exists r, p'. split; [|split; [|done]].
    + cbn. apply list_elem_of_lookup. exists i. apply list_lookup_insert_eq. by eapply lookup_lt_Some.
    + destruct p0 as [| | | | |[]]; cbn in Hf; try done; by rewrite Hf.
  - exists r, p0. split; [|done]. cbn. apply list_elem_of_lookup. exists j.
    by rewrite list_lookup_insert_ne.
Qed.
Lemma asked_for_now s l i r p :
  (i < length l)%nat → bind_noted p →
  asked_for (mkTraffic s (<[i := (BindRequest r, p)]> l)) (ba_room_id r) (ba_seat_id r)
    (ba_seat_address r).
Proof.
  intros Hi Hp. exists r, p. split; [|done]. cbn. apply list_elem_of_lookup. exists i.
  by apply list_lookup_insert_eq.
Qed.

Lemma coherent_go_on i rq p s l s' p' :
  coherent (mkTraffic s l) → l !! i = Some (rq, p) → advance rq p s = (s', p') →
  section_effect rq p s s' p' ∧ coherent (mkTraffic s' (<[i := (rq, p')]> l)).
Proof.
  intros [Hs Hn Hreq Hb Hr] Hi Hadv. cbn in *.
  pose proof (advance_effect rq p s s' p' Hs Hn (Hreq i rq p Hi) Hadv) as He. split; [done|].
  pose proof (lookup_lt_Some _ _ _ Hi) as Hlt. destruct He as [Hf Hn' Hok Hnote Hsent Hfol].
  split; cbn; [apply Hf|done| | |].
  - intros j rq0 p0 Hj. apply list_lookup_insert_Some in Hj as [(<- & [= <- <-] & _)|(_ & Hj)]; [done|].
    eapply request_ok_further; [done|by eapply Hreq].
  - intros id seat a. rewrite Hnote. unfold noted_by, bind_into.
    destruct rq as [r|r|r|r], p as [| |h|h| |fr]; try by (intros Ha; eapply asked_for_go_on, Hb).
    case_decide as Hid; [subst id|by (intros Ha; eapply asked_for_go_on, Hb)].
    intros [[<- <-]|[_ Ha]]%lookup_insert_Some; [|by eapply asked_for_go_on, Hb].
    apply asked_for_now; [done|]. cbn in Hfol. by rewrite Hfol.
  - intros id seat a. rewrite Hsent. unfold sent_by, bind_into.
    destruct rq as [r|r|r|r], p as [| |h|h| |fr]; try by (intros Ha; eapply asked_for_go_on, Hr).
    case_decide as Hid; [subst id|by (intros Ha; eapply asked_for_go_on, Hr)].
    intros [[<- <-]|[_ Ha]]%lookup_insert_Some; [|by eapply asked_for_go_on, Hr].
    apply asked_for_now; [done|]. cbn in Hfol. by rewrite Hfol.
Qed.

Lemma harmless_seats cmd s :
  harmless cmd = true → s.1 ⊆ (seats_after cmd s).1 ∧ (seats_after cmd s).2 = s.2.
Proof. destruct s as [seated bound], cmd; try done; cbn; intros _; split; set_solver. Qed.

Lemma traffic_step_effect c c' :
  traffic_step c c' → coherent c →
  coherent c' ∧ further (tf_server c) (tf_server c').
Proof.
  destruct 1 as [rq s l|i rq p s l s' p' Hi Hadv|h v ho l|id h cmd v ho l Hid Hcmd|id s l|v ho w n l];
    intros Hc.
  - split; [|apply further_refl, Hc]. destruct Hc as [Hs Hn Hreq Hb Hr]. split; try done.
    + intros i rq0 p0 Hi. cbn in Hi. apply lookup_snoc_Some in Hi as [[_ Hi]|[_ [= <- <-]]];
        [by eapply Hreq|]. by split; destruct rq.
    + intros id seat a Ha. by apply asked_for_arrive with s, Hb.
    + intros id seat a Ha. by apply asked_for_arrive with s, Hr.
  - destruct (coherent_go_on i rq p s l s' p' Hc Hi Hadv) as [He Hc']. split; [done|apply He].
  - destruct (turned h v ho (ch_sound _ Hc)) as [Hs Hseats].
    assert (further (v, ho) (v, house_turn config h ho)) as Hf.
    { split; [done|done|done|done|]. intros id. by rewrite Hseats. }
    split; [|done]. eapply coherent_beside; [done|done| |done|].
    + intros id. rewrite Hseats. apply (ch_seats _ Hc).
    + intros id. by rewrite Hseats.
  - destruct (house_enqueue h cmd ho) as [ho' r] eqn:Hq.
    destruct (enqueued id h cmd v ho ho' r (ch_sound _ Hc) Hid Hq) as (_ & Hs & Hseats). cbn.
    assert (∀ id', (room_seats (v, ho) id').1 ⊆ (room_seats (v, ho') id').1 ∧
      (room_seats (v, ho') id').2 = (room_seats (v, ho) id').2) as Hmore.
    { intros id'. rewrite Hseats. unfold commanded. case_decide as Heq; [subst id'|done].
      by apply harmless_seats. }
    assert (further (v, ho) (v, ho')) as Hf by (split; [done|done|done|done|apply Hmore]).
    split; [|done]. eapply coherent_beside; [done|done| |done|apply Hmore].
    intros id'. etrans; [apply (ch_seats _ Hc)|apply Hmore].
  - destruct (ensure_room id s) as [s' r] eqn:Hrun.
    destruct (spawned id s s' r (ch_sound _ Hc) Hrun) as (Hf & Hj & Hb & Hseats). cbn.
    split; [|done]. eapply coherent_beside; [done|done| |done|done].
    intros id'. rewrite Hj. etrans; [apply (ch_seats _ Hc)|apply (fu_seated _ _ Hf)].
  - assert (sound (v, mkHouse w (ho_tasks ho) (ho_next_task ho) n)) as Hs.
    { destruct (ch_sound _ Hc) as [Hu Hr Ha Hno]. by split. }
    split; [|by split]. eapply coherent_beside; [done|by split|apply (ch_seats _ Hc)|done|done].
Qed.

Lemma coherent_new w : coherent (traffic_new w).
Proof.
  split; cbn.
  - split; cbn; [by split| | |done]; intros id; [intros h|]; rewrite lookup_empty; [done|by intros []].
  - intros id. unfold joined_of. cbn. by rewrite lookup_empty.
  - intros i rq p. by rewrite lookup_nil.
  - intros id seat a. unfold bound_of. cbn. by rewrite lookup_empty.
  - intros id seat a. unfold room_seats, room_task. cbn. by rewrite lookup_empty.
Qed.

Lemma traffic_runs c c' :
  rtc traffic_step c c' → coherent c →
  coherent c' ∧ mx_value (rooms (fst (tf_server c))) ⊆ mx_value (rooms (fst (tf_server c'))) ∧
  mx_value (room_chain_accounts (fst (tf_server c)))
  ⊆ mx_value (room_chain_accounts (fst (tf_server c'))).
Proof.
  induction 1 as [c|c c1 c' Hstep Hrun IH]; intros Hc; [done|].
  destruct (traffic_step_effect c c1 Hstep Hc) as [Hc1 [_ Hr Ha _ _]].
  destruct (IH Hc1) as (Hc' & Hr' & Ha'). split; [done|]. split; by etrans.
Qed.

(** ** Runs on which the bindings of a seat do not overlap *)

(** The map has the address under way, and the room's address when none is. *)
Definition tidy (c : Traffic) : Prop := ∀ id seat,
  (∀ i r h, tf_requests c !! i = Some (BindRequest r, Noted h) → ba_room_id r = id →
     ba_seat_id r = seat → bound_of (tf_server c) id !! seat = Some (ba_seat_address r)) ∧
  (¬ binding_under_way c id seat →
   bound_of (tf_server c) id !! seat = (room_seats (tf_server c) id).2 !! seat).

Lemma under_way_at c i r h :
  tf_requests c !! i = Some (BindRequest r, Noted h) →
  binding_under_way c (ba_room_id r) (ba_seat_id r).
Proof. intros Hi. exists r, h. split; [|done]. apply list_elem_of_lookup. by exists i. Qed.

(** The same requests are under way and the addresses have not moved. *)
Lemma tidy_beside c c' :
  tidy c →
  (∀ i r h, tf_requests c' !! i = Some (BindRequest r, Noted h) ↔
            tf_requests c !! i = Some (BindRequest r, Noted h)) →
  (∀ id, bound_of (tf_server c') id = bound_of (tf_server c) id) →
  (∀ id, (room_seats (tf_server c') id).2 = (room_seats (tf_server c) id).2) → tidy c'.
Proof.
  intros Ht Hl Hb Hs id seat. destruct (Ht id seat) as [H1 H2]. split.
  - intros i r h Hi. rewrite Hb. by eapply H1, Hl.
  - intros Hnone. rewrite Hb, Hs. apply H2. intros (r & h & Hin & Hid & Hseat).
    apply list_elem_of_lookup in Hin as [i Hi]. apply Hnone. subst id seat.
    by eapply under_way_at, Hl.
Qed.

Lemma tidy_noted i r h s l s' :
  tidy (mkTraffic s l) → l !! i = Some (BindRequest r, Found h) →
  section_effect (BindRequest r) (Found h) s s' (Noted h) →
  one_at_a_time (mkTraffic s' (<[i := (BindRequest r, Noted h)]> l)) →
  tidy (mkTraffic s' (<[i := (BindRequest r, Noted h)]> l)).
Proof.
  intros Ht Hi He Hone id seat. destruct (Ht id seat) as [H1 H2]. cbn in *.
  pose proof (lookup_lt_Some _ _ _ Hi) as Hlt.
  rewrite (se_noted _ _ _ _ _ He). cbn. unfold bind_into. split.
  - intros j r' h' Hj <- <-.
    destruct (decide (j = i)) as [->|Hne].
    + rewrite list_lookup_insert_eq in Hj by done. injection Hj as <- <-.
      rewrite decide_True by done. apply lookup_insert_eq.
    + assert (l !! j = Some (BindRequest r', Noted h')) as Hj'.
      { by rewrite list_lookup_insert_ne in Hj. }
      pose proof (Hone j i r' r h' h Hj (list_lookup_insert_eq _ _ _ Hlt)) as Hsame. cbn in Hsame.
      specialize (H1 j r' h' Hj' eq_refl eq_refl).
      case_decide as Hid; [|done]. rewrite lookup_insert_ne; [done|]. intros Hseat.
      by apply Hne, Hsame.
  - intros Hnone. rewrite (se_sent _ _ _ _ _ He). cbn.
    assert (¬ (id = ba_room_id r ∧ seat = ba_seat_id r)) as Hother.
    { intros [-> ->]. apply Hnone. apply (under_way_at _ i r h). cbn. by apply list_lookup_insert_eq. }
    assert (¬ binding_under_way (mkTraffic s l) id seat) as Hnone'.
    { intros (r' & h' & Hin & Hid & Hseat). apply Hnone. exists r', h'. split; [|done]. cbn in *.
      apply list_elem_of_lookup in Hin as [j Hj]. apply list_elem_of_lookup. exists j.
      rewrite list_lookup_insert_ne; [done|]. intros ->. congruence. }
    rewrite <- (H2 Hnone'). case_decide as Hid; [|done].
    rewrite lookup_insert_ne; [done|]. naive_solver.
Qed.

Lemma tidy_sent i r h s l s' :
  tidy (mkTraffic s l) → one_at_a_time (mkTraffic s l) →
  l !! i = Some (BindRequest r, Noted h) →
  section_effect (BindRequest r) (Noted h) s s' (Finished (Ok tt)) →
  tidy (mkTraffic s' (<[i := (BindRequest r, Finished (Ok tt))]> l)).
Proof.
  intros Ht Hone Hi He id seat. destruct (Ht id seat) as [H1 H2]. cbn in *.
  pose proof (lookup_lt_Some _ _ _ Hi) as Hlt.
  rewrite (se_noted _ _ _ _ _ He). cbn. split.
  - intros j r' h' Hj. destruct (decide (j = i)) as [->|Hne].
    + by rewrite list_lookup_insert_eq in Hj.
    + rewrite list_lookup_insert_ne in Hj by done. by apply (H1 j r' h' Hj).
  - intros Hnone. rewrite (se_sent _ _ _ _ _ He). cbn. unfold bind_into.
    destruct (decide (id = ba_room_id r ∧ seat = ba_seat_id r)) as [[-> ->]|Hother].
    + rewrite decide_True, lookup_insert_eq by done. by apply (H1 i r h).
    + assert (¬ binding_under_way (mkTraffic s l) id seat) as Hnone'.
      { intros (r' & h' & Hin & Hid & Hseat). apply Hnone. exists r', h'. split; [|done]. cbn in *.
        apply list_elem_of_lookup in Hin as [j Hj]. apply list_elem_of_lookup. exists j.
        rewrite list_lookup_insert_ne; [done|]. intros <-. rewrite Hi in Hj. injection Hj as <- <-.
        naive_solver. }
      rewrite (H2 Hnone'). case_decide as Hid; [|done]. rewrite lookup_insert_ne; [done|]. naive_solver.
Qed.

Lemma tidy_go_on i rq p s l s' p' :
  tidy (mkTraffic s l) → one_at_a_time (mkTraffic s l) → l !! i = Some (rq, p) →
  section_effect rq p s s' p' → one_at_a_time (mkTraffic s' (<[i := (rq, p')]> l)) →
  tidy (mkTraffic s' (<[i := (rq, p')]> l)).
Proof.
  intros Ht Hone Hi He Hone'. pose proof (se_follows _ _ _ _ _ He) as Hf.
  assert ((∀ r h, (rq, p) ≠ (BindRequest r, Found h)) → (∀ r h, (rq, p) ≠ (BindRequest r, Noted h)) →
    tidy (mkTraffic s' (<[i := (rq, p')]> l))) as Hother.
  { intros H1 H2. eapply tidy_beside; [exact Ht| | |].
    - intros j r h. cbn. destruct (decide (j = i)) as [->|Hne]; [|by rewrite list_lookup_insert_ne].
      rewrite list_lookup_insert_eq by (by eapply lookup_lt_Some). rewrite Hi.
      split; intros [= -> ->]; [|by destruct (H2 r h)].
      destruct p; cbn in Hf; try (by destruct Hf); try (by subst); by destruct (H1 r h0).
    - intros id. cbn. rewrite (se_noted _ _ _ _ _ He). destruct rq, p; try done. by destruct (H1 r h).
    - intros id. cbn. rewrite (se_sent _ _ _ _ _ He). destruct rq, p; try done. by destruct (H2 r h). }
  destruct rq as [r|r|r|r]; try (by apply Hother).
  destruct p as [| |h|h| |fr]; try (by apply Hother); cbn in Hf; subst p'.
  - by eapply tidy_noted.
  - by eapply tidy_sent.
Qed.

Lemma orderly_step_tidy c c' :
  orderly_step c c' → coherent c → one_at_a_time c → tidy c → tidy c'.
Proof.
  intros [Hstep Hone'] Hc Hone Ht. pose proof (traffic_step_effect c c' Hstep Hc) as [Hc' _].
  destruct Hstep as [rq s l|i rq p s l s' p' Hi Hadv|h v ho l|id h cmd v ho l Hid Hcmd|id s l|v ho w n l].
  - eapply tidy_beside; [exact Ht| |done|done]. intros i r h. cbn. split.
    + intros [[_ Hi]|[_ [=]]]%lookup_snoc_Some. done.
    + intros Hi. by apply lookup_app_l_Some.
  - destruct (coherent_go_on i rq p s l s' p' Hc Hi Hadv) as [He _]. pose proof (se_follows _ _ _ _ _ He) as Hf.
    by eapply tidy_go_on.
  - destruct (turned h v ho (ch_sound _ Hc)) as [Hs Hseats].
    eapply tidy_beside; [exact Ht|done|done|]. intros id. cbn. by rewrite Hseats.
  - destruct (house_enqueue h cmd ho) as [ho' r] eqn:Hq.
    destruct (enqueued id h cmd v ho ho' r (ch_sound _ Hc) Hid Hq) as (_ & Hs & Hseats).
    eapply tidy_beside; [exact Ht|done|done|]. intros id'. cbn. rewrite Hseats. unfold commanded.
    case_decide as Heq; [subst id'|done]. by apply harmless_seats.
  - destruct (ensure_room id s) as [s' r] eqn:Hrun.
    destruct (spawned id s s' r (ch_sound _ Hc) Hrun) as (Hf & Hj & Hb & Hseats).
    by eapply tidy_beside.
  - by eapply tidy_beside.
Qed.

Lemma one_at_a_time_new w : one_at_a_time (traffic_new w).
Proof. intros i j r r' h h' Hi. cbn in Hi. by rewrite lookup_nil in Hi. Qed.

Lemma orderly_runs c c' :
  rtc orderly_step c c' → coherent c → one_at_a_time c → tidy c → tidy c'.
Proof.
  induction 1 as [c|c c1 c' Hstep Hrun IH]; intros Hc Hone Ht; [done|].
  apply IH; [by apply (traffic_step_effect c c1 (proj1 Hstep))|apply Hstep|by eapply orderly_step_tidy].
Qed.
Lemma tidy_new w : tidy (traffic_new w).
Proof.
  intros id seat. split; [intros i r h Hi; cbn in Hi; by rewrite lookup_nil in Hi|]. intros _.
  unfold bound_of, room_seats, room_task. cbn. by rewrite !lookup_empty.
Qed.

Lemma bound_seat_address_run (s : Server) id seat :
  unlocked (fst s) → bound_seat_address id seat s = (s, Ok (bound_of s id !! seat)).
Proof.
  destruct s as [v ho]. intros Hu. cbn in Hu.
  unfold bound_seat_address, lock_bound, service, locked, lock, bound_of. mrun. cbn.
  rewrite (ul_bound _ Hu). by destruct (mx_value (bound_addresses v) !! id).
Qed.
Lemma room_chain_signer_run (s : Server) id a :
  unlocked (fst s) → mx_value (room_chain_accounts (fst s)) !! id = Some a →
  room_chain_signer id s = (s, Ok (Some (ca_address a, ca_private_key_hex a))).
Proof.
  destruct s as [v ho]. intros Hu Ha. cbn in Hu, Ha. unfold room_chain_signer, lock_accounts, service, locked, lock.
  mrun. cbn. by rewrite (ul_accounts _ Hu), Ha.
Qed.

(** C9. The service and its rooms agree, however the requests, the callbacks, the ticks
    and the actors of the rooms interleave: a request lets go of the service's locks
    between its sections, and its command waits in the room's mailbox. A room keeps its
    handle and its account for good, and the account is one of a key: the address and
    the private key handed out belong together. A seat that may bind an address or get
    ready sits in the room once that has worked off its mailbox. Every address that the
    map or the room has for a seat was asked for by a request to bind it that had passed
    the check of its seat. When no two bindings of one seat were ever between their
    note in the map and their command to the room at once, then the map has for every
    seat with no binding under way the very address that the room has once it has worked
    off its mailbox. *)
Theorem service_agrees_with_its_rooms w c c' id h
    (Hr : rtc traffic_step (traffic_new w) c) (Hr' : rtc traffic_step c c')
    (Hid : mx_value (rooms (fst (tf_server c))) !! id = Some h) :
  let s := tf_server c in
  let s' := tf_server c' in
  (∃ t, ho_tasks (snd s) !! handle_sender h = Some t ∧ tk_room_id t = id ∧
     let room := caught_up (snd s) t in
     (∀ seat, snd (ensure_joined id seat s) = Ok tt → seat ∈ rs_seated room) ∧
     (∀ seat a, rs_bound_addresses room !! seat = Some a → asked_for c id seat a) ∧
     (rtc orderly_step (traffic_new w) c → ∀ seat, ¬ binding_under_way c id seat →
        bound_seat_address id seat s = (s, Ok (rs_bound_addresses room !! seat)))) ∧
  (∀ seat a, snd (bound_seat_address id seat s) = Ok (Some a) → asked_for c id seat a) ∧
  (∃ k, room_chain_signer id s
        = (s, Ok (Some (evm_address_from_secp256k1_verifying_key (verifying_key k),
                        hex_encode (signing_key_to_bytes (W := W) k))))) ∧
  get_room id s' = (s', Ok h) ∧
  snd (room_chain_signer id s') = snd (room_chain_signer id s).
Proof.
  destruct (traffic_runs _ _ Hr (coherent_new w)) as (Hc & _).
  destruct (traffic_runs _ _ Hr' Hc) as (Hc' & Hrooms & Haccs).
  destruct (tf_server c) as [v ho] eqn:Hsc. destruct (tf_server c') as [v' ho'] eqn:Hsc'. cbn zeta.
  pose proof (ch_sound _ Hc) as Hs. pose proof (ch_sound _ Hc') as Hs'. rewrite Hsc in Hs. rewrite Hsc' in Hs'.
  pose proof (so_unlocked _ Hs) as Hu. pose proof (so_unlocked _ Hs') as Hu'. cbn in *.
  destruct (so_rooms _ Hs id h Hid) as (_ & t & Ht & Htid). cbn in Ht.
  destruct (so_accounts _ Hs id) as (a & Ha & k & Haddr & Hhex); [by eexists|]. cbn in Ha.
  assert (room_seats (v, ho) id
    = (rs_seated (caught_up ho t), rs_bound_addresses (caught_up ho t))) as Hseats.
  { unfold room_seats, room_task. cbn. rewrite Hid. cbn. rewrite Ht. cbn. by rewrite <- (caught_up_seats ho). }
  split; [|split; [|split; [|split]]].
  - exists t. split; [done|]. split; [done|]. split; [|split].
    + intros seat Hj. apply ensure_joined_run in Hj; [|done].
      pose proof (ch_seats _ Hc id) as Hn. rewrite Hsc, Hseats in Hn. by apply Hn.
    + intros seat a0 Ha0. apply (ch_room_bound _ Hc). by rewrite Hsc, Hseats.
    + intros Ho seat Hnone. rewrite bound_seat_address_run by done.
      destruct (orderly_runs _ _ Ho (coherent_new w) (one_at_a_time_new w) (tidy_new w) id seat) as [_ H].
      rewrite Hsc, Hseats in H. by rewrite H.
  - intros seat a0. rewrite bound_seat_address_run by done. intros [= Ha0].
    apply (ch_bound _ Hc). by rewrite Hsc.
  - exists k. by rewrite (room_chain_signer_run (v, ho) id a), Haddr, Hhex.
  - rewrite get_room_run by done. by rewrite (lookup_weaken _ _ _ _ Hid Hrooms).
  - rewrite (room_chain_signer_run (v, ho) id a), (room_chain_signer_run (v', ho') id a); try done.
    by eapply lookup_weaken.
Qed.

(** ** The sequential model is one schedule of this one *)

Definition at_once (rq : Request) : M Server RpcGatewayError unit :=
  match rq with
  | JoinRequest r => join r
  | ReadyRequest r => ready r
  | BindRequest r => bind_address r
  | KeysRequest r => bind_session_keys r
  end.

Lemma go_last rq p s s' p' l :
  advance rq p s = (s', p') →
  traffic_step (mkTraffic s (l ++ [(rq, p)])) (mkTraffic s' (l ++ [(rq, p')])).
Proof.
  intros Hadv. replace (l ++ [(rq, p')]) with (<[length l := (rq, p')]> (l ++ [(rq, p)])).
  - apply (go_on _ rq p); [|done]. rewrite lookup_app_r by lia. by rewrite Nat.sub_diag.
  - rewrite insert_app_r_alt by lia. by rewrite Nat.sub_diag.
Qed.

Lemma turns_go n h v (ho : House W) l :
  rtc traffic_step (mkTraffic (v, ho) l) (mkTraffic (v, house_run (task_turns config n) h ho) l).
Proof.
  revert ho. induction n as [|n IH]; intros ho.
  - unfold house_run. destruct (ho_tasks ho !! handle_sender h) as [t|] eqn:Ht; [|done]. cbn.
    rewrite insert_id by done. by destruct ho.
  - eapply rtc_l; [apply (go_turn h)|].
    replace (house_run (task_turns config (S n)) h ho)
      with (house_run (task_turns config n) h (house_turn config h ho)); [apply IH|].
    unfold house_turn, house_run. destruct (ho_tasks ho !! handle_sender h) as [t|] eqn:Ht; [|by rewrite Ht].
    cbn [task_turns]. destruct (task_turn config (ho_world ho) t) as [w1 t1].
    cbn [ho_tasks ho_world ho_next_task ho_next_reply]. rewrite lookup_insert_eq.
    destruct (task_turns config n w1 t1) as [w2 t2]. by rewrite insert_insert_eq.
Qed.
Lemma work_goes h v (ho : House W) l :
  rtc traffic_step (mkTraffic (v, ho) l) (mkTraffic (v, house_work config h ho) l).
Proof.
  unfold house_work. destruct (ho_tasks ho !! handle_sender h) as [t|] eqn:Ht.
  - replace (house_run (task_serve config) h ho)
      with (house_run (task_turns config (length (tk_mailbox t))) h ho); [apply turns_go|].
    unfold house_run. by rewrite Ht.
  - unfold house_run. by rewrite Ht.
Qed.

(** The command of a request, with the room working it off at once. *)
Lemma send_on_goes rq p h cmd v ho l :
  (∀ s, next_section rq p s = send_on h cmd (Finished (Ok tt)) s) →
  rtc traffic_step (mkTraffic (v, ho) (l ++ [(rq, p)]))
    (let '(s, r) := upstream (house_send config h cmd) (v, ho) in mkTraffic s (l ++ [(rq, Finished r)])).
Proof.
  intros Hnext. unfold upstream, world, M_map_err, house_send. mrun.
  assert (advance rq p (v, ho) = let '(ho', r) := house_enqueue h cmd ho in
    ((v, ho'), Finished (result_map_err Upstream r))) as Hadv.
  { unfold advance. rewrite Hnext. unfold send_on, upstream, world, M_map_err. mrun.
    by destruct (house_enqueue h cmd ho) as [ho' [[]|e]]. }
  destruct (house_enqueue h cmd ho) as [ho' [[]|e]]; cbn.
  - eapply rtc_l; [by apply go_last, Hadv|]. apply work_goes.
  - apply rtc_once, go_last, Hadv.
Qed.

(** The check of the seat and the search for the room, which only look. *)
Lemma looks_go rq v (ho : House W) l k :
  (∀ p, p = Arrived ∨ p = Checked → ∀ s, next_section rq p s
     = match p with Arrived => check_seat rq s | _ => find_room rq s end) →
  (∀ h, rtc traffic_step (mkTraffic (v, ho) (l ++ [(rq, Found h)]))
     (let '(s, r) := k h (v, ho) in mkTraffic s (l ++ [(rq, Finished r)]))) →
  rtc traffic_step (mkTraffic (v, ho) (l ++ [(rq, Arrived)]))
    (let '(s, r) := (ensure_joined (request_room rq) (request_seat rq);;
                     h ← get_room (request_room rq); k h) (v, ho) in
     mkTraffic s (l ++ [(rq, Finished r)])).
Proof.
  intros Hnext Hk. unfold mbind, M_mbind, M_bind.
  pose proof (ensure_joined_reads (request_room rq) (request_seat rq) (v, ho)) as Hj.
  assert (∀ p, p = Arrived ∨ p = Checked → advance rq p (v, ho)
    = let '(s, r) := match p with Arrived => check_seat rq (v, ho) | _ => find_room rq (v, ho) end in
      (s, phase_of r)) as Hadv.
  { intros p Hp. unfold advance. by rewrite Hnext. }
  pose proof (Hadv Arrived (or_introl eq_refl)) as H1. pose proof (Hadv Checked (or_intror eq_refl)) as H2.
  clear Hadv Hnext. unfold check_seat, find_room in H1, H2. unfold mbind, M_mbind, M_bind in H1, H2.
  destruct (ensure_joined _ _ (v, ho)) as [s1 [[]|e]]; cbn in Hj; subst s1.
  2: { apply rtc_once. by apply go_last. }
  eapply rtc_l; [by apply go_last, H1|].
  assert (fst (get_room (request_room rq) (v, ho)) = (v, ho)) as Hg.
  { unfold get_room, lock_rooms, service, locked, lock. mrun. cbn. by repeat case_match. }
  destruct (get_room _ (v, ho)) as [s1 [h|e]]; cbn in Hg; subst s1.
  - eapply rtc_l; [by apply go_last, H2|]. apply Hk.
  - apply rtc_once. by apply go_last.
Qed.

Lemma bind_goes r h v (ho : House W) l :
  rtc traffic_step (mkTraffic (v, ho) (l ++ [(BindRequest r, Found h)]))
    (let '(s, x) := (note_address r;;
                     upstream (room_bind_address h (ba_seat_id r) (ba_seat_address r))) (v, ho) in
     mkTraffic s (l ++ [(BindRequest r, Finished x)])).
Proof.
  unfold mbind, M_mbind, M_bind.
  assert (advance (BindRequest r) (Found h) (v, ho)
    = let '(s, x) := note_address r (v, ho) in
      (s, match x with Ok _ => Noted h | Err e => Finished (Err e) end)) as Hadv.
  { unfold advance. cbn [next_section]. mrun. by destruct (note_address r (v, ho)) as [s [[]|e]]. }
  destruct (note_address r (v, ho)) as [[v1 ho1] [[]|e]].
  - eapply rtc_l; [by apply go_last, Hadv|]. by apply send_on_goes.
  - apply rtc_once. by apply go_last.
Qed.

Lemma join_goes r v (ho : House W) l :
  rtc traffic_step (mkTraffic (v, ho) (l ++ [(JoinRequest r, Arrived)]))
    (let '(s, x) := join r (v, ho) in mkTraffic s (l ++ [(JoinRequest r, Finished x)])).
Proof.
  unfold join, mbind, M_mbind, M_bind.
  assert (advance (JoinRequest r) Arrived (v, ho)
    = let '(s, x) := get_room (rr_room_id r) (v, ho) in
      (s, match x with Ok h => Found h | Err e => Finished (Err e) end)) as H1.
  { unfold advance. cbn [next_section]. unfold find_room. mrun. by destruct (get_room _ (v, ho)) as [s [h|e]]. }
  destruct (get_room _ (v, ho)) as [[v1 ho1] [h|e]]; [|apply rtc_once; by apply go_last].
  eapply rtc_l; [by apply go_last, H1|]. clear H1.
  assert (advance (JoinRequest r) (Found h) (v1, ho1)
    = let '(ho', x) := house_enqueue h (Join (rr_seat_id r)) ho1 in
      ((v1, ho'), match x with Ok _ => Sent | Err e => Finished (Err (Upstream e)) end)) as H2.
  { unfold advance. cbn [next_section]. unfold send_on, upstream, world, M_map_err. mrun.
    by destruct (house_enqueue _ _ ho1) as [ho' [[]|e]]. }
  unfold upstream, world, M_map_err, room_join. cbn [send request_rooms house_rooms house_actors].
  unfold house_send, mbind, M_mbind, M_bind.
  destruct (house_enqueue _ _ ho1) as [ho2 [[]|e]]; cbn; [|apply rtc_once; by apply go_last].
  eapply rtc_l; [by apply go_last, H2|]. etrans; [apply (work_goes h)|].
  assert (advance (JoinRequest r) Sent (v1, house_work config h ho2)
    = let '(s, x) := note_joined r (v1, house_work config h ho2) in (s, Finished x)) as H3.
  { unfold advance. cbn [next_section]. mrun. by destruct (note_joined r _) as [s [[]|e]]. }
  destruct (note_joined r _) as [s x]. apply rtc_once. by apply go_last.
Qed.

(** A request that is not interrupted, with its room at work as soon as the command is
    there, does what the operation of [RoomService] does over [house_send]. *)
Theorem request_runs_at_once rq s l :
  rtc traffic_step (mkTraffic s l)
    (let '(s', r) := at_once rq s in mkTraffic s' (l ++ [(rq, Finished r)])).
Proof.
  eapply rtc_l; [apply (go_arrive rq)|]. destruct s as [v ho]. destruct rq as [r|r|r|r]; cbn [at_once].
  - apply join_goes.
  - apply (looks_go (ReadyRequest r) v ho l (λ h, upstream (room_ready h (rr_seat_id r)))).
    { by intros p [-> | ->]. }
    intros h. by apply send_on_goes.
  - apply (looks_go (BindRequest r) v ho l (λ h, note_address r;;
      upstream (room_bind_address h (ba_seat_id r) (ba_seat_address r)))).
    { by intros p [-> | ->]. }
    intros h. apply bind_goes.
  - apply (looks_go (KeysRequest r) v ho l (λ h, upstream (room_bind_session_keys h (bk_seat_id r)
      (bk_card_encrypt_pubkey r) (bk_request_verify_pubkey r) (bk_key_algo r) (bk_proof_signature r)))).
    { by intros p [-> | ->]. }
    intros h. by apply send_on_goes.
Qed.

(** ** Runs that can be computed *)

Inductive Move := MArrive (rq : Request) | MGo (i : nat) | MTurn (h : RoomHandle) | MOpen (id : RoomId).

Definition make_move (c : Traffic) (m : Move) : Traffic :=
  let '(mkTraffic s l) := c in
  match m with
  | MArrive rq => mkTraffic s (l ++ [(rq, Arrived)])
  | MGo i =>
      match l !! i with
      | Some (rq, p) => let '(s, p) := advance rq p s in mkTraffic s (<[i := (rq, p)]> l)
      | None => c
      end
  | MTurn h => let '(v, ho) := s in mkTraffic (v, house_turn config h ho) l
  | MOpen id => mkTraffic (fst (ensure_room id s)) l
  end.
Lemma move_goes c m : c = make_move c m ∨ traffic_step c (make_move c m).
Proof.
  destruct c as [[v ho] l], m as [rq|i|h|id]; cbn.
  - right. apply go_arrive.
  - destruct (l !! i) as [[rq p]|] eqn:Hi; [|by left]. right.
    destruct (advance rq p (v, ho)) as [s' p'] eqn:Hadv. by eapply go_on.
  - right. apply go_turn.
  - right. apply go_room.
Qed.
Lemma moves_go ms : ∀ c, rtc traffic_step c (foldl make_move c ms).
Proof.
  induction ms as [|m ms IH]; intros c; [done|]. cbn.
  destruct (move_goes c m) as [<-|Hstep]; [apply IH|]. eapply rtc_l; [exact Hstep|apply IH].
Qed.

(** The bindings under way, and a test that no two are of one seat. *)
Definition under_way (x : Request * Phase) : option (RoomId * SeatId) :=
  match x with (BindRequest r, Noted _) => Some (ba_room_id r, ba_seat_id r) | _ => None end.
Lemma distinct_under_way l :
  NoDup (omap under_way l) → ∀ i j x y k,
  l !! i = Some x → l !! j = Some y → under_way x = Some k → under_way y = Some k → i = j.
Proof.
  induction l as [|a l IH]; intros Hd i j x y k Hi Hj Hx Hy; [by rewrite lookup_nil in Hi|].
  assert (∀ n z, l !! n = Some z → under_way z = Some k → under_way a = Some k → False) as Hno.
  { intros n z Hn Hz Ha. cbn in Hd. rewrite Ha in Hd. apply NoDup_cons in Hd as [Hd _]. apply Hd.
    apply list_elem_of_omap. exists z. split; [|done]. by eapply list_elem_of_lookup_2. }
  assert (NoDup (omap under_way l)) as Hd'.
  { cbn in Hd. destruct (under_way a); [by apply NoDup_cons in Hd as [_ Hd]|done]. }
  destruct i as [|i], j as [|j]; cbn in Hi, Hj; [done| | |f_equal; by eapply IH].
  - injection Hi as ->. by destruct (Hno j y Hj Hy Hx).
  - injection Hj as ->. by destruct (Hno i x Hi Hx Hy).
Qed.
Lemma one_at_a_time_test c : NoDup (omap under_way (tf_requests c)) → one_at_a_time c.
Proof.
  intros Hd i j r r' h h' Hi Hj Hroom Hseat. eapply distinct_under_way; [done|exact Hi|exact Hj|done|].
  cbn. by rewrite Hroom, Hseat.
Qed.

Lemma nothing_under_way c id seat :
  omap under_way (tf_requests c) = [] → ¬ binding_under_way c id seat.
Proof.
  intros Hnone (r & h & Hin & _). apply (not_elem_of_nil (ba_room_id r, ba_seat_id r)).
  rewrite <- Hnone. apply list_elem_of_omap. by exists (BindRequest r, Noted h).
Qed.

Fixpoint orderly (ms : list Move) (c : Traffic) : bool :=
  match ms with
  | [] => true
  | m :: ms =>
      let c := make_move c m in
      bool_decide (NoDup (omap under_way (tf_requests c))) && orderly ms c
  end.
Lemma orderly_moves_go ms : ∀ c, orderly ms c = true → rtc orderly_step c (foldl make_move c ms).
Proof.
  induction ms as [|m ms IH]; intros c Ho; [done|]. cbn in Ho.
  apply andb_true_iff in Ho as [Hone%bool_decide_eq_true Ho]. specialize (IH _ Ho). cbn.
  destruct (move_goes c m) as [Heq|Hstep]; [by rewrite <- Heq in IH |- *|].
  eapply rtc_l; [|exact IH]. split; [done|]. by apply one_at_a_time_test.
Qed.
End Requests.

(** ** A small server *)

#[local] Existing Instances demo_cards demo_clock demo_instant demo_ids demo_shuffler demo_secrets
  demo_no_crypto demo_uuid_text demo_codec demo_offline toy_secp demo_keys.

Abbreviation demo_moves := (foldl (make_move RoomActorConfig_default)) (only parsing).
Definition demo_traffic_new : Traffic := traffic_new (mkDemoWorld 0 100).
Definition demo_bind_to (address : string) : Request :=
  BindRequest (mkBindAddress 7 2 address demo_meta).

(** Seat 2 joins, and binds an address while it also gets ready. *)
Definition demo_orderly_moves : list Move :=
  [MOpen 7; MArrive (JoinRequest demo_join); MGo 0; MGo 0; MGo 0; MArrive (demo_bind_to "0xab");
   MGo 1; MArrive (ReadyRequest demo_join); MGo 1; MGo 2; MGo 1; MTurn (mkHandle 0); MGo 2; MGo 2;
   MGo 1].
Definition demo_orderly : Traffic := demo_moves demo_traffic_new demo_orderly_moves.
Lemma demo_orderly_facts :
  orderly RoomActorConfig_default demo_orderly_moves demo_traffic_new = true ∧
  mx_value (rooms (fst (tf_server demo_orderly))) !! 7 = Some (mkHandle 0) ∧
  omap under_way (tf_requests demo_orderly) = [] ∧
  snd (bound_seat_address 7 2 (tf_server demo_orderly)) = Ok (Some "0xab"%string) ∧
  snd (ensure_joined 7 2 (tf_server demo_orderly)) = Ok tt ∧
  (λ t, length (tk_mailbox t)) <$> ho_tasks (snd (tf_server demo_orderly)) !! 0 = Some 2%nat.
Proof. vm_compute. auto 10. Qed.

(** With two commands still in its mailbox, the room will have the seat's address. *)
Lemma service_agrees_with_its_rooms_witness :
  ∃ t, ho_tasks (snd (tf_server demo_orderly)) !! 0 = Some t ∧
    rs_bound_addresses (caught_up RoomActorConfig_default (snd (tf_server demo_orderly)) t) !! 2
    = Some "0xab"%string ∧
    2 ∈ rs_seated (caught_up RoomActorConfig_default (snd (tf_server demo_orderly)) t).
Proof.
  pose proof demo_orderly_facts as (Ho & Hid & Hnone & Hb & Hj & _).
  apply orderly_moves_go in Ho. change (foldl _ _ _) with demo_orderly in Ho.
  pose proof (moves_go RoomActorConfig_default demo_orderly_moves demo_traffic_new) as Hr.
  change (foldl _ _ _) with demo_orderly in Hr.
  destruct (service_agrees_with_its_rooms RoomActorConfig_default (mkDemoWorld 0 100) demo_orderly
    demo_orderly 7 (mkHandle 0) Hr (rtc_refl _ _) Hid) as [(t & Ht & _ & Hseats & _ & Hbound) _].
  exists t. split; [exact Ht|]. split; [|by apply Hseats].
  specialize (Hbound Ho 2 (nothing_under_way _ _ _ Hnone)). rewrite Hbound in Hb.
  exact (f_equal (λ r, match r with Ok x => x | Err _ => None end) Hb).
Defined.

(** Two bindings of one seat that overlap: both are answered with success, the mailbox
    of the room is empty, and the service has the one address and the room the other. *)
Definition demo_overlapping : Traffic := demo_moves demo_traffic_new
  [MOpen 7; MArrive (JoinRequest demo_join); MGo 0; MGo 0; MGo 0; MTurn (mkHandle 0);
   MArrive (demo_bind_to "0xaa"); MArrive (demo_bind_to "0xbb"); MGo 1; MGo 1; MGo 2; MGo 2;
   MGo 1; MGo 2; MGo 2; MGo 1; MTurn (mkHandle 0); MTurn (mkHandle 0)].
Theorem overlapping_binds_part_ways :
  rtc (traffic_step RoomActorConfig_default) demo_traffic_new demo_overlapping ∧
  map snd (tf_requests demo_overlapping) = replicate 3 (Finished (Ok tt)) ∧
  snd (bound_seat_address 7 2 (tf_server demo_overlapping)) = Ok (Some "0xbb"%string) ∧
  (λ t, (tk_mailbox t, rs_bound_addresses (tk_room t) !! 2))
    <$> ho_tasks (snd (tf_server demo_overlapping)) !! 0 = Some ([], Some "0xaa"%string).
Proof. split; [apply moves_go|]. vm_compute. auto. Qed.
