(* ===== verification/SettlementRooms.v ===== *)
(** The wallets that pay a settlement from the room's own account
    ([app-server/src/room_settlement_wallet_adapter.rs]): the signer of a room, the
    legacy transaction it signs, and the two adapters over the node's JSON-RPC.

    The room service and the world it lives in are the state of both adapters; the
    batch adapter also remembers how many transfers a transaction carries. The crates
    [rlp], [ethabi], [k256], [sha3] and [hex] are parameters. The chain's number in
    the signature wraps as in a release build.

    Then the room service as the automatic settlement sees it
    ([app-server/src/auto_settlement.rs], lines 131 to 147 and 349 to 364): the port
    through which a settlement reads the hand of a room and closes it, the provider of
    showdown inputs that falls back on the room, and the batch wallet beside the service,
    over [AppRoomService * W]: the service beside a world [W] that holds the tasks of its
    rooms, the stores, and the provider's own cache. *)

From stdpp Require Import base tactics option list gmap strings pretty.
From Stdlib Require Import NArith ZArith Lia.
From S2P Require Import Prelude.
From S2P Require Import Text.
From S2P Require Import Domain.
From S2P Require Import Ambient.
From S2P Require Import EngineState.
From S2P Require Import LedgerStore.
From S2P Require Import Settlement.
From S2P Require Import SettlementService.
From S2P Require Import AgentAuth.
From S2P Require Import JsonRpc.
From S2P Require Import EvmWallet.
From S2P Require Import Orchestrator.
From S2P Require Import AutoSettlement.
From S2P Require Import TableService.
From S2P Require Import GatewayTypes.
From S2P Require Import RoomHandles.
From S2P Require Import RoomService.

Local Open Scope N_scope.

(** What is appended to an [RlpStream], and [RlpStream::new_list(..).out()]. *)
Inductive RlpItem := RlpUint (n : N) | RlpBytes (bytes : list N).
Class Rlp := { rlp_list : list RlpItem → list N }.

(** [EvmSigningKey::from_slice], and the texts of the errors of [hex::decode] and of
    signing. *)
Class SigningKeyBytes `{Secp256k1} := {
  signing_key_from_slice : list N → result string SigningKey;
  hex_error : string → string;
  sign_error : string;
}.

Section Transactions.
Context {SK : Secp256k1} {HD : HexDecode} {RL : Rlp} {KB : SigningKeyBytes}.

(** [hex::decode(text).map_err(|e| format!("{what}: {e}"))] *)
Definition decode_hex (what text : string) : result string (list N) :=
  ok_or (what +:+ ": " +:+ hex_error text) (from_hex text).

Definition parse_evm_address_20_bytes (address : string) : result string (list N) :=
  let normalized := trim address in
  let raw := default normalized (strip_0x normalized) in
  if negb (String.length raw =? 40)%nat then Err ("invalid address length: " +:+ address)
  else
    bytes ← decode_hex "invalid address hex" raw;
    if (length bytes =? 20)%nat then Ok bytes else Err "invalid address byte length".

(** [U256::from_big_endian] *)
Definition from_big_endian (bytes : list N) : N := foldl (λ acc b, acc * 256 + b) 0 bytes.

(** The stream that is signed and the stream that is sent are written one by one. *)
Definition build_legacy_raw_tx (chain_id nonce gas_price : N) (to_address : string) (value : N)
    (data : list N) (signing_key : SigningKey) : result string string :=
  to ← parse_evm_address_20_bytes to_address;
  let gas_limit := match data with [] => 21000 | _ => 250000 end in
  let signing_payload := rlp_list
    [RlpUint nonce; RlpUint gas_price; RlpUint gas_limit; RlpBytes to; RlpUint value; RlpBytes data;
     RlpUint chain_id; RlpUint 0; RlpUint 0] in
  let digest := AgentAuth.keccak256 signing_payload in
  '(sig, recid) ← ok_or ("sign tx failed: " +:+ sign_error)
                    (sign_prehash_recoverable signing_key digest);
  let sig_bytes := signature_to_bytes sig in
  let r := from_big_endian (take 32 sig_bytes) in
  let s := from_big_endian (drop 32 sig_bytes) in
  let v := wrapping u64_max (recovery_id_to_byte recid + 35 + chain_id * 2) in
  let raw_stream := rlp_list
    [RlpUint nonce; RlpUint gas_price; RlpUint gas_limit; RlpBytes to; RlpUint value; RlpBytes data;
     RlpUint v; RlpUint r; RlpUint s] in
  Ok ("0x" +:+ hex_encode raw_stream).
End Transactions.

Definition room_parse_hex_u64 : string → result string N := parse_hex u64_max.
Definition room_parse_hex_u128 : string → result string N := parse_hex u128_max.

Section RoomWallet.
Context {W : Type} {TR : JsonRpcTransport W}.
Context {SK : Secp256k1} {HD : HexDecode} {UT : UuidText} {RL : Rlp} {KB : SigningKeyBytes}.
Context (endpoint : string).

Abbreviation P A := (M (AppRoomService * W) string A) (only parsing).

Definition on_chain {A} (m : M W string A) : P A :=
  λ '(v, w), let '(w, r) := m w in ((v, w), r).

Definition room_rpc_call (method : string) (params : Json) : P Json :=
  on_chain (rpc_call_value endpoint method params).

(** [rpc_call(..).await?.as_str().ok_or_else(..)] *)
Definition rpc_text (method : string) (params : Json) : P string :=
  reply ← room_rpc_call method params;
  lift_result (ok_or (method +:+ " returned non-string") (as_str reply)).

Definition signer_for_room (room_id : RoomId) : P (string * SigningKey) :=
  signer ← M_map_err gateway_error_text (room_chain_signer room_id);
  match signer with
  | None => throw ("room " +:+ uuid_text room_id +:+ " has no chain signer")
  | Some (expected_address, private_key_hex) =>
      private_key_bytes ← lift_result (decode_hex "invalid private key hex" private_key_hex);
      signing_key ← lift_result (result_map_err (λ e, "invalid private key bytes: " +:+ e)
                                   (signing_key_from_slice private_key_bytes));
      let actual_address := evm_address_from_secp256k1_verifying_key (verifying_key signing_key) in
      if negb (eq_ignore_ascii_case actual_address expected_address) then
        throw ("room " +:+ uuid_text room_id +:+ " signer address mismatch expected="
               +:+ expected_address +:+ " actual=" +:+ actual_address)
      else mret (actual_address, signing_key)
  end.

(** The chain's number, the account's next nonce and the price of gas. *)
Definition chain_terms (from_address : string) : P (N * N * N) :=
  chain_hex ← rpc_text "eth_chainId" (JArr []);
  chain_id ← lift_result (room_parse_hex_u64 chain_hex);
  nonce_hex ← rpc_text "eth_getTransactionCount" (JArr [JStr from_address; JStr "pending"]);
  nonce ← lift_result (room_parse_hex_u64 nonce_hex);
  price_hex ← rpc_text "eth_gasPrice" (JArr []);
  gas_price ← lift_result (room_parse_hex_u128 price_hex);
  mret (chain_id, nonce, gas_price).

Definition send_raw_transaction (raw_tx : string) : P string :=
  rpc_text "eth_sendRawTransaction" (JArr [JStr raw_tx]).

Definition room_submit_transfer (request : SettlementTransferRequest) : P string :=
  '(from_address, signing_key) ← signer_for_room (tq_room_id request);
  '(chain_id, nonce, gas_price) ← chain_terms from_address;
  raw_tx ← lift_result (build_legacy_raw_tx chain_id nonce gas_price (tq_to_address request)
                          (tq_amount request) [] signing_key);
  send_raw_transaction raw_tx.

(** [receipt.get(key).and_then(as_str).map(parse_hex_u64).transpose()?] *)
Definition receipt_quantity (key : string) (receipt : Json) : result string (option N) :=
  transpose room_parse_hex_u64 (json_get key receipt ≫= as_str).

(** The block number is asked for before the receipt is read. *)
Definition room_receipt_outcome (receipt : Json) : P (SettlementTxStatus * N) :=
  latest_hex ← rpc_text "eth_blockNumber" (JArr []);
  latest_block ← lift_result (room_parse_hex_u64 latest_hex);
  block_number ← lift_result (receipt_quantity "blockNumber" receipt);
  let confirmations := sat_add u64_max (sat_sub latest_block (default 0 block_number)) 1 in
  status ← lift_result (receipt_quantity "status" receipt);
  let success := default false ((λ v, v =? 1) <$> status) in
  mret (if success then TxConfirmed else TxFailed, confirmations).

Definition room_get_transfer_receipt (tx_hash : string) : P SettlementTransferReceipt :=
  receipt ← room_rpc_call "eth_getTransactionReceipt" (JArr [JStr tx_hash]);
  if is_null receipt then mret (mkReceipt tx_hash TxPending 0)
  else
    '(status, confirmations) ← room_receipt_outcome receipt;
    mret (mkReceipt tx_hash status confirmations).

#[export] Instance RoomScopedRawTxSettlementWalletAdapter :
    SettlementWalletAdapter (AppRoomService * W) := {
  submit_transfer := room_submit_transfer;
  get_transfer_receipt := room_get_transfer_receipt;
}.

(** ** Batches *)

Context {EA : EvmAbi} (contract_address : string).

Definition room_batch_id (room_id : RoomId) (hand_id : HandId) : list N :=
  AgentAuth.keccak256 (uuid_bytes room_id ++ uuid_bytes hand_id).

Definition room_encode_batch_settlement_call (request : BatchSettlementTransferRequest)
    : result string (list N) :=
  to ← recipients (bq_transfers request);
  let amounts := map tq_amount (bq_transfers request) in
  let settlement_id := room_batch_id (bq_room_id request) (bq_hand_id request) in
  result_map_err (λ e, "abi encode failed: " +:+ e) (encode_settle_batch to amounts settlement_id).

Record RoomBatchWallet := mkRoomBatchWallet {
  rb_tx_transfer_count : Mutex (gmap string nat);
  rb_service : AppRoomService * W;
}.
Definition on_room {A} (m : P A) : M RoomBatchWallet string A :=
  λ s, let '(i, r) := m (rb_service s) in (mkRoomBatchWallet (rb_tx_transfer_count s) i, r).
Definition room_applied_count (tx_hash : string) (s : RoomBatchWallet) : nat :=
  lock_or (rb_tx_transfer_count s) 0%nat (λ m, default 0%nat (m !! tx_hash)).

Definition room_submit_batch_transfer (request : BatchSettlementTransferRequest)
    : M RoomBatchWallet string string :=
  match bq_transfers request with
  | [] => throw "batch transfer list cannot be empty"
  | _ =>
      total_value ← lift_result
        (result_map_err (λ e, "batch payout total overflow: " +:+ money_error_text e)
           (checked_sum ChipsOps.ZERO (map tq_amount (bq_transfers request))));
      '(from_address, signing_key) ← on_room (signer_for_room (bq_room_id request));
      '(chain_id, nonce, gas_price) ← on_room (chain_terms from_address);
      data ← lift_result (room_encode_batch_settlement_call request);
      raw_tx ← lift_result (build_legacy_raw_tx chain_id nonce gas_price contract_address
                              total_value data signing_key);
      tx_hash ← on_room (send_raw_transaction raw_tx);
      s ← get;
      counts ← lift_result (result_map_err (λ _, "tx_transfer_count lock poisoned")
                              (lock (rb_tx_transfer_count s)));
      modify (λ s, mkRoomBatchWallet
        (store (rb_tx_transfer_count s) (<[tx_hash := length (bq_transfers request)]> counts))
        (rb_service s));;
      mret tx_hash
  end.

Definition room_get_batch_transfer_receipt (tx_hash : string)
    : M RoomBatchWallet string BatchSettlementTransferReceipt :=
  receipt ← on_room (room_rpc_call "eth_getTransactionReceipt" (JArr [JStr tx_hash]));
  if is_null receipt then
    s ← get;
    mret (mkBatchReceipt tx_hash TxPending 0 (room_applied_count tx_hash s))
  else
    '(status, confirmations) ← on_room (room_receipt_outcome receipt);
    s ← get;
    mret (mkBatchReceipt tx_hash status confirmations (room_applied_count tx_hash s)).

#[export] Instance RoomScopedRawTxBatchSettlementWalletAdapter :
    BatchSettlementWalletAdapter RoomBatchWallet := {
  submit_batch_transfer := room_submit_batch_transfer;
  get_batch_transfer_receipt := room_get_batch_transfer_receipt;
}.
End RoomWallet.
Arguments RoomBatchWallet : clear implicits.

(** The cache and the optional repositories of [AppRoomShowdownInputProvider]. *)
Class ProviderStore `{CardOps} (W : Type) := {
  store_inner : W → InMemoryShowdownInputProvider;
  set_store_inner : InMemoryShowdownInputProvider → W → W;
  store_read : W → option (HandId → M W string (option SettlementShowdownInputRecord));
  store_write : W → option (SettlementShowdownInputRecord → M W string unit);
}.

(** The count that the batch wallet keeps beside the service. *)
Class BatchCounts (W : Type) := {
  transfer_counts : W → Mutex (gmap string nat);
  set_transfer_counts : Mutex (gmap string nat) → W → W;
}.

Section Rooms.
Context {CO : CardOps} {W : Type} {RA : RoomActors W}.
Context {SK : Secp256k1} {RK : RandomKeys W}.

(** ** [impl AutoSettlementRoomPort for AppRoomService] *)

Definition port_get_engine_state (room_id : RoomId)
    : M (AppRoomService * W) string (option EngineState) :=
  M_map_err gateway_error_text (RoomService.get_engine_state room_id).
Definition port_complete_settlement (room_id : RoomId) (hand_id : HandId)
    : M (AppRoomService * W) string unit :=
  room ← M_map_err gateway_error_text (ensure_room room_id);
  on_chain (RoomHandles.room_complete_settlement room hand_id).
#[export] Instance AppRoomService_port : AutoSettlementRoomPort (AppRoomService * W) := {|
  AutoSettlement.get_engine_state := port_get_engine_state;
  AutoSettlement.room_complete_settlement := port_complete_settlement;
|}.

(** ** [AppRoomShowdownInputProvider] with the service of the rooms *)

Context {PS : ProviderStore W}.

Definition provider_addresses (room_id : RoomId) : M (AppRoomService * W) string (gmap SeatId string) :=
  M_map_err gateway_error_text (bound_seat_addresses room_id).
#[export] Instance provider_of_service : AppProviderWorld (AppRoomService * W) := {|
  provider_inner s := store_inner (snd s);
  set_provider_inner p s := (fst s, set_store_inner p (snd s));
  showdown_read_repo s := (λ read hand_id, on_chain (read hand_id)) <$> store_read (snd s);
  showdown_write_repo s := (λ upsert record, on_chain (upsert record)) <$> store_write (snd s);
  app_get_engine_state := port_get_engine_state;
  app_bound_seat_addresses := provider_addresses;
|}.

(** ** The batch wallet over the service

    The wallet keeps its own count of the transfers that each transaction carries. *)

Context {HD : HexDecode} {KB : SigningKeyBytes} {RL : Rlp} {EA : EvmAbi} {UT : UuidText}.
Context {TR : JsonRpcTransport W} {BC : BatchCounts W}.

Definition with_counts {A} (m : M (RoomBatchWallet W) string A) : M (AppRoomService * W) string A :=
  λ s, let '(b, r) := m (mkRoomBatchWallet (transfer_counts (snd s)) s) in
       ((fst (rb_service b), set_transfer_counts (rb_tx_transfer_count b) (snd (rb_service b))), r).
Definition batch_wallet_of_service (endpoint contract_address : string)
    : BatchSettlementWalletAdapter (AppRoomService * W) := {|
  submit_batch_transfer request :=
    with_counts (room_submit_batch_transfer endpoint contract_address request);
  get_batch_transfer_receipt tx_hash := with_counts (room_get_batch_transfer_receipt endpoint tx_hash);
|}.

(** ** The stores beside the service *)

Context {CK : Clock W} {FI : FreshIds W}.
Context {LR : LedgerRepository W} {SR : SettlementPersistenceRepository W}.

#[export] Instance beside_clock : Clock (AppRoomService * W) := {| utc_now s := utc_now (snd s) |}.
#[export] Instance beside_ids : FreshIds (AppRoomService * W) := {|
  fresh_uuid s := let '(w, id) := fresh_uuid (snd s) in ((fst s, w), id)
|}.
Definition beside {E A} (m : M W E A) : M (AppRoomService * W) E A :=
  λ '(v, w), let '(w, r) := m w in ((v, w), r).
#[export] Instance beside_ledger : LedgerRepository (AppRoomService * W) :=
  {| insert_entries entries := beside (insert_entries entries) |}.
#[export] Instance beside_settlement : SettlementPersistenceRepository (AppRoomService * W) := {|
  insert_settlement_plan r := beside (insert_settlement_plan r);
  insert_settlement_record r := beside (insert_settlement_record r);
  update_settlement_record_status_by_tx_hash u :=
    beside (update_settlement_record_status_by_tx_hash u);
  upsert_settlement_showdown_input r := beside (upsert_settlement_showdown_input r);
|}.
End Rooms.
