(* ===== verification/RoomWalletProps.v ===== *)
(** What a room's settlement wallet sends: a transaction of the room's own account
    with the fields of the request. *)

From stdpp Require Import base tactics option list gmap strings relations pretty.
From Stdlib Require Import NArith ZArith Lia.
From S2P Require Import Prelude.
From S2P Require Import Text.
From S2P Require Import Domain.
From S2P Require Import Ambient.
From S2P Require Import EngineState.
From S2P Require Import LedgerStore.
From S2P Require Import Settlement.
From S2P Require Import SettlementService.
From S2P Require Import JsonRpc.
From S2P Require Import EvmWallet.
From S2P Require Import AgentAuth.
From S2P Require Import AgentAuthProps.
From S2P Require Import SeatCrypto.
From S2P Require Import TableService.
From S2P Require Import RoomHandles.
From S2P Require Import RoomService.
From S2P Require Import RoomServiceProps.
From S2P Require Import SettlementRooms.
From S2P Require Import RoomDemo.

Local Open Scope N_scope.

(** A key is read back from its bytes. *)
Class SigningKeyLaws {W} `{RK : RandomKeys W} `{KB : !SigningKeyBytes} : Prop := {
  signing_key_reads : ∀ k, signing_key_from_slice (signing_key_to_bytes (W := W) k) = Ok k;
  signing_key_bytes : ∀ k, Forall (λ b, b < 256) (signing_key_to_bytes (W := W) k);
}.

Section Payments.
Context {CO : CardOps} {W : Type}.
Context {CK : Clock W} {FI : FreshIds W} {MC : MonotonicClock W} {SH : Shuffler W}.
Context {CR : SeatCryptoPrimitives} {UT : UuidText} {ES : EphemeralSecrets W} {RC : RoomCodec}.
Context {TR : JsonRpcTransport W} {CT : ChainTxRepository W}.
Context {SK : Secp256k1} {SL : Secp256k1Laws} {HD : HexDecode} {HL : HexDecodeLaws}.
Context {RK : RandomKeys W} {KB : SigningKeyBytes} {KL : SigningKeyLaws} {RL : Rlp}.
Context (config : RoomActorConfig) (persist : option (RoomRow → M W string unit)).
Context (endpoint : string).

#[export] Instance house_transport : JsonRpcTransport (House W) := {|
  post_json url body := RoomServiceProps.on_world (post_json url body);
  decode_message := decode_message (W := W);
|}.

(** What the node answers to a method, with a text as its result. *)
Definition node_answers (method : string) (params : Json) (ho ho' : House W) (text : string) : Prop :=
  ∃ payload, post_json endpoint (rpc_body method params) ho = (ho', Ok payload) ∧
             json_get "result" payload = Some (JStr text).

(** A computation that asks the node and leaves the service and the rooms alone, with
    what its result says. *)
Definition asks {A} (m : M (AppRoomService * House W) string A)
    (Q : House W → A → House W → Prop) : Prop :=
  ∀ v ho s' r, m (v, ho) = (s', r) →
    ∃ ho', s' = (v, ho') ∧ ho_tasks ho' = ho_tasks ho ∧ ∀ x, r = Ok x → Q ho x ho'.

Lemma asks_bind {A B} (m : M (AppRoomService * House W) string A) k Q
    (R : A → House W → B → House W → Prop) :
  asks m Q → (∀ x, asks (k x) (R x)) →
  asks (m ≫= k) (λ ho y ho', ∃ x ho1, Q ho x ho1 ∧ R x ho1 y ho').
Proof.
  intros Hm Hk v ho s' r Hrun. unfold mbind, M_mbind, M_bind in Hrun.
  destruct (m (v, ho)) as [s1 [x|e]] eqn:Hm1; destruct (Hm _ _ _ _ Hm1) as (ho1 & -> & Ht1 & HQ).
  - destruct (Hk x _ _ _ _ Hrun) as (ho' & -> & Ht & HR). exists ho'.
    split; [done|]. split; [congruence|]. intros y ->. exists x, ho1. auto.
  - injection Hrun as <- <-. exists ho1. split; [done|]. by split.
Qed.

Lemma asks_result {A} (res : result string A) :
  asks (lift_result res) (λ ho x ho', ho' = ho ∧ res = Ok x).
Proof. intros v ho s' r [= <- <-]. exists ho. split; [done|]. split; [done|]. by intros x ->. Qed.

Lemma asks_weaken {A} (m : M (AppRoomService * House W) string A) (Q Q' : House W → A → House W → Prop) :
  asks m Q → (∀ ho x ho', Q ho x ho' → Q' ho x ho') → asks m Q'.
Proof.
  intros Hm HQ v ho s' r Hrun. destruct (Hm _ _ _ _ Hrun) as (ho' & -> & Ht & Hx). eauto 10.
Qed.

Lemma asks_text method params :
  asks (rpc_text endpoint method params) (λ ho text ho', node_answers method params ho ho' text).
Proof.
  intros v ho s' r. unfold rpc_text, room_rpc_call, on_chain, rpc_call_value, node_answers. mrun. cbn.
  unfold RoomServiceProps.on_world.
  destruct (post_json endpoint (rpc_body method params) (ho_world ho)) as [w [payload|e]].
  2: { intros [= <- <-]. eexists. by split; [|split]. }
  destruct (json_get "error" payload) as [err|].
  { intros [= <- <-]. eexists. by split; [|split]. }
  destruct (json_get "result" payload) as [res|] eqn:Hres; cbn.
  2: { intros [= <- <-]. eexists. by split; [|split]. }
  intros [= <- <-]. eexists. split; [done|]. split; [done|]. intros text Ht.
  exists payload. split; [done|]. rewrite Hres. by destruct res; simplify_eq/=.
Qed.

(** The terms of a transaction are the node's: its chain, the pending number of
    transactions of the account, its price of gas. *)
Definition quotes (address : string) (ho : House W) (terms : N * N * N) (ho' : House W) : Prop :=
  ∃ chain_hex nonce_hex price_hex ho1 ho2,
    node_answers "eth_chainId" (JArr []) ho ho1 chain_hex ∧
    room_parse_hex_u64 chain_hex = Ok (terms.1.1) ∧
    node_answers "eth_getTransactionCount" (JArr [JStr address; JStr "pending"]) ho1 ho2 nonce_hex ∧
    room_parse_hex_u64 nonce_hex = Ok (terms.1.2) ∧
    node_answers "eth_gasPrice" (JArr []) ho2 ho' price_hex ∧
    room_parse_hex_u128 price_hex = Ok (terms.2).

Lemma asks_terms address : asks (chain_terms endpoint address) (quotes address).
Proof.
  eapply asks_weaken.
  - unfold chain_terms. do 6 (apply asks_bind; [first [apply asks_text|apply asks_result]|intro]).
    apply (asks_result (Ok _)).
  - intros ho x ho' (t1 & ho1 & H1 & c & ? & [-> Hc] & t2 & ho2 & H2 & n & ? & [-> Hn] & t3 & ho3 &
      H3 & p & ? & [-> Hp] & -> & [= <-]). exists t1, t2, t3, ho1, ho2. auto 10.
Qed.

(** A payment from the account of [key] in a legacy transaction with replay protection: its
    fields are the account's nonce, the price and the limit of gas, the receiver, the
    amount and no data; with the chain's number and two zeros they are hashed and signed,
    with the signature they are sent. *)
Definition pays (key : SigningKey) (to_address : string) (amount : N)
    (ho : House W) (tx_hash : string) (ho' : House W) : Prop :=
  ∃ chain_id nonce gas_price receiver sig recid ho1,
    quotes (evm_address_from_secp256k1_verifying_key (verifying_key key)) ho
      (chain_id, nonce, gas_price) ho1 ∧
    parse_evm_address_20_bytes to_address = Ok receiver ∧
    let fields := [RlpUint nonce; RlpUint gas_price; RlpUint 21000; RlpBytes receiver;
                   RlpUint amount; RlpBytes []] in
    let v := (35 + 2 * chain_id + recovery_id_to_byte recid) mod 2 ^ 64 in
    let r := from_big_endian (take 32 (signature_to_bytes sig)) in
    let s := from_big_endian (drop 32 (signature_to_bytes sig)) in
    recover_from_prehash
      (AgentAuth.keccak256 (rlp_list (fields ++ [RlpUint chain_id; RlpUint 0; RlpUint 0]))) sig recid
    = Some (verifying_key key) ∧
    node_answers "eth_sendRawTransaction"
      (JArr [JStr ("0x" +:+ hex_encode (rlp_list (fields ++ [RlpUint v; RlpUint r; RlpUint s])))])
      ho1 ho' tx_hash.

Lemma asks_payment key to_address amount :
  asks ('(chain_id, nonce, gas_price) ←
          chain_terms endpoint (evm_address_from_secp256k1_verifying_key (verifying_key key));
        raw_tx ← lift_result (build_legacy_raw_tx chain_id nonce gas_price to_address amount [] key);
        send_raw_transaction endpoint raw_tx)
    (pays key to_address amount).
Proof.
  eapply asks_weaken.
  - set (address := evm_address_from_secp256k1_verifying_key _).
    apply (asks_bind _ _ (quotes address) (λ terms ho tx ho', ∃ raw ho1,
      (ho1 = ho ∧ build_legacy_raw_tx terms.1.1 terms.1.2 terms.2 to_address amount [] key = Ok raw) ∧
      node_answers "eth_sendRawTransaction" (JArr [JStr raw]) ho1 ho' tx)); [apply asks_terms|].
    intros [[chain_id nonce] gas_price].
    apply (asks_bind _ _ (λ ho raw ho', ho' = ho ∧ build_legacy_raw_tx chain_id nonce gas_price
      to_address amount [] key = Ok raw) (λ raw ho tx ho',
      node_answers "eth_sendRawTransaction" (JArr [JStr raw]) ho ho' tx)); [apply asks_result|].
    intros raw. apply asks_text.
  - intros ho tx ho' ([[c n] p] & ho1 & Hq & raw & ? & [-> Hraw] & Hsend). cbn in Hraw.
    unfold build_legacy_raw_tx in Hraw. mrun in Hraw.
    destruct (parse_evm_address_20_bytes to_address) as [to|] eqn:Hto; [|done]. cbn zeta in Hraw.
    destruct (sign_prehash_recoverable key _) as [[sig recid]|] eqn:Hsign; [|done].
    injection Hraw as <-. exists c, n, p, to, sig, recid, ho1. split; [done|]. split; [done|].
    cbn zeta. split; [by apply signed_recovers|].
    replace ((35 + 2 * c + recovery_id_to_byte recid) mod 2 ^ 64)
      with (wrapping u64_max (recovery_id_to_byte recid + 35 + c * 2)); [exact Hsend|].
    unfold wrapping. change (u64_max + 1) with (2 ^ 64). f_equal. lia.
Qed.

(** The signer of a room is the key its account was made from. *)
Lemma signer_run id v (ho : House W) h :
  agrees (v, ho) → mx_value (rooms v) !! id = Some h →
  ∃ key, let address := evm_address_from_secp256k1_verifying_key (verifying_key key) in
    room_chain_address id (v, ho) = ((v, ho), Ok (Some address)) ∧
    signer_for_room id (v, ho) = ((v, ho), Ok (address, key)).
Proof.
  intros Hag Hid. destruct (ag_accounts _ Hag id) as (a & Ha & key & Haddr & Hhex); [by eexists|].
  pose proof (ul_accounts _ (ag_unlocked _ Hag)) as Hu. cbn in Ha, Hu. exists key. cbv zeta. split.
  - unfold room_chain_address, lock_accounts, service, locked, lock. mrun. cbn. by rewrite Hu, Ha, <- Haddr.
  - unfold signer_for_room, room_chain_signer, lock_accounts, service, locked, lock. mrun. cbn.
    rewrite Hu, Ha. cbn. unfold decode_hex. rewrite Hhex, from_hex_encode by apply signing_key_bytes.
    cbn. rewrite signing_key_reads, Haddr. cbn. unfold eq_ignore_ascii_case. by rewrite String.eqb_refl.
Qed.

(** C31. A room pays from its own account. A payout that a room's wallet sends is a
    transaction of exactly the amount to exactly the address of the request, with the
    nonce and the gas price the node gave for the account and the gas of a plain payment;
    these same fields are what is signed, for the node's chain, by the key of the address
    the room shows to its players, and what is sent with that signature; and neither the
    service nor any room is touched by it. *)
Theorem rooms_pay_from_their_own_account w v ho request h s' r
    (Hreach : rtc (server_step config persist) (server_new w) (v, ho))
    (Hid : mx_value (rooms v) !! tq_room_id request = Some h)
    (Hrun : room_submit_transfer endpoint request (v, ho) = (s', r)) :
  ∃ ho' key, s' = (v, ho') ∧ ho_tasks ho' = ho_tasks ho ∧
    room_chain_address (tq_room_id request) (v, ho)
    = ((v, ho), Ok (Some (evm_address_from_secp256k1_verifying_key (verifying_key key)))) ∧
    ∀ tx_hash, r = Ok tx_hash →
      pays key (tq_to_address request) (tq_amount request) ho tx_hash ho'.
Proof.
  destruct (server_runs _ _ _ _ Hreach (agrees_new w)) as (Hag & _ & _).
  destruct (signer_run _ _ _ _ Hag Hid) as (key & Haddr & Hsigner).
  unfold room_submit_transfer in Hrun. unfold mbind at 1, M_mbind, M_bind in Hrun.
  rewrite Hsigner in Hrun.
  destruct (asks_payment key (tq_to_address request) (tq_amount request) v ho s' r Hrun)
    as (ho' & Hs & Ht & Hsent). exists ho', key. auto.
Qed.
End Payments.

(** ** A room that pays *)

#[local] Existing Instances demo_cards demo_clock demo_instant demo_ids demo_shuffler demo_secrets
  demo_no_crypto demo_uuid_text demo_codec toy_secp toy_secp_laws toy_hex toy_hex_laws demo_ledger.
#[local] Instance pay_keys : RandomKeys DemoWorld :=
  {| random_signing_key w := (w, true); signing_key_to_bytes k := [if k then 1 else 0] |}.
#[local] Instance pay_key_bytes : SigningKeyBytes :=
  {| signing_key_from_slice l := Ok (hd 0 l =? 1); hex_error _ := "hex"%string;
     sign_error := "sign"%string |}.
#[local] Instance pay_key_laws : SigningKeyLaws (W := DemoWorld).
Proof. split; intros []; by repeat constructor. Qed.
#[local] Instance pay_rlp : Rlp :=
  {| rlp_list := map (λ i, match i with RlpUint n => n mod 256 | RlpBytes l => N.of_nat (length l) end) |}.
#[local] Instance pay_node : JsonRpcTransport DemoWorld :=
  {| post_json _ body w :=
       (w, Ok (JObj [("result", JStr
          (match json_get "method" body ≫= as_str with
           | Some "eth_chainId" => "0x1"
           | Some "eth_getTransactionCount" => "0x5"
           | Some "eth_gasPrice" => "0x9"
           | _ => "0xfeed"
           end))])%string);
     decode_message _ := "decode"%string |}.

Abbreviation pay_step := (server_step RoomActorConfig_default None) (only parsing).
Definition pay_server : AppRoomService * House DemoWorld := server_new (mkDemoWorld 0 100).
Definition pay_room : AppRoomService * House DemoWorld :=
  fst (ensure_room (RA := house_rooms RoomActorConfig_default) 7 pay_server).
Definition pay_request : SettlementTransferRequest :=
  mkTransferRequest 7 100 2 "0x1111111111111111111111111111111111111111" 50.

Lemma pay_room_reached : rtc pay_step pay_server pay_room.
Proof. eapply rtc_l; [apply (step_ensure_room _ _ 7)|]. apply rtc_refl. Qed.
Lemma pay_room_facts :
  mx_value (rooms (fst pay_room)) !! 7 = Some (mkHandle 0) ∧
  snd (room_submit_transfer "node" pay_request pay_room) = Ok "0xfeed"%string.
Proof. vm_compute. auto. Qed.

(** The room of a server with a node pays fifty from its account. *)
Lemma rooms_pay_from_their_own_account_witness :
  ∃ ho ho', pays "node" true "0x1111111111111111111111111111111111111111" 50 ho "0xfeed" ho' ∨
            pays "node" false "0x1111111111111111111111111111111111111111" 50 ho "0xfeed" ho'.
Proof.
  pose proof pay_room_reached as Hreach. pose proof pay_room_facts as [Hid Hok].
  destruct pay_room as [v ho].
  destruct (room_submit_transfer "node" pay_request (v, ho)) as [s' r] eqn:Hrun.
  cbn [fst snd] in *. subst r.
  destruct (rooms_pay_from_their_own_account RoomActorConfig_default None "node" (mkDemoWorld 0 100)
    v ho pay_request (mkHandle 0) s' (Ok "0xfeed"%string) Hreach Hid Hrun)
    as (ho' & key & _ & _ & _ & Hsent).
  exists ho, ho'. specialize (Hsent "0xfeed"%string eq_refl). destruct key; auto.
Defined.
