(* ===== verification/RoomAuth.v ===== *)
(** What a signature on a request is worth: the messages of the application's signed
    requests determine them, and a seat acts only under the signature of the address
    it was bound to. *)

From stdpp Require Import base tactics option list gmap strings relations pretty.
From Stdlib Require Import NArith ZArith Lia.
From S2P Require Import Prelude.
From S2P Require Import Ambient.
From S2P Require Import Text.
From S2P Require Import Domain.
From S2P Require Import EngineState.
From S2P Require Import LedgerStore.
From S2P Require Import JsonRpc.
From S2P Require Import AgentAuth.
From S2P Require Import AgentAuthProps.
From S2P Require Import SeatCrypto.
From S2P Require Import TableService.
From S2P Require Import GatewayTypes.
From S2P Require Import GatewayHandlers.
From S2P Require Import GatewayProps.
From S2P Require Import RoomHandles.
From S2P Require Import RoomHandlesProps.
From S2P Require Import RoomService.
From S2P Require Import RoomServiceProps.
From S2P Require Import RoomRequests.
From S2P Require Import RoomDemo.

Local Open Scope N_scope.

(** ** Messages *)

Section Messages.
Context {UT : UuidText} {UL : UuidTextLaws} {JT : JsonText} {JL : JsonTextLaws}.
Context {DT : DateTimeText} {DL : DateTimeTextLaws}.

(** The message the application expects to be signed; a join is not signed. *)
Definition request_input (sr : SignedRequest) : option SigningMessageInput :=
  match sr with
  | SignedJoin _ => None
  | SignedReady r => Some (room_ready_input r)
  | SignedBindAddress r => Some (bind_address_input r)
  | SignedBindKeys r => Some (bind_session_keys_input r)
  | SignedAct r => Some (game_act_input r)
  end.

Definition same_meta (m m' : SignedRequestMeta) : Prop :=
  rm_request_id m = rm_request_id m' ∧ rm_request_nonce m = rm_request_nonce m' ∧
  rm_request_ts m = rm_request_ts m' ∧ rm_request_expiry_ms m = rm_request_expiry_ms m'.

(** The same request up to the signature and the name of the key. *)
Definition same_request (sr sr' : SignedRequest) : Prop :=
  same_meta (signed_meta sr) (signed_meta sr') ∧
  match sr, sr' with
  | SignedReady r, SignedReady r' =>
      (rr_room_id r, rr_seat_id r) = (rr_room_id r', rr_seat_id r')
  | SignedBindAddress r, SignedBindAddress r' =>
      (ba_room_id r, ba_seat_id r, ba_seat_address r)
      = (ba_room_id r', ba_seat_id r', ba_seat_address r')
  | SignedBindKeys r, SignedBindKeys r' =>
      (bk_room_id r, bk_seat_id r, bk_seat_address r, bk_card_encrypt_pubkey r,
       bk_request_verify_pubkey r, bk_key_algo r, bk_proof_signature r)
      = (bk_room_id r', bk_seat_id r', bk_seat_address r', bk_card_encrypt_pubkey r',
         bk_request_verify_pubkey r', bk_key_algo r', bk_proof_signature r')
  | SignedAct r, SignedAct r' =>
      (ga_room_id r, ga_hand_id r, ga_action_seq r, ga_seat_id r, ga_action_type r, ga_amount r,
       ga_tx_hash r)
      = (ga_room_id r', ga_hand_id r', ga_action_seq r', ga_seat_id r', ga_action_type r',
         ga_amount r', ga_tx_hash r')
  | _, _ => False
  end.

Lemma json_opt_inj (a b : option string) : json_opt JStr a = json_opt JStr b → a = b.
Proof. destruct a, b; cbn; congruence. Qed.
Lemma json_N_inj a b : json_N a = json_N b → a = b.
Proof. intros [= H]. by apply N2Z.inj. Qed.
Lemma canonicalize_opt a : canonicalize_json (json_opt JStr a) = json_opt JStr a.
Proof. by destruct a. Qed.

Lemma request_input_params sr i :
  request_input sr = Some i →
  (∃ p, sm_params i = JObj p ∧ json_wf (JObj p)) ∧
  no_bar (sm_method i) = true ∧ no_bar (default "" (sm_hand_id i)) = true ∧
  sm_meta i = signed_meta sr.
Proof.
  destruct sr as [r|r|r|r|r]; intros [= <-]; (split; [|by repeat split; try apply uuid_text_no_bar]);
    eexists; (split; [reflexivity|]); constructor;
    try (by repeat (constructor; [cbn; set_solver|]); constructor);
    repeat constructor; by destruct (ga_amount r), (ga_tx_hash r); repeat constructor.
Qed.

(** C32. What is signed is the request: when two of the application's requests have
    the same message to sign, they are the same request, of the same method, for the
    same room, seat, hand and action, with the same amount, transaction, address and
    keys, and with the same identifier, nonce, time and expiry. Nothing in the message
    is escaped and the nonce, the amount and the addresses may be any text. *)
Theorem signed_message_names_one_request sr sr' i i' msg
    (Hi : request_input sr = Some i) (Hi' : request_input sr' = Some i')
    (Hm : build_signing_message i = Ok msg) (Hm' : build_signing_message i' = Ok msg) :
  same_request sr sr'.
Proof.
  destruct (request_input_params sr i Hi) as ((p & Hp & Hwf) & Hb & Hh & Hmeta).
  destruct (request_input_params sr' i' Hi') as ((p' & Hp' & Hwf') & Hb' & Hh' & Hmeta').
  destruct (signing_message_inj i i' msg p p' Hm Hm' Hp Hp' Hwf Hwf' (conj Hb Hb') (conj Hh Hh'))
    as (Hmethod & _ & Hroom & Hhand & Hseq & Heqv & Hid & Hnonce & Hts & Hexp).
  rewrite Hmeta, Hmeta' in *. split; [done|]. rewrite Hp, Hp' in Heqv.
  apply eqv_canonical in Heqv; [|done].
  destruct sr as [r|r|r|r|r], sr' as [r'|r'|r'|r'|r']; try done; simplify_eq/=; try congruence.
  rewrite !canonicalize_opt in *.
  repeat match goal with H : json_opt JStr _ = json_opt JStr _ |- _ => apply json_opt_inj in H end.
  apply uuid_text_inj in Hhand. congruence.
Qed.
End Messages.

#[local] Existing Instances toy_json_text toy_json_text_laws toy_date_text toy_date_laws
  toy_auth_uuid toy_auth_uuid_laws.

Definition demo_act (amount nonce signature : string) : SignedRequest :=
  SignedAct (mkGameAct 7 8 3 2 "call" (Some amount) (Some "0xfeed")
               (mkMeta 9 nonce 1000 30000 "key" signature))%string.

(** The signature is no part of the message, the amount and the nonce are. *)
Lemma signed_message_names_one_request_witness :
  let sr := demo_act "50" "n|request_ts=5" "a" in
  let sr' := demo_act "50" "n|request_ts=5" "b" in
  let sr2 := demo_act "51" "n" "a" in
  same_request sr sr' ∧
  build_signing_message <$> request_input sr ≠ build_signing_message <$> request_input sr2.
Proof.
  intros sr sr' sr2. split; [|vm_compute; discriminate].
  destruct (request_input sr) as [i|] eqn:Hi; [|discriminate Hi].
  destruct (request_input sr') as [i'|] eqn:Hi'; [|discriminate Hi'].
  destruct (build_signing_message i) as [msg|e] eqn:Hm;
    [|injection Hi as <-; vm_compute in Hm; discriminate Hm].
  apply (signed_message_names_one_request sr sr' i i' msg Hi Hi' Hm).
  rewrite <- Hm. injection Hi as <-. injection Hi' as <-. reflexivity.
Defined.

(** ** Addresses *)

Section Signatures.
Context {SK : Secp256k1} {HD : HexDecode}.

(** An accepted signature comes from a key with the expected address. *)
Lemma accepted_signature address message signature :
  verify_evm_personal_signature address message signature = Ok tt →
  ∃ sig recid key,
    recover_from_prehash (evm_personal_sign_hash message) sig recid = Some key ∧
    normalize_evm_address (evm_address_from_secp256k1_verifying_key key)
    = normalize_evm_address address.
Proof.
  unfold verify_evm_personal_signature. mrun. intros Hok.
  repeat (case_match; try discriminate Hok); simplify_eq/=; try discriminate Hok.
  all: match goal with
       | Ha : negb (String.eqb _ _) = false |- _ =>
           apply negb_false_iff, String.eqb_eq in Ha; by eauto 6
       end.
Qed.
End Signatures.

Section Seats.
Context {CO : CardOps} {W : Type}.
Context {CK : Clock W} {FI : FreshIds W} {MC : MonotonicClock W} {SH : Shuffler W}.
Context {CR : SeatCryptoPrimitives} {UT : UuidText} {ES : EphemeralSecrets W} {RC : RoomCodec}.
Context {TR : JsonRpcTransport W}.
Context {SK : Secp256k1} {RK : RandomKeys W}.
Context {HD : HexDecode} {JT : JsonText} {DT : DateTimeText}.
Context (config : RoomActorConfig).
Abbreviation Server := (AppRoomService * House W)%type (only parsing).

Lemma seat_address_run (s : Server) id seat s' address :
  unlocked (fst s) → seat_address_of id seat s = (s', Ok address) →
  s' = s ∧ bound_of s id !! seat = Some address.
Proof.
  intros Hu. unfold seat_address_of, M_map_err, mbind, M_mbind, M_bind.
  rewrite bound_seat_address_run by done. cbn.
  destruct (bound_of s id !! seat); by intros [= <- <-].
Qed.

(** C10. A seat acts only by its address. An action whose signature the application
    accepts, at whatever moment of whatever traffic, was signed, as this very message, by
    a key of an address that a request to bind the seat asked for, after it had passed
    the check of the seat; checking it changes nothing. When no two bindings of one seat
    ever overlapped and none of this seat is under way, that address is the one the
    seat's own room holds for it once the room has worked off its mailbox. *)
Theorem seats_act_by_their_address w c request s'
    (Hreach : rtc (traffic_step config) (traffic_new w) c)
    (Haccept : app_verify_game_act request (tf_server c) = (s', Ok tt)) :
  s' = tf_server c ∧
  ∃ address message sig recid key,
    asked_for c (ga_room_id request) (ga_seat_id request) address ∧
    build_signing_message (game_act_input request) = Ok message ∧
    recover_from_prehash (evm_personal_sign_hash (bytes_of_string message)) sig recid = Some key ∧
    normalize_evm_address (evm_address_from_secp256k1_verifying_key key)
    = normalize_evm_address address ∧
    (rtc (orderly_step config) (traffic_new w) c →
     ¬ binding_under_way c (ga_room_id request) (ga_seat_id request) →
     ∃ h t, mx_value (rooms (fst (tf_server c))) !! ga_room_id request = Some h ∧
       ho_tasks (snd (tf_server c)) !! handle_sender h = Some t ∧
       tk_room_id t = ga_room_id request ∧
       rs_bound_addresses (caught_up config (snd (tf_server c)) t) !! ga_seat_id request
       = Some address).
Proof.
  destruct (traffic_runs _ _ _ Hreach (coherent_new w)) as (Hc & _).
  pose proof (ch_sound _ Hc) as Hs. pose proof (so_unlocked _ Hs) as Hu.
  unfold app_verify_game_act, mbind, M_mbind, M_bind in Haccept.
  destruct (seat_address_of _ _ (tf_server c)) as [s1 [address|e]] eqn:Haddr; [|discriminate Haccept].
  apply seat_address_run in Haddr as [-> Hbound]; [|done].
  injection Haccept as <- Hv. split; [done|].
  unfold verify_signed_message in Hv. mrun in Hv.
  destruct (build_signing_message (game_act_input request)) as [message|e] eqn:Hm; [|discriminate Hv].
  destruct (verify_evm_personal_signature address (bytes_of_string message) _) as [[]|e] eqn:Hsig;
    [|discriminate Hv].
  apply accepted_signature in Hsig as (sig & recid & key & Hrec & Hnorm).
  exists address, message, sig, recid, key. split; [by apply (ch_bound _ Hc)|].
  split; [done|]. split; [done|]. split; [done|]. intros Ho Hnone.
  destruct (orderly_runs _ _ _ Ho (coherent_new w) (one_at_a_time_new w) (tidy_new w)
    (ga_room_id request) (ga_seat_id request)) as [_ Hroom].
  rewrite (Hroom Hnone) in Hbound. unfold room_seats, room_task in Hbound.
  destruct (mx_value (rooms (fst (tf_server c))) !! ga_room_id request) as [h|] eqn:Hid; [|done].
  destruct (so_rooms _ Hs _ h Hid) as (_ & t & Ht & Htid). cbn in Hbound. rewrite Ht in Hbound.
  cbn in Hbound. exists h, t. split; [done|]. split; [done|]. split; [done|].
  by rewrite <- (caught_up_seats config (snd (tf_server c))) in Hbound.
Qed.
End Seats.

#[local] Existing Instances demo_cards demo_clock demo_instant demo_ids demo_shuffler demo_secrets
  demo_no_crypto demo_codec demo_offline toy_secp toy_hex demo_keys.

Definition demo_address : string := evm_address_from_secp256k1_verifying_key true.
Definition demo_signature : string := "0x" +:+ hex_encode (replicate 64 1 ++ [0]).

(** Seat 2 joins and binds the owner's address; the commands are still in the mailbox. *)
Definition demo_owned_moves : list Move :=
  [MOpen 7; MArrive (JoinRequest demo_join); MGo 0; MGo 0; MGo 0;
   MArrive (demo_bind_to demo_address); MGo 1; MGo 1; MGo 1; MGo 1].
Definition demo_owned : Traffic := demo_moves demo_traffic_new demo_owned_moves.

Definition demo_owner_act : GameActRequest :=
  mkGameAct 7 100 1 2 "fold" None None (mkMeta 1 "n" 0 1000 "" demo_signature).

Lemma demo_owned_facts :
  orderly RoomActorConfig_default demo_owned_moves demo_traffic_new = true ∧
  omap under_way (tf_requests demo_owned) = [] ∧
  snd (app_verify_game_act demo_owner_act (tf_server demo_owned)) = Ok tt.
Proof. vm_compute. auto. Qed.

(** The owner of the seat's address folds. *)
Lemma seats_act_by_their_address_witness :
  ∃ h t address key, mx_value (rooms (fst (tf_server demo_owned))) !! 7 = Some h ∧
    ho_tasks (snd (tf_server demo_owned)) !! handle_sender h = Some t ∧
    rs_bound_addresses (caught_up RoomActorConfig_default (snd (tf_server demo_owned)) t) !! 2
    = Some address ∧
    normalize_evm_address (evm_address_from_secp256k1_verifying_key key)
    = normalize_evm_address address.
Proof.
  pose proof demo_owned_facts as (Ho & Hnone & Hok). apply orderly_moves_go in Ho.
  change (foldl _ _ _) with demo_owned in Ho.
  pose proof (moves_go RoomActorConfig_default demo_owned_moves demo_traffic_new) as Hr.
  change (foldl _ _ _) with demo_owned in Hr.
  destruct (app_verify_game_act demo_owner_act (tf_server demo_owned)) as [s' r] eqn:Hv.
  cbn [snd] in Hok. subst r.
  destruct (seats_act_by_their_address RoomActorConfig_default (mkDemoWorld 0 100) demo_owned
    demo_owner_act s' Hr Hv) as (_ & address & message & sig & recid & key & _ & _ & _ & Hn & Hroom).
  destruct (Hroom Ho (nothing_under_way _ _ _ Hnone)) as (h & t & Hh & Ht & _ & Ha).
  exists h, t, address, key. split; [exact Hh|]. split; [exact Ht|]. split; [exact Ha|exact Hn].
Defined.
