(* ===== verification/AppSinks.v ===== *)
(** The application's sinks, which write what the other parts report into the audit
    repository and the ledger: [rpc_reject_audit_sink.rs], [settlement_audit_sink.rs],
    [seat_crypto_audit_sink.rs], [audit_event_sink.rs] and [chain_callback_sink.rs] of
    [app-server]; and the outbox publisher ([outbox_publisher.rs]), which takes pending
    records from the audit repository, turns them into events of the bus, and marks them
    delivered.

    serde's derived encodings are the parameter [EventCodec]. What a sink spawns runs
    as a task of its own: [Spawner]. *)

From stdpp Require Import base tactics option list gmap strings pretty.
From Stdlib Require Import NArith Lia.
From S2P Require Import Prelude.
From S2P Require Import Text.
From S2P Require Import Domain.
From S2P Require Import Ambient.
From S2P Require Import EngineState.
From S2P Require Import LedgerStore.
From S2P Require Import AuditStore.
From S2P Require Import AgentAuth.
From S2P Require Import ChainWatcher.
From S2P Require Import SeatCrypto.
From S2P Require Import TableService.
From S2P Require Import GatewayTypes.
From S2P Require Import RoomHandles.
From S2P Require Import RoomService.

Local Open Scope N_scope.

(** [serde_json::to_value] and [from_value] of the events. *)
Class EventCodec := {
  hand_event_to_value : HandEvent → result string Json;
  hand_event_from_value : Json → result string HandEvent;
  seat_event_from_value : Json → result string SeatPrivateEvent;
  behavior_kind_to_value : AuditBehaviorEventKind → result string Json;
}.

(** [tokio::spawn] *)
Class Spawner (W : Type) := { spawn_task : M W Empty_set unit → W → W }.

Section Sinks.
Context {W : Type} {AR : AuditRepository W} {CK : Clock W} {FI : FreshIds W} {UT : UuidText}.

Definition audit_result {A} (m : M W AuditStoreError A) : M W string A :=
  M_map_err audit_error_text m.

(** ** Rejected requests *)

Definition map_reason (reason : RequestRejectReason) : string * string :=
  match reason with
  | RequestExpiredOrInvalidWindow => ("request_rejected", "warn")
  | MissingOrInvalidSignature => ("request_rejected_signature", "warn")
  | RejectedKeyBindingProof => ("request_rejected_key_binding", "warn")
  | ReplayRejected => ("request_rejected_replay", "warn")
  end%string.

(** [format!("{:?}", reason)] *)
Definition reason_debug (reason : RequestRejectReason) : string :=
  match reason with
  | RequestExpiredOrInvalidWindow => "RequestExpiredOrInvalidWindow"
  | MissingOrInvalidSignature => "MissingOrInvalidSignature"
  | RejectedKeyBindingProof => "InvalidKeyBindingProof"
  | ReplayRejected => "ReplayRejected"
  end.

Definition on_request_rejected (event : RequestRejectAuditEvent) : M W string unit :=
  let '(event_kind, severity) := map_reason (rj_reason event) in
  behavior_event_id ← new_uuid;
  occurred_at ← now;
  audit_result (insert_behavior_event
    (mkBehaviorEvent (uuid_text behavior_event_id) event_kind "rpc_gateway" (rj_room_id event)
       (rj_hand_id event) (rj_seat_id event) (rj_action_seq event)
       (uuid_text <$> rj_request_id event) None severity
       (JObj [("method", JStr (rj_method event));
              ("reason", JStr (reason_debug (rj_reason event)));
              ("request_id", json_opt (JStr ∘ uuid_text) (rj_request_id event));
              ("request_nonce", json_opt JStr (rj_request_nonce event));
              ("detail", json_opt JStr (rj_detail event))]%string)
       occurred_at (rj_trace_id event))).

(** ** Settlements and sealed cards *)

Definition settlement_audit_emit (event : BehaviorEventRecord) : M W string unit :=
  audit_result (insert_behavior_event event).

(** The call blocks on the repository, on the current runtime or on a new one. *)
Definition on_hole_cards_encrypted (event : HoleCardsDeliveryAuditEvent) : M W string unit :=
  behavior_event_id ← new_uuid;
  occurred_at ← now;
  trace_id ← new_uuid;
  audit_result (insert_behavior_event
    (mkBehaviorEvent (uuid_text behavior_event_id) "hole_cards_encrypted_delivery" "seat_crypto"
       (Some (ha_room_id event)) (Some (ha_hand_id event)) (Some (ha_seat_id event)) None None None
       "info"
       (JObj [("event_seq", json_N (ha_event_seq event));
              ("key_id", JStr (ha_key_id event));
              ("algorithm", JStr (ha_algorithm event));
              ("ciphertext_len", json_N (N.of_nat (ha_ciphertext_len event)))]%string)
       occurred_at trace_id)).

(** ** What the rooms report *)

Section RoomEvents.
Context {EC : EventCodec} {SP : Spawner W}.

(** A row of the table [hands], as the statement of [upsert_hand_snapshot_row] binds it. *)
Record HandRow := mkHandRow {
  hr_hand_id : HandId;
  hr_room_id : RoomId;
  hr_hand_no : N;
  hr_button_seat_id : N;
  hr_hand_status : string;
  hr_street : string;
  hr_acting_seat_id : option SeatId;
  hr_action_seq_next : N;
  hr_pot_total : string;
  hr_ended : bool;
}.
Definition i32_max : N := 2147483647.
Definition i64_max : N := 9223372036854775807.
Definition hand_status_text (status : HandStatus) : string :=
  match status with
  | HCreated => "Created" | HRunning => "Running" | HShowdown => "Showdown"
  | HSettling => "Settling" | HSettled => "Settled" | HAborted => "Aborted"
  end.
Definition street_text (street : Street) : string :=
  match street with
  | Preflop => "Preflop" | Flop => "Flop" | Turn => "Turn" | River => "River"
  | Showdown => "Showdown"
  end.
Definition hand_row (s : HandSnapshot) : HandRow :=
  mkHandRow (hs_hand_id s) (hs_room_id s) (N.min i64_max (hs_hand_no s)) 0
    (hand_status_text (hs_status s)) (street_text (hs_street s)) (hs_acting_seat_id s)
    (N.min i32_max (hs_next_action_seq s)) (pretty (hs_pot_total s))
    (match hs_status s with HSettled | HAborted => true | _ => false end).

(** [db_pool] with the execution of the statement. *)
Context (persist_hand : option (HandRow → M W string unit)).

Definition sink_upsert_hand_snapshot (snapshot : HandSnapshot) : M W string unit :=
  match persist_hand with
  | None => mret tt
  | Some execute => execute (hand_row snapshot)
  end.

Definition spawn_it (task : M W Empty_set unit) : M W string unit :=
  modify (spawn_task task).

Definition pending_outbox_event (topic partition_key : string) (payload : Json)
    : M W Empty_set OutboxEventRecord :=
  now_ ← now;
  outbox_event_id ← new_uuid;
  mret (mkOutboxEvent (uuid_text outbox_event_id) topic partition_key payload "pending" 0 now_ None
          now_).

Definition outbox_hand_event (event : HandEvent) : M W Empty_set unit :=
  match hand_event_to_value event with
  | Err _ => mret tt
  | Ok payload_json =>
      record ← pending_outbox_event "hand.events" (uuid_text (he_room_id event)) payload_json;
      ignore_error (insert_outbox_event record)
  end.

Definition append_hand_events_task (events : list HandEvent) : M W Empty_set unit :=
  λ w, match AuditStore.append_hand_events events w with
       | (w, Err _) => (w, Ok tt)
       | (w, Ok _) => M_iter outbox_hand_event events w
       end.
Definition sink_append_hand_events (events : list HandEvent) : M W string unit :=
  spawn_it (append_hand_events_task events).

Definition behavior_fields (kind : AuditBehaviorEventKind)
    : string * option SeatId * option N * option string :=
  match kind with
  | SeatJoined seat_id => ("seat_joined"%string, Some seat_id, None, None)
  | SeatLeft seat_id => ("seat_left"%string, Some seat_id, None, None)
  | SeatAddressBound seat_id => ("seat_address_bound"%string, Some seat_id, None, None)
  | SeatSessionKeysBound seat_id _ => ("seat_session_keys_bound"%string, Some seat_id, None, None)
  | TurnTimeoutAutoFold seat_id action_seq =>
      ("turn_timeout_auto_fold"%string, Some seat_id, Some action_seq, None)
  | ChainTxVerificationCallback seat_id action_seq tx_hash _ _ _ =>
      ("chain_tx_verification_callback"%string, seat_id, action_seq, Some tx_hash)
  end.

Definition record_behavior_event_task (event : RoomBehaviorEvent) : M W Empty_set unit :=
  match behavior_kind_to_value (rb_kind event) with
  | Err _ => mret tt
  | Ok payload_json =>
      let '(event_kind, seat_id, action_seq, related_tx_hash) := behavior_fields (rb_kind event) in
      behavior_event_id ← new_uuid;
      occurred_at ← now;
      ignore_error (insert_behavior_event
        (mkBehaviorEvent (uuid_text behavior_event_id) event_kind "table_service"
           (Some (rb_room_id event)) None seat_id action_seq None related_tx_hash "info"
           payload_json occurred_at (rb_trace_id event)))
  end.
Definition sink_record_behavior_event (event : RoomBehaviorEvent) : M W string unit :=
  spawn_it (record_behavior_event_task event).

Definition seat_event_json (event : SeatPrivateEvent) : Json :=
  JObj [("room_id", JStr (uuid_text (sp_room_id event)));
        ("hand_id", JStr (uuid_text (sp_hand_id event)));
        ("seat_id", json_N (sp_seat_id event));
        ("event_name", JStr (sp_event_name event));
        ("payload", sp_payload event)]%string.
Definition outbox_seat_event (event : SeatPrivateEvent) : M W Empty_set unit :=
  record ← pending_outbox_event "seat.events"
             (uuid_text (sp_room_id event) +:+ ":" +:+ pretty (sp_seat_id event))
             (seat_event_json event);
  ignore_error (insert_outbox_event record).
Definition append_private_events_task (events : list SeatPrivateEvent) : M W Empty_set unit :=
  M_iter outbox_seat_event events.
Definition sink_append_private_events (events : list SeatPrivateEvent) : M W string unit :=
  spawn_it (append_private_events_task events).

Definition AuditRoomEventSink : RoomEventSink W :=
  mkEventSink sink_upsert_hand_snapshot sink_append_hand_events sink_record_behavior_event
    sink_append_private_events.
End RoomEvents.

(** ** Verified transactions *)

Record ChainVerificationAlert := mkChainAlert {
  cl_room_id : RoomId;
  cl_tx_hash : string;
  cl_status : string;
  cl_reason : option string;
}.
(** [ChainAlertSink::emit]; the default sink does nothing. *)
Definition NoopChainAlertSink : ChainVerificationAlert → M W string unit := λ _, mret tt.

(** [format!("{:?}", status).to_lowercase()] *)
Definition status_text (status : VerificationStatus) : string :=
  match status with
  | VPending => "pending" | VMatched => "matched" | VLate => "late"
  | VUnmatched => "unmatched" | VFailed => "failed"
  end.
Definition status_severity (status : VerificationStatus) : string :=
  match status with
  | VMatched => "info" | VPending => "warn" | VLate | VUnmatched | VFailed => "error"
  end.
Definition is_alarming (status : VerificationStatus) : bool :=
  match status with VLate | VUnmatched | VFailed => true | _ => false end.
Definition is_credited (status : VerificationStatus) : bool :=
  match status with VLate | VUnmatched => true | _ => false end.
End Sinks.

Section Callback.
Context {CO : CardOps} {W : Type} {RA : RoomActors W} {CT : ChainTxRepository W}.
Context {AR : AuditRepository W} {CK : Clock W} {FI : FreshIds W} {UT : UuidText}.
Context {SK : Secp256k1} {RK : RandomKeys W}.
Context (alert_sink : ChainVerificationAlert → M W string unit).
(** Whether the sink was given an audit repository. *)
Context (with_audit : bool).

Abbreviation C A := (M (AppRoomService * W) ChainWatcherError A) (only parsing).

Definition around {E A} (f : E → ChainWatcherError) (m : M W E A) : C A :=
  λ '(v, w), let '(w, r) := m w in ((v, w), result_map_err f r).

Definition verification_upsert (callback : TxVerificationCallback) (verified_at : DateTime)
    (trace_id : TraceId) : TxVerificationUpsert :=
  mkTxVerificationUpsert (vc_tx_hash callback) (vc_room_id callback) (vc_hand_id callback)
    (vc_seat_id callback) (vc_action_seq callback) (status_text (vc_status callback))
    (vc_confirmations callback) (vc_failure_reason callback) None None None verified_at trace_id.
Definition callback_event (callback : TxVerificationCallback) (id : Uuid) (occurred_at : DateTime)
    (trace_id : TraceId) : BehaviorEventRecord :=
  mkBehaviorEvent (uuid_text id) "chain_tx_verification_callback" "chain_watcher"
    (Some (vc_room_id callback)) (vc_hand_id callback) (vc_seat_id callback)
    (vc_action_seq callback) None (Some (vc_tx_hash callback))
    (status_severity (vc_status callback))
    (JObj [("tx_hash", JStr (vc_tx_hash callback));
           ("status", JStr (status_text (vc_status callback)));
           ("confirmations", json_N (vc_confirmations callback));
           ("failure_reason", json_opt JStr (vc_failure_reason callback))]%string)
    occurred_at trace_id.
Definition exception_credit (callback : TxVerificationCallback) (updated_at : DateTime)
    (trace_id : TraceId) : ExceptionCreditUpsert :=
  mkExceptionCreditUpsert (vc_room_id callback) (vc_seat_id callback) (vc_tx_hash callback)
    (status_text (vc_status callback)) 0 "open"
    (default "chain_callback"%string (vc_failure_reason callback)) updated_at trace_id.
Definition room_callback (callback : TxVerificationCallback) : ChainTxVerifiedCallback :=
  mkChainCallback (vc_tx_hash callback) (status_text (vc_status callback))
    (vc_confirmations callback) (vc_hand_id callback) (vc_seat_id callback)
    (vc_action_seq callback) (vc_failure_reason callback).

Definition ledger_sink_error (e : LedgerStoreError) : ChainWatcherError :=
  CallbackSink (ledger_error_text e).

(** [AppChainCallbackSink::on_verification_result] *)
Definition app_on_verification_result (callback : TxVerificationCallback) : C unit :=
  around ledger_sink_error
    (verified_at ← now;
     trace_id ← new_uuid;
     upsert_tx_verification (verification_upsert callback verified_at trace_id));;
  M_when with_audit
    (around (λ e, CallbackSink (audit_error_text e))
       (id ← new_uuid;
        occurred_at ← now;
        trace_id ← new_uuid;
        insert_behavior_event (callback_event callback id occurred_at trace_id)));;
  M_when (is_alarming (vc_status callback))
    (around (λ e : Empty_set, match e with end)
       (ignore_error (alert_sink (mkChainAlert (vc_room_id callback) (vc_tx_hash callback)
          (status_text (vc_status callback)) (vc_failure_reason callback)))));;
  M_when (is_credited (vc_status callback))
    (around ledger_sink_error
       (updated_at ← now;
        trace_id ← new_uuid;
        upsert_exception_credit (exception_credit callback updated_at trace_id)));;
  room ← M_map_err (λ e, CallbackSink (gateway_error_text e)) (ensure_room (vc_room_id callback));
  around CallbackSink (room_chain_tx_verified room (room_callback callback)).
End Callback.

Definition hand_event_name (kind : HandEventKind) : string :=
  match kind with
  | HandStarted => "hand_started"
  | TurnStarted _ => "turn_started"
  | ActionAccepted _ => "action_accepted"
  | StreetChanged _ => "street_changed"
  | PotUpdated _ => "pot_updated"
  | HandClosed => "hand_closed"
  end.

Definition hand_event_seat_id (kind : HandEventKind) : option SeatId :=
  match kind with
  | TurnStarted seat_id => Some seat_id
  | ActionAccepted action => Some (pa_seat_id action)
  | _ => None
  end.

Section Outbox.
Context {EC : EventCodec}.

Definition to_event_envelope (topic : string) (payload_json : Json)
    : result string (option EventEnvelope) :=
  if String.eqb topic "hand.events" then
    hand_event ← hand_event_from_value payload_json;
    Ok (Some (mkEvent HandEvents (he_room_id hand_event) (Some (he_hand_id hand_event))
                (hand_event_seat_id (he_kind hand_event))
                (hand_event_name (he_kind hand_event)) payload_json))
  else if String.eqb topic "seat.events" then
    seat_event ← seat_event_from_value payload_json;
    Ok (Some (mkEvent SeatEvents (sp_room_id seat_event) (Some (sp_hand_id seat_event))
                (Some (sp_seat_id seat_event)) (sp_event_name seat_event)
                (sp_payload seat_event)))
  else Ok None.

Context {W : Type} {AR : AuditRepository W} {EB : EventSubscriptionPort W} {CK : Clock W}.

(** One turn of the loop over the records. *)
Definition publish_record (published : nat) (record : OutboxEventRecord) : M W string nat :=
  found ← lift_result (to_event_envelope (ob_topic record) (ob_payload_json record));
  match found with
  | None => mret published
  | Some envelope =>
      M_map_err gateway_error_text (bus_publish envelope);;
      delivered_at ← now;
      audit_result (mark_outbox_event_delivered (ob_outbox_event_id record) delivered_at);;
      mret (S published)
  end.

Fixpoint publish_records (published : nat) (records : list OutboxEventRecord) : M W string nat :=
  match records with
  | [] => mret published
  | record :: records =>
      published ← publish_record published record;
      publish_records published records
  end.

Definition publish_pending_outbox_once (limit : nat) : M W string nat :=
  records ← audit_result (fetch_pending_outbox_events limit);
  publish_records 0 records.

(** [spawn_outbox_publisher_loop]: a tick tries once, whatever comes of it; the loop
    ends with the shutdown. *)
Definition outbox_tick (batch_limit : nat) : M W Empty_set unit :=
  ignore_error (publish_pending_outbox_once batch_limit).
Fixpoint outbox_ticks (batch_limit : nat) (ticks : nat) : M W Empty_set unit :=
  match ticks with
  | O => mret tt
  | S ticks => outbox_tick batch_limit;; outbox_ticks batch_limit ticks
  end.
End Outbox.
