(* ===== verification/AppSinksProps.v ===== *)
(** The way back from the chain: what the application does with the verdict on a
    transaction, down to the engine of the room it concerns. *)

From stdpp Require Import base tactics option list gmap strings relations.
From Stdlib Require Import NArith Lia.
From S2P Require Import Prelude.
From S2P Require Import Ambient.
From S2P Require Import Text.
From S2P Require Import Domain.
From S2P Require Import EngineState.
From S2P Require Import Engine.
From S2P Require Import LedgerStore.
From S2P Require Import AuditStore.
From S2P Require Import JsonRpc.
From S2P Require Import AgentAuth.
From S2P Require Import AgentAuthProps.
From S2P Require Import ChainWatcher.
From S2P Require Import SeatCrypto.
From S2P Require Import TableService.
From S2P Require Import RoomDemo.
From S2P Require Import RoomTurns.
From S2P Require Import GatewayTypes.
From S2P Require Import RoomHandles.
From S2P Require Import RoomHandlesProps.
From S2P Require Import RoomService.
From S2P Require Import RoomServiceProps.
From S2P Require Import AppSinks.

Local Open Scope N_scope.

Section Callbacks.
Context {CO : CardOps} {W : Type}.
Context {CK : Clock W} {FI : FreshIds W} {MC : MonotonicClock W} {SH : Shuffler W}.
Context {CR : SeatCryptoPrimitives} {UT : UuidText} {ES : EphemeralSecrets W} {RC : RoomCodec}.
Context {TR : JsonRpcTransport W} {CT : ChainTxRepository W} {AR : AuditRepository W}.
Context {SK : Secp256k1} {RK : RandomKeys W}.
Context (config : RoomActorConfig) (persist : option (RoomRow → M W string unit)).
Context (alert : ChainVerificationAlert → M W string unit) (with_audit : bool).

#[export] Instance house_audit : AuditRepository (House W) := {|
  insert_action_attempt r := on_world (insert_action_attempt r);
  insert_behavior_event r := on_world (insert_behavior_event r);
  append_hand_events l := on_world (AuditStore.append_hand_events l);
  insert_outbox_event r := on_world (insert_outbox_event r);
  fetch_pending_outbox_events n := on_world (fetch_pending_outbox_events n);
  mark_outbox_event_delivered id t := on_world (mark_outbox_event_delivered id t);
|}.
Definition house_alert (a : ChainVerificationAlert) : M (House W) string unit := on_world (alert a).
Definition house_callback (cb : TxVerificationCallback)
    : M (AppRoomService * House W) ChainWatcherError unit :=
  app_on_verification_result (RA := house_rooms config) house_alert with_audit cb.

(** What leaves the rooms and the service alone. *)
Definition beside_rooms (s s' : AppRoomService * House W) : Prop :=
  fst s' = fst s ∧ ho_tasks (snd s') = ho_tasks (snd s) ∧
  ho_next_task (snd s') = ho_next_task (snd s).
#[local] Instance beside_rooms_preorder : PreOrder beside_rooms.
Proof. split; [by split|]. intros a b c (?&?&?) (?&?&?). split; [congruence|]. split; congruence. Qed.

Definition outside_rooms {E A} (m : M (AppRoomService * House W) E A) : Prop :=
  ∀ s, beside_rooms s (fst (m s)).
(** The same for a computation of the world. *)
Definition taskless {E A} (m : M (House W) E A) : Prop :=
  ∀ ho, ho_tasks (fst (m ho)) = ho_tasks ho ∧ ho_next_task (fst (m ho)) = ho_next_task ho.

Lemma taskless_bind {E A B} (m : M (House W) E A) (k : A → M (House W) E B) :
  taskless m → (∀ x, taskless (k x)) → taskless (m ≫= k).
Proof.
  intros Hm Hk ho. unfold mbind, M_mbind, M_bind. specialize (Hm ho).
  destruct (m ho) as [ho1 [x|e]]; [|done]. destruct (Hk x ho1). cbn in Hm. destruct Hm. split; congruence.
Qed.
Lemma taskless_world {E A} (m : M W E A) : taskless (on_world m).
Proof. intros ho. unfold on_world. by destruct (m (ho_world ho)). Qed.
Lemma taskless_uuid {E} : taskless (new_uuid (E := E)).
Proof. intros ho. unfold new_uuid. cbn. unfold draw_house. by destruct (fresh_uuid _). Qed.
Lemma taskless_now {E} : taskless (now (E := E)).
Proof. by intros ho. Qed.
Lemma taskless_ignore {E A} (m : M (House W) E A) : taskless m → taskless (ignore_error (E' := Empty_set) m).
Proof. intros Hm ho. apply Hm. Qed.

Lemma outside_around {E A} (f : E → ChainWatcherError) (m : M (House W) E A) :
  taskless m → outside_rooms (around f m).
Proof.
  intros Hm [v ho]. unfold around. specialize (Hm ho). destruct (m ho) as [ho' r]. by split.
Qed.
Lemma outside_when {E} b (m : M (AppRoomService * House W) E unit) :
  outside_rooms m → outside_rooms (M_when b m).
Proof. intros Hm s. unfold M_when. by destruct b. Qed.

Ltac outside :=
  repeat lazymatch goal with
  | |- outside_rooms (M_when _ _) => apply outside_when
  | |- outside_rooms (around _ _) => apply outside_around
  | |- taskless (_ ≫= _) => apply taskless_bind; [|intros ?]
  | |- taskless new_uuid => apply taskless_uuid
  | |- taskless now => apply taskless_now
  | |- taskless (ignore_error _) => apply taskless_ignore
  | |- taskless (house_alert _) => apply taskless_world
  | |- taskless _ => simpl; apply taskless_world
  end.

(** A step that stays outside, and then the rest. *)
Lemma outside_then {E A B} (m : M (AppRoomService * House W) E A)
    (k : A → M (AppRoomService * House W) E B) s0 s s' r :
  beside_rooms s0 s → outside_rooms m → (m ≫= k) s = (s', r) →
  (∃ e, r = Err e ∧ beside_rooms s0 s') ∨ (∃ s1 x, beside_rooms s0 s1 ∧ k x s1 = (s', r)).
Proof.
  intros Hs Hm. unfold mbind, M_mbind, M_bind. specialize (Hm s).
  destruct (m s) as [s1 [x|e]]; cbn in Hm.
  - intros Hk. right. exists s1, x. split; [by etrans|done].
  - intros [= <- <-]. left. exists e. split; [done|by etrans].
Qed.

Lemma beside_agrees s s' : beside_rooms s s' → agrees s → agrees s'.
Proof.
  destruct s as [v ho], s' as [v' ho']. intros (Hv & Ht & Hn) Hag. cbn in *. subst v'.
  by apply (keeps_world v ho ho').
Qed.

(** A callback delivered to a room whose mailbox is empty. *)
Lemma house_callback_delivered h cb (ho : House W) t :
  ho_tasks ho !! handle_sender h = Some t → tk_mailbox t = [] →
  ∃ ho' t', house_send config h (ChainTxVerified cb) ho = (ho', Ok tt) ∧
    ho_tasks ho' = <[handle_sender h := t']> (ho_tasks ho) ∧
    (rs_state (tk_room t'), rs_pending_chain_actions (tk_room t'))
    = chain_effect cb (rs_state (tk_room t)) (rs_pending_chain_actions (tk_room t)).
Proof.
  intros Ht Hm. rewrite house_send_run, Ht, task_serve_idle by done.
  eexists _, _. split; [reflexivity|]. split; [reflexivity|].
  exact (chain_callback_effect (tk_room_id t) queue_capacity config cb _).
Qed.

(** Passes a step that stays outside; the first goal is its failure. *)
Ltac pass_outside s0 Hrun s Hb :=
  let e := fresh "e" in let Hv := fresh "Hv" in let Hts := fresh "Hts" in let x := fresh "x" in
  apply (outside_then _ _ s0) in Hrun as [(e & -> & Hv & Hts & _)|(s & x & Hb & Hrun)];
    [| |first [assumption|reflexivity]|outside].

(** C23. The way back from the chain. When the verdict on a transaction is passed on
    without an error, the room it names has dealt with it as its rules say: a matched
    transaction has played the action that waited for it, a failed or unmatched one
    has aborted an open hand, and nothing else has changed the game; every other room
    of the process is as it was, no room was spawned, and neither are the maps of the
    service touched. When recording the verdict fails, no room has heard of it. *)
Theorem verdicts_reach_their_room w v ho cb s' r h t
    (Hreach : rtc (server_step config persist) (server_new w) (v, ho))
    (Hid : mx_value (rooms v) !! vc_room_id cb = Some h)
    (Ht : ho_tasks ho !! handle_sender h = Some t) (Hidle : tk_mailbox t = [])
    (Hrun : house_callback cb (v, ho) = (s', r)) :
  fst s' = v ∧
  match r with
  | Ok _ => ∃ t', ho_tasks (snd s') = <[handle_sender h := t']> (ho_tasks ho) ∧
      (rs_state (tk_room t'), rs_pending_chain_actions (tk_room t'))
      = chain_effect (room_callback cb) (rs_state (tk_room t)) (rs_pending_chain_actions (tk_room t))
  | Err _ => ho_tasks (snd s') = ho_tasks ho
  end.
Proof.
  apply server_runs in Hreach as Hk. destruct (Hk (agrees_new w)) as (Hag & _ & _).
  unfold house_callback, app_on_verification_result in Hrun.
  pass_outside (v, ho) Hrun s1 Hb1; [done|].
  pass_outside (v, ho) Hrun s2 Hb2; [done|].
  pass_outside (v, ho) Hrun s3 Hb3; [done|].
  pass_outside (v, ho) Hrun s4 Hb4; [done|].
  destruct s4 as [v4 ho4]. pose proof (beside_agrees _ _ Hb4 Hag) as Hag4.
  destruct Hb4 as (Hv4 & Ht4 & _). cbn in Hv4, Ht4. subst v4.
  unfold M_map_err, mbind, M_mbind, M_bind in Hrun. rewrite ensure_room_run in Hrun
    by (first [apply Hag4|intros; by apply (ag_nothing _ Hag4)]).
  rewrite Hid in Hrun. cbn [result_map_err] in Hrun. rewrite <- Ht4 in Ht.
  destruct (house_callback_delivered h (room_callback cb) ho4 t Ht Hidle) as (ho' & t' & Hsend & Ht' & Heff).
  unfold around, room_chain_tx_verified in Hrun. cbn [send house_rooms house_actors] in Hrun.
  rewrite Hsend in Hrun. injection Hrun as <- <-. split; [done|]. exists t'.
  cbn in Ht4. rewrite <- Ht4. by split.
Qed.
End Callbacks.

#[local] Existing Instances demo_cards demo_clock demo_instant demo_ids demo_shuffler demo_secrets
  demo_no_crypto demo_uuid_text demo_codec demo_offline toy_secp demo_ledger demo_keys.
#[local] Instance demo_audit : AuditRepository DemoWorld := {|
  insert_action_attempt _ := mret tt;
  insert_behavior_event _ := mret tt;
  append_hand_events _ := mret tt;
  insert_outbox_event _ := mret tt;
  fetch_pending_outbox_events _ := mret [];
  mark_outbox_event_delivered _ _ := mret tt;
|}.

Definition demo_waiting : AppRoomService * House DemoWorld :=
  fst (act (RA := house_rooms RoomActorConfig_default) demo_paid_call demo_joined).
Lemma demo_waiting_reached :
  rtc (server_step RoomActorConfig_default None) demo_server demo_waiting.
Proof.
  eapply rtc_r; [exact demo_joined_reached|apply (step_act _ _ demo_paid_call)].
Qed.
Definition demo_verdict : TxVerificationCallback :=
  mkTxVerificationCallback 7 (Some 100) (Some 2) (Some 1) "0xfeed" VMatched 3 None.

Lemma demo_waiting_facts :
  mx_value (rooms (fst demo_waiting)) !! 7 = Some (mkHandle 0) ∧
  (tk_mailbox <$> ho_tasks (snd demo_waiting) !! 0) = Some [] ∧
  (λ t, dom (rs_pending_chain_actions (tk_room t))) <$> ho_tasks (snd demo_waiting) !! 0
  = Some {["0xfeed"%string]} ∧
  (λ t, concerns_current_hand (room_callback demo_verdict) (rs_state (tk_room t)))
    <$> ho_tasks (snd demo_waiting) !! 0 = Some true ∧
  snd (house_callback RoomActorConfig_default NoopChainAlertSink true demo_verdict demo_waiting)
  = Ok tt.
Proof. vm_compute. auto. Qed.

(** The verdict takes the waiting action off the room's list. *)
Lemma verdicts_reach_their_room_witness :
  ∃ t t', ho_tasks (snd demo_waiting) !! 0 = Some t ∧
    ho_tasks (snd (fst (house_callback RoomActorConfig_default NoopChainAlertSink true demo_verdict
                          demo_waiting))) !! 0 = Some t' ∧
    (rs_state (tk_room t'), rs_pending_chain_actions (tk_room t'))
    = chain_effect (room_callback demo_verdict) (rs_state (tk_room t))
        (rs_pending_chain_actions (tk_room t)).
Proof.
  pose proof demo_waiting_reached as Hreach.
  pose proof demo_waiting_facts as (Hid & Hmail & _ & _ & Hok). destruct demo_waiting as [v ho].
  destruct (ho_tasks (snd (v, ho)) !! 0) as [t|] eqn:Ht; [|discriminate Hmail].
  injection Hmail as Hmail.
  destruct (house_callback _ _ _ _ (v, ho)) as [s' r] eqn:Hrun. cbn [fst snd] in *. subst r.
  destruct (verdicts_reach_their_room RoomActorConfig_default None NoopChainAlertSink true
    (mkDemoWorld 0 100) v ho demo_verdict s' (Ok tt) (mkHandle 0) t Hreach Hid Ht Hmail Hrun)
    as (_ & t' & Ht' & Heff).
  exists t, t'. split; [reflexivity|]. split; [rewrite Ht'; apply lookup_insert_eq|exact Heff].
Defined.
