(* ===== verification/AgentSdk.v ===== *)
(** The agents' library ([agent-sdk/src/lib.rs]): the skill of one seat, which builds
    the requests of its room and keeps the actions it has already attempted.

    The state of every operation is the skill with the world of clocks and
    identifiers. serde's derives are not modelled. *)

From stdpp Require Import base tactics option list gmap strings pretty.
From Stdlib Require Import NArith ZArith Lia.
From S2P Require Import Prelude.
From S2P Require Import Text.
From S2P Require Import Domain.
From S2P Require Import Ambient.
From S2P Require Import LedgerStore.
From S2P Require Import AgentAuth.
From S2P Require Import SeatCrypto.
From S2P Require Import GatewayTypes.

Local Open Scope N_scope.

(** ** Data *)

Inductive AgentSkillError :=
| NotConnected | MissingSeatContext | SkillSerialization (message : string)
| SkillSeatCrypto (error : SeatCryptoError) | ActionNotLegal | DuplicateActionAttempt.

Definition seat_crypto_error_text (e : SeatCryptoError) : string :=
  match e with
  | InvalidBase64 _ => "invalid base64 payload"
  | InvalidEphemeralPublicKeyLength => "invalid ephemeral public key length"
  | InvalidNonceLength => "invalid nonce length"
  | Aead => "aead error"
  | Hkdf => "hkdf expansion failed"
  end.
Definition skill_error_text (e : AgentSkillError) : string :=
  match e with
  | NotConnected => "not connected"
  | MissingSeatContext => "seat context missing"
  | SkillSerialization m => "serialization error: " +:+ m
  | SkillSeatCrypto e => "seat crypto error: " +:+ seat_crypto_error_text e
  | ActionNotLegal => "action not in legal action set"
  | DuplicateActionAttempt => "duplicate action attempt detected"
  end.

Record AgentSkillConfig := mkSkillConfig {
  sk_endpoint_http : string;
  sk_endpoint_ws : option string;
  sk_session_id : option SessionId;
}.
Record SeatContext := mkSeatContext {
  cs_room_id : RoomId;
  cs_seat_id : SeatId;
  cs_seat_address : option string;
  cs_request_signature_pubkey_id : option string;
}.
Record Observation := mkObservation {
  on_room_id : RoomId;
  on_hand_id : option HandId;
  on_seat_id : SeatId;
  on_legal_actions : list string;
  on_public_state : Json;
  on_private_payloads : list HoleCardsDealtCipherPayload;
}.

Record ActionAttemptKey := mkAttemptKey {
  ak_room_id : RoomId;
  ak_hand_id : HandId;
  ak_seat_id : SeatId;
  ak_action_seq : ActionSeq;
}.
#[export] Instance ActionAttemptKey_eq_dec : EqDecision ActionAttemptKey.
Proof. solve_decision. Defined.
#[export] Program Instance ActionAttemptKey_countable : Countable ActionAttemptKey :=
  inj_countable' (λ k, (ak_room_id k, ak_hand_id k, ak_seat_id k, ak_action_seq k))
    (λ '(r, h, s, a), mkAttemptKey r h s a) _.
Next Obligation. by intros []. Qed.

(** ** Retries *)

Inductive RetryDecision := DoRetry | StopRetrying.
Inductive RetryableErrorKind := TimeoutError | TransportError.
Record RetryPolicy := mkRetryPolicy {
  ry_max_attempts : N;
  ry_retry_on_timeout : bool;
  ry_retry_on_transport_error : bool;
}.
Definition RetryPolicy_default : RetryPolicy := mkRetryPolicy 3 true true.

Definition should_retry (p : RetryPolicy) (attempt_no : N) (reason : RetryableErrorKind)
    : RetryDecision :=
  if ry_max_attempts p <=? attempt_no then StopRetrying
  else
    let allowed := match reason with
                   | TimeoutError => ry_retry_on_timeout p
                   | TransportError => ry_retry_on_transport_error p
                   end in
    if allowed then DoRetry else StopRetrying.

(** ** Attempts *)

Definition LocalActionAttemptStore : Type := Mutex (gset ActionAttemptKey).
Definition LocalActionAttemptStore_new : LocalActionAttemptStore := mkMutex false ∅.

Definition reserve (key : ActionAttemptKey) : M LocalActionAttemptStore AgentSkillError unit :=
  seen ← get;
  keys ← lift_result (result_map_err (λ _, DuplicateActionAttempt) (lock seen));
  if bool_decide (key ∈ keys) then throw DuplicateActionAttempt
  else modify (λ seen, store seen ({[key]} ∪ keys)).

(** ** The skill *)

Record LocalAgentSkill := mkSkill {
  ls_config : option AgentSkillConfig;
  ls_seat_ctx : option SeatContext;
  ls_session_id : option SessionId;
  ls_retry_policy : RetryPolicy;
  ls_action_attempts : LocalActionAttemptStore;
}.
Definition LocalAgentSkill_default : LocalAgentSkill :=
  mkSkill None None None RetryPolicy_default LocalActionAttemptStore_new.

(** [format!("{:?}", action_type)] *)
Definition action_debug (action_type : ActionType) : string :=
  match action_type with
  | Fold => "Fold" | Check => "Check" | Call => "Call" | RaiseTo => "RaiseTo" | AllIn => "AllIn"
  end.
(** [format!("{action_type:?}").to_lowercase()] *)
Definition action_name (action_type : ActionType) : string :=
  to_ascii_lowercase (action_debug action_type).

Section Skill.
Context {W : Type} {CK : Clock W} {FI : FreshIds W} {UT : UuidText}.

Abbreviation S A := (M (LocalAgentSkill * W) AgentSkillError A) (only parsing).

Definition of_world {A} (m : M W AgentSkillError A) : S A :=
  λ '(sk, w), let '(w, r) := m w in ((sk, w), r).
Definition set_seat_ctx (ctx : SeatContext) : S unit :=
  modify (λ '(sk, w), (mkSkill (ls_config sk) (Some ctx) (ls_session_id sk) (ls_retry_policy sk)
                         (ls_action_attempts sk), w)).

Definition on_attempts (m : M LocalActionAttemptStore AgentSkillError unit) : S unit :=
  λ '(sk, w),
    let '(attempts, r) := m (ls_action_attempts sk) in
    ((mkSkill (ls_config sk) (ls_seat_ctx sk) (ls_session_id sk) (ls_retry_policy sk) attempts, w), r).

(** [self.seat_ctx.as_ref().ok_or(MissingSeatContext)?] *)
Definition seat_context : S SeatContext :=
  s ← get; lift_result (ok_or MissingSeatContext (ls_seat_ctx (fst s))).

Definition skill_signed_meta : S SignedRequestMeta :=
  ctx ← seat_context;
  request_id ← of_world new_uuid;
  nonce ← of_world new_uuid;
  request_ts ← of_world now;
  mret (mkMeta request_id (uuid_text nonce) request_ts 30000
          (default "unset"%string (cs_request_signature_pubkey_id ctx)) "").

Definition build_get_state_request (hand_id : option HandId) : S GameGetStateRequest :=
  ctx ← seat_context;
  mret (mkGetState (cs_room_id ctx) hand_id (Some (cs_seat_id ctx))).

Definition build_get_legal_actions_request : S GameGetLegalActionsRequest :=
  ctx ← seat_context;
  mret (mkGetLegal (cs_room_id ctx) (cs_seat_id ctx)).

Definition build_room_ready_request : S RoomReadyRequest :=
  ctx ← seat_context;
  request_meta ← skill_signed_meta;
  mret (mkRoomReady (cs_room_id ctx) (cs_seat_id ctx) request_meta).

(** The struct's [signature_pubkey_id]. *)
Definition set_pubkey_id (id : string) (m : SignedRequestMeta) : SignedRequestMeta :=
  mkMeta (rm_request_id m) (rm_request_nonce m) (rm_request_ts m) (rm_request_expiry_ms m) id
    (rm_signature m).

Definition build_bind_session_keys_request_unsigned (card_encrypt_pubkey_hex key_algo : string)
    : S RoomBindSessionKeysRequest :=
  request_meta ← skill_signed_meta;
  ctx ← seat_context;
  seat_address ← lift_result (ok_or MissingSeatContext (cs_seat_address ctx));
  mret (mkBindKeys (cs_room_id ctx) (cs_seat_id ctx) seat_address card_encrypt_pubkey_hex "" key_algo
          "" (set_pubkey_id seat_address request_meta)).

(** [iter().map(..).collect::<Result<Vec<_>, _>>()] *)
Definition decode_ciphertexts `{SeatCryptoPrimitives}
    : list HoleCardsDealtCipherPayload → result AgentSkillError (list Bytes) :=
  fix go payloads :=
    match payloads with
    | [] => Ok []
    | p :: payloads =>
        bytes ← result_map_err SkillSeatCrypto (decode_ciphertext (hc_envelope p));
        rest ← go payloads;
        Ok (bytes :: rest)
    end.
Definition decrypt_private_payloads_placeholder `{SeatCryptoPrimitives}
    (payloads : list HoleCardsDealtCipherPayload) : S (list Bytes) :=
  ctx ← seat_context;
  lift_result (decode_ciphertexts
    (filter (λ p, ad_room_id (hc_aad p) = cs_room_id ctx ∧ ad_seat_id (hc_aad p) = cs_seat_id ctx)
       payloads)).

Definition validate_action_choice (legal_actions : list string) (action_type : ActionType)
    : result AgentSkillError unit :=
  if existsb (String.eqb (action_name action_type)) legal_actions then Ok tt else Err ActionNotLegal.

Definition set_retry_policy (retry_policy : RetryPolicy) : S unit :=
  modify (λ '(sk, w), (mkSkill (ls_config sk) (ls_seat_ctx sk) (ls_session_id sk) retry_policy
                         (ls_action_attempts sk), w)).

Definition reserve_action_attempt (hand_id : HandId) (action_seq : ActionSeq) : S unit :=
  ctx ← seat_context;
  on_attempts (reserve (mkAttemptKey (cs_room_id ctx) hand_id (cs_seat_id ctx) action_seq)).

(** *** [AgentSkill for LocalAgentSkill] *)

Definition skill_connect (config : AgentSkillConfig) : S unit :=
  modify (λ '(sk, w), (mkSkill (Some config) (ls_seat_ctx sk) (sk_session_id config)
                         (ls_retry_policy sk) (ls_action_attempts sk), w)).

Definition join_room (room_id : RoomId) (seat_id : SeatId) : S unit :=
  s ← get;
  match ls_config (fst s) with
  | None => throw NotConnected
  | Some _ => set_seat_ctx (mkSeatContext room_id seat_id None None)
  end.

Definition bind_seat_address (seat_address : string) : S RoomBindAddressRequest :=
  meta ← skill_signed_meta;
  ctx ← seat_context;
  set_seat_ctx (mkSeatContext (cs_room_id ctx) (cs_seat_id ctx) (Some seat_address)
                  (cs_request_signature_pubkey_id ctx));;
  mret (mkBindAddress (cs_room_id ctx) (cs_seat_id ctx) seat_address meta).

Definition observe : S Observation :=
  ctx ← seat_context;
  mret (mkObservation (cs_room_id ctx) None (cs_seat_id ctx) [] (JObj []) []).

(** The attempt is reserved before the request is built. *)
Definition build_game_act_request (hand_id : HandId) (action_seq : ActionSeq)
    (action_type : ActionType) (amount tx_hash : option string) : S GameActRequest :=
  ctx ← seat_context;
  reserve_action_attempt hand_id action_seq;;
  request_meta ← skill_signed_meta;
  mret (mkGameAct (cs_room_id ctx) hand_id action_seq (cs_seat_id ctx) (action_name action_type)
          amount tx_hash request_meta).
End Skill.
