(* ===== verification/AgentClient.v ===== *)
(** The parts of the headless client beside its runs
    ([headless-agent-client/src]): decisions ([policy_adapter.rs]), the wallet
    ([wallet_adapter.rs]) and the state of a session ([client.rs]).

    The command-line policy is a subprocess: what it prints for a prompt is the
    parameter [CodexProcess]. serde's reading of its answer is a parameter too. *)

From stdpp Require Import base tactics option list gmap strings pretty.
From Stdlib Require Import NArith ZArith Lia Ascii.
From S2P Require Import Prelude.
From S2P Require Import Text.
From S2P Require Import Domain.
From S2P Require Import Ambient.
From S2P Require Import JsonRpc.
From S2P Require Import AgentAuth.
From S2P Require Import AgentSdk.

Local Open Scope N_scope.

(** ** Policies *)

Inductive PolicyAdapterError := BackendUnavailable | InvalidDecision.
Definition policy_error_text (e : PolicyAdapterError) : string :=
  match e with
  | BackendUnavailable => "policy backend unavailable"
  | InvalidDecision => "invalid policy decision"
  end.

Record PolicyDecisionInput := mkPolicyInput {
  pi_room_id : RoomId;
  pi_hand_id : HandId;
  pi_seat_id : SeatId;
  pi_legal_actions : list string;
  pi_public_state_json : Json;
  pi_private_state_json : option Json;
  pi_decision_context_json : option Json;
}.
Inductive PolicySource := SourceRule | SourceLlm | SourceScript.
Record PolicyDecision := mkDecision {
  pd_action_type : ActionType;
  pd_amount : option Chips;
  pd_rationale : option string;
  pd_source : PolicySource;
}.

(** [PolicyAdapter::decide_action] *)
Class PolicyAdapter (W : Type) := {
  decide_action : PolicyDecisionInput → M W PolicyAdapterError (option PolicyDecision);
}.

(** [legal.iter().any(|a| a == name)] *)
Definition offers (legal : list string) (name : string) : bool := existsb (String.eqb name) legal.

Definition rule_decision (input : PolicyDecisionInput) : option PolicyDecision :=
  let legal := pi_legal_actions input in
  let choose :=
    if offers legal "check" then Some Check
    else if offers legal "call" then Some Call
    else if offers legal "fold" then Some Fold
    else None in
  (λ action_type, mkDecision action_type None (Some "rule_policy_simple_priority"%string) SourceRule)
    <$> choose.
Definition RulePolicyAdapter {W} : PolicyAdapter W :=
  {| decide_action := λ input, mret (rule_decision input) |}.
Definition LlmCodexPolicyAdapter {W} : PolicyAdapter W :=
  {| decide_action := λ _, mret None |}.

(** *** The context of earlier decisions *)

Record DecisionContextEntry := mkContextEntry {
  dx_hand_id : HandId;
  dx_seat_id : SeatId;
  dx_legal_actions : list string;
  dx_chosen_action : option string;
  dx_rationale : option string;
}.
Record DecisionContextManager := mkContextManager {
  dm_max_entries : nat;
  dm_entries : list DecisionContextEntry;
}.
Definition with_max_entries (max_entries : nat) : DecisionContextManager :=
  mkContextManager (Nat.max max_entries 1) [].
(** [while self.entries.len() > self.max_entries { pop_front() }] *)
Definition push (entry : DecisionContextEntry) (m : DecisionContextManager)
    : DecisionContextManager :=
  let entries := dm_entries m ++ [entry] in
  mkContextManager (dm_max_entries m) (drop (length entries - dm_max_entries m) entries).

(** *** The command-line policy *)

Record CodexDecisionRaw := mkCodexRaw {
  cd_action_type : string;
  cd_amount : option string;
  cd_rationale : option string;
}.

(** [raw.trim().to_ascii_lowercase()] *)
Definition parse_policy_action (raw : string) : option ActionType :=
  let name := to_ascii_lowercase (trim raw) in
  if String.eqb name "fold" then Some Fold
  else if String.eqb name "check" then Some Check
  else if String.eqb name "call" then Some Call
  else if String.eqb name "raise_to" then Some RaiseTo
  else if String.eqb name "all_in" then Some AllIn
  else None.

Definition parse_policy_amount (raw : option string) : result PolicyAdapterError (option Chips) :=
  match raw with
  | Some v => n ← result_map_err (λ _, InvalidDecision) (parse_u128_dec v); Ok (Some n)
  | None => Ok None
  end.

(** From the first ["{"] on; up to the last ["}"]. *)
Fixpoint from_brace (text : string) : option string :=
  match text with
  | EmptyString => None
  | String c rest => if Ascii.eqb c "{" then Some text else from_brace rest
  end.
Fixpoint to_brace (text : string) : option string :=
  match text with
  | EmptyString => None
  | String c rest =>
      match to_brace rest with
      | Some t => Some (String c t)
      | None => if Ascii.eqb c "}" then Some (String c EmptyString) else None
      end
  end.
(** [(end > start).then_some(&text[start..=end])] *)
Definition extract_json_object (text : string) : option string := from_brace text ≫= to_brace.

(** The subprocess: its output for a prompt when it ran and exited well within its
    time, and serde's reading of a decision. *)
Class CodexProcess (W : Type) := {
  codex_output : Json → M W unit string;
  codex_raw_from_str : string → option CodexDecisionRaw;
  policy_input_to_value : PolicyDecisionInput → Json;
  codex_instruction : string;
}.

Definition codex_prompt {W} `{CodexProcess W} (input : PolicyDecisionInput) : Json :=
  JObj [("task", JStr "poker_action_decision"); ("instruction", JStr codex_instruction);
        ("input", policy_input_to_value input)].

Definition codex_decision {W} `{CodexProcess W} (input : PolicyDecisionInput) (stdout : string)
    : result PolicyAdapterError (option PolicyDecision) :=
  raw ← ok_or InvalidDecision
          (match codex_raw_from_str stdout with
           | Some raw => Some raw
           | None => extract_json_object stdout ≫= codex_raw_from_str
           end);
  action_type ← ok_or InvalidDecision (parse_policy_action (cd_action_type raw));
  if negb (offers (pi_legal_actions input) (action_name action_type)) then Err InvalidDecision
  else
    amount ← parse_policy_amount (cd_amount raw);
    Ok (Some (mkDecision action_type amount (cd_rationale raw) SourceLlm)).

Definition CodexCliPolicyAdapter {W} `{CodexProcess W} : PolicyAdapter W :=
  {| decide_action := λ input,
       stdout ← M_map_err (λ _, BackendUnavailable) (codex_output (codex_prompt input));
       lift_result (codex_decision input stdout) |}.

(** ** Wallets *)

Inductive WalletAdapterError :=
| WalletNotConfigured | RpcUnavailable | WalletHttp (message : string) | WalletRpc (message : string)
| WalletParse (message : string).
Definition wallet_error_text (e : WalletAdapterError) : string :=
  match e with
  | WalletNotConfigured => "wallet not configured"
  | RpcUnavailable => "rpc unavailable"
  | WalletHttp m => "http error: " +:+ m
  | WalletRpc m => "rpc error: " +:+ m
  | WalletParse m => "parse error: " +:+ m
  end.

Record EvmTransferRequest := mkEvmTransfer {
  et_room_id : RoomId;
  et_from : string;
  et_to : string;
  et_value : Chips;
  et_chain_id : N;
}.
Record EvmTransferReceipt := mkEvmReceipt { er_tx_hash : string; er_submitted : bool }.
Record EvmTxReceiptStatus := mkEvmStatus {
  es_tx_hash : string;
  es_confirmations : option N;
  es_success : option bool;
}.

Class WalletAdapter (W : Type) := {
  transfer_to_room : EvmTransferRequest → M W WalletAdapterError EvmTransferReceipt;
  sign_personal_message : string → list N → M W WalletAdapterError string;
}.

(** [uuid.simple()], [str::repeat] *)
Class UuidSimple := { uuid_simple : Uuid → string }.
Fixpoint repeat_text (n : nat) (s : string) : string :=
  match n with O => EmptyString | S n => s +:+ repeat_text n s end.

Definition MockEvmWalletAdapter {W} `{FreshIds W} `{UuidSimple} : WalletAdapter W := {|
  transfer_to_room := λ _, id ← new_uuid; mret (mkEvmReceipt ("0x" +:+ uuid_simple id) true);
  sign_personal_message := λ _ _, mret ("0x" +:+ repeat_text 65 "00");
|}.

Section JsonRpcWallet.
Context {W : Type} `{JsonRpcTransport W} (endpoint : string).

Definition wallet_reply {T} (d : Json → option T) (reply : Json) : result WalletAdapterError T :=
  match decode_response d reply with
  | None => Err (WalletHttp (decode_message reply))
  | Some payload =>
      match jr_error payload with
      | Some err =>
          Err (WalletRpc ("code=" +:+ pretty (je_code err) +:+ " message=" +:+ je_message err))
      | None => ok_or (WalletRpc "missing result") (jr_result payload)
      end
  end.
Definition wallet_rpc_call {T} (d : Json → option T) (method : string) (params : Json)
    : M W WalletAdapterError T :=
  reply ← M_map_err WalletHttp (post_json endpoint (rpc_body method params));
  lift_result (wallet_reply d reply).

Fixpoint decode_strings (l : list Json) : option (list string) :=
  match l with
  | [] => Some []
  | j :: l => s ← as_str j; rest ← decode_strings l; Some (s :: rest)
  end.
Definition list_accounts : M W WalletAdapterError (list string) :=
  wallet_rpc_call (λ j, match j with JArr l => decode_strings l | _ => None end) "eth_accounts"
    (JArr []).

(** Its [parse_hex_u64] differs from the others in the error only. *)
Definition wallet_parse_hex_u64 (input : string) : result WalletAdapterError N :=
  result_map_err WalletParse (JsonRpc.parse_hex_u64 input).
Definition wallet_chain_id : M W WalletAdapterError N :=
  raw ← wallet_rpc_call decode_string "eth_chainId" (JArr []);
  lift_result (wallet_parse_hex_u64 raw).

Record EthTransactionReceipt := mkEthReceipt {
  eth_status : option string; eth_confirmations : option string;
}.
Definition decode_eth_receipt (j : Json) : option EthTransactionReceipt :=
  if negb (is_object j) then None
  else
    status ← option_field decode_string "status" j;
    confirmations ← option_field decode_string "confirmations" j;
    Some (mkEthReceipt status confirmations).

Definition receipt_status (tx_hash : string) (receipt : EthTransactionReceipt)
    : result WalletAdapterError EvmTxReceiptStatus :=
  confirmations ← transpose wallet_parse_hex_u64 (eth_confirmations receipt);
  status ← transpose wallet_parse_hex_u64 (eth_status receipt);
  Ok (mkEvmStatus tx_hash confirmations ((λ v, v =? 1) <$> status)).
Definition get_tx_receipt_status (tx_hash : string)
    : M W WalletAdapterError (option EvmTxReceiptStatus) :=
  receipt ← wallet_rpc_call (decode_option decode_eth_receipt) "eth_getTransactionReceipt"
              (JArr [JStr tx_hash]);
  match receipt with
  | None => mret None
  | Some receipt => status ← lift_result (receipt_status tx_hash receipt); mret (Some status)
  end.

Definition JsonRpcEvmWalletAdapter : WalletAdapter W := {|
  transfer_to_room := λ request,
    tx_hash ← wallet_rpc_call decode_string "eth_sendTransaction"
      (JArr [JObj [("from", JStr (et_from request)); ("to", JStr (et_to request));
                   ("value", JStr (format_0x (et_value request)))]]);
    mret (mkEvmReceipt tx_hash true);
  sign_personal_message := λ from message,
    wallet_rpc_call decode_string "personal_sign"
      (JArr [JStr ("0x" +:+ hex_encode message); JStr from]);
|}.
End JsonRpcWallet.

(** ** The state of a session *)

Record TurnContext := mkTurnContext {
  tn_room_id : RoomId;
  tn_hand_id : HandId;
  tn_seat_id : SeatId;
  tn_legal_actions : list string;
  tn_action_deadline_unix_ms : option Z;
}.
Record StateCache := mkStateCache {
  sc_current_turn : option TurnContext;
  sc_last_public_state_json : option string;
}.
Definition update_turn (turn : TurnContext) (c : StateCache) : StateCache :=
  mkStateCache (Some turn) (sc_last_public_state_json c).
Definition clear_turn (c : StateCache) : StateCache :=
  mkStateCache None (sc_last_public_state_json c).

Record SubscriptionSpec := mkSubscriptionSpec {
  ss_topic : string;
  ss_room_id : RoomId;
  ss_hand_id : option HandId;
  ss_seat_id : option SeatId;
}.
Record SubscriptionState := mkSubscriptionState {
  sn_spec : SubscriptionSpec;
  sn_remote_subscription_id : option string;
  sn_active : bool;
}.

Record ReconnectPolicy := mkReconnectPolicy {
  rp_max_retries : N;
  rp_base_backoff_ms : N;
  rp_max_backoff_ms : N;
}.
Definition ReconnectPolicy_default : ReconnectPolicy := mkReconnectPolicy 10 500 10000.
(** [u64]; two to the power of at most ten does not saturate. *)
Definition reconnect_backoff_ms (p : ReconnectPolicy) (attempt : N) : N :=
  let exp := sat_mul u64_max (rp_base_backoff_ms p) (2 ^ N.min attempt 10) in
  N.min exp (rp_max_backoff_ms p).

Record WsSessionState := mkSession {
  ws_connected : bool;
  ws_reconnect_attempt : N;
  ws_subscriptions : gmap string SubscriptionState;
}.
Definition inactive (sub : SubscriptionState) : SubscriptionState :=
  mkSubscriptionState (sn_spec sub) None false.
Definition mark_connected (s : WsSessionState) : WsSessionState :=
  mkSession true 0 (inactive <$> ws_subscriptions s).
Definition mark_disconnected (s : WsSessionState) : WsSessionState :=
  mkSession false (sat_add u32_max (ws_reconnect_attempt s) 1) (inactive <$> ws_subscriptions s).
Definition register_subscription (local_id : string) (spec : SubscriptionSpec) (s : WsSessionState)
    : WsSessionState :=
  mkSession (ws_connected s) (ws_reconnect_attempt s)
    (<[local_id := mkSubscriptionState spec None false]> (ws_subscriptions s)).
Definition mark_subscription_active (local_id remote_id : string) (s : WsSessionState)
    : WsSessionState :=
  mkSession (ws_connected s) (ws_reconnect_attempt s)
    (alter (λ sub, mkSubscriptionState (sn_spec sub) (Some remote_id) true) local_id
       (ws_subscriptions s)).
Definition subscriptions_to_restore (s : WsSessionState) : list (string * SubscriptionSpec) :=
  map (λ e, (fst e, sn_spec (snd e)))
    (filter (λ e, sn_active (snd e) = false) (map_to_list (ws_subscriptions s))).

Definition fallback_choose_action (default_action : ActionType) (legal_actions : list string)
    : ActionType :=
  if offers legal_actions (action_name default_action) then default_action
  else if offers legal_actions "check" then Check
  else Fold.
Definition FallbackPolicy_default : ActionType := Fold.
