(* ===== verification/AgentRuntime.v ===== *)
(** The runs of the headless client ([headless-agent-client/src/runtime.rs]): taking a
    seat, finding out whether it is the seat's turn, and playing a decision.

    The world carries the node and the server behind [JsonRpcTransport], the wallet
    and the policy; serde's derived encodings are the parameters [ClientCodec]. Every
    run makes a skill of its own. *)

From stdpp Require Import base tactics option list gmap strings pretty.
From Stdlib Require Import NArith ZArith Lia.
From Stdlib Require Strings.Byte.
From S2P Require Import Prelude.
From S2P Require Import Text.
From S2P Require Import Domain.
From S2P Require Import Ambient.
From S2P Require Import JsonRpc.
From S2P Require Import AgentAuth.
From S2P Require Import SeatCrypto.
From S2P Require Import GatewayTypes.
From S2P Require Import AgentSdk.
From S2P Require Import AgentClient.

Local Open Scope N_scope.

(** ** Data *)

Inductive RuntimeError :=
| RtAgentSkill (message : string) | RtHttp (message : string) | RpcMissingResult
| RtRpcApp (message : string) | RtWallet (message : string) | NotOurTurn | StateUnavailable
| RtPolicy (message : string) | RtCrypto (message : string).

Record SingleActionRunnerConfig := mkRunnerConfig {
  rn_rpc_endpoint : string;
  rn_room_id : RoomId;
  rn_seat_id : SeatId;
  rn_seat_address : string;
  rn_room_chain_address : string;
  rn_chain_id : N;
  rn_tx_value : Chips;
  rn_card_encrypt_pubkey_hex : string;
  rn_card_encrypt_secret_hex : option string;
}.
Record SingleActionRunOutcome := mkRunOutcome {
  ro_hand_id : HandId;
  ro_action_seq : ActionSeq;
  ro_submitted_amount : option Chips;
  ro_tx_hash : option string;
}.
Record TurnDecisionInput := mkTurnInput {
  td_policy_input : PolicyDecisionInput;
  td_hand_id : HandId;
  td_action_seq : ActionSeq;
  td_legal_actions_raw : list LegalAction;
}.

(** [serde_json::to_value] and [from_value] of the types that travel; [json_display]
    is the text of a value. *)
Class ClientCodec := {
  ready_to_value : RoomReadyRequest → result string Json;
  bind_address_to_value : RoomBindAddressRequest → result string Json;
  bind_keys_to_value : RoomBindSessionKeysRequest → result string Json;
  act_to_value : GameActRequest → result string Json;
  get_state_to_value : GameGetStateRequest → result string Json;
  get_legal_to_value : GameGetLegalActionsRequest → result string Json;
  get_private_to_value : GameGetPrivatePayloadsRequest → result string Json;
  unit_reply_from_value : Json → result string (ResponseEnvelope unit);
  state_reply_from_value : Json → result string (ResponseEnvelope (option HandSnapshot));
  legal_reply_from_value : Json → result string (ResponseEnvelope (list LegalAction));
  private_reply_from_value : Json → result string (ResponseEnvelope (list PrivatePayloadEvent));
  hole_cards_from_value : Json → result string HoleCardsDealtCipherPayload;
  json_from_slice : Bytes → result string Json;
  private_event_to_value : PrivatePayloadEvent → Json;
  hand_status_to_value : HandStatus → Json;
  street_to_value : Street → Json;
  json_display : Json → string;
  hex_decode_error : string → string;
}.

(** ** Replies *)

(** [format!("{:?}", code)] *)
Definition error_code_debug (code : ErrorCode) : string :=
  match code with
  | CodeRequestInvalid => "RequestInvalid"
  | CodeForbidden => "Forbidden"
  | CodeRoomListFailed => "RoomListFailed"
  | CodeRoomCreateFailed => "RoomCreateFailed"
  | CodeRoomReadyFailed => "RoomReadyFailed"
  | CodeRoomBindAddressFailed => "RoomBindAddressFailed"
  | CodeRoomBindKeysFailed => "RoomBindKeysFailed"
  | CodeGameGetStateFailed => "GameGetStateFailed"
  | CodeGameActFailed => "GameActFailed"
  | CodeKeyBindingProofInvalid => "KeyBindingProofInvalid"
  | CodeSubscribeFailed => "SubscribeFailed"
  | CodeUnsubscribeFailed => "UnsubscribeFailed"
  | CodeInternalError => "InternalError"
  end.
Definition app_error_text (error : option ErrorBody) : string :=
  from_option (λ e, error_code_debug (err_code e) +:+ ": " +:+ err_message e)
    "unknown rpc app error" error.

Definition client_envelope_ok {T} (env : ResponseEnvelope T) : result RuntimeError T :=
  if negb (env_ok env) then Err (RtRpcApp (app_error_text (env_error env)))
  else ok_or RpcMissingResult (env_data env).
Definition client_envelope_ok_unit (env : ResponseEnvelope unit) : result RuntimeError unit :=
  if negb (env_ok env) then Err (RtRpcApp (app_error_text (env_error env))) else Ok tt.

(** ** Cards *)

Definition as_array (j : Json) : option (list Json) :=
  match j with JArr l => Some l | _ => None end.
Definition as_u64 (j : Json) : option N :=
  match j with
  | JNum z => if ((0 <=? z) && (z <=? Z.of_N u64_max))%Z then Some (Z.to_N z) else None
  | _ => None
  end.

Definition rank_offset_map : list string :=
  ["2"; "3"; "4"; "5"; "6"; "7"; "8"; "9"; "T"; "J"; "Q"; "K"; "A"]%string.
Definition suit_bucket_map : list string := ["s"; "c"; "h"; "d"]%string.
Definition card_index_to_notation (index : N) : option string :=
  if 52 <=? index then None
  else
    value ← rank_offset_map !! N.to_nat (index mod 13);
    suit ← suit_bucket_map !! N.to_nat (index / 13);
    Some (value +:+ suit).

Definition pretty_hole_cards (decrypted_hole_cards : list Json) : list (list string) :=
  filter (λ cards, negb (length cards =? 0)%nat = true)
    (map (λ cards, omap card_index_to_notation (omap as_u64 cards))
       (omap (λ entry, json_get "cards" entry ≫= as_array) decrypted_hole_cards)).
Definition pretty_board_cards (board_cards : list N) : list string :=
  omap card_index_to_notation board_cards.

Section Runtime.
Context {HD : HexDecode} {UT : UuidText} {JT : JsonText} {DT : DateTimeText}.
Context {SC : SeatCryptoPrimitives} {CC : ClientCodec}.

Definition parse_x25519_secret_hex (secret_hex : string) : result RuntimeError Bytes :=
  bytes ← ok_or (RtCrypto (hex_decode_error secret_hex)) (from_hex secret_hex);
  if (length bytes =? 32)%nat then Ok (map (λ n, default Byte.x00 (Byte.of_N n)) bytes)
  else Err (RtCrypto "x25519 secret hex must decode to 32 bytes").

(** The loop of [build_private_state_json] on one event: the cards read so far and the
    number of failures. *)
Definition read_private_event (secret : option Bytes) (acc : list Json * N)
    (event : PrivatePayloadEvent) : list Json * N :=
  let '(cards, failures) := acc in
  if negb (String.eqb (pp_event_name event) "hole_cards_dealt") then acc
  else
    match hole_cards_from_value (pp_payload event), secret with
    | Ok payload, Some secret =>
        match decrypt_with_recipient_x25519 secret (hc_aad payload) (hc_envelope payload) with
        | Ok plaintext =>
            match json_from_slice plaintext with
            | Ok v => (cards ++ [v], failures)
            | Err _ => acc
            end
        | Err _ => (cards, sat_add u32_max failures 1)
        end
    | _, _ => acc
    end.

Definition build_private_state_json (events : list PrivatePayloadEvent)
    (card_encrypt_secret_hex : option string) : result RuntimeError (option Json) :=
  match events with
  | [] => Ok None
  | _ =>
      secret ← transpose parse_x25519_secret_hex card_encrypt_secret_hex;
      let '(decrypted, failures) := foldl (read_private_event secret) ([], 0) events in
      Ok (Some (JObj
        [("events", JArr (map private_event_to_value events));
         ("decrypted_hole_cards", JArr decrypted);
         ("decrypted_hole_cards_pretty",
            JArr (map (λ cards, JArr (map JStr cards)) (pretty_hole_cards decrypted)));
         ("card_index_encoding", JObj
            [("description",
                JStr "Card index to notation mapping for decrypted_hole_cards[*].cards[*]");
             ("formula", JStr "index = suit_bucket * 13 + rank_offset");
             ("rank_offset_map", JArr (map JStr rank_offset_map));
             ("suit_bucket_map", JArr (map JStr suit_bucket_map))]);
         ("decrypt_failures", json_N failures)]))
  end.

Context {W : Type} {TR : JsonRpcTransport W} {CK : Clock W} {FI : FreshIds W}.
Context {WA : WalletAdapter W}.

(** [http_rpc_call], with the request's encoding and the reply's decoding. *)
Definition http_rpc_call {T} (from_value : Json → result string T) (endpoint method : string)
    (params : Json) : M W RuntimeError T :=
  payload ← M_map_err RtHttp (post_json endpoint (rpc_body method params));
  match json_get "error" payload with
  | Some err =>
      let code := default JNull (json_get "code" err) in
      let message := default "unknown json-rpc error"%string (json_get "message" err ≫= as_str) in
      let data := default JNull (json_get "data" err) in
      throw (RtRpcApp ("jsonrpc " +:+ method +:+ " failed: code=" +:+ json_display code
               +:+ " message=" +:+ message +:+ " data=" +:+ json_display data))
  | None =>
      res ← lift_result (ok_or RpcMissingResult (json_get "result" payload));
      lift_result (result_map_err RtHttp (from_value res))
  end.
Definition call_server {R T} (to_value : R → result string Json)
    (from_value : Json → result string T) (endpoint method : string) (req : R)
    : M W RuntimeError T :=
  params ← lift_result (result_map_err RtHttp (to_value req));
  http_rpc_call from_value endpoint method params.

(** A call that is answered without data. *)
Definition call_for_unit {R} (to_value : R → result string Json) (endpoint method : string) (req : R)
    : M W RuntimeError unit :=
  env ← call_server to_value unit_reply_from_value endpoint method req;
  lift_result (client_envelope_ok_unit env).

(** ** Requests of a skill *)

Abbreviation R A := (M (LocalAgentSkill * W) RuntimeError A) (only parsing).

Definition in_world {A} (m : M W RuntimeError A) : R A :=
  λ '(sk, w), let '(w, r) := m w in ((sk, w), r).
Definition skilled {A} (m : M (LocalAgentSkill * W) AgentSkillError A) : R A :=
  M_map_err (λ e, RtAgentSkill (skill_error_text e)) m.
(** A run's own skill. *)
Definition with_skill {A} (m : R A) : M W RuntimeError A :=
  λ w, let '((_, w), r) := m (LocalAgentSkill_default, w) in (w, r).

Context (cfg : SingleActionRunnerConfig).

Definition connect_skill : R unit :=
  skilled (skill_connect (mkSkillConfig (rn_rpc_endpoint cfg) None None));;
  skilled (join_room (rn_room_id cfg) (rn_seat_id cfg)).

Definition wallet_signs (message : list N) : R string :=
  in_world (M_map_err (λ e, RtWallet (wallet_error_text e))
    (sign_personal_message (rn_seat_address cfg) message)).

Definition set_signature (signature : string) (m : SignedRequestMeta) : SignedRequestMeta :=
  mkMeta (rm_request_id m) (rm_request_nonce m) (rm_request_ts m) (rm_request_expiry_ms m)
    (rm_signature_pubkey_id m) signature.

(** [SessionId(Uuid::nil())] *)
Definition client_session : SessionId := 0.

Definition sign_request_meta_with_wallet (method : string) (hand_id : option string)
    (action_seq : option ActionSeq) (params : Json) (meta : SignedRequestMeta) : R SignedRequestMeta :=
  let meta := set_pubkey_id (rn_seat_address cfg) meta in
  message ← lift_result (result_map_err (λ e, RtAgentSkill (auth_error_text e))
    (build_signing_message (mkSigningInput method client_session (Some (rn_room_id cfg)) hand_id
       action_seq params meta)));
  signature ← wallet_signs (bytes_of_string message);
  mret (set_signature signature meta).

Definition build_signed_bind_address_request : R RoomBindAddressRequest :=
  req ← skilled (bind_seat_address (rn_seat_address cfg));
  meta ← sign_request_meta_with_wallet "room.bind_address" None None
    (JObj [("seat_id", json_N (ba_seat_id req)); ("seat_address", JStr (ba_seat_address req))])
    (ba_request_meta req);
  mret (mkBindAddress (ba_room_id req) (ba_seat_id req) (ba_seat_address req) meta).

Definition set_proof (proof : string) (meta : SignedRequestMeta) (req : RoomBindSessionKeysRequest)
    : RoomBindSessionKeysRequest :=
  mkBindKeys (bk_room_id req) (bk_seat_id req) (bk_seat_address req) (bk_card_encrypt_pubkey req)
    (bk_request_verify_pubkey req) (bk_key_algo req) proof meta.
Definition client_claim (req : RoomBindSessionKeysRequest) : SeatKeyBindingClaim :=
  mkBindingClaim None None (bk_room_id req) (bk_seat_id req) (bk_seat_address req)
    (bk_card_encrypt_pubkey req) (bk_request_verify_pubkey req) (bk_key_algo req)
    (rm_request_ts (bk_request_meta req)) None.

Definition build_signed_bind_session_keys_request : R RoomBindSessionKeysRequest :=
  req ← skilled (build_bind_session_keys_request_unsigned (rn_card_encrypt_pubkey_hex cfg)
                   "x25519+evm");
  proof ← wallet_signs (bytes_of_string (build_seat_key_binding_message (client_claim req)));
  meta ← sign_request_meta_with_wallet "room.bind_session_keys" None None
    (JObj [("seat_id", json_N (bk_seat_id req));
           ("seat_address", JStr (bk_seat_address req));
           ("card_encrypt_pubkey", JStr (bk_card_encrypt_pubkey req));
           ("request_verify_pubkey", JStr (bk_request_verify_pubkey req));
           ("key_algo", JStr (bk_key_algo req));
           ("proof_signature", JStr proof)])
    (bk_request_meta req);
  mret (set_proof proof meta req).

(** [room.join] and [room.ready] carry the same request. *)
Definition build_signed_seat_request (method : string) : R RoomReadyRequest :=
  req ← skilled build_room_ready_request;
  meta ← sign_request_meta_with_wallet method None None
    (JObj [("seat_id", json_N (rr_seat_id req))]) (rr_request_meta req);
  mret (mkRoomReady (rr_room_id req) (rr_seat_id req) meta).
Definition build_signed_room_ready_request : R RoomReadyRequest :=
  build_signed_seat_request "room.ready".
Definition build_signed_room_join_request : R RoomReadyRequest :=
  build_signed_seat_request "room.join".

Definition set_act_meta (meta : SignedRequestMeta) (req : GameActRequest) : GameActRequest :=
  mkGameAct (ga_room_id req) (ga_hand_id req) (ga_action_seq req) (ga_seat_id req)
    (ga_action_type req) (ga_amount req) (ga_tx_hash req) meta.
Definition build_signed_game_act_request (hand_id : HandId) (action_seq : ActionSeq)
    (action_type : ActionType) (amount tx_hash : option string) : R GameActRequest :=
  req ← skilled (build_game_act_request hand_id action_seq action_type amount tx_hash);
  meta ← sign_request_meta_with_wallet "game.act" (Some (uuid_text (ga_hand_id req)))
    (Some (ga_action_seq req))
    (JObj [("seat_id", json_N (ga_seat_id req));
           ("action_type", JStr (ga_action_type req));
           ("amount", json_opt JStr (ga_amount req));
           ("tx_hash", json_opt JStr (ga_tx_hash req))])
    (ga_request_meta req);
  mret (set_act_meta meta req).

(** ** Runs *)

Definition prepare_seat : M W RuntimeError unit :=
  with_skill (
    connect_skill;;
    join_req ← build_signed_room_join_request;
    in_world (call_for_unit ready_to_value (rn_rpc_endpoint cfg) "room.join" join_req);;
    bind_addr_req ← build_signed_bind_address_request;
    in_world (call_for_unit bind_address_to_value (rn_rpc_endpoint cfg) "room.bind_address"
                bind_addr_req);;
    bind_keys_req ← build_signed_bind_session_keys_request;
    in_world (call_for_unit bind_keys_to_value (rn_rpc_endpoint cfg) "room.bind_session_keys"
                bind_keys_req);;
    ready_req ← build_signed_room_ready_request;
    in_world (call_for_unit ready_to_value (rn_rpc_endpoint cfg) "room.ready" ready_req)).

Definition public_state_json (state : HandSnapshot) : Json :=
  JObj [("hand_status", hand_status_to_value (hs_status state));
        ("street", street_to_value (hs_street state));
        ("acting_seat_id", json_opt json_N (hs_acting_seat_id state));
        ("next_action_seq", json_N (hs_next_action_seq state));
        ("pot_total", json_N (hs_pot_total state));
        ("board_cards_raw", JArr (map json_N (hs_board_cards state)));
        ("board_cards_pretty", JArr (map JStr (pretty_board_cards (hs_board_cards state))))].

Definition collect_turn_decision_input (decision_context_json : option Json)
    : M W RuntimeError (option TurnDecisionInput) :=
  let endpoint := rn_rpc_endpoint cfg in
  with_skill (
    connect_skill;;
    state_req ← skilled (build_get_state_request None);
    state_env ← in_world (call_server get_state_to_value state_reply_from_value endpoint
                            "game.get_state" state_req);
    found ← lift_result (client_envelope_ok state_env);
    state ← lift_result (ok_or StateUnavailable found);
    if negb (bool_decide (hs_acting_seat_id state = Some (rn_seat_id cfg))) then mret None
    else
      legal_req ← skilled build_get_legal_actions_request;
      legal_env ← in_world (call_server get_legal_to_value legal_reply_from_value endpoint
                              "game.get_legal_actions" legal_req);
      legal_actions_raw ← lift_result (client_envelope_ok legal_env);
      private_env ← in_world (call_server get_private_to_value private_reply_from_value endpoint
        "game.get_private_payloads"
        (mkGetPrivate (rn_room_id cfg) (rn_seat_id cfg) (Some (hs_hand_id state))));
      events ← lift_result (client_envelope_ok private_env);
      private_state_json ← lift_result
        (build_private_state_json events (rn_card_encrypt_secret_hex cfg));
      mret (Some (mkTurnInput
        (mkPolicyInput (rn_room_id cfg) (hs_hand_id state) (rn_seat_id cfg)
           (map (λ a, action_name (la_action_type a)) legal_actions_raw)
           (public_state_json state) private_state_json decision_context_json)
        (hs_hand_id state) (hs_next_action_seq state) legal_actions_raw))).

Definition resolve_action_amount_from_legal_actions (decision : PolicyDecision)
    (legal_actions_raw : list LegalAction) : result RuntimeError (option Chips) :=
  match pd_action_type decision with
  | Fold | Check => Ok None
  | Call =>
      call ← ok_or (RtPolicy "call not present in legal actions")
               (snd <$> list_find (λ a, la_action_type a = Call) legal_actions_raw);
      Ok (match la_min_amount call with Some m => Some m | None => pd_amount decision end)
  | RaiseTo | AllIn =>
      amount ← ok_or (RtPolicy "raise_to/all_in requires explicit amount") (pd_amount decision);
      Ok (Some amount)
  end.

(** The transfer is made before the request of the action is built. *)
Definition pay_for_action (resolved_amount : option Chips) : R (option string) :=
  match resolved_amount with
  | None => mret None
  | Some amount_chips =>
      tx_receipt ← in_world (M_map_err (λ e, RtWallet (wallet_error_text e))
        (transfer_to_room (mkEvmTransfer (rn_room_id cfg) (rn_seat_address cfg)
           (rn_room_chain_address cfg) amount_chips (rn_chain_id cfg))));
      mret (Some (er_tx_hash tx_receipt))
  end.

Definition execute_turn_decision (turn : TurnDecisionInput) (decision : PolicyDecision)
    : M W RuntimeError SingleActionRunOutcome :=
  with_skill (
    connect_skill;;
    resolved_amount ← lift_result
      (resolve_action_amount_from_legal_actions decision (td_legal_actions_raw turn));
    tx_hash ← pay_for_action resolved_amount;
    act_req ← build_signed_game_act_request (td_hand_id turn) (td_action_seq turn)
      (pd_action_type decision) (pretty <$> resolved_amount) tx_hash;
    in_world (call_for_unit act_to_value (rn_rpc_endpoint cfg) "game.act" act_req);;
    mret (mkRunOutcome (td_hand_id turn) (td_action_seq turn) resolved_amount tx_hash)).

(** With the rule policy, whose answer cannot fail. *)
Definition run_single_action_if_turn : M W RuntimeError (option SingleActionRunOutcome) :=
  found ← collect_turn_decision_input None;
  match found with
  | None => mret None
  | Some turn =>
      chosen ← M_map_err (λ e, RtPolicy (policy_error_text e))
                 (decide_action (PolicyAdapter := RulePolicyAdapter) (td_policy_input turn));
      decision ← lift_result (ok_or (RtPolicy "no policy decision") chosen);
      outcome ← execute_turn_decision turn decision;
      mret (Some outcome)
  end.

Definition run_single_action_turn : M W RuntimeError SingleActionRunOutcome :=
  prepare_seat;;
  found ← run_single_action_if_turn;
  lift_result (ok_or NotOurTurn found).
End Runtime.

Fixpoint run_first_available_action {HD : HexDecode} {UT : UuidText} {JT : JsonText}
    {DT : DateTimeText} {SC : SeatCryptoPrimitives} {CC : ClientCodec} {W : Type}
    {TR : JsonRpcTransport W} {CK : Clock W} {FI : FreshIds W} {WA : WalletAdapter W}
    (seats : list SingleActionRunnerConfig)
    : M W RuntimeError (option (SeatId * SingleActionRunOutcome)) :=
  match seats with
  | [] => mret None
  | cfg :: seats =>
      found ← run_single_action_if_turn cfg;
      match found with
      | Some outcome => mret (Some (rn_seat_id cfg, outcome))
      | None => run_first_available_action seats
      end
  end.
