(* ===== verification/AgentRuntimeProps.v ===== *)
(** The headless client against the server: what it signs is verified, what its rule
    policy decides is played, and what becomes of its raises. *)

From stdpp Require Import base tactics option list gmap strings pretty.
From Stdlib Require Import NArith ZArith Lia.
From S2P Require Import Prelude.
From S2P Require Import Ambient.
From S2P Require Import Text.
From S2P Require Import Domain.
From S2P Require Import EngineState.
From S2P Require Import Engine.
From S2P Require Import EngineInv.
From S2P Require Import Dealing.
From S2P Require Import EngineRun.
From S2P Require Import EngineProps.
From S2P Require Import JsonRpc.
From S2P Require Import AgentAuth.
From S2P Require Import AgentAuthProps.
From S2P Require Import SeatCrypto.
From S2P Require Import GatewayTypes.
From S2P Require Import GatewayHandlers.
From S2P Require Import GatewayProps.
From S2P Require Import RoomService.
From S2P Require Import RoomAuth.
From S2P Require Import RoomDemo.
From S2P Require Import AgentSdk.
From S2P Require Import AgentClient.
From S2P Require Import AgentRuntime.

Local Open Scope N_scope.

(** ** Runs of a skill *)

Section Requests.
Context {HD : HexDecode} {UT : UuidText} {JT : JsonText} {DT : DateTimeText}.
Context {W : Type} {CK : Clock W} {FI : FreshIds W} {WA : WalletAdapter W}.
Context (cfg : SingleActionRunnerConfig).
Abbreviation state := (LocalAgentSkill * W)%type.

(** The request [sr] comes out of its builder. *)
Definition builds (sr : SignedRequest) (s s' : state) : Prop :=
  match sr with
  | SignedJoin r => build_signed_room_join_request cfg s = (s', Ok r)
  | SignedReady r => build_signed_room_ready_request cfg s = (s', Ok r)
  | SignedBindAddress r => build_signed_bind_address_request cfg s = (s', Ok r)
  | SignedBindKeys r => build_signed_bind_session_keys_request cfg s = (s', Ok r)
  | SignedAct r => ∃ hand_id action_seq action_type amount tx_hash,
      build_signed_game_act_request cfg hand_id action_seq action_type amount tx_hash s = (s', Ok r)
  end.

(** The states of a run: a connected skill, requests built one after the other, and a
    world that goes its own way in between. *)
Inductive skill_run : state → Prop :=
| run_connects w s : connect_skill cfg (LocalAgentSkill_default, w) = (s, Ok tt) → skill_run s
| run_waits sk w w' : skill_run (sk, w) → skill_run (sk, w')
| run_builds sr s s' : skill_run s → builds sr s s' → skill_run s'.

(** The skill speaks for the seat of the configuration and its address. *)
Definition speaks_for (s : state) : Prop :=
  ∃ ctx, ls_seat_ctx (fst s) = Some ctx ∧ cs_room_id ctx = rn_room_id cfg ∧
    cs_seat_id ctx = rn_seat_id cfg ∧
    ∀ address, cs_seat_address ctx = Some address → address = rn_seat_address cfg.

(** *** The steps of the builders *)

Lemma skilled_ok {A} (m : M state AgentSkillError A) (s s' : state) (x : A) :
  skilled m s = (s', Ok x) → m s = (s', Ok x).
Proof.
  unfold skilled, M_map_err. destruct (m s) as [s1 [y|e]]; cbn; [by intros [= <- <-]|done].
Qed.

Lemma M_bind_ok {S E A B} (m : M S E A) (k : A → M S E B) s s' y :
  (m ≫= k) s = (s', Ok y) → ∃ s1 x, m s = (s1, Ok x) ∧ k x s1 = (s', Ok y).
Proof.
  unfold mbind, M_mbind, M_bind. destruct (m s) as [s1 [x|e]] eqn:Hm; [|done].
  intros Hk. by exists s1, x.
Qed.

Lemma lift_ok {E A} (r : result E A) (s s' : state) x :
  lift_result r s = (s', Ok x) → s' = s ∧ r = Ok x.
Proof. by intros [= <- ->]. Qed.

Lemma signed_meta_ok (s s' : state) m :
  skill_signed_meta s = (s', Ok m) → fst s' = fst s ∧ rm_request_expiry_ms m = 30000%Z.
Proof.
  destruct s as [sk w]. unfold skill_signed_meta, seat_context, of_world, new_uuid, now. mrun. cbn.
  destruct (ls_seat_ctx sk) as [ctx|]; cbn; [|done].
  destruct (fresh_uuid w) as [w1 u]. cbn. destruct (fresh_uuid w1) as [w2 u2]. by intros [= <- <-].
Qed.

Lemma seat_context_ok (s s' : state) ctx :
  seat_context s = (s', Ok ctx) → s' = s ∧ ls_seat_ctx (fst s) = Some ctx.
Proof. unfold seat_context. mrun. destruct (ls_seat_ctx (fst s)); [by intros [= <- <-]|done]. Qed.

Lemma reserves_ok hand_id action_seq (s s' : state) u :
  reserve_action_attempt hand_id action_seq s = (s', Ok u) →
  ls_seat_ctx (fst s') = ls_seat_ctx (fst s).
Proof.
  unfold reserve_action_attempt. intros (s1 & ctx & [-> _]%seat_context_ok & H)%M_bind_ok.
  unfold on_attempts in H. destruct s as [sk w]. destruct (reserve _ _). by injection H as <- _.
Qed.

(** A signature of the wallet under the message of the request. *)
Definition wallet_signed (message : list N) (signature : string) : Prop :=
  ∃ w w' : W, sign_personal_message (rn_seat_address cfg) message w = (w', Ok signature).

Lemma wallet_signs_ok message (s s' : state) signature :
  wallet_signs cfg message s = (s', Ok signature) →
  fst s' = fst s ∧ wallet_signed message signature.
Proof.
  destruct s as [sk w]. unfold wallet_signs, in_world, M_map_err.
  destruct (sign_personal_message _ message w) as [w' [x|e]] eqn:Hsign; cbn; [|done].
  intros [= <- <-]. split; [done|]. by exists w, w'.
Qed.

(** What [sign_request_meta_with_wallet] returns. *)
Definition signed_as (method : string) (hand_id : option string) (action_seq : option N)
    (params : Json) (meta meta' : SignedRequestMeta) : Prop :=
  ∃ message signature,
    build_signing_message (mkSigningInput method nil_session (Some (rn_room_id cfg)) hand_id
      action_seq params meta) = Ok message ∧
    wallet_signed (bytes_of_string message) signature ∧
    meta' = set_signature signature (set_pubkey_id (rn_seat_address cfg) meta).

Lemma signs_ok method hand_id action_seq params meta (s s' : state) meta' :
  sign_request_meta_with_wallet cfg method hand_id action_seq params meta s = (s', Ok meta') →
  fst s' = fst s ∧ signed_as method hand_id action_seq params meta meta'.
Proof.
  unfold sign_request_meta_with_wallet. intros Hrun.
  apply M_bind_ok in Hrun as (s1 & message & Hmsg & Hrun).
  apply M_bind_ok in Hrun as (s2 & signature & Hsig & [= <- <-]).
  unfold lift_result in Hmsg. injection Hmsg as <- Hmsg.
  apply wallet_signs_ok in Hsig as [Hfst Hsig]. split; [done|]. exists message, signature.
  split; [|done]. unfold build_signing_message, result_map_err in *. cbn in *.
  destruct (canonical_params_json params); by simplify_eq/=.
Qed.

Lemma signed_as_ts method hand_id action_seq params meta meta' :
  signed_as method hand_id action_seq params meta meta' →
  rm_request_expiry_ms meta' = rm_request_expiry_ms meta ∧ rm_request_ts meta' = rm_request_ts meta.
Proof. by intros (? & ? & _ & _ & ->). Qed.
Lemma signed_as_expiry method hand_id action_seq params meta meta' :
  signed_as method hand_id action_seq params meta meta' →
  rm_request_expiry_ms meta' = rm_request_expiry_ms meta.
Proof. by intros (? & ? & _ & _ & ->). Qed.

(** ** The wallet of a seat *)

Context {SK : Secp256k1} {SL : Secp256k1Laws} {HL : HexDecodeLaws}.

(** The wallet signs for the configured address with [key], whose address it is; the
    recovery byte may be in either form. *)
Definition wallet_holds (key : SigningKey) : Prop :=
  normalize_evm_address (rn_seat_address cfg)
  = normalize_evm_address (evm_address_from_secp256k1_verifying_key (verifying_key key)) ∧
  ∀ message signature, wallet_signed message signature → ∃ sig recid v,
    sign_prehash_recoverable key (evm_personal_sign_hash message) = Some (sig, recid) ∧
    (v = recovery_id_to_byte recid ∨ v = recovery_id_to_byte recid + 27) ∧
    signature = "0x" +:+ hex_encode (signature_to_bytes sig ++ [v]).

Lemma wallet_signature_verifies key message signature :
  wallet_holds key → wallet_signed message signature →
  verify_evm_personal_signature (rn_seat_address cfg) message signature = Ok tt.
Proof.
  intros [Haddr Hsigns] Hs. destruct (Hsigns _ _ Hs) as (sig & recid & v & Hsign & Hv & ->).
  destruct (signature_is_accepted_for_its_key _ _ _ _ Hsign) as [_ Hver].
  rewrite Hver by done. by rewrite decide_True.
Qed.

(** ** What the builders build *)

Definition requested_seat (sr : SignedRequest) : RoomId * SeatId :=
  match sr with
  | SignedJoin r | SignedReady r => (rr_room_id r, rr_seat_id r)
  | SignedBindAddress r => (ba_room_id r, ba_seat_id r)
  | SignedBindKeys r => (bk_room_id r, bk_seat_id r)
  | SignedAct r => (ga_room_id r, ga_seat_id r)
  end.

(** The request is the configured seat's, signed as the server reads it; the proof of
    a binding of keys and its address are the wallet's too. *)
Definition seat_request (sr : SignedRequest) : Prop :=
  requested_seat sr = (rn_room_id cfg, rn_seat_id cfg) ∧
  rm_request_expiry_ms (signed_meta sr) = 30000%Z ∧
  (∀ i, request_input sr = Some i → sm_room_id i = Some (rn_room_id cfg) ∧ ∃ meta,
     signed_as (sm_method i) (sm_hand_id i) (sm_action_seq i) (sm_params i) meta (sm_meta i)) ∧
  match sr with
  | SignedBindAddress r => ba_seat_address r = rn_seat_address cfg
  | SignedBindKeys r => bk_seat_address r = rn_seat_address cfg ∧
      wallet_signed (bytes_of_string (build_seat_key_binding_message (client_claim r)))
        (bk_proof_signature r)
  | _ => True
  end.

Lemma connects w s : connect_skill cfg (LocalAgentSkill_default, w) = (s, Ok tt) → speaks_for s.
Proof.
  unfold connect_skill, skilled, skill_connect, join_room, set_seat_ctx. mrun. cbn.
  intros [= <-]. eexists. by split.
Qed.

(** Takes the run of a builder apart. *)
Ltac run_apart H :=
  let s := fresh "s" in let x := fresh "x" in let Hx := fresh "Hx" in
  apply M_bind_ok in H as (s & x & Hx & H);
  first [apply skilled_ok in Hx
        |apply signs_ok in Hx as [? Hx]
        |apply wallet_signs_ok in Hx as [? Hx]
        |apply seat_context_ok in Hx as [-> Hx]
        |apply signed_meta_ok in Hx as [? Hx]
        |apply reserves_ok in Hx
        |apply lift_ok in Hx as [-> Hx]
        |idtac].
Ltac returns H := injection H as ? <-.

Lemma ready_built (s s' : state) r :
  build_room_ready_request s = (s', Ok r) → speaks_for s →
  fst s' = fst s ∧ (rr_room_id r, rr_seat_id r) = (rn_room_id cfg, rn_seat_id cfg) ∧
  rm_request_expiry_ms (rr_request_meta r) = 30000%Z.
Proof.
  intros H (ctx & Hctx & Hroom & Hseat & _). unfold build_room_ready_request in H.
  run_apart H. run_apart H. injection H as <- <-. cbn in *. simplify_eq.
  by rewrite Hroom, Hseat.
Qed.

Lemma seat_request_built method (s s' : state) r :
  build_signed_seat_request cfg method s = (s', Ok r) → speaks_for s →
  fst s' = fst s ∧ (rr_room_id r, rr_seat_id r) = (rn_room_id cfg, rn_seat_id cfg) ∧
  rm_request_expiry_ms (rr_request_meta r) = 30000%Z ∧
  ∃ meta, signed_as method None None (JObj [("seat_id", json_N (rr_seat_id r))])%string meta
            (rr_request_meta r).
Proof.
  intros H Hs. unfold build_signed_seat_request in H. run_apart H. run_apart H.
  injection H as <- <-. destruct (ready_built _ _ _ Hx Hs) as (Hf & Hseat & Hexp).
  cbn in *. split; [congruence|]. split; [done|]. split; [|by eexists].
  by rewrite (signed_as_expiry _ _ _ _ _ _ Hx0).
Qed.

Lemma act_built hand_id action_seq action_type amount tx_hash (s s' : state) r :
  build_signed_game_act_request cfg hand_id action_seq action_type amount tx_hash s = (s', Ok r) →
  speaks_for s →
  ls_seat_ctx (fst s') = ls_seat_ctx (fst s) ∧
  ∃ meta meta', r = mkGameAct (rn_room_id cfg) hand_id action_seq (rn_seat_id cfg)
                      (action_name action_type) amount tx_hash meta' ∧
    rm_request_expiry_ms meta' = 30000%Z ∧
    signed_as "game.act" (Some (uuid_text hand_id)) (Some action_seq)
      (sm_params (game_act_input r)) meta meta'.
Proof.
  intros H (ctx & Hctx & Hroom & Hseat & _). unfold build_signed_game_act_request in H.
  run_apart H. run_apart H. injection H as <- <-. unfold build_game_act_request in Hx.
  run_apart Hx. run_apart Hx. run_apart Hx.
  injection Hx as <- <-. cbn in *. simplify_eq. rewrite Hseat in Hx0. rewrite Hroom, Hseat.
  split; [congruence|]. do 2 eexists. split; [reflexivity|]. split; [|exact Hx0].
  by rewrite (signed_as_expiry _ _ _ _ _ _ Hx0).
Qed.

Lemma bind_address_built (s s' : state) r :
  build_signed_bind_address_request cfg s = (s', Ok r) → speaks_for s →
  speaks_for s' ∧ (ba_room_id r, ba_seat_id r) = (rn_room_id cfg, rn_seat_id cfg) ∧
  ba_seat_address r = rn_seat_address cfg ∧
  rm_request_expiry_ms (ba_request_meta r) = 30000%Z ∧
  ∃ meta, signed_as "room.bind_address" None None (sm_params (bind_address_input r)) meta
            (ba_request_meta r).
Proof.
  intros H (ctx & Hctx & Hroom & Hseat & _). unfold build_signed_bind_address_request in H.
  run_apart H. run_apart H. injection H as <- <-. unfold bind_seat_address in Hx.
  run_apart Hx. run_apart Hx. run_apart Hx. injection Hx as <- <-. unfold set_seat_ctx in Hx3.
  destruct s1 as [sk w]. injection Hx3 as <-. cbn in *. simplify_eq.
  destruct s2 as [sk2 w2]. cbn in *. rewrite H, Hctx in Hx2. injection Hx2 as <-.
  rewrite Hroom, Hseat. rewrite Hseat in Hx0.
  split; [|by split_and!; [| |rewrite (signed_as_expiry _ _ _ _ _ _ Hx0)|eexists]].
  eexists. split_and!; try reflexivity. by intros ? [= <-].
Qed.

Lemma bind_keys_built (s s' : state) r :
  build_signed_bind_session_keys_request cfg s = (s', Ok r) → speaks_for s →
  fst s' = fst s ∧ (bk_room_id r, bk_seat_id r) = (rn_room_id cfg, rn_seat_id cfg) ∧
  bk_seat_address r = rn_seat_address cfg ∧
  rm_request_expiry_ms (bk_request_meta r) = 30000%Z ∧
  wallet_signed (bytes_of_string (build_seat_key_binding_message (client_claim r)))
    (bk_proof_signature r) ∧
  ∃ meta, signed_as "room.bind_session_keys" None None (sm_params (bind_session_keys_input r)) meta
            (bk_request_meta r).
Proof.
  intros H (ctx & Hctx & Hroom & Hseat & Haddr). unfold build_signed_bind_session_keys_request in H.
  run_apart H. unfold build_bind_session_keys_request_unsigned in Hx.
  run_apart Hx. run_apart Hx. run_apart Hx. injection Hx as <- <-.
  run_apart H. run_apart H. injection H as <- <-.
  cbn in *. rewrite H0, Hctx in Hx1. injection Hx1 as <-.
  destruct (cs_seat_address ctx) as [address|]; [|done]. injection Hx2 as <-.
  rewrite (Haddr _ eq_refl) in *. rewrite Hroom, Hseat in *.
  destruct (signed_as_ts _ _ _ _ _ _ Hx3) as [Hexp Hts]. cbn in Hexp, Hts.
  split_and!; [congruence|done|done|by rewrite Hexp| |by eexists].
  unfold client_claim in *. cbn in *. by rewrite Hts.
Qed.

Lemma speaks_same (s s' : state) :
  ls_seat_ctx (fst s') = ls_seat_ctx (fst s) → speaks_for s → speaks_for s'.
Proof. unfold speaks_for. by intros ->. Qed.

Lemma built_request sr (s s' : state) :
  speaks_for s → builds sr s s' → speaks_for s' ∧ seat_request sr.
Proof.
  intros Hs Hb. destruct sr as [r|r|r|r|r]; unfold seat_request; cbn in Hb |- *.
  - destruct (seat_request_built _ _ _ _ Hb Hs) as (Hf & Hseat & Hexp & _).
    split; [by apply (speaks_same s); [rewrite Hf|]|by split_and!].
  - destruct (seat_request_built _ _ _ _ Hb Hs) as (Hf & Hseat & Hexp & meta & Hm).
    split; [by apply (speaks_same s); [rewrite Hf|]|]. split_and!; [done|done| |done].
    intros i [= <-]. cbn. simplify_eq. split; [congruence|by exists meta].
  - destruct (bind_address_built _ _ _ Hb Hs) as (Hs' & Hseat & Ha & Hexp & meta & Hm).
    split; [done|]. split_and!; [done|done| |done].
    intros i [= <-]. cbn. split; [congruence|by exists meta].
  - destruct (bind_keys_built _ _ _ Hb Hs) as (Hf & Hseat & Ha & Hexp & Hproof & meta & Hm).
    split; [by apply (speaks_same s); [rewrite Hf|]|]. split_and!; [done|done| |done|done].
    intros i [= <-]. cbn. split; [congruence|by exists meta].
  - destruct Hb as (hand_id & action_seq & action_type & amount & tx_hash & Hb).
    destruct (act_built _ _ _ _ _ _ _ _ Hb Hs) as (Hf & meta & meta' & Hr & Hexp & Hm).
    split; [by apply (speaks_same s)|]. rewrite Hr in *. split_and!; [done|done| |done].
    intros i [= <-]. cbn. split; [done|by exists meta].
Qed.

Lemma runs_speak s : skill_run s → speaks_for s.
Proof.
  induction 1 as [w s Hc|sk w w' _ IH|sr s s' _ IH Hb].
  - by apply (connects w).
  - exact IH.
  - by apply (built_request sr s).
Qed.

Lemma seat_request_verifies key sr i :
  seat_request sr → wallet_holds key → request_input sr = Some i →
  verify_signed_message (rn_seat_address cfg) i = Ok tt.
Proof.
  intros (_ & _ & Hin & _) Hw Hi. destruct (Hin i Hi) as (Hroom & meta & message & signature & Hm & Hs & He).
  assert (Hnil : sm_session_id i = nil_session).
  { by destruct sr; simplify_eq/=. }
  unfold verify_signed_message.
  assert (build_signing_message i = Ok message) as ->.
  { revert Hm. unfold build_signing_message, result_map_err. cbn. rewrite Hnil, Hroom, He. cbn.
    by destruct (canonical_params_json (sm_params i)). }
  cbn. rewrite He. cbn. by rewrite (wallet_signature_verifies key).
Qed.

(** C13. What a client signs is verified. Every request that the client builds in a run,
    signed by a wallet that holds the key of the seat's address, is for the seat of its
    configuration and carries a signature that the application's verifier accepts, as
    soon as the room knows the seat by this address; a binding of keys carries a proof
    that the gateway accepts; and for thirty seconds the request is in its window. *)
Theorem what_clients_sign_is_verified key sr s s'
    (Hrun : skill_run s) (Hbuilds : builds sr s s') (Hwallet : wallet_holds key) :
  requested_seat sr = (rn_room_id cfg, rn_seat_id cfg) ∧
  (∀ i, request_input sr = Some i → verify_signed_message (rn_seat_address cfg) i = Ok tt) ∧
  match sr with
  | SignedBindAddress r => ba_seat_address r = rn_seat_address cfg
  | SignedBindKeys r => bk_seat_address r = rn_seat_address cfg ∧
                        validate_bind_session_keys_proof r = Ok tt
  | _ => True
  end ∧
  ∀ t, rm_request_ts (signed_meta sr) ≤ t ≤ rm_request_ts (signed_meta sr) + 30000 →
    validate_request_meta t (signed_meta sr) = Ok tt.
Proof.
  destruct (built_request _ _ _ (runs_speak _ Hrun) Hbuilds) as [_ Hreq].
  pose proof Hreq as (Hseat & Hexp & _ & Hown). split; [done|]. split.
  { intros i Hi. by apply (seat_request_verifies key sr). }
  split.
  - destruct sr as [r|r|r|r|r]; try done. destruct Hown as [Ha Hproof]. split; [done|].
    unfold validate_bind_session_keys_proof, verify_seat_key_binding_proof_evm.
    fold (client_claim r). change (kb_seat_address (client_claim r)) with (bk_seat_address r).
    by rewrite Ha, (wallet_signature_verifies key).
  - intros t Ht. unfold validate_request_meta, validate_request_window. rewrite Hexp.
    destruct (Z.ltb_spec 5000 (Z.of_N (rm_request_ts (signed_meta sr)) - Z.of_N t)); [lia|].
    by destruct (Z.ltb_spec 30000 (Z.of_N t - Z.of_N (rm_request_ts (signed_meta sr)))); [lia|].
Qed.
End Requests.

(** ** What the server makes of a decision *)

Section Decisions.
Context {HD : HexDecode} {UT : UuidText} {JT : JsonText} {DT : DateTimeText}.
Context {SC : SeatCryptoPrimitives} {CC : ClientCodec}.
Context {W : Type} {TR : JsonRpcTransport W} {CK : Clock W} {FI : FreshIds W} {WA : WalletAdapter W}.
Context (cfg : SingleActionRunnerConfig).
Abbreviation state := (LocalAgentSkill * W)%type.

Definition known_to_gateway (action_type : ActionType) : bool :=
  match action_type with RaiseTo | AllIn => false | _ => true end.

Lemma action_name_read action_type :
  parse_action_type (action_name action_type)
  = if known_to_gateway action_type then Ok action_type else Err InvalidActionType.
Proof. by destruct action_type. Qed.

(** The request of an action as the gateway reads it: three of the five actions have
    a name that it knows. *)
Lemma act_as_read hand_id action_seq action_type amount tx_hash (s s' : state) r :
  speaks_for cfg s →
  build_signed_game_act_request cfg hand_id action_seq action_type (pretty <$> amount) tx_hash s
    = (s', Ok r) →
  from_option (λ n, n ≤ u128_max) True amount →
  ga_tx_hash r = tx_hash ∧
  (known_to_gateway action_type = false → validate_game_act_funding_fields r = Err InvalidActionType) ∧
  to_player_action r
  = if known_to_gateway action_type
    then Ok (mkPlayerAction (rn_room_id cfg) hand_id action_seq (rn_seat_id cfg) action_type amount)
    else Err InvalidActionType.
Proof.
  intros Hs Hb Ha. destruct (act_built _ _ _ _ _ _ _ _ _ Hb Hs) as (_ & meta & meta' & -> & _ & _).
  split; [done|]. unfold validate_game_act_funding_fields, to_player_action. mrun. cbn.
  rewrite action_name_read. destruct (known_to_gateway action_type); [|done]. split; [done|].
  unfold parse_amount_u128. destruct amount as [n|]; [|done]. cbn in *. by rewrite parse_pretty.
Qed.

(** *** Raises *)

Context {G : Type} {CKG : Clock G} {FIG : FreshIds G} {RS : RoomServicePort G}.
Context (audit_sink : option (RequestRejectAuditSink G))
  (nonces : option (ReplayNonceKey → M G AuthError unit))
  (verifier : option (RequestSignatureVerifier G)).

Lemma with_skill_bind {A B} (m : M state RuntimeError A) (k : A → M state RuntimeError B) w sk w1 x :
  m (LocalAgentSkill_default, w) = ((sk, w1), Ok x) →
  with_skill (m ≫= k) w = (let '((_, w2), r) := k x (sk, w1) in (w2, r)).
Proof. intros Hm. unfold with_skill, mbind, M_mbind, M_bind. by rewrite Hm. Qed.

(** The skill of a run after it has connected. *)
Definition connected_skill : LocalAgentSkill :=
  mkSkill (Some (mkSkillConfig (rn_rpc_endpoint cfg) None None))
    (Some (mkSeatContext (rn_room_id cfg) (rn_seat_id cfg) None None)) None RetryPolicy_default
    LocalActionAttemptStore_new.
Lemma connected (w : W) :
  connect_skill cfg (LocalAgentSkill_default, w) = ((connected_skill, w), Ok tt).
Proof. reflexivity. Qed.
Lemma connected_speaks (w : W) : speaks_for cfg (connected_skill, w).
Proof. eexists. by split. Qed.

(** C38. A raise of the client is paid for and then refused. When the client plays a
    decision to raise or to go all-in, the transfer to the room is made first; the
    request that follows, if it comes about, names the action in a way that the
    gateway does not know, so that it is refused before any check, whatever signature
    and nonce it has, and neither the room service nor any store hears of it. *)
Theorem raises_are_paid_and_refused turn decision amount (w w1 w' : W) receipt r
    (Hkind : pd_action_type decision = RaiseTo ∨ pd_action_type decision = AllIn)
    (Hamount : pd_amount decision = Some amount) (Hfits : amount ≤ u128_max)
    (Hpaid : transfer_to_room (mkEvmTransfer (rn_room_id cfg) (rn_seat_address cfg)
               (rn_room_chain_address cfg) amount (rn_chain_id cfg)) w = (w1, Ok receipt))
    (Hrun : execute_turn_decision cfg turn decision w = (w', r)) :
  let building := build_signed_game_act_request cfg (td_hand_id turn) (td_action_seq turn)
      (pd_action_type decision) (Some (pretty amount)) (Some (er_tx_hash receipt))
      (connected_skill, w1) in
  (∃ s e, building = (s, Err e) ∧ w' = snd s ∧ r = Err e) ∨
  ∃ req sk w2,
    building = ((sk, w2), Ok req) ∧
    (w', r) = (call_for_unit act_to_value (rn_rpc_endpoint cfg) "game.act" req;;
               mret (mkRunOutcome (td_hand_id turn) (td_action_seq turn) (Some amount)
                       (Some (er_tx_hash receipt)))) w2 ∧
    ∀ g, handle_game_act_with_audit audit_sink nonces verifier req g
         = (g, envelope_err CodeRequestInvalid (gateway_error_text InvalidActionType)).
Proof.
  intros building. unfold execute_turn_decision in Hrun.
  rewrite (with_skill_bind _ _ _ _ _ _ (connected w)) in Hrun.
  assert (resolve_action_amount_from_legal_actions decision (td_legal_actions_raw turn)
          = Ok (Some amount)) as Hres.
  { unfold resolve_action_amount_from_legal_actions. destruct Hkind as [-> | ->]; by rewrite Hamount. }
  unfold mbind at 1, M_mbind, M_bind, lift_result in Hrun. rewrite Hres in Hrun.
  unfold pay_for_action, in_world, M_map_err in Hrun. unfold mbind at 1, M_mbind, M_bind in Hrun.
  unfold mbind at 1, M_mbind, M_bind in Hrun. rewrite Hpaid in Hrun. cbn -[build_signed_game_act_request call_for_unit] in Hrun.
  unfold mbind at 1, M_mbind, M_bind in Hrun.
  fold building in Hrun. destruct building as [[sk w2] [req|e]] eqn:Hbuild.
  2: { left. injection Hrun as <- <-. by eexists _, _. }
  right. exists req, sk, w2. split; [done|]. split.
  - rewrite <- Hrun. unfold mbind, M_mbind, M_bind.
    destruct (call_for_unit _ _ _ req w2) as [w3 [[]|e]]; reflexivity.
  - intros g. destruct (act_as_read _ _ _ (Some amount) _ _ _ _ (connected_speaks w1) Hbuild Hfits)
      as (_ & Hval & _).
    unfold handle_game_act_with_audit, respond, or_reply. mrun.
    rewrite Hval by (by destruct Hkind as [-> | ->]). reflexivity.
Qed.

(** *** The rule policy *)

Context {CO : CardOps}.

(** What the client has collected of a hand whose turn is its seat's. *)
Definition sees (e : EngineState) (turn : TurnDecisionInput) : Prop :=
  hs_acting_seat_id (snapshot e) = Some (rn_seat_id cfg) ∧
  td_legal_actions_raw turn = legal_actions e (rn_seat_id cfg) ∧
  pi_legal_actions (td_policy_input turn)
  = map (λ a, action_name (la_action_type a)) (legal_actions e (rn_seat_id cfg)) ∧
  td_hand_id turn = hs_hand_id (snapshot e) ∧
  td_action_seq turn = hs_next_action_seq (snapshot e).

(** The rule policy checks when it can and calls otherwise, for what is to be called. *)
Lemma rule_decides e turn :
  sees e turn →
  let to_call := b_current_bet (betting_round e) - seat_bet e (rn_seat_id cfg) in
  ∃ decision, rule_decision (td_policy_input turn) = Some decision ∧
    pd_action_type decision = (if to_call =? 0 then Check else Call) ∧
    resolve_action_amount_from_legal_actions decision (td_legal_actions_raw turn)
    = Ok (if to_call =? 0 then None else Some to_call).
Proof.
  intros (Hact & Hraw & Hnames & _) to_call. unfold rule_decision. rewrite Hnames, Hraw.
  unfold legal_actions. rewrite bool_decide_true by done. cbn [negb]. rewrite chips_sub_or_zero.
  fold to_call. unfold ChipsOps.ZERO. by destruct (to_call =? 0); eexists.
Qed.

Lemma pays amount (s s' : state) tx :
  pay_for_action cfg amount s = (s', Ok tx) →
  fst s' = fst s ∧ (is_Some tx ↔ is_Some amount).
Proof.
  destruct s as [sk w]. unfold pay_for_action. destruct amount as [n|]; [|by intros [= <- <-]].
  intros H. apply M_bind_ok in H as (s1 & x & Hx & [= <- <-]). unfold in_world, M_map_err in Hx.
  destruct (transfer_to_room _ w) as [w' [y|e]]; cbn in Hx; [|done]. injection Hx as <- <-.
  split; [done|]. by split; intros _; eexists.
Qed.

(** C12. A client with the rule policy plays. In every hand the engine can reach, when it
    is the turn of the client's seat and the pot is far from the machine's bound, the
    policy finds a decision for what the client sees; the request that comes of it,
    paid by a transaction with a hash, passes the gateway's check of its fields, and
    the action that the gateway reads from it is accepted by the engine. *)
Theorem rule_players_play_legal_moves e turn
    (Hreach : reachable e) (Hturn : sees e turn)
    (Hbound : p_main_pot (pot e) + b_current_bet (betting_round e) ≤ u128_max) :
  ∃ decision amount,
    rule_decision (td_policy_input turn) = Some decision ∧
    resolve_action_amount_from_legal_actions decision (td_legal_actions_raw turn) = Ok amount ∧
    ∀ s s1 s2 tx req, skill_run cfg s → pay_for_action cfg amount s = (s1, Ok tx) →
      (∀ h, tx = Some h → trim h ≠ ""%string) →
      build_signed_game_act_request cfg (td_hand_id turn) (td_action_seq turn)
        (pd_action_type decision) (pretty <$> amount) tx s1 = (s2, Ok req) →
      validate_game_act_funding_fields req = Ok tt ∧
      ∃ action e' st, to_player_action req = Ok action ∧
        apply_action action e = (e', Ok (Accepted st)).
Proof.
  set (bet := seat_bet e (rn_seat_id cfg)). set (cur := b_current_bet (betting_round e)).
  destruct (rule_decides e turn Hturn) as (decision & Hd & Hty & Hres). fold bet cur in Hty, Hres.
  pose proof Hturn as (Hact & _ & _ & _ & Hseq). pose proof (inv_pot _ (reachable_engine_inv _ Hreach)) as [Hc _ _ _].
  exists decision. eexists. split; [done|]. split; [exact Hres|].
  intros s s1 s2 tx req Hrun Hpay Hhash Hbuild.
  destruct (pays _ _ _ _ Hpay) as [Hfst Htx].
  assert (Hs : speaks_for cfg s1) by (apply (speaks_same cfg s); [by rewrite Hfst|by apply runs_speak]).
  destruct (act_as_read _ _ _ _ _ _ _ _ Hs Hbuild) as (Hgtx & _ & Hread).
  { destruct (cur - bet =? 0); cbn; [done|]. unfold cur in *. lia. }
  assert (Hknown : known_to_gateway (pd_action_type decision) = true).
  { rewrite Hty. by destruct (cur - bet =? 0). }
  rewrite Hknown in Hread. split.
  - apply funding_fields_decide. eexists. split; [exact Hread|]. cbn. unfold tx_hash_present.
    rewrite Hgtx, Hty. destruct (cur - bet =? 0).
    + destruct tx; [|done]. by destruct (proj1 Htx (ex_intro _ _ eq_refl)).
    + destruct (proj2 Htx (ex_intro _ _ eq_refl)) as [h ->]. split; [done|].
      by destruct (String.eqb_spec (trim h) ""); [destruct (Hhash h)|].
  - eexists. assert (∃ e1 reset, legal_move e (mkPlayerAction (rn_room_id cfg) (td_hand_id turn)
      (td_action_seq turn) (rn_seat_id cfg) (pd_action_type decision)
      (if cur - bet =? 0 then None else Some (cur - bet))) e1 reset) as (e1 & reset & Hm).
    { destruct (N.eqb_spec (cur - bet) 0) as [Hz|Hz]; rewrite Hty; do 2 eexists.
      - apply move_check; [done|]. cbn. fold bet cur. lia.
      - apply move_call; cbn; fold bet cur; [done|lia|]. unfold fits. fold bet. fold cur in Hbound. lia. }
    pose proof (λ H, apply_action_accepts _ _ _ _ Hc H Hm) as Happ.
    specialize (Happ (conj Hseq Hact)). destruct (advance_turn _ _) as [e' st]. exists e', st. split; [exact Hread|exact Happ].
Qed.
End Decisions.

(** ** A client of one's own *)

#[local] Existing Instances toy_secp toy_secp_laws toy_hex toy_hex_laws toy_date_text
  toy_auth_uuid demo_no_crypto.
#[local] Instance plain_json : JsonText := {| json_to_string _ := Ok "params"%string |}.
#[local] Instance client_clock : Clock N := {| utc_now w := w |}.
#[local] Instance client_ids : FreshIds N := {| fresh_uuid w := (w + 1, w) |}.
(** The wallet holds the key [true]; every transfer goes through. *)
#[local] Instance client_wallet : WalletAdapter N := {|
  transfer_to_room _ := mret (mkEvmReceipt "0xfeed" true);
  sign_personal_message _ message :=
    lift_result (result_map_err (λ _, RpcUnavailable)
      (sign_evm_personal_message_secp256k1 true message));
|}.
#[local] Instance client_node : JsonRpcTransport N :=
  {| post_json _ _ w := (w, Err "offline"%string); decode_message _ := "decode"%string |}.
#[local] Instance client_codec : ClientCodec := {|
  ready_to_value _ := Ok JNull; bind_address_to_value _ := Ok JNull;
  bind_keys_to_value _ := Ok JNull; act_to_value _ := Ok JNull;
  get_state_to_value _ := Ok JNull; get_legal_to_value _ := Ok JNull;
  get_private_to_value _ := Ok JNull;
  unit_reply_from_value _ := Err "offline"%string; state_reply_from_value _ := Err "offline"%string;
  legal_reply_from_value _ := Err "offline"%string;
  private_reply_from_value _ := Err "offline"%string;
  hole_cards_from_value _ := Err "offline"%string; json_from_slice _ := Err "offline"%string;
  private_event_to_value _ := JNull; hand_status_to_value _ := JNull; street_to_value _ := JNull;
  json_display _ := ""%string; hex_decode_error _ := "hex"%string;
|}.
Definition client_config : SingleActionRunnerConfig :=
  mkRunnerConfig "node" 1 0 (evm_address_from_secp256k1_verifying_key true) "0xroom" 71 0 "00" None.

Lemma client_wallet_holds : wallet_holds client_config true.
Proof.
  split; [done|]. intros message signature (w & w' & Hs). exists true, tt, 0.
  split; [done|]. split; [by left|]. by injection Hs as _ <-.
Qed.

Definition client_state : LocalAgentSkill * N :=
  fst (connect_skill client_config (LocalAgentSkill_default, 100)).
Lemma client_connects : skill_run client_config client_state.
Proof. by apply (run_connects _ 100). Qed.
Definition client_call := build_signed_game_act_request client_config 11 1 Call
  (pretty <$> Some 200) (Some "0xfeed"%string) client_state.
Lemma client_call_built : ∃ s req, client_call = (s, Ok req).
Proof. eexists _, _. vm_compute. reflexivity. Qed.

Lemma what_clients_sign_is_verified_witness :
  ∃ s req, client_call = (s, Ok req) ∧
    verify_signed_message (rn_seat_address client_config) (game_act_input req) = Ok tt.
Proof.
  destruct client_call_built as (s & req & Hbuilt). exists s, req. split; [exact Hbuilt|].
  destruct (what_clients_sign_is_verified (SK := toy_secp) client_config true (SignedAct req) client_state s
    client_connects) as (_ & Hver & _).
  - do 5 eexists. exact Hbuilt.
  - exact client_wallet_holds.
  - exact (Hver _ eq_refl).
Defined.

(** A gateway over a room service that takes everything; it never gets there. *)
#[local] Instance open_rooms : RoomServicePort N := {|
  svc_create_room _ := throw GNotImplemented; svc_list_rooms _ := mret [];
  svc_join _ := mret tt; svc_ready _ := mret tt; svc_bind_address _ := mret tt;
  svc_bind_session_keys _ := mret tt; svc_get_state _ := mret None;
  svc_get_legal_actions _ _ := mret []; svc_get_private_payloads _ := mret [];
  svc_act _ := mret tt;
|}.
Definition all_in : PolicyDecision := mkDecision AllIn (Some 500) None SourceLlm.
Definition client_turn : TurnDecisionInput :=
  mkTurnInput (mkPolicyInput 1 11 0 [] JNull None None) 11 1 [].

Definition all_in_call := build_signed_game_act_request client_config 11 1 AllIn
  (Some (pretty 500)) (Some "0xfeed"%string) (connected_skill client_config, 100).
Lemma all_in_call_built : ∃ s req, all_in_call = (s, Ok req).
Proof. eexists _, _. vm_compute. reflexivity. Qed.

Lemma raises_are_paid_and_refused_witness :
  ∃ req s, all_in_call = (s, Ok req) ∧
    handle_game_act_with_audit None None None req (7 : N)
    = (7, envelope_err CodeRequestInvalid "invalid action type").
Proof.
  destruct all_in_call_built as (s & req & Hbuilt). exists req, s. split; [exact Hbuilt|].
  destruct (raises_are_paid_and_refused client_config None None None client_turn all_in 500
    100 100 (fst (execute_turn_decision client_config client_turn all_in 100))
    (mkEvmReceipt "0xfeed" true) (snd (execute_turn_decision client_config client_turn all_in 100)))
    as [(s' & e & Hb & _ & _)|(req' & sk & w2 & Hb & _ & Hg)].
  - by right.
  - reflexivity.
  - by vm_compute.
  - reflexivity.
  - apply surjective_pairing.
  - pose proof (eq_trans (eq_sym Hb) Hbuilt) as Heq. discriminate Heq.
  - pose proof (eq_trans (eq_sym Hb) Hbuilt) as Heq. injection Heq as _ <-. exact (Hg 7).
Defined.

(** Seat 0 opens a hand of two and has a blind to call. *)
#[local] Existing Instance index_cards.
Definition opening : EngineState := demo_dealt [0; 1].
Definition opening_turn : TurnDecisionInput :=
  let legal := legal_actions opening 0 in
  mkTurnInput
    (mkPolicyInput 1 11 0 (map (λ a, action_name (la_action_type a)) legal) JNull None None)
    (hs_hand_id (snapshot opening)) (hs_next_action_seq (snapshot opening)) legal.
Lemma opening_facts :
  sees client_config opening opening_turn ∧
  rule_decision (td_policy_input opening_turn)
  = Some (mkDecision Call None (Some "rule_policy_simple_priority"%string) SourceRule) ∧
  resolve_action_amount_from_legal_actions
    (mkDecision Call None (Some "rule_policy_simple_priority"%string) SourceRule)
    (td_legal_actions_raw opening_turn) = Ok (Some 100000000000000) ∧
  p_main_pot (pot opening) + b_current_bet (betting_round opening) ≤ u128_max.
Proof. vm_compute. repeat split; discriminate. Qed.
Definition opening_call (s : LocalAgentSkill * N) := build_signed_game_act_request client_config
  (td_hand_id opening_turn) (td_action_seq opening_turn) Call
  (pretty <$> Some 100000000000000) (Some "0xfeed"%string) s.
Lemma opening_call_built : ∃ s req, opening_call client_state = (s, Ok req).
Proof. eexists _, _. vm_compute. reflexivity. Qed.

Lemma rule_players_play_legal_moves_witness :
  ∃ s req action e' st, opening_call client_state = (s, Ok req) ∧
    to_player_action req = Ok action ∧ apply_action action opening = (e', Ok (Accepted st)).
Proof.
  destruct opening_facts as (Hsees & Hrule & Hres & Hbound).
  destruct opening_call_built as (s & req & Hbuilt).
  destruct (rule_players_play_legal_moves client_config opening opening_turn
    (demo_dealt_reachable _) Hsees Hbound) as (decision & amount & Hd & Ha & Hplay).
  rewrite Hrule in Hd. injection Hd as <-. rewrite Hres in Ha. injection Ha as <-.
  destruct (Hplay client_state client_state s (Some "0xfeed"%string) req client_connects)
    as (_ & action & e' & st & Hread & Happ).
  - reflexivity.
  - by intros h [= <-].
  - exact Hbuilt.
  - exists s, req, action, e', st. auto.
Defined.
