(* ===== verification/OpsHttp.v ===== *)
(** The administration endpoints ([ops-http/src/lib.rs]) and the repository behind
    their showdown input ([app-server/src/showdown_admin_repo.rs]).

    Every handler answers, also when a store fails: errors become missing data. The
    stores are the repository classes of the world [W]; serde's rendering of their
    records, the parsing of identifiers and of bodies are parameters. axum's server
    and extractors are not modelled beyond the route table. *)

From stdpp Require Import base tactics option list gmap strings pretty.
From Stdlib Require Import NArith ZArith Lia.
From S2P Require Import Prelude.
From S2P Require Import Ambient.
From S2P Require Import Text.
From S2P Require Import Domain.
From S2P Require Import EngineState.
From S2P Require Import Engine.
From S2P Require Import LedgerStore.
From S2P Require Import AuditStore.
From S2P Require Import AutoSettlement.
From S2P Require Import AppSinks.

Local Open Scope N_scope.

(** ** Responses and bodies *)

Record HealthResponse := mkHealth { hl_ok : bool; hl_service : string }.
Record MetricsResponse := mkMetrics { mt_format : string; mt_body : string }.
Record AdminAuditRequestResponse := mkAuditRequest {
  ar_ok : bool; ar_request_id : string; ar_found : bool; ar_record : option Json;
}.
Record AdminAuditTxResponse := mkAuditTx {
  at_ok : bool;
  at_tx_hash : string;
  at_found : bool;
  at_verification : option Json;
  at_tx_binding : option Json;
  at_exception_credits : list Json;
}.
Record AdminHandReplayResponse := mkHandReplay {
  hp_ok : bool; hp_hand_id : string; hp_found : bool; hp_events : list Json;
}.
Record AdminSettlementHandResponse := mkSettlementHand {
  sx_ok : bool;
  sx_hand_id : string;
  sx_found : bool;
  sx_plan : option Json;
  sx_records : list Json;
}.
Record AdminMarkManualReviewRequest := mkMarkReview {
  mr_retry_count : option Z; mr_reason : option string;
}.
Record AdminMarkManualReviewResponse := mkMarkedReview {
  mm_ok : bool; mm_tx_hash : string; mm_settlement_status : string; mm_retry_count : Z;
}.
Record ShowdownSeatCardsInput := mkSeatCardsInput { si_seat_id : SeatId; si_cards : string }.
Record AdminUpsertShowdownInputRequest := mkUpsertInput {
  ui_room_id : string;
  ui_board : string;
  ui_revealed_hole_cards : list ShowdownSeatCardsInput;
}.
Record AdminUpsertShowdownInputResponse := mkUpsertedInput {
  uo_ok : bool; uo_hand_id : string; uo_accepted : bool;
}.
Record RoomAdminAggregate := mkRoomAggregate {
  ra_room_id : RoomId;
  ra_room_status : string;
  ra_dealer_address : string;
  ra_max_players : N;
  ra_occupied_seats : N;
  ra_latest_hand_id : option string;
  ra_latest_hand_no : option N;
  ra_latest_hand_status : option string;
  ra_latest_hand_started_at : option DateTime;
  ra_open_exception_credit_count : N;
  ra_open_exception_credit_total : string;
}.
Record AdminRoomResponse := mkAdminRoom {
  am_ok : bool; am_room_id : string; am_found : bool; am_room : option RoomAdminAggregate;
}.

(** ** Repositories *)

Class RoomAdminReadRepository (W : Type) := {
  get_room_admin_aggregate : RoomId → M W string (option RoomAdminAggregate);
}.
Class ShowdownAdminRepository (W : Type) := {
  admin_upsert_showdown_input : HandId → AdminUpsertShowdownInputRequest → M W string unit;
}.
Definition NoopShowdownAdminRepository {W} : ShowdownAdminRepository W :=
  {| admin_upsert_showdown_input := λ _ _, mret tt |}.

Definition InMemoryRoomAdminReadRepository : Type := Mutex (gmap RoomId RoomAdminAggregate).
Definition InMemoryRoomAdmin_new : InMemoryRoomAdminReadRepository := mkMutex false ∅.
Definition lock_room_admin (m : InMemoryRoomAdminReadRepository)
    : result string (gmap RoomId RoomAdminAggregate) :=
  result_map_err (λ _, "room admin read lock poisoned"%string) (lock m).
Definition upsert_room_aggregate (aggregate : RoomAdminAggregate)
    : M InMemoryRoomAdminReadRepository string unit :=
  m ← get;
  data ← lift_result (lock_room_admin m);
  modify (λ m, store m (<[ra_room_id aggregate := aggregate]> data)).
#[export] Instance in_memory_room_admin :
    RoomAdminReadRepository InMemoryRoomAdminReadRepository := {
  get_room_admin_aggregate room_id :=
    m ← get;
    guard ← lift_result (lock_room_admin m);
    mret (guard !! room_id);
}.

(** [Uuid::parse_str] *)
Class ParseUuid := { parse_uuid : string → result string Uuid }.

(** [serde_json::to_value] of the records. *)
Class OpsRender := {
  attempt_to_value : ActionAttemptRecord → result string Json;
  verification_to_value : TxVerificationRecord → result string Json;
  binding_to_value : TxBindingRecord → result string Json;
  credit_to_value : ExceptionCreditRecord → result string Json;
  plan_record_to_value : SettlementPlanRecordInsert → result string Json;
  settlement_record_to_value : SettlementRecordInsert → result string Json;
}.

(** [Result::ok] *)
Definition result_ok {E A} (r : result E A) : option A :=
  match r with Ok x => Some x | Err _ => None end.

Section Handlers.
Context {W : Type} {CK : Clock W} {PU : ParseUuid} {OR : OpsRender} {EC : EventCodec}.
Context {AR : AuditReadRepository W} {CR : ChainTxReadRepository W} {RR : RoomAdminReadRepository W}.
Context {SR : SettlementPersistenceReadRepository W} {SW : SettlementPersistenceRepository W}.
Context {SA : ShowdownAdminRepository W}.

Abbreviation H A := (M W Empty_set A) (only parsing).

(** [m.await.ok()] *)
Definition try_ok {E A} (m : M W E A) : H (option A) :=
  λ w, let '(w, r) := m w in (w, Ok (result_ok r)).
(** [m.await.ok().flatten()] *)
Definition try_found {E A} (m : M W E (option A)) : H (option A) :=
  found ← try_ok m; mret (default None found).
(** [m.await.ok().unwrap_or_default()] *)
Definition try_list {E A} (m : M W E (list A)) : H (list A) :=
  found ← try_ok m; mret (default [] found).
Definition rendered {A} (render : A → result string Json) (l : list A) : list Json :=
  omap (λ x, result_ok (render x)) l.

Definition admin_upsert_showdown (id : string) (body : AdminUpsertShowdownInputRequest)
    : H AdminUpsertShowdownInputResponse :=
  accepted ← match result_ok (parse_uuid id) with
             | Some hand_uuid =>
                 done ← try_ok (admin_upsert_showdown_input hand_uuid body);
                 mret (bool_decide (is_Some done))
             | None => mret false
             end;
  mret (mkUpsertedInput true id accepted).

Definition admin_mark_settlement_manual_review (id : string) (body : AdminMarkManualReviewRequest)
    : H AdminMarkManualReviewResponse :=
  let retry_count := Z.max (default 1%Z (mr_retry_count body)) 0 in
  let reason := default "manual review required (ops override)"%string (mr_reason body) in
  updated_at ← now;
  ignore_error (update_settlement_record_status_by_tx_hash
    (mkSettlementRecordStatusUpdate id "manual_review_required" retry_count (Some reason)
       updated_at));;
  mret (mkMarkedReview true id "manual_review_required" retry_count).

Definition health : H HealthResponse := mret (mkHealth true "ops-http").
Definition metrics : H MetricsResponse :=
  mret (mkMetrics "prometheus-text"
          ("# metrics not implemented yet" +:+ String (Ascii.ascii_of_N 10) "")).

Definition admin_room (id : string) : H AdminRoomResponse :=
  room ← match result_ok (parse_uuid id) with
         | Some room_id => try_found (get_room_admin_aggregate room_id)
         | None => mret None
         end;
  mret (mkAdminRoom true id (bool_decide (is_Some room)) room).

Definition admin_hand_replay (id : string) : H AdminHandReplayResponse :=
  events ← match result_ok (parse_uuid id) with
           | Some hand_id => try_list (list_hand_events hand_id (mkPageRequest 500 0))
           | None => mret []
           end;
  let events := rendered hand_event_to_value events in
  mret (mkHandReplay true id (negb (length events =? 0)%nat) events).

Definition admin_settlement_hand (id : string) : H AdminSettlementHandResponse :=
  match result_ok (parse_uuid id) with
  | None => mret (mkSettlementHand true id false None [])
  | Some hand_id =>
      records ← try_list (list_settlement_records_by_hand hand_id);
      plan ← match records with
             | first :: _ =>
                 found ← try_found (get_settlement_plan (sr_settlement_plan_id first));
                 mret (found ≫= λ p, result_ok (plan_record_to_value p))
             | [] => mret None
             end;
      let records_json := rendered settlement_record_to_value records in
      mret (mkSettlementHand true id
              (bool_decide (is_Some plan) || negb (length records_json =? 0)%nat)
              plan records_json)
  end.

Definition admin_audit_request (id : string) : H AdminAuditRequestResponse :=
  found ← try_found (get_action_attempt_by_request_id id);
  let record := found ≫= λ r, result_ok (attempt_to_value r) in
  mret (mkAuditRequest true id (bool_decide (is_Some record)) record).

Definition admin_audit_tx (id : string) : H AdminAuditTxResponse :=
  verified ← try_found (get_tx_verification id);
  let verification := verified ≫= λ r, result_ok (verification_to_value r) in
  bound ← try_found (get_tx_binding_by_tx_hash id);
  let tx_binding := bound ≫= λ r, result_ok (binding_to_value r) in
  credits ← try_list (list_exception_credits None (mkPageRequest 100 0));
  let exception_credits :=
    rendered credit_to_value (filter (λ r, ecr_tx_hash r = Some id) credits) in
  mret (mkAuditTx true id
          (bool_decide (is_Some verification) || bool_decide (is_Some tx_binding)
           || negb (length exception_credits =? 0)%nat)
          verification tx_binding exception_credits).

(** ** Routes *)

Inductive HttpMethod := HttpGet | HttpPost.
Inductive OpsReply :=
| OpsHealth (r : HealthResponse)
| OpsMetrics (r : MetricsResponse)
| OpsRoom (r : AdminRoomResponse)
| OpsReplay (r : AdminHandReplayResponse)
| OpsSettlement (r : AdminSettlementHandResponse)
| OpsShowdownInput (r : AdminUpsertShowdownInputResponse)
| OpsManualReview (r : AdminMarkManualReviewResponse)
| OpsAuditRequest (r : AdminAuditRequestResponse)
| OpsAuditTx (r : AdminAuditTxResponse).

(** The bodies, as axum's extractor gives them to a handler, if it does. *)
Record OpsBody := mkOpsBody {
  body_showdown_input : option AdminUpsertShowdownInputRequest;
  body_manual_review : option AdminMarkManualReviewRequest;
}.

Definition replies {A} (wrap : A → OpsReply) (h : H A) : H OpsReply := r ← h; mret (wrap r).

(** [build_router_with_state]; a path is the list of its segments. *)
Definition ops_route (method : HttpMethod) (path : list string) (body : OpsBody)
    : option (H OpsReply) :=
  match method, path with
  | HttpGet, ["health"] => Some (replies OpsHealth health)
  | HttpGet, ["metrics"] => Some (replies OpsMetrics metrics)
  | HttpGet, ["admin"; "rooms"; id] => Some (replies OpsRoom (admin_room id))
  | HttpGet, ["admin"; "hands"; id; "replay"] => Some (replies OpsReplay (admin_hand_replay id))
  | HttpGet, ["admin"; "settlements"; "hand"; id] =>
      Some (replies OpsSettlement (admin_settlement_hand id))
  | HttpPost, ["admin"; "settlements"; "hand"; id; "showdown-input"] =>
      (λ body, replies OpsShowdownInput (admin_upsert_showdown id body)) <$> body_showdown_input body
  | HttpPost, ["admin"; "settlements"; "tx"; id; "manual-review"] =>
      (λ body, replies OpsManualReview (admin_mark_settlement_manual_review id body))
        <$> body_manual_review body
  | HttpGet, ["admin"; "audit"; "request"; id] =>
      Some (replies OpsAuditRequest (admin_audit_request id))
  | HttpGet, ["admin"; "audit"; "tx"; id] => Some (replies OpsAuditTx (admin_audit_tx id))
  | _, _ => None
  end%string.
End Handlers.

(** ** The showdown input of an administrator *)

Section ShowdownAdmin.
Context {CO : CardOps} {CT : CardText} {PU : ParseUuid}.

Fixpoint parse_seat_cards (seats : list ShowdownSeatCardsInput)
    : result string (list (SeatId * (Card * Card))) :=
  match seats with
  | [] => Ok []
  | seat :: seats =>
      cards ← result_map_err
        (λ e, "invalid seat cards for seat " +:+ pretty (si_seat_id seat) +:+ ": " +:+ e)
        (flat_hand_from_str (si_cards seat));
      match cards with
      | [c0; c1] =>
          rest ← parse_seat_cards seats;
          Ok ((si_seat_id seat, (c0, c1)) :: rest)
      | _ => Err ("seat " +:+ pretty (si_seat_id seat) +:+ " must provide exactly 2 cards")
      end
  end.

Definition parse_showdown_input (payload : AdminUpsertShowdownInputRequest)
    : result string (RoomId * ShowdownInput) :=
  room_id ← result_map_err (λ e, "invalid room_id: " +:+ e) (parse_uuid (ui_room_id payload));
  board ← result_map_err (λ e, "invalid board cards: " +:+ e)
            (flat_hand_from_str (ui_board payload));
  revealed_hole_cards ← parse_seat_cards (ui_revealed_hole_cards payload);
  Ok (room_id, mkShowdownInput board revealed_hole_cards).

Context {W : Type} {AP : AppProviderWorld W} {CK : Clock W} {FI : FreshIds W}.

Definition AppShowdownAdminRepository : ShowdownAdminRepository W := {|
  admin_upsert_showdown_input := λ hand_id payload,
    '(room_id, showdown_input) ← lift_result (parse_showdown_input payload);
    M_map_err (λ e, "showdown provider write failed: " +:+ e)
      (app_upsert_showdown_input room_id hand_id showdown_input);
|}.
End ShowdownAdmin.
