(* ===== verification/OpsHttpProps.v ===== *)
(** What the administration endpoints report and change, over the in-memory stores and
    the application's provider of showdown inputs. *)

From stdpp Require Import base tactics option list gmap strings.
From Stdlib Require Import NArith ZArith Lia.
From Stdlib Require String.
From S2P Require Import Prelude.
From S2P Require Import Ambient.
From S2P Require Import Text.
From S2P Require Import Domain.
From S2P Require Import EngineState.
From S2P Require Import Engine.
From S2P Require Import LedgerStore.
From S2P Require Import AuditStore.
From S2P Require Import AutoSettlement.
From S2P Require Import AppSinks.
From S2P Require Import OpsHttp.

Local Open Scope N_scope.

(** ** Transactions *)

Section Transactions.
Context {OR : OpsRender}.

(** The values of a map whose keys are part of the values. *)
Lemma values_with_key {A} (key : A → string) (m : gmap string A) id :
  (∀ k x, m !! k = Some x → key x = k) →
  filter (λ x, key x = id) (map snd (map_to_list m)) = option_list (m !! id).
Proof.
  intros Hkeys.
  assert (∀ l, (∀ k x, (k, x) ∈ l → key x = k ∧ k ≠ id) → filter (λ x, key x = id) (map snd l) = [])
    as Hnone.
  { induction l as [|[k x] l IH]; intros Hl; [done|]. cbn [map snd].
    destruct (Hl k x (list_elem_of_here _ _)) as [Hk Hne]. rewrite filter_cons_False by congruence.
    apply IH. intros k' x' Hin. apply Hl. by right. }
  destruct (m !! id) as [x|] eqn:Hid.
  - apply Permutation_singleton_r.
    rewrite <- (insert_delete_id m id x Hid), map_to_list_insert by apply lookup_delete_eq.
    cbn [map snd]. rewrite filter_cons_True by by apply Hkeys. rewrite Hnone; [done|].
    intros k y Hin%elem_of_map_to_list. apply lookup_delete_Some in Hin as [Hne Hin].
    split; [by apply Hkeys|done].
  - apply Hnone. intros k x Hin%elem_of_map_to_list. split; [by apply Hkeys|]. congruence.
Qed.

Lemma list_filter_all {A} (l : list A) : filter (λ _, true = true) l = l.
Proof. induction l as [|x l IH]; [done|]. rewrite filter_cons_True by done. by rewrite IH. Qed.

Lemma found_iff {A B C} (v : option A) (b : option B) (c : list C) :
  bool_decide (is_Some v) || bool_decide (is_Some b) || negb (length c =? 0)%nat = true
  ↔ is_Some v ∨ is_Some b ∨ c ≠ [].
Proof.
  destruct v, b, c; cbn; split; intros H; try done;
    first [by left; eexists|by right; left; eexists|by right; right|idtac].
  by destruct H as [[]%is_Some_None|[[]%is_Some_None|]].
Qed.

(** The stores are free and every record can be rendered. *)
Definition chain_unpoisoned (repo : InMemoryChainTxRepository) : Prop :=
  mx_poisoned (tx_verifications repo) = false ∧ mx_poisoned (tx_bindings_by_hash repo) = false ∧
  mx_poisoned (exception_credits repo) = false.

(** Credits are kept under their transaction. *)
Definition credits_keyed (repo : InMemoryChainTxRepository) : Prop :=
  ∀ k c, mx_value (exception_credits repo) !! k = Some c → ec_tx_hash c = k.
Lemma new_store_keyed : credits_keyed InMemoryChainTx_new.
Proof. intros k c Hl. cbn in Hl. by rewrite lookup_empty in Hl. Qed.
Lemma upsert_credit_keyed repo credit :
  credits_keyed repo → credits_keyed (fst (upsert_exception_credit credit repo)).
Proof.
  intros Hk. unfold upsert_exception_credit, in_memory_chain_tx, in_memory_upsert_exception_credit,
    lock. mrun. destruct (mx_poisoned _); [done|]. cbn. intros k c.
  unfold store. cbn. rewrite lookup_insert_Some. intros [[<- <-]|[_ ?]]; [done|by apply Hk].
Qed.

(** What can be shown of the store's records about a transaction. *)
Definition shown_verdict (repo : InMemoryChainTxRepository) (id : string) : option Json :=
  option_bind _ _ (λ v, result_ok (verification_to_value (verification_record v)))
    (mx_value (tx_verifications repo) !! id).
Definition shown_binding (repo : InMemoryChainTxRepository) (id : string) : option Json :=
  option_bind _ _ (λ b, result_ok (binding_to_value b))
    (mx_value (tx_bindings_by_hash repo) !! id ≫= binding_record).
Definition shown_credit (repo : InMemoryChainTxRepository) (id : string) : option Json :=
  option_bind _ _ (λ c, result_ok (credit_to_value (credit_record c)))
    (mx_value (exception_credits repo) !! id).

(** The rendering of the credits about [id] among the first [n]. *)
Lemma credits_about_rendered l id :
  rendered credit_to_value (filter (λ r, ecr_tx_hash r = Some id) (map credit_record l))
  = rendered credit_to_value (map credit_record (filter (λ c, ec_tx_hash c = id) l)).
Proof.
  induction l as [|c l IH]; [done|]. cbn [map]. rewrite !filter_cons. cbn [ecr_tx_hash credit_record].
  destruct (decide (ec_tx_hash c = id)) as [He|He].
  - rewrite decide_True by by rewrite He. unfold rendered in *. cbn [map omap list_omap]. by rewrite IH.
  - rewrite decide_False by congruence. exact IH.
Qed.

Lemma credits_about repo id n :
  credits_keyed repo →
  let all := map snd (map_to_list (mx_value (exception_credits repo))) in
  let answer := rendered credit_to_value
    (filter (λ r, ecr_tx_hash r = Some id) (map credit_record (take n all))) in
  (answer = option_list (shown_credit repo id) ∨ answer = []) ∧
  ((size (mx_value (exception_credits repo)) ≤ n)%nat → answer = option_list (shown_credit repo id)).
Proof.
  intros Hkeys all answer. subst answer. rewrite credits_about_rendered.
  pose proof (values_with_key ec_tx_hash _ id Hkeys) as Hall. fold all in Hall.
  assert (Hone : rendered credit_to_value (map credit_record
      (option_list (mx_value (exception_credits repo) !! id))) = option_list (shown_credit repo id)).
  { unfold shown_credit. destruct (_ !! id); [|done]. cbn. by destruct (result_ok _). }
  split.
  - assert (Hsub : filter (λ c, ec_tx_hash c = id) (take n all)
        `sublist_of` option_list (mx_value (exception_credits repo) !! id)).
    { rewrite <- Hall. rewrite <- (take_drop n all) at 2. rewrite filter_app. by apply sublist_inserts_r. }
    destruct (_ !! id) as [c|] in Hsub, Hone.
    + apply sublist_cons_r in Hsub as [Hsub|(l & Heq & Hsub)]; apply sublist_nil_r in Hsub.
      * right. by rewrite Hsub.
      * left. by rewrite Heq, Hsub.
    + apply sublist_nil_r in Hsub. right. by rewrite Hsub.
  - intros Hsize. rewrite take_ge; [by rewrite Hall|].
    unfold all. by rewrite length_map, length_map_to_list.
Qed.

(** What an administrator sees of a transaction. The answer holds the verdict and
    the binding that the store has for the transaction, and its exception credit, which
    is only looked for among the first hundred credits of all rooms: it is certain to be
    there when there are no more; the transaction is reported as found exactly when one
    of the three can be shown, and asking changes nothing. *)
Theorem audit_tx_reports_the_store repo id
    (Hfree : chain_unpoisoned repo)
    (Hkeys : credits_keyed repo) :
  ∃ r, admin_audit_tx id repo = (repo, Ok r) ∧ at_ok r = true ∧ at_tx_hash r = id ∧
    at_verification r = shown_verdict repo id ∧
    at_tx_binding r = shown_binding repo id ∧
    (at_exception_credits r = option_list (shown_credit repo id) ∨ at_exception_credits r = []) ∧
    ((size (mx_value (exception_credits repo)) ≤ 100)%nat →
       at_exception_credits r = option_list (shown_credit repo id)) ∧
    (at_found r = true ↔
       is_Some (at_verification r) ∨ is_Some (at_tx_binding r) ∨ at_exception_credits r ≠ []).
Proof.
  destruct Hfree as (Hv & Hb & Hc).
  destruct (credits_about repo id 100 Hkeys) as [Hsome Hall].
  eexists. split.
  { unfold admin_audit_tx, try_found, try_list, try_ok. mrun.
    unfold get_tx_verification, get_tx_binding_by_tx_hash, list_exception_credits,
      in_memory_chain_tx_read, in_memory_get_tx_verification, in_memory_get_tx_binding_by_tx_hash,
      in_memory_list_exception_credits, lock. mrun. rewrite Hv, Hb, Hc. cbn -[rendered take]. reflexivity. }
  cbn -[rendered take]. rewrite drop_0.
  rewrite list_filter_all.
  split_and!; [done|done| | |exact Hsome|exact Hall|].
  - unfold shown_verdict. by destruct (_ !! id).
  - reflexivity.
  - apply found_iff.
Qed.
End Transactions.

(** ** Showdown inputs *)

(** What the store of inputs promises to the rest of the application: the provider's
    memory is a part of the world that drawing identifiers and persisting inputs leave
    alone. *)
Class AppProviderLaws {CO : CardOps} (W : Type) {AP : AppProviderWorld W} {FI : FreshIds W}
    : Prop := {
  inner_set (w : W) p : provider_inner (set_provider_inner p w) = p;
  set_inner (w : W) : set_provider_inner (provider_inner w) w = w;
  fresh_keeps_inner (w : W) : provider_inner (fst (fresh_uuid w)) = provider_inner w;
  persist_keeps_inner (w w0 : W) persist r :
    showdown_write_repo w0 = Some persist → provider_inner (fst (persist r w)) = provider_inner w;
}.

Section Inputs.
Context {CO : CardOps} {CT : CardText} {PU : ParseUuid}.
Context {W : Type} {AP : AppProviderWorld W} {CK : Clock W} {FI : FreshIds W}.
Context {AL : AppProviderLaws W}.

(** The inputs the provider holds. *)
Definition held_inputs (w : W) : gmap (RoomId * HandId) ShowdownInput :=
  mx_value (ip_showdown_inputs (provider_inner w)).
Definition inputs_poisoned (w : W) : bool := mx_poisoned (ip_showdown_inputs (provider_inner w)).

Definition is_err {E A} (r : result E A) : bool := bool_decide (result_ok r = None).

(** The repository of inputs, in some state, has refused one. *)
Definition persist_failed : Prop :=
  ∃ w0 w1 persist record e,
    showdown_write_repo w0 = Some persist ∧ snd (persist record w1) = Err e.

(** Storing an input: the provider holds it whatever the repository does. *)
Lemma upsert_holds_the_input room hand input (w w' : W) r :
  app_upsert_showdown_input room hand input w = (w', r) →
  if inputs_poisoned w then w' = w ∧ is_err r = true
  else held_inputs w' = <[(room, hand) := input]> (held_inputs w) ∧ inputs_poisoned w' = false ∧
       (is_err r = true → persist_failed).
Proof.
  unfold app_upsert_showdown_input, on_inner, inner_upsert_showdown_input, poisoned_err, lock,
    inputs_poisoned, held_inputs. mrun.
  destruct (mx_poisoned _) eqn:Hfree; cbn.
  { rewrite set_inner. intros [= <- <-]. done. }
  set (w1 := set_provider_inner _ w).
  assert (Hin : provider_inner w1 = mkInMemoryProvider
      (store (ip_showdown_inputs (provider_inner w)) (<[(room, hand) := input]> (held_inputs w)))
      (ip_seat_addresses (provider_inner w))) by apply inner_set.
  destruct (showdown_write_repo w1) as [persist|] eqn:Hw.
  - unfold showdown_input_to_record, now, new_uuid. mrun.
    pose proof (fresh_keeps_inner w1) as Hf. destruct (fresh_uuid w1) as [w2 u]. cbn in Hf |- *.
    set (record := mkShowdownInputRecord _ _ _ _ _ _ _). intros Hrun.
    pose proof (persist_keeps_inner w2 w1 persist record Hw) as Hp. rewrite Hrun in Hp. cbn in Hp.
    rewrite Hp, Hf, Hin. cbn. split_and!; [done|done|]. intros He.
    destruct r as [|e]; [done|]. exists w1, w2, persist, record, e. split; [done|]. by rewrite Hrun.
  - intros [= <- <-]. rewrite Hin. by split_and!.
Qed.

(** A held input is what the settlement of the hand is given. *)
Lemma held_input_is_used room hand input (w : W) :
  inputs_poisoned w = false → held_inputs w !! (room, hand) = Some input →
  app_get_showdown_input room hand w = (w, Ok (Some input)).
Proof.
  unfold inputs_poisoned, held_inputs. intros Hfree Hl.
  unfold app_get_showdown_input, on_inner, inner_get_showdown_input, poisoned_err, lock. mrun.
  rewrite Hfree. cbn. rewrite Hl, set_inner. done.
Qed.

(** An administrator decides the cards of a hand. An input that can be read is
    from then on the one the settlement of its hand is given, in place of any other for
    that hand, and no other hand's input changes; so it is also when the answer says
    that it was not accepted, which then only means that it could not be persisted.
    An input that cannot be read is refused and changes nothing. *)
Theorem administrators_decide_the_cards id body (w w' : W) r
    (Hrun : admin_upsert_showdown (SA := AppShowdownAdminRepository) id body w = (w', r)) :
  ∃ accepted, r = Ok (mkUpsertedInput true id accepted) ∧
    match result_ok (parse_uuid id), parse_showdown_input body with
    | Some hand, Ok (room, input) =>
        if inputs_poisoned w then accepted = false ∧ w' = w
        else held_inputs w' = <[(room, hand) := input]> (held_inputs w) ∧
             app_get_showdown_input room hand w' = (w', Ok (Some input)) ∧
             (accepted = false → persist_failed)
    | _, _ => accepted = false ∧ w' = w
    end.
Proof.
  revert Hrun. unfold admin_upsert_showdown, try_ok. mrun.
  destruct (result_ok (parse_uuid id)) as [hand|]; [|by intros [= <- <-]; eexists].
  unfold admin_upsert_showdown_input, AppShowdownAdminRepository. mrun.
  destruct (parse_showdown_input body) as [[room input]|e]; [|by intros [= <- <-]; eexists].
  destruct (app_upsert_showdown_input room hand input w) as [w1 r1] eqn:Hup. intros Hrun.
  apply upsert_holds_the_input in Hup.
  assert (w' = w1 ∧ r = Ok (mkUpsertedInput true id (negb (is_err r1)))) as [-> ->].
  { destruct r1; cbn in Hrun; by inversion Hrun. }
  eexists. split; [done|]. destruct (inputs_poisoned w).
  - destruct Hup as [-> ->]. done.
  - destruct Hup as (Hheld & Hfree & Hfail). split_and!; [done| |].
    + apply held_input_is_used; [done|]. by rewrite Hheld, lookup_insert_eq.
    + intros Hn. apply Hfail. by destruct (is_err r1).
Qed.
End Inputs.

(** ** Instances *)

Definition named (name : string) : result string Json := Ok (JStr name).
Definition demo_ops_render : OpsRender := {|
  attempt_to_value _ := named "attempt";
  verification_to_value v := named (tvr_tx_hash v);
  binding_to_value b := named (tbr_tx_hash b);
  credit_to_value c := named (ecr_credit_kind c);
  plan_record_to_value _ := named "plan";
  settlement_record_to_value _ := named "record";
|}.
Definition demo_credit (tx : string) : ExceptionCreditUpsert :=
  mkExceptionCreditUpsert 7 (Some 1) tx ("late " +:+ tx) 5 "open" "late" 9 1.
Definition demo_verdicts : InMemoryChainTxRepository :=
  fst (upsert_tx_verification
         (mkTxVerificationUpsert "0xaa" 7 (Some 3) (Some 1) (Some 2) "failed" 4 None None None
            (Some 5) 9 1) InMemoryChainTx_new).
Definition demo_chain_repo : InMemoryChainTxRepository :=
  fst (upsert_exception_credit (demo_credit "0xbb")
         (fst (upsert_exception_credit (demo_credit "0xaa") demo_verdicts))).

Lemma demo_chain_repo_keyed : credits_keyed demo_chain_repo.
Proof. do 2 apply upsert_credit_keyed. exact new_store_keyed. Qed.

Lemma audit_tx_reports_the_store_witness :
  ∃ r, admin_audit_tx (OR := demo_ops_render) "0xaa" demo_chain_repo = (demo_chain_repo, Ok r) ∧
    at_found r = true ∧ at_verification r = Some (JStr "0xaa") ∧ at_tx_binding r = None ∧
    at_exception_credits r = [JStr "late 0xaa"].
Proof.
  destruct (audit_tx_reports_the_store (OR := demo_ops_render) demo_chain_repo "0xaa")
    as (r & Hr & _ & _ & Hv & Hb & _ & Hc & Hf).
  - by vm_compute.
  - exact demo_chain_repo_keyed.
  - exists r. split_and!; [exact Hr| |by rewrite Hv|by rewrite Hb|].
    + apply Hf. left. rewrite Hv. by eexists.
    + apply Hc. vm_compute. lia.
Defined.

(** Cards are their codes, an identifier is as long as its text; the world is the
    provider and a repository of inputs that refuses. *)
#[local] Instance letter_cards : CardOps :=
  {| Card := N; card_to_u8 := id; card_of_u8 := id |}.
#[local] Instance letter_text : CardText := {|
  card_to_string c := String (Ascii.ascii_of_N c) "";
  flat_hand_from_str s := Ok (map Ascii.N_of_ascii (String.list_ascii_of_string s));
|}.
#[local] Instance length_ids : ParseUuid :=
  {| parse_uuid s := Ok (N.of_nat (String.length s)) |}.
#[local] Instance desk_clock : Clock InMemoryShowdownInputProvider := {| utc_now _ := 0 |}.
#[local] Instance desk_ids : FreshIds InMemoryShowdownInputProvider :=
  {| fresh_uuid := λ w, (w, 0) |}.
#[local] Instance desk : AppProviderWorld InMemoryShowdownInputProvider := {|
  provider_inner w := w;
  set_provider_inner p _ := p;
  showdown_read_repo _ := None;
  showdown_write_repo _ := Some (λ _, throw "refused"%string);
  app_get_engine_state _ := mret None;
  app_bound_seat_addresses _ := mret ∅;
|}.
#[local] Instance desk_laws : AppProviderLaws InMemoryShowdownInputProvider.
Proof. split; [done..|]. by intros w w0 persist r [= <-]. Qed.

Definition demo_input : AdminUpsertShowdownInputRequest :=
  mkUpsertInput "room" "12345" [mkSeatCardsInput 0 "ab"; mkSeatCardsInput 1 "cd"].

Lemma administrators_decide_the_cards_witness :
  let w' := fst (admin_upsert_showdown (SA := AppShowdownAdminRepository) "hand5" demo_input
                   InMemoryProvider_new) in
  snd (admin_upsert_showdown (SA := AppShowdownAdminRepository) "hand5" demo_input
         InMemoryProvider_new) = Ok (mkUpsertedInput true "hand5" false) ∧
  app_get_showdown_input 4 5 w'
  = (w', Ok (Some (mkShowdownInput [49; 50; 51; 52; 53] [(0, (97, 98)); (1, (99, 100))]))).
Proof.
  destruct (administrators_decide_the_cards "hand5" demo_input InMemoryProvider_new _ _
    (surjective_pairing _)) as (accepted & Hr & _ & Hused & _).
  split; [|exact Hused]. by vm_compute.
Defined.
