(* ===== verification/OutboxProps.v ===== *)
(** The outbox delivers: every pending event that can be read is published once, in
    order, and in finitely many ticks; one that cannot be read, or a batch of events
    nobody publishes, stops it. *)

From stdpp Require Import base tactics option list gmap strings.
From Stdlib Require Import NArith Lia.
From S2P Require Import Prelude.
From S2P Require Import Ambient.
From S2P Require Import Text.
From S2P Require Import Domain.
From S2P Require Import LedgerStore.
From S2P Require Import AuditStore.
From S2P Require Import TableService.
From S2P Require Import GatewayTypes.
From S2P Require Import GatewayLimits.
From S2P Require Import EventBusProps.
From S2P Require Import RoomHandles.
From S2P Require Import RoomService.
From S2P Require Import AppSinks.

Local Open Scope N_scope.

Definition pending_of (l : list OutboxEventRecord) : list OutboxEventRecord :=
  filter (λ r, is_pending r = true) l.
Definition id_of (r : OutboxEventRecord) : string := ob_outbox_event_id r.

(** What the publisher needs of its repository and of its bus: in a state that is fine
    the outbox is the one the repository keeps and what is published is sent. *)
Class OutboxLaws (W : Type) `{AuditRepository W} `{EventSubscriptionPort W} := {
  ol_fine : W → Prop;
  ol_outbox : W → list OutboxEventRecord;
  ol_sent : W → list EventEnvelope;
  ol_fetch : ∀ limit w, ol_fine w →
    fetch_pending_outbox_events limit w = (w, Ok (take limit (pending_of (ol_outbox w))));
  ol_publish : ∀ ev w, ol_fine w → ∃ w' n, bus_publish ev w = (w', Ok n) ∧ ol_fine w' ∧
    ol_outbox w' = ol_outbox w ∧ ol_sent w' = ol_sent w ++ [ev];
  ol_mark : ∀ id t w, ol_fine w → ∃ w', mark_outbox_event_delivered id t w = (w', Ok tt) ∧
    ol_fine w' ∧ ol_outbox w' = deliver_first id t (ol_outbox w) ∧ ol_sent w' = ol_sent w;
}.

(** ** Marking *)

Lemma other_ids_stay id l :
  id ∉ (id_of <$> l) → filter (λ r, id_of r ≠ id) (pending_of l) = pending_of l.
Proof.
  unfold pending_of. induction l as [|r l IH]; [done|]. rewrite fmap_cons, not_elem_of_cons.
  intros [Hne Hn]. rewrite !filter_cons. case_decide; [|by apply IH].
  rewrite filter_cons_True by congruence. by rewrite IH.
Qed.

Lemma pending_deliver_first id t l :
  NoDup (id_of <$> l) →
  pending_of (deliver_first id t l) = filter (λ r, id_of r ≠ id) (pending_of l).
Proof.
  induction l as [|r l IH]; intros Hnd; [done|].
  rewrite fmap_cons, NoDup_cons in Hnd. destruct Hnd as [Hr Hnd]. cbn [deliver_first].
  destruct (String.eqb_spec (ob_outbox_event_id r) id) as [<-|Hne].
  - unfold pending_of at 1. rewrite filter_cons_False by done. change (ob_outbox_event_id r) with (id_of r).
    rewrite <- (other_ids_stay (id_of r) l Hr) at 1. unfold pending_of at 2. rewrite filter_cons.
    case_decide; [|done]. rewrite filter_cons_False; [done|]. by intros Hn; apply Hn.
  - unfold pending_of at 1 2. rewrite !filter_cons. case_decide; [|by apply IH].
    rewrite filter_cons_True by done. f_equal. by apply IH.
Qed.

Lemma deliver_first_ids id t l : id_of <$> deliver_first id t l = id_of <$> l.
Proof.
  induction l as [|r l IH]; [done|]. cbn [deliver_first]. case_match; [done|].
  by rewrite !fmap_cons, IH.
Qed.

Section Publisher.
Context {EC : EventCodec} {W : Type} {AR : AuditRepository W} {EB : EventSubscriptionPort W}.
Context {CK : Clock W} {OL : OutboxLaws W}.

Definition classify (r : OutboxEventRecord) : result string (option EventEnvelope) :=
  to_event_envelope (ob_topic r) (ob_payload_json r).
(** The event of a record, when it has one. *)
Definition event_of (r : OutboxEventRecord) : option EventEnvelope :=
  match classify r with Ok o => o | Err _ => None end.
(** The records before the first that cannot be read. *)
Fixpoint readable (l : list OutboxEventRecord) : list OutboxEventRecord :=
  match l with
  | [] => []
  | r :: l => match classify r with Ok _ => r :: readable l | Err _ => [] end
  end.
Definition published_ids (l : list OutboxEventRecord) : list string :=
  id_of <$> filter (λ r, is_Some (event_of r)) l.

(** The outbox as the publisher leaves it: the same records, fewer of them pending. *)
Record left_by (l : list OutboxEventRecord) (w w' : W) : Prop := {
  lb_fine : ol_fine w';
  lb_ids : id_of <$> ol_outbox w' = id_of <$> ol_outbox w;
  lb_pending : pending_of (ol_outbox w')
               = filter (λ r, id_of r ∉ published_ids l) (pending_of (ol_outbox w));
  lb_sent : ol_sent w' = ol_sent w ++ omap event_of l;
}.

Lemma filter_filter_ids a b (l : list OutboxEventRecord) :
  filter (λ r, id_of r ∉ b) (filter (λ r, id_of r ≠ a) l) = filter (λ r, id_of r ∉ a :: b) l.
Proof.
  rewrite list_filter_filter. apply list_filter_iff. intros r. rewrite not_elem_of_cons. naive_solver.
Qed.

Lemma filter_no_ids (l : list OutboxEventRecord) : filter (λ r, id_of r ∉ []) l = l.
Proof.
  induction l as [|r l IH]; [done|]. rewrite filter_cons_True by apply not_elem_of_nil. by rewrite IH.
Qed.

Definition all_readable (l : list OutboxEventRecord) : bool :=
  forallb (λ r, match classify r with Ok _ => true | Err _ => false end) l.

(** One record that can be read. *)
Lemma publish_record_run n rec w o :
  ol_fine w → NoDup (id_of <$> ol_outbox w) → classify rec = Ok o →
  ∃ w', publish_record n rec w = (w', Ok (n + length (omap event_of [rec]))%nat) ∧
    left_by [rec] w w'.
Proof.
  intros Hw Hnd Hc. unfold publish_record. fold (classify rec). rewrite Hc. cbn.
  unfold event_of. rewrite Hc. destruct o as [env|]; mrun.
  - destruct (ol_publish env w Hw) as (w1 & m & Hp & Hw1 & Ho1 & Hs1). rewrite Hp.
    unfold now, audit_result. mrun. fold (id_of rec).
    destruct (ol_mark (id_of rec) (utc_now w1) w1 Hw1) as (w2 & Hm & Hw2 & Ho2 & Hs2).
    unfold id_of in *. rewrite Hm. eexists. split; [by rewrite Nat.add_1_r|].
    split; [done| | |].
    + by rewrite Ho2, deliver_first_ids, Ho1.
    + rewrite Ho2, Ho1, pending_deliver_first by done. unfold published_ids.
      rewrite filter_cons_True by (unfold event_of; rewrite Hc; by eexists).
      apply list_filter_iff. intros r. cbn. rewrite not_elem_of_cons.
      pose proof (not_elem_of_nil (A := string) (id_of r)). naive_solver.
    + cbn. unfold event_of. rewrite Hc. by rewrite Hs2, Hs1.
  - eexists. split; [by rewrite Nat.add_0_r|]. split; [done|done| |].
    + unfold published_ids. rewrite filter_cons_False; [by rewrite filter_no_ids|].
      unfold event_of. rewrite Hc. by intros [].
    + cbn. unfold event_of. rewrite Hc. by rewrite app_nil_r.
Qed.

Lemma left_by_app l1 l2 w w1 w2 : left_by l1 w w1 → left_by l2 w1 w2 → left_by (l1 ++ l2) w w2.
Proof.
  intros [_ Hi1 Hp1 Hs1] [Hf Hi2 Hp2 Hs2]. split; [done|congruence| |].
  - rewrite Hp2, Hp1, list_filter_filter. apply list_filter_iff. intros r. unfold published_ids.
    rewrite filter_app, fmap_app, elem_of_app. naive_solver.
  - by rewrite Hs2, Hs1, omap_app, app_assoc.
Qed.

Lemma left_by_nil w : ol_fine w → left_by [] w w.
Proof. split; [done|done| |]; cbn; [by rewrite filter_no_ids|by rewrite app_nil_r]. Qed.

Lemma publish_records_run records : ∀ n w,
  ol_fine w → NoDup (id_of <$> ol_outbox w) →
  ∃ w' r, publish_records n records w = (w', r) ∧ left_by (readable records) w w' ∧
    if all_readable records then r = Ok (n + length (omap event_of records))%nat
    else ∃ e, r = Err e.
Proof.
  induction records as [|rec records IH]; intros n w Hw Hnd.
  - exists w, (Ok n). split; [done|]. split; [by apply left_by_nil|]. by rewrite Nat.add_0_r.
  - cbn [publish_records readable all_readable forallb]. mrun.
    destruct (classify rec) as [o|e] eqn:Hc.
    + destruct (publish_record_run n rec w o Hw Hnd Hc) as (w1 & Hrun & Hleft). rewrite Hrun.
      destruct (IH (n + length (omap event_of [rec]))%nat w1) as (w2 & r & Hrun2 & Hleft2 & Hr).
      { apply Hleft. } { by rewrite (lb_ids _ _ _ Hleft). }
      exists w2, r. split; [done|]. split; [by apply (left_by_app [rec] _ w w1 w2)|].
      fold (all_readable records). destruct (all_readable records); [|done]. rewrite Hr. f_equal.
      change (rec :: records) with ([rec] ++ records). rewrite omap_app, length_app. lia.
    + exists w, (Err e). split; [|split; [by apply left_by_nil|by eexists]].
      unfold publish_record. fold (classify rec). by rewrite Hc.
Qed.

(** The records a tick looks at. *)
Definition batch (limit : nat) (w : W) : list OutboxEventRecord :=
  take limit (pending_of (ol_outbox w)).

Lemma publish_once_run limit w :
  ol_fine w → NoDup (id_of <$> ol_outbox w) →
  ∃ w' r, publish_pending_outbox_once limit w = (w', r) ∧ left_by (readable (batch limit w)) w w' ∧
    if all_readable (batch limit w) then r = Ok (length (omap event_of (batch limit w)))
    else ∃ e, r = Err e.
Proof.
  intros Hw Hnd. unfold publish_pending_outbox_once, audit_result. mrun. rewrite ol_fetch by done.
  exact (publish_records_run (batch limit w) 0 w Hw Hnd).
Qed.

Lemma ticks_run limit ticks w :
  outbox_ticks limit (S ticks) w = outbox_ticks limit ticks (fst (publish_pending_outbox_once limit w)).
Proof. reflexivity. Qed.

Lemma pending_NoDup l : NoDup (id_of <$> l) → NoDup (id_of <$> pending_of l).
Proof.
  unfold pending_of. induction l as [|r l IH]; [done|]. rewrite fmap_cons, NoDup_cons. intros [Hr Hnd].
  rewrite filter_cons. case_decide; [|by apply IH]. rewrite fmap_cons, NoDup_cons.
  split; [|by apply IH]. intros (x & Hx & Hin)%list_elem_of_fmap. apply Hr, list_elem_of_fmap.
  exists x. split; [done|]. by apply list_elem_of_filter in Hin as [_ ?].
Qed.

Lemma filter_absent_id a ids (l : list OutboxEventRecord) :
  a ∉ (id_of <$> l) → filter (λ r, id_of r ∉ a :: ids) l = filter (λ r, id_of r ∉ ids) l.
Proof.
  induction l as [|r l IH]; [done|]. rewrite fmap_cons, not_elem_of_cons. intros [Hne Hn].
  rewrite !filter_cons, IH by done. destruct (decide (id_of r ∈ ids)) as [Hin|Hin].
  - rewrite !decide_False; [done| |]; rewrite ?not_elem_of_cons; naive_solver.
  - rewrite !decide_True; [done| |]; rewrite ?not_elem_of_cons; naive_solver.
Qed.

(** What is left after a batch of events is the rest. *)
Lemma rest_after_batch k (l : list OutboxEventRecord) :
  NoDup (id_of <$> l) → Forall (λ r, is_Some (event_of r)) l →
  filter (λ r, id_of r ∉ published_ids (take k l)) l = drop k l.
Proof.
  unfold published_ids. revert l. induction k as [|k IH]; intros l Hnd Hall.
  - cbn. apply filter_no_ids.
  - destruct l as [|r l]; [done|]. rewrite fmap_cons, NoDup_cons in Hnd. destruct Hnd as [Hr Hnd].
    apply Forall_cons in Hall as [Hev Hall]. cbn [take drop].
    rewrite (filter_cons_True (λ r, is_Some (event_of r))) by done. rewrite fmap_cons.
    rewrite filter_cons_False by (rewrite not_elem_of_cons; by intros []).
    rewrite filter_absent_id by done. by apply IH.
Qed.

Lemma events_readable l : Forall (λ r, is_Some (event_of r)) l → readable l = l.
Proof.
  induction 1 as [|r l [e He] _ IH]; [done|]. cbn. unfold event_of in He.
  destruct (classify r); [by rewrite IH|done].
Qed.

(** The outbox empties. When every pending record holds an event, a number of
    ticks that is enough for their number leaves none pending and has sent each of
    their events exactly once, in the order of the outbox and after what was sent
    before. *)
Lemma outbox_empties limit ticks w
    (Hfine : ol_fine w) (Hids : NoDup (id_of <$> ol_outbox w))
    (Hevents : Forall (λ r, is_Some (event_of r)) (pending_of (ol_outbox w)))
    (Henough : (length (pending_of (ol_outbox w)) ≤ ticks * limit)%nat) :
  ∃ w', outbox_ticks limit ticks w = (w', Ok tt) ∧ pending_of (ol_outbox w') = [] ∧
    ol_sent w' = ol_sent w ++ omap event_of (pending_of (ol_outbox w)).
Proof.
  revert w Hfine Hids Hevents Henough. induction ticks as [|ticks IH]; intros w Hfine Hids Hev Hlen.
  - exists w. split; [done|]. destruct (pending_of (ol_outbox w)); [|cbn in Hlen; lia].
    by rewrite app_nil_r.
  - rewrite ticks_run. destruct (publish_once_run limit w Hfine Hids) as (w1 & r & Hrun & Hleft & _).
    rewrite Hrun. cbn [fst]. unfold batch in Hleft.
    rewrite events_readable in Hleft by by apply Forall_take.
    destruct Hleft as [Hf1 Hi1 Hp1 Hs1]. rewrite rest_after_batch in Hp1 by (try apply pending_NoDup; done).
    destruct (IH w1) as (w2 & Hticks & Hp2 & Hs2); [done|by rewrite Hi1| | |].
    + rewrite Hp1. by apply Forall_drop.
    + rewrite Hp1, length_drop. lia.
    + exists w2. split; [done|]. split; [done|]. rewrite Hs2, Hs1, Hp1, <- app_assoc, <- omap_app.
      by rewrite take_drop.
Qed.

(** An outbox can be stuck. When no event comes before the first record that
    cannot be read, or none at all among the records a tick looks at, no number of
    ticks sends anything, however many events wait behind. *)
Theorem blocked_outbox_stays_blocked limit ticks w
    (Hfine : ol_fine w) (Hids : NoDup (id_of <$> ol_outbox w))
    (Hblocked : omap event_of (readable (batch limit w)) = []) :
  ∃ w', outbox_ticks limit ticks w = (w', Ok tt) ∧ ol_sent w' = ol_sent w ∧
    pending_of (ol_outbox w') = pending_of (ol_outbox w).
Proof.
  revert w Hfine Hids Hblocked. induction ticks as [|ticks IH]; intros w Hfine Hids Hblocked; [by exists w|].
  rewrite ticks_run. destruct (publish_once_run limit w Hfine Hids) as (w1 & r & Hrun & Hleft & _).
  rewrite Hrun. cbn [fst]. destruct Hleft as [Hf1 Hi1 Hp1 Hs1].
  assert (pending_of (ol_outbox w1) = pending_of (ol_outbox w)) as Hsame.
  { rewrite Hp1. assert (published_ids (readable (batch limit w)) = []) as ->; [|apply filter_no_ids].
    unfold published_ids. clear - Hblocked. induction (readable (batch limit w)) as [|x l IHl]; [done|].
    cbn in Hblocked. destruct (event_of x) eqn:Hx; [done|].
    rewrite filter_cons_False; [by apply IHl|]. rewrite Hx. by intros []. }
  rewrite Hblocked, app_nil_r in Hs1.
  destruct (IH w1) as (w2 & Hticks & Hs2 & Hp2); [done|by rewrite Hi1|unfold batch in *; by rewrite Hsame|].
  exists w2. split; [done|]. split; congruence.
Qed.
End Publisher.

(** ** The in-memory repository and the in-memory bus *)

Section InMemory.
Context {W : Type} `{FreshIds W} {UT : UuidText}.

(** The repository, and the bus with the world around it. *)
Abbreviation Office := (InMemoryAuditRepository * (InMemoryEventBus * W))%type (only parsing).

Definition on_repo {E A} (m : M InMemoryAuditRepository E A) : M Office E A :=
  λ '(repo, x), let '(repo, r) := m repo in ((repo, x), r).
Definition on_bus {E A} (m : M (InMemoryEventBus * W) E A) : M Office E A :=
  λ '(repo, x), let '(x, r) := m x in ((repo, x), r).

#[export] Instance office_audit : AuditRepository Office := {|
  insert_action_attempt r := on_repo (insert_action_attempt r);
  insert_behavior_event r := on_repo (insert_behavior_event r);
  append_hand_events l := on_repo (append_hand_events l);
  insert_outbox_event r := on_repo (insert_outbox_event r);
  fetch_pending_outbox_events n := on_repo (fetch_pending_outbox_events n);
  mark_outbox_event_delivered id t := on_repo (mark_outbox_event_delivered id t);
|}.
#[export] Instance office_bus : EventSubscriptionPort Office := {|
  bus_subscribe r := on_bus (bus_subscribe r);
  bus_unsubscribe id := on_bus (bus_unsubscribe id);
  bus_publish ev := on_bus (bus_publish ev);
|}.

#[export] Program Instance office_laws : OutboxLaws Office := {|
  ol_fine w := mx_poisoned (outbox_events (fst w)) = false ∧ bus_unpoisoned (fst (snd w));
  ol_outbox w := mx_value (outbox_events (fst w));
  ol_sent w := mx_value (published_events (fst (snd w)));
|}.
Next Obligation.
  intros limit [repo x] [Hr _]. cbn in *. unfold in_memory_fetch_pending, audit_lock, lock. mrun.
  by rewrite Hr.
Qed.
Next Obligation.
  intros ev [repo [b w]] [Hr Hb]. cbn in *.
  destruct (publish_eq ev b w Hb) as (b' & n & Heq & Hb' & _ & Hp & _). rewrite Heq.
  by exists (repo, (b', w)), n.
Qed.
Next Obligation.
  intros id t [repo x] [Hr Hb]. cbn in *. unfold in_memory_mark_delivered, audit_lock, lock. mrun.
  rewrite Hr. by eexists.
Qed.
End InMemory.

#[local] Existing Instances counting_ids counting_text.
#[local] Instance office_clock : Clock (InMemoryAuditRepository * (InMemoryEventBus * N)) :=
  {| utc_now w := snd (snd w) |}.
#[local] Instance office_codec : EventCodec := {|
  hand_event_to_value e := Ok (json_N (he_event_seq e));
  hand_event_from_value j :=
    match j with
    | JNum n => Ok (mkHandEvent 7 8 (Z.to_N n) 0 0 HandClosed)
    | _ => Err "invalid type"%string
    end;
  seat_event_from_value _ := Err "invalid type"%string;
  behavior_kind_to_value _ := Err ""%string;
|}.

Definition demo_record (id topic : string) (payload : Json) : OutboxEventRecord :=
  mkOutboxEvent id topic "7" payload "pending" 0 0 None 0.
Definition demo_office (records : list OutboxEventRecord)
    : InMemoryAuditRepository * (InMemoryEventBus * N) :=
  (mkInMemoryAudit (mkMutex false []) (mkMutex false []) (mkMutex false []) (mkMutex false records),
   (InMemoryEventBus_new, 0)).
Definition demo_hand_records : list OutboxEventRecord :=
  [demo_record "a" "hand.events" (JNum 1); demo_record "b" "hand.events" (JNum 2);
   demo_record "c" "hand.events" (JNum 3)]%string.
Definition demo_closed (n : Z) : EventEnvelope :=
  mkEvent HandEvents 7 (Some 8) None "hand_closed" (JNum n).

(** Three events in two ticks of two. *)
Lemma outbox_empties_witness :
  ∃ w', outbox_ticks 2 2 (demo_office demo_hand_records) = (w', Ok tt) ∧
    pending_of (ol_outbox w') = [] ∧ ol_sent w' = [demo_closed 1; demo_closed 2; demo_closed 3].
Proof.
  destruct (outbox_empties 2 2 (demo_office demo_hand_records)) as (w' & Hrun & Hp & Hs).
  - split; [reflexivity|]. split; reflexivity.
  - apply (bool_decide_unpack _). vm_compute. exact I.
  - repeat constructor; eexists; reflexivity.
  - vm_compute. lia.
  - exists w'. split; [exact Hrun|]. split; [exact Hp|]. rewrite Hs. vm_compute. reflexivity.
Defined.

(** An event whose payload cannot be read holds up the one behind it. *)
Lemma blocked_outbox_stays_blocked_witness :
  let w := demo_office (demo_record "bad" "hand.events" JNull :: demo_hand_records) in
  ∃ w', outbox_ticks 100 1000 w = (w', Ok tt) ∧ ol_sent w' = [] ∧
    length (pending_of (ol_outbox w')) = 4%nat.
Proof.
  intros w. destruct (blocked_outbox_stays_blocked 100 1000 w) as (w' & Hrun & Hs & Hp).
  - split; [reflexivity|]. split; reflexivity.
  - apply (bool_decide_unpack _). vm_compute. exact I.
  - vm_compute. reflexivity.
  - exists w'. split; [exact Hrun|]. split; [rewrite Hs; reflexivity|rewrite Hp; reflexivity].
Defined.
