(* ===== verification/SeatClient.v ===== *)
(** The program of one seat ([headless-agent-client/src/bin/single_seat_client.rs]): its
    environment, its reads of the server, the turns it plays and the loop around its
    event stream.

    The loop of [main] is a state machine: one step connects and subscribes, reads one
    frame while it waits for an acknowledgement, or serves one input of [select!]. The
    stream, the environment and the order in which inputs arrive belong to the world;
    tracing is left out. *)

From stdpp Require Import base tactics option list gmap strings pretty.
From Stdlib Require Import NArith ZArith Lia Ascii.
From S2P Require Import Prelude.
From S2P Require Import Text.
From S2P Require Import Domain.
From S2P Require Import Ambient.
From S2P Require Import JsonRpc.
From S2P Require Import AgentAuth.
From S2P Require Import ChainWatcher.
From S2P Require Import SeatCrypto.
From S2P Require Import GatewayTypes.
From S2P Require Import OpsHttp.
From S2P Require Import AgentSdk.
From S2P Require Import AgentClient.
From S2P Require Import AgentRuntime.

Local Open Scope N_scope.

(** ** Errors *)

(** [anyhow::Error], as far as the program tells errors apart: a message, a failed call
    with its cause, or an error of the runs. *)
Inductive AnyhowError :=
| Bail (message : string)
| CallFailed (method cause : string)
| FromRuntime (e : RuntimeError).

(** ** Texts *)

Fixpoint strip_text_prefix (p s : string) : option string :=
  match p, s with
  | EmptyString, _ => Some s
  | String a p, String b s => if Ascii.eqb a b then strip_text_prefix p s else None
  | _, EmptyString => None
  end.

(** [str::split_whitespace]: [word] is what has been read of a word. *)
Fixpoint split_words (word s : string) : list string :=
  match s with
  | EmptyString => if String.eqb word "" then [] else [word]
  | String c s =>
      if is_space c then (if String.eqb word "" then [] else [word]) ++ split_words "" s
      else split_words (word +:+ String c EmptyString) s
  end.
Definition split_whitespace : string → list string := split_words "".

Definition parse_u64_dec : string → result string N := from_str_radix 10 dec_value u64_max.

(** ** The environment *)

Section Environment.
(** [env::var(name).ok()] *)
Context (env_var : string → option string).

Definition env_required (name : string) : result AnyhowError string :=
  v ← ok_or (Bail ("missing required env: " +:+ name)) (env_var name);
  if String.eqb (trim v) "" then Err (Bail ("required env " +:+ name +:+ " is empty")) else Ok v.

Definition env_optional (name : string) : option string :=
  v ← env_var name; if String.eqb (trim v) "" then None else Some v.

Definition env_parse_u64 (name : string) (dflt : N) : result AnyhowError N :=
  match env_optional name with
  | Some v => result_map_err (λ _, Bail ("invalid " +:+ name +:+ ": " +:+ v)) (parse_u64_dec v)
  | None => Ok dflt
  end.

Definition env_parse_room_id_optional `{ParseUuid} (name : string)
    : result AnyhowError (option RoomId) :=
  match env_optional name with
  | None => Ok None
  | Some raw =>
      id ← result_map_err (λ _, Bail ("invalid " +:+ name +:+ ": " +:+ raw)) (parse_uuid raw);
      Ok (Some id)
  end.

(** The seat is cut down to eight bits ([as u8]). *)
Definition build_config (chain_id : N) (room_id : RoomId) : result AnyhowError SingleActionRunnerConfig :=
  rpc_endpoint ← env_required "RPC_ENDPOINT";
  seat_id ← env_parse_u64 "SEAT_ID" 0;
  seat_address ← env_required "SEAT_ADDRESS";
  room_chain_address ← env_required "ROOM_CHAIN_ADDRESS";
  tx_value ← env_parse_u64 "TX_VALUE" 1;
  card_encrypt_pubkey_hex ← env_required "CARD_ENCRYPT_PUBKEY_HEX";
  Ok (mkRunnerConfig rpc_endpoint room_id (wrapping u8_max seat_id) seat_address
        room_chain_address chain_id tx_value card_encrypt_pubkey_hex
        (env_optional "CARD_ENCRYPT_SECRET_HEX")).

Inductive PolicyMode := ModeRule | ModeCodexCli.
Definition parse_policy_mode : PolicyMode :=
  if String.eqb (to_ascii_lowercase (default "rule"%string (env_optional "POLICY_MODE"))) "codex_cli"
  then ModeCodexCli else ModeRule.

Definition parse_codex_cli_args : list string :=
  match env_optional "CODEX_CLI_ARGS" with
  | Some v => filter (λ s, negb (String.eqb s "") = true) (split_whitespace v)
  | None => []
  end.
End Environment.

Definition derive_ws_endpoint (http_endpoint : string) : string :=
  match strip_text_prefix "http://" http_endpoint with
  | Some rest => "ws://" +:+ rest
  | None =>
      match strip_text_prefix "https://" http_endpoint with
      | Some rest => "wss://" +:+ rest
      | None => http_endpoint
      end
  end.

(** ** What the program shows *)

(** The program's own copy of the function of the same name of its runs. *)
Definition card_index_to_notation (index : N) : option string :=
  if 52 <=? index then None
  else
    value ← match index mod 13 with
            | 0 => Some "2" | 1 => Some "3" | 2 => Some "4" | 3 => Some "5" | 4 => Some "6"
            | 5 => Some "7" | 6 => Some "8" | 7 => Some "9" | 8 => Some "T" | 9 => Some "J"
            | 10 => Some "Q" | 11 => Some "K" | 12 => Some "A" | _ => None
            end%string;
    suit ← match index / 13 with
           | 0 => Some "s" | 1 => Some "c" | 2 => Some "h" | 3 => Some "d" | _ => None
           end%string;
    Some (value +:+ suit).

(** [?] in a loop over a vector: one failure fails the whole. *)
Fixpoint collect_all {A B} (f : A → option B) (l : list A) : option (list B) :=
  match l with
  | [] => Some []
  | x :: l => y ← f x; ys ← collect_all f l; Some (y :: ys)
  end.

Definition pretty_hole_cards (private_state : Json) : option (list (list string)) :=
  entries ← json_get "decrypted_hole_cards" private_state ≫= as_array;
  collect_all (λ entry,
    cards ← json_get "cards" entry ≫= as_array;
    collect_all (λ c, idx ← as_u64 c; card_index_to_notation idx) cards) entries.

Definition board_cards_pretty_from_raw (board_cards : list N) : list string :=
  omap card_index_to_notation board_cards.

(** [card.split_at(card.len() - 1)] of a text that is not empty. *)
Fixpoint split_last (c : ascii) (s : string) : string * ascii :=
  match s with
  | EmptyString => (EmptyString, c)
  | String d s => let '(front, last) := split_last d s in (String c front, last)
  end.
Definition notation_with_suit_symbols (card : string) : string :=
  match card with
  | EmptyString | String _ EmptyString => card
  | String c rest =>
      let '(rank, suit) := split_last c rest in
      rank +:+ (if Ascii.eqb suit "s" then "♠"
                else if Ascii.eqb suit "c" then "♣"
                else if Ascii.eqb suit "h" then "♥"
                else if Ascii.eqb suit "d" then "♦"
                else String suit EmptyString)
  end.
Definition hole_cards_with_suit_symbols (pretty_cards : list (list string)) : list (list string) :=
  map (map notation_with_suit_symbols) pretty_cards.

Definition WEI_PER_ETH : N := 1000000000000000000.
(** [format!("{n:018}")] *)
Fixpoint zeros (n : nat) : string :=
  match n with O => EmptyString | S n => String "0" (zeros n) end.
Definition pad18 (n : N) : string := zeros (18 - String.length (pretty n)) +:+ pretty n.
(** [while s.ends_with('0') { s.pop(); }] *)
Fixpoint strip_zeros (s : string) : string :=
  match s with
  | EmptyString => EmptyString
  | String c s =>
      match strip_zeros s with
      | EmptyString => if Ascii.eqb c "0" then EmptyString else String c EmptyString
      | t => String c t
      end
  end.
Definition format_wei_as_eth (wei : N) : string :=
  let whole := wei / WEI_PER_ETH in
  let frac := wei mod WEI_PER_ETH in
  if frac =? 0 then pretty whole +:+ ".0 ETH"
  else pretty whole +:+ "." +:+ strip_zeros (pad18 frac) +:+ " ETH".

Definition payload_u64 (payload : Json) (key : string) : option N :=
  v ← json_get key payload;
  match as_u64 v with
  | Some n => Some n
  | None =>
      match as_i64 v ≫= (λ z, if (0 <=? z)%Z then Some (Z.to_N z) else None) with
      | Some n => Some n
      | None => as_str v ≫= (λ s, match parse_u64_dec s with Ok n => Some n | Err _ => None end)
      end
  end.

Definition parse_x25519_secret_hex `{HexDecode} (secret_hex : string) : result AnyhowError Bytes :=
  bytes ← ok_or (Bail "invalid CARD_ENCRYPT_SECRET_HEX") (from_hex secret_hex);
  if (length bytes =? 32)%nat then Ok (map (λ n, default Byte.x00 (Byte.of_N n)) bytes)
  else Err (Bail "CARD_ENCRYPT_SECRET_HEX must decode to 32 bytes").

Definition envelope_ok {T} (env : ResponseEnvelope T) (method : string) : result AnyhowError T :=
  if negb (env_ok env) then
    Err (Bail (method +:+ " failed: "
      +:+ from_option (λ e, error_code_debug (err_code e) +:+ ": " +:+ err_message e)
            "unknown app error" (env_error env)))
  else ok_or (Bail (method +:+ " missing data payload")) (env_data env).

(** ** Data *)

Record ObservedHandState := mkObserved {
  oh_hand_id : HandId;
  oh_status : HandStatus;
  oh_acting_seat_id : option SeatId;
  oh_action_seq : ActionSeq;
}.
#[export] Instance ObservedHandState_eq_dec : EqDecision ObservedHandState.
Proof. solve_decision. Defined.

Definition TurnKey : Type := HandId * ActionSeq.

(** The variables of [main] that its calls change. *)
Record Client := mkClient {
  cl_decision_ctx : DecisionContextManager;
  cl_last_attempted_turn : option TurnKey;
  cl_last_observed : option ObservedHandState;
  cl_synced_hands : gset HandId;
}.
Definition set_attempted (turn : option TurnKey) (c : Client) : Client :=
  mkClient (cl_decision_ctx c) turn (cl_last_observed c) (cl_synced_hands c).
Definition set_observed (observed : ObservedHandState) (c : Client) : Client :=
  mkClient (cl_decision_ctx c) (cl_last_attempted_turn c) (Some observed) (cl_synced_hands c).
Definition add_synced (hand_id : HandId) (c : Client) : Client :=
  mkClient (cl_decision_ctx c) (cl_last_attempted_turn c) (cl_last_observed c)
    ({[hand_id]} ∪ cl_synced_hands c).
Definition push_context (entry : DecisionContextEntry) (c : Client) : Client :=
  mkClient (push entry (cl_decision_ctx c)) (cl_last_attempted_turn c) (cl_last_observed c)
    (cl_synced_hands c).

(** What travels only between this program and the server. *)
Class SeatClientCodec := {
  room_list_to_value : RoomListRequest → Json;
  rooms_reply_from_value : Json → result string (ResponseEnvelope (list RoomSummary));
  subscribe_to_value : SubscribeRequest → Json;
  event_from_value : Json → option EventEnvelope;
  json_from_str : string → option Json;
  context_to_value : list DecisionContextEntry → Json;
}.

Inductive WsMessage := WsText (text : string) | WsPing (payload : string) | WsPong (payload : string)
| WsClose | WsOther.
(** An input of [tokio::select!]. *)
Inductive Selected :=
| SelectedCtrlC | SelectedTick | SelectedFrame (frame : option (result string WsMessage)).

(** A new connection replaces the old one. *)
Class WsPort (W : Type) := {
  connect_async : string → M W string unit;
  ws_send : WsMessage → M W string unit;
  ws_next : W → W * option (result string WsMessage);
  select_next : W → W * Selected;
}.

(** ** Calls of the server *)

Section Calls.
Context {W : Type} {TR : JsonRpcTransport W} {CC : ClientCodec} {SCC : SeatClientCodec}.

Definition http_rpc_call {T} (from_value : Json → result string T) (endpoint method : string)
    (params : Json) : M W AnyhowError T :=
  payload ← M_map_err (CallFailed method) (post_json endpoint (rpc_body method params));
  match json_get "error" payload with
  | Some err =>
      throw (Bail ("json-rpc " +:+ method +:+ " returned error: " +:+ json_display err))
  | None =>
      res ← lift_result (ok_or (Bail ("json-rpc " +:+ method +:+ " missing result"))
                           (json_get "result" payload));
      lift_result (result_map_err (CallFailed method) (from_value res))
  end.

(** The first active room, or else the first one. *)
Definition select_room (rooms : list RoomSummary) : option RoomSummary :=
  match list_find (λ r, eq_ignore_ascii_case (sum_status r) "active" = true) rooms with
  | Some (_, r) => Some r
  | None => head rooms
  end.
Definition resolve_room_id (rpc_endpoint : string) (room_id_from_env : option RoomId)
    : M W AnyhowError RoomId :=
  match room_id_from_env with
  | Some room_id => mret room_id
  | None =>
      list_env ← http_rpc_call rooms_reply_from_value rpc_endpoint "room.list"
                   (room_list_to_value (mkRoomList (Some true)));
      if negb (env_ok list_env) then
        throw (Bail ("room.list failed: "
          +:+ from_option (λ e, error_code_debug (err_code e) +:+ ": " +:+ err_message e)
                "unknown app error" (env_error list_env)))
      else
        let rooms := default [] (env_data list_env) in
        match rooms with
        | [] => throw (Bail "room.list returned no rooms; provide ROOM_ID or create a room first")
        | _ =>
            selected ← lift_result
              (ok_or (Bail "room.list returned no selectable room") (select_room rooms));
            mret (sum_room_id selected)
        end
  end.
End Calls.

(** ** What a client does *)

Section Client.
Context {HD : HexDecode} {UT : UuidText} {JT : JsonText} {DT : DateTimeText}.
Context {SC : SeatCryptoPrimitives} {CC : ClientCodec} {SCC : SeatClientCodec}.
Context {W : Type} {TR : JsonRpcTransport W} {CK : Clock W} {FI : FreshIds W}.
Context {WA : WalletAdapter W} {CP : CodexProcess W}.
Context (cfg : SingleActionRunnerConfig) (policy_mode : PolicyMode).

Abbreviation C A := (M (Client * W) AnyhowError A) (only parsing).

Definition with_world {A} (m : M W AnyhowError A) : C A :=
  λ '(c, w), let '(w, r) := m w in ((c, w), r).
Definition runs {A} (m : M W RuntimeError A) : C A := with_world (M_map_err FromRuntime m).
Definition client_gets {A} (f : Client → A) : C A := λ s, (s, Ok (f (fst s))).
Definition client_sets (f : Client → Client) : C unit := modify (λ '(c, w), (f c, w)).

(** [http_rpc_call] with the request's encoding, and [envelope_ok]. *)
Definition call_method {R T} (to_value : R → result string Json)
    (from_value : Json → result string (ResponseEnvelope T)) (method : string) (req : R) : C T :=
  params ← lift_result (result_map_err Bail (to_value req));
  env ← with_world (http_rpc_call from_value (rn_rpc_endpoint cfg) method params);
  lift_result (envelope_ok env method).
Definition read_state : C (option HandSnapshot) :=
  call_method get_state_to_value state_reply_from_value "game.get_state"
    (mkGetState (rn_room_id cfg) None (Some (rn_seat_id cfg))).

Definition is_closed (status : HandStatus) : bool :=
  match status with HSettled | HAborted => true | _ => false end.

Definition observed_state (state : HandSnapshot) : ObservedHandState :=
  mkObserved (hs_hand_id state) (hs_status state) (hs_acting_seat_id state)
    (hs_next_action_seq state).

(** A hand that is not the observed one clears the last attempted turn. *)
Definition forget_old_hand (observed : ObservedHandState) (c : Client) : Client :=
  match cl_last_observed c with
  | Some prev =>
      if bool_decide (oh_hand_id prev = oh_hand_id observed) then c else set_attempted None c
  | None => c
  end.
Definition newly_closed (observed : ObservedHandState) (last : option ObservedHandState) : bool :=
  is_closed (oh_status observed) && negb (from_option (λ v, is_closed (oh_status v)) false last).

(** After [game.get_state] found a hand. *)
Definition record_hand_state (state : HandSnapshot) : C unit :=
  let observed := observed_state state in
  last ← client_gets cl_last_observed;
  client_sets (forget_old_hand observed);;
  M_when (newly_closed observed last) (ignore_error (runs (prepare_seat cfg)));;
  client_sets (set_observed observed).
Definition poll_room_hand_state : C unit :=
  found ← read_state;
  match found with
  | None => mret tt
  | Some state => record_hand_state state
  end.

(** One event of the loop of [sync_hole_cards_for_hand]. *)
Definition decrypt_event (secret : Bytes) (event : PrivatePayloadEvent) : option Json :=
  if negb (String.eqb (pp_event_name event) "hole_cards_dealt") then None
  else
    match hole_cards_from_value (pp_payload event) with
    | Err _ => None
    | Ok payload =>
        match decrypt_with_recipient_x25519 secret (hc_aad payload) (hc_envelope payload) with
        | Err _ => None
        | Ok plaintext =>
            match json_from_slice plaintext with
            | Err _ => None
            | Ok v => Some v
            end
        end
    end.

Definition sync_hole_cards_for_hand (hand_id : HandId) : C unit :=
  synced_hands ← client_gets cl_synced_hands;
  if bool_decide (hand_id ∈ synced_hands) then mret tt
  else
    match rn_card_encrypt_secret_hex cfg with
    | None => mret tt
    | Some secret_hex =>
        secret ← lift_result (parse_x25519_secret_hex secret_hex);
        events ← call_method get_private_to_value private_reply_from_value
          "game.get_private_payloads"
          (mkGetPrivate (rn_room_id cfg) (rn_seat_id cfg) (Some hand_id));
        match omap (decrypt_event secret) events with
        | [] => mret tt
        | _ => client_sets (add_synced hand_id)
        end
    end.
Definition sync_hole_cards_for_current_hand : C unit :=
  found ← read_state;
  match found with
  | None => mret tt
  | Some state =>
      match hs_status state with
      | HRunning | HShowdown | HSettling => sync_hole_cards_for_hand (hs_hand_id state)
      | _ => mret tt
      end
  end.

(** *** Turns *)

Definition turn_key (turn : TurnDecisionInput) : TurnKey := (td_hand_id turn, td_action_seq turn).
(** [format!("{:?}", action_type).to_ascii_lowercase()] *)
Definition action_debug_lower (action_type : ActionType) : string :=
  match action_type with
  | Fold => "fold" | Check => "check" | Call => "call" | RaiseTo => "raiseto" | AllIn => "allin"
  end.

(** [.await.ok().flatten()] *)
Definition decided {A} (m : M W PolicyAdapterError (option A)) : C (option A) :=
  λ '(c, w), let '(w, r) := m w in
    ((c, w), Ok (match r with Ok o => o | Err _ => None end)).
Definition rule_decides_turn (turn : TurnDecisionInput) : C (option PolicyDecision) :=
  decided (decide_action (PolicyAdapter := RulePolicyAdapter) (td_policy_input turn)).
Definition choose_decision (turn : TurnDecisionInput) : C (option PolicyDecision) :=
  match policy_mode with
  | ModeRule => rule_decides_turn turn
  | ModeCodexCli =>
      found ← decided (decide_action (PolicyAdapter := CodexCliPolicyAdapter) (td_policy_input turn));
      match found with
      | Some v => mret (Some v)
      | None => rule_decides_turn turn
      end
  end.

(** The turn is read once more before it is played: what the second read finds. *)
Definition reread_turn : C (option TurnDecisionInput) :=
  λ '(c, w), let '(w, r) := collect_turn_decision_input cfg None w in
    ((c, w), Ok (match r with Ok o => o | Err _ => None end)).

(** [maybe_execute_turn] down to the write of [last_attempted_turn]: the turn to be
    played, if there is one, and the decision. *)
Definition choose_turn : C (option (TurnDecisionInput * PolicyDecision)) :=
  entries ← client_gets (λ c, dm_entries (cl_decision_ctx c));
  found ← runs (collect_turn_decision_input cfg (Some (context_to_value entries)));
  match found with
  | None => mret None
  | Some turn =>
      attempted ← client_gets cl_last_attempted_turn;
      if bool_decide (attempted = Some (turn_key turn)) then mret None
      else
        decision ← choose_decision turn;
        match decision with
        | None => mret None
        | Some decision =>
            latest ← reread_turn;
            match latest with
            | None => mret None
            | Some latest_turn =>
                if bool_decide (turn_key latest_turn = turn_key turn)
                then mret (Some (turn, decision)) else mret None
            end
        end
  end.

(** [RuntimeError::Http(_) | RuntimeError::Wallet(_)] *)
Definition is_transient (e : RuntimeError) : bool :=
  match e with RtHttp _ | RtWallet _ => true | _ => false end.

Definition context_entry (turn : TurnDecisionInput) (decision : PolicyDecision)
    : DecisionContextEntry :=
  mkContextEntry (td_hand_id turn) (pi_seat_id (td_policy_input turn))
    (pi_legal_actions (td_policy_input turn)) (Some (action_debug_lower (pd_action_type decision)))
    (pd_rationale decision).
Definition after_attempt (turn : TurnDecisionInput) (decision : PolicyDecision)
    (outcome : result RuntimeError SingleActionRunOutcome) (c : Client) : Client :=
  match outcome with
  | Ok _ => push_context (context_entry turn decision) c
  | Err e => if is_transient e then set_attempted None c else c
  end.
(** The outcome of a run that is matched upon. *)
Definition outcome_of {A} (m : M W RuntimeError A) : C (result RuntimeError A) :=
  λ '(c, w), let '(w, r) := m w in ((c, w), Ok r).
(** The rest of [maybe_execute_turn]. *)
Definition submit_turn (turn : TurnDecisionInput) (decision : PolicyDecision) : C unit :=
  client_sets (set_attempted (Some (turn_key turn)));;
  outcome ← outcome_of (execute_turn_decision cfg turn decision);
  client_sets (after_attempt turn decision outcome).
Definition maybe_execute_turn : C unit :=
  chosen ← choose_turn;
  match chosen with
  | None => mret tt
  | Some (turn, decision) => submit_turn turn decision
  end.

(** *** Events *)

(** The errors of these calls are logged. *)
Definition logged {A} (m : C A) : C unit := ignore_error m.

(** [value["params"]["result"]] of a notification named [events], read as an event. *)
Definition event_of_frame (text : string) : option EventEnvelope :=
  value ← json_from_str text;
  method ← json_get "method" value ≫= as_str;
  if negb (String.eqb method "events") then None
  else
    event_json ← json_get "params" value ≫= json_get "result";
    event_from_value event_json.

Definition announces_cards (event_name : string) : bool :=
  String.eqb event_name "hand_started" || String.eqb event_name "turn_started"
  || String.eqb event_name "hole_cards_dealt".

Definition on_event (event : EventEnvelope) : C unit :=
  match ev_hand_id event with
  | Some hand_id =>
      M_when (announces_cards (ev_event_name event)) (logged (sync_hole_cards_for_hand hand_id))
  | None => mret tt
  end;;
  M_when (String.eqb (ev_event_name event) "hand_closed") (logged poll_room_hand_state);;
  M_when (String.eqb (ev_event_name event) "turn_started") (logged maybe_execute_turn).
Definition on_text (text : string) : C unit :=
  match event_of_frame text with
  | None => mret tt
  | Some event => on_event event
  end.

Definition on_tick : C unit :=
  logged poll_room_hand_state;; logged sync_hole_cards_for_current_hand;; logged maybe_execute_turn.

(** What is done once both subscriptions stand. *)
Definition on_subscribed : C unit :=
  logged sync_hole_cards_for_current_hand;; logged poll_room_hand_state;; logged maybe_execute_turn.

(** ** The loop of [main] *)

Context {WS : WsPort W} {TM : Timer W}.
Context (ws_endpoint : string) (safety_poll_ms : N).

Inductive Topic := TopicHand | TopicSeat.
Inductive MainPhase := Connecting | AwaitingAck (topic : Topic) | Serving | Exited | Panicked.
Record MainState := mkMain {
  ms_phase : MainPhase;
  ms_reconnect_backoff_ms : N;
  ms_client : Client;
}.

(** *** [subscribe_events] *)

Definition request_id (topic : Topic) : N := match topic with TopicHand => 1 | TopicSeat => 2 end.
Definition subscribe_request (topic : Topic) : SubscribeRequest :=
  match topic with
  | TopicHand => mkSubscribe HandEvents (rn_room_id cfg) None None
  | TopicSeat => mkSubscribe SeatEvents (rn_room_id cfg) None (Some (rn_seat_id cfg))
  end.
Definition subscribe_body (topic : Topic) : Json :=
  JObj [("jsonrpc", JStr "2.0"); ("id", json_N (request_id topic));
        ("method", JStr "subscribe.events.native");
        ("params", subscribe_to_value (subscribe_request topic))]%string.
Definition send_subscribe (topic : Topic) : M W string unit :=
  ws_send (WsText (json_display (subscribe_body topic))).

Definition orelse {A} (o p : option A) : option A := match o with Some a => Some a | None => p end.
(** The identifier in a reply, in one of the shapes that the program takes. *)
Definition subscription_id (value : Json) : option string :=
  result ← json_get "result" value;
  orelse (as_str result)
    (orelse (pretty <$> as_u64 result)
       (orelse (pretty <$> as_i64 result)
          (orelse (json_get "data" result ≫= as_str)
             (json_get "subscription_id" result ≫= as_str)))).

Definition json_is_N (j : option Json) (n : N) : bool :=
  match j with Some (JNum z) => Z.eqb z (Z.of_N n) | _ => false end.
(** What one frame says to the wait for the reply: nothing, an error, or the
    identifier of the subscription. *)
Definition ack_of_frame (id : N) (frame : option (result string WsMessage))
    : option (result AnyhowError string) :=
  match frame with
  | None => Some (Err (Bail "websocket closed before subscribe acknowledged"))
  | Some (Err _) => Some (Err (Bail "websocket read failed while waiting subscribe response"))
  | Some (Ok (WsText text)) =>
      match json_from_str text with
      | None => Some (Err (Bail "invalid websocket json frame"))
      | Some value =>
          if negb (json_is_N (json_get "id" value) id) then None
          else
            Some (match json_get "error" value with
                  | Some err =>
                      Err (Bail ("websocket subscribe returned error: " +:+ json_display err))
                  | None =>
                      ok_or (Bail ("websocket subscribe response missing subscription id: "
                               +:+ json_display value)) (subscription_id value)
                  end)
      end
  | Some (Ok _) => None
  end.

(** *** One step *)

Definition enter (phase : MainPhase) (m : MainState) : MainState :=
  mkMain phase (ms_reconnect_backoff_ms m) (ms_client m).
Definition set_backoff (ms : N) (m : MainState) : MainState :=
  mkMain (ms_phase m) ms (ms_client m).
(** A failed subscription waits half a second before the next connection. *)
Definition subscribe_failed (m : MainState) (w : W) : MainState * W :=
  (enter Connecting m, sleep_ms 500 w).
Definition start_subscribe (topic : Topic) (m : MainState) (w : W) : MainState * W :=
  match send_subscribe topic w with
  | (w, Ok _) => (enter (AwaitingAck topic) m, w)
  | (w, Err _) => subscribe_failed m w
  end.
Definition run_job (m : MainState) (job : C unit) (w : W) : MainState * W :=
  let '((c, w), _) := job (ms_client m, w) in
  (mkMain (ms_phase m) (ms_reconnect_backoff_ms m) c, w).

Definition connect_step (m : MainState) (w : W) : MainState * W :=
  match connect_async ws_endpoint w with
  | (w, Ok _) => start_subscribe TopicHand (set_backoff 500 m) w
  | (w, Err _) =>
      let backoff := ms_reconnect_backoff_ms m in
      (set_backoff (N.min (sat_mul u64_max backoff 2) 10000) m, sleep_ms backoff w)
  end.

(** [tokio::time::interval] panics on a period of zero. *)
Definition subscribed (m : MainState) (w : W) : MainState * W :=
  let '(m, w) := run_job m on_subscribed w in
  (enter (if safety_poll_ms =? 0 then Panicked else Serving) m, w).
Definition ack_step (topic : Topic) (m : MainState) (w : W) : MainState * W :=
  let '(w, frame) := ws_next w in
  match ack_of_frame (request_id topic) frame with
  | None => (m, w)
  | Some (Err _) => subscribe_failed m w
  | Some (Ok _) =>
      match topic with
      | TopicHand => start_subscribe TopicSeat m w
      | TopicSeat => subscribed m w
      end
  end.

Definition serve_step (m : MainState) (w : W) : MainState * W :=
  let '(w, selected) := select_next w in
  match selected with
  | SelectedCtrlC => (enter Exited m, w)
  | SelectedTick => run_job m on_tick w
  | SelectedFrame (Some (Ok (WsText text))) => run_job m (on_text text) w
  | SelectedFrame (Some (Ok (WsPing payload))) =>
      match ws_send (WsPong payload) w with
      | (w, Ok _) => (m, w)
      | (w, Err _) => (enter Connecting m, w)
      end
  | SelectedFrame (Some (Ok WsClose)) => (enter Connecting m, w)
  | SelectedFrame (Some (Ok _)) => (m, w)
  | SelectedFrame (Some (Err _)) | SelectedFrame None => (enter Connecting m, w)
  end.

Definition main_step (s : MainState * W) : MainState * W :=
  let '(m, w) := s in
  match ms_phase m with
  | Connecting => connect_step m w
  | AwaitingAck topic => ack_step topic m w
  | Serving => serve_step m w
  | Exited | Panicked => (m, w)
  end.
End Client.

(** ** Start-up *)

Record MainConfig := mkMainConfig {
  mc_runner : SingleActionRunnerConfig;
  mc_policy_mode : PolicyMode;
  mc_ws_endpoint : string;
  mc_wallet_rpc : string;
  mc_policy_timeout_ms : N;
  mc_safety_poll_ms : N;
  mc_context_max_entries : N;
  mc_codex_cli_bin : string;
  mc_codex_cli_args : list string;
}.

Definition read_main_config {W} `{JsonRpcTransport W} `{ClientCodec} `{SeatClientCodec} `{ParseUuid}
    (env_var : string → option string) : M W AnyhowError MainConfig :=
  let wallet_rpc := default "http://127.0.0.1:8545"%string (env_optional env_var "WALLET_RPC_URL") in
  chain_id ← lift_result (env_parse_u64 env_var "CHAIN_ID" 31337);
  policy_timeout_ms ← lift_result (env_parse_u64 env_var "POLICY_TIMEOUT_MS" 180000);
  safety_poll_ms ← lift_result (env_parse_u64 env_var "CLIENT_SAFETY_POLL_MS" 2000);
  context_max_entries ← lift_result (env_parse_u64 env_var "POLICY_CONTEXT_MAX_ENTRIES" 16);
  rpc_endpoint ← lift_result (env_required env_var "RPC_ENDPOINT");
  room_id_from_env ← lift_result (env_parse_room_id_optional env_var "ROOM_ID");
  room_id ← resolve_room_id rpc_endpoint room_id_from_env;
  cfg ← lift_result (build_config env_var chain_id room_id);
  mret (mkMainConfig cfg (parse_policy_mode env_var)
    (default (derive_ws_endpoint (rn_rpc_endpoint cfg)) (env_optional env_var "RPC_WS_ENDPOINT"))
    wallet_rpc policy_timeout_ms safety_poll_ms context_max_entries
    (default "codex"%string (env_optional env_var "CODEX_CLI_BIN")) (parse_codex_cli_args env_var)).

Definition initial_client (context_max_entries : nat) : Client :=
  mkClient (with_max_entries context_max_entries) None None ∅.
Definition initial_state (config : MainConfig) : MainState :=
  mkMain Connecting 500 (initial_client (N.to_nat (mc_context_max_entries config))).
