(* ===== verification/SeatClientProps.v ===== *)
(** The program of one seat plays a turn once, plays only what it was offered, and
    keeps its loop going; amounts that it shows can be read back. *)

From stdpp Require Import base tactics option list gmap strings pretty.
From Stdlib Require Import NArith ZArith Lia Ascii.
From S2P Require Import Prelude.
From S2P Require Import Text.
From S2P Require Import Domain.
From S2P Require Import Ambient.
From S2P Require Import JsonRpc.
From S2P Require Import AgentAuth.
From S2P Require Import ChainWatcher.
From S2P Require Import SeatCrypto.
From S2P Require Import GatewayTypes.
From S2P Require Import AgentSdk.
From S2P Require Import AgentClient.
From S2P Require Import AgentRuntime.
From S2P Require Import SeatClient.

Local Open Scope N_scope.

Section Client.
Context {HD : HexDecode} {UT : UuidText} {JT : JsonText} {DT : DateTimeText}.
Context {SC : SeatCryptoPrimitives} {CC : ClientCodec} {SCC : SeatClientCodec}.
Context {W : Type} {TR : JsonRpcTransport W} {CK : Clock W} {FI : FreshIds W}.
Context {WA : WalletAdapter W} {CP : CodexProcess W} {WS : WsPort W} {TM : Timer W}.
Context (cfg : SingleActionRunnerConfig) (policy_mode : PolicyMode).
Context (ws_endpoint : string) (safety_poll_ms : N).
Abbreviation state := (Client * W)%type.
Implicit Types s : state.

(** ** What the parts leave alone *)

(** A computation that may change the world but not the client. *)
Definition only_world {A} (m : M state AnyhowError A) : Prop :=
  ∀ s, fst (fst (m s)) = fst s.

Lemma only_world_ret {A} (x : A) : only_world (mret x).
Proof. by intros s. Qed.
Lemma only_world_throw {A} e : only_world (throw (A := A) e).
Proof. by intros s. Qed.
Lemma only_world_lift {A} (r : result AnyhowError A) : only_world (lift_result r).
Proof. by intros s. Qed.
Lemma only_world_get {A} (f : Client → A) : only_world (client_gets f).
Proof. by intros s. Qed.
Lemma only_world_with {A} (m : M W AnyhowError A) : only_world (with_world m).
Proof. intros [c w]. unfold with_world. by destruct (m w). Qed.
Lemma only_world_bind {A B} (m : M state AnyhowError A) (k : A → M state AnyhowError B) :
  only_world m → (∀ x, only_world (k x)) → only_world (m ≫= k).
Proof.
  intros Hm Hk s. unfold mbind, M_mbind, M_bind. specialize (Hm s).
  destruct (m s) as [s1 [x|e]]; cbn in Hm |- *; [|done]. by rewrite Hk.
Qed.
Lemma only_world_decided {A} (m : M W PolicyAdapterError (option A)) : only_world (decided m).
Proof. intros [c w]. unfold decided. by destruct (m w). Qed.
Lemma only_world_reread : only_world (reread_turn cfg).
Proof. intros [c w]. unfold reread_turn. by destruct (collect_turn_decision_input _ _ w). Qed.
Lemma only_world_outcome {A} (m : M W RuntimeError A) : only_world (outcome_of m).
Proof. intros [c w]. unfold outcome_of. by destruct (m w). Qed.
Lemma only_world_ignore {A} (m : M state AnyhowError A) : only_world m → only_world (logged m).
Proof. intros Hm s. unfold logged, ignore_error. apply Hm. Qed.
Lemma only_world_when b (m : M state AnyhowError unit) : only_world m → only_world (M_when b m).
Proof. intros Hm s. unfold M_when. destruct b; [apply Hm|done]. Qed.

#[local] Hint Resolve only_world_ret only_world_throw only_world_lift only_world_get
  only_world_with only_world_bind only_world_decided only_world_reread only_world_outcome
  only_world_ignore only_world_when : core.

Lemma only_world_runs {A} (m : M W RuntimeError A) : only_world (runs m).
Proof. apply only_world_with. Qed.
#[local] Hint Resolve only_world_runs : core.

Lemma only_world_call {R T} (to_value : R → result string Json)
    (from_value : Json → result string (ResponseEnvelope T)) method req :
  only_world (call_method cfg to_value from_value method req).
Proof. unfold call_method. apply only_world_bind; [done|]. intros. apply only_world_bind; auto. Qed.
#[local] Hint Resolve only_world_call : core.

Lemma choose_turn_keeps : only_world (choose_turn cfg policy_mode).
Proof.
  unfold choose_turn. apply only_world_bind; [auto|]. intros entries.
  apply only_world_bind; [auto|]. intros [turn|]; [|auto].
  apply only_world_bind; [auto|]. intros attempted. destruct (bool_decide _); [auto|].
  apply only_world_bind.
  { unfold choose_decision, rule_decides_turn. destruct policy_mode; [auto|].
    apply only_world_bind; [auto|]. intros [d|]; auto. }
  intros [d|]; [|auto]. apply only_world_bind; [auto|]. intros [latest|]; [|auto].
  destruct (bool_decide _); auto.
Qed.

(** *** Steps that keep the last attempted turn *)

Definition same_attempt (c c' : Client) : Prop :=
  cl_last_attempted_turn c' = cl_last_attempted_turn c.

Lemma sync_hand_keeps hand_id s :
  same_attempt (fst s) (fst (fst (sync_hole_cards_for_hand cfg hand_id s))).
Proof.
  unfold sync_hole_cards_for_hand, same_attempt. unfold mbind at 1, M_mbind, M_bind, client_gets at 1.
  destruct (bool_decide _); [done|]. destruct (rn_card_encrypt_secret_hex cfg) as [secret_hex|]; [|done].
  unfold mbind at 1, M_mbind, M_bind, lift_result at 1.
  destruct (parse_x25519_secret_hex secret_hex) as [secret|e]; [|done].
  unfold mbind at 1, M_mbind, M_bind.
  match goal with |- context [call_method cfg ?t ?f ?m ?r s] =>
    pose proof (only_world_call t f m r s) as Hcall; destruct (call_method cfg t f m r s) as [[c w] [events|e]]
  end; cbn in Hcall |- *; [|by rewrite Hcall].
  destruct (omap (decrypt_event secret) events); cbn; by rewrite Hcall.
Qed.

Lemma sync_current_keeps s :
  same_attempt (fst s) (fst (fst (sync_hole_cards_for_current_hand cfg s))).
Proof.
  unfold sync_hole_cards_for_current_hand, mbind at 1, M_mbind, M_bind, read_state.
  match goal with |- context [call_method cfg ?t ?f ?m ?r s] =>
    pose proof (only_world_call t f m r s) as Hcall; destruct (call_method cfg t f m r s) as [s1 [found|e]]
  end; cbn in Hcall |- *; [|by unfold same_attempt; rewrite Hcall].
  rewrite <- Hcall. destruct found as [state|]; [|done].
  destruct (hs_status state); solve [done | apply sync_hand_keeps].
Qed.

(** A read of the state found another hand than the one before. *)
Definition sees_new_hand (c c' : Client) : bool :=
  match cl_last_observed c, cl_last_observed c' with
  | Some prev, Some observed => negb (bool_decide (oh_hand_id prev = oh_hand_id observed))
  | _, _ => false
  end.

Lemma poll_turn s :
  let c' := fst (fst (poll_room_hand_state cfg s)) in
  if sees_new_hand (fst s) c' then cl_last_attempted_turn c' = None else same_attempt (fst s) c'.
Proof.
  assert (Hsame : ∀ c, if sees_new_hand c c then cl_last_attempted_turn c = None else same_attempt c c).
  { intros c. unfold sees_new_hand. destruct (cl_last_observed c); [|done]. by rewrite bool_decide_true. }
  destruct (poll_room_hand_state cfg s) as [[c' w'] r] eqn:Hpoll. cbn -[sees_new_hand same_attempt].
  unfold poll_room_hand_state, mbind at 1, M_mbind, M_bind, read_state in Hpoll.
  match type of Hpoll with context [call_method cfg ?t ?f ?m ?r s] =>
    pose proof (only_world_call t f m r s) as Hcall; destruct (call_method cfg t f m r s) as [[c w] [found|e]]
  end; cbn in Hcall; subst c; [|injection Hpoll as <- _ _; apply Hsame].
  destruct found as [st|]; [|injection Hpoll as <- _ _; apply Hsame]. revert Hpoll.
  unfold record_hand_state, mbind, M_mbind, M_bind, client_gets, client_sets, modify. cbn.
  set (c1 := forget_old_hand (observed_state st) (fst s)). unfold M_when.
  assert (∃ w', (if newly_closed (observed_state st) (cl_last_observed (fst s))
     then ignore_error (E':=AnyhowError) (runs (prepare_seat cfg)) (c1, w) else ((c1, w), Ok ())) = ((c1, w'), Ok tt)) as [w2 ->].
  { destruct (newly_closed _ _); [|by eexists]. rewrite ignore_error_ok.
    pose proof (only_world_runs (prepare_seat cfg) (c1, w)) as Hk.
    destruct (runs (prepare_seat cfg) (c1, w)) as [[c2 w2] r2]. cbn in Hk |- *. subst c2. by eexists. }
  intros [= <- _ _]. unfold sees_new_hand, same_attempt, c1, forget_old_hand. cbn.
  destruct (cl_last_observed (fst s)) as [prev|]; [|done]. cbn.
  by destruct (bool_decide (oh_hand_id prev = hs_hand_id st)).
Qed.

(** ** What is chosen *)

Lemma rule_decision_offers input d :
  rule_decision input = Some d → offers (pi_legal_actions input) (action_name (pd_action_type d)) = true.
Proof.
  unfold rule_decision. destruct (offers _ "check") eqn:H1; [by intros [= <-]|].
  destruct (offers _ "call") eqn:H2; [by intros [= <-]|].
  destruct (offers _ "fold") eqn:H3; [by intros [= <-]|done].
Qed.

Lemma codex_decision_offers input stdout d :
  codex_decision input stdout = Ok (Some d) →
  offers (pi_legal_actions input) (action_name (pd_action_type d)) = true.
Proof.
  unfold codex_decision, mbind, result_mbind, result_bind.
  destruct (ok_or InvalidDecision (match codex_raw_from_str stdout with Some raw => Some raw | None => _ end))
    as [raw|e]; [|done].
  destruct (ok_or InvalidDecision (parse_policy_action (cd_action_type raw))) as [action_type|e]; [|done].
  destruct (offers _ _) eqn:Hoff; cbn [negb]; [|done].
  destruct (parse_policy_amount (cd_amount raw)); [|done]. by intros [= <-].
Qed.

Lemma decided_ok {A} (m : M W PolicyAdapterError (option A)) s s' x :
  decided m s = (s', Ok (Some x)) → ∃ w w', m w = (w', Ok (Some x)).
Proof.
  destruct s as [c w]. unfold decided. destruct (m w) as [w' [[y|]|e]] eqn:Hm; intros [= <- H]; try done.
  subst. by exists w, w'.
Qed.

Lemma rule_turn_offers turn s s' d :
  rule_decides_turn turn s = (s', Ok (Some d)) →
  offers (pi_legal_actions (td_policy_input turn)) (action_name (pd_action_type d)) = true.
Proof. intros (w & w' & [= _ H])%decided_ok. by apply rule_decision_offers. Qed.

Lemma decision_offers turn s s' d :
  choose_decision policy_mode turn s = (s', Ok (Some d)) →
  offers (pi_legal_actions (td_policy_input turn)) (action_name (pd_action_type d)) = true.
Proof.
  unfold choose_decision. destruct policy_mode; [apply rule_turn_offers|].
  unfold mbind at 1, M_mbind, M_bind.
  destruct (decided _ s) as [s1 [[v|]|e]] eqn:Hd; [|apply rule_turn_offers|done].
  intros [= _ <-]. apply decided_ok in Hd as (w & w' & Hd). cbn in Hd.
  unfold mbind, M_mbind, M_bind, M_map_err, lift_result in Hd.
  destruct (codex_output _ w) as [w2 [stdout|e]]; cbn in Hd; [|done].
  injection Hd as _ Hd. by apply codex_decision_offers in Hd.
Qed.

(** A read of the seat's own turn, from the world [w] to [w']: the server's state names
    the seat of the client, and the turn is the hand and the action number of that
    state, with the actions that the server then lists. *)
Definition own_turn_read (w : W) (turn : TurnDecisionInput) (w' : W) : Prop :=
  let endpoint := rn_rpc_endpoint cfg in
  let room := rn_room_id cfg in
  let seat := rn_seat_id cfg in
  ∃ st w1 w2 env1 env2 env3,
    call_server get_state_to_value state_reply_from_value endpoint "game.get_state"
      (mkGetState room None (Some seat)) w = (w1, Ok env1) ∧
    client_envelope_ok env1 = Ok (Some st) ∧
    hs_acting_seat_id st = Some seat ∧
    call_server get_legal_to_value legal_reply_from_value endpoint "game.get_legal_actions"
      (mkGetLegal room seat) w1 = (w2, Ok env2) ∧
    client_envelope_ok env2 = Ok (td_legal_actions_raw turn) ∧
    call_server get_private_to_value private_reply_from_value endpoint "game.get_private_payloads"
      (mkGetPrivate room seat (Some (hs_hand_id st))) w2 = (w', Ok env3) ∧
    td_hand_id turn = hs_hand_id st ∧ td_action_seq turn = hs_next_action_seq st ∧
    pi_legal_actions (td_policy_input turn)
    = map (λ a, action_name (la_action_type a)) (td_legal_actions_raw turn).

Lemma collect_reads_own_turn context w w' turn :
  collect_turn_decision_input cfg context w = (w', Ok (Some turn)) → own_turn_read w turn w'.
Proof.
  unfold collect_turn_decision_input, with_skill, connect_skill, skilled, in_world, skill_connect, join_room,
    build_get_state_request, build_get_legal_actions_request, seat_context, set_seat_ctx. mrun. cbn.
  destruct (call_server get_state_to_value _ _ _ _ w) as [w1 [env1|e]] eqn:H1; cbn; [|done].
  destruct (client_envelope_ok env1) as [[st|]|e] eqn:He1; cbn; [|done|done].
  destruct (bool_decide _) eqn:Hown; cbn; [|done]. apply bool_decide_eq_true in Hown.
  destruct (call_server get_legal_to_value _ _ _ _ w1) as [w2 [env2|e]] eqn:H2; cbn; [|done].
  destruct (client_envelope_ok env2) as [raw|e] eqn:He2; cbn; [|done].
  destruct (call_server get_private_to_value _ _ _ _ w2) as [w3 [env3|e]] eqn:H3; cbn; [|done].
  destruct (client_envelope_ok env3) as [events|e]; cbn; [|done].
  destruct (build_private_state_json _ _) as [private|e]; cbn; [|done]. intros [= <- <-].
  exists st, w1, w2, env1, env2, env3. cbn. by repeat split.
Qed.

Lemma offered_action raw ty :
  offers (map (λ a, action_name (la_action_type a)) raw) (action_name ty) = true →
  ∃ la, la ∈ raw ∧ la_action_type la = ty.
Proof.
  unfold offers. intros (name & Hin & Hname)%existsb_exists.
  apply in_map_iff in Hin as (la & <- & Hla). exists la. split; [by apply list_elem_of_In|].
  apply String.eqb_eq in Hname. by destruct (la_action_type la), ty.
Qed.

(** What is known of a turn that is about to be played: it was read as the seat's own, a
    decision was made upon it, and then it was read as the seat's own once more. *)
Definition chosen_soundly (s s' : state) (turn : TurnDecisionInput) (decision : PolicyDecision) : Prop :=
  cl_last_attempted_turn (fst s) ≠ Some (turn_key turn) ∧
  ∃ w1 w2 latest,
    own_turn_read (snd s) turn w1 ∧
    choose_decision policy_mode turn (fst s, w1) = ((fst s, w2), Ok (Some decision)) ∧
    (∃ la, la ∈ td_legal_actions_raw turn ∧ la_action_type la = pd_action_type decision) ∧
    own_turn_read w2 latest (snd s') ∧ turn_key latest = turn_key turn.

Lemma runs_ok {A} (m : M W RuntimeError A) s s' x :
  runs m s = (s', Ok x) → fst s' = fst s ∧ m (snd s) = (snd s', Ok x).
Proof.
  destruct s as [c w]. unfold runs, with_world, M_map_err. cbn.
  destruct (m w) as [w' [y|e]]; cbn; by intros [= <- <-].
Qed.

Lemma choose_decision_keeps turn : only_world (choose_decision policy_mode turn).
Proof.
  unfold choose_decision, rule_decides_turn. destruct policy_mode; [auto|].
  apply only_world_bind; [auto|]. intros [d|]; auto.
Qed.

Lemma choose_turn_sound s s' turn decision :
  choose_turn cfg policy_mode s = (s', Ok (Some (turn, decision))) → chosen_soundly s s' turn decision.
Proof.
  unfold choose_turn. intros H.
  unfold mbind at 1, M_mbind, M_bind, client_gets at 1 in H. cbn beta iota in H.
  unfold mbind at 1, M_mbind, M_bind in H.
  destruct (runs _ s) as [s1 [[t|]|e]] eqn:Hruns; [|done|done].
  apply runs_ok in Hruns as [Hc1 Hcollect].
  unfold mbind at 1, M_mbind, M_bind, client_gets at 1 in H. cbn beta iota in H.
  destruct (bool_decide _) eqn:Hdup in H; [done|]. apply bool_decide_eq_false in Hdup.
  unfold mbind at 1, M_mbind, M_bind in H.
  pose proof (choose_decision_keeps t s1) as Hkeep.
  destruct (choose_decision policy_mode t s1) as [s2 [[d|]|e]] eqn:Hdec; [|done|done].
  unfold mbind at 1, M_mbind, M_bind in H.
  destruct (reread_turn cfg s2) as [s3 [[latest|]|e]] eqn:Hre; [|done|done].
  destruct (bool_decide _) eqn:Hsame in H; [|done]. apply bool_decide_eq_true in Hsame.
  injection H as <- <- <-. split; [by rewrite <- Hc1|].
  pose proof (decision_offers t s1 s2 d Hdec) as Hoff.
  destruct s1 as [c1 w1], s2 as [c2 w2]. cbn in Hc1, Hkeep, Hcollect. subst c1 c2.
  unfold reread_turn in Hre.
  destruct (collect_turn_decision_input cfg None w2) as [w4 [o|e]] eqn:Hlatest; [|done].
  injection Hre as <- ->. apply collect_reads_own_turn in Hcollect, Hlatest.
  exists w1, w2, latest. split; [done|]. split; [done|]. split; [|done].
  destruct Hcollect as (? & ? & ? & ? & ? & ? & _ & _ & _ & _ & _ & _ & _ & _ & Hnames).
  rewrite Hnames in Hoff. by apply offered_action.
Qed.

(** ** Runs *)

(** What can be told of a run: a turn was played (and failed in a way that the client
    takes for transient), or a new hand was seen. *)
Inductive Label := Attempted (key : TurnKey) (transient : bool) | NewHand.

(** What the loop does beside its calls on the client. *)
Inductive world_moves : W → W → Prop :=
| moves_connect w : world_moves w (fst (connect_async ws_endpoint w))
| moves_send msg w : world_moves w (fst (ws_send msg w))
| moves_next w : world_moves w (fst (ws_next w))
| moves_select w : world_moves w (fst (select_next w))
| moves_sleep ms w : world_moves w (sleep_ms ms w).

Definition fails_transiently {A} (r : result RuntimeError A) : bool :=
  match r with Ok _ => false | Err e => is_transient e end.

Inductive client_step : state → list Label → state → Prop :=
| step_world c w w' : world_moves w w' → client_step (c, w) [] (c, w')
| step_poll s :
    let s' := fst (poll_room_hand_state cfg s) in
    client_step s (if sees_new_hand (fst s) (fst s') then [NewHand] else []) s'
| step_sync_hand hand_id s : client_step s [] (fst (sync_hole_cards_for_hand cfg hand_id s))
| step_sync_current s : client_step s [] (fst (sync_hole_cards_for_current_hand cfg s))
| step_pass s s' r :
    choose_turn cfg policy_mode s = (s', r) → (∀ chosen, r ≠ Ok (Some chosen)) → client_step s [] s'
| step_attempt s s1 turn decision w' r :
    choose_turn cfg policy_mode s = (s1, Ok (Some (turn, decision))) →
    execute_turn_decision cfg turn decision (snd s1) = (w', r) →
    client_step s [Attempted (turn_key turn) (fails_transiently r)]
      (after_attempt turn decision r (set_attempted (Some (turn_key turn)) (fst s1)), w').

Inductive client_run : state → list Label → state → Prop :=
| run_nil s : client_run s [] s
| run_snoc s trace s1 l s2 :
    client_run s trace s1 → client_step s1 l s2 → client_run s (trace ++ l) s2.

Lemma run_one s l s' : client_step s l s' → client_run s l s'.
Proof. intros H. apply (run_snoc s [] s l); [apply run_nil|done]. Qed.
Lemma run_app s t1 s1 t2 s2 : client_run s t1 s1 → client_run s1 t2 s2 → client_run s (t1 ++ t2) s2.
Proof.
  intros H1. induction 1 as [|s1 trace s2 l s3 _ IH Hstep]; [by rewrite app_nil_r|].
  rewrite app_assoc. by eapply run_snoc; [apply IH|].
Qed.

(** Some trace leads from one state to the other. *)
Definition leads (s s' : state) : Prop := ∃ trace, client_run s trace s'.
Lemma leads_refl s : leads s s.
Proof. exists []. apply run_nil. Qed.
Lemma leads_trans s s1 s2 : leads s s1 → leads s1 s2 → leads s s2.
Proof. intros [t1 H1] [t2 H2]. exists (t1 ++ t2). by eapply run_app. Qed.
Lemma leads_step s l s' : client_step s l s' → leads s s'.
Proof. intros H. exists l. by apply run_one. Qed.
Lemma leads_world c w w' : world_moves w w' → leads (c, w) (c, w').
Proof. intros H. eapply leads_step. by apply step_world. Qed.

(** *** The loop makes runs *)

(** A computation whose effect is a run, whatever it returns. *)
Definition running {A} (m : M state AnyhowError A) : Prop := ∀ s, leads s (fst (m s)).

Lemma running_ret {A} (x : A) : running (mret x).
Proof. intros s. apply leads_refl. Qed.
Lemma running_bind {A B} (m : M state AnyhowError A) (k : A → M state AnyhowError B) :
  running m → (∀ x, running (k x)) → running (m ≫= k).
Proof.
  intros Hm Hk s. unfold mbind, M_mbind, M_bind. specialize (Hm s).
  destruct (m s) as [s1 [x|e]]; cbn in Hm |- *; [|done]. eapply leads_trans; [exact Hm|apply Hk].
Qed.
Lemma running_logged {A} (m : M state AnyhowError A) : running m → running (logged m).
Proof. intros Hm s. exact (Hm s). Qed.
Lemma running_when b (m : M state AnyhowError unit) : running m → running (M_when b m).
Proof. intros Hm s. unfold M_when. destruct b; [apply Hm|apply leads_refl]. Qed.
#[local] Hint Resolve running_ret running_bind running_logged running_when : core.

Lemma running_poll : running (poll_room_hand_state cfg).
Proof. intros s. eapply leads_step, step_poll. Qed.
Lemma running_sync hand_id : running (sync_hole_cards_for_hand cfg hand_id).
Proof. intros s. eapply leads_step, step_sync_hand. Qed.
Lemma running_sync_current : running (sync_hole_cards_for_current_hand cfg).
Proof. intros s. eapply leads_step, step_sync_current. Qed.
Lemma running_turn : running (maybe_execute_turn cfg policy_mode).
Proof.
  intros s. unfold maybe_execute_turn, mbind, M_mbind, M_bind.
  destruct (choose_turn cfg policy_mode s) as [s1 [[[turn decision]|]|e]] eqn:Hchoose.
  - destruct s1 as [c1 w1].
    unfold submit_turn, mbind, M_mbind, M_bind, client_sets, modify, outcome_of.
    destruct (execute_turn_decision cfg turn decision w1) as [w2 r] eqn:Hrun.
    eapply leads_step. by apply (step_attempt s (c1, w1) turn decision).
  - eapply leads_step, step_pass; [exact Hchoose|done].
  - eapply leads_step, step_pass; [exact Hchoose|done].
Qed.
#[local] Hint Resolve running_poll running_sync running_sync_current running_turn : core.

Lemma running_event event : running (on_event cfg policy_mode event).
Proof.
  unfold on_event. apply running_bind; [destruct (ev_hand_id event); auto|]. intros [].
  apply running_bind; [auto|]. auto.
Qed.
Lemma running_text text : running (on_text cfg policy_mode text).
Proof. unfold on_text. destruct (event_of_frame text); [apply running_event|auto]. Qed.
Lemma running_tick : running (on_tick cfg policy_mode).
Proof. unfold on_tick. apply running_bind; [auto|]. intros []. apply running_bind; auto. Qed.
Lemma running_subscribed : running (on_subscribed cfg policy_mode).
Proof. unfold on_subscribed. apply running_bind; [auto|]. intros []. apply running_bind; auto. Qed.

(** The client and the world of a state of the loop. *)
Definition inner (s : MainState * W) : state := (ms_client (fst s), snd s).

Lemma serve_leads m (job : M state AnyhowError unit) w :
  running job → leads (inner (m, w)) (inner (run_job m job w)).
Proof.
  intros Hj. specialize (Hj (ms_client m, w)). unfold inner, run_job. cbn.
  by destruct (job (ms_client m, w)) as [[c w'] r].
Qed.
Lemma subscribe_failed_leads m w : leads (inner (m, w)) (inner (subscribe_failed m w)).
Proof. apply leads_world, moves_sleep. Qed.
Lemma start_subscribe_leads topic m w :
  leads (inner (m, w)) (inner (start_subscribe cfg topic m w)).
Proof.
  unfold start_subscribe, send_subscribe.
  match goal with |- context [ws_send ?msg w] => pose proof (moves_send msg w) as Hm;
    destruct (ws_send msg w) as [w' [[]|e]] end; cbn in Hm.
  - by apply leads_world.
  - eapply leads_trans; [by apply leads_world|exact (subscribe_failed_leads m w')].
Qed.

Lemma connect_leads m w : leads (inner (m, w)) (inner (connect_step cfg ws_endpoint m w)).
Proof.
  unfold connect_step. pose proof (moves_connect w) as Hm.
  destruct (connect_async ws_endpoint w) as [w' [[]|e]]; cbn in Hm.
  - eapply leads_trans; [by apply leads_world|].
    exact (start_subscribe_leads TopicHand (set_backoff 500 m) w').
  - eapply leads_trans; [by apply leads_world|]. apply leads_world, moves_sleep.
Qed.

Lemma ack_leads topic m w :
  leads (inner (m, w)) (inner (ack_step cfg policy_mode safety_poll_ms topic m w)).
Proof.
  unfold ack_step. pose proof (moves_next w) as Hm. destruct (ws_next w) as [w' frame]; cbn in Hm.
  eapply leads_trans; [by apply leads_world|].
  destruct (ack_of_frame _ frame) as [[id|e]|]; [|exact (subscribe_failed_leads m w')|apply leads_refl].
  destruct topic; [exact (start_subscribe_leads TopicSeat m w')|].
  unfold subscribed. pose proof (serve_leads m _ w' running_subscribed) as Hs.
  by destruct (run_job m _ w') as [m' w2].
Qed.

Lemma serve_step_leads m w : leads (inner (m, w)) (inner (serve_step cfg policy_mode m w)).
Proof.
  unfold serve_step. pose proof (moves_select w) as Hm.
  destruct (select_next w) as [w' selected]; cbn in Hm.
  eapply leads_trans; [by apply leads_world|].
  destruct selected as [| |[[[text|payload|payload| |]|e]|]];
    try apply leads_refl;
    try (refine (serve_leads m _ w' _); first [apply running_tick|apply running_text]).
  pose proof (moves_send (WsPong payload) w') as Hp.
  destruct (ws_send (WsPong payload) w') as [w2 [[]|e]]; by apply leads_world.
Qed.

Abbreviation step := (main_step cfg policy_mode ws_endpoint safety_poll_ms).

Lemma main_step_leads st : leads (inner st) (inner (step st)).
Proof.
  destruct st as [m w]. unfold main_step. destruct (ms_phase m).
  - apply connect_leads.
  - apply ack_leads.
  - apply serve_step_leads.
  - apply leads_refl.
  - apply leads_refl.
Qed.

(** ** A turn is played once *)

Definition quiet (trace : list Label) : Prop := ∀ k t, Attempted k t ∉ trace.

(** The last attempt of the trace still stands: it failed transiently, was overtaken by
    a new hand, or is remembered. *)
Definition armed (trace : list Label) (c : Client) : Prop :=
  ∀ pre k t mid, trace = pre ++ Attempted k t :: mid → quiet mid →
    t = true ∨ NewHand ∈ mid ∨ cl_last_attempted_turn c = Some k.
Definition attempted_once (trace : list Label) : Prop :=
  ∀ pre k t1 mid t2 post,
    trace = pre ++ Attempted k t1 :: mid ++ Attempted k t2 :: post → quiet mid →
    t1 = true ∨ NewHand ∈ mid.

Lemma snoc_cases {A} (l : list A) x pre y mid :
  l ++ [x] = pre ++ y :: mid →
  (mid = [] ∧ x = y ∧ l = pre) ∨ ∃ mid', mid = mid' ++ [x] ∧ l = pre ++ y :: mid'.
Proof.
  destruct mid as [|z mid _] using rev_ind; intros H.
  - left. by apply app_inj_tail in H as [-> ->].
  - right. exists mid. rewrite app_comm_cons, app_assoc in H. by apply app_inj_tail in H as [-> ->].
Qed.

Lemma armed_pass trace c c' : armed trace c → same_attempt c c' → armed trace c'.
Proof. unfold armed, same_attempt. by intros H ->. Qed.
Lemma armed_new_hand trace c c' : armed trace c → armed (trace ++ [NewHand]) c'.
Proof.
  intros H pre k t mid [(_ & [=] & _)|(mid' & -> & ->)]%snoc_cases Hq.
  right; left. apply elem_of_app. right. by constructor.
Qed.
Lemma armed_attempt trace c k t :
  (t = false → cl_last_attempted_turn c = Some k) → armed (trace ++ [Attempted k t]) c.
Proof.
  intros Ht pre k' t' mid [(-> & [= <- <-] & _)|(mid' & -> & ->)]%snoc_cases Hq.
  - destruct t; [by left|]. right; right. by apply Ht.
  - destruct (Hq k t). apply elem_of_app. right. by constructor.
Qed.

Lemma once_snoc trace x :
  attempted_once trace →
  (∀ k t, x = Attempted k t → ∀ pre t1 mid, trace = pre ++ Attempted k t1 :: mid → quiet mid →
     t1 = true ∨ NewHand ∈ mid) →
  attempted_once (trace ++ [x]).
Proof.
  intros Honce Hnew pre k t1 mid t2 post Heq Hq.
  apply snoc_cases in Heq as [(Hm & _)|(mid' & Hm & ->)]; [by destruct mid|].
  apply eq_sym, snoc_cases in Hm as [(-> & -> & ->)|(mid2 & -> & ->)].
  - by apply (Hnew k t2 eq_refl pre t1 mid).
  - by apply (Honce pre k t1 mid t2 mid2).
Qed.

Lemma step_keeps_once s l s' trace :
  client_step s l s' → armed trace (fst s) → attempted_once trace →
  armed (trace ++ l) (fst s') ∧ attempted_once (trace ++ l).
Proof.
  intros Hstep Harm Honce. destruct Hstep as [c w w' _|s s'|hand_id s|s|s s' r Hc _|s s1 turn d w' r Hc Hrun].
  - rewrite app_nil_r. by split.
  - pose proof (poll_turn s) as Hp. cbv zeta in Hp. fold s' in Hp.
    destruct (sees_new_hand (fst s) (fst s')).
    + split; [exact (armed_new_hand _ _ _ Harm)|]. apply once_snoc; [done|]. by intros ?? [=].
    + rewrite app_nil_r. split; [exact (armed_pass _ _ _ Harm Hp)|done].
  - rewrite app_nil_r. split; [|done]. exact (armed_pass _ _ _ Harm (sync_hand_keeps _ _)).
  - rewrite app_nil_r. split; [|done]. exact (armed_pass _ _ _ Harm (sync_current_keeps _)).
  - rewrite app_nil_r. pose proof (choose_turn_keeps s) as Hk. rewrite Hc in Hk. cbn in Hk.
    rewrite Hk. by split.
  - apply choose_turn_sound in Hc as (Hfresh & _). split.
    + apply armed_attempt. intros Ht. cbn. unfold after_attempt, fails_transiently in *.
      destruct r as [o|e]; [done|]. by rewrite Ht.
    + apply once_snoc; [done|]. intros k t [= <- <-] pre t1 mid -> Hq.
      destruct (Harm pre _ t1 mid eq_refl Hq) as [?|[?|?]]; [by left|by right|done].
Qed.

Lemma runs_keep_once s trace s' :
  client_run s trace s' → cl_last_attempted_turn (fst s) = None →
  armed trace (fst s') ∧ attempted_once trace.
Proof.
  intros H Hnone. induction H as [s|s trace s1 l s2 _ IH Hstep].
  - split; [by intros [|??] ????|by intros [|??] ??????].
  - destruct (IH Hnone) as [Harm Honce]. by eapply step_keeps_once.
Qed.

(** C14. A turn is attempted once. Whatever the server sends and answers, the loop of a
    client is a run of its polls, synchronisations and turns, and in this run, of two
    attempts at the same action (hand and sequence number) with no other attempt in
    between, the first failed in the transport or the wallet, or a new hand was seen
    in the meantime. *)
Theorem a_turn_is_attempted_once config n w :
  let st := Nat.iter n step (initial_state config, w) in
  ∃ trace, client_run (ms_client (initial_state config), w) trace (inner st) ∧ attempted_once trace.
Proof.
  intros st. assert (leads (inner (initial_state config, w)) (inner st)) as [trace Hrun].
  { unfold st. induction n as [|n IH]; [apply leads_refl|]. cbn.
    eapply leads_trans; [exact IH|apply main_step_leads]. }
  exists trace. split; [exact Hrun|]. by apply (runs_keep_once _ _ _ Hrun).
Qed.

(** C26. Only what was offered is played. When the client's program plays a decision, the
    server's state, read from the world the program was in, named the client's own seat,
    and its turn is not the one that was attempted last; the policy, whichever it is, then
    decided upon this turn for an action of a kind that the server had listed; and after
    that, in the world the decision left, the state was read again, named the seat again,
    and had the same hand and action number. The play starts in the world this second read
    left, and nothing of the client changed in between. *)
Theorem only_offered_actions_are_played s s' turn decision
    (Hchoose : choose_turn cfg policy_mode s = (s', Ok (Some (turn, decision)))) :
  fst s' = fst s ∧ cl_last_attempted_turn (fst s) ≠ Some (turn_key turn) ∧
  (∃ w1 w2 latest,
     own_turn_read (snd s) turn w1 ∧
     choose_decision policy_mode turn (fst s, w1) = ((fst s, w2), Ok (Some decision)) ∧
     (∃ la, la ∈ td_legal_actions_raw turn ∧ la_action_type la = pd_action_type decision) ∧
     own_turn_read w2 latest (snd s') ∧ turn_key latest = turn_key turn) ∧
  maybe_execute_turn cfg policy_mode s = submit_turn cfg turn decision s'.
Proof.
  pose proof (choose_turn_keeps s) as Hk. rewrite Hchoose in Hk. split; [done|].
  apply choose_turn_sound in Hchoose as Hs. destruct Hs as [Hne Hreads]. split; [done|].
  split; [done|]. unfold maybe_execute_turn, mbind, M_mbind, M_bind. by rewrite Hchoose.
Qed.

(** ** The loop goes on *)

(** How the loop can be left. *)
Definition may_end (m : MainState) (w : W) (m' : MainState) : Prop :=
  match ms_phase m' with
  | Exited => ms_phase m = Serving ∧ snd (select_next w) = SelectedCtrlC
  | Panicked => ms_phase m = AwaitingAck TopicSeat ∧ safety_poll_ms = 0
  | _ => True
  end.
Definition ended (m : MainState) : bool :=
  match ms_phase m with Exited | Panicked => true | _ => false end.
Definition backoff_bounded (m : MainState) : Prop := 500 ≤ ms_reconnect_backoff_ms m ≤ 10000.

Lemma serve_same m (job : M state AnyhowError unit) w :
  ms_phase (fst (run_job m job w)) = ms_phase m ∧
  ms_reconnect_backoff_ms (fst (run_job m job w)) = ms_reconnect_backoff_ms m.
Proof. unfold run_job. by destruct (job (ms_client m, w)) as [[c w'] r]. Qed.

Lemma start_subscribe_phase topic m w :
  let m' := fst (start_subscribe cfg topic m w) in
  (ms_phase m' = AwaitingAck topic ∨ ms_phase m' = Connecting) ∧
  ms_reconnect_backoff_ms m' = ms_reconnect_backoff_ms m.
Proof.
  unfold start_subscribe. destruct (send_subscribe cfg topic w) as [w' [[]|e]]; cbn; auto.
Qed.

Lemma connect_bounded m w :
  backoff_bounded m → ms_phase m = Connecting →
  let m' := fst (connect_step cfg ws_endpoint m w) in backoff_bounded m' ∧ may_end m w m'.
Proof.
  intros Hb Hp. unfold connect_step. destruct (connect_async ws_endpoint w) as [w' [[]|e]].
  - destruct (start_subscribe_phase TopicHand (set_backoff 500 m) w') as [Hph Hbk].
    unfold backoff_bounded, may_end in *. rewrite Hbk. cbn [set_backoff ms_reconnect_backoff_ms].
    split; [lia|]. by destruct Hph as [-> | ->].
  - unfold backoff_bounded, may_end, sat_mul, u64_max in *. cbn. rewrite Hp. split; [lia|done].
Qed.

Lemma ack_bounded topic m w :
  backoff_bounded m → ms_phase m = AwaitingAck topic →
  let m' := fst (ack_step cfg policy_mode safety_poll_ms topic m w) in
  backoff_bounded m' ∧ may_end m w m'.
Proof.
  intros Hb Hp. unfold ack_step. destruct (ws_next w) as [w' frame].
  unfold may_end, backoff_bounded. rewrite Hp.
  destruct (ack_of_frame _ frame) as [[id|e]|]; [|by cbn|by cbn; rewrite Hp].
  destruct topic.
  - destruct (start_subscribe_phase TopicSeat m w') as [Hph ->]. by destruct Hph as [-> | ->].
  - unfold subscribed. pose proof (serve_same m (on_subscribed cfg policy_mode) w') as [_ Hbk].
    destruct (run_job m _ w') as [m' w2]. cbn in Hbk |- *. rewrite Hbk.
    split; [done|]. by destruct (N.eqb_spec safety_poll_ms 0).
Qed.

Lemma serving_bounded m w :
  backoff_bounded m → ms_phase m = Serving →
  let m' := fst (serve_step cfg policy_mode m w) in backoff_bounded m' ∧ may_end m w m'.
Proof.
  intros Hb Hp. unfold serve_step, may_end, backoff_bounded. rewrite Hp.
  assert (Hjob : ∀ (job : M state AnyhowError unit) w', 500 ≤ ms_reconnect_backoff_ms (fst (run_job m job w')) ≤ 10000 ∧
    ms_phase (fst (run_job m job w')) = Serving).
  { intros job w'. destruct (serve_same m job w') as [-> ->]. by rewrite Hp. }
  destruct (select_next w) as [w' selected]; cbn [snd].
  destruct selected as [| |[[[text|payload|payload| |]|e]|]];
    try (cbn; rewrite ?Hp; by split);
    try (match goal with |- context [run_job m ?job w'] => destruct (Hjob job w') as [? ->] end; by split).
  destruct (ws_send (WsPong payload) w') as [w2 [[]|e]]; cbn; rewrite ?Hp; by split.
Qed.

(** The loop goes on. From its start, a client leaves its loop only for an
    interrupt, or panics at its second subscription if its polling period is zero; no
    answer of the server, no closed socket and no error of a call ends it. The delay
    before the next connection stays between half a second and ten seconds. *)
Theorem only_an_interrupt_ends_the_loop config n w :
  let st := Nat.iter n step (initial_state config, w) in
  backoff_bounded (fst st) ∧ (ended (fst st) = false → may_end (fst st) (snd st) (fst (step st))).
Proof.
  intros st. assert (∀ st, backoff_bounded (fst st) →
    backoff_bounded (fst (step st)) ∧ (ended (fst st) = false → may_end (fst st) (snd st) (fst (step st)))) as Hstep.
  { clear. intros [m w] Hb. cbn [fst snd] in *. unfold main_step, ended.
    destruct (ms_phase m) eqn:Hp; try done; cbn [fst].
    - destruct (connect_bounded m w Hb Hp); auto.
    - destruct (ack_bounded _ m w Hb Hp); auto.
    - destruct (serving_bounded m w Hb Hp); auto. }
  assert (backoff_bounded (fst st)) as Hb; [|split; [done|by apply Hstep]].
  unfold st. induction n as [|n IH]; [by cbn|]. by apply Hstep.
Qed.
End Client.

(** ** A server that loses a reply *)

(** It is seat 0's turn; every request is answered but [game.act], whose reply is lost.
    The world counts the transfers. *)
Section LostReply.
#[local] Instance lost_hex : HexDecode := {| from_hex _ := None |}.
#[local] Instance lost_uuid : UuidText := {| uuid_text _ := "hand"%string |}.
#[local] Instance lost_json : JsonText := {| json_to_string _ := Ok "params"%string |}.
#[local] Instance lost_date : DateTimeText := {| to_rfc3339 _ := "now"%string |}.
#[local] Instance lost_crypto : SeatCryptoPrimitives := {|
  x25519_public k := k; x25519 _ _ := []; hkdf_expand _ _ _ _ := None;
  aead_encrypt _ _ _ _ := None; aead_decrypt _ _ _ _ := None;
  base64_encode _ := ""%string; base64_decode _ := Err ""%string;
|}.
#[local] Instance lost_clock : Clock N := {| utc_now _ := 0 |}.
#[local] Instance lost_ids : FreshIds N := {| fresh_uuid w := (w, 7) |}.
#[local] Instance lost_wallet : WalletAdapter N := {|
  transfer_to_room _ w := (w + 1, Ok (mkEvmReceipt "0xfeed" true));
  sign_personal_message _ _ := mret "0xsig"%string;
|}.
#[local] Instance lost_node : JsonRpcTransport N := {|
  post_json _ body w :=
    (w, if bool_decide (json_get "method" body ≫= as_str = Some "game.act"%string)
        then Err "timeout"%string else Ok (JObj [("result"%string, JNull)]));
  decode_message _ := "decode"%string;
|}.
Definition lost_snapshot : HandSnapshot := mkHandSnapshot 1 11 1 HRunning Preflop [] (Some 0) 1 300.
#[local] Instance lost_codec : ClientCodec := {|
  ready_to_value _ := Ok JNull; bind_address_to_value _ := Ok JNull;
  bind_keys_to_value _ := Ok JNull; act_to_value _ := Ok JNull;
  get_state_to_value _ := Ok JNull; get_legal_to_value _ := Ok JNull;
  get_private_to_value _ := Ok JNull;
  unit_reply_from_value _ := Ok (mkEnvelope true (Some tt) None);
  state_reply_from_value _ := Ok (mkEnvelope true (Some (Some lost_snapshot)) None);
  legal_reply_from_value _ := Ok (mkEnvelope true
    (Some [mkLegalAction Fold None None; mkLegalAction Call (Some 200) (Some 200)]) None);
  private_reply_from_value _ := Ok (mkEnvelope true (Some []) None);
  hole_cards_from_value _ := Err ""%string; json_from_slice _ := Err ""%string;
  private_event_to_value _ := JNull; hand_status_to_value _ := JNull; street_to_value _ := JNull;
  json_display _ := ""%string; hex_decode_error _ := "hex"%string;
|}.
#[local] Instance lost_client_codec : SeatClientCodec := {|
  room_list_to_value _ := JNull; rooms_reply_from_value _ := Err ""%string;
  subscribe_to_value _ := JNull; event_from_value _ := None; json_from_str _ := None;
  context_to_value _ := JNull;
|}.
#[local] Instance lost_codex : CodexProcess N := {|
  codex_output _ := throw tt; codex_raw_from_str _ := None;
  policy_input_to_value _ := JNull; codex_instruction := ""%string;
|}.
Definition lost_config : SingleActionRunnerConfig :=
  mkRunnerConfig "node" 1 0 "0xseat" "0xroom" 71 1 "00" None.
Definition lost_start : Client * N := (initial_client 16, 0).
Definition lost_turn : Client * N → Client * N :=
  λ s, fst (maybe_execute_turn lost_config ModeRule s).

(** When the reply to an action is lost, the client forgets that it has attempted the
    turn and pays for it a second time. *)
Theorem lost_reply_pays_twice :
  snd (lost_turn lost_start) = 1 ∧ cl_last_attempted_turn (fst (lost_turn lost_start)) = None ∧
  snd (lost_turn (lost_turn lost_start)) = 2.
Proof. by vm_compute. Qed.

Definition lost_choice := choose_turn lost_config ModeRule lost_start.
Lemma lost_choice_made : ∃ turn decision, lost_choice = (lost_start, Ok (Some (turn, decision))).
Proof. eexists _, _. vm_compute. reflexivity. Qed.

Lemma only_offered_actions_are_played_witness :
  ∃ turn decision w1, lost_choice = (lost_start, Ok (Some (turn, decision))) ∧
    own_turn_read lost_config 0 turn w1 ∧
    ∃ la, la ∈ td_legal_actions_raw turn ∧ la_action_type la = pd_action_type decision.
Proof.
  destruct lost_choice_made as (turn & decision & Hchoice).
  destruct (only_offered_actions_are_played lost_config ModeRule lost_start lost_start turn decision
    Hchoice) as (_ & _ & (w1 & w2 & latest & Hread & _ & Hla & _) & _).
  exists turn, decision, w1. split; [exact Hchoice|]. split; [exact Hread|exact Hla].
Defined.
End LostReply.

(** A hand that runs and closes between two polls is not noticed after a closed one. *)
Lemma closed_after_closed_is_missed :
  newly_closed (mkObserved 12 HSettled None 9) (Some (mkObserved 11 HSettled None 5)) = false.
Proof. done. Qed.

(** The number of a seat is cut down to eight bits: 256 is seat 0. *)
Lemma seat_256_is_seat_0 room_id :
  let env name := if String.eqb name "SEAT_ID" then Some "256"%string else Some "1"%string in
  rn_seat_id <$> (match build_config env 71 room_id with Ok c => Some c | Err _ => None end) = Some 0.
Proof. by vm_compute. Qed.
