(* ===== verification/Postgres.v ===== *)
(** A PostgreSQL server as the repositories use it: tables with the keys, unique indexes
    and foreign keys of [migrations/*.sql], statements that succeed or fail as a whole,
    and transactions. The statements themselves are modelled by the repositories, from
    their SQL.

    Every exchange with the server may fail for reasons of its own: the request may not
    reach the server, or the server carries it out and its answer is lost. [pg_faults]
    lists what becomes of the next exchanges. A COMMIT whose answer is lost has
    committed, one that does not arrive has not; a transaction that is left before its
    COMMIT is rolled back. Surrogate keys that no query reads are left out;
    where SQL leaves the order of rows open, it is the order of insertion. Of the tables
    that several repositories refer to, [PgShared] holds what is referred to. *)

From stdpp Require Import base tactics option list gmap strings pretty.
From Stdlib Require Import NArith Lia Ascii.
From S2P Require Import Prelude.
From S2P Require Import Text.
From S2P Require Import Domain.
From S2P Require Import AppSinks.
From S2P Require Import RoomService.

Local Open Scope N_scope.

(** ** Errors *)

Inductive PgError :=
| PgFault (message : string)
| UniqueViolation (index : string)
| ForeignKeyViolation (table constraint : string).

Definition in_quotes (s : string) : string :=
  String (ascii_of_nat 34) (s +:+ String (ascii_of_nat 34) EmptyString).
(** [sqlx::Error]'s [Display] of the server's messages. *)
Definition pg_error_text (e : PgError) : string :=
  match e with
  | PgFault m => m
  | UniqueViolation index =>
      "error returned from database: duplicate key value violates unique constraint "
      +:+ in_quotes index
  | ForeignKeyViolation table constraint =>
      "error returned from database: insert or update on table " +:+ in_quotes table
      +:+ " violates foreign key constraint " +:+ in_quotes constraint
  end.

(** [str::contains] *)
Fixpoint contains_text (needle s : string) : bool :=
  String.prefix needle s
  || match s with EmptyString => false | String _ s => contains_text needle s end.

(** ** Shared tables *)

(** The columns of [hands] that are written and read. *)
Record HandTableRow := mkHandTableRow {
  ht_room_id : RoomId;
  ht_hand_no : N;
  ht_hand_status : string;
  ht_street : string;
  ht_acting_seat_id : option SeatId;
  ht_action_seq_next : N;
  ht_pot_total : string;
  ht_started_at : DateTime;
  ht_ended_at : option DateTime;
}.
(** The columns of [rooms] that are read. *)
Record RoomTableRow := mkRoomTableRow {
  rt_room_status : string;
  rt_dealer_address : string;
  rt_max_players : N;
  rt_step_timeout_ms : N;
  rt_rake_bps : N;
  rt_updated_at : DateTime;
}.
Record PgShared := mkShared {
  sh_rooms : gmap RoomId RoomTableRow;
  sh_hands : gmap HandId HandTableRow;
  sh_agents : gset AgentId;
  sh_sessions : gset SessionId;
  sh_attempts : gset Uuid;
  sh_room_seats : list (RoomId * option AgentId);
}.
Definition shared_empty : PgShared := mkShared ∅ ∅ ∅ ∅ ∅ [].

Definition set_sh_rooms rooms (sh : PgShared) : PgShared :=
  mkShared rooms (sh_hands sh) (sh_agents sh) (sh_sessions sh) (sh_attempts sh) (sh_room_seats sh).
Definition set_sh_hands hands (sh : PgShared) : PgShared :=
  mkShared (sh_rooms sh) hands (sh_agents sh) (sh_sessions sh) (sh_attempts sh) (sh_room_seats sh).
Definition set_sh_attempts attempts (sh : PgShared) : PgShared :=
  mkShared (sh_rooms sh) (sh_hands sh) (sh_agents sh) (sh_sessions sh) attempts (sh_room_seats sh).

(** ** The server

    [T] holds the tables of one repository. *)
Inductive PgFate :=
| Answered
| RequestLost (message : string)
| AnswerLost (message : string).
Record PgServer (T : Type) := mkServer {
  pg_faults : list PgFate;
  pg_now : DateTime;
  pg_shared : PgShared;
  pg_tables : T;
}.
Arguments mkServer {_} _ _ _ _.
Arguments pg_faults {_} _.
Arguments pg_now {_} _.
Arguments pg_shared {_} _.
Arguments pg_tables {_} _.

(** A condition of the schema. *)
Definition require (ok : bool) (e : PgError) : result PgError unit := if ok then Ok tt else Err e.
Definition references {K} `{Countable K} {A} (rows : gmap K A) (key : K) (table constraint : string)
    : result PgError unit :=
  require (bool_decide (is_Some (rows !! key))) (ForeignKeyViolation table constraint).
Definition references_set {K} `{Countable K} (keys : gset K) (key : K) (table constraint : string)
    : result PgError unit :=
  require (bool_decide (key ∈ keys)) (ForeignKeyViolation table constraint).
(** A foreign key that is NULL refers to nothing. *)
Definition nullable {K} (check : K → result PgError unit) (key : option K) : result PgError unit :=
  match key with Some k => check k | None => Ok tt end.

Section Server.
Context {T : Type}.
Implicit Types s : PgServer T.

Definition set_faults faults s := mkServer faults (pg_now s) (pg_shared s) (pg_tables s).
Definition set_tables (t : T) s := mkServer (pg_faults s) (pg_now s) (pg_shared s) t.
Definition set_shared sh s := mkServer (pg_faults s) (pg_now s) sh (pg_tables s).

(** One exchange with the server, which serves a request with [serve]. *)
Definition exchange {A} (serve : M (PgServer T) PgError A) : M (PgServer T) PgError A := λ s,
  match pg_faults s with
  | [] => serve s
  | Answered :: faults => serve (set_faults faults s)
  | RequestLost message :: faults => (set_faults faults s, Err (PgFault message))
  | AnswerLost message :: faults => (fst (serve (set_faults faults s)), Err (PgFault message))
  end.

(** [.execute(..)] of a statement that writes the tables. *)
Definition execute (statement : PgShared → DateTime → T → result PgError T)
    : M (PgServer T) PgError unit :=
  exchange (
    s ← get;
    t ← lift_result (statement (pg_shared s) (pg_now s) (pg_tables s));
    modify (set_tables t)).
Definition execute_shared (statement : DateTime → PgShared → result PgError PgShared)
    : M (PgServer T) PgError unit :=
  exchange (
    s ← get;
    sh ← lift_result (statement (pg_now s) (pg_shared s));
    modify (set_shared sh)).
(** [.fetch_all(..)], [.fetch_optional(..)] *)
Definition fetch {A} (query : DateTime → T → A) : M (PgServer T) PgError A :=
  exchange (s ← get; mret (query (pg_now s) (pg_tables s))).
Definition fetch_joined {A} (query : PgShared → T → A) : M (PgServer T) PgError A :=
  exchange (s ← get; mret (query (pg_shared s) (pg_tables s))).

(** [pool.begin()], the body, [tx.commit()]. The statements of the body work on tables of
    the transaction's own, which the COMMIT makes those of the server; a transaction that
    is dropped without it leaves the server's tables as they were. *)
Definition in_transaction {E} (database : PgError → E) (body : M (PgServer T) E unit)
    : M (PgServer T) E unit := λ s,
  let t := pg_tables s in
  let '(s, r) := (M_map_err database (exchange (mret tt));; body) s in
  match r with
  | Ok _ => M_map_err database (exchange (modify (set_tables (pg_tables s)))) (set_tables t s)
  | Err e => (set_tables t s, Err e)
  end.

(** ** Rooms and hands *)

(** The statement of [upsert_room_record]. *)
Definition upsert_room_row (row : RoomRow) : M (PgServer T) string unit :=
  M_map_err pg_error_text (execute_shared (λ now sh,
    Ok (set_sh_rooms (<[row_room_id row :=
          mkRoomTableRow (row_room_status row) (row_dealer_address row) (row_max_players row)
            (row_step_timeout_ms row) (row_rake_bps row) now]> (sh_rooms sh)) sh))).

(** Another hand of the room with the number. *)
Definition hand_no_taken (hand_id : HandId) (room_id : RoomId) (hand_no : N)
    (hands : gmap HandId HandTableRow) : bool :=
  existsb (λ e, negb (fst e =? hand_id) && (ht_room_id (snd e) =? room_id)
                && (ht_hand_no (snd e) =? hand_no)) (map_to_list hands).

(** The row after the statement; the start is kept, and the end once it is set. *)
Definition hand_table_row (now : DateTime) (old : option HandTableRow) (row : HandRow) : HandTableRow :=
  mkHandTableRow (hr_room_id row) (hr_hand_no row) (hr_hand_status row) (hr_street row)
    (hr_acting_seat_id row) (hr_action_seq_next row) (hr_pot_total row)
    (from_option ht_started_at now old)
    (match old with
     | None => if hr_ended row then Some now else None
     | Some old =>
         if String.eqb (hr_hand_status row) "Settled" || String.eqb (hr_hand_status row) "Aborted"
         then Some (default now (ht_ended_at old)) else None
     end).
(** The statement of [upsert_hand_snapshot_row]. *)
Definition upsert_hand_row (row : HandRow) : M (PgServer T) string unit :=
  M_map_err pg_error_text (execute_shared (λ now sh,
    require (negb (hand_no_taken (hr_hand_id row) (hr_room_id row) (hr_hand_no row) (sh_hands sh)))
      (UniqueViolation "uq_hands_room_hand_no");;
    references (sh_rooms sh) (hr_room_id row) "hands" "hands_room_id_fkey";;
    Ok (set_sh_hands (<[hr_hand_id row :=
          hand_table_row now (sh_hands sh !! hr_hand_id row) row]> (sh_hands sh)) sh))).

(** ** Runs without faults *)

Lemma exchange_run {A} (serve : M (PgServer T) PgError A) s :
  pg_faults s = [] → exchange serve s = serve s.
Proof. unfold exchange. by intros ->. Qed.
Lemma execute_run statement s :
  pg_faults s = [] →
  execute statement s
  = match statement (pg_shared s) (pg_now s) (pg_tables s) with
    | Ok t => (set_tables t s, Ok tt)
    | Err e => (s, Err e)
    end.
Proof.
  intros Hf. unfold execute. rewrite exchange_run by done. mrun. by destruct (statement _ _ _).
Qed.
Lemma fetch_run {A} (query : DateTime → T → A) s :
  pg_faults s = [] → fetch query s = (s, Ok (query (pg_now s) (pg_tables s))).
Proof. intros Hf. unfold fetch. by rewrite exchange_run. Qed.

(** ** Faults *)

(** What is left of the server's fate. *)
Lemma exchange_cases {A} (serve : M (PgServer T) PgError A) s s' r :
  exchange serve s = (s', r) →
  ∃ faults, faults `suffix_of` pg_faults s ∧
    (serve (set_faults faults s) = (s', r) ∨
     ∃ m, r = Err (PgFault m) ∧
       (s' = set_faults faults s ∨
        (s' = fst (serve (set_faults faults s)) ∧ AnswerLost m ∈ pg_faults s))).
Proof.
  unfold exchange. destruct (pg_faults s) as [|[|m|m] faults] eqn:Hf.
  - intros Hs. exists []. split; [done|]. left. by destruct s; cbn in Hf |- *; subst.
  - intros Hs. exists faults. split; [by exists [Answered]|]. by left.
  - intros [= <- <-]. exists faults. split; [by exists [RequestLost m]|]. right. exists m. auto.
  - intros [= <- <-]. exists faults. split; [by exists [AnswerLost m]|]. right. exists m.
    split; [done|]. right. split; [done|]. constructor.
Qed.

(** A statement that succeeds has had its effect; of one that fails the effect is there
    only when the answer was lost. *)
Lemma execute_succeeds statement s s' :
  execute statement s = (s', Ok tt) →
  statement (pg_shared s) (pg_now s) (pg_tables s) = Ok (pg_tables s') ∧
  pg_shared s' = pg_shared s ∧ pg_now s' = pg_now s ∧ pg_faults s' `suffix_of` pg_faults s.
Proof.
  intros (faults & Hsuf & [Hs|(m & [=] & _)])%exchange_cases. revert Hs. mrun.
  destruct (statement _ _ _); cbn; [|done]. by intros [= <-].
Qed.
Lemma execute_fails statement s s' e :
  execute statement s = (s', Err e) →
  pg_tables s' = pg_tables s ∨
  ∃ m, e = PgFault m ∧ AnswerLost m ∈ pg_faults s ∧
       statement (pg_shared s) (pg_now s) (pg_tables s) = Ok (pg_tables s').
Proof.
  intros (faults & _ & [Hs|(m & [= ->] & [->|[-> Hlost]])])%exchange_cases; [|by left|].
  - revert Hs. mrun. destruct (statement _ _ _); [done|]. intros [= <- _]. by left.
  - mrun. cbn. destruct (statement _ _ _) eqn:Hst; [right|by left]. by exists m.
Qed.

(** Code that only takes fates off the list. *)
Definition consumes {E A} (m : M (PgServer T) E A) : Prop :=
  ∀ s s' r, m s = (s', r) → pg_faults s' `suffix_of` pg_faults s.

Lemma consumes_ret {E A} (x : result E A) : consumes (lift_result x).
Proof. by intros s s' r [= <- _]. Qed.
Lemma consumes_map_err {E E' A} (f : E → E') (m : M (PgServer T) E A) :
  consumes m → consumes (M_map_err f m).
Proof.
  intros Hm s s' r. unfold M_map_err. destruct (m s) as [s1 r1] eqn:Hrun. intros [= <- _].
  by eapply Hm.
Qed.
Lemma consumes_bind {E A B} (m : M (PgServer T) E A) (f : A → M (PgServer T) E B) :
  consumes m → (∀ x, consumes (f x)) → consumes (m ≫= f).
Proof.
  intros Hm Hf s s' r. unfold mbind, M_mbind, M_bind. destruct (m s) as [s1 [x|e]] eqn:Hrun.
  - intros Hrun2. etrans; [by eapply Hf|by eapply Hm].
  - intros [= <- _]. by eapply Hm.
Qed.
Lemma consumes_iter {E A} (f : A → M (PgServer T) E unit) l :
  (∀ x, consumes (f x)) → consumes (M_iter f l).
Proof.
  intros Hf. induction l as [|x l IH]; [by intros s s' r [= <- _]|]. by apply consumes_bind.
Qed.
Lemma consumes_execute statement : consumes (execute statement).
Proof.
  intros s s' r. assert (∀ s, pg_faults (fst ((s ← get; t ← lift_result
    (statement (pg_shared s) (pg_now s) (pg_tables s)); modify (set_tables t) : M (PgServer T) PgError unit) s))
    = pg_faults s) as Hkeep by by intros s1; mrun; destruct (statement _ _ _).
  intros (faults & Hsuf & [Hs|(m & -> & [->|[-> _]])])%exchange_cases; [|done|].
  - specialize (Hkeep (set_faults faults s)). rewrite Hs in Hkeep. cbn in Hkeep. by rewrite Hkeep.
  - by rewrite Hkeep.
Qed.

(** A transaction leaves the tables, or its body has run and its effect stays; the
    second can be without success only when the answer to the COMMIT was lost. *)
Lemma in_transaction_cases {E} (database : PgError → E) (body : M (PgServer T) E unit) s :
  consumes body →
  let '(s', r) := in_transaction database body s in
  (pg_tables s' = pg_tables s ∧ r ≠ Ok tt) ∨
  (∃ s0 s1, pg_tables s0 = pg_tables s ∧ pg_shared s0 = pg_shared s ∧ pg_now s0 = pg_now s ∧
     body s0 = (s1, Ok tt) ∧ pg_tables s' = pg_tables s1 ∧
     (r = Ok tt ∨ ∃ m, r = Err (database (PgFault m)) ∧ AnswerLost m ∈ pg_faults s)).
Proof.
  intros Hsuf. unfold in_transaction, mbind, M_mbind, M_bind, M_map_err.
  destruct (exchange (mret tt) s) as [s0 [[]|e]] eqn:Hbegin; cbn [result_map_err]; [|by left].
  apply exchange_cases in Hbegin as (faults & Hs0 & [[= <-]|(m & [=] & _)]).
  destruct (body (set_faults faults s)) as [s1 [[]|e]] eqn:Hbody; [|by left].
  destruct (exchange _ _) as [s2 r2] eqn:Hcommit.
  apply exchange_cases in Hcommit as (faults2 & Hs2 & [[= <- <-]|(m & -> & [->|[-> Hlost]])]).
  - right. exists (set_faults faults s), s1. cbn. auto 10.
  - by left.
  - right. exists (set_faults faults s), s1. cbn in Hlost |- *. repeat (split; [done|]). right.
    exists m. split; [done|]. apply Hsuf in Hbody as [l1 Hl1]. destruct Hs0 as [l0 ->].
    cbn in Hl1. rewrite Hl1. apply elem_of_app. right. apply elem_of_app. by right.
Qed.

(** A healthy server commits what the body did. *)
Lemma in_transaction_run {E} (database : PgError → E) (body : M (PgServer T) E unit) s :
  pg_faults s = [] → (∀ s1 r, body s = (s1, r) → pg_faults s1 = []) →
  in_transaction database body s
  = match body s with
    | (s1, Ok _) => (s1, Ok tt)
    | (s1, Err e) => (set_tables (pg_tables s) s1, Err e)
    end.
Proof.
  intros Hf Hb. unfold in_transaction, mbind, M_mbind, M_bind, M_map_err.
  rewrite exchange_run by done. cbn.
  destruct (body s) as [s1 [[]|e]] eqn:Hbody; [|done].
  specialize (Hb _ _ eq_refl). rewrite exchange_run by done. cbn. by destruct s1.
Qed.
End Server.

#[export] Hint Resolve consumes_ret consumes_map_err consumes_bind consumes_iter consumes_execute
  : holdem.
