(* ===== verification/LedgerPostgres.v ===== *)
(** The repositories of [ledger-store/src/lib.rs] over PostgreSQL, statement by statement,
    and the query behind the room page of [ops-http/src/lib.rs].

    A column of type NUMERIC(39,0) holds an amount: every u128 fits. Identifiers that are
    drawn for primary keys and never read are left out. *)

From stdpp Require Import base tactics option list gmap strings sorting pretty.
From Stdlib Require Import NArith ZArith Lia.
From S2P Require Import Prelude.
From S2P Require Import Text.
From S2P Require Import Domain.
From S2P Require Import Ambient.
From S2P Require Import LedgerStore.
From S2P Require Import AppSinks.
From S2P Require Import OpsHttp.
From S2P Require Import Postgres.

Local Open Scope N_scope.

Definition parse_numeric_to_chips (s : string) : option Chips := result_ok (parse_u128_dec s).
(** [amount::text] *)
Definition numeric_text (n : N) : string := pretty n.
(** [parse_numeric_to_chips(&text).unwrap_or(Chips::ZERO)] *)
Definition chips_of_column (n : N) : Chips := default 0 (parse_numeric_to_chips (numeric_text n)).

(** [i64::try_from(n).unwrap_or(i64::MAX)] of a page. *)
Definition sql_count (n : nat) : nat := N.to_nat (N.min i64_max (N.of_nat n)).
(** [LIMIT .. OFFSET ..] *)
Definition sql_page {A} (page : PageRequest) (rows : list A) : list A :=
  take (sql_count (pg_limit page)) (drop (sql_count (pg_offset page)) rows).
(** [ORDER BY key DESC] *)
Definition order_desc {A} (key : A → N) : list A → list A := sort_by (λ x y, key y <=? key x).
(** [$1::uuid IS NULL OR column = $1] *)
Definition sql_filter (wanted column : option Uuid) : bool :=
  match wanted with None => true | Some id => bool_decide (column = Some id) end.

(** ** Tables *)

Record LedgerRow := mkLedgerRow {
  lg_entry_type : string;
  lg_room_id : option RoomId;
  lg_hand_id : option HandId;
  lg_seat_id : option N;
  lg_agent_id : option AgentId;
  lg_asset_type : string;
  lg_amount : N;
  lg_direction : string;
  lg_account_scope : string;
  lg_related_tx_hash : option string;
  lg_related_event_id : option Uuid;
  lg_related_attempt_id : option Uuid;
  lg_remark : option string;
  lg_created_at : DateTime;
  lg_trace_id : TraceId;
}.
Record TxVerificationRow := mkVerificationRow {
  vr_chain_id : string;
  vr_from_address : option string;
  vr_to_address : option string;
  vr_value : option N;
  vr_tx_status : string;
  vr_confirmations : N;
  vr_verification_status : string;
  vr_failure_reason : option string;
  vr_verified_at : option DateTime;
}.
Record TxBindingRow := mkBindingRow {
  bw_room_id : RoomId;
  bw_hand_id : HandId;
  bw_action_seq : N;
  bw_seat_id : N;
  bw_expected_amount : N;
  bw_tx_hash : string;
  bw_binding_status : string;
  bw_bound_at : DateTime;
}.
Record CreditRow := mkCreditRow {
  cw_room_id : RoomId;
  cw_seat_id : N;
  cw_hand_id : option HandId;
  cw_tx_hash : option string;
  cw_credit_kind : string;
  cw_amount : N;
  cw_status : string;
  cw_reason : option string;
  cw_created_at : DateTime;
  cw_updated_at : DateTime;
}.
(** The columns of the other tables are the fields of their records. *)
Record LedgerTables := mkLedgerTables {
  t_ledger_entries : list LedgerRow;
  t_tx_verifications : gmap string TxVerificationRow;
  t_tx_bindings : list TxBindingRow;
  t_exception_credits : list CreditRow;
  t_room_signing_keys : list RoomSigningKeyRecord;
  t_settlement_plans : gmap Uuid SettlementPlanRecordInsert;
  t_settlement_records : list SettlementRecordInsert;
  t_showdown_inputs : gmap HandId SettlementShowdownInputRecord;
}.
Definition ledger_tables_empty : LedgerTables := mkLedgerTables [] ∅ [] [] [] ∅ [] ∅.

Definition set_t_ledger x (t : LedgerTables) : LedgerTables :=
  mkLedgerTables x (t_tx_verifications t) (t_tx_bindings t) (t_exception_credits t)
    (t_room_signing_keys t) (t_settlement_plans t) (t_settlement_records t) (t_showdown_inputs t).
Definition set_t_verifications x (t : LedgerTables) : LedgerTables :=
  mkLedgerTables (t_ledger_entries t) x (t_tx_bindings t) (t_exception_credits t)
    (t_room_signing_keys t) (t_settlement_plans t) (t_settlement_records t) (t_showdown_inputs t).
Definition set_t_bindings x (t : LedgerTables) : LedgerTables :=
  mkLedgerTables (t_ledger_entries t) (t_tx_verifications t) x (t_exception_credits t)
    (t_room_signing_keys t) (t_settlement_plans t) (t_settlement_records t) (t_showdown_inputs t).
Definition set_t_credits x (t : LedgerTables) : LedgerTables :=
  mkLedgerTables (t_ledger_entries t) (t_tx_verifications t) (t_tx_bindings t) x
    (t_room_signing_keys t) (t_settlement_plans t) (t_settlement_records t) (t_showdown_inputs t).
Definition set_t_plans x (t : LedgerTables) : LedgerTables :=
  mkLedgerTables (t_ledger_entries t) (t_tx_verifications t) (t_tx_bindings t)
    (t_exception_credits t) (t_room_signing_keys t) x (t_settlement_records t)
    (t_showdown_inputs t).
Definition set_t_records x (t : LedgerTables) : LedgerTables :=
  mkLedgerTables (t_ledger_entries t) (t_tx_verifications t) (t_tx_bindings t)
    (t_exception_credits t) (t_room_signing_keys t) (t_settlement_plans t) x
    (t_showdown_inputs t).
Definition set_t_inputs x (t : LedgerTables) : LedgerTables :=
  mkLedgerTables (t_ledger_entries t) (t_tx_verifications t) (t_tx_bindings t)
    (t_exception_credits t) (t_room_signing_keys t) (t_settlement_plans t)
    (t_settlement_records t) x.

Abbreviation LedgerServer := (PgServer LedgerTables).
Abbreviation Pg A := (M LedgerServer LedgerStoreError A) (only parsing).
(** [map_err(|e| LedgerStoreError::Database(e.to_string()))] *)
Definition ledger_database (e : PgError) : LedgerStoreError := Database (pg_error_text e).
Definition run_sql {A} (m : M LedgerServer PgError A) : Pg A := M_map_err ledger_database m.

(** ** [PostgresLedgerRepository] *)

Section Ledger.
Context {PU : ParseUuid} {UT : UuidText}.

Definition direction_text (direction : LedgerDirection) : string :=
  match direction with Debit => "debit" | Credit => "credit" end.
Definition ledger_row (now : DateTime) (entry : LedgerEntryInsert) : LedgerRow :=
  mkLedgerRow (le_entry_type entry) (le_room_id entry) (le_hand_id entry) (le_seat_id entry)
    (le_agent_id entry) (le_asset_type entry) (le_amount entry)
    (direction_text (le_direction entry)) (le_account_scope entry) (le_related_tx_hash entry)
    (le_related_event_id entry ≫= λ v, result_ok (parse_uuid v))
    (le_related_attempt_id entry ≫= λ v, result_ok (parse_uuid v))
    (le_remark entry) now (le_trace_id entry).
Definition insert_ledger_row (entry : LedgerEntryInsert) (sh : PgShared) (now : DateTime)
    (t : LedgerTables) : result PgError LedgerTables :=
  let row := ledger_row now entry in
  nullable (λ h, references (sh_hands sh) h "ledger_entries" "ledger_entries_hand_id_fkey")
    (lg_hand_id row);;
  nullable (λ a, references_set (sh_agents sh) a "ledger_entries" "ledger_entries_agent_id_fkey")
    (lg_agent_id row);;
  nullable (λ a, references_set (sh_attempts sh) a "ledger_entries"
                   "ledger_entries_related_attempt_id_fkey") (lg_related_attempt_id row);;
  Ok (set_t_ledger (t_ledger_entries t ++ [row]) t).
Definition pg_insert_entries (entries : list LedgerEntryInsert) : Pg unit :=
  in_transaction ledger_database
    (M_iter (λ entry, run_sql (execute (insert_ledger_row entry))) entries).

Definition ledger_entry_of_row (row : LedgerRow) : LedgerEntryInsert :=
  mkLedgerEntryInsert (lg_entry_type row) (lg_room_id row) (lg_hand_id row) (lg_seat_id row)
    (lg_agent_id row) (lg_asset_type row) (chips_of_column (lg_amount row))
    (if String.eqb (lg_direction row) "debit" then Debit else Credit)
    (lg_account_scope row) (lg_related_tx_hash row) (uuid_text <$> lg_related_event_id row)
    (uuid_text <$> lg_related_attempt_id row) (lg_remark row) (lg_trace_id row).
Definition list_ledger_entries_by_room_hand (room_id : option RoomId) (hand_id : option HandId)
    (page : PageRequest) : Pg (list LedgerEntryInsert) :=
  rows ← run_sql (fetch (λ _ t, sql_page page (order_desc lg_created_at
    (filter (λ row, sql_filter room_id (lg_room_id row) && sql_filter hand_id (lg_hand_id row) = true)
       (t_ledger_entries t)))));
  mret (map ledger_entry_of_row rows).
End Ledger.

(** ** [PostgresChainTxRepository] *)

Section ChainTx.
(** [self.chain_id], with its default and [with_chain_id] *)
Context (chain_id : string).

Definition verification_row (record : TxVerificationUpsert) : TxVerificationRow :=
  mkVerificationRow chain_id (tv_observed_from record) (tv_observed_to record)
    (Some (default 0 (tv_observed_amount record))) (tv_status record)
    (N.min i64_max (tv_confirmations record)) (tv_status record) (tv_failure_reason record)
    (Some (tv_verified_at record)).
Definition pg_upsert_tx_verification (record : TxVerificationUpsert) : Pg unit :=
  run_sql (execute (λ _ _ t,
    Ok (set_t_verifications (<[tv_tx_hash record := verification_row record]> (t_tx_verifications t)) t))).

Definition same_action (hand_id : HandId) (action_seq : N) (row : TxBindingRow) : bool :=
  (bw_hand_id row =? hand_id) && (bw_action_seq row =? action_seq).
Definition same_hash (tx_hash : string) (row : TxBindingRow) : bool :=
  String.eqb (bw_tx_hash row) tx_hash.
(** [i32::try_from(action_seq).unwrap_or(i32::MAX)] *)
Definition sql_action_seq (action_seq : N) : N := N.min i32_max action_seq.
Definition binding_row (record : TxBindingInsert) (amount : Chips) : TxBindingRow :=
  mkBindingRow (tb_room_id record) (tb_hand_id record) (sql_action_seq (tb_action_seq record))
    (tb_seat_id record) amount (tb_tx_hash record) (tb_binding_status record) (tb_created_at record).
Definition insert_binding_row (row : TxBindingRow) (sh : PgShared) (_ : DateTime) (t : LedgerTables)
    : result PgError LedgerTables :=
  require (negb (existsb (same_action (bw_hand_id row) (bw_action_seq row)) (t_tx_bindings t)))
    (UniqueViolation "uq_tx_bindings_hand_action_seq");;
  require (negb (existsb (same_hash (bw_tx_hash row)) (t_tx_bindings t)))
    (UniqueViolation "uq_tx_bindings_tx_hash");;
  references (sh_hands sh) (bw_hand_id row) "tx_bindings" "tx_bindings_hand_id_fkey";;
  Ok (set_t_bindings (t_tx_bindings t ++ [row]) t).
(** The error is told by the name of the index in its text. *)
Definition binding_error (e : PgError) : LedgerStoreError :=
  let msg := pg_error_text e in
  if contains_text "uq_tx_bindings_hand_action_seq" msg then DuplicateTxBinding
  else if contains_text "uq_tx_bindings_tx_hash" msg then DuplicateTxHashBinding
  else Database msg.
Definition pg_insert_tx_binding (record : TxBindingInsert) : Pg unit :=
  expected_amount ← lift_result (ok_or MissingExpectedAmount (tb_expected_amount record));
  M_map_err binding_error (execute (insert_binding_row (binding_row record expected_amount))).

Definition credit_row (record : ExceptionCreditUpsert) : CreditRow :=
  mkCreditRow (ec_room_id record) (default 0 (ec_seat_id record)) None (Some (ec_tx_hash record))
    (ec_credit_type record) (ec_amount record) (ec_status record) (Some (ec_reason record))
    (ec_updated_at record) (ec_updated_at record).
(** [DO UPDATE SET]: the hand and the time of creation stay. *)
Definition update_credit (new old : CreditRow) : CreditRow :=
  mkCreditRow (cw_room_id new) (cw_seat_id new) (cw_hand_id old) (cw_tx_hash old)
    (cw_credit_kind new) (cw_amount new) (cw_status new) (cw_reason new) (cw_created_at old)
    (cw_updated_at new).
Fixpoint upsert_credit (new : CreditRow) (rows : list CreditRow) : list CreditRow :=
  match rows with
  | [] => [new]
  | old :: rows =>
      if bool_decide (cw_tx_hash old = cw_tx_hash new) then update_credit new old :: rows
      else old :: upsert_credit new rows
  end.
Definition pg_upsert_exception_credit (record : ExceptionCreditUpsert) : Pg unit :=
  run_sql (execute (λ sh _ t,
    references (sh_rooms sh) (ec_room_id record) "exception_credits" "exception_credits_room_id_fkey";;
    Ok (set_t_credits (upsert_credit (credit_row record) (t_exception_credits t)) t))).

Definition verification_of_row (tx_hash : string) (row : TxVerificationRow) : TxVerificationRecord :=
  mkTxVerificationRecord tx_hash (vr_chain_id row) (vr_from_address row) (vr_to_address row)
    (vr_value row ≫= λ n, parse_numeric_to_chips (numeric_text n)) (vr_tx_status row)
    (vr_confirmations row) (vr_verification_status row) (vr_failure_reason row)
    (vr_verified_at row).
Definition pg_get_tx_verification (tx_hash : string) : Pg (option TxVerificationRecord) :=
  row ← run_sql (fetch (λ _ t, t_tx_verifications t !! tx_hash));
  mret (verification_of_row tx_hash <$> row).

Definition binding_of_row (row : TxBindingRow) : TxBindingRecord :=
  mkTxBindingRecord (bw_room_id row) (bw_hand_id row) (bw_action_seq row) (bw_seat_id row)
    (chips_of_column (bw_expected_amount row)) (bw_tx_hash row) (bw_binding_status row)
    (bw_bound_at row).
Definition pg_get_tx_binding_by_tx_hash (tx_hash : string) : Pg (option TxBindingRecord) :=
  row ← run_sql (fetch (λ _ t, find (same_hash tx_hash) (t_tx_bindings t)));
  mret (binding_of_row <$> row).
Definition pg_get_tx_binding_by_hand_action (hand_id : HandId) (action_seq : N)
    : Pg (option TxBindingRecord) :=
  row ← run_sql (fetch (λ _ t,
    find (same_action hand_id (sql_action_seq action_seq)) (t_tx_bindings t)));
  mret (binding_of_row <$> row).

Definition credit_of_row (row : CreditRow) : ExceptionCreditRecord :=
  mkExceptionCreditRecord (cw_room_id row) (cw_seat_id row) (cw_hand_id row) (cw_tx_hash row)
    (cw_credit_kind row) (chips_of_column (cw_amount row)) (cw_status row) (cw_reason row)
    (cw_created_at row) (cw_updated_at row).
Definition pg_list_exception_credits (room_id : option RoomId) (page : PageRequest)
    : Pg (list ExceptionCreditRecord) :=
  rows ← run_sql (fetch (λ _ t, sql_page page (order_desc cw_updated_at
    (filter (λ row, sql_filter room_id (Some (cw_room_id row)) = true) (t_exception_credits t)))));
  mret (map credit_of_row rows).
End ChainTx.

(** [PostgresChainTxRepository::new] *)
Definition default_chain_id : string := "cfx-espace".

(** [WHERE room_id = $1 AND status = 'active' ORDER BY key_version DESC LIMIT 1] *)
Definition newest_active_key (room_id : RoomId) (rows : list RoomSigningKeyRecord)
    : option RoomSigningKeyRecord :=
  head (sort_by (λ x y, (rk_key_version y <=? rk_key_version x)%Z)
    (filter (λ k, (rk_room_id k =? room_id) && String.eqb (rk_status k) "active" = true) rows)).
Definition pg_get_active_room_signing_key (room_id : RoomId) : Pg (option RoomSigningKeyRecord) :=
  run_sql (fetch (λ _ t, newest_active_key room_id (t_room_signing_keys t))).

(** ** Settlements *)

Definition insert_plan_row (record : SettlementPlanRecordInsert) (sh : PgShared) (_ : DateTime)
    (t : LedgerTables) : result PgError LedgerTables :=
  require (bool_decide (t_settlement_plans t !! spr_settlement_plan_id record = None))
    (UniqueViolation "settlement_plans_pkey");;
  references (sh_rooms sh) (spr_room_id record) "settlement_plans" "settlement_plans_room_id_fkey";;
  references (sh_hands sh) (spr_hand_id record) "settlement_plans" "settlement_plans_hand_id_fkey";;
  Ok (set_t_plans (<[spr_settlement_plan_id record := record]> (t_settlement_plans t)) t).
Definition pg_insert_settlement_plan (record : SettlementPlanRecordInsert) : Pg unit :=
  run_sql (execute (insert_plan_row record)).

Definition insert_record_row (record : SettlementRecordInsert) (sh : PgShared) (_ : DateTime)
    (t : LedgerTables) : result PgError LedgerTables :=
  require (negb (existsb (λ r, sr_settlement_record_id r =? sr_settlement_record_id record)
                   (t_settlement_records t))) (UniqueViolation "settlement_records_pkey");;
  references (t_settlement_plans t) (sr_settlement_plan_id record) "settlement_records"
    "settlement_records_settlement_plan_id_fkey";;
  references (sh_rooms sh) (sr_room_id record) "settlement_records"
    "settlement_records_room_id_fkey";;
  references (sh_hands sh) (sr_hand_id record) "settlement_records"
    "settlement_records_hand_id_fkey";;
  Ok (set_t_records (t_settlement_records t ++ [record]) t).
Definition pg_insert_settlement_record (record : SettlementRecordInsert) : Pg unit :=
  run_sql (execute (insert_record_row record)).

(** The [UPDATE] changes the rows that the in-memory store changes. *)
Definition pg_update_status_by_tx_hash (update : SettlementRecordStatusUpdate) : Pg unit :=
  run_sql (execute (λ _ _ t,
    Ok (set_t_records (map (apply_status_update update) (t_settlement_records t)) t))).

Definition pg_upsert_showdown_input (record : SettlementShowdownInputRecord) : Pg unit :=
  run_sql (execute (λ sh _ t,
    references (sh_rooms sh) (sh_room_id record) "settlement_showdown_inputs"
      "settlement_showdown_inputs_room_id_fkey";;
    references (sh_hands sh) (sh_hand_id record) "settlement_showdown_inputs"
      "settlement_showdown_inputs_hand_id_fkey";;
    Ok (set_t_inputs (<[sh_hand_id record := record]> (t_showdown_inputs t)) t))).

Definition plan_of_row (row : SettlementPlanRecordInsert) : SettlementPlanRecordInsert :=
  mkSettlementPlanRecordInsert (spr_settlement_plan_id row) (spr_room_id row) (spr_hand_id row)
    (spr_status row) (chips_of_column (spr_rake_amount row)) (chips_of_column (spr_payout_total row))
    (spr_payload_json row) (spr_created_at row) (spr_finalized_at row).
Definition pg_get_settlement_plan (settlement_plan_id : Uuid)
    : Pg (option SettlementPlanRecordInsert) :=
  row ← run_sql (fetch (λ _ t, t_settlement_plans t !! settlement_plan_id));
  mret (plan_of_row <$> row).
Definition pg_list_records_by_hand (hand_id : HandId) : Pg (list SettlementRecordInsert) :=
  run_sql (fetch (λ _ t, sort_by_key sr_created_at
    (filter (λ r, sr_hand_id r = hand_id) (t_settlement_records t)))).
Definition pg_get_showdown_input (hand_id : HandId) : Pg (option SettlementShowdownInputRecord) :=
  run_sql (fetch (λ _ t, t_showdown_inputs t !! hand_id)).

(** ** [PostgresRoomAdminReadRepository] *)

Section RoomAdmin.
Context {UT : UuidText}.

(** [ORDER BY h.hand_no DESC LIMIT 1] *)
Definition latest_hand (room_id : RoomId) (hands : gmap HandId HandTableRow)
    : option (HandId * HandTableRow) :=
  head (order_desc (λ e, ht_hand_no (snd e))
          (filter (λ e, ht_room_id (snd e) = room_id) (map_to_list hands))).
Definition occupied_seats (room_id : RoomId) (seats : list (RoomId * option AgentId)) : N :=
  N.of_nat (length (filter (λ e, (fst e =? room_id) && bool_decide (is_Some (snd e)) = true) seats)).
Definition open_credits (room_id : RoomId) (rows : list CreditRow) : list CreditRow :=
  filter (λ row, (cw_room_id row =? room_id) && String.eqb (cw_status row) "open" = true) rows.
(** [u16::try_from(n).unwrap_or_default()] *)
Definition u16_or_default (n : N) : N := if n <=? 65535 then n else 0.
Definition room_aggregate (room_id : RoomId) (sh : PgShared) (t : LedgerTables)
    : option RoomAdminAggregate :=
  (λ room,
     let hand := latest_hand room_id (sh_hands sh) in
     let credits := open_credits room_id (t_exception_credits t) in
     mkRoomAggregate room_id (rt_room_status room) (rt_dealer_address room)
       (u16_or_default (rt_max_players room)) (u16_or_default (occupied_seats room_id (sh_room_seats sh)))
       (uuid_text ∘ fst <$> hand) (ht_hand_no ∘ snd <$> hand) (ht_hand_status ∘ snd <$> hand)
       (ht_started_at ∘ snd <$> hand) (N.of_nat (length credits))
       (numeric_text (nsum (map cw_amount credits))))
    <$> sh_rooms sh !! room_id.
Definition PostgresRoomAdminReadRepository : RoomAdminReadRepository LedgerServer := {|
  get_room_admin_aggregate room_id :=
    M_map_err pg_error_text (fetch_joined (room_aggregate room_id));
|}.
End RoomAdmin.

(** ** The repositories *)

Definition PostgresLedgerRepository {PU : ParseUuid} : LedgerRepository LedgerServer :=
  {| insert_entries := pg_insert_entries |}.
Definition PostgresChainTxRepository (chain_id : string) : ChainTxRepository LedgerServer := {|
  upsert_tx_verification := pg_upsert_tx_verification chain_id;
  insert_tx_binding := pg_insert_tx_binding;
  upsert_exception_credit := pg_upsert_exception_credit;
|}.
Definition PostgresChainTxReadRepository : ChainTxReadRepository LedgerServer := {|
  get_tx_verification := pg_get_tx_verification;
  get_tx_binding_by_tx_hash := pg_get_tx_binding_by_tx_hash;
  get_tx_binding_by_hand_action := pg_get_tx_binding_by_hand_action;
  list_exception_credits := pg_list_exception_credits;
|}.
Definition PostgresSigningKeys : RoomSigningKeyReadRepository LedgerServer :=
  {| get_active_room_signing_key := pg_get_active_room_signing_key |}.
Definition PostgresSettlement : SettlementPersistenceRepository LedgerServer := {|
  insert_settlement_plan := pg_insert_settlement_plan;
  insert_settlement_record := pg_insert_settlement_record;
  update_settlement_record_status_by_tx_hash := pg_update_status_by_tx_hash;
  upsert_settlement_showdown_input := pg_upsert_showdown_input;
|}.
Definition PostgresSettlementRead : SettlementPersistenceReadRepository LedgerServer := {|
  get_settlement_plan := pg_get_settlement_plan;
  list_settlement_records_by_hand := pg_list_records_by_hand;
  get_settlement_showdown_input := pg_get_showdown_input;
|}.
