(* ===== verification/LedgerPostgresProps.v ===== *)
(** The repositories over PostgreSQL: they answer as the in-memory stores do, ledger
    entries are written all or none whatever becomes of the exchanges with the server, and
    what is written is read back; and where the two kinds of store differ. *)

From stdpp Require Import base tactics option list gmap strings sorting pretty.
From Stdlib Require Import NArith ZArith Lia.
From S2P Require Import Prelude.
From S2P Require Import Text.
From S2P Require Import Domain.
From S2P Require Import Ambient.
From S2P Require Import LedgerStore.
From S2P Require Import LedgerProps.
From S2P Require Import AppSinks.
From S2P Require Import OpsHttp.
From S2P Require Import Postgres.
From S2P Require Import LedgerPostgres.

Local Open Scope N_scope.

Lemma column_reads n : n ≤ u128_max → parse_numeric_to_chips (numeric_text n) = Some n.
Proof. intros H. unfold parse_numeric_to_chips, numeric_text. by rewrite parse_pretty. Qed.
Lemma chips_read n : n ≤ u128_max → chips_of_column n = n.
Proof. intros H. unfold chips_of_column. by rewrite column_reads. Qed.

Lemma run_sql_fetch {A} (query : DateTime → LedgerTables → A) (s : LedgerServer) :
  pg_faults s = [] → run_sql (fetch query) s = (s, Ok (query (pg_now s) (pg_tables s))).
Proof. intros Hf. unfold run_sql, M_map_err. by rewrite fetch_run. Qed.

(** ** Ledger entries *)

Section Ledger.
Context {PU : ParseUuid} {UT : UuidText}.

Lemma insert_ledger_row_ok entry sh now t t' :
  insert_ledger_row entry sh now t = Ok t' →
  t' = set_t_ledger (t_ledger_entries t ++ [ledger_row now entry]) t.
Proof.
  unfold insert_ledger_row. mrun.
  destruct (nullable _ _) as [[]|]; [|done]. destruct (nullable _ _) as [[]|]; [|done].
  destruct (nullable _ _) as [[]|]; [|done]. by intros [= <-].
Qed.

Lemma insert_rows_ok entries (s s' : LedgerServer) :
  M_iter (λ entry, run_sql (execute (insert_ledger_row entry))) entries s = (s', Ok tt) →
  pg_tables s' = set_t_ledger (t_ledger_entries (pg_tables s)
                                 ++ map (ledger_row (pg_now s)) entries) (pg_tables s) ∧
  pg_now s' = pg_now s.
Proof.
  revert s. induction entries as [|entry entries IH]; intros s.
  { intros [= <-]. cbn. rewrite app_nil_r. by destruct (pg_tables s). }
  cbn [M_iter]. unfold mbind, M_mbind, M_bind, run_sql at 1, M_map_err.
  destruct (execute (insert_ledger_row entry) s) as [s1 [[]|e]] eqn:Hex; cbn [result_map_err]; [|done].
  apply execute_succeeds in Hex as (Hrow & _ & Hnow & _). apply insert_ledger_row_ok in Hrow.
  intros [Ht Hn]%IH. rewrite Hrow, Hnow in Ht. rewrite Ht, Hn. split; [|done].
  cbn. by rewrite <- app_assoc.
Qed.

Lemma insert_rows_consumes entries :
  consumes (M_iter (λ entry, run_sql (execute (T := LedgerTables) (insert_ledger_row entry))) entries).
Proof. apply consumes_iter. intros entry. apply consumes_map_err, consumes_execute. Qed.

(** The insertion, whatever becomes of its exchanges. *)
Lemma insert_entries_cases entries (s : LedgerServer) :
  let '(s', r) := pg_insert_entries entries s in
  (pg_tables s' = pg_tables s ∧ r ≠ Ok tt) ∨
  (pg_tables s' = set_t_ledger (t_ledger_entries (pg_tables s)
                                  ++ map (ledger_row (pg_now s)) entries) (pg_tables s) ∧
   (r = Ok tt ∨ ∃ m, r = Err (ledger_database (PgFault m)) ∧ AnswerLost m ∈ pg_faults s)).
Proof.
  pose proof (in_transaction_cases ledger_database _ s (insert_rows_consumes entries)) as Hcases.
  fold (pg_insert_entries entries) in Hcases. destruct (pg_insert_entries entries s) as [s' r].
  destruct Hcases as [?|(s0 & s1 & Ht0 & _ & Hn0 & Hbody & Ht2 & Hr)]; [by left|right].
  split; [|done]. apply insert_rows_ok in Hbody as [Ht1 _]. by rewrite Ht2, Ht1, Ht0, Hn0.
Qed.

(** The row that records an entry, column by column. *)
Record records_entry (now : DateTime) (entry : LedgerEntryInsert) (row : LedgerRow) : Prop := {
  re_type : lg_entry_type row = le_entry_type entry;
  re_room : lg_room_id row = le_room_id entry;
  re_hand : lg_hand_id row = le_hand_id entry;
  re_seat : lg_seat_id row = le_seat_id entry;
  re_agent : lg_agent_id row = le_agent_id entry;
  re_asset : lg_asset_type row = le_asset_type entry;
  re_amount : lg_amount row = le_amount entry;
  re_direction : lg_direction row
    = match le_direction entry with Debit => "debit" | Credit => "credit" end%string;
  re_scope : lg_account_scope row = le_account_scope entry;
  re_tx_hash : lg_related_tx_hash row = le_related_tx_hash entry;
  re_event u : lg_related_event_id row = Some u ↔
    ∃ v, le_related_event_id entry = Some v ∧ parse_uuid v = Ok u;
  re_attempt u : lg_related_attempt_id row = Some u ↔
    ∃ v, le_related_attempt_id entry = Some v ∧ parse_uuid v = Ok u;
  re_remark : lg_remark row = le_remark entry;
  re_created : lg_created_at row = now;
  re_trace : lg_trace_id row = le_trace_id entry;
}.
Lemma parsed_id (v : option string) u :
  (v ≫= λ v, result_ok (parse_uuid v)) = Some u ↔ ∃ w, v = Some w ∧ parse_uuid w = Ok u.
Proof.
  destruct v as [v|]; cbn; [|by split; [|intros (? & ? & _)]].
  split.
  - intros Hu. exists v. split; [done|]. destruct (parse_uuid v); [by injection Hu as ->|done].
  - by intros (w & [= <-] & ->).
Qed.
Lemma ledger_rows_record now entries :
  Forall2 (records_entry now) entries (map (ledger_row now) entries).
Proof.
  induction entries as [|entry entries IH]; constructor; [|done].
  split; try done; intros u; apply parsed_id.
Qed.

(** C24. Ledger entries are written all or none. Whatever becomes of the exchanges with the
    server (a request that does not arrive, an answer that is lost, at the begin, at a
    statement, at the commit) and whatever the entries refer to, a call that succeeds has
    appended exactly one row per entry, in order and with its columns, and nothing else.
    A call that fails has left every table as it was, or it has appended all the rows:
    the second only when the server committed and the answer to that was lost, of which
    the caller is told. There is never a part of them. *)
Theorem ledger_entries_are_all_or_none entries (s : LedgerServer) :
  let '(s', r) := pg_insert_entries entries s in
  let appended := ∃ rows, Forall2 (records_entry (pg_now s)) entries rows ∧
    pg_tables s' = set_t_ledger (t_ledger_entries (pg_tables s) ++ rows) (pg_tables s) in
  match r with
  | Ok _ => appended
  | Err e => pg_tables s' = pg_tables s ∨
             (appended ∧ ∃ m, e = ledger_database (PgFault m) ∧ AnswerLost m ∈ pg_faults s)
  end.
Proof.
  pose proof (insert_entries_cases entries s) as Hcases.
  pose proof (ledger_rows_record (pg_now s) entries) as Hrows.
  destruct (pg_insert_entries entries s) as [s' r].
  destruct Hcases as [[Ht Hr]|[Ht Hr]].
  - destruct r as [[]|e]; [done|by left].
  - destruct r as [[]|e]; [by eexists|]. right. split; [by eexists|].
    destruct Hr as [?|(m & [= ->] & Hm)]; [done|by exists m].
Qed.

(** *** Reading back *)

Lemma sql_count_id n : N.of_nat n ≤ i64_max → sql_count n = n.
Proof. intros H. unfold sql_count. rewrite N.min_r by done. by rewrite Nat2N.id. Qed.

(** An entry that the table can hold: its amount is an amount, and what it relates to is
    named by identifiers. *)
Definition storable (entry : LedgerEntryInsert) : Prop :=
  le_amount entry ≤ u128_max ∧
  (∀ v, le_related_event_id entry = Some v → ∃ u, v = uuid_text u) ∧
  (∀ v, le_related_attempt_id entry = Some v → ∃ u, v = uuid_text u).
(** [Uuid::parse_str] reads what [Display] writes. *)
Definition uuid_text_parses : Prop := ∀ u, parse_uuid (uuid_text u) = Ok u.

Lemma ledger_row_read now entry :
  uuid_text_parses → storable entry → ledger_entry_of_row (ledger_row now entry) = entry.
Proof.
  intros Hp (Ha & He & Ht). destruct entry as [ty room hand seat agent asset amount dir scope hash ev att rem tr].
  unfold ledger_entry_of_row, ledger_row. cbn in *. rewrite chips_read by done.
  assert (∀ o, (∀ v, o = Some v → ∃ u, v = uuid_text u) →
    uuid_text <$> (o ≫= λ v, result_ok (parse_uuid v)) = o) as Hid.
  { intros [v|] Hv; [|done]. destruct (Hv v eq_refl) as [u ->]. cbn. by rewrite Hp. }
  rewrite !Hid by done. by destruct dir.
Qed.

(** What is written to the ledger is read back. After a successful insertion, a page
    that is large enough lists, in some order, what was there before and exactly the
    entries that were inserted, every field as it was given. *)
Theorem stored_entries_are_read_back entries (s s' : LedgerServer) page
    (Hparse : uuid_text_parses) (Hfits : Forall storable entries)
    (Hinsert : pg_insert_entries entries s = (s', Ok tt)) (Hfaults : pg_faults s' = [])
    (Hpage : pg_offset page = 0%nat ∧ N.of_nat (pg_limit page) ≤ i64_max ∧
       (length (t_ledger_entries (pg_tables s)) + length entries ≤ pg_limit page)%nat) :
  ∃ listed, list_ledger_entries_by_room_hand None None page s' = (s', Ok listed) ∧
    listed ≡ₚ map ledger_entry_of_row (t_ledger_entries (pg_tables s)) ++ entries.
Proof.
  assert (t_ledger_entries (pg_tables s')
          = t_ledger_entries (pg_tables s) ++ map (ledger_row (pg_now s)) entries) as Hrows.
  { pose proof (insert_entries_cases entries s) as Hcases. rewrite Hinsert in Hcases.
    destruct Hcases as [[_ []]|[-> _]]; done. }
  unfold list_ledger_entries_by_room_hand, mbind, M_mbind, M_bind.
  rewrite run_sql_fetch by done. cbv beta iota. eexists. split; [reflexivity|].
  destruct Hpage as (Ho & Hl & Hlen). unfold sql_page. rewrite Ho. rewrite sql_count_id by done.
  change (drop (sql_count 0)) with (drop (A := LedgerRow) 0). rewrite drop_0.
  assert (∀ l : list LedgerRow, filter (λ row, sql_filter None (lg_room_id row)
            && sql_filter None (lg_hand_id row) = true) l = l) as Hall.
  { intros l. induction l as [|x l IH]; [done|]. rewrite filter_cons, decide_True by done.
    by rewrite IH. }
  rewrite Hall, take_ge.
  - unfold order_desc. rewrite sort_by_perm, Hrows, map_app, map_map.
    f_equiv. replace (map _ entries) with entries; [done|]. clear -Hparse Hfits.
    induction Hfits as [|x l Hx _ IH]; [done|]. cbn. by rewrite ledger_row_read, <- IH.
  - unfold order_desc. rewrite sort_by_length, Hrows, length_app, length_map. lia.
Qed.
End Ledger.

(** ** The two stores of chain transactions answer alike *)

Inductive ChainOp :=
| OpVerify (record : TxVerificationUpsert)
| OpBind (record : TxBindingInsert)
| OpCredit (record : ExceptionCreditUpsert)
| OpGetVerification (tx_hash : string)
| OpGetByHash (tx_hash : string)
| OpGetByAction (hand_id : HandId) (action_seq : N).
Inductive ChainAnswer :=
| AnsDone (r : result LedgerStoreError unit)
| AnsVerification (r : result LedgerStoreError (option TxVerificationRecord))
| AnsBinding (r : result LedgerStoreError (option TxBindingRecord)).

Definition run_op {W} (CT : ChainTxRepository W) (CR : ChainTxReadRepository W) (op : ChainOp) (w : W)
    : W * ChainAnswer :=
  match op with
  | OpVerify r => let '(w, a) := upsert_tx_verification r w in (w, AnsDone a)
  | OpBind r => let '(w, a) := insert_tx_binding r w in (w, AnsDone a)
  | OpCredit r => let '(w, a) := upsert_exception_credit r w in (w, AnsDone a)
  | OpGetVerification h => let '(w, a) := get_tx_verification h w in (w, AnsVerification a)
  | OpGetByHash h => let '(w, a) := get_tx_binding_by_tx_hash h w in (w, AnsBinding a)
  | OpGetByAction h n => let '(w, a) := get_tx_binding_by_hand_action h n w in (w, AnsBinding a)
  end.
Fixpoint run_ops {W} (CT : ChainTxRepository W) (CR : ChainTxReadRepository W) (ops : list ChainOp)
    (w : W) : list ChainAnswer :=
  match ops with
  | [] => []
  | op :: ops => let '(w, a) := run_op CT CR op w in a :: run_ops CT CR ops w
  end.







(** *** One operation *)



Abbreviation memory_op := (run_op in_memory_chain_tx in_memory_chain_tx_read).
Abbreviation postgres_op :=
  (run_op (PostgresChainTxRepository default_chain_id) PostgresChainTxReadRepository).











(** ** Where they differ *)

Definition an_upsert (amount : option Chips) : TxVerificationUpsert :=
  mkTxVerificationUpsert "0xfeed" 1 (Some 11) (Some 0) (Some 1) "pending" 0 None None None amount 5 9.

(** An amount that was not seen is stored as zero, and read as an amount of zero. *)
Theorem unseen_amount_becomes_zero sh now :
  let ops := [OpVerify (an_upsert None); OpGetVerification "0xfeed"] in
  let amount a := match a with AnsVerification (Ok (Some r)) => tvr_value r | _ => None end in
  map amount (run_ops (PostgresChainTxRepository default_chain_id) PostgresChainTxReadRepository ops
                (mkServer [] now sh ledger_tables_empty)) = [None; Some 0] ∧
  map amount (run_ops in_memory_chain_tx in_memory_chain_tx_read ops InMemoryChainTx_new)
  = [None; None].
Proof. by vm_compute. Qed.

(** A credit that is updated keeps its time of creation in PostgreSQL; the store in memory
    gives the time of the update for it. *)
Theorem updated_credit_loses_its_creation_in_memory now :
  let sh := mkShared {[1 := mkRoomTableRow "active" "0xroom" 9 360000 300 0]} ∅ ∅ ∅ ∅ [] in
  let credit at_time := mkExceptionCreditUpsert 1 (Some 0) "0xfeed" "late" 200 "open" "" at_time 9 in
  let all := mkPageRequest 10 0 in
  let created r := match r with Ok l => map ecr_created_at l | Err _ => [] end in
  created (snd ((upsert_exception_credit (credit 5);; upsert_exception_credit (credit 6);;
                 in_memory_list_exception_credits None all) InMemoryChainTx_new)) = [6] ∧
  created (snd ((pg_upsert_exception_credit (credit 5);; pg_upsert_exception_credit (credit 6);;
                 pg_list_exception_credits None all) (mkServer [] now sh ledger_tables_empty))) = [5].
Proof. by vm_compute. Qed.

(** The store in memory hands out a signing key that was revoked; PostgreSQL does not. *)
Theorem revoked_key_is_active_in_memory now sh :
  let key := mkRoomSigningKeyRecord 1 "0xroom" [] "aes" 1 "kek" [] [] "revoked" 5 None (Some 6) in
  snd ((upsert_room_signing_key_record key;; in_memory_get_active_room_signing_key 1)
         InMemoryChainTx_new) = Ok (Some key) ∧
  snd (pg_get_active_room_signing_key 1 (mkServer [] now sh
         (mkLedgerTables [] ∅ [] [] [key] ∅ [] ∅))) = Ok None.
Proof. by vm_compute. Qed.

(** A hand of a room that has had a hand of that number is not stored. *)
Theorem repeated_hand_number_is_refused (row : HandRow) hand_id old (s : LedgerServer)
    (Hhealthy : pg_faults s = [])
    (Hold : sh_hands (pg_shared s) !! hand_id = Some old) (Hother : hand_id ≠ hr_hand_id row)
    (Hroom : ht_room_id old = hr_room_id row) (Hno : ht_hand_no old = hr_hand_no row) :
  upsert_hand_row row s
  = (s, Err (pg_error_text (UniqueViolation "uq_hands_room_hand_no"))).
Proof.
  unfold upsert_hand_row, M_map_err, execute_shared. rewrite exchange_run by done. mrun.
  assert (hand_no_taken (hr_hand_id row) (hr_room_id row) (hr_hand_no row) (sh_hands (pg_shared s))
          = true) as ->; [|done].
  unfold hand_no_taken. apply existsb_exists. exists (hand_id, old). split.
  - by apply list_elem_of_In, elem_of_map_to_list.
  - cbn. rewrite Hroom, Hno, !N.eqb_refl. by destruct (N.eqb_spec hand_id (hr_hand_id row)).
Qed.

(** ** A concrete server *)

Definition demo_shared : PgShared :=
  mkShared {[1 := mkRoomTableRow "active" "0xroom" 9 360000 300 0]}
    {[11 := mkHandTableRow 1 1 "Running" "Preflop" None 1 "0" 0 None]} ∅ ∅ ∅ [].

(** Identifiers written in unary. *)
Fixpoint tally (n : nat) : string := match n with O => EmptyString | S n => String (Ascii.ascii_of_nat 120) (tally n) end.
Lemma tally_length n : String.length (tally n) = n.
Proof. induction n as [|n IH]; cbn; congruence. Qed.
#[local] Instance unary_parse : ParseUuid := {| parse_uuid s := Ok (N.of_nat (String.length s)) |}.
#[local] Instance unary_text : UuidText := {| uuid_text u := tally (N.to_nat u) |}.
Lemma unary_parses : uuid_text_parses.
Proof. intros u. cbn. by rewrite tally_length, N2Nat.id. Qed.

Definition demo_entry (amount : Chips) (direction : LedgerDirection) : LedgerEntryInsert :=
  mkLedgerEntryInsert "settlement_payout" (Some 1) (Some 11) (Some 0) None "native" amount direction
    "room" None (Some (uuid_text 3)) None (Some "a remark"%string) 9.
Definition demo_entries : list LedgerEntryInsert := [demo_entry 200 Debit; demo_entry 200 Credit].
Definition demo_server : LedgerServer := mkServer [] 7 demo_shared ledger_tables_empty.
Definition demo_written : LedgerServer := fst (pg_insert_entries demo_entries demo_server).

Lemma demo_entries_fit : Forall storable demo_entries.
Proof.
  repeat constructor; cbn; try done; intros v [= <-]; by exists 3.
Qed.
Lemma stored_entries_are_read_back_witness :
  ∃ listed, list_ledger_entries_by_room_hand None None PageRequest_default demo_written
            = (demo_written, Ok listed) ∧ listed ≡ₚ demo_entries.
Proof.
  exact (stored_entries_are_read_back demo_entries demo_server demo_written PageRequest_default
    unary_parses demo_entries_fit eq_refl eq_refl ltac:(vm_compute; intuition (discriminate || lia))).
Defined.
