(* ===== verification/AuditPostgres.v ===== *)
(** The repository of [audit-store/src/lib.rs] over PostgreSQL. The foreign keys of the
    schema are part of the statements; serde's encoding of an event's kind is a
    parameter. *)

From stdpp Require Import base tactics option list gmap strings sorting pretty.
From Stdlib Require Import NArith Lia.
From S2P Require Import Prelude.
From S2P Require Import Text.
From S2P Require Import Domain.
From S2P Require Import Ambient.
From S2P Require Import LedgerStore.
From S2P Require Import AuditStore.
From S2P Require Import AppSinks.
From S2P Require Import OpsHttp.
From S2P Require Import Postgres.
From S2P Require Import LedgerPostgres.

Local Open Scope N_scope.

(** [serde_json::to_value] and [from_value] of [HandEventKind]. *)
Class HandKindCodec := {
  hand_kind_to_value : HandEventKind → result string Json;
  hand_kind_from_value : Json → result string HandEventKind;
}.

(** ** Tables *)

Record AttemptRow := mkAttemptRow {
  aw_attempt_id : Uuid;
  aw_request_id : Uuid;
  aw_request_nonce : string;
  aw_agent_id : option AgentId;
  aw_session_id : option SessionId;
  aw_room_id : option RoomId;
  aw_hand_id : option HandId;
  aw_seat_id : option N;
  aw_action_seq : option N;
  aw_method : string;
  aw_action_type : option string;
  aw_request_payload_json : Json;
  aw_signature_verify_result : string;
  aw_replay_check_result : string;
  aw_idempotency_check_result : string;
  aw_validation_result : string;
  aw_router_result : string;
  aw_business_result_code : option string;
  aw_error_detail : option string;
  aw_received_at : DateTime;
  aw_completed_at : option DateTime;
  aw_trace_id : TraceId;
}.
Record BehaviorRow := mkBehaviorRow {
  hw_behavior_event_id : Uuid;
  hw_event_kind : string;
  hw_event_source : string;
  hw_room_id : option RoomId;
  hw_hand_id : option HandId;
  hw_seat_id : option N;
  hw_action_seq : option N;
  hw_related_attempt_id : option Uuid;
  hw_related_tx_hash : option string;
  hw_severity : string;
  hw_payload_json : Json;
  hw_occurred_at : DateTime;
  hw_trace_id : TraceId;
}.
Record HandEventRow := mkHandEventRow {
  ew_room_id : RoomId;
  ew_hand_id : HandId;
  ew_event_seq : N;
  ew_event_type : string;
  ew_event_payload_json : Json;
  ew_created_at : DateTime;
  ew_trace_id : TraceId;
}.
Record OutboxRow := mkOutboxRow {
  ow_outbox_event_id : Uuid;
  ow_topic : string;
  ow_partition_key : string;
  ow_payload_json : Json;
  ow_status : string;
  ow_attempts : N;
  ow_available_at : DateTime;
  ow_delivered_at : option DateTime;
  ow_created_at : DateTime;
}.
Record AuditTables := mkAuditTables {
  t_attempts : list AttemptRow;
  t_behavior : list BehaviorRow;
  t_hand_events : list HandEventRow;
  t_outbox : list OutboxRow;
}.
Definition audit_tables_empty : AuditTables := mkAuditTables [] [] [] [].
Definition set_t_attempts x (t : AuditTables) : AuditTables :=
  mkAuditTables x (t_behavior t) (t_hand_events t) (t_outbox t).
Definition set_t_behavior x (t : AuditTables) : AuditTables :=
  mkAuditTables (t_attempts t) x (t_hand_events t) (t_outbox t).
Definition set_t_hand_events x (t : AuditTables) : AuditTables :=
  mkAuditTables (t_attempts t) (t_behavior t) x (t_outbox t).
Definition set_t_outbox x (t : AuditTables) : AuditTables :=
  mkAuditTables (t_attempts t) (t_behavior t) (t_hand_events t) x.

Abbreviation AuditServer := (PgServer AuditTables).
Abbreviation Pg A := (M AuditServer AuditStoreError A) (only parsing).
Definition audit_database (e : PgError) : AuditStoreError := ADatabase (pg_error_text e).
Definition audit_sql {A} (m : M AuditServer PgError A) : Pg A := M_map_err audit_database m.

(** [opt_i16] is the identity on seats; [opt_i32] drops what does not fit. *)
Definition opt_i32 (v : option N) : option N := v ≫= λ n, if n <=? i32_max then Some n else None.

Definition hand_event_type (kind : HandEventKind) : string :=
  match kind with
  | HandStarted => "HandStarted"
  | TurnStarted _ => "TurnStarted"
  | ActionAccepted _ => "ActionAccepted"
  | StreetChanged _ => "StreetChanged"
  | PotUpdated _ => "PotUpdated"
  | HandClosed => "HandClosed"
  end.

Section Audit.
Context {PU : ParseUuid} {UT : UuidText} {KC : HandKindCodec}.

Definition parse_uuid_field (field value : string) : result AuditStoreError Uuid :=
  result_map_err (λ _, AInvalidUuid field value) (parse_uuid value).

(** ** Attempts *)

Definition attempt_row (attempt_id request_id : Uuid) (record : ActionAttemptRecord) : AttemptRow :=
  mkAttemptRow attempt_id request_id (aa_request_nonce record) (aa_agent_id record)
    (aa_session_id record) (aa_room_id record) (aa_hand_id record) (aa_seat_id record)
    (opt_i32 (aa_action_seq record)) (aa_method record) (aa_action_type record)
    (aa_request_payload_json record) (aa_signature_verify_result record)
    (aa_replay_check_result record) (aa_idempotency_check_result record)
    (aa_validation_result record) (aa_router_result record) (aa_business_result_code record)
    (aa_error_detail record) (aa_received_at record) (aa_completed_at record)
    (aa_trace_id record).
(** [DO UPDATE SET] *)
Definition update_attempt (new old : AttemptRow) : AttemptRow :=
  mkAttemptRow (aw_attempt_id old) (aw_request_id old) (aw_request_nonce old) (aw_agent_id old)
    (aw_session_id old) (aw_room_id old) (aw_hand_id old) (aw_seat_id old) (aw_action_seq old)
    (aw_method old) (aw_action_type old) (aw_request_payload_json old)
    (aw_signature_verify_result new) (aw_replay_check_result new)
    (aw_idempotency_check_result new) (aw_validation_result new) (aw_router_result new)
    (aw_business_result_code new) (aw_error_detail new) (aw_received_at old)
    (aw_completed_at new) (aw_trace_id old).
Definition upsert_attempt (row : AttemptRow) (sh : PgShared) (_ : DateTime) (t : AuditTables)
    : result PgError AuditTables :=
  if existsb (λ r, aw_request_id r =? aw_request_id row) (t_attempts t) then
    Ok (set_t_attempts (map (λ r, if aw_request_id r =? aw_request_id row
                                  then update_attempt row r else r) (t_attempts t)) t)
  else
    require (negb (existsb (λ r, aw_attempt_id r =? aw_attempt_id row) (t_attempts t)))
      (UniqueViolation "audit_action_attempts_pkey");;
    nullable (λ a, references_set (sh_agents sh) a "audit_action_attempts"
                     "audit_action_attempts_agent_id_fkey") (aw_agent_id row);;
    nullable (λ a, references_set (sh_sessions sh) a "audit_action_attempts"
                     "audit_action_attempts_session_id_fkey") (aw_session_id row);;
    nullable (λ h, references (sh_hands sh) h "audit_action_attempts"
                     "audit_action_attempts_hand_id_fkey") (aw_hand_id row);;
    Ok (set_t_attempts (t_attempts t ++ [row]) t).
Definition pg_insert_action_attempt (record : ActionAttemptRecord) : Pg unit :=
  attempt_id ← lift_result (parse_uuid_field "attempt_id" (aa_attempt_id record));
  request_id ← lift_result (parse_uuid_field "request_id" (aa_request_id record));
  audit_sql (execute (upsert_attempt (attempt_row attempt_id request_id record))).

Definition row_to_action_attempt_record (row : AttemptRow) : ActionAttemptRecord :=
  mkActionAttempt (uuid_text (aw_attempt_id row)) (uuid_text (aw_request_id row))
    (aw_request_nonce row) (aw_agent_id row) (aw_session_id row) (aw_room_id row)
    (aw_hand_id row) (aw_seat_id row) (aw_action_seq row) (aw_method row) (aw_action_type row)
    (aw_request_payload_json row) (aw_signature_verify_result row) (aw_replay_check_result row)
    (aw_idempotency_check_result row) (aw_validation_result row) (aw_router_result row)
    (aw_business_result_code row) (aw_error_detail row) (aw_received_at row)
    (aw_completed_at row) (aw_trace_id row).
Definition pg_get_action_attempt (request_id : string) : Pg (option ActionAttemptRecord) :=
  request_id ← lift_result (parse_uuid_field "request_id" request_id);
  row ← audit_sql (fetch (λ _ t, find (λ r, aw_request_id r =? request_id) (t_attempts t)));
  mret (row_to_action_attempt_record <$> row).

(** ** Behaviour *)

Definition behavior_row (id : Uuid) (related_attempt_id : option Uuid) (record : BehaviorEventRecord)
    : BehaviorRow :=
  mkBehaviorRow id (be_event_kind record) (be_event_source record) (be_room_id record)
    (be_hand_id record) (be_seat_id record) (opt_i32 (be_action_seq record)) related_attempt_id
    (be_related_tx_hash record) (be_severity record) (be_payload_json record)
    (be_occurred_at record) (be_trace_id record).
Definition insert_behavior_row (row : BehaviorRow) (sh : PgShared) (_ : DateTime) (t : AuditTables)
    : result PgError AuditTables :=
  require (negb (existsb (λ r, hw_behavior_event_id r =? hw_behavior_event_id row) (t_behavior t)))
    (UniqueViolation "audit_behavior_events_pkey");;
  nullable (λ h, references (sh_hands sh) h "audit_behavior_events"
                   "audit_behavior_events_hand_id_fkey") (hw_hand_id row);;
  nullable (λ a, require (existsb (λ r, aw_attempt_id r =? a) (t_attempts t))
                   (ForeignKeyViolation "audit_behavior_events"
                      "audit_behavior_events_related_attempt_id_fkey"))
    (hw_related_attempt_id row);;
  Ok (set_t_behavior (t_behavior t ++ [row]) t).
Definition pg_insert_behavior_event (record : BehaviorEventRecord) : Pg unit :=
  behavior_event_id ← lift_result
    (parse_uuid_field "behavior_event_id" (be_behavior_event_id record));
  related_attempt_id ← lift_result
    (transpose (parse_uuid_field "related_attempt_id") (be_related_attempt_id record));
  audit_sql (execute (insert_behavior_row (behavior_row behavior_event_id related_attempt_id record))).

Definition row_to_behavior_event_record (row : BehaviorRow) : BehaviorEventRecord :=
  mkBehaviorEvent (uuid_text (hw_behavior_event_id row)) (hw_event_kind row) (hw_event_source row)
    (hw_room_id row) (hw_hand_id row) (hw_seat_id row) (hw_action_seq row)
    (uuid_text <$> hw_related_attempt_id row) (hw_related_tx_hash row) (hw_severity row)
    (hw_payload_json row) (hw_occurred_at row) (hw_trace_id row).
Definition pg_list_behavior_events (room_id : option RoomId) (hand_id : option HandId)
    (page : PageRequest) : Pg (list BehaviorEventRecord) :=
  rows ← audit_sql (fetch (λ _ t, sql_page page (order_desc hw_occurred_at
    (filter (λ row, sql_filter room_id (hw_room_id row) && sql_filter hand_id (hw_hand_id row) = true)
       (t_behavior t)))));
  mret (map row_to_behavior_event_record rows).

(** ** Hand events *)

Definition same_event (hand_id : HandId) (event_seq : N) (row : HandEventRow) : bool :=
  (ew_hand_id row =? hand_id) && (ew_event_seq row =? event_seq).
Definition hand_event_row (now : DateTime) (payload : Json) (event : HandEvent) : HandEventRow :=
  mkHandEventRow (he_room_id event) (he_hand_id event) (N.min i32_max (he_event_seq event))
    (hand_event_type (he_kind event)) payload now (he_trace_id event).
(** [ON CONFLICT (hand_id, event_seq) DO NOTHING] *)
Definition insert_hand_event_row (payload : Json) (event : HandEvent) (sh : PgShared)
    (now : DateTime) (t : AuditTables) : result PgError AuditTables :=
  let row := hand_event_row now payload event in
  if existsb (same_event (ew_hand_id row) (ew_event_seq row)) (t_hand_events t) then Ok t
  else
    references (sh_hands sh) (ew_hand_id row) "hand_events" "hand_events_hand_id_fkey";;
    Ok (set_t_hand_events (t_hand_events t ++ [row]) t).
Definition append_event (event : HandEvent) : Pg unit :=
  event_payload ← lift_result (result_map_err ASerialization (hand_kind_to_value (he_kind event)));
  audit_sql (execute (insert_hand_event_row event_payload event)).
Definition pg_append_hand_events (events : list HandEvent) : Pg unit :=
  in_transaction audit_database (M_iter append_event events).

Definition hand_event_of_row (row : HandEventRow) : result AuditStoreError HandEvent :=
  kind ← result_map_err ASerialization (hand_kind_from_value (ew_event_payload_json row));
  Ok (mkHandEvent (ew_room_id row) (ew_hand_id row) (ew_event_seq row) (ew_trace_id row)
        (ew_created_at row) kind).
(** [for row in rows { out.push(..?) }] *)
Fixpoint events_of_rows (rows : list HandEventRow) : result AuditStoreError (list HandEvent) :=
  match rows with
  | [] => Ok []
  | row :: rows => event ← hand_event_of_row row; events ← events_of_rows rows; Ok (event :: events)
  end.
Definition pg_list_hand_events (hand_id : HandId) (page : PageRequest) : Pg (list HandEvent) :=
  rows ← audit_sql (fetch (λ _ t, sql_page page (sort_by_key ew_event_seq
    (filter (λ row, ew_hand_id row = hand_id) (t_hand_events t)))));
  lift_result (events_of_rows rows).

(** ** The outbox *)

Definition outbox_row (id : Uuid) (record : OutboxEventRecord) : OutboxRow :=
  mkOutboxRow id (ob_topic record) (ob_partition_key record) (ob_payload_json record)
    (ob_status record) (N.min i32_max (ob_attempts record)) (ob_available_at record)
    (ob_delivered_at record) (ob_created_at record).
(** [DO UPDATE SET]: all but the time of creation. *)
Definition update_outbox (new old : OutboxRow) : OutboxRow :=
  mkOutboxRow (ow_outbox_event_id old) (ow_topic new) (ow_partition_key new) (ow_payload_json new)
    (ow_status new) (ow_attempts new) (ow_available_at new) (ow_delivered_at new)
    (ow_created_at old).
Fixpoint upsert_outbox (new : OutboxRow) (rows : list OutboxRow) : list OutboxRow :=
  match rows with
  | [] => [new]
  | old :: rows =>
      if ow_outbox_event_id old =? ow_outbox_event_id new then update_outbox new old :: rows
      else old :: upsert_outbox new rows
  end.
Definition pg_insert_outbox_event (record : OutboxEventRecord) : Pg unit :=
  outbox_event_id ← lift_result (parse_uuid_field "outbox_event_id" (ob_outbox_event_id record));
  audit_sql (execute (λ _ _ t,
    Ok (set_t_outbox (upsert_outbox (outbox_row outbox_event_id record) (t_outbox t)) t))).

Definition outbox_of_row (row : OutboxRow) : OutboxEventRecord :=
  mkOutboxEvent (uuid_text (ow_outbox_event_id row)) (ow_topic row) (ow_partition_key row)
    (ow_payload_json row) (ow_status row) (ow_attempts row) (ow_available_at row)
    (ow_delivered_at row) (ow_created_at row).
Definition is_due (now : DateTime) (row : OutboxRow) : bool :=
  String.eqb (ow_status row) "pending" && (ow_available_at row <=? now).
Definition pg_fetch_pending (limit : nat) : Pg (list OutboxEventRecord) :=
  rows ← audit_sql (fetch (λ now t, take (sql_count limit) (sort_by_key ow_created_at
    (filter (λ row, is_due now row = true) (t_outbox t)))));
  mret (map outbox_of_row rows).

Definition mark_row_delivered (id : Uuid) (delivered_at : DateTime) (row : OutboxRow) : OutboxRow :=
  if ow_outbox_event_id row =? id then
    mkOutboxRow (ow_outbox_event_id row) (ow_topic row) (ow_partition_key row)
      (ow_payload_json row) "delivered" (ow_attempts row) (ow_available_at row)
      (Some delivered_at) (ow_created_at row)
  else row.
Definition pg_mark_delivered (outbox_event_id : string) (delivered_at : DateTime) : Pg unit :=
  outbox_event_id ← lift_result (parse_uuid_field "outbox_event_id" outbox_event_id);
  audit_sql (execute (λ _ _ t,
    Ok (set_t_outbox (map (mark_row_delivered outbox_event_id delivered_at) (t_outbox t)) t))).

(** ** The repository *)

Definition PostgresAuditRepository : AuditRepository AuditServer := {|
  insert_action_attempt := pg_insert_action_attempt;
  insert_behavior_event := pg_insert_behavior_event;
  append_hand_events := pg_append_hand_events;
  insert_outbox_event := pg_insert_outbox_event;
  fetch_pending_outbox_events := pg_fetch_pending;
  mark_outbox_event_delivered := pg_mark_delivered;
|}.
Definition PostgresAuditReadRepository : AuditReadRepository AuditServer := {|
  get_action_attempt_by_request_id := pg_get_action_attempt;
  list_behavior_events := pg_list_behavior_events;
  list_hand_events := pg_list_hand_events;
|}.
End Audit.
