(* ===== verification/AuditPostgresProps.v ===== *)
(** The audit repository over PostgreSQL: each event of a hand is kept once, however
    often it is appended, and as it is; and what the foreign keys keep out. *)

From stdpp Require Import base tactics option list gmap strings sorting pretty.
From Stdlib Require Import NArith Lia.
From S2P Require Import Prelude.
From S2P Require Import Text.
From S2P Require Import Domain.
From S2P Require Import Ambient.
From S2P Require Import LedgerStore.
From S2P Require Import AuditStore.
From S2P Require Import AppSinks.
From S2P Require Import GatewayTypes.
From S2P Require Import OpsHttp.
From S2P Require Import Postgres.
From S2P Require Import LedgerPostgres.
From S2P Require Import AuditPostgres.

Local Open Scope N_scope.

Section Audit.
Context {PU : ParseUuid} {UT : UuidText} {KC : HandKindCodec}.

(** ** The log of a hand *)

Definition row_key (row : HandEventRow) : HandId * N := (ew_hand_id row, ew_event_seq row).
Definition event_key (event : HandEvent) : HandId * N :=
  (he_hand_id event, N.min i32_max (he_event_seq event)).
Definition stored (event : HandEvent) (t : AuditTables) : Prop :=
  event_key event ∈ row_key <$> t_hand_events t.
#[local] Instance stored_dec event t : Decision (stored event t).
Proof. unfold stored. apply _. Defined.

Lemma same_event_stored event now payload t :
  existsb (same_event (ew_hand_id (hand_event_row now payload event))
             (ew_event_seq (hand_event_row now payload event))) (t_hand_events t)
  = bool_decide (stored event t).
Proof.
  apply eq_true_iff_eq. rewrite bool_decide_eq_true, existsb_exists. unfold stored.
  rewrite list_elem_of_fmap. unfold same_event, event_key, row_key. cbn. split.
  - intros (row & Hin%list_elem_of_In & [?%N.eqb_eq ?%N.eqb_eq]%andb_true_iff). exists row.
    split; [congruence|done].
  - intros (row & [= -> ->] & Hin). exists row. split; [by apply list_elem_of_In|]. by rewrite !N.eqb_refl.
Qed.

(** The events of a list whose key is new: not in [seen], and the first of its key. *)
Fixpoint new_events (seen : list (HandId * N)) (events : list HandEvent) : list HandEvent :=
  match events with
  | [] => []
  | e :: events =>
      if decide (event_key e ∈ seen) then new_events seen events
      else e :: new_events (event_key e :: seen) events
  end.
(** The row that logs an event, column by column; [now] is the server's time. *)
Record logs_event (now : DateTime) (e : HandEvent) (row : HandEventRow) : Prop := {
  lo_room : ew_room_id row = he_room_id e;
  lo_hand : ew_hand_id row = he_hand_id e;
  lo_seq : ew_event_seq row = N.min i32_max (he_event_seq e);
  lo_type : ew_event_type row
    = match he_kind e with
      | HandStarted => "HandStarted" | TurnStarted _ => "TurnStarted"
      | ActionAccepted _ => "ActionAccepted" | StreetChanged _ => "StreetChanged"
      | PotUpdated _ => "PotUpdated" | HandClosed => "HandClosed"
      end%string;
  lo_payload : hand_kind_to_value (he_kind e) = Ok (ew_event_payload_json row);
  lo_created : ew_created_at row = now;
  lo_trace : ew_trace_id row = he_trace_id e;
}.
(** The log [t'] is [t] with the new ones of the events. *)
Definition logged (now : DateTime) (events : list HandEvent) (t t' : AuditTables) : Prop :=
  ∃ rows, Forall2 (logs_event now) (new_events (row_key <$> t_hand_events t) events) rows ∧
    t' = set_t_hand_events (t_hand_events t ++ rows) t.

Lemma new_events_ext events : ∀ seen seen',
  (∀ k, k ∈ seen ↔ k ∈ seen') → new_events seen events = new_events seen' events.
Proof.
  induction events as [|e events IH]; intros seen seen' Hs; [done|]. cbn.
  destruct (decide (event_key e ∈ seen)) as [Hd|Hd], (decide (event_key e ∈ seen')) as [Hd'|Hd'];
    [by apply IH|by rewrite Hs in Hd|by rewrite <- Hs in Hd'|]. f_equal. apply IH.
  intros k. rewrite !elem_of_cons. by rewrite Hs.
Qed.
Lemma new_events_key events : ∀ seen k,
  k ∈ event_key <$> new_events seen events → k ∉ seen.
Proof.
  induction events as [|e events IH]; intros seen k; [by intros ?%elem_of_nil|]. cbn.
  case_decide; [apply IH|]. rewrite fmap_cons, elem_of_cons. intros [->|Hk]; [done|].
  apply IH in Hk. rewrite not_elem_of_cons in Hk. tauto.
Qed.
Lemma new_events_NoDup events : ∀ seen, NoDup (event_key <$> new_events seen events).
Proof.
  induction events as [|e events IH]; intros seen; [constructor|]. cbn. case_decide; [apply IH|].
  rewrite fmap_cons. constructor; [|apply IH]. intros Hk%new_events_key. apply Hk. by left.
Qed.
Lemma new_events_cover events : ∀ seen e,
  e ∈ events → event_key e ∈ seen ∨ event_key e ∈ event_key <$> new_events seen events.
Proof.
  induction events as [|e' events IH]; intros seen e; [by intros ?%elem_of_nil|].
  rewrite elem_of_cons. cbn. case_decide as Hd.
  - intros [->|He]; [by left|by apply IH].
  - rewrite fmap_cons, elem_of_cons. intros [->|He]; [tauto|].
    destruct (IH (event_key e' :: seen) e He) as [Hin|Hin]; [|tauto].
    apply elem_of_cons in Hin. tauto.
Qed.
Lemma logged_keys now events rows :
  Forall2 (logs_event now) events rows → row_key <$> rows = event_key <$> events.
Proof.
  induction 1 as [|e row events rows [? Hh Hs] _ IH]; [done|].
  rewrite !fmap_cons, IH. unfold row_key at 1, event_key at 1. by rewrite Hh, Hs.
Qed.

Lemma logged_nil now t : logged now [] t t.
Proof. exists []. split; [constructor|]. rewrite app_nil_r. by destruct t. Qed.
Lemma logged_cons now e events t t1 t' :
  logged now [e] t t1 → logged now events t1 t' → logged now (e :: events) t t'.
Proof.
  intros (rows1 & H1 & ->) (rows2 & H2 & ->). cbn in H2.
  exists (rows1 ++ rows2). cbn. split; [|by rewrite app_assoc].
  rewrite fmap_app, (logged_keys _ _ _ H1) in H2. cbn in H1, H2.
  case_decide as Hd.
  - apply Forall2_nil_inv_l in H1 as ->. cbn in H2 |- *.
    by rewrite app_nil_r in H2.
  - change (e :: new_events ?s events) with ([e] ++ new_events s events).
    apply Forall2_app; [done|]. erewrite new_events_ext; [exact H2|].
    intros k. rewrite elem_of_cons, elem_of_app. cbn. rewrite list_elem_of_singleton. tauto.
Qed.
Lemma logged_NoDup now events t t' :
  logged now events t t' → NoDup (row_key <$> t_hand_events t) →
  NoDup (row_key <$> t_hand_events t').
Proof.
  intros (rows & Hrows & ->) Hnd. cbn. rewrite fmap_app, (logged_keys _ _ _ Hrows).
  apply NoDup_app. split; [done|]. split; [|apply new_events_NoDup].
  intros k Hk Hin. by apply new_events_key in Hin.
Qed.
Lemma logged_stored now events t t' : logged now events t t' → Forall (λ e, stored e t') events.
Proof.
  intros (rows & Hrows & ->). apply Forall_forall. intros e He. unfold stored. cbn.
  rewrite fmap_app, (logged_keys _ _ _ Hrows). apply elem_of_app. by apply new_events_cover.
Qed.

Lemma insert_hand_event_row_ok payload event sh now t t' :
  hand_kind_to_value (he_kind event) = Ok payload →
  insert_hand_event_row payload event sh now t = Ok t' → logged now [event] t t'.
Proof.
  intros Hpay. unfold insert_hand_event_row. rewrite same_event_stored. unfold logged. cbn [new_events].
  unfold stored. case_bool_decide as Hs.
  - intros [= <-]. exists []. split; [by rewrite decide_True by done|]. rewrite app_nil_r. by destruct t.
  - mrun. destruct (references _ _ _ _) as [[]|]; [|done].
    intros [= <-]. rewrite decide_False by done. eexists [_]. split; [|done].
    constructor; [|constructor]. by split.
Qed.

Lemma append_hand_event_ok event (s s' : AuditServer) :
  append_event event s = (s', Ok tt) →
  logged (pg_now s) [event] (pg_tables s) (pg_tables s') ∧ pg_now s' = pg_now s ∧
  is_Some (result_ok (hand_kind_to_value (he_kind event))).
Proof.
  unfold append_event, mbind, M_mbind, M_bind, lift_result, audit_sql, M_map_err.
  destruct (hand_kind_to_value (he_kind event)) as [payload|e] eqn:Hpay; cbn [result_map_err]; [|done].
  destruct (execute _ s) as [s1 [[]|e]] eqn:Hex; cbn [result_map_err]; [|done].
  intros [= <-]. apply execute_succeeds in Hex as (Hrow & _ & Hnow & _).
  split; [by eapply insert_hand_event_row_ok|]. split; [done|by eexists].
Qed.

Lemma append_events_ok events (s s' : AuditServer) :
  M_iter append_event events s = (s', Ok tt) →
  logged (pg_now s) events (pg_tables s) (pg_tables s') ∧
  Forall (λ e, is_Some (result_ok (hand_kind_to_value (he_kind e)))) events.
Proof.
  revert s. induction events as [|event events IH]; intros s.
  { intros [= <-]. split; [apply logged_nil|done]. }
  cbn [M_iter]. unfold mbind, M_mbind, M_bind.
  destruct (append_event event s) as [s1 [[]|e]] eqn:H1; [|done].
  apply append_hand_event_ok in H1 as (He1 & Hn1 & Hk). intros [He2 Hall]%IH. rewrite Hn1 in He2.
  split; [by eapply logged_cons|by constructor].
Qed.
Lemma append_events_consumes events : consumes (M_iter append_event events).
Proof.
  apply consumes_iter. intros event. apply consumes_bind; [apply consumes_ret|].
  intros payload. apply consumes_map_err, consumes_execute.
Qed.

(** An append, whatever becomes of its exchanges. *)
Lemma append_cases events (s : AuditServer) :
  let '(s', r) := pg_append_hand_events events s in
  (pg_tables s' = pg_tables s ∧ r ≠ Ok tt) ∨
  (logged (pg_now s) events (pg_tables s) (pg_tables s') ∧
   Forall (λ e, is_Some (result_ok (hand_kind_to_value (he_kind e)))) events ∧
   (r = Ok tt ∨ ∃ m, r = Err (audit_database (PgFault m)) ∧ AnswerLost m ∈ pg_faults s)).
Proof.
  pose proof (in_transaction_cases audit_database _ s (append_events_consumes events)) as Hcases.
  fold (pg_append_hand_events events) in Hcases. destruct (pg_append_hand_events events s) as [s' r].
  destruct Hcases as [?|(s0 & s1 & Ht0 & _ & Hn0 & Hbody & Ht2 & Hr)]; [by left|right].
  apply append_events_ok in Hbody as [Hlog Hall]. by rewrite Ht2, <- Ht0, <- Hn0.
Qed.

Lemma set_tables_same (s : AuditServer) : set_tables (pg_tables s) s = s.
Proof. by destruct s. Qed.

(** Events that are stored are appended to no effect. *)
Lemma append_stored events (s : AuditServer) :
  pg_faults s = [] →
  Forall (λ e, stored e (pg_tables s) ∧ is_Some (result_ok (hand_kind_to_value (he_kind e)))) events →
  M_iter append_event events s = (s, Ok tt).
Proof.
  intros Hf. induction 1 as [|event events [Hs Hk] _ IH]; [done|]. cbn [M_iter].
  unfold mbind at 1, M_mbind, M_bind. unfold append_event at 1, mbind at 1, M_mbind, M_bind, lift_result.
  destruct (hand_kind_to_value (he_kind event)) as [payload|e]; [|by destruct Hk]. cbn [result_map_err].
  unfold audit_sql, M_map_err. rewrite execute_run by done. unfold insert_hand_event_row at 1.
  rewrite same_event_stored, bool_decide_true by done. rewrite set_tables_same. exact IH.
Qed.

Lemma append_again events (s : AuditServer) :
  pg_faults s = [] →
  Forall (λ e, stored e (pg_tables s) ∧ is_Some (result_ok (hand_kind_to_value (he_kind e)))) events →
  pg_append_hand_events events s = (s, Ok tt).
Proof.
  intros Hf Hall. unfold pg_append_hand_events. rewrite in_transaction_run by (try done;
    intros s1 r; rewrite append_stored by done; by intros [= <- _]).
  by rewrite append_stored.
Qed.

(** C25. Each event of a hand is kept once, and as it is. No hand has two rows with one
    sequence number. An append that succeeds leaves every row of the log and adds, in the
    order of the events, one row for each event whose hand and number the log does not
    have yet (of several such, for the first): with the event's room, hand, number, name of
    its kind, encoded kind and trace; nothing else changes. An append that fails changes
    nothing, or has done just that and the answer to the commit was lost. In both cases to
    repeat it, as a client does that has lost the answer, succeeds without any effect. *)
Theorem hand_log_keeps_each_event_once events (s : AuditServer)
    (Hunique : NoDup (row_key <$> t_hand_events (pg_tables s))) :
  let '(s', r) := pg_append_hand_events events s in
  let appended :=
    (∃ rows, Forall2 (logs_event (pg_now s))
               (new_events (row_key <$> t_hand_events (pg_tables s)) events) rows ∧
       pg_tables s' = set_t_hand_events (t_hand_events (pg_tables s) ++ rows) (pg_tables s)) ∧
    (pg_faults s' = [] → pg_append_hand_events events s' = (s', Ok tt)) in
  NoDup (row_key <$> t_hand_events (pg_tables s')) ∧
  match r with
  | Ok _ => appended
  | Err e => pg_tables s' = pg_tables s ∨
             (appended ∧ ∃ m, e = audit_database (PgFault m) ∧ AnswerLost m ∈ pg_faults s)
  end.
Proof.
  pose proof (append_cases events s) as Hcases.
  destruct (pg_append_hand_events events s) as [s' r].
  destruct Hcases as [[Ht Hr]|(Hlog & Hall & Hr)].
  - rewrite Ht. split; [done|]. destruct r as [[]|e]; [done|by left].
  - split; [by eapply logged_NoDup|].
    assert (pg_faults s' = [] → pg_append_hand_events events s' = (s', Ok tt)) as Hagain.
    { intros Hf. apply append_again; [done|]. apply logged_stored in Hlog.
      rewrite Forall_forall in Hall, Hlog. apply Forall_forall. auto. }
    destruct r as [[]|e]; [done|]. right. split; [done|].
    destruct Hr as [?|(m & [= ->] & Hm)]; [done|by exists m].
Qed.

(** ** Rejected requests *)

(** No code inserts an attempt, and the event of a rejected request refers to its request
    as an attempt: the foreign key refuses it. *)
Theorem rejections_are_not_audited {FI : FreshIds AuditServer} {CK : Clock AuditServer}
    event request_id (s : AuditServer)
    (Hids : ∀ s, pg_faults (fst (fresh_uuid s)) = pg_faults s ∧
                 pg_tables (fst (fresh_uuid s)) = pg_tables s ∧
                 pg_shared (fst (fresh_uuid s)) = pg_shared s)
    (Hparse : ∀ u, parse_uuid (uuid_text u) = Ok u)
    (Hhealthy : pg_faults s = []) (Hempty : t_attempts (pg_tables s) = [])
    (Hfirst : t_behavior (pg_tables s) = [])
    (Hhand : from_option (λ h, is_Some (sh_hands (pg_shared s) !! h)) True (rj_hand_id event))
    (Hrequest : rj_request_id event = Some request_id) :
  let '(s', r) := on_request_rejected (AR := PostgresAuditRepository) event s in
  pg_tables s' = pg_tables s ∧
  r = Err (audit_error_text (audit_database (ForeignKeyViolation "audit_behavior_events"
             "audit_behavior_events_related_attempt_id_fkey"))).
Proof.
  unfold on_request_rejected. destruct (map_reason (rj_reason event)) as [event_kind severity].
  unfold new_uuid, now. unfold mbind at 1, M_mbind, M_bind.
  destruct (Hids s) as (Hf & Ht & Hsh). destruct (fresh_uuid s) as [s1 id]. cbn in Hf, Ht, Hsh.
  unfold mbind, M_mbind, M_bind, audit_result, M_map_err, insert_behavior_event, PostgresAuditRepository.
  unfold pg_insert_behavior_event, mbind, M_mbind, M_bind, lift_result. cbn [be_behavior_event_id be_related_attempt_id].
  unfold parse_uuid_field at 1. rewrite Hparse. cbn [result_map_err].
  rewrite Hrequest. cbn [transpose fmap option_fmap option_map]. unfold parse_uuid_field. rewrite Hparse.
  cbn [result_map_err result_bind]. unfold audit_sql, M_map_err.
  rewrite execute_run by congruence. unfold insert_behavior_row. rewrite Ht, Hfirst, Hsh.
  cbn [existsb negb require]. unfold behavior_row. cbn [hw_hand_id be_hand_id hw_related_attempt_id].
  assert (nullable (λ h, references (sh_hands (pg_shared s)) h "audit_behavior_events"
    "audit_behavior_events_hand_id_fkey") (rj_hand_id event) = Ok tt) as ->.
  { destruct (rj_hand_id event) as [h|]; [|done]. cbn in Hhand |- *. unfold references.
    by rewrite bool_decide_true. }
  rewrite Hempty. cbn. by rewrite Ht.
Qed.
End Audit.

(** ** A concrete log *)

#[local] Instance plain_kinds : HandKindCodec := {|
  hand_kind_to_value kind := Ok (JStr (hand_event_type kind));
  hand_kind_from_value _ := Ok HandStarted;
|}.
Definition log_shared : PgShared :=
  mkShared {[1 := mkRoomTableRow "active" "0xroom" 9 360000 300 0]}
    {[11 := mkHandTableRow 1 1 "Running" "Preflop" None 1 "0" 0 None]} ∅ ∅ ∅ [].
Definition log_event (event_seq : N) : HandEvent := mkHandEvent 1 11 event_seq 9 5 HandStarted.
(** The second statement of the first attempt does not arrive, and the answer to the
    commit of the second attempt is lost. *)
Definition log_server : AuditServer :=
  mkServer [Answered; Answered; RequestLost "connection reset"; Answered; Answered; Answered; Answered;
            AnswerLost "connection reset"]%string 7 log_shared audit_tables_empty.
(** The last has the number of the first. *)
Definition log_events : list HandEvent :=
  [log_event 1; log_event 2; mkHandEvent 1 11 1 9 5 HandClosed].

Definition log_failed : AuditServer := fst (pg_append_hand_events log_events log_server).
Definition log_unsure : AuditServer := fst (pg_append_hand_events log_events log_failed).

Lemma log_answers :
  snd (pg_append_hand_events log_events log_server)
  = Err (audit_database (PgFault "connection reset")) ∧
  snd (pg_append_hand_events log_events log_failed)
  = Err (audit_database (PgFault "connection reset")) ∧
  t_hand_events (pg_tables log_unsure)
  = [mkHandEventRow 1 11 1 "HandStarted" (JStr "HandStarted") 7 9;
     mkHandEventRow 1 11 2 "HandStarted" (JStr "HandStarted") 7 9].
Proof. by vm_compute. Qed.

(** The first attempt changes nothing; the second has written its rows, though it fails
    as well; the third succeeds and changes nothing. *)
Lemma hand_log_keeps_each_event_once_witness :
  pg_tables log_failed = audit_tables_empty ∧
  length (t_hand_events (pg_tables log_unsure)) = 2%nat ∧
  pg_append_hand_events log_events log_unsure = (log_unsure, Ok tt).
Proof.
  pose proof (hand_log_keeps_each_event_once log_events log_failed
    ltac:(vm_compute; constructor)) as H2.
  destruct log_answers as (_ & R2 & Hrows). split; [by vm_compute|].
  split; [by rewrite Hrows|]. unfold log_unsure in *.
  assert (pg_faults (fst (pg_append_hand_events log_events log_failed)) = []) as Hf by by vm_compute.
  destruct (pg_append_hand_events log_events log_failed) as [s2 r2]. cbn [fst snd] in *. subst r2.
  destruct H2 as [_ [Ht|[[_ Hagain] _]]]; [|exact (Hagain Hf)].
  rewrite Ht in Hrows. vm_compute in Hrows. discriminate Hrows.
Defined.
