(* ===== verification/SettlementRoomsProps.v ===== *)
(** What the automatic settlement does to the rooms: an attempt leaves every room as it
    was, or it closes the hand that it has planned and paid, in its own room and
    nowhere else; a tick of the loop does so room by room. The rooms are the tasks of a
    process with the room actor, the wallets are those that sign for each room, the stores
    are those of the world. *)

From stdpp Require Import base tactics option list gmap strings.
From Stdlib Require Import NArith Lia.
From S2P Require Import Prelude.
From S2P Require Import Ambient.
From S2P Require Import Text.
From S2P Require Import Domain.
From S2P Require Import EngineState.
From S2P Require Import Engine.
From S2P Require Import LedgerStore.
From S2P Require Import AuditStore.
From S2P Require Import Settlement.
From S2P Require Import SettlementService.
From S2P Require Import JsonRpc.
From S2P Require Import AgentAuth.
From S2P Require Import AgentAuthProps.
From S2P Require Import Orchestrator.
From S2P Require Import AutoSettlement.
From S2P Require Import SeatCrypto.
From S2P Require Import TableService.
From S2P Require Import RoomDemo.
From S2P Require Import GatewayTypes.
From S2P Require Import RoomHandles.
From S2P Require Import RoomHandlesProps.
From S2P Require Import RoomService.
From S2P Require Import EvmWallet.
From S2P Require Import RoomServiceProps.
From S2P Require Import AppSinksProps.
From S2P Require Import RoomWalletProps.
From S2P Require Import SettlementRooms.

Local Open Scope N_scope.

Section Settlement.
Context {CO : CardOps} {RO : RankOps} {RN : Rendering} {CTX : CardText}.
Context {W : Type}.
Context {CK : Clock W} {FI : FreshIds W} {MC : MonotonicClock W} {SH : Shuffler W}.
Context {CR : SeatCryptoPrimitives} {UT : UuidText} {ES : EphemeralSecrets W} {RC : RoomCodec}.
Context {TR : JsonRpcTransport W} {CT : ChainTxRepository W}.
Context {SK : Secp256k1} {HD : HexDecode} {RK : RandomKeys W} {KB : SigningKeyBytes} {RL : Rlp}.
Context {LR : LedgerRepository W} {SR : SettlementPersistenceRepository W}.
Context {PS : ProviderStore W} {EA : EvmAbi} {BC : BatchCounts W}.
Context (config : RoomActorConfig) (persist : option (RoomRow → M W string unit)).

(** ** The stores of the process *)

#[export] Instance house_ledger : LedgerRepository (House W) :=
  {| insert_entries entries := on_world (insert_entries entries) |}.
#[export] Instance house_settlement : SettlementPersistenceRepository (House W) := {|
  insert_settlement_plan r := on_world (insert_settlement_plan r);
  insert_settlement_record r := on_world (insert_settlement_record r);
  update_settlement_record_status_by_tx_hash u :=
    on_world (update_settlement_record_status_by_tx_hash u);
  upsert_settlement_showdown_input r := on_world (upsert_settlement_showdown_input r);
|}.
Definition set_house_inner (p : InMemoryShowdownInputProvider) (ho : House W) : House W :=
  mkHouse (set_store_inner p (ho_world ho)) (ho_tasks ho) (ho_next_task ho) (ho_next_reply ho).
#[export] Instance house_store : ProviderStore (House W) := {|
  store_inner ho := store_inner (ho_world ho);
  set_store_inner := set_house_inner;
  store_read ho := (λ read hand_id, on_world (read hand_id)) <$> store_read (ho_world ho);
  store_write ho := (λ upsert record, on_world (upsert record)) <$> store_write (ho_world ho);
|}.

Definition set_house_counts (counts : Mutex (gmap string nat)) (ho : House W) : House W :=
  mkHouse (set_transfer_counts counts (ho_world ho)) (ho_tasks ho) (ho_next_task ho) (ho_next_reply ho).
#[export] Instance house_counts : BatchCounts (House W) := {|
  transfer_counts ho := transfer_counts (ho_world ho);
  set_transfer_counts := set_house_counts;
|}.

#[local] Instance rooms_of_house : RoomActors (House W) := house_rooms config.
Abbreviation Server := (AppRoomService * House W)%type (only parsing).

(** The attempts of the loop, with the provider of the application. *)
Definition attempt_without_wallet (room_id : RoomId) (rake_policy : RakePolicy) (trace_id : TraceId)
    : M Server string AutoSettlementOutcome :=
  try_auto_settle_showdown_room_without_wallet (SP := AppRoomShowdownInputProvider)
    room_id rake_policy trace_id.
Definition lift_sink {A} (sink : option (A → M W string unit)) : option (A → M Server string unit) :=
  (λ emit x, beside (on_world (emit x))) <$> sink.
Definition attempt_with_wallet (endpoint : string) (room_id : RoomId) (rake_policy : RakePolicy)
    (min_confirmations : N) (trace_id : TraceId) (alert : option (SettlementAlert → M W string unit))
    (audit : option (BehaviorEventRecord → M W string unit))
    : M Server string AutoSettlementOutcome :=
  try_auto_settle_showdown_room (SP := AppRoomShowdownInputProvider)
    (H := RoomScopedRawTxSettlementWalletAdapter endpoint)
    room_id rake_policy min_confirmations trace_id (lift_sink alert) (lift_sink audit).
Definition attempt_with_batch (endpoint contract_address : string) (room_id : RoomId)
    (rake_policy : RakePolicy) (min_confirmations : N) (trace_id : TraceId)
    (alert : option (SettlementAlert → M W string unit))
    (audit : option (BehaviorEventRecord → M W string unit))
    : M Server string AutoSettlementOutcome :=
  try_auto_settle_showdown_room_with_batch (SP := AppRoomShowdownInputProvider)
    (H := batch_wallet_of_service endpoint contract_address)
    room_id rake_policy min_confirmations trace_id (lift_sink alert) (lift_sink audit).

(** The three kinds, and what they are given. *)
Inductive Attempt :=
| OffChain
| Paying (endpoint : string) (min_confirmations : N)
    (alert : option (SettlementAlert → M W string unit))
    (audit : option (BehaviorEventRecord → M W string unit))
| PayingBatch (endpoint contract_address : string) (min_confirmations : N)
    (alert : option (SettlementAlert → M W string unit))
    (audit : option (BehaviorEventRecord → M W string unit)).
Definition attempt (kind : Attempt) (room_id : RoomId) (rake_policy : RakePolicy) (trace_id : TraceId)
    : M Server string AutoSettlementOutcome :=
  match kind with
  | OffChain => attempt_without_wallet room_id rake_policy trace_id
  | Paying endpoint min_confirmations alert audit =>
      attempt_with_wallet endpoint room_id rake_policy min_confirmations trace_id alert audit
  | PayingBatch endpoint contract_address min_confirmations alert audit =>
      attempt_with_batch endpoint contract_address room_id rake_policy min_confirmations trace_id
        alert audit
  end.
Definition is_off_chain (kind : Attempt) : bool := match kind with OffChain => true | _ => false end.

(** ** What leaves the rooms as they are *)

Section Attempt.
Context (v : AppRoomService) (ho0 : House W) (room_id : RoomId) (h : RoomHandle).
Context (Hunlocked : unlocked v) (Hid : mx_value (rooms v) !! room_id = Some h).

(** The service is [v], the room is idle with the variables [r], and the other rooms are
    as in [ho0]. *)
Definition holds (r : RoomState) (s : Server) : Prop :=
  fst s = v ∧ (∀ n, n ≠ handle_sender h → ho_tasks (snd s) !! n = ho_tasks ho0 !! n) ∧
  ∃ out, ho_tasks (snd s) !! handle_sender h = Some (mkTask room_id r [] out).

Definition stays {E A} (m : M Server E A) : Prop := ∀ r s, holds r s → holds r (fst (m s)).

Lemma holds_tasks r s s' :
  fst s' = fst s → ho_tasks (snd s') = ho_tasks (snd s) → holds r s → holds r s'.
Proof. intros Hv Ht (H1 & H2 & H3). split; [congruence|]. by rewrite Ht. Qed.

Lemma stays_bind {E A B} (m : M Server E A) (k : A → M Server E B) :
  stays m → (∀ x, stays (k x)) → stays (m ≫= k).
Proof.
  intros Hm Hk r s Hs. unfold mbind, M_mbind, M_bind. specialize (Hm r s Hs).
  destruct (m s) as [s' [x|e]]; [by apply Hk|done].
Qed.
Lemma stays_pure {E A} (m : M Server E A) : (∀ s, fst (m s) = s) → stays m.
Proof. intros Hm r s. by rewrite Hm. Qed.
Lemma stays_map_err {E E' A} (f : E → E') (m : M Server E A) : stays m → stays (M_map_err f m).
Proof. intros Hm r s Hs. unfold M_map_err. specialize (Hm r s Hs). by destruct (m s). Qed.
Lemma stays_ignore {E E' A} (m : M Server E A) : stays m → stays (ignore_error (E' := E') m).
Proof. intros Hm r s Hs. apply (Hm r s Hs). Qed.
Lemma stays_when {E} b (m : M Server E unit) : stays m → stays (M_when b m).
Proof. intros Hm r s. unfold M_when. destruct b; [apply Hm|done]. Qed.
Lemma stays_iter {E X} (f : X → M Server E unit) l : (∀ x, stays (f x)) → stays (M_iter f l).
Proof. intros Hf. induction l; cbn; [by apply stays_pure|]. by apply stays_bind. Qed.
Lemma stays_map {E A B} (f : A → M Server E B) l : (∀ x, stays (f x)) → stays (M_map f l).
Proof.
  intros Hf. induction l; cbn; [by apply stays_pure|]. apply stays_bind; [done|intros y].
  apply stays_bind; [done|intros ys]. by apply stays_pure.
Qed.
Lemma stays_beside {E A} (m : M W E A) : stays (beside (on_world m)).
Proof.
  intros r [v1 ho]. unfold beside, on_world. destruct (m (ho_world ho)) as [w res].
  by apply holds_tasks.
Qed.
Lemma stays_chain {A} (m : M W string A) : stays (on_chain (on_world m)).
Proof. exact (stays_beside m). Qed.
Lemma stays_uuid {E} : stays (new_uuid (E := E)).
Proof.
  intros r [v1 ho]. unfold new_uuid, fresh_uuid, beside_ids, house_ids, draw_house. cbn.
  destruct (fresh_uuid (ho_world ho)) as [w id]. by apply holds_tasks.
Qed.

(** *** Questions and reads *)

Lemma state_asked r out (ho : House W) :
  ho_tasks ho !! handle_sender h = Some (mkTask room_id r [] out) →
  ∃ ho' out', room_get_engine_state h ho = (ho', Ok (Some (rs_state r))) ∧
    ho_tasks ho' = <[handle_sender h := mkTask room_id r [] out']> (ho_tasks ho) ∧
    ho_world ho' = ho_world ho.
Proof.
  intros Ht. set (to := ho_next_reply ho).
  assert (ask h GetEngineState ho
    = (mkHouse (ho_world ho) (<[handle_sender h :=
         mkTask room_id r [] (out ++ [Reply to (ReplyEngineState (Some (rs_state r)))])]> (ho_tasks ho))
         (ho_next_task ho) (to + 1), Ok (ReplyEngineState (Some (rs_state r))))) as Hask.
  { unfold ask, rooms_of_house, house_rooms, house_actors, house_ask.
    rewrite house_send_run. cbn [ho_tasks]. rewrite Ht, task_serve_idle by done. cbn [tk_mailbox tk_room_id tk_room tk_out ho_world
      ho_tasks ho_next_task ho_next_reply].
    change (receive room_id queue_capacity config (GetEngineState (ho_next_reply ho))
              (mkActor (ho_world ho) r [] out))
      with (mkActor (ho_world ho) r [] (out ++ [Reply to (ReplyEngineState (Some (rs_state r)))])).
    cbn [ho_tasks ac_world ac_room ac_mailbox ac_out]. rewrite lookup_insert_eq.
    cbn [mbind option_bind tk_out]. by rewrite reply_to_last. }
  unfold room_get_engine_state, mbind, M_mbind, M_bind. rewrite Hask. by eexists _, _.
Qed.

Lemma state_found r s :
  holds r s → ∃ s', port_get_engine_state room_id s = (s', Ok (Some (rs_state r))) ∧ holds r s' ∧
    ho_world (snd s') = ho_world (snd s).
Proof.
  destruct s as [v1 ho]. intros (Hv & Ho & out & Ht). cbn in Hv, Ho, Ht. subst v1.
  unfold port_get_engine_state, M_map_err, RoomService.get_engine_state, mbind, M_mbind, M_bind.
  rewrite get_room_run by done. rewrite Hid. cbn [ok_or]. unfold upstream, world, M_map_err.
  destruct (state_asked r out ho Ht) as (ho' & out' & Hask & Ht' & Hw).
  setoid_rewrite Hask. eexists. split; [reflexivity|]. split; [|exact Hw]. split; [done|].
  cbn [snd]. rewrite Ht'. split.
  - intros n Hn. rewrite lookup_insert_ne by done. by apply Ho.
  - exists out'. apply lookup_insert_eq.
Qed.

(** *** The end of a hand *)

Definition settleable (hand_id : HandId) (s : EngineState) : bool :=
  (hand_id =? hs_hand_id (snapshot s))
  && match hs_status (snapshot s) with HShowdown | HSettling => true | _ => false end.
Definition settled (hand_id : HandId) (s : EngineState) : EngineState :=
  if settleable hand_id s then close_hand HSettled s else s.

Lemma settlement_received hand_id w r out :
  ∃ w' r' out', receive room_id queue_capacity config (CompleteSettlement hand_id) (mkActor w r [] out)
    = mkActor w' r' [] out' ∧ rs_state r' = settled hand_id (rs_state r).
Proof.
  unfold receive. cbn [handle]. unfold handle_complete_settlement, room, settled. mrun. cbn [ac_room].
  change (((hand_id =? hs_hand_id (snapshot (rs_state r)))
          && match hs_status (snapshot (rs_state r)) with HShowdown | HSettling => true | _ => false end))
    with (settleable hand_id (rs_state r)).
  destruct (settleable hand_id (rs_state r)); [|by do 3 eexists].
  unfold close_and_announce, append_hand_event, new_hand_event, bump_generation, clear_scheduler, room,
    modify_room, draw, utc, output. mrun. cbn [ac_world ac_room].
  destruct (fresh_uuid w) as [w' trace_id]. cbn. by do 3 eexists.
Qed.

Lemma room_closed hand_id r s :
  holds r s → ∃ s' r', port_complete_settlement room_id hand_id s = (s', Ok tt) ∧ holds r' s' ∧
    rs_state r' = settled hand_id (rs_state r).
Proof.
  destruct s as [v1 ho]. intros (Hv & Ho & out & Ht). cbn in Hv, Ho, Ht. subst v1.
  unfold port_complete_settlement, ensure_room, lock_rooms, service, locked, lock.
  unfold mbind, M_mbind, M_bind, M_map_err. cbn [fst].
  rewrite (ul_rooms _ Hunlocked). cbn. rewrite Hid. cbn.
  unfold RoomHandles.room_complete_settlement, send, rooms_of_house, house_rooms, house_actors.
  rewrite house_send_run, Ht, task_serve_idle by done. cbn [tk_mailbox tk_room_id tk_room tk_out].
  destruct (settlement_received hand_id (ho_world ho) r out) as (w' & r' & out' & Hr & Hs).
  rewrite Hr. cbn [ac_world ac_room ac_mailbox ac_out]. eexists _, r'. split; [reflexivity|].
  split; [|exact Hs]. split; [done|]. cbn [snd ho_tasks]. split.
  - intros n Hn. rewrite lookup_insert_ne by done. by apply Ho.
  - exists out'. apply lookup_insert_eq.
Qed.

(** *** The provider and the wallet *)

Lemma stays_state : stays (port_get_engine_state room_id).
Proof. intros r s Hs. destruct (state_found r s Hs) as (s' & -> & Hs' & _). exact Hs'. Qed.
Lemma stays_addresses : stays (provider_addresses room_id).
Proof.
  intros r [v1 ho] Hs. unfold provider_addresses, bound_seat_addresses, lock_bound, service, locked, lock.
  mrun. cbn. by destruct (mx_poisoned (bound_addresses v1)).
Qed.
Lemma stays_inner {A} (m : M InMemoryShowdownInputProvider string A) : stays (on_inner m).
Proof.
  intros r [v1 ho]. unfold on_inner. destruct (m _) as [p res]. by apply holds_tasks.
Qed.
Lemma stays_get {E B} (k : Server → M Server E B) : (∀ s, stays (k s)) → stays (get ≫= k).
Proof. intros Hk. apply stays_bind; [by apply stays_pure|done]. Qed.
Lemma stays_write s f (record : SettlementShowdownInputRecord) :
  showdown_write_repo (W := Server) s = Some f → stays (f record).
Proof.
  cbn. destruct (store_write (ho_world (snd s))) as [upsert|]; [|done]. intros [= <-]. apply stays_chain.
Qed.
Lemma stays_read s f (hand_id : HandId) :
  showdown_read_repo (W := Server) s = Some f → stays (f hand_id).
Proof.
  cbn. destruct (store_read (ho_world (snd s))) as [read|]; [|done]. intros [= <-]. apply stays_chain.
Qed.
Lemma stays_rpc endpoint method params : stays (room_rpc_call endpoint method params).
Proof.
  intros r [v1 ho]. unfold room_rpc_call, on_chain, rpc_call_value. mrun. cbn. unfold on_world.
  destruct (post_json _ _ (ho_world ho)) as [w [reply|e]]; [|by apply holds_tasks].
  destruct (json_get "error" reply); [by apply holds_tasks|].
  destruct (json_get "result" reply); by apply holds_tasks.
Qed.
Lemma stays_signer id : stays (M_map_err gateway_error_text (room_chain_signer (W := House W) id)).
Proof.
  intros r [v1 ho] Hs. unfold room_chain_signer, lock_accounts, service, locked, lock. mrun. cbn.
  by destruct (mx_poisoned (room_chain_accounts v1)).
Qed.

(** Passes what stays, by the shape of the computation. *)
Ltac stay :=
  repeat lazymatch goal with
  | |- stays (get ≫= _) => apply stays_get; intros ?
  | |- stays (_ ≫= _) => apply stays_bind; [|intros ?]
  | |- stays (M_map_err gateway_error_text (room_chain_signer _)) => apply stays_signer
  | |- stays (M_map_err _ _) => apply stays_map_err
  | |- stays (ignore_error _) => apply stays_ignore
  | |- stays (M_when _ _) => apply stays_when
  | |- stays (M_iter _ _) => apply stays_iter; intros ?
  | |- stays (M_map _ _) => apply stays_map; intros ?
  | |- stays (room_rpc_call _ _ _) => apply stays_rpc
  | |- stays (port_get_engine_state _) => apply stays_state
  | |- stays (app_bound_seat_addresses _) => apply stays_addresses
  | |- stays (app_get_engine_state _) => apply stays_state
  | |- stays (on_inner _) => apply stays_inner
  | |- stays (beside (on_world _)) => apply stays_beside
  | |- stays new_uuid => apply stays_uuid
  | |- stays now => by apply stays_pure
  | |- stays (mret _) => by apply stays_pure
  | |- stays (throw _) => by apply stays_pure
  | |- stays (lift_result _) => by apply stays_pure
  | |- stays (match ?x with _ => _ end) => destruct x eqn:?
  | |- stays (if ?x then _ else _) => destruct x eqn:?
  | H : showdown_write_repo _ = Some ?f |- stays (?f _) => by eapply stays_write
  | H : showdown_read_repo _ = Some ?f |- stays (?f _) => by eapply stays_read
  end.

Lemma stays_derived hand_id : stays (derive_showdown_input (W := Server) room_id hand_id).
Proof. unfold derive_showdown_input, showdown_input_to_record. stay. Qed.
Lemma stays_provided hand_id : stays (app_get_showdown_input (W := Server) room_id hand_id).
Proof.
  unfold app_get_showdown_input. stay; try apply stays_derived.
Qed.
Lemma stays_seat_addresses hand_id : stays (app_get_seat_addresses (W := Server) room_id hand_id).
Proof. unfold app_get_seat_addresses. stay. Qed.

Lemma stays_submit endpoint request : stays (room_submit_transfer (W := House W) endpoint request).
Proof.
  unfold room_submit_transfer, signer_for_room, chain_terms, send_raw_transaction, rpc_text. stay.
Qed.
Lemma stays_receipt endpoint tx_hash : stays (room_get_transfer_receipt (W := House W) endpoint tx_hash).
Proof. unfold room_get_transfer_receipt, room_receipt_outcome, rpc_text. stay. Qed.
Lemma stays_payouts endpoint plan addresses payouts :
  stays (direct_loop (H := RoomScopedRawTxSettlementWalletAdapter endpoint) plan addresses payouts).
Proof.
  induction payouts as [|payout payouts IH]; cbn [direct_loop]; stay; [done|apply stays_submit|done].
Qed.
Lemma stays_checks endpoint submissions min_confirmations :
  stays (check_payout_submissions (H := RoomScopedRawTxSettlementWalletAdapter endpoint)
           submissions min_confirmations).
Proof. unfold check_payout_submissions. stay. apply stays_receipt. Qed.
Lemma stays_review receipts retry_count reason :
  stays (mark_failed_receipts_for_manual_review (W := Server) receipts retry_count reason).
Proof.
  induction receipts as [|receipt receipts IH]; cbn [mark_failed_receipts_for_manual_review];
    stay; try done. apply stays_beside.
Qed.
Lemma stays_emit {A} (sink : option (A → M W string unit)) f x :
  lift_sink sink = Some f → stays (f x).
Proof. unfold lift_sink. destruct sink as [emit|]; [|done]. intros [= <-]. apply stays_beside. Qed.

(** *** The batch wallet: what holds of the service beside its count *)

Abbreviation Counted := (RoomBatchWallet (House W)) (only parsing).
Definition batch_stays {A} (m : M Counted string A) : Prop :=
  ∀ r b, holds r (rb_service b) → holds r (rb_service (fst (m b))).

Lemma batch_bind {A B} (m : M Counted string A) (k : A → M Counted string B) :
  batch_stays m → (∀ x, batch_stays (k x)) → batch_stays (m ≫= k).
Proof.
  intros Hm Hk r b Hb. unfold mbind, M_mbind, M_bind. specialize (Hm r b Hb).
  destruct (m b) as [b' [x|e]]; [by apply Hk|done].
Qed.
Lemma batch_pure {A} (m : M Counted string A) :
  (∀ b, rb_service (fst (m b)) = rb_service b) → batch_stays m.
Proof. intros Hm r b. by rewrite Hm. Qed.
Lemma batch_on_room {A} (m : M Server string A) : stays m → batch_stays (on_room m).
Proof.
  intros Hm r b Hb. unfold on_room. specialize (Hm r _ Hb). by destruct (m (rb_service b)).
Qed.
Lemma stays_counts {A} (m : M Counted string A) : batch_stays m → stays (with_counts m).
Proof.
  intros Hm r s Hs. unfold with_counts.
  specialize (Hm r (mkRoomBatchWallet (transfer_counts (snd s)) s) Hs).
  destruct (m _) as [b res]. eapply holds_tasks; [..|exact Hm]; done.
Qed.

Ltac batch_stay :=
  repeat lazymatch goal with
  | |- batch_stays (_ ≫= _) => apply batch_bind; [|intros ?]
  | |- batch_stays (on_room _) => apply batch_on_room
  | |- batch_stays (match ?x with _ => _ end) => destruct x eqn:?
  | |- batch_stays (if ?x then _ else _) => destruct x eqn:?
  | |- batch_stays _ => by apply batch_pure
  end.

Lemma stays_batch_submit endpoint contract_address request :
  stays (with_counts (room_submit_batch_transfer (W := House W) endpoint contract_address request)).
Proof.
  apply stays_counts. unfold room_submit_batch_transfer. batch_stay.
  all: unfold signer_for_room, chain_terms, send_raw_transaction, rpc_text; stay.
Qed.
Lemma stays_batch_receipt endpoint tx_hash :
  stays (with_counts (room_get_batch_transfer_receipt (W := House W) endpoint tx_hash)).
Proof.
  apply stays_counts. unfold room_get_batch_transfer_receipt. batch_stay.
  all: unfold room_receipt_outcome, rpc_text; stay.
Qed.

(** ** How an attempt ends *)

(** The room has been closed, with the variables [r] before it. *)
Definition closed (r : RoomState) (s : Server) : Prop :=
  ∃ r', holds r' s ∧ rs_state r' = close_hand HSettled (rs_state r).

(** A plan of the hand was made, and the ledger has taken its entries. *)
Definition planned (r : RoomState) (rake_policy : RakePolicy) (trace_id : TraceId) : Prop :=
  ∃ input plan (w w' : W), build_settlement_plan_from_showdown (rs_state r) input rake_policy = Ok plan ∧
    insert_entries (plan_entries plan trace_id) w = (w', Ok tt).

Section Ends.
Context (r : RoomState) (P : Prop).

(** The room stays, or it is closed for the reason [P] and the result is good; with
    [must], the result is good only when the room is closed. *)
Definition ends (must : bool) {E A} (m : M Server E A) : Prop :=
  ∀ s, holds r s →
    (holds r (fst (m s)) ∧ (must = true → is_ok (snd (m s)) = false)) ∨
    (closed r (fst (m s)) ∧ P ∧ is_ok (snd (m s)) = true).

Lemma ends_bind must {E A B} (m : M Server E A) (k : A → M Server E B) :
  stays m → (∀ x, ends must (k x)) → ends must (m ≫= k).
Proof.
  intros Hm Hk s Hs. unfold mbind, M_mbind, M_bind. specialize (Hm r s Hs).
  destruct (m s) as [s' [x|e]]; [by apply Hk|by left].
Qed.
Lemma ends_result must {E A B} (res : result E A) (k : A → M Server E B) :
  (∀ x, res = Ok x → ends must (k x)) → ends must (lift_result res ≫= k).
Proof.
  intros Hk s Hs. unfold mbind, M_mbind, M_bind, lift_result. destruct res; [by apply Hk|by left].
Qed.
Lemma ends_recorded must plan trace_id {B} (k : unit → M Server string B) :
  (∀ w w' : W, insert_entries (plan_entries plan trace_id) w = (w', Ok tt) → ends must (k tt)) →
  ends must (record_settlement_plan (W := Server) plan trace_id ≫= k).
Proof.
  intros Hk [v1 ho] Hs. unfold mbind, M_mbind, M_bind, record_settlement_plan, record_plan, M_map_err.
  cbn. unfold on_world. destruct (insert_entries _ (ho_world ho)) as [w' [[]|e]] eqn:Hi; cbn.
  - apply (Hk _ _ Hi). eapply holds_tasks; [..|exact Hs]; done.
  - left. split; [|done]. eapply holds_tasks; [..|exact Hs]; done.
Qed.
Lemma ends_pure {E A} (m : M Server E A) : (∀ s, fst (m s) = s) → ends false m.
Proof. intros Hm s Hs. left. by rewrite Hm. Qed.
Lemma ends_then must {E A B} (m : M Server E A) (y : B) : ends must m → ends must (m ;; mret y).
Proof.
  intros Hm s Hs. unfold mbind, M_mbind, M_bind. specialize (Hm s Hs).
  destruct (m s) as [s' [x|e]]; exact Hm.
Qed.

Hypothesis (HP : P).
Lemma ends_complete {B} (y : B) :
  settleable (hs_hand_id (snapshot (rs_state r))) (rs_state r) = true →
  ends true (complete (LP := RoomLifecycleAdapter room_id) (rs_state r) ;; mret y).
Proof.
  intros Hset s Hs. right. unfold mbind, M_mbind, M_bind, complete, M_map_err.
  cbn [complete_settlement RoomLifecycleAdapter AutoSettlement.room_complete_settlement AppRoomService_port].
  destruct (room_closed (hs_hand_id (snapshot (rs_state r))) r s Hs) as (s' & r' & -> & Hr' & Hst).
  cbn. split; [|done]. exists r'. unfold settled in Hst. rewrite Hset in Hst. done.
Qed.
Lemma ends_weaken {E A} (m : M Server E A) : ends true m → ends false m.
Proof. intros Hm s Hs. destruct (Hm s Hs) as [[H1 _]|H1]; [by left|by right]. Qed.
Lemma ends_if_confirmed b {B} (y : B) :
  settleable (hs_hand_id (snapshot (rs_state r))) (rs_state r) = true →
  ends false (M_when b (complete (LP := RoomLifecycleAdapter room_id) (rs_state r)) ;; mret y).
Proof.
  intros Hset. unfold M_when. destruct b; [by apply ends_weaken, ends_complete|by apply ends_pure].
Qed.

(** The same of a whole attempt, whose good result is [AutoSettled]. *)
Definition settles (must : bool) (m : M Server string AutoSettlementOutcome) : Prop :=
  ∀ s, holds r s →
    (holds r (fst (m s)) ∧ (must = true → snd (m s) ≠ Ok AutoSettled)) ∨
    (closed r (fst (m s)) ∧ P ∧ snd (m s) = Ok AutoSettled).
Lemma settles_bind must {A} (m : M Server string A) (k : A → M Server string AutoSettlementOutcome) :
  stays m → (∀ x, settles must (k x)) → settles must (m ≫= k).
Proof.
  intros Hm Hk s Hs. unfold mbind, M_mbind, M_bind. specialize (Hm r s Hs).
  destruct (m s) as [s' [x|e]]; [by apply Hk|by left].
Qed.
Lemma settles_other must x : x ≠ AutoSettled → settles must (mret x).
Proof. intros Hx s Hs. left. split; [done|]. intros _ [= ->]. done. Qed.
Lemma settles_run must {A} (m : M Server string A) : ends must m → settles must (m ;; mret AutoSettled).
Proof.
  intros Hm s Hs. unfold mbind, M_mbind, M_bind. specialize (Hm s Hs).
  destruct (m s) as [s' [x|e]]; cbn in *.
  - destruct Hm as [[H1 H2]|(H1 & H2 & _)]; [left|by right]. split; [done|].
    intros Hmust. discriminate (H2 Hmust).
  - destruct Hm as [[H1 _]|(_ & _ & H3)]; [by left|done].
Qed.
End Ends.

Lemma at_showdown_settleable r :
  hs_status (snapshot (rs_state r)) = HShowdown →
  settleable (hs_hand_id (snapshot (rs_state r))) (rs_state r) = true.
Proof. intros Hs. unfold settleable. by rewrite N.eqb_refl, Hs. Qed.

Lemma settles_state r P must (k : option EngineState → M Server string AutoSettlementOutcome) :
  settles r P must (k (Some (rs_state r))) → settles r P must (port_get_engine_state room_id ≫= k).
Proof.
  intros Hk s Hs. unfold mbind, M_mbind, M_bind.
  destruct (state_found r s Hs) as (s' & -> & Hs' & _). by apply Hk.
Qed.
(** The guards of all attempts. *)
Lemma settles_showdown r P must k :
  (∀ input, hs_status (snapshot (rs_state r)) = HShowdown → settles r P must (k (rs_state r) input)) →
  settles r P must (with_showdown (SP := AppRoomShowdownInputProvider) room_id k).
Proof.
  intros Hk. unfold with_showdown. apply settles_state.
  destruct (bool_decide (hs_status (snapshot (rs_state r)) = HShowdown)) eqn:Hst; cbn [negb];
    [|by apply settles_other].
  apply bool_decide_eq_true in Hst. apply settles_bind; [apply stays_provided|].
  intros [input|]; [by apply Hk|by apply settles_other].
Qed.

Lemma without_wallet_settles r rake_policy trace_id :
  settles r (planned r rake_policy trace_id ∧ hs_status (snapshot (rs_state r)) = HShowdown) true
    (attempt_without_wallet room_id rake_policy trace_id).
Proof.
  apply settles_showdown. intros input Hst. apply settles_run.
  unfold run_showdown_settlement_with_persistence. apply ends_result. intros plan Hplan.
  apply ends_bind; [stay|intros plan_id].
  apply ends_bind; [unfold persist_plan; stay; apply stays_beside|intros _].
  apply ends_recorded. intros w w' Hrec.
  apply ends_bind; [unfold insert_record; stay; apply stays_beside|intros _].
  apply ends_complete; [|by apply at_showdown_settleable].
  split; [|done]. by exists input, plan, w, w'.
Qed.
Lemma with_wallet_settles endpoint min_confirmations alert audit r rake_policy trace_id :
  settles r (planned r rake_policy trace_id ∧ hs_status (snapshot (rs_state r)) = HShowdown) false
    (attempt_with_wallet endpoint room_id rake_policy min_confirmations trace_id alert audit).
Proof.
  apply settles_showdown. intros input Hst. unfold with_addresses.
  apply settles_bind; [apply stays_seat_addresses|intros addresses].
  destruct (decide (addresses = ∅)); [by apply settles_other|].
  apply settles_run. unfold run_direct_payouts_and_alerts.
  apply ends_result. intros plan Hplan.
  apply ends_bind; [stay|intros plan_id].
  apply ends_bind; [unfold persist_plan; stay; apply stays_beside|intros _].
  apply ends_recorded. intros w w' Hrec.
  apply ends_bind; [stay; apply stays_payouts|intros submissions].
  apply ends_bind; [unfold persist_submission_records, insert_record; stay; apply stays_beside|intros _].
  apply ends_bind; [unfold emit_settlement_submission_audits, behavior, emit_behavior; stay;
                    by eapply stays_emit|intros _].
  apply ends_bind; [stay; apply stays_checks|intros receipts].
  apply ends_bind; [unfold persist_receipt_status_updates; stay; apply stays_beside|intros _].
  apply ends_bind; [unfold emit_settlement_receipt_audits, behavior, emit_behavior; stay;
                    by eapply stays_emit|intros _].
  apply ends_bind; [stay; apply stays_review|intros marked].
  apply ends_bind; [unfold emit_manual_review_audits, emit_failed_payout_alerts, behavior, emit_behavior;
                    stay; by eapply stays_emit|intros _].
  apply ends_if_confirmed; [|by apply at_showdown_settleable].
  split; [|done]. by exists input, plan, w, w'.
Qed.
Lemma with_batch_settles endpoint contract_address min_confirmations alert audit r rake_policy trace_id :
  settles r (planned r rake_policy trace_id ∧ hs_status (snapshot (rs_state r)) = HShowdown) false
    (attempt_with_batch endpoint contract_address room_id rake_policy min_confirmations trace_id
       alert audit).
Proof.
  apply settles_showdown. intros input Hst. unfold with_addresses.
  apply settles_bind; [apply stays_seat_addresses|intros addresses].
  destruct (decide (addresses = ∅)); [by apply settles_other|].
  apply settles_run. unfold run_batch_payouts_and_alerts.
  apply ends_result. intros plan Hplan.
  apply ends_bind; [stay|intros plan_id].
  apply ends_bind; [unfold persist_plan; stay; apply stays_beside|intros _].
  apply ends_recorded. intros w w' Hrec.
  apply ends_bind; [unfold submit_batch_payouts; stay; apply stays_batch_submit|intros submission].
  apply ends_bind; [unfold persist_batch_submission_record, insert_record; stay; apply stays_beside
                   |intros _].
  apply ends_bind; [unfold emit_batch_submission_audit, behavior, emit_behavior; stay;
                    by eapply stays_emit|intros _].
  apply ends_bind; [unfold check_batch_payout_submission; stay; apply stays_batch_receipt
                   |intros receipt].
  apply ends_bind; [unfold persist_receipt_status_updates; stay; apply stays_beside|intros _].
  apply ends_bind; [unfold emit_batch_receipt_audit, behavior, emit_behavior; stay;
                    by eapply stays_emit|intros _].
  apply ends_bind; [unfold emit_manual_review_audits, emit_failed_payout_alerts, behavior, emit_behavior;
                    stay; [apply stays_review|by eapply stays_emit..]|intros _].
  apply ends_if_confirmed; [|by apply at_showdown_settleable].
  split; [|done]. by exists input, plan, w, w'.
Qed.

(** A hand that is closed is not settled again. *)
Lemma closed_not_settled k r s :
  holds r s → hs_status (snapshot (rs_state r)) ≠ HShowdown →
  ∃ s', with_showdown (SP := AppRoomShowdownInputProvider) room_id k s = (s', Ok NotShowdown) ∧
    ho_world (snd s') = ho_world (snd s).
Proof.
  intros Hs Hst. destruct (state_found r s Hs) as (s' & Hrun & _ & Hw). exists s'. split; [|exact Hw].
  unfold with_showdown, AutoSettlement.get_engine_state, AppRoomService_port, mbind, M_mbind, M_bind.
  rewrite Hrun. by rewrite bool_decide_false.
Qed.

Lemma attempt_settles kind r rake_policy trace_id :
  settles r (planned r rake_policy trace_id ∧ hs_status (snapshot (rs_state r)) = HShowdown)
    (is_off_chain kind) (attempt kind room_id rake_policy trace_id).
Proof. destruct kind; [apply without_wallet_settles|apply with_wallet_settles|apply with_batch_settles]. Qed.
Lemma attempt_refused kind r rake_policy trace_id s :
  holds r s → hs_status (snapshot (rs_state r)) ≠ HShowdown →
  ∃ s', attempt kind room_id rake_policy trace_id s = (s', Ok NotShowdown) ∧
    ho_world (snd s') = ho_world (snd s).
Proof. destruct kind; apply closed_not_settled. Qed.
End Attempt.

(** ** A tick of the loop: every room is tried *)

Definition tick (kind : Attempt) (rake_policy : RakePolicy) (room_ids : list RoomId)
    : M Server string unit :=
  M_iter (λ room_id,
    trace_id ← new_uuid;
    ignore_error (attempt kind room_id rake_policy trace_id)) room_ids.

Lemma ticks_of_the_loops cfg endpoint contract_address alert audit room_ids :
  tick OffChain (lc_rake_policy cfg) room_ids
  = settlement_tick_without_wallet (SP := AppRoomShowdownInputProvider) cfg room_ids ∧
  tick (Paying endpoint (lc_min_confirmations cfg) alert audit) (lc_rake_policy cfg) room_ids
  = settlement_tick (SP := AppRoomShowdownInputProvider)
      (H := RoomScopedRawTxSettlementWalletAdapter endpoint)
      cfg (lift_sink alert) (lift_sink audit) room_ids ∧
  tick (PayingBatch endpoint contract_address (lc_min_confirmations cfg) alert audit)
    (lc_rake_policy cfg) room_ids
  = settlement_tick_with_batch (SP := AppRoomShowdownInputProvider)
      (H := batch_wallet_of_service endpoint contract_address)
      cfg (lift_sink alert) (lift_sink audit) room_ids.
Proof. done. Qed.

(** What a tick does to one task: nothing, or it settles its hand, once. *)
Definition task_settled (rake_policy : RakePolicy) (t t' : Task) : Prop :=
  hs_status (snapshot (rs_state (tk_room t))) = HShowdown ∧
  (∃ trace_id, planned (tk_room t) rake_policy trace_id) ∧
  rs_state (tk_room t') = close_hand HSettled (rs_state (tk_room t)).
Definition task_ticked (rake_policy : RakePolicy) (room_ids : list RoomId) (t t' : Task) : Prop :=
  tk_room_id t' = tk_room_id t ∧ tk_mailbox t' = tk_mailbox t ∧
  (tk_room t' = tk_room t ∨ tk_room_id t ∈ room_ids ∧ task_settled rake_policy t t').
Definition ticked (rake_policy : RakePolicy) (room_ids : list RoomId) (ho ho' : House W) : Prop :=
  ∀ n, option_relation (task_ticked rake_policy room_ids) (λ _, False) (λ _, False)
         (ho_tasks ho !! n) (ho_tasks ho' !! n).

Lemma task_ticked_refl rake_policy room_ids t : task_ticked rake_policy room_ids t t.
Proof. split; [done|]. split; [done|by left]. Qed.
Lemma task_ticked_trans rake_policy room_id room_ids t1 t2 t3 :
  task_ticked rake_policy [room_id] t1 t2 → task_ticked rake_policy room_ids t2 t3 →
  task_ticked rake_policy (room_id :: room_ids) t1 t3.
Proof.
  intros (Hi & Hm & H12) (Hi' & Hm' & H23). split; [congruence|]. split; [congruence|].
  destruct H12 as [H12|[Hin (Hst & Hplan & Hclosed)]].
  - destruct H23 as [H23|[Hin (Hst & Hplan & Hclosed)]]; [left; congruence|right].
    split; [apply elem_of_cons; right; congruence|]. unfold task_settled in *. rewrite <- H12. done.
  - right. split; [apply elem_of_cons; left; by apply list_elem_of_singleton in Hin|].
    split; [done|]. split; [done|].
    destruct H23 as [->|[_ (Hst' & _ & _)]]; [done|]. by rewrite Hclosed in Hst'.
Qed.
Lemma ticked_same rake_policy room_ids (ho ho' : House W) :
  ho_tasks ho' = ho_tasks ho → ticked rake_policy room_ids ho ho'.
Proof.
  intros Ht n. rewrite Ht. destruct (ho_tasks ho !! n); [apply task_ticked_refl|done].
Qed.
Lemma ticked_trans rake_policy room_id room_ids ho1 ho2 ho3 :
  ticked rake_policy [room_id] ho1 ho2 → ticked rake_policy room_ids ho2 ho3 →
  ticked rake_policy (room_id :: room_ids) ho1 ho3.
Proof.
  intros H12 H23 n. specialize (H12 n). specialize (H23 n).
  destruct (ho_tasks ho1 !! n), (ho_tasks ho2 !! n), (ho_tasks ho3 !! n); cbn in *; try done.
  by eapply task_ticked_trans.
Qed.

(** The tasks of the rooms have nothing to read. *)
Definition idle_rooms (v : AppRoomService) (ho : House W) : Prop :=
  ∀ room_id h, mx_value (rooms v) !! room_id = Some h →
    ∃ t, ho_tasks ho !! handle_sender h = Some t ∧ tk_room_id t = room_id ∧ tk_mailbox t = [].
Lemma ticked_idle rake_policy room_ids v ho ho' :
  ticked rake_policy room_ids ho ho' → idle_rooms v ho → idle_rooms v ho'.
Proof.
  intros Ht Hidle room_id h Hid. destruct (Hidle room_id h Hid) as (t & Ht0 & Hr & Hm).
  specialize (Ht (handle_sender h)). rewrite Ht0 in Ht.
  destruct (ho_tasks ho' !! handle_sender h) as [t'|]; [|done].
  destruct Ht as (Hr' & Hm' & _). exists t'. by rewrite Hr', Hm'.
Qed.

Lemma attempt_ticked kind v ho room_id rake_policy trace_id :
  unlocked v → idle_rooms v ho →
  let s' := fst (attempt kind room_id rake_policy trace_id (v, ho)) in
  fst s' = v ∧ ticked rake_policy [room_id] ho (snd s').
Proof.
  intros Hu Hidle s'. destruct (mx_value (rooms v) !! room_id) as [h|] eqn:Hid.
  - destruct (Hidle room_id h Hid) as (t & Ht & Hr & Hm).
    assert (holds v ho room_id h (tk_room t) (v, ho)) as Hs.
    { split; [done|]. split; [done|]. exists (tk_out t). cbn [snd]. rewrite Ht.
      destruct t. cbn in *. by subst. }
    pose proof (attempt_settles v ho room_id h Hu Hid kind (tk_room t) rake_policy trace_id _ Hs) as Hend.
    fold s' in Hend. assert (∀ r' : RoomState, holds v ho room_id h r' s' →
      r' = tk_room t ∨ task_settled rake_policy t (mkTask room_id r' [] (tk_out t)) →
      fst s' = v ∧ ticked rake_policy [room_id] ho (snd s')) as Hone.
    { intros r' (H1 & H2 & out & H3) Hr'. split; [done|]. intros n.
      destruct (decide (n = handle_sender h)) as [->|Hn].
      - rewrite Ht, H3. split; [done|]. split; [done|]. destruct Hr' as [->|Hr']; [by left|right].
        split; [by apply list_elem_of_singleton|exact Hr'].
      - rewrite H2 by done. destruct (ho_tasks ho !! n); [apply task_ticked_refl|done]. }
    destruct Hend as [[H1 _]|((r' & Hr' & Hst) & [Hplan Hshow] & _)].
    + apply (Hone _ H1). by left.
    + apply (Hone _ Hr'). right. split; [done|]. split; [by exists trace_id|exact Hst].
  - assert (s' = (v, ho)) as ->; [|by split; [|apply ticked_same]].
    subst s'. destruct kind; unfold attempt, attempt_without_wallet, attempt_with_wallet,
      attempt_with_batch, try_auto_settle_showdown_room_without_wallet, try_auto_settle_showdown_room,
      try_auto_settle_showdown_room_with_batch, with_showdown, AutoSettlement.get_engine_state,
      AppRoomService_port, port_get_engine_state, M_map_err, RoomService.get_engine_state,
      mbind, M_mbind, M_bind; rewrite get_room_run, Hid by done; done.
Qed.

(** Every room of the process: its variables are as they were, or it is in the list of the
    tick, its hand was at the showdown, the ledger has taken a plan of it, and it is
    closed as settled. A room that is listed twice is settled once. *)
Lemma tick_settles_rooms kind rake_policy room_ids v ho :
  unlocked v → idle_rooms v ho →
  let s' := fst (tick kind rake_policy room_ids (v, ho)) in
  fst s' = v ∧ ticked rake_policy room_ids ho (snd s').
Proof.
  intros Hu. revert ho. induction room_ids as [|room_id room_ids IH]; intros ho Hidle.
  { split; [done|by apply ticked_same]. }
  unfold tick. cbn [M_iter].
  unfold mbind, M_mbind, M_bind, new_uuid, fresh_uuid, beside_ids, house_ids, draw_house. cbn.
  destruct (fresh_uuid (ho_world ho)) as [w trace_id].
  set (ho1 := mkHouse w (ho_tasks ho) (ho_next_task ho) (ho_next_reply ho)).
  assert (ticked rake_policy [room_id] ho ho1) as Hfirst by by apply ticked_same.
  destruct (attempt_ticked kind v ho1 room_id rake_policy trace_id Hu) as [Hv Hone].
  { by eapply ticked_idle. }
  unfold ignore_error. destruct (attempt kind room_id rake_policy trace_id (v, ho1)) as [[v2 ho2] res].
  cbn [fst snd] in Hv, Hone |- *. subst v2.
  destruct (IH ho2) as [H1 H2]; [by eapply ticked_idle|]. unfold tick in H1, H2. split; [done|].
  eapply ticked_trans; [|exact H2]. intros n. apply (Hone n).
Qed.

(** C18. A settlement closes its own hand. Whatever the provider, the wallet, the stores and
    the sinks answer, an attempt on an idle room leaves the service and every other room
    as they were; and it either leaves the room's variables, or it reports the hand as
    settled, which then was at its showdown, has a plan whose entries the ledger has
    taken, and is closed as settled, with nothing else in its state changed. Without a
    wallet only a closed hand is reported as settled. A closed hand is not settled
    again: the next attempt, of any kind, stops at once and writes nothing. *)
Theorem settlement_closes_its_own_hand w v ho room_id h t kind rake_policy trace_id s' res
    (Hreach : rtc (server_step config persist) (server_new w) (v, ho))
    (Hid : mx_value (rooms v) !! room_id = Some h)
    (Ht : ho_tasks ho !! handle_sender h = Some t) (Hidle : tk_mailbox t = [])
    (Hrun : attempt kind room_id rake_policy trace_id (v, ho) = (s', res)) :
  fst s' = v ∧ (∀ n, n ≠ handle_sender h → ho_tasks (snd s') !! n = ho_tasks ho !! n) ∧
  ∃ t', ho_tasks (snd s') !! handle_sender h = Some t' ∧
    (tk_room t' = tk_room t ∧ (is_off_chain kind = true → res ≠ Ok AutoSettled) ∨
     res = Ok AutoSettled ∧ hs_status (snapshot (rs_state (tk_room t))) = HShowdown ∧
     planned (tk_room t) rake_policy trace_id ∧
     rs_state (tk_room t') = close_hand HSettled (rs_state (tk_room t)) ∧
     ∀ kind' rake_policy' trace_id', ∃ s'',
       attempt kind' room_id rake_policy' trace_id' s' = (s'', Ok NotShowdown) ∧
       ho_world (snd s'') = ho_world (snd s')).
Proof.
  apply server_runs in Hreach as Hk. destruct (Hk (agrees_new w)) as (Hag & _ & _).
  pose proof (ag_unlocked _ Hag) as Hu. cbn in Hu.
  destruct (ag_rooms _ Hag room_id h Hid) as (_ & t0 & Ht0 & Hroom). cbn in Ht0.
  rewrite Ht in Ht0. injection Ht0 as <-.
  assert (holds v ho room_id h (tk_room t) (v, ho)) as Hs.
  { split; [done|]. split; [done|]. exists (tk_out t). cbn [snd]. rewrite Ht.
    pose proof (rg_id _ _ _ _ Hroom) as Hrid. destruct t. cbn in *. congruence. }
  pose proof (attempt_settles v ho room_id h Hu Hid kind (tk_room t) rake_policy trace_id _ Hs) as Hend.
  rewrite Hrun in Hend. cbn [fst snd] in Hend.
  destruct Hend as [[(H1 & H2 & out & H3) Hmust]|((r' & Hr' & Hst) & [Hplan Hshow] & Hres)].
  - split; [done|]. split; [done|]. eexists. split; [exact H3|]. left. by split.
  - pose proof Hr' as (H1 & H2 & out & H3). split; [done|]. split; [done|].
    eexists. split; [exact H3|]. right. cbn [tk_room]. do 4 (split; [done|]). intros kind' rake' trace'.
    apply (attempt_refused v ho room_id h Hu Hid kind' r'); [done|]. by rewrite Hst.
Qed.
End Settlement.

(** ** A hand played down to its showdown *)

#[local] Existing Instances demo_cards demo_clock demo_instant demo_ids demo_shuffler demo_secrets
  demo_no_crypto demo_uuid_text demo_codec demo_offline toy_secp demo_ledger demo_keys toy_hex
  pay_key_bytes pay_rlp.
#[local] Instance room_ranks : RankOps :=
  {| Rank := N; rank := nsum; rank_gtb := λ a b, b <? a; rank_eqb := N.eqb |}.
#[local] Instance room_rendering : Rendering :=
  {| plan_to_value := λ _, Ok JNull; rendering_uuid_text := demo_uuid_text |}.
#[local] Instance room_card_text : CardText :=
  {| card_to_string := λ _, ""%string; flat_hand_from_str := λ _, Err ""%string |}.
#[local] Instance room_ledger : LedgerRepository DemoWorld := {| insert_entries _ := mret tt |}.
#[local] Instance room_settlements : SettlementPersistenceRepository DemoWorld := {|
  insert_settlement_plan _ := mret tt;
  insert_settlement_record _ := mret tt;
  update_settlement_record_status_by_tx_hash _ := mret tt;
  upsert_settlement_showdown_input _ := mret tt;
|}.
#[local] Instance room_store : ProviderStore DemoWorld := {|
  store_inner _ := InMemoryProvider_new;
  set_store_inner _ w := w;
  store_read _ := None;
  store_write _ := None;
|}.
#[local] Instance room_counts : BatchCounts DemoWorld :=
  {| transfer_counts _ := mkMutex false ∅; set_transfer_counts _ w := w |}.
#[local] Instance room_abi : EvmAbi := {|
  Address := string;
  parse_address := Ok;
  encode_settle_batch _ _ id := Ok id;
  keccak256 := λ l, l;
|}.
#[local] Instance demo_rooms : RoomActors (House DemoWorld) := house_rooms RoomActorConfig_default.

Definition seat_join (seat : SeatId) : RoomReadyRequest := mkRoomReady 7 seat demo_meta.
Definition seat_bind (seat : SeatId) (address : string) : RoomBindAddressRequest :=
  mkBindAddress 7 seat address demo_meta.
Definition demo_bound : AppRoomService * House DemoWorld :=
  fst (bind_address (seat_bind 1 "0xb") (fst (bind_address (seat_bind 0 "0xa")
    (fst (join (seat_join 1) (fst (join (seat_join 0) (fst (ensure_room 7 demo_server))))))))).
Definition seat_action (seq : N) (seat : SeatId) (ty : ActionType) : RoomCommand :=
  Act (mkPlayerAction 7 107 seq seat ty None) 0.
Definition demo_hand : list RoomCommand :=
  [BindSessionKeys 0 "k0" "r0" "algo" "p0"; BindSessionKeys 1 "k1" "r1" "algo" "p1"; Ready 0; Ready 1;
   seat_action 1 0 Call; seat_action 2 1 Check; seat_action 3 1 Check; seat_action 4 0 Check;
   seat_action 5 1 Check; seat_action 6 0 Check; seat_action 7 1 Check; seat_action 8 0 Check]%string.
Definition told (cmds : list RoomCommand) (s : AppRoomService * House DemoWorld)
    : AppRoomService * House DemoWorld :=
  foldl (λ s cmd, (fst s, fst (send (mkHandle 0) cmd (snd s)))) s cmds.
Definition demo_played : AppRoomService * House DemoWorld := told demo_hand demo_bound.

Lemma demo_bound_reached : rtc demo_server_step demo_server demo_bound.
Proof.
  eapply rtc_l; [apply (step_ensure_room _ _ 7)|].
  eapply rtc_l; [apply (step_join _ _ (seat_join 0))|].
  eapply rtc_l; [apply (step_join _ _ (seat_join 1))|].
  eapply rtc_l; [apply (step_bind_address _ _ (seat_bind 0 "0xa"))|].
  eapply rtc_l; [apply (step_bind_address _ _ (seat_bind 1 "0xb"))|]. apply rtc_refl.
Qed.

Lemma told_reached cmds s :
  mx_value (rooms (fst s)) !! 7 = Some (mkHandle 0) → forallb harmless cmds = true →
  rtc demo_server_step s (told cmds s).
Proof.
  revert s. induction cmds as [|cmd cmds IH]; intros [v ho] Hid Hcmds; [apply rtc_refl|].
  cbn [forallb] in Hcmds. apply andb_true_iff in Hcmds as [Hcmd Hcmds].
  eapply rtc_l; [by apply (step_message _ _ 7 (mkHandle 0) cmd v ho)|]. by apply (IH (v, _)).
Qed.

Lemma demo_played_facts :
  mx_value (rooms (fst demo_bound)) !! 7 = Some (mkHandle 0) ∧
  mx_value (rooms (fst demo_played)) !! 7 = Some (mkHandle 0) ∧
  (tk_mailbox <$> ho_tasks (snd demo_played) !! 0) = Some [] ∧
  snd (attempt RoomActorConfig_default OffChain 7 RakePolicy_zero 5 demo_played) = Ok AutoSettled.
Proof. vm_compute. auto. Qed.
Lemma demo_played_reached : rtc demo_server_step demo_server demo_played.
Proof.
  etransitivity; [exact demo_bound_reached|]. apply told_reached; [apply demo_played_facts|done].
Qed.

(** A tick over a list with the room twice and a room that does not exist closes the hand;
    a batch that the chain does not take leaves it at its showdown. *)
Example demo_tick :
  let status s := (λ t, hs_status (snapshot (rs_state (tk_room t)))) <$> ho_tasks (snd s) !! 0 in
  let batch := PayingBatch "http://node" "0xcontract" 1 None None in
  status demo_played = Some HShowdown ∧
  status (fst (tick RoomActorConfig_default OffChain RakePolicy_zero [7; 8; 7] demo_played))
    = Some HSettled ∧
  status (fst (tick RoomActorConfig_default batch RakePolicy_zero [7; 8; 7] demo_played))
    = Some HShowdown.
Proof. vm_compute. auto. Qed.

(** The hand that was played down to its showdown is settled and closed. *)
Lemma settlement_closes_its_own_hand_witness :
  ∃ t t' s'', ho_tasks (snd demo_played) !! 0 = Some t ∧
    let s' := fst (attempt RoomActorConfig_default OffChain 7 RakePolicy_zero 5 demo_played) in
    ho_tasks (snd s') !! 0 = Some t' ∧
    rs_state (tk_room t') = close_hand HSettled (rs_state (tk_room t)) ∧
    attempt RoomActorConfig_default OffChain 7 RakePolicy_zero 6 s' = (s'', Ok NotShowdown).
Proof.
  pose proof demo_played_reached as Hreach.
  pose proof demo_played_facts as (_ & Hid & Hmail & Hok). destruct demo_played as [v ho].
  cbn [fst snd] in Hid, Hmail |- *.
  destruct (ho_tasks ho !! 0) as [t|] eqn:Ht; [|discriminate Hmail]. injection Hmail as Hmail.
  destruct (attempt _ _ _ _ _ (v, ho)) as [s' res] eqn:Hrun. cbn [fst snd] in *. subst res.
  destruct (settlement_closes_its_own_hand RoomActorConfig_default None (mkDemoWorld 0 100) v ho 7
    (mkHandle 0) t OffChain RakePolicy_zero 5 s' (Ok AutoSettled) Hreach Hid Ht Hmail Hrun)
    as (_ & _ & t' & Ht' & [[_ Hnot]|(_ & _ & _ & Hst & Hagain)]);
    [by destruct (Hnot eq_refl)|].
  destruct (Hagain OffChain RakePolicy_zero 6) as (s'' & Hrun'' & _).
  exists t, t', s''. cbv zeta. by repeat split.
Defined.
