(* ===== verification/LocalDemo.v ===== *)
(** The demonstration that plays one hand against itself
    ([headless-agent-client/src/bin/local_multi_bot_demo.rs]): two seats of a local
    room check when they can, call when they must, and fold otherwise.

    What it prints is left out. [demo_loop] is given the number of its iterations:
    [None] says that they were not enough. The capacity of the room's mailbox (64)
    belongs to the implementation of [RoomActors]. *)

From stdpp Require Import base tactics option list gmap strings pretty.
From Stdlib Require Import NArith Lia.
From S2P Require Import Prelude.
From S2P Require Import Ambient.
From S2P Require Import Domain.
From S2P Require Import EngineState.
From S2P Require Import Engine.
From S2P Require Import JsonRpc.
From S2P Require Import ChainWatcher.
From S2P Require Import TableService.
From S2P Require Import RoomHandles.

Local Open Scope N_scope.

Definition offers (ty : ActionType) (legal_actions : list LegalAction) : bool :=
  existsb (λ a, bool_decide (la_action_type a = ty)) legal_actions.

Section Demo.
Context {CO : CardOps} {W : Type} {RA : RoomActors W} {FI : FreshIds W} {TM : Timer W}.

Definition chosen_type (legal_actions : list LegalAction) : ActionType :=
  if offers Check legal_actions then Check
  else if offers Call legal_actions then Call
  else Fold.
Definition choose_action (legal_actions : list LegalAction) : M W string PlayerAction :=
  room_id ← new_uuid;
  hand_id ← new_uuid;
  mret (mkPlayerAction room_id hand_id 0 0 (chosen_type legal_actions) None).

Definition seat_up (room : RoomHandle) (seat_id : SeatId) : M W string unit :=
  room_join room seat_id;;
  room_bind_address room seat_id ("cfx:seat" +:+ pretty seat_id);;
  room_bind_session_keys room seat_id ("encpk-" +:+ pretty seat_id) ("sigpk-" +:+ pretty seat_id)
    "x25519+evm" "proof".

(** The statuses at which the demonstration stops. *)
Definition hand_over (status : HandStatus) : bool :=
  match status with HSettled | HAborted | HShowdown => true | _ => false end.

Definition act_for (room : RoomHandle) (max_steps steps : N) (snapshot : HandSnapshot)
    (seat_id : SeatId) : M W string (option HandStatus) :=
  legal ← room_get_legal_actions room seat_id;
  action ← choose_action legal;
  room_act room (mkPlayerAction (hs_room_id snapshot) (hs_hand_id snapshot)
                   (hs_next_action_seq snapshot) seat_id (pa_action_type action)
                   (pa_amount action));;
  if max_steps <? steps then throw "demo exceeded step limit"%string else mret None.

(** One iteration: the status to return, if any. *)
Definition demo_iteration (room : RoomHandle) (max_steps steps : N)
    : M W string (option HandStatus) :=
  found ← room_get_state room;
  snapshot ← lift_result (ok_or "missing hand snapshot"%string found);
  if hand_over (hs_status snapshot) then mret (Some (hs_status snapshot))
  else
    match hs_acting_seat_id snapshot with
    | None => modify (sleep_ms 10);; mret None
    | Some seat_id => act_for room max_steps steps snapshot seat_id
    end.

Fixpoint demo_loop (fuel : nat) (room : RoomHandle) (max_steps steps : N)
    : M W string (option HandStatus) :=
  match fuel with
  | O => mret None
  | S fuel =>
      let steps := sat_add u32_max steps 1 in
      status ← demo_iteration room max_steps steps;
      match status with
      | Some status => mret (Some status)
      | None => demo_loop fuel room max_steps steps
      end
  end.

Definition open_room (room_id : RoomId) : M W string RoomHandle :=
  λ w, let '(w, room) := spawn_room room_id w in (w, Ok room).

Definition run_local_multi_bot_demo (fuel : nat) (max_steps : N) : M W string (option HandStatus) :=
  room_id ← new_uuid;
  room ← open_room room_id;
  M_iter (seat_up room) [0; 1];;
  room_ready room 0;;
  room_ready room 1;;
  demo_loop fuel room max_steps 0.

(** [main] allows 64 steps. *)
Definition demo_main (fuel : nat) : M W string unit :=
  run_local_multi_bot_demo fuel 64;;
  mret tt.
End Demo.
