(* ===== verification/LocalDemoProps.v ===== *)
(** The demonstration reaches the showdown: over the tasks of a process, whose room is
    the actor of [TableService], two seats are dealt a hand and play it to its end. *)

From stdpp Require Import base tactics option list gmap strings pretty.
From Stdlib Require Import NArith Lia.
From S2P Require Import Prelude.
From S2P Require Import Ambient.
From S2P Require Import Text.
From S2P Require Import Domain.
From S2P Require Import EngineState.
From S2P Require Import Engine.
From S2P Require Import EngineInv.
From S2P Require Import Dealing.
From S2P Require Import EngineRun.
From S2P Require Import PassivePlay.
From S2P Require Import LedgerStore.
From S2P Require Import JsonRpc.
From S2P Require Import ChainWatcher.
From S2P Require Import SeatCrypto.
From S2P Require Import TableService.
From S2P Require Import RoomLogic.
From S2P Require Import RoomTurns.
From S2P Require Import RoomHandles.
From S2P Require Import RoomHandlesProps.
From S2P Require Import RoomServiceProps.
From S2P Require Import RoomDemo.
From S2P Require Import LocalDemo.

Local Open Scope N_scope.

(** Every index has its own card, and a shuffle loses and repeats none. *)
Class DeckLaws `{CO : CardOps} {W : Type} `{SH : !Shuffler W} : Prop := {
  card_index i : i < 52 → card_to_u8 (card_of_u8 i) = i;
  shuffle_permutes w l : snd (draw_shuffle w) l ≡ₚ l;
}.

Section Table.
Context `{CO : CardOps}.
Implicit Types s : EngineState.

(** Nobody has folded at a table of at least two. *)
Definition all_in_play s : Prop :=
  h_folded_seats (hand s) = ∅ ∧ (2 <= size (h_seated_players (hand s)))%nat.

Lemma all_active s : all_in_play s → (1 < length (active_seats_sorted s))%nat.
Proof.
  intros [Hf Hn]. unfold active_seats_sorted. rewrite sortN_length.
  assert (∀ l : list SeatId, filter (λ seat, seat ∉ h_folded_seats (hand s)) l = l) as ->;
    [|exact Hn].
  intros l. induction l as [|x l IH]; [done|].
  rewrite filter_cons, decide_True by (rewrite Hf; set_solver). by rewrite IH.
Qed.

(** A check or a call leaves everybody in play, and so cannot end the hand before the
    showdown. *)
Lemma check_call_in_play s a s' st :
  engine_inv s → all_in_play s → pa_action_type a ∈ [Check; Call] →
  apply_action a s = (s', Ok (Accepted st)) →
  all_in_play s' ∧
  (hs_acting_seat_id (snapshot s') = None → hs_status (snapshot s') = HShowdown).
Proof.
  intros Hinv [Hf Hn] Hty Ha. pose proof (inv_pot _ Hinv) as [Hc _ _ _].
  apply apply_action_cases in Ha as (Hon & s1 & reset & Hm & Hadv); [|done].
  pose proof (on_turn_running _ _ Hinv Hon) as Hrun.
  destruct (after_move_inv _ _ _ _ Hinv Hrun Hm) as [_ Hrunm].
  destruct (legal_move_frame _ _ _ _ Hm) as (_ & _ & _ & _ & _ & Hseat & _ & _).
  destruct (legal_move_chips _ _ _ _ Hm) as (_ & _ & Hfold & _).
  rewrite decide_False in Hfold
    by (repeat (apply elem_of_cons in Hty as [->|Hty]; [done|]); by apply elem_of_nil in Hty).
  set (sm := after_move a reset s1) in *.
  assert (all_in_play sm) as Hsm.
  { unfold all_in_play, sm. destruct reset; cbn; by rewrite Hfold, Hseat. }
  clearbody sm. pose proof (all_active _ Hsm) as Hlen. destruct Hsm as [Hf' Hn'].
  pose proof (advance_turn_effect _ _ _ _ Hadv) as (_ & _ & Es & Ef & _).
  split; [by unfold all_in_play; rewrite Es, Ef|].
  revert Hadv. unfold advance_turn. rewrite (proj2 (Nat.leb_gt _ _)) by done.
  destruct (is_betting_round_complete _ _).
  - unfold advance_street, reveal_board. destruct (next_street _), (dealing sm) eqn:Hd;
      intros [= <- <-]; cbn; rewrite ?Hd; done.
  - destruct (actionable_seats_sorted sm); intros [= <- <-]; cbn; done.
Qed.

(** What the demonstration chooses is what [passive_accepted] asks for. *)
Lemma chosen_type_passive s seat :
  hs_acting_seat_id (snapshot s) = Some seat →
  chosen_type (legal_actions s seat)
  = if b_current_bet (betting_round s) <=? seat_bet s seat then Check else Call.
Proof.
  intros Hact. unfold legal_actions. rewrite bool_decide_true by done. cbn [negb].
  rewrite chips_sub_or_zero. unfold ChipsOps.ZERO.
  destruct (N.leb_spec (b_current_bet (betting_round s)) (seat_bet s seat)) as [Hle|Hlt].
  - rewrite (proj2 (N.eqb_eq _ _)) by lia. done.
  - rewrite (proj2 (N.eqb_neq _ _)) by lia. done.
Qed.
End Table.

(** ** The room behind the handle *)

Section Room.
Context {CO : CardOps} {W : Type}.
Context {CK : Clock W} {FI : FreshIds W} {MC : MonotonicClock W} {SH : Shuffler W}.
Context {CR : SeatCryptoPrimitives} {UT : UuidText} {ES : EphemeralSecrets W} {RC : RoomCodec}.
Context {TR : JsonRpcTransport W}.
Context (room_id : RoomId) (config : RoomActorConfig).

(** Only the scheduler's tick puts commands into the mailbox of its own room. *)
Definition same_mailbox (a a' : Actor W) : Prop := ac_mailbox a' = ac_mailbox a.
#[local] Instance same_mailbox_preorder : PreOrder same_mailbox.
Proof. split; [done|]. intros a b c ? ?. by etransitivity. Qed.

Lemma mailbox_draw {A} (f : W → W * A) (a : Actor W) : moves same_mailbox (draw f) a.
Proof. unfold moves, same_mailbox, draw. by destruct (f _). Qed.
Lemma mailbox_outside {E A} (m : M W E A) (a : Actor W) : moves same_mailbox (outside m) a.
Proof. unfold moves, same_mailbox, outside. by destruct (m _). Qed.
Lemma mailbox_engine {A} (m : M EngineState EngineError A) (a : Actor W) :
  moves same_mailbox (engine m) a.
Proof. unfold moves, same_mailbox, engine. by destruct (m _). Qed.

Definition asked_or_told (cmd : RoomCommand) : bool :=
  match cmd with SchedulerTick => false | _ => true end.

Lemma mailbox_kept cmd (a : Actor W) :
  asked_or_told cmd = true → ac_mailbox (receive room_id queue_capacity config cmd a) = ac_mailbox a.
Proof.
  intros Hcmd. change (moves same_mailbox (handle room_id queue_capacity config cmd) a).
  destruct cmd; try discriminate Hcmd; cbn [handle]; clear Hcmd;
    unfold handle_join, handle_leave, handle_bind_address, handle_bind_session_keys, handle_ready,
      handle_act, handle_queue_pending, handle_chain_tx_verified, handle_complete_settlement,
      handle_turn_timeout, handle_turn_reminder, announce_hand, publish_hand,
      build_hole_cards_private_events, hole_cards_event, apply_pending, remind, close_and_announce,
      fold_for_timeout, play, emit_post_action_hand_events, append_hand_event, new_hand_event,
      record_behavior, instant, utc, bump_generation, clear_scheduler;
    room_moves ltac:(idtac; first [ apply mailbox_draw | apply mailbox_outside
                                  | apply mailbox_engine | case_match | done ]).
Qed.

(** ** Commands to an idle task *)

Abbreviation idle r out := (mkTask room_id r [] out) (only parsing).

(** The room's task is idle with the variables [r]. *)
Definition rests (h : RoomHandle) (r : RoomState) (ho : House W) : Prop :=
  ∃ out, ho_tasks ho !! handle_sender h = Some (idle r out).

(** What a command makes of the variables, and what a question is answered with. *)
Definition becomes (r : RoomState) (cmd : RoomCommand) (P : RoomState → Prop) : Prop :=
  ∀ w out, P (ac_room (receive room_id queue_capacity config cmd (mkActor w r [] out))).
Definition answers (r : RoomState) (question : ReplyTo → RoomCommand) (reply : RoomReply) : Prop :=
  ∀ to w out, ∃ out',
    ac_out (receive room_id queue_capacity config (question to) (mkActor w r [] out))
    = out' ++ [Reply to reply].

Lemma sent h cmd r P (ho : House W) :
  asked_or_told cmd = true → becomes r cmd P → rests h r ho →
  ∃ ho' r', house_send config h cmd ho = (ho', Ok tt) ∧ rests h r' ho' ∧ P r'.
Proof.
  intros Hcmd Hb [out Ht]. rewrite house_send_run, Ht, task_serve_idle by done.
  cbn [tk_mailbox tk_room_id tk_room tk_out]. specialize (Hb (ho_world ho) out).
  pose proof (mailbox_kept cmd (mkActor (ho_world ho) r [] out) Hcmd) as Hm. cbn in Hm.
  eexists _, _. split; [reflexivity|]. split; [|exact Hb].
  unfold rests. cbn. rewrite lookup_insert_eq, Hm. by eexists.
Qed.

Lemma asked h question reply r P (ho : House W) :
  (∀ to, asked_or_told (question to) = true) → (∀ to, becomes r (question to) P) →
  answers r question reply → rests h r ho →
  ∃ ho' r', house_ask config h question ho = (ho', Ok reply) ∧ rests h r' ho' ∧ P r'.
Proof.
  intros Hq Hb Ha [out Ht]. unfold house_ask. set (to := ho_next_reply ho).
  rewrite house_send_run. cbn [ho_tasks]. rewrite Ht, task_serve_idle by done.
  cbn [tk_mailbox tk_room_id tk_room tk_out ho_world].
  specialize (Hb to (ho_world ho) out). destruct (Ha to (ho_world ho) out) as [out' Hout].
  pose proof (mailbox_kept (question to) (mkActor (ho_world ho) r [] out) (Hq to)) as Hm. cbn in Hm.
  cbn [ho_tasks]. rewrite lookup_insert_eq. cbn [mbind option_bind tk_out]. rewrite Hout, reply_to_last.
  eexists _, _. split; [reflexivity|]. split; [|exact Hb].
  unfold rests. cbn. rewrite lookup_insert_eq, Hm. by eexists.
Qed.

(** *** The questions of the demonstration *)

Abbreviation st r := (rs_state r) (only parsing).

Lemma state_answered r :
  (∀ to, becomes r (GetState to) (eq r)) ∧ answers r GetState (ReplyState (Some (snapshot (st r)))).
Proof. split; [done|]. intros to w out. by exists out. Qed.
Lemma legal_answered r seat :
  (∀ to, becomes r (GetLegalActions seat to) (eq r)) ∧
  answers r (GetLegalActions seat) (ReplyLegalActions (legal_actions (st r) seat)).
Proof. split; [done|]. intros to w out. by exists out. Qed.
Lemma act_answered r action s' x :
  apply_action action (st r) = (s', Ok x) →
  (∀ to, becomes r (Act action to) (λ r', st r' = s')) ∧ answers r (Act action) (ReplyAct (Ok x)).
Proof.
  intros Ha. assert (∀ to w out, ∃ a', receive room_id queue_capacity config (Act action to)
    (mkActor w r [] out) = mkActor (ac_world a') (set_turn_scheduler None (ac_room a')) (ac_mailbox a')
      (ac_out a' ++ [Reply to (ReplyAct (Ok x))]) ∧ st (ac_room a') = s') as Hrun.
  { intros to w out. pose proof (play_run room_id action (mkActor w r [] out)) as Hp.
    cbn [ac_room] in Hp. rewrite Ha in Hp. destruct Hp as (a' & Hp & Hs & _).
    exists a'. split; [|done]. unfold receive. cbn [handle]. unfold handle_act. mrun. by rewrite Hp. }
  split.
  - intros to w out. destruct (Hrun to w out) as (a' & -> & <-). done.
  - intros to w out. destruct (Hrun to w out) as (a' & -> & _). by eexists.
Qed.
End Room.

(** ** The loop *)

Section Loop.
Context {CO : CardOps} {W : Type}.
Context {CK : Clock W} {FI : FreshIds W} {MC : MonotonicClock W} {SH : Shuffler W}.
Context {CR : SeatCryptoPrimitives} {UT : UuidText} {ES : EphemeralSecrets W} {RC : RoomCodec}.
Context {TR : JsonRpcTransport W} {TM : Timer W}.
Context (config : RoomActorConfig).

#[export] Instance house_timer : Timer (House W) := {|
  sleep_ms ms ho := mkHouse (sleep_ms ms (ho_world ho)) (ho_tasks ho) (ho_next_task ho) (ho_next_reply ho)
|}.
#[local] Instance demo_rooms : RoomActors (House W) := house_actors config.

Section Playing.
Context (room_id : RoomId) (h : RoomHandle).
Abbreviation st r := (rs_state r) (only parsing).
Abbreviation rests := (rests room_id h) (only parsing).

Lemma rests_draw {A} (f : W → W * A) r (ho : House W) :
  rests r ho → rests r (fst (draw_house f ho)).
Proof. unfold draw_house. by destruct (f _). Qed.

Lemma choice_made legal r (ho : House W) :
  rests r ho → ∃ ho' room hand, rests r ho' ∧
    choose_action legal ho = (ho', Ok (mkPlayerAction room hand 0 0 (chosen_type legal) None)).
Proof.
  intros Hr. unfold choose_action, new_uuid. mrun. cbn [fresh_uuid house_ids].
  pose proof (rests_draw fresh_uuid r ho Hr) as H1.
  destruct (draw_house fresh_uuid ho) as [ho1 id1]. cbn in H1.
  pose proof (rests_draw fresh_uuid r ho1 H1) as H2.
  destruct (draw_house fresh_uuid ho1) as [ho2 id2]. cbn in H2. eauto.
Qed.

(** The hand is in play: nobody is all-in or has folded, and it is somebody's turn. *)
Record in_play (s : EngineState) : Prop := {
  ip_playable : playable s;
  ip_seats : all_in_play s;
  ip_turn : hs_acting_seat_id (snapshot s) ≠ None;
}.

(** The action of the demonstration is accepted. *)
Lemma chosen_accepted s seat room hand :
  in_play s → hs_acting_seat_id (snapshot s) = Some seat →
  let a := mkPlayerAction room hand (hs_next_action_seq (snapshot s)) seat
             (chosen_type (legal_actions s seat)) None in
  ∃ s' x, apply_action a s = (s', Ok x) ∧
    (hs_status (snapshot s') = HShowdown ∨ in_play s' ∧ (play_left s' < play_left s)%nat).
Proof.
  intros [Hp Hs _] Hact a. pose proof (chosen_type_passive s seat Hact) as Hty.
  destruct (passive_accepted s a Hp) as (s' & x & Ha); [done|done|].
  assert (pa_action_type a ∈ [Check; Call]) as Hcc
    by (cbn; rewrite Hty; case_match; set_solver).
  assert (passive a) as Hpa by (unfold passive; cbn; rewrite Hty; case_match; tauto).
  destruct (check_call_in_play _ _ _ _ (pl_inv _ Hp) Hs Hcc Ha) as [Hs' Hend].
  destruct (passive_step _ _ _ _ Hp Hpa Ha) as [_ Hnext].
  exists s', (Accepted x). split; [done|].
  destruct (decide (hs_acting_seat_id (snapshot s') = None)) as [Hnone|Hsome].
  - left. by apply Hend.
  - right. destruct (Hnext Hsome). by split.
Qed.

Lemma iteration_plays r max_steps steps (ho : House W) :
  in_play (st r) → rests r ho → steps ≤ max_steps →
  ∃ ho' r', demo_iteration h max_steps steps ho = (ho', Ok None) ∧ rests r' ho' ∧
    (hs_status (snapshot (st r')) = HShowdown ∨
     in_play (st r') ∧ (play_left (st r') < play_left (st r))%nat).
Proof.
  intros Hip Hr Hle. pose proof (pl_inv _ (ip_playable _ Hip)) as Hinv.
  destruct (hs_acting_seat_id (snapshot (st r))) as [seat|] eqn:Hact; [|by destruct (ip_turn _ Hip)].
  assert (hs_status (snapshot (st r)) = HRunning) as Hrun
    by (apply (turn_running _ (inv_turn _ Hinv)); by exists seat).
  unfold demo_iteration, room_get_state, act_for, room_get_legal_actions, room_act.
  unfold ask, demo_rooms, house_actors. mrun.
  destruct (state_answered room_id config r) as [Hb Ha].
  destruct (asked room_id config h GetState _ r _ ho ltac:(done) Hb Ha Hr) as (ho1 & ? & E1 & H1 & <-).
  rewrite E1. cbn beta iota. rewrite Hrun. cbn [hand_over]. rewrite Hact.
  destruct (legal_answered room_id config r seat) as [Hb' Ha'].
  destruct (asked room_id config h (GetLegalActions seat) _ r _ ho1 ltac:(done) Hb' Ha' H1)
    as (ho2 & ? & E2 & H2 & <-).
  rewrite E2. cbn beta iota.
  destruct (choice_made (legal_actions (st r) seat) r ho2 H2) as (ho3 & id1 & id2 & H3 & E3).
  rewrite E3. cbn beta iota. cbn [pa_action_type pa_amount].
  destruct (chosen_accepted (st r) seat (hs_room_id (snapshot (st r))) (hs_hand_id (snapshot (st r)))
    Hip Hact) as (s' & x & Happ & Hnext).
  set (a := mkPlayerAction (hs_room_id (snapshot (st r))) (hs_hand_id (snapshot (st r))) _ _ _ _) in *.
  destruct (act_answered room_id config r a s' x Happ) as [Hb'' Ha''].
  destruct (asked room_id config h (Act a) _ r _ ho3 ltac:(done) Hb'' Ha'' H3)
    as (ho4 & r' & E4 & H4 & Hs').
  rewrite E4. cbn beta iota. rewrite (proj2 (N.ltb_ge _ _)) by done. subst s'.
  by exists ho4, r'.
Qed.

Lemma iteration_stops r max_steps steps (ho : House W) :
  rests r ho → hs_status (snapshot (st r)) = HShowdown →
  ∃ ho', demo_iteration h max_steps steps ho = (ho', Ok (Some HShowdown)) ∧ rests r ho'.
Proof.
  intros Hr Hst. unfold demo_iteration, room_get_state, ask, demo_rooms, house_actors. mrun.
  destruct (state_answered room_id config r) as [Hb Ha].
  destruct (asked room_id config h GetState _ r _ ho ltac:(done) Hb Ha Hr) as (ho1 & ? & E1 & H1 & <-).
  rewrite E1. cbn beta iota. rewrite Hst. cbn [hand_over]. by exists ho1.
Qed.

Lemma loop_ends fuel : ∀ r max_steps steps (ho : House W),
  in_play (st r) → rests r ho → (S (S (play_left (st r))) ≤ fuel)%nat →
  steps + N.of_nat (S (play_left (st r))) ≤ max_steps → max_steps ≤ u32_max →
  ∃ ho', demo_loop fuel h max_steps steps ho = (ho', Ok (Some HShowdown)).
Proof.
  induction fuel as [|fuel IH]; intros r max_steps steps ho Hip Hr Hfuel Hsteps Hmax; [lia|].
  cbn [demo_loop]. assert (sat_add u32_max steps 1 = steps + 1) as -> by (unfold sat_add; lia).
  destruct (iteration_plays r max_steps (steps + 1) ho) as (ho1 & r1 & E1 & H1 & Hnext);
    [done|done|lia|].
  unfold mbind, M_mbind, M_bind. rewrite E1. destruct Hnext as [Hst|[Hip1 Hlt]].
  - destruct fuel as [|fuel]; [lia|]. cbn [demo_loop].
    destruct (iteration_stops r1 max_steps (sat_add u32_max (steps + 1) 1) ho1 H1 Hst) as (ho2 & E2 & _).
    unfold mbind, M_mbind, M_bind. rewrite E2. by exists ho2.
  - apply (IH r1); [done|done|lia|lia|done].
Qed.
End Playing.

(** ** The seats and the deal *)

Section Seating.
Context (room_id : RoomId) (h : RoomHandle).
Abbreviation st r := (rs_state r) (only parsing).

Definition joined (seat : SeatId) (r : RoomState) : RoomState :=
  set_ready (rs_ready r ∖ {[seat]})
    (set_state (seat_player seat (rs_state r)) (set_seated ({[seat]} ∪ rs_seated r) r)).
Definition addressed (seat : SeatId) (address : string) (r : RoomState) : RoomState :=
  set_bound_addresses (<[seat := address]> (rs_bound_addresses r)) r.
Definition keyed (seat : SeatId) (card_key request_key : string) (r : RoomState) : RoomState :=
  set_request_pubkeys (<[seat := request_key]> (rs_request_pubkeys r))
    (set_card_pubkeys (<[seat := card_key]> (rs_card_pubkeys r)) r).
Definition readied (seat : SeatId) (r : RoomState) : RoomState :=
  set_ready ({[seat]} ∪ rs_ready r) r.

Abbreviation becomes := (becomes room_id config) (only parsing).

Lemma behavior_room kind (a : Actor W) :
  ac_room (fst (record_behavior room_id kind a)) = ac_room a.
Proof.
  unfold record_behavior, utc, draw, output, modify. mrun. cbn. by destruct (fresh_uuid (ac_world a)).
Qed.

Lemma join_becomes r seat : becomes r (Join seat) (eq (joined seat r)).
Proof.
  intros w out. unfold receive. cbn [handle]. unfold handle_join, modify_room, modify. mrun.
  by rewrite behavior_room.
Qed.
Lemma bind_becomes r seat address :
  seat ∈ rs_seated r → becomes r (BindAddress seat address) (eq (addressed seat address r)).
Proof.
  intros Hs w out. unfold receive. cbn [handle]. unfold handle_bind_address, modify_room, modify, room.
  mrun. cbn [ac_room]. rewrite bool_decide_true by done. by rewrite behavior_room.
Qed.
Lemma keys_becomes r seat k1 k2 algo proof :
  seat ∈ rs_seated r → becomes r (BindSessionKeys seat k1 k2 algo proof) (eq (keyed seat k1 k2 r)).
Proof.
  intros Hs w out. unfold receive. cbn [handle]. unfold handle_bind_session_keys, modify_room, modify, room.
  mrun. cbn [ac_room]. rewrite bool_decide_true by done. by rewrite behavior_room.
Qed.
Lemma ready_waits r seat :
  seat ∈ rs_seated r → (length (eligible_ready (readied seat r)) < 2)%nat →
  becomes r (Ready seat) (eq (readied seat r)).
Proof.
  intros Hs Hn w out. unfold receive. cbn [handle]. unfold handle_ready, modify_room, modify, room.
  mrun. cbn [ac_room]. rewrite bool_decide_true by done. cbn [ac_room].
  change (set_ready ({[seat]} ∪ rs_ready r) r) with (readied seat r).
  rewrite (proj2 (Nat.leb_gt _ _)) by done. by rewrite andb_false_r.
Qed.

(** The state after a deal. *)
Definition dealt_from (s s' : EngineState) : Prop :=
  ∃ hand_id w, deal_new_hand_internal hand_id (snd (draw_shuffle w)) s = (s', Ok tt).

Lemma ready_deals r seat :
  may_deal seat r = true →
  (∀ hand_id w, is_ok (snd (deal_new_hand_internal hand_id (snd (draw_shuffle w)) (st r))) = true) →
  becomes r (Ready seat) (λ r', dealt_from (st r) (st r')).
Proof.
  intros Hm Hok w out. pose proof (ready_run room_id seat (mkActor w r [] out)) as Hrun.
  cbn [ac_room ac_world] in Hrun. rewrite Hm in Hrun.
  destruct (fresh_uuid w) as [w1 hand_id]. specialize (Hok hand_id w1). unfold dealt_from.
  destruct (draw_shuffle w1) as [w2 shuffle] eqn:Hd. cbn [snd] in Hok.
  destruct (deal_new_hand_internal hand_id shuffle (st r)) as [s' [[]|e]] eqn:Hdeal; [|done].
  destruct Hrun as (a' & Hrun & Hs & _). unfold receive. cbn [handle]. rewrite Hrun.
  exists hand_id, w1. rewrite Hd. cbn. by rewrite Hs.
Qed.
End Seating.

(** *** The deal *)

Context {DL : DeckLaws (W := W)}.

Definition demo_seated (room_id hand_id : Uuid) : EngineState :=
  seat_player 1 (seat_player 0 (EngineState_new room_id 1 hand_id)).

Lemma demo_seats room_id hand_id :
  h_seated_players (hand (demo_seated room_id hand_id)) = {[0; 1]} ∧
  size (h_seated_players (hand (demo_seated room_id hand_id))) = 2%nat ∧
  h_folded_seats (hand (demo_seated room_id hand_id)) = ∅ ∧
  h_all_in_seats (hand (demo_seated room_id hand_id)) = ∅.
Proof. by vm_compute. Qed.

Lemma ordered_indices : map card_to_u8 ordered_deck = map N.of_nat (seq 0 52).
Proof.
  unfold ordered_deck. rewrite map_map. apply map_ext_in. intros i Hi%in_seq.
  apply card_index. lia.
Qed.

Lemma demo_deal_accepted room_id hand_id w :
  deal_refusal (demo_seated room_id hand_id) (snd (draw_shuffle w) ordered_deck) = None.
Proof.
  pose proof (shuffle_permutes w ordered_deck) as Hperm.
  destruct (demo_seats room_id hand_id) as (_ & Hn & _ & _).
  unfold deal_refusal. rewrite sorted_set_length, Hn, decide_False by lia.
  rewrite decide_True.
  - rewrite (Permutation_length Hperm). unfold ordered_deck. rewrite length_map, length_seq.
    by rewrite decide_False by lia.
  - rewrite Hperm, ordered_indices. apply (NoDup_fmap_2 N.of_nat), NoDup_seq.
Qed.

Lemma demo_deal_runs room_id hand_id hid w :
  is_ok (snd (deal_new_hand_internal hid (snd (draw_shuffle w)) (demo_seated room_id hand_id))) = true.
Proof.
  unfold deal_new_hand_internal.
  pose proof (deal_cases hid (snd (draw_shuffle w) ordered_deck) (demo_seated room_id hand_id)) as Hc.
  rewrite demo_deal_accepted in Hc. by destruct Hc as (? & ? & ? & ? & _ & _ & _ & _ & _ & _ & _ & _ & ->).
Qed.

Lemma demo_dealt_in_play room_id hand_id s' :
  dealt_from (demo_seated room_id hand_id) s' → in_play s' ∧ (play_left s' < 8)%nat.
Proof.
  intros (hid & w & Hd). set (s := demo_seated room_id hand_id) in *.
  assert (engine_inv s) as Hinv by apply engine_inv_seat_player, engine_inv_seat_player, engine_inv_new.
  pose proof (deal_preserves _ _ _ _ _ Hinv Hd) as Hinv'.
  unfold deal_new_hand_internal in Hd.
  pose proof (deal_cases hid (snd (draw_shuffle w) ordered_deck) s) as Hc.
  pose proof (demo_deal_accepted room_id hand_id w) as Hacc. fold s in Hacc. rewrite Hacc in Hc.
  destruct Hc as (d & sb & bb & first & _ & _ & _ & _ & _ & _ & _ & _ & Heq).
  rewrite Heq in Hd. injection Hd as <-.
  destruct (demo_seats room_id hand_id) as (_ & Hn & Hf & Ha). fold s in Hn, Hf, Ha.
  set (s1 := bump_hand_no s) in *.
  assert (hand s1 = hand s) as Hh by (unfold s1, bump_hand_no; by case_bool_decide).
  set (s' := blinds_posted _ _ _) in *.
  assert (size (h_seated_players (hand s')) = 2%nat) as Hn' by (rewrite <-Hn, <-Hh; done).
  assert (h_folded_seats (hand s') = ∅) as Hf' by (rewrite <-Hf, <-Hh; done).
  assert (h_all_in_seats (hand s') = ∅) as Ha' by (rewrite <-Ha, <-Hh; done).
  destruct (playable_start s') as [Hp Hlt].
  - exact Hinv'.
  - intros x _ _. rewrite Ha'. set_solver.
  - done.
  - unfold table. rewrite sorted_set_length, Hn'. by vm_compute.
  - unfold table in Hlt. rewrite sorted_set_length, Hn' in Hlt. cbn [streets_left] in Hlt.
    split; [|exact Hlt]. split; [done| |done]. split; [done|lia].
Qed.

Definition seated_up (seat : SeatId) (r : RoomState) : RoomState :=
  keyed seat ("encpk-" +:+ pretty seat) ("sigpk-" +:+ pretty seat)
    (addressed seat ("cfx:seat" +:+ pretty seat) (joined seat r)).

Lemma seat_up_run room_id h seat r (ho : House W) :
  rests room_id h r ho →
  ∃ ho', seat_up h seat ho = (ho', Ok tt) ∧ rests room_id h (seated_up seat r) ho'.
Proof.
  intros Hr. unfold seat_up, room_join, room_bind_address, room_bind_session_keys, send, demo_rooms,
    house_actors. unfold mbind, M_mbind, M_bind.
  assert (seat ∈ rs_seated (joined seat r)) as Hin by (cbn; set_solver).
  destruct (sent room_id config h (Join seat) r _ ho eq_refl (join_becomes room_id r seat) Hr)
    as (ho1 & ? & E1 & H1 & <-). rewrite E1.
  destruct (sent room_id config h (BindAddress _ _) _ _ ho1 eq_refl
    (bind_becomes room_id (joined seat r) seat ("cfx:seat" +:+ pretty seat) Hin) H1)
    as (ho2 & ? & E2 & H2 & <-). rewrite E2.
  destruct (sent room_id config h (BindSessionKeys _ _ _ _ _) _ _ ho2 eq_refl
    (keys_becomes room_id (addressed seat ("cfx:seat" +:+ pretty seat) (joined seat r)) seat
       ("encpk-" +:+ pretty seat) ("sigpk-" +:+ pretty seat) "x25519+evm" "proof" Hin) H2)
    as (ho3 & ? & E3 & H3 & <-). rewrite E3. by exists ho3.
Qed.

(** The room once both seats are up. *)
Lemma demo_room_facts room_id hand_id :
  let r := seated_up 1 (seated_up 0 (RoomState_new room_id hand_id)) in
  bool_decide (0 ∈ rs_seated r) = true ∧ length (eligible_ready (readied 0 r)) = 1%nat ∧
  may_deal 1 (readied 0 r) = true.
Proof. vm_compute. done. Qed.

(** C30. The demonstration ends at the showdown: in any process, with any deck that a
    shuffle permutes, both seats are dealt a hand and eight actions bring it there,
    so that a limit of eight steps is enough and nine iterations are. *)
Theorem local_demo_reaches_showdown fuel max_steps (ho : House W)
    (Hfuel : (9 ≤ fuel)%nat) (Hsteps : 8 ≤ max_steps ≤ u32_max) :
  ∃ ho', run_local_multi_bot_demo fuel max_steps ho = (ho', Ok (Some HShowdown)).
Proof.
  unfold run_local_multi_bot_demo, new_uuid, open_room, room_ready, send, spawn_room, demo_rooms,
    house_actors. unfold mbind, M_mbind, M_bind.
  destruct (fresh_uuid ho) as [ho0 room_id]. unfold house_spawn, spawn_room_actor.
  destruct (fresh_uuid (ho_world ho0)) as [w hand_id]. cbn [ac_world ac_room].
  set (h := mkHandle (ho_next_task ho0)). match goal with |- context [M_iter _ _ ?h1] => set (ho1 := h1) end.
  assert (rests room_id h (RoomState_new room_id hand_id) ho1) as H1
    by (exists []; unfold ho1; cbn; apply lookup_insert_eq).
  destruct (demo_room_facts room_id hand_id) as (Hin & Hwait & Hdeal).
  destruct (seat_up_run room_id h 0 _ ho1 H1) as (ho2 & E2 & H2).
  destruct (seat_up_run room_id h 1 _ ho2 H2) as (ho3 & E3 & H3).
  set (r := seated_up 1 (seated_up 0 (RoomState_new room_id hand_id))) in *.
  match goal with |- context [M_iter ?f _ _] => change f with (seat_up h) end.
  assert (M_iter (seat_up h) [0; 1] ho1 = (ho3, Ok tt)) as ->.
  { cbn [M_iter]. unfold mbind, M_mbind, M_bind. by rewrite E2, E3. }
  apply bool_decide_eq_true in Hin.
  destruct (sent room_id config h (Ready 0) r _ ho3 eq_refl
    (ready_waits room_id r 0 Hin ltac:(rewrite Hwait; lia)) H3) as (ho4 & ? & E4 & H4 & <-).
  rewrite E4.
  destruct (sent room_id config h (Ready 1) (readied 0 r) _ ho4 eq_refl
    (ready_deals room_id (readied 0 r) 1 Hdeal (demo_deal_runs room_id hand_id)) H4)
    as (ho5 & r' & E5 & H5 & Hdealt).
  rewrite E5. destruct (demo_dealt_in_play room_id hand_id _ Hdealt) as [Hip Hlt].
  apply (loop_ends room_id h fuel r'); [done|done|lia|lia|lia].
Qed.
End Loop.

(** ** A concrete process *)

#[local] Existing Instances demo_cards demo_clock demo_instant demo_ids demo_shuffler demo_secrets
  demo_no_crypto demo_uuid_text demo_codec demo_offline.
#[local] Instance demo_timer : Timer DemoWorld :=
  {| sleep_ms ms w := mkDemoWorld (dw_time w + ms) (dw_next_id w) |}.
#[local] Instance demo_deck : DeckLaws (W := DemoWorld).
Proof. split; [done|]. intros w l. reflexivity. Qed.
#[local] Instance demo_house_rooms : RoomActors (House DemoWorld) := demo_rooms RoomActorConfig_default.

Definition demo_house : House DemoWorld := mkHouse (mkDemoWorld 0 100) ∅ 0 0.

(** Seven steps are not enough. *)
Lemma seven_steps_are_too_few :
  snd (run_local_multi_bot_demo 9 7 demo_house) = Err "demo exceeded step limit"%string.
Proof. vm_compute. reflexivity. Qed.

Lemma local_demo_reaches_showdown_witness :
  (∃ ho', run_local_multi_bot_demo 9 8 demo_house = (ho', Ok (Some HShowdown))) ∧
  snd (run_local_multi_bot_demo 9 7 demo_house) = Err "demo exceeded step limit"%string.
Proof.
  split; [|exact seven_steps_are_too_few].
  apply (local_demo_reaches_showdown RoomActorConfig_default 9 8 demo_house).
  - lia.
  - split; [lia|]. vm_compute. discriminate.
Defined.
