(* ===== verification/Startup.v ===== *)
(** The start of the server: its configuration ([platform-core/src/lib.rs]), the choice of
    its log filter ([observability/src/lib.rs]), and the program ([app-server/src/main.rs]),
    from the variables of the process to the repositories, the limits, the settlement
    wallets and the tasks it spawns.

    Files, the working directory and the variables are arguments; so are the parser of
    TOML with serde's reading of it and the syntax of log filters. A path is its text:
    [join] and [parent] are those of [std::path] on paths without trailing or doubled
    slashes, which is what the working directory is. Listening and spawning belong to the
    host; a repository is named by its kind, since what it does is in [LedgerStore],
    [AuditStore] and their PostgreSQL files. The method table of the gateway is built
    without fail; what is logged is left out. *)

From stdpp Require Import base tactics option list strings.
From Stdlib Require Import NArith Lia Ascii.
From S2P Require Import Prelude.
From S2P Require Import Text.
From S2P Require Import Domain.
From S2P Require Import Ambient.
From S2P Require Import LedgerStore.
From S2P Require Import Settlement.
From S2P Require Import SettlementService.
From S2P Require Import Orchestrator.
From S2P Require Import AutoSettlement.
From S2P Require Import GatewayLimits.
From S2P Require Import SeatClient.

(** ** Data *)

Inductive AppEnv := Local | Dev | Test | Prod.
#[export] Instance AppEnv_eq_dec : EqDecision AppEnv.
Proof. solve_decision. Defined.

Definition app_env_as_str (e : AppEnv) : string :=
  match e with Local => "local" | Dev => "dev" | Test => "test" | Prod => "prod" end.

(** The errors of the file system and of the parser are their texts. *)
Inductive ConfigError :=
| InvalidEnv (value : string)
| ConfigDirNotFound
| ReadFile (path source : string)
| ParseToml (path source : string).

(** [impl FromStr for AppEnv] *)
Definition app_env_from_str (value : string) : result ConfigError AppEnv :=
  let v := to_ascii_lowercase (trim value) in
  if String.eqb v "local" then Ok Local
  else if String.eqb v "dev" || String.eqb v "development" then Ok Dev
  else if String.eqb v "test" then Ok Test
  else if String.eqb v "prod" || String.eqb v "production" then Ok Prod
  else Err (InvalidEnv v).

Record AppSection := mkAppSection {
  ap_env : AppEnv;
  ap_service_name : string;
  ap_rpc_bind_addr : string;
  ap_ops_http_bind_addr : string;
}.
Record ObservabilitySection := mkObservability { ob_log_filter : string }.
Record AppConfig := mkAppConfig {
  app : AppSection;
  observability : ObservabilitySection;
}.

Record PartialAppSection := mkPartialApp {
  pap_env : option AppEnv;
  pap_service_name : option string;
  pap_rpc_bind_addr : option string;
  pap_ops_http_bind_addr : option string;
}.
Record PartialObservabilitySection := mkPartialObservability { pob_log_filter : option string }.
Record PartialAppConfig := mkPartial {
  pa_app : option PartialAppSection;
  pa_observability : option PartialObservabilitySection;
}.

Definition default_for_env (app_env : AppEnv) : AppConfig :=
  mkAppConfig (mkAppSection app_env "app-server" "127.0.0.1:9000" "127.0.0.1:9100")
    (mkObservability "info").

(** ** Assignments *)

Definition set_env (v : AppEnv) (c : AppConfig) : AppConfig :=
  mkAppConfig (mkAppSection v (ap_service_name (app c)) (ap_rpc_bind_addr (app c))
                 (ap_ops_http_bind_addr (app c))) (observability c).
Definition set_service_name (v : string) (c : AppConfig) : AppConfig :=
  mkAppConfig (mkAppSection (ap_env (app c)) v (ap_rpc_bind_addr (app c))
                 (ap_ops_http_bind_addr (app c))) (observability c).
Definition set_rpc_bind_addr (v : string) (c : AppConfig) : AppConfig :=
  mkAppConfig (mkAppSection (ap_env (app c)) (ap_service_name (app c)) v
                 (ap_ops_http_bind_addr (app c))) (observability c).
Definition set_ops_http_bind_addr (v : string) (c : AppConfig) : AppConfig :=
  mkAppConfig (mkAppSection (ap_env (app c)) (ap_service_name (app c)) (ap_rpc_bind_addr (app c)) v)
    (observability c).
Definition set_log_filter (v : string) (c : AppConfig) : AppConfig :=
  mkAppConfig (app c) (mkObservability v).

(** [if let Some(value) = o { self.f = value; }] *)
Definition assign {A} (set : A → AppConfig → AppConfig) (o : option A) (c : AppConfig) : AppConfig :=
  match o with Some v => set v c | None => c end.

Definition merge_partial (partial : PartialAppConfig) (c : AppConfig) : AppConfig :=
  let c :=
    match pa_app partial with
    | None => c
    | Some p =>
        assign set_ops_http_bind_addr (pap_ops_http_bind_addr p)
          (assign set_rpc_bind_addr (pap_rpc_bind_addr p)
            (assign set_service_name (pap_service_name p) (assign set_env (pap_env p) c)))
    end in
  match pa_observability partial with
  | None => c
  | Some p => assign set_log_filter (pob_log_filter p) c
  end.

(** ** Paths *)

(** [path.join(name)] for a relative, nonempty name. *)
Fixpoint ends_with_slash (p : string) : bool :=
  match p with
  | EmptyString => false
  | String c EmptyString => Ascii.eqb c "/"
  | String _ p => ends_with_slash p
  end.
Definition join (path name : string) : string :=
  if String.eqb path "" || ends_with_slash path then path +:+ name else path +:+ "/" +:+ name.

(** The text before the last slash. *)
Fixpoint before_last_slash (p : string) : option string :=
  match p with
  | EmptyString => None
  | String c p =>
      match before_last_slash p with
      | Some q => Some (String c q)
      | None => if Ascii.eqb c "/" then Some EmptyString else None
      end
  end.
(** What [path.pop()] leaves, if it removes anything. *)
Definition parent (path : string) : option string :=
  if String.eqb path "" || String.eqb path "/" then None
  else
    match before_last_slash path with
    | Some EmptyString => Some "/"%string
    | Some q => Some q
    | None => Some EmptyString
    end.

(** ** Loading *)

Section Load.
(** [env::var(name).ok()], [env::current_dir().ok()], [fs::read_to_string],
    [Path::exists] and [toml::from_str::<PartialAppConfig>]. *)
Context (env_var : string → option string) (current_dir : option string).
Context (read_to_string : string → result string string) (path_exists : string → bool).
Context (toml_from_str : string → result string PartialAppConfig).

Definition merge_file (path : string) (c : AppConfig) : result ConfigError AppConfig :=
  content ← result_map_err (ReadFile path) (read_to_string path);
  partial ← result_map_err (ParseToml path) (toml_from_str content);
  Ok (merge_partial partial c).

Definition apply_env_overrides (c : AppConfig) : result ConfigError AppConfig :=
  env ← transpose app_env_from_str (env_var "APP_ENV");
  let c := assign set_env env c in
  let c := assign set_service_name (env_var "APP_SERVER__SERVICE_NAME") c in
  let c := assign set_rpc_bind_addr (env_var "APP_SERVER__RPC_BIND_ADDR") c in
  let c := assign set_ops_http_bind_addr (env_var "APP_SERVER__OPS_HTTP_BIND_ADDR") c in
  Ok (match env_var "OBSERVABILITY__LOG_FILTER" with
      | Some log_filter => set_log_filter log_filter c
      | None => assign set_log_filter (env_var "RUST_LOG") c
      end).

Definition load_from_dir_for_env (config_dir : string) (app_env : AppEnv)
    : result ConfigError AppConfig :=
  c ← merge_file (join config_dir "default.toml") (default_for_env app_env);
  c ← merge_file (join config_dir (app_env_as_str app_env +:+ ".toml")) c;
  apply_env_overrides (set_env app_env c).

(** The loop of [resolve_config_dir]; a directory has at most as many ancestors as its
    path has characters. *)
Fixpoint search_config_dir (fuel : nat) (dir : string) : result ConfigError string :=
  match fuel with
  | O => Err ConfigDirNotFound
  | S fuel =>
      let candidate := join dir "config" in
      if path_exists (join candidate "default.toml") then Ok candidate
      else match parent dir with
           | Some dir => search_config_dir fuel dir
           | None => Err ConfigDirNotFound
           end
  end.
Definition resolve_config_dir : result ConfigError string :=
  match env_var "BOT_PLATFORM_CONFIG_DIR" with
  | Some path => Ok path
  | None =>
      current_dir ← ok_or ConfigDirNotFound current_dir;
      search_config_dir (S (String.length current_dir)) current_dir
  end.

Definition load : result ConfigError AppConfig :=
  app_env ← transpose app_env_from_str (env_var "APP_ENV");
  config_dir ← resolve_config_dir;
  load_from_dir_for_env config_dir (default Local app_env).
End Load.

(** ** The log filter *)

(** [init_tracing_with_filter]: the filter in force. [valid_filter] is the syntax of
    [tracing_subscriber::EnvFilter]. *)
Definition init_tracing_with_filter (env_var : string → option string)
    (valid_filter : string → bool) (default_filter : string) : string :=
  match env_var "RUST_LOG"%string with
  | Some directives => if valid_filter directives then directives else default_filter
  | None => default_filter
  end.
Definition init_tracing (env_var : string → option string) (valid_filter : string → bool) : string :=
  init_tracing_with_filter env_var valid_filter "info".

Local Open Scope N_scope.

Definition is_blank (s : string) : bool := String.eqb (trim s) "".

(** ** The wrappers of shared repositories and wallets

    Each forwards every method to what it holds. *)

Definition DynLedgerRepo {W} (inner : LedgerRepository W) : LedgerRepository W :=
  {| insert_entries entries := insert_entries (LedgerRepository := inner) entries |}.
Definition DynSettlementRepo {W} (inner : SettlementPersistenceRepository W)
    : SettlementPersistenceRepository W := {|
  insert_settlement_plan r := insert_settlement_plan (SettlementPersistenceRepository := inner) r;
  insert_settlement_record r := insert_settlement_record (SettlementPersistenceRepository := inner) r;
  update_settlement_record_status_by_tx_hash u :=
    update_settlement_record_status_by_tx_hash (SettlementPersistenceRepository := inner) u;
  upsert_settlement_showdown_input r :=
    upsert_settlement_showdown_input (SettlementPersistenceRepository := inner) r;
|}.
Definition DynWallet {W} (inner : SettlementWalletAdapter W) : SettlementWalletAdapter W := {|
  submit_transfer r := submit_transfer (SettlementWalletAdapter := inner) r;
  get_transfer_receipt h := get_transfer_receipt (SettlementWalletAdapter := inner) h;
|}.
Definition DynBatchWallet {W} (inner : BatchSettlementWalletAdapter W)
    : BatchSettlementWalletAdapter W := {|
  submit_batch_transfer r := submit_batch_transfer (BatchSettlementWalletAdapter := inner) r;
  get_batch_transfer_receipt h := get_batch_transfer_receipt (BatchSettlementWalletAdapter := inner) h;
|}.

(** ** Repositories *)

Record PoolOptions := mkPool {
  po_url : string;
  po_max_connections : N;
  po_min_connections : N;
  po_acquire_timeout_ms : N;
}.

(** What stands behind an [Arc<dyn ..Repository>]. *)
Inductive RepoKind := Postgres (pool : PoolOptions) | InMemory | Noop.

Record RepoBundle := mkBundle {
  ledger_repo : RepoKind;
  audit_repo : RepoKind;
  chain_tx_repo : RepoKind;
  audit_read_repo : RepoKind;
  chain_tx_read_repo : RepoKind;
  room_admin_read_repo : RepoKind;
  settlement_read_repo : RepoKind;
  settlement_write_repo : RepoKind;
  db_pool : option PoolOptions;
  backend : string;
}.

(** ** Tasks *)

(** Where a settlement loop pays: a batch contract, the seats one by one, or nowhere. *)
Inductive PayoutMode :=
| BatchPayouts (endpoint contract : string)
| DirectPayouts (endpoint : string)
| OffChainOnly.

Inductive ServerTask :=
| OpsServer (addr : string) (repos : RepoBundle)
| OutboxLoop (source : RepoKind) (poll_interval_ms : N) (batch_limit : nat)
| RpcServer (addr : string) (limits : RpcGatewayLimits) (reject_audit : RepoKind)
| SettlementLoop (mode : PayoutMode) (cfg : AutoSettlementLoopConfig)
    (ledger settlement audit : RepoKind) (alert_sink : bool).

(** [anyhow::Error] *)
Inductive StartupError :=
| ConfigFailed (e : ConfigError)
| Failed (message : string).

(** [PgPoolOptions::connect_lazy], which checks the address only, [TcpListener::bind] and
    [ServerBuilder::build], and [tokio::spawn]. *)
Class Host (W : Type) := {
  connect_lazy : PoolOptions → result string unit;
  listen : string → M W string unit;
  spawn_task : ServerTask → W → W;
}.

Section Environment.
Context (env_var : string → option string).

(** [env::var(name).ok().and_then(|v| v.parse().ok()).unwrap_or(dflt)] *)
Definition env_number (name : string) (mx dflt : N) : N :=
  match env_var name with
  | Some v => unwrap_or dflt (from_str_radix 10 dec_value mx v)
  | None => dflt
  end.

Definition database_url : option string :=
  v ← env_var "DATABASE_URL"; if is_blank v then None else Some v.

Definition pool_options (url : string) : PoolOptions :=
  let max_connections := env_number "POSTGRES_MAX_CONNECTIONS" u32_max 20 in
  let min_connections := N.min (env_number "POSTGRES_MIN_CONNECTIONS" u32_max 2) max_connections in
  mkPool url max_connections min_connections
    (env_number "POSTGRES_ACQUIRE_TIMEOUT_MS" u64_max 10000).

Definition postgres_bundle (pool : PoolOptions) : RepoBundle :=
  mkBundle (Postgres pool) (Postgres pool) (Postgres pool) (Postgres pool) (Postgres pool)
    (Postgres pool) (Postgres pool) (Postgres pool) (Some pool) "postgres".
Definition noop_bundle : RepoBundle :=
  mkBundle Noop Noop Noop InMemory InMemory InMemory InMemory InMemory None "noop".

Definition build_repo_bundle `{Host W} : result StartupError RepoBundle :=
  match database_url with
  | Some url =>
      let pool := pool_options url in
      result_map_err Failed (connect_lazy pool);;
      Ok (postgres_bundle pool)
  | None => Ok noop_bundle
  end.

(** [v.parse::<usize>()] on 64 bits; a variable that is no number is passed over. *)
Definition limit_from (name : string) (dflt : N) : N :=
  match env_var name with
  | Some v => match from_str_radix 10 dec_value u64_max v with
              | Ok parsed => N.max parsed 1
              | Err _ => dflt
              end
  | None => dflt
  end.
Definition rpc_gateway_limits_from_env : RpcGatewayLimits :=
  mkLimits
    (limit_from "RPC_MAX_CONCURRENT_PER_CONNECTION"
       (max_concurrent_per_connection RpcGatewayLimits_default))
    (limit_from "RPC_MAX_RPS_PER_CONNECTION"
       (max_requests_per_second_per_connection RpcGatewayLimits_default)).

Definition ops_http_enabled_from_env : bool :=
  match env_var "APP_SERVER__OPS_HTTP_ENABLED" with
  | Some v => negb (existsb (String.eqb (to_ascii_lowercase (trim v))) ["0"; "false"; "off"; "no"]%string)
  | None => true
  end.
Definition auto_settlement_enabled_from_env : bool :=
  match env_var "APP_SERVER__AUTO_SETTLEMENT_ENABLED" with
  | Some v => existsb (String.eqb (to_ascii_lowercase (trim v))) ["1"; "true"; "on"; "yes"]%string
  | None => true
  end.

(** The wallets, by what they are built from. *)
Definition build_settlement_wallet_adapter_from_env : option string :=
  endpoint ← env_var "SETTLEMENT_EVM_RPC_URL";
  if is_blank endpoint then None else Some endpoint.
Definition build_batch_settlement_wallet_adapter_from_env : option (string * string) :=
  endpoint ← env_var "SETTLEMENT_EVM_RPC_URL";
  contract ← env_var "SETTLEMENT_BATCH_CONTRACT_ADDRESS";
  if is_blank endpoint || is_blank contract then None else Some (endpoint, contract).

Definition payout_mode : PayoutMode :=
  match build_batch_settlement_wallet_adapter_from_env with
  | Some (endpoint, contract) => BatchPayouts endpoint contract
  | None =>
      match build_settlement_wallet_adapter_from_env with
      | Some endpoint => DirectPayouts endpoint
      | None => OffChainOnly
      end
  end.
(** The mode that is logged. *)
Definition settlement_mode : string :=
  match build_batch_settlement_wallet_adapter_from_env, build_settlement_wallet_adapter_from_env with
  | Some _, _ => "batch"
  | None, Some _ => "direct"
  | None, None => "disabled"
  end.

(** ** [main] *)

Context {W : Type} {HW : Host W}.
Context (current_dir : option string) (read_to_string : string → result string string).
Context (path_exists : string → bool) (toml_from_str : string → result string PartialAppConfig).

Definition spawn (task : ServerTask) : M W StartupError unit := modify (spawn_task task).

Definition spawn_ops_http_server (bind_addr : string) (repos : RepoBundle) : M W StartupError unit :=
  M_map_err Failed (listen bind_addr);;
  spawn (OpsServer bind_addr repos).

Definition settlement_loop (repos : RepoBundle) : ServerTask :=
  SettlementLoop payout_mode AutoSettlementLoopConfig_default (ledger_repo repos)
    (settlement_write_repo repos) (audit_repo repos) false.

Definition main : M W StartupError unit :=
  config ← lift_result (result_map_err ConfigFailed
             (load env_var current_dir read_to_string path_exists toml_from_str));
  repos ← lift_result build_repo_bundle;
  M_when ops_http_enabled_from_env
    (spawn_ops_http_server (ap_ops_http_bind_addr (app config)) repos);;
  spawn (OutboxLoop (audit_repo repos) 200 100);;
  M_map_err Failed (listen (ap_rpc_bind_addr (app config)));;
  spawn (RpcServer (ap_rpc_bind_addr (app config)) rpc_gateway_limits_from_env (audit_repo repos));;
  M_when auto_settlement_enabled_from_env (spawn (settlement_loop repos)).
End Environment.
