(* ===== verification/StartupProps.v ===== *)
(** What the start of the server promises: which source of a value of the configuration
    wins, how loading fails and which directory is searched; the tasks a process ends up
    with, and what stands behind them. *)

From stdpp Require Import base tactics option list strings.
From Stdlib Require Import NArith Lia Ascii.
From S2P Require Import Prelude.
From S2P Require Import Text.
From S2P Require Import Domain.
From S2P Require Import Ambient.
From S2P Require Import AuditStore.
From S2P Require Import AutoSettlement.
From S2P Require Import GatewayTypes.
From S2P Require Import GatewayLimits.
From S2P Require Import AppSinks.
From S2P Require Import Startup.

(** ** Which source of a value wins *)

Section Precedence.
Context (env_var : string → option string) (current_dir : option string).
Context (read_to_string : string → result string string) (path_exists : string → bool).
Context (toml_from_str : string → result string PartialAppConfig).

Definition partial_at (path : string) : result ConfigError PartialAppConfig :=
  content ← result_map_err (ReadFile path) (read_to_string path);
  result_map_err (ParseToml path) (toml_from_str content).

(** A variable of the process before the file of the environment before the common
    file before the built-in value. *)
Definition chosen {A} (variable specific common : option A) (built_in : A) : A :=
  default (default (default built_in common) specific) variable.

Definition of_app {A} (f : PartialAppSection → option A) (p : PartialAppConfig) : option A :=
  pa_app p ≫= f.
Definition file_log_filter (p : PartialAppConfig) : option string :=
  pa_observability p ≫= pob_log_filter.
Definition variable_log_filter : option string :=
  match env_var "OBSERVABILITY__LOG_FILTER" with Some v => Some v | None => env_var "RUST_LOG" end.

Definition merged_config (app_env : AppEnv) (common specific : PartialAppConfig) : AppConfig :=
  mkAppConfig
    (mkAppSection app_env
      (chosen (env_var "APP_SERVER__SERVICE_NAME") (of_app pap_service_name specific)
         (of_app pap_service_name common) "app-server"%string)
      (chosen (env_var "APP_SERVER__RPC_BIND_ADDR") (of_app pap_rpc_bind_addr specific)
         (of_app pap_rpc_bind_addr common) "127.0.0.1:9000"%string)
      (chosen (env_var "APP_SERVER__OPS_HTTP_BIND_ADDR") (of_app pap_ops_http_bind_addr specific)
         (of_app pap_ops_http_bind_addr common) "127.0.0.1:9100"%string))
    (mkObservability
      (chosen variable_log_filter (file_log_filter specific) (file_log_filter common) "info"%string)).

Definition overridden (c : AppConfig) : AppConfig :=
  mkAppConfig
    (mkAppSection (ap_env (app c))
      (default (ap_service_name (app c)) (env_var "APP_SERVER__SERVICE_NAME"))
      (default (ap_rpc_bind_addr (app c)) (env_var "APP_SERVER__RPC_BIND_ADDR"))
      (default (ap_ops_http_bind_addr (app c)) (env_var "APP_SERVER__OPS_HTTP_BIND_ADDR")))
    (mkObservability (default (ob_log_filter (observability c)) variable_log_filter)).

Lemma overrides_applied (app_env : option AppEnv) c :
  transpose app_env_from_str (env_var "APP_ENV") = Ok app_env →
  apply_env_overrides env_var (set_env (default Local app_env) c)
  = Ok (overridden (set_env (default Local app_env) c)).
Proof.
  intros He. unfold apply_env_overrides. rewrite He. cbn [mbind result_mbind result_bind].
  f_equal. unfold overridden, variable_log_filter.
  destruct c as [[] []], app_env, (env_var "APP_SERVER__SERVICE_NAME"), (env_var "APP_SERVER__RPC_BIND_ADDR"),
    (env_var "APP_SERVER__OPS_HTTP_BIND_ADDR"), (env_var "OBSERVABILITY__LOG_FILTER"),
    (env_var "RUST_LOG"); reflexivity.
Qed.

Lemma merged_fields p c :
  let c' := merge_partial p c in
  ap_service_name (app c') = default (ap_service_name (app c)) (of_app pap_service_name p) ∧
  ap_rpc_bind_addr (app c') = default (ap_rpc_bind_addr (app c)) (of_app pap_rpc_bind_addr p) ∧
  ap_ops_http_bind_addr (app c')
  = default (ap_ops_http_bind_addr (app c)) (of_app pap_ops_http_bind_addr p) ∧
  ob_log_filter (observability c') = default (ob_log_filter (observability c)) (file_log_filter p).
Proof.
  destruct p as [[[env name rpc ops]|] [[filter]|]]; cbv zeta; cbn [merge_partial pa_app pa_observability];
    try (destruct env, name, rpc, ops); try destruct filter; done.
Qed.

(** C36. Every value of the loaded configuration comes from its variable of the process
    if there is one, else from the file of the environment, else from [default.toml],
    else it is built in; the environment is [APP_ENV]'s, whatever the files say, and
    local without it. Loading fails exactly with the first of: a bad [APP_ENV], no
    directory, an unreadable or malformed [default.toml], an unreadable or malformed
    file of the environment. *)
Theorem configuration_precedence :
  load env_var current_dir read_to_string path_exists toml_from_str
  = (app_env ← transpose app_env_from_str (env_var "APP_ENV");
     dir ← resolve_config_dir env_var current_dir path_exists;
     common ← partial_at (join dir "default.toml");
     specific ← partial_at (join dir (app_env_as_str (default Local app_env) +:+ ".toml"));
     Ok (merged_config (default Local app_env) common specific)).
Proof.
  unfold load, load_from_dir_for_env, merge_file, partial_at.
  destruct (transpose _ _) as [app_env|e] eqn:He; [|done]. cbn [mbind result_mbind result_bind].
  destruct (resolve_config_dir _ _ _) as [dir|e]; [|done]. cbn [mbind result_mbind result_bind].
  destruct (read_to_string (join dir "default.toml")) as [text|e]; [|done].
  cbn [mbind result_mbind result_bind result_map_err].
  destruct (toml_from_str text) as [common|e]; [|done].
  cbn [mbind result_mbind result_bind result_map_err].
  destruct (read_to_string (join dir (_ +:+ _))) as [text'|e]; [|done].
  cbn [mbind result_mbind result_bind result_map_err].
  destruct (toml_from_str text') as [specific|e]; [|done].
  cbn [mbind result_mbind result_bind result_map_err].
  rewrite overrides_applied by done. f_equal. unfold overridden, merged_config, chosen.
  set (d := default Local app_env).
  destruct (merged_fields common (default_for_env d)) as (A1 & A2 & A3 & A4).
  destruct (merged_fields specific (merge_partial common (default_for_env d))) as (B1 & B2 & B3 & B4).
  cbn [set_env app observability ap_env ap_service_name ap_rpc_bind_addr ap_ops_http_bind_addr].
  rewrite B1, B2, B3, B4, A1, A2, A3, A4. reflexivity.
Qed.
End Precedence.

(** ** The directory *)

Section Directory.
Context (env_var : string → option string) (path_exists : string → bool).

(** The directory [k] levels up. *)
Fixpoint up (k : nat) (dir : string) : option string :=
  match k with
  | O => Some dir
  | S k => parent dir ≫= up k
  end.

Definition config_of (dir : string) : string := join dir "config".
Definition has_config (dir : string) : bool := path_exists (join (config_of dir) "default.toml").

Lemma before_last_slash_shorter p q : before_last_slash p = Some q → (String.length q < String.length p)%nat.
Proof.
  revert q. induction p as [|c p IH]; intros q; [done|]. cbn.
  destruct (before_last_slash p) as [q'|].
  - intros [= <-]. cbn. specialize (IH q' eq_refl). lia.
  - case_match; [|done]. intros [= <-]. cbn. lia.
Qed.

Lemma parent_shorter p q :
  parent p = Some q → (String.length q < String.length p)%nat.
Proof.
  unfold parent. destruct p as [|c p]; [done|]. cbn [String.eqb orb].
  destruct (if (c =? "/")%char then (p =? "")%string else false) eqn:Hr; [done|].
  destruct (before_last_slash (String c p)) as [q'|] eqn:Hb.
  - pose proof (before_last_slash_shorter _ _ Hb) as Hlt.
    destruct q' as [|d q']; intros [= <-]; [|exact Hlt].
    destruct p; [|cbn; lia]. cbn in Hb. destruct (c =? "/")%char; [|done]. done.
  - intros [= <-]. cbn. lia.
Qed.

Lemma search_nearest fuel dir c :
  (String.length dir < fuel)%nat →
  search_config_dir path_exists fuel dir = Ok c ↔
  ∃ k d, up k dir = Some d ∧ has_config d = true ∧ c = config_of d ∧
         ∀ j d', (j < k)%nat → up j dir = Some d' → has_config d' = false.
Proof.
  revert dir. induction fuel as [|fuel IH]; intros dir Hf; [lia|]. cbn [search_config_dir].
  fold (config_of dir). fold (has_config dir). destruct (has_config dir) eqn:Hd.
  - split.
    + intros [= <-]. exists 0%nat, dir. split; [done|]. split; [done|]. split; [done|]. lia.
    + intros (k & d & Hk & _ & -> & Hno). destruct k as [|k]; [by injection Hk as <-|].
      by rewrite (Hno 0%nat dir) in Hd by (done || lia).
  - destruct (parent dir) as [p|] eqn:Hp.
    + rewrite IH by (apply parent_shorter in Hp; lia). split.
      * intros (k & d & Hk & Hc & -> & Hno). exists (S k), d. cbn. rewrite Hp. split; [done|].
        split; [done|]. split; [done|]. intros [|j] d' Hj; [by intros [= <-]|]. cbn. rewrite Hp.
        apply Hno. lia.
      * intros (k & d & Hk & Hc & -> & Hno). destruct k as [|k]; [injection Hk as <-; congruence|].
        cbn in Hk. rewrite Hp in Hk. exists k, d. split; [done|]. split; [done|]. split; [done|].
        intros j d' Hj Hup. apply (Hno (S j)); [lia|]. cbn. by rewrite Hp.
    + split; [done|]. intros (k & d & Hk & Hc & _). destruct k as [|k]; [injection Hk as <-; congruence|].
      cbn in Hk. by rewrite Hp in Hk.
Qed.

(** Without [BOT_PLATFORM_CONFIG_DIR] the directory is the [config] of the nearest
    ancestor of the working directory, itself included, that has a [default.toml]
    there; the search always ends, and fails when there is none. *)
Theorem config_dir_is_the_nearest cwd c (Hvar : env_var "BOT_PLATFORM_CONFIG_DIR" = None) :
  (resolve_config_dir env_var (Some cwd) path_exists = Ok c ↔
   ∃ k d, up k cwd = Some d ∧ has_config d = true ∧ c = config_of d ∧
          ∀ j d', (j < k)%nat → up j cwd = Some d' → has_config d' = false) ∧
  (∀ e, resolve_config_dir env_var (Some cwd) path_exists = Err e → e = ConfigDirNotFound).
Proof.
  unfold resolve_config_dir. rewrite Hvar. cbn [ok_or mbind result_mbind result_bind].
  split; [by apply search_nearest; lia|].
  generalize (S (String.length cwd)). intros fuel. revert cwd.
  induction fuel as [|fuel IH]; intros cwd e; cbn; [by intros [= <-]|].
  case_match; [done|]. destruct (parent cwd); [apply IH|by intros [= <-]].
Qed.
End Directory.

Lemma config_dir_is_the_nearest_witness :
  resolve_config_dir (λ _, None) (Some "/srv/bot/crates"%string)
    (λ p, String.eqb p "/srv/bot/config/default.toml") = Ok "/srv/bot/config"%string.
Proof.
  apply (config_dir_is_the_nearest (λ _, None) _ "/srv/bot/crates" "/srv/bot/config" eq_refl).
  exists 1%nat, "/srv/bot"%string. split; [by vm_compute|]. split; [by vm_compute|].
  split; [by vm_compute|]. intros [|j] d' Hj; [|lia]. intros [= <-]. by vm_compute.
Defined.

Local Open Scope N_scope.

(** The host's record of what was spawned; listening spawns nothing. *)
Class HostLaws (W : Type) `{Host W} := {
  spawned : W → list ServerTask;
  spawned_task t w : spawned (spawn_task t w) = spawned w ++ [t];
  listen_quiet addr w : spawned (fst (listen addr w)) = spawned w;
}.

Section Startup.
Context (env_var : string → option string).
Context {W : Type} {HW : Host W} {HL : HostLaws W}.
Context (current_dir : option string) (read_to_string : string → result string string).
Context (path_exists : string → bool) (toml_from_str : string → result string PartialAppConfig).

Abbreviation main := (main env_var current_dir read_to_string path_exists toml_from_str) (only parsing).
Abbreviation load := (load env_var current_dir read_to_string path_exists toml_from_str) (only parsing).

(** The repositories of a process: PostgreSQL behind all of them when a database is
    named; without one everything that is written, plans and showdown inputs apart, is
    dropped. *)
Definition chosen_bundle : RepoBundle :=
  match database_url env_var with
  | Some url => postgres_bundle (pool_options env_var url)
  | None => noop_bundle
  end.

Lemma bundle_built repos : build_repo_bundle env_var (W := W) = Ok repos → repos = chosen_bundle.
Proof.
  unfold build_repo_bundle, chosen_bundle. destruct (database_url env_var) as [url|]; [|by intros [= <-]].
  destruct (connect_lazy _); cbn; by intros [= <-].
Qed.

(** The tasks in the order in which they are spawned. *)
Definition server_tasks (config : AppConfig) : list ServerTask :=
  (if ops_http_enabled_from_env env_var
   then [OpsServer (ap_ops_http_bind_addr (app config)) chosen_bundle] else [])
  ++ [OutboxLoop (audit_repo chosen_bundle) 200 100;
      RpcServer (ap_rpc_bind_addr (app config)) (rpc_gateway_limits_from_env env_var)
        (audit_repo chosen_bundle)]
  ++ (if auto_settlement_enabled_from_env env_var
      then [settlement_loop env_var chosen_bundle] else []).

(** Listening, then spawning: the task is there exactly if the address was free. *)
Lemma listen_then_spawn addr task (w : W) :
  ∃ w' r, (M_map_err Failed (listen addr) ;; spawn task) w = (w', r) ∧
    match r with
    | Ok _ => spawned w' = spawned w ++ [task]
    | Err e => spawned w' = spawned w ∧ ∃ message, e = Failed message
    end.
Proof.
  unfold spawn. mrun. pose proof (listen_quiet addr w) as Hq.
  destruct (listen addr w) as [w1 [[]|e]]; cbn in *; eexists _, _; (split; [reflexivity|]); cbn.
  - by rewrite spawned_task, Hq.
  - split; [done|by eexists].
Qed.

Definition prefix_of_tasks (w w' : W) (config : AppConfig) : Prop :=
  ∃ rest, spawned w ++ server_tasks config = spawned w' ++ rest.

(** A start that succeeds leaves exactly the tasks that the configuration and the
    environment ask for, in this order; one that fails later than its configuration
    leaves the first of them, and one whose configuration does not load none. *)
Theorem startup_spawns_what_is_configured (w w' : W) r (Hmain : main w = (w', r)) :
  match r with
  | Ok _ => ∃ config, load = Ok config ∧ spawned w' = spawned w ++ server_tasks config
  | Err (ConfigFailed e) => load = Err e ∧ w' = w
  | Err (Failed _) => ∃ config, load = Ok config ∧ prefix_of_tasks w w' config
  end.
Proof.
  revert Hmain. unfold Startup.main, mbind, M_mbind, M_bind, lift_result. fold load.
  destruct load as [config|e]; cbn [result_map_err]; [|by intros [= <- <-]].
  destruct (build_repo_bundle env_var (W := W)) as [repos|[e|e]] eqn:Hb.
  2: { exfalso. revert Hb. unfold build_repo_bundle.
       destruct (database_url env_var); [|done]. by destruct (connect_lazy _). }
  2: { intros [= <- <-]. exists config. split; [done|]. by eexists. }
  apply bundle_built in Hb as ->. unfold prefix_of_tasks, server_tasks.
  set (ops := if ops_http_enabled_from_env env_var
              then [OpsServer (ap_ops_http_bind_addr (app config)) chosen_bundle] else []).
  assert (∃ w1 r1, M_when (ops_http_enabled_from_env env_var)
      (spawn_ops_http_server (ap_ops_http_bind_addr (app config)) chosen_bundle) w = (w1, r1) ∧
    match r1 with
    | Ok _ => spawned w1 = spawned w ++ ops
    | Err e => spawned w1 = spawned w ∧ ∃ message, e = Failed message
    end) as (w1 & r1 & E1 & H1).
  { unfold M_when, ops. destruct (ops_http_enabled_from_env env_var); [apply listen_then_spawn|].
    eexists _, _. split; [reflexivity|]. by rewrite app_nil_r. }
  rewrite E1. destruct r1 as [x|e]; [|destruct H1 as [H1 [message ->]]; intros [= <- <-];
    exists config; split; [done|]; rewrite H1; by eexists].
  unfold spawn at 1, modify. set (w2 := spawn_task _ w1).
  assert (spawned w2 = spawned w ++ ops ++ [OutboxLoop (audit_repo chosen_bundle) 200 100]) as H2
    by (unfold w2; by rewrite spawned_task, H1, <-app_assoc).
  destruct (listen_then_spawn (ap_rpc_bind_addr (app config)) (RpcServer (ap_rpc_bind_addr (app config))
    (rpc_gateway_limits_from_env env_var) (audit_repo chosen_bundle)) w2) as (w3 & r3 & E3 & H3).
  unfold mbind, M_mbind, M_bind in E3. destruct (M_map_err Failed (listen _) w2) as [w2' [y|e]].
  - rewrite E3. destruct r3 as [z|e]; [|by injection E3].
    unfold M_when. destruct (auto_settlement_enabled_from_env env_var).
    + unfold spawn, modify. intros [= <- <-]. exists config. split; [done|].
      rewrite spawned_task, H3, H2. by rewrite <-!app_assoc.
    + intros [= <- <-]. exists config. split; [done|]. rewrite H3, H2. by rewrite <-!app_assoc.
  - injection E3 as <- <-. destruct H3 as [H3 [message ->]]. intros [= <- <-].
    exists config. split; [done|]. rewrite H3, H2. eexists. by rewrite <-!app_assoc.
Qed.
End Startup.

(** ** What the environment decides *)

(** Every limit is at least one call. *)
Lemma limits_are_positive env_var :
  1 ≤ max_concurrent_per_connection (rpc_gateway_limits_from_env env_var) ∧
  1 ≤ max_requests_per_second_per_connection (rpc_gateway_limits_from_env env_var).
Proof.
  assert (∀ name d, 1 ≤ d → 1 ≤ limit_from env_var name d) as Hl.
  { intros name d Hd. unfold limit_from. destruct (env_var name); [|done].
    destruct (from_str_radix _ _ _ _); [lia|done]. }
  split; apply Hl; vm_compute; discriminate.
Qed.

(** The mode that is logged is the mode of the loop. *)
Lemma logged_mode_is_the_mode env_var :
  settlement_mode env_var
  = match payout_mode env_var with
    | BatchPayouts _ _ => "batch" | DirectPayouts _ => "direct" | OffChainOnly => "disabled"
    end%string.
Proof.
  unfold settlement_mode, payout_mode.
  destruct (build_batch_settlement_wallet_adapter_from_env env_var) as [[]|]; [done|].
  by destruct (build_settlement_wallet_adapter_from_env env_var).
Qed.

(** [NoopAuditRepository] beside whatever else the world holds. *)
Definition noop_audit {W} : AuditRepository W :=
  {| insert_action_attempt _ := mret tt; insert_behavior_event _ := mret tt;
     append_hand_events _ := mret tt; insert_outbox_event _ := mret tt;
     fetch_pending_outbox_events _ := mret []; mark_outbox_event_delivered _ _ := mret tt |}.

(** Without a database the publisher reads from the repository that keeps nothing: the
    bus of the subscribers never gets an event, however often it ticks. *)
Theorem without_database_nothing_is_published env_var `{EC : EventCodec} {W : Type}
    `{EB : !EventSubscriptionPort W} `{CK : !Clock W} limit ticks (w : W)
    (Hdb : database_url env_var = None) :
  audit_repo (chosen_bundle env_var) = Noop ∧
  outbox_ticks (AR := noop_audit) limit ticks w = (w, Ok tt).
Proof.
  split; [unfold chosen_bundle; by rewrite Hdb|].
  induction ticks as [|ticks IH]; [done|]. cbn [outbox_ticks]. unfold mbind, M_mbind, M_bind. exact IH.
Qed.

(** ** A concrete start *)

(** Every address is free; the host remembers what was spawned. *)
#[local] Instance open_host : Host (list ServerTask) := {|
  connect_lazy _ := Ok tt;
  listen _ := mret tt;
  spawn_task t w := w ++ [t];
|}.
#[local] Instance open_host_laws : HostLaws (list ServerTask).
Proof. by refine {| spawned := id |}. Defined.

(** A node but no contract for batches, and no administration. *)
Definition demo_env (name : string) : option string :=
  if String.eqb name "SETTLEMENT_EVM_RPC_URL" then Some "http://node"%string
  else if String.eqb name "APP_SERVER__OPS_HTTP_ENABLED" then Some " OFF "%string
  else if String.eqb name "BOT_PLATFORM_CONFIG_DIR" then Some "/etc/bot"%string
  else if String.eqb name "RPC_MAX_RPS_PER_CONNECTION" then Some "0"%string
  else None.
Definition empty_files (path : string) : result string string := Ok EmptyString.
Definition empty_toml (text : string) : result string PartialAppConfig := Ok (mkPartial None None).
Definition demo_main : M (list ServerTask) StartupError unit :=
  main demo_env None empty_files (λ _, false) empty_toml.

Lemma demo_main_facts : demo_main [] = (fst (demo_main []), Ok tt).
Proof. vm_compute. reflexivity. Qed.

Lemma startup_spawns_what_is_configured_witness :
  fst (demo_main [])
  = [OutboxLoop Noop 200 100; RpcServer "127.0.0.1:9000" (mkLimits 64 1) Noop;
     SettlementLoop (DirectPayouts "http://node") AutoSettlementLoopConfig_default Noop InMemory Noop
       false].
Proof.
  destruct (startup_spawns_what_is_configured demo_env None empty_files (λ _, false) empty_toml [] _ _
    demo_main_facts) as (config & Hload & Ht).
  unfold spawned, open_host_laws, id in Ht. rewrite Ht.
  assert (config = default_for_env Local) as ->; [|vm_compute; reflexivity].
  vm_compute in Hload. injection Hload as <-. reflexivity.
Defined.
