(* ===== verification/HeadlessClient.v ===== *)
(** The small program of the client ([headless-agent-client/src/main.rs]) and the file of
    JSON lines it keeps ([headless-agent-client/src/audit.rs]).

    The file belongs to the world: a write that fails may have written a part. serde's
    derived encodings are parameters; what the program logs is left out. *)

From stdpp Require Import base tactics option list gmap strings.
From Stdlib Require Import NArith ZArith Lia.
From S2P Require Import Prelude.
From S2P Require Import Text.
From S2P Require Import Domain.
From S2P Require Import Ambient.
From S2P Require Import LedgerStore.
From S2P Require Import SeatCrypto.
From S2P Require Import AgentAuth.
From S2P Require Import AgentSdk.
From S2P Require Import AgentClient.

Local Open Scope N_scope.

(** ** The local audit *)

Inductive LocalAuditError := AuditIo (message : string) | AuditSerde (message : string) | AuditUnavailable.
Definition audit_error_text (e : LocalAuditError) : string :=
  match e with
  | AuditIo m => "io error: " +:+ m
  | AuditSerde m => "serialization error: " +:+ m
  | AuditUnavailable => "audit logger unavailable"
  end.

Record ClientAuditRecord := mkClientAudit {
  ca_ts_unix_ms : N;
  ca_event_kind : string;
  ca_room_id : option RoomId;
  ca_hand_id : option HandId;
  ca_seat_id : option SeatId;
  ca_payload : Json;
}.

(** [OpenOptions::open] for appending, [write_all] and [flush]; a file is its handle. *)
Class AppendFile (W : Type) := {
  open_append : string → M W string N;
  write_all : N → Bytes → M W string unit;
  flush : N → M W string unit;
}.

(** [serde_json::to_vec] and [to_value] of the derived encodings. *)
Class BootstrapCodec := {
  record_to_vec : ClientAuditRecord → result string Bytes;
  turn_context_to_value : TurnContext → result string Json;
  receipt_to_value : EvmTransferReceipt → result string Json;
}.

Record LocalAuditLogger := mkAuditLogger { al_file : Mutex N }.

Section Audit.
Context {W : Type} {AF : AppendFile W} {BC : BootstrapCodec} {CK : Clock W}.

Definition audit_open (path : string) : M W LocalAuditError LocalAuditLogger :=
  file ← M_map_err AuditIo (open_append path);
  mret (mkAuditLogger (mkMutex false file)).

Definition newline : Byte.byte := Byte.x0a.

Definition audit_append (logger : LocalAuditLogger) (record : ClientAuditRecord)
    : M W LocalAuditError unit :=
  file ← lift_result (result_map_err (λ _, AuditUnavailable) (lock (al_file logger)));
  line ← lift_result (result_map_err AuditSerde (record_to_vec record));
  M_map_err AuditIo (write_all file (line ++ [newline]));;
  M_map_err AuditIo (flush file).

(** [SystemTime::now().duration_since(UNIX_EPOCH)]: the clock of the world counts from
    there. *)
Definition now_unix_ms : M W LocalAuditError N := now.
End Audit.

(** ** The program *)

Definition policy_source_debug (s : PolicySource) : string :=
  match s with SourceRule => "Rule" | SourceLlm => "Llm" | SourceScript => "Script" end.

Section Program.
Context {W : Type} {AF : AppendFile W} {BC : BootstrapCodec} {CK : Clock W} {FI : FreshIds W}.
Context {US : UuidSimple}.

Abbreviation P A := (M W string A) (only parsing).

Definition record_event (logger : LocalAuditLogger) (event_kind : string) (turn : option TurnContext)
    (payload : Json) : P unit :=
  ts ← M_map_err audit_error_text now_unix_ms;
  M_map_err audit_error_text (audit_append logger
    (mkClientAudit ts event_kind (tn_room_id <$> turn) (tn_hand_id <$> turn) (tn_seat_id <$> turn)
       payload)).

(** [skill.connect(..)] on a fresh skill. *)
Definition connect_skill : P LocalAgentSkill := λ w,
  let '((skill, w), r) :=
    skill_connect (mkSkillConfig "http://127.0.0.1:9000" (Some "ws://127.0.0.1:9000"%string) None)
      (LocalAgentSkill_default, w) in
  (w, result_map_err skill_error_text (result_bind r (λ _, Ok skill))).

(** The stub of a model first; the rules are asked in any case. *)
Definition decide (input : PolicyDecisionInput) : P (option PolicyDecision) :=
  llm ← M_map_err policy_error_text (decide_action (PolicyAdapter := LlmCodexPolicyAdapter) input);
  rule ← M_map_err policy_error_text (decide_action (PolicyAdapter := RulePolicyAdapter) input);
  mret (match llm with Some d => Some d | None => rule end).

Definition bootstrap_turn (room_id : RoomId) (hand_id : HandId) : TurnContext :=
  mkTurnContext room_id hand_id 0 ["check"; "fold"]%string None.
Definition bootstrap_transfer (turn : TurnContext) : EvmTransferRequest :=
  mkEvmTransfer (tn_room_id turn) "0xseat" "0xroom" 10 71.

Definition selected_payload (action : ActionType) (decision : option PolicyDecision) : Json :=
  JObj [("action", JStr (action_name action));
        ("policy_decision_source",
         match decision with
         | Some d => JStr (to_ascii_lowercase (policy_source_debug (pd_source d)))
         | None => JNull
         end)]%string.

(** The result is what is logged at the end: the action and the transaction. *)
Definition main : P (ActionType * string) :=
  audit ← M_map_err audit_error_text (audit_open "headless-agent-client.audit.ndjson");
  connect_skill;;
  record_event audit "client_connected" None
    (JObj [("endpoint_http", JStr "http://127.0.0.1:9000"); ("has_ws", JBool true)]%string);;
  room_id ← new_uuid;
  hand_id ← new_uuid;
  let turn := bootstrap_turn room_id hand_id in
  let state_cache := update_turn turn (mkStateCache None None) in
  turn_json ← lift_result (turn_context_to_value turn);
  record_event audit "turn_context_updated" (Some turn) turn_json;;
  let input := mkPolicyInput room_id hand_id (tn_seat_id turn) (tn_legal_actions turn) (JObj []) None
                 None in
  decision ← decide input;
  let fallback_action :=
    match decision with
    | Some d => pd_action_type d
    | None => fallback_choose_action FallbackPolicy_default (pi_legal_actions input)
    end in
  record_event audit "fallback_action_selected" (sc_current_turn state_cache)
    (selected_payload fallback_action decision);;
  receipt ← M_map_err wallet_error_text
              (transfer_to_room (WalletAdapter := MockEvmWalletAdapter) (bootstrap_transfer turn));
  receipt_json ← lift_result (receipt_to_value receipt);
  record_event audit "wallet_tx_submitted" (Some turn) receipt_json;;
  mret (fallback_action, er_tx_hash receipt).
End Program.

(** ** What the small client promises: its audit file grows by whole lines, and a run
    that succeeds has left its four. *)


(** A file opened for appending: what is written goes to its end, a failed write leaves
    a part of it; identifiers come from elsewhere. *)
Class AppendFileLaws (W : Type) `{AF : AppendFile W} `{FI : FreshIds W} := {
  contents : W → N → Bytes;
  open_keeps path w f : contents (fst (open_append path w)) f = contents w f;
  write_appends f bytes w :
    let '(w', r) := write_all f bytes w in
    match r with
    | Ok _ => contents w' f = contents w f ++ bytes
    | Err _ => ∃ part, part `prefix_of` bytes ∧ contents w' f = contents w f ++ part
    end;
  flush_keeps f w g : contents (fst (flush f w)) g = contents w g;
  ids_keep w f : contents (fst (fresh_uuid w)) f = contents w f;
}.

Section Audit.
Context {W : Type} {AF : AppendFile W} {BC : BootstrapCodec} {CK : Clock W} {FI : FreshIds W}.
Context {US : UuidSimple} {AL : AppendFileLaws W}.

Definition line_of (record : ClientAuditRecord) (bytes : Bytes) : Prop :=
  ∃ line, record_to_vec record = Ok line ∧ bytes = line ++ [newline].

(** A record is appended as one whole line; only a failed write leaves a part of a line,
    which the next record is written right after. *)
Theorem audit_line_is_whole logger record (w w' : W) r
    (Happ : audit_append logger record w = (w', r)) :
  let f := mx_value (al_file logger) in
  match r with
  | Ok _ => ∃ bytes, line_of record bytes ∧ contents w' f = contents w f ++ bytes
  | Err (AuditIo _) => ∃ bytes part, line_of record bytes ∧ part `prefix_of` bytes ∧
                         contents w' f = contents w f ++ part
  | Err _ => w' = w
  end.
Proof.
  revert Happ. unfold audit_append, lock. mrun. cbv zeta.
  destruct (mx_poisoned (al_file logger)); [by intros [= <- <-]|].
  set (f := mx_value (al_file logger)). cbn.
  destruct (record_to_vec record) as [line|e] eqn:Hl; [|by intros [= <- <-]].
  assert (line_of record (line ++ [newline])) as Hline by by exists line.
  pose proof (write_appends f (line ++ [newline]) w) as Hw.
  destruct (write_all f (line ++ [newline]) w) as [w1 [[]|e]]; cbn.
  - pose proof (flush_keeps f w1 f) as Hf. destruct (flush f w1) as [w2 [[]|e]]; cbn in *;
      intros [= <- <-]; rewrite Hf, Hw; eauto.
  - intros [= <- <-]. destruct Hw as (part & Hp & ->). eauto.
Qed.

Lemma recorded logger kind turn payload (w w' : W) :
  record_event logger kind turn payload w = (w', Ok tt) →
  ∃ record bytes, ca_event_kind record = kind ∧ ca_payload record = payload ∧ line_of record bytes ∧
    contents w' (mx_value (al_file logger)) = contents w (mx_value (al_file logger)) ++ bytes.
Proof.
  unfold record_event, now_unix_ms, now. mrun. cbn.
  set (record := mkClientAudit _ _ _ _ _ _).
  destruct (audit_append logger record w) as [w1 [[]|e]] eqn:Ha; cbn; [|done]. intros [= <-].
  apply audit_line_is_whole in Ha as (bytes & Hl & Hc). by exists record, bytes.
Qed.

(** A run that succeeds has checked, and has appended four lines to its file: that it
    connected, its turn, the action with where it came from, the transaction. *)
Theorem bootstrap_is_audited (w w' : W) action tx (Hmain : main w = (w', Ok (action, tx))) :
  action = Check ∧
  ∃ f r1 r2 r3 r4 b1 b2 b3 b4,
    map ca_event_kind [r1; r2; r3; r4]
    = ["client_connected"; "turn_context_updated"; "fallback_action_selected";
       "wallet_tx_submitted"]%string ∧
    ca_payload r3 = JObj [("action", JStr "check"); ("policy_decision_source", JStr "rule")]%string ∧
    line_of r1 b1 ∧ line_of r2 b2 ∧ line_of r3 b3 ∧ line_of r4 b4 ∧
    contents w' f = contents w f ++ b1 ++ b2 ++ b3 ++ b4.
Proof.
  revert Hmain. unfold main, audit_open, new_uuid, mbind, M_mbind, M_bind, M_map_err, lift_result.
  pose proof (open_keeps "headless-agent-client.audit.ndjson" w) as H0.
  destruct (open_append "headless-agent-client.audit.ndjson" w) as [w0 [f|e]]; cbn in H0 |- *; [|done].
  set (logger := mkAuditLogger (mkMutex false f)).
  destruct (record_event logger "client_connected" _ _ w0) as [w1 [[]|e]] eqn:E1; [|done].
  apply recorded in E1 as (r1 & b1 & K1 & _ & L1 & C1).
  pose proof (ids_keep w1 f) as I1. destruct (fresh_uuid w1) as [w2 room_id].
  pose proof (ids_keep w2 f) as I2. destruct (fresh_uuid w2) as [w3 hand_id]. cbn in I1, I2.
  destruct (turn_context_to_value _) as [turn_json|e]; [|done].
  destruct (record_event logger "turn_context_updated" _ _ w3) as [w4 [[]|e]] eqn:E2; [|done].
  apply recorded in E2 as (r2 & b2 & K2 & _ & L2 & C2).
  cbn [decide]. unfold decide, mbind, M_mbind, M_bind, M_map_err. cbn -[record_event].
  destruct (record_event logger "fallback_action_selected" _ _ w4) as [w5 [[]|e]] eqn:E3; [|done].
  apply recorded in E3 as (r3 & b3 & K3 & P3 & L3 & C3).
  unfold new_uuid, mbind, M_mbind, M_bind. pose proof (ids_keep w5 f) as I3.
  destruct (fresh_uuid w5) as [w6 tx_id]. cbn in I3. cbn -[record_event].
  destruct (receipt_to_value _) as [receipt_json|e]; [|done].
  destruct (record_event logger "wallet_tx_submitted" _ _ w6) as [w7 [[]|e]] eqn:E4; [|done].
  apply recorded in E4 as (r4 & b4 & K4 & _ & L4 & C4). intros [= <- <- <-].
  split; [done|]. exists f, r1, r2, r3, r4, b1, b2, b3, b4. cbn [map]. rewrite K1, K2, K3, K4.
  split; [done|]. split; [by rewrite P3|]. do 4 (split; [done|]).
  cbn in C1, C2, C3, C4. rewrite C4, I3, C3, C2, I2, I1, C1, H0. by rewrite <-!app_assoc.
Qed.
End Audit.

(** ** A concrete run *)

(** One file, and identifiers that count up. *)
Record FileWorld := mkFileWorld { fw_file : Bytes; fw_next : N }.
#[local] Instance one_file : AppendFile FileWorld := {|
  open_append _ w := (w, Ok 0);
  write_all _ bytes w := (mkFileWorld (fw_file w ++ bytes) (fw_next w), Ok tt);
  flush _ w := (w, Ok tt);
|}.
#[local] Instance file_clock : Clock FileWorld := {| utc_now _ := 0 |}.
#[local] Instance file_ids : FreshIds FileWorld :=
  {| fresh_uuid w := (mkFileWorld (fw_file w) (fw_next w + 1), fw_next w) |}.
#[local] Instance file_codec : BootstrapCodec := {|
  record_to_vec record := Ok [Byte.x7b; Byte.x7d];
  turn_context_to_value _ := Ok JNull;
  receipt_to_value _ := Ok JNull;
|}.
#[local] Instance file_uuids : UuidSimple := {| uuid_simple _ := "00" |}.
#[local] Instance file_laws : AppendFileLaws FileWorld.
Proof. by refine {| contents := λ w _, fw_file w |}. Defined.

Lemma bootstrap_run_facts :
  main (mkFileWorld [] 7) = (fst (main (mkFileWorld [] 7)), Ok (Check, "0x00"%string)).
Proof. vm_compute. reflexivity. Qed.

Lemma bootstrap_is_audited_witness :
  length (fw_file (fst (main (mkFileWorld [] 7)))) = 12%nat.
Proof.
  destruct (bootstrap_is_audited _ _ Check "0x00" bootstrap_run_facts)
    as (_ & f & r1 & r2 & r3 & r4 & b1 & b2 & b3 & b4 & _ & _ & L1 & L2 & L3 & L4 & Hc).
  cbn [contents file_laws] in Hc. rewrite Hc.
  destruct L1 as (? & [= <-] & ->), L2 as (? & [= <-] & ->), L3 as (? & [= <-] & ->),
    L4 as (? & [= <-] & ->). reflexivity.
Defined.

Definition demo_record : ClientAuditRecord := mkClientAudit 0 "k" None None None JNull.
Lemma append_run_facts :
  audit_append (mkAuditLogger (mkMutex false 0)) demo_record (mkFileWorld [] 7)
  = (mkFileWorld [Byte.x7b; Byte.x7d; Byte.x0a] 7, Ok tt).
Proof. vm_compute. reflexivity. Qed.

Lemma audit_line_is_whole_witness :
  ∃ bytes, line_of demo_record bytes ∧ [Byte.x7b; Byte.x7d; Byte.x0a] = [] ++ bytes.
Proof. exact (audit_line_is_whole _ _ _ _ _ append_run_facts). Defined.
