(* ===== verification/DomainJson.v ===== *)
(** The values that serde derives for the types that are stored or published: the names
    and the shapes that the attributes of [poker-domain], [settlement] and
    [table-service] ask for ([#[serde(rename_all = "snake_case")]], [transparent]), as
    [serde_json::to_value] builds them and [from_value] reads them.

    Parameters are what the libraries do with a number of 128 bits, a time and an
    identifier: [SerdeScalars]; [SerdeLaws] is what they are documented to do. In
    particular a [serde_json::Value] without the feature [arbitrary_precision], which the
    repository does not ask for, holds no number above 64 bits. As in [JsonRpc] a struct is
    read from an object only.

    The lemmas say what these values keep: a hand event is read back from its value, and it
    has a value exactly when its amount fits into 64 bits. *)

From stdpp Require Import base tactics option list strings pretty.
From Stdlib Require Import NArith ZArith Lia.
From S2P Require Import Prelude.
From S2P Require Import Text.
From S2P Require Import Domain.
From S2P Require Import Ambient.
From S2P Require Import Settlement.
From S2P Require Import JsonRpc.
From S2P Require Import Orchestrator.
From S2P Require Import TableService.
From S2P Require Import OpsHttp.
From S2P Require Import AppSinks.

Local Open Scope N_scope.

Class SerdeScalars := {
  u128_to_value : N → result string Json;
  datetime_to_value : DateTime → Json;
  datetime_from_value : Json → option DateTime;
  decode_failure : Json → string;
  serde_uuid_text :: UuidText;
  serde_parse_uuid :: ParseUuid;
}.
Class SerdeLaws `{SS : SerdeScalars} : Prop := {
  u128_in_range : ∀ n, n ≤ u64_max → u128_to_value n = Ok (json_N n);
  u128_out_of_range : ∀ n, u64_max < n → ∃ e, u128_to_value n = Err e;
  datetime_reads : ∀ t, datetime_from_value (datetime_to_value t) = Some t;
  uuid_reads : ∀ u, u ≤ u128_max → parse_uuid (uuid_text u) = Ok u;
}.

(** An event of a player's behaviour as [poker-domain] has it. *)
Record AuditBehaviorEvent := mkAuditBehaviorEvent {
  ab_room_id : option RoomId;
  ab_hand_id : option HandId;
  ab_seat_id : option SeatId;
  ab_trace_id : TraceId;
  ab_occurred_at : DateTime;
  ab_kind : AuditBehaviorEventKind;
}.

Section Values.
Context `{SS : SerdeScalars}.

(** ** Scalars *)

Definition uuid_to_value (u : Uuid) : Json := JStr (uuid_text u).
Definition decode_uuid : Decoder Uuid := λ j, s ← as_str j; result_ok (parse_uuid s).
Definition decode_unsigned (mx : N) : Decoder N := λ j,
  match j with
  | JNum z => if ((0 <=? z) && (z <=? Z.of_N mx))%Z then Some (Z.to_N z) else None
  | _ => None
  end.
Definition option_to_value {A} (f : A → result string Json) (o : option A) : result string Json :=
  match o with Some a => f a | None => Ok JNull end.

(** ** The enumerations of names *)

Definition action_type_text (a : ActionType) : string :=
  match a with
  | Fold => "fold" | Check => "check" | Call => "call" | RaiseTo => "raise_to" | AllIn => "all_in"
  end.
Definition street_name (s : Street) : string :=
  match s with
  | Preflop => "preflop" | Flop => "flop" | Turn => "turn" | River => "river"
  | Showdown => "showdown"
  end.
Definition hand_status_name (s : HandStatus) : string :=
  match s with
  | HCreated => "created" | HRunning => "running" | HShowdown => "showdown"
  | HSettling => "settling" | HSettled => "settled" | HAborted => "aborted"
  end.
(** The variant with the name, among all of them. *)
Definition decode_name {A} (name : A → string) (variants : list A) : Decoder A := λ j,
  s ← as_str j; snd <$> list_find (λ a, name a = s) variants.
Definition decode_action_type : Decoder ActionType :=
  decode_name action_type_text [Fold; Check; Call; RaiseTo; AllIn].
Definition decode_street : Decoder Street :=
  decode_name street_name [Preflop; Flop; Turn; River; Showdown].

(** ** Actions and events *)

Definition player_action_to_value (a : PlayerAction) : result string Json :=
  amount ← option_to_value u128_to_value (pa_amount a);
  Ok (JObj [("room_id", uuid_to_value (pa_room_id a)); ("hand_id", uuid_to_value (pa_hand_id a));
            ("action_seq", json_N (pa_action_seq a)); ("seat_id", json_N (pa_seat_id a));
            ("action_type", JStr (action_type_text (pa_action_type a))); ("amount", amount)])%string.
Definition decode_player_action : Decoder PlayerAction := λ j,
  if negb (is_object j) then None
  else
    room_id ← required_field decode_uuid "room_id" j;
    hand_id ← required_field decode_uuid "hand_id" j;
    action_seq ← required_field (decode_unsigned u32_max) "action_seq" j;
    seat_id ← required_field (decode_unsigned 255) "seat_id" j;
    action_type ← required_field decode_action_type "action_type" j;
    amount ← option_field (decode_unsigned u128_max) "amount" j;
    Some (mkPlayerAction room_id hand_id action_seq seat_id action_type amount).

(** A variant with a content is an object of one field, named after the variant. *)
Definition variant (name : string) (content : Json) : Json := JObj [(name, content)].
Definition hand_kind_to_value (kind : HandEventKind) : result string Json :=
  match kind with
  | HandStarted => Ok (JStr "hand_started")
  | TurnStarted seat_id => Ok (variant "turn_started" (JObj [("seat_id", json_N seat_id)]))
  | ActionAccepted action =>
      content ← player_action_to_value action; Ok (variant "action_accepted" content)
  | StreetChanged street =>
      Ok (variant "street_changed" (JObj [("street", JStr (street_name street))]))
  | PotUpdated pot_total =>
      total ← u128_to_value pot_total; Ok (variant "pot_updated" (JObj [("pot_total", total)]))
  | HandClosed => Ok (JStr "hand_closed")
  end%string.

(** A variant without content is its name, or its name with [null]. *)
Definition decode_unit (name : string) : option HandEventKind :=
  if String.eqb name "hand_started" then Some HandStarted
  else if String.eqb name "hand_closed" then Some HandClosed
  else None.
Definition decode_content (name : string) (content : Json) : option HandEventKind :=
  if String.eqb name "turn_started"
  then if is_object content then TurnStarted <$> required_field (decode_unsigned 255) "seat_id" content
       else None
  else if String.eqb name "action_accepted" then ActionAccepted <$> decode_player_action content
  else if String.eqb name "street_changed"
  then if is_object content then StreetChanged <$> required_field decode_street "street" content
       else None
  else if String.eqb name "pot_updated"
  then if is_object content
       then PotUpdated <$> required_field (decode_unsigned u128_max) "pot_total" content
       else None
  else if is_null content then decode_unit name
  else None.
Definition decode_hand_kind : Decoder HandEventKind := λ j,
  match j with
  | JStr name => decode_unit name
  | JObj [(name, content)] => decode_content name content
  | _ => None
  end.

Definition hand_event_json (e : HandEvent) : result string Json :=
  kind ← hand_kind_to_value (he_kind e);
  Ok (JObj [("room_id", uuid_to_value (he_room_id e)); ("hand_id", uuid_to_value (he_hand_id e));
            ("event_seq", json_N (he_event_seq e)); ("trace_id", uuid_to_value (he_trace_id e));
            ("occurred_at", datetime_to_value (he_occurred_at e)); ("kind", kind)])%string.
Definition decode_hand_event : Decoder HandEvent := λ j,
  if negb (is_object j) then None
  else
    room_id ← required_field decode_uuid "room_id" j;
    hand_id ← required_field decode_uuid "hand_id" j;
    event_seq ← required_field (decode_unsigned u32_max) "event_seq" j;
    trace_id ← required_field decode_uuid "trace_id" j;
    occurred_at ← required_field datetime_from_value "occurred_at" j;
    kind ← required_field decode_hand_kind "kind" j;
    Some (mkHandEvent room_id hand_id event_seq trace_id occurred_at kind).

Definition audit_kind_to_value (kind : AuditBehaviorEventKind) : Json :=
  match kind with
  | SeatJoined seat_id => variant "seat_joined" (JObj [("seat_id", json_N seat_id)])
  | SeatLeft seat_id => variant "seat_left" (JObj [("seat_id", json_N seat_id)])
  | SeatAddressBound seat_id => variant "seat_address_bound" (JObj [("seat_id", json_N seat_id)])
  | SeatSessionKeysBound seat_id key_algo =>
      variant "seat_session_keys_bound"
        (JObj [("seat_id", json_N seat_id); ("key_algo", JStr key_algo)])
  | TurnTimeoutAutoFold seat_id action_seq =>
      variant "turn_timeout_auto_fold"
        (JObj [("seat_id", json_N seat_id); ("action_seq", json_N action_seq)])
  | ChainTxVerificationCallback seat_id action_seq tx_hash status confirmations failure_reason =>
      variant "chain_tx_verification_callback"
        (JObj [("seat_id", json_opt json_N seat_id); ("action_seq", json_opt json_N action_seq);
               ("tx_hash", JStr tx_hash); ("status", JStr status);
               ("confirmations", json_N confirmations);
               ("failure_reason", json_opt JStr failure_reason)])
  end%string.

Definition audit_event_to_value (e : AuditBehaviorEvent) : Json :=
  JObj [("room_id", json_opt uuid_to_value (ab_room_id e));
        ("hand_id", json_opt uuid_to_value (ab_hand_id e));
        ("seat_id", json_opt json_N (ab_seat_id e)); ("trace_id", uuid_to_value (ab_trace_id e));
        ("occurred_at", datetime_to_value (ab_occurred_at e));
        ("kind", audit_kind_to_value (ab_kind e))]%string.

Definition decode_seat_event : Decoder SeatPrivateEvent := λ j,
  if negb (is_object j) then None
  else
    room_id ← required_field decode_uuid "room_id" j;
    hand_id ← required_field decode_uuid "hand_id" j;
    seat_id ← required_field (decode_unsigned 255) "seat_id" j;
    event_name ← required_field decode_string "event_name" j;
    payload ← required_field Some "payload" j;
    Some (mkSeatPrivateEvent room_id hand_id seat_id event_name payload).

Definition from_value {T} (decode : Decoder T) (j : Json) : result string T :=
  ok_or (decode_failure j) (decode j).
Definition derived_events : EventCodec := {|
  hand_event_to_value := hand_event_json;
  hand_event_from_value := from_value decode_hand_event;
  seat_event_from_value := from_value decode_seat_event;
  behavior_kind_to_value kind := Ok (audit_kind_to_value kind);
|}.

(** ** The plan of a settlement *)

Definition payout_to_value (p : SettlementPayout) : result string Json :=
  amount ← u128_to_value (po_amount p);
  Ok (JObj [("seat_id", json_N (po_seat_id p)); ("amount", amount)])%string.
Fixpoint payouts_to_values (l : list SettlementPayout) : result string (list Json) :=
  match l with
  | [] => Ok []
  | p :: l => v ← payout_to_value p; vs ← payouts_to_values l; Ok (v :: vs)
  end.
Definition settlement_plan_to_value (plan : SettlementPlan) : result string Json :=
  rake_amount ← u128_to_value (pn_rake_amount plan);
  payouts ← payouts_to_values (pn_payouts plan);
  Ok (JObj [("room_id", uuid_to_value (pn_room_id plan)); ("hand_id", uuid_to_value (pn_hand_id plan));
            ("rake_amount", rake_amount); ("payouts", JArr payouts)])%string.
Definition derived_plans : Rendering :=
  {| plan_to_value := settlement_plan_to_value; rendering_uuid_text := serde_uuid_text |}.
End Values.

(** The widths of the Rust types. *)
Definition action_typed (a : PlayerAction) : Prop :=
  pa_room_id a ≤ u128_max ∧ pa_hand_id a ≤ u128_max ∧ pa_action_seq a ≤ u32_max ∧
  pa_seat_id a ≤ 255 ∧ default 0 (pa_amount a) ≤ u128_max.
Definition kind_typed (k : HandEventKind) : Prop :=
  match k with
  | TurnStarted seat_id => seat_id ≤ 255
  | ActionAccepted action => action_typed action
  | PotUpdated total => total ≤ u128_max
  | HandStarted | StreetChanged _ | HandClosed => True
  end.
Definition event_typed (e : HandEvent) : Prop :=
  he_room_id e ≤ u128_max ∧ he_hand_id e ≤ u128_max ∧ he_event_seq e ≤ u32_max ∧
  he_trace_id e ≤ u128_max ∧ kind_typed (he_kind e).

(** The amount that an event carries. *)
Definition kind_amount (k : HandEventKind) : N :=
  match k with
  | ActionAccepted action => default 0 (pa_amount action)
  | PotUpdated total => total
  | _ => 0
  end.
Definition event_fits (e : HandEvent) : Prop := kind_amount (he_kind e) ≤ u64_max.

Section Values.
Context `{SL : SerdeLaws}.

Lemma decode_uuid_text u : u ≤ u128_max → decode_uuid (uuid_to_value u) = Some u.
Proof. intros Hu. cbn. by rewrite (uuid_reads u Hu). Qed.
Lemma decode_number mx n : n ≤ mx → decode_unsigned mx (json_N n) = Some n.
Proof.
  intros Hn. unfold decode_unsigned, json_N. rewrite (proj2 (Z.leb_le 0 (Z.of_N n))) by lia.
  rewrite (proj2 (Z.leb_le (Z.of_N n) (Z.of_N mx))) by lia. cbn. by rewrite N2Z.id.
Qed.
Lemma decode_action_text a : decode_action_type (JStr (action_type_text a)) = Some a.
Proof. by destruct a. Qed.
Lemma decode_street_text s : decode_street (JStr (street_name s)) = Some s.
Proof. by destruct s. Qed.

(** An optional amount: its value, and how it is read. *)
Lemma amount_value (o : option N) :
  default 0 o ≤ u64_max → option_to_value u128_to_value o = Ok (json_opt json_N o).
Proof. destruct o as [n|]; [|done]. cbn. apply u128_in_range. Qed.
Lemma amount_read (o : option N) :
  default 0 o ≤ u128_max → decode_option (decode_unsigned u128_max) (json_opt json_N o) = Some o.
Proof.
  destruct o as [n|]; [|done]. intros Hn. unfold decode_option, json_opt.
  unfold json_N at 1. rewrite decode_number by done. done.
Qed.

Lemma action_round_trip a :
  action_typed a → default 0 (pa_amount a) ≤ u64_max →
  ∃ v, player_action_to_value a = Ok v ∧ decode_player_action v = Some a.
Proof.
  intros (Hr & Hh & Hseq & Hseat & Ham) Hfit. unfold player_action_to_value.
  rewrite amount_value by done. eexists. split; [reflexivity|].
  unfold decode_player_action, required_field, option_field.
  cbn [is_object negb json_get assoc_field String.eqb Ascii.eqb Bool.eqb mbind option_bind].
  rewrite !decode_uuid_text by done. cbn [mbind option_bind].
  rewrite !decode_number by done. cbn [mbind option_bind].
  rewrite decode_action_text. cbn [mbind option_bind].
  rewrite amount_read by done. by destruct a.
Qed.

Lemma kind_round_trip k :
  kind_typed k → kind_amount k ≤ u64_max →
  ∃ v, hand_kind_to_value k = Ok v ∧ decode_hand_kind v = Some k.
Proof.
  intros Hty Hfit. destruct k as [|seat|action|street|total|]; cbn [kind_typed kind_amount] in *.
  - by eexists.
  - eexists. split; [reflexivity|]. cbn [decode_hand_kind variant decode_content String.eqb Ascii.eqb
      Bool.eqb is_object]. unfold required_field. cbn [json_get assoc_field String.eqb Ascii.eqb
      Bool.eqb mbind option_bind]. by rewrite decode_number.
  - destruct (action_round_trip action Hty Hfit) as (v & Hv & Hd).
    exists (variant "action_accepted" v). cbn [hand_kind_to_value]. rewrite Hv. split; [done|].
    cbn. by rewrite Hd.
  - eexists. split; [reflexivity|]. by destruct street.
  - exists (variant "pot_updated" (JObj [("pot_total"%string, json_N total)])).
    cbn [hand_kind_to_value]. rewrite u128_in_range by done. split; [done|].
    cbn [decode_hand_kind variant decode_content String.eqb Ascii.eqb Bool.eqb is_object].
    unfold required_field. cbn [json_get assoc_field String.eqb Ascii.eqb Bool.eqb mbind option_bind].
    by rewrite decode_number.
  - by eexists.
Qed.

Lemma large_kind_fails k : u64_max < kind_amount k → ∃ e, hand_kind_to_value k = Err e.
Proof.
  destruct k as [|seat|action|street|total|]; cbn [kind_amount]; try (unfold u64_max; lia).
  - destruct (pa_amount action) as [n|] eqn:Ha; cbn [default]; [|unfold u64_max; lia]. intros Hn.
    destruct (u128_out_of_range n Hn) as [e He]. exists e. cbn. unfold player_action_to_value.
    rewrite Ha. cbn. by rewrite He.
  - intros Hn. destruct (u128_out_of_range total Hn) as [e He]. exists e. cbn. by rewrite He.
Qed.

(** The value of an event, when it has one, is read as the event. *)
Lemma event_round_trip e :
  event_typed e → event_fits e →
  ∃ v, hand_event_json e = Ok v ∧ from_value decode_hand_event v = Ok e.
Proof.
  intros (Hr & Hh & Hseq & Htr & Hk) Hfit.
  destruct (kind_round_trip _ Hk Hfit) as (v & Hv & Hd).
  unfold hand_event_json. rewrite Hv. eexists. split; [reflexivity|].
  unfold from_value, decode_hand_event, required_field.
  cbn [is_object negb json_get assoc_field String.eqb Ascii.eqb Bool.eqb mbind option_bind].
  rewrite !decode_uuid_text by done. cbn [mbind option_bind].
  rewrite decode_number by done. cbn [mbind option_bind].
  rewrite datetime_reads. cbn [mbind option_bind]. rewrite Hd. by destruct e.
Qed.

Lemma large_event_fails e : ¬ event_fits e → ∃ msg, hand_event_json e = Err msg.
Proof.
  intros Hlarge. unfold event_fits in Hlarge.
  destruct (large_kind_fails (he_kind e)) as [msg Hm]; [lia|].
  exists msg. unfold hand_event_json. by rewrite Hm.
Qed.

(** ** Plans *)

Definition plan_fits (plan : SettlementPlan) : Prop :=
  pn_rake_amount plan ≤ u64_max ∧ Forall (λ p, po_amount p ≤ u64_max) (pn_payouts plan).

Lemma large_payouts_fail l :
  ¬ Forall (λ p, po_amount p ≤ u64_max) l → ∃ e, payouts_to_values l = Err e.
Proof.
  induction l as [|p l IH]; intros Hl; [by destruct Hl|]. cbn [payouts_to_values]. unfold payout_to_value.
  destruct (decide (po_amount p ≤ u64_max)) as [Hp|Hp].
  - rewrite u128_in_range by done. destruct IH as [e He]; [by intros H; apply Hl; constructor|].
    exists e. cbn. by rewrite He.
  - destruct (u128_out_of_range (po_amount p)) as [e He]; [lia|]. exists e. by rewrite He.
Qed.

Lemma large_plan_fails plan : ¬ plan_fits plan → ∃ e, settlement_plan_to_value plan = Err e.
Proof.
  intros Hlarge. unfold settlement_plan_to_value.
  destruct (decide (pn_rake_amount plan ≤ u64_max)) as [Hr|Hr].
  - rewrite u128_in_range by done.
    destruct (large_payouts_fail (pn_payouts plan)) as [e He]; [by intros H; apply Hlarge|].
    exists e. cbn. by rewrite He.
  - destruct (u128_out_of_range (pn_rake_amount plan)) as [e He]; [lia|]. exists e. by rewrite He.
Qed.
End Values.

(** ** Concrete scalars

    Identifiers in decimal, times as numbers. *)

Definition plain_u128 (n : N) : result string Json :=
  if n <=? u64_max then Ok (json_N n) else Err "number out of range"%string.
Definition plain_scalars : SerdeScalars := {|
  u128_to_value := plain_u128;
  datetime_to_value := json_N;
  datetime_from_value j := match j with JNum z => Some (Z.to_N z) | _ => None end;
  decode_failure _ := "invalid type"%string;
  serde_uuid_text := {| uuid_text := pretty |};
  serde_parse_uuid := {| parse_uuid := parse_u128_dec |};
|}.
Lemma plain_scalars_laws : SerdeLaws (SS := plain_scalars).
Proof.
  split.
  - intros n Hn. cbn. unfold plain_u128. by rewrite (proj2 (N.leb_le n u64_max)).
  - intros n Hn. cbn. unfold plain_u128. rewrite (proj2 (N.leb_gt n u64_max)) by done. by eexists.
  - intros t. cbn. by rewrite N2Z.id.
  - intros u Hu. cbn. by rewrite parse_pretty.
Qed.
