(* ===== verification/EventDelivery.v ===== *)
(** From a room to the subscribers, over PostgreSQL: what the event sink writes into the
    outbox, with the values that serde derives, is what the publisher reads. The tasks
    that the sink spawns and the publisher interleave ([desk_step]), and the time goes on;
    in every interleaving the events of a batch that the log has accepted arrive on the
    bus once and in their order. A batch that the log refuses, for one large amount or for
    a hand it does not know, is lost whole.

    The server is one without faults; where SQL leaves the order of rows open, it is the
    order of insertion. *)

From stdpp Require Import base tactics option list gmap strings sorting relations pretty.
From Stdlib Require Import NArith Lia ZArith.
From S2P Require Import Prelude.
From S2P Require Import Text.
From S2P Require Import Domain.
From S2P Require Import Ambient.
From S2P Require Import LedgerStore.
From S2P Require Import AuditStore.
From S2P Require Import JsonRpc.
From S2P Require Import TableService.
From S2P Require Import GatewayTypes.
From S2P Require Import GatewayLimits.
From S2P Require Import EventBusProps.
From S2P Require Import RoomHandles.
From S2P Require Import RoomService.
From S2P Require Import OpsHttp.
From S2P Require Import AppSinks.
From S2P Require Import OutboxProps.
From S2P Require Import Postgres.
From S2P Require Import LedgerPostgres.
From S2P Require Import AuditPostgres.
From S2P Require Import AuditPostgresProps.
From S2P Require Import DomainJson.

Local Open Scope N_scope.

(** [serde_json::to_value(&event.kind)] of the statement, and its reading. *)
Definition derived_kinds `{SS : SerdeScalars} : HandKindCodec := {|
  AuditPostgres.hand_kind_to_value := DomainJson.hand_kind_to_value;
  hand_kind_from_value := from_value decode_hand_kind;
|}.

Section Batch.
Context `{SL : SerdeLaws} {FI : FreshIds AuditServer} {CK : Clock AuditServer}.
#[local] Existing Instances derived_kinds derived_events PostgresAuditRepository.

Lemma large_event_stops_the_append events e (s : AuditServer) :
  e ∈ events → u64_max < kind_amount (he_kind e) →
  ∃ s' msg, pg_append_hand_events events s = (s', Err msg) ∧ pg_tables s' = pg_tables s.
Proof.
  intros Hin Hlarge. pose proof (append_cases events s) as Hcases.
  destruct (pg_append_hand_events events s) as [s' [[]|msg]].
  - destruct Hcases as [[_ ?]|(_ & Hall & _)]; [done|]. rewrite Forall_forall in Hall.
    specialize (Hall e Hin). destruct (large_kind_fails _ Hlarge) as [msg Hm].
    cbn [AuditPostgres.hand_kind_to_value derived_kinds] in Hall. rewrite Hm in Hall. by destruct Hall.
  - exists s', msg. split; [done|]. destruct Hcases as [[? _]|(_ & Hall & _)]; [done|].
    rewrite Forall_forall in Hall. specialize (Hall e Hin).
    destruct (large_kind_fails _ Hlarge) as [m Hm].
    cbn [AuditPostgres.hand_kind_to_value derived_kinds] in Hall. rewrite Hm in Hall. by destruct Hall.
Qed.

(** One event with an amount above 64 bits in a batch, and the task that stores the batch
    stores none of its events and announces none of them, although it ends well. *)
Theorem large_event_loses_its_batch events e (s : AuditServer)
    (Hin : e ∈ events) (Hlarge : u64_max < kind_amount (he_kind e)) :
  let '(s', r) := append_hand_events_task events s in
  r = Ok tt ∧ pg_tables s' = pg_tables s.
Proof.
  unfold append_hand_events_task. cbn [AuditStore.append_hand_events PostgresAuditRepository].
  destruct (large_event_stops_the_append events e s Hin Hlarge) as (s' & msg & -> & Ht). done.
Qed.
End Batch.


(** ** Lists *)

Section Lists.
Context {A B : Type}.

Lemma insert_by_map (f : A → B) (le : B → B → bool) x l :
  f <$> insert_by (λ a b, le (f a) (f b)) x l = insert_by le (f x) (f <$> l).
Proof. induction l as [|y l IH]; [done|]. cbn. destruct (le (f x) (f y)); [done|]. cbn. by f_equal. Qed.
Lemma sort_by_key_map (f : A → B) (key : B → N) l :
  f <$> sort_by_key (λ a, key (f a)) l = sort_by_key key (f <$> l).
Proof.
  unfold sort_by_key. induction l as [|x l IH]; [done|]. cbn.
  rewrite (insert_by_map f (λ a b, key a <=? key b)), IH. done.
Qed.
Lemma filter_fmap_test (f : A → B) (p : B → bool) (l : list A) :
  filter (λ b, p b = true) (f <$> l) = f <$> filter (λ a, p (f a) = true) l.
Proof.
  induction l as [|x l IH]; [done|]. rewrite fmap_cons, !filter_cons, IH. by destruct (p (f x)).
Qed.

(** A stable sort keeps the order of what is sorted already. *)
Lemma insert_first (le : A → A → bool) x l :
  Forall (λ y, le x y = true) l → insert_by le x l = x :: l.
Proof. by destruct 1 as [|y l Hy _]; cbn; rewrite ?Hy. Qed.
Lemma filter_insert_by (key : A → N) (P : A → Prop) `{∀ x, Decision (P x)} x l :
  StronglySorted (λ a b, key a ≤ key b) l →
  filter P (insert_by (λ a b, key a <=? key b) x l)
  = if decide (P x) then insert_by (λ a b, key a <=? key b) x (filter P l) else filter P l.
Proof.
  induction 1 as [|y l Hl IH Hy]; [cbn [insert_by]; rewrite filter_cons; by destruct (decide (P x))|]. cbn [insert_by].
  destruct (N.leb_spec (key x) (key y)) as [Hle|Hlt].
  - rewrite filter_cons. destruct (decide (P x)); [|done]. symmetry. apply insert_first.
    apply Forall_forall. intros z [_ Hz]%list_elem_of_filter. apply N.leb_le.
    apply elem_of_cons in Hz as [->|Hz]; [done|]. rewrite Forall_forall in Hy. specialize (Hy z Hz). lia.
  - rewrite !filter_cons, IH. destruct (decide (P x)), (decide (P y)); try done.
    cbn [insert_by]. by rewrite (proj2 (N.leb_gt (key x) (key y))) by done.
Qed.
Lemma filter_sort_by_key (key : A → N) (P : A → Prop) `{∀ x, Decision (P x)} (l : list A) :
  filter P (sort_by_key key l) = sort_by_key key (filter P l).
Proof.
  unfold sort_by_key. induction l as [|x l IH]; [done|]. cbn [sort_by].
  rewrite filter_insert_by by apply sort_by_key_sorted.
  rewrite IH, filter_cons. by destruct (decide (P x)).
Qed.
Lemma sort_by_key_id (key : A → N) l :
  StronglySorted (λ a b, key a ≤ key b) l → sort_by_key key l = l.
Proof.
  unfold sort_by_key. induction 1 as [|x l Hl IH Hx]; [done|]. cbn. rewrite IH. apply insert_first.
  eapply Forall_impl; [exact Hx|]. intros y Hy. by apply N.leb_le.
Qed.

Lemma filter_none (P : A → Prop) `{∀ x, Decision (P x)} (l : list A) :
  Forall (λ x, ¬ P x) l → filter P l = [].
Proof. induction 1 as [|x l Hx _ IH]; [done|]. by rewrite filter_cons_False. Qed.

Lemma filter_ext_in (P Q : A → Prop) `{∀ x, Decision (P x)} `{∀ x, Decision (Q x)} (l : list A) :
  Forall (λ x, P x ↔ Q x) l → filter P l = filter Q l.
Proof.
  induction 1 as [|x l Hx _ IH]; [done|]. rewrite !filter_cons, IH.
  destruct (decide (P x)), (decide (Q x)); tauto.
Qed.
Lemma filter_all (P : A → Prop) `{∀ x, Decision (P x)} (l : list A) :
  Forall P l → filter P l = l.
Proof. induction 1 as [|x l Hx _ IH]; [done|]. by rewrite filter_cons_True, IH. Qed.
Lemma filter_swap (P Q : A → Prop) `{∀ x, Decision (P x)} `{∀ x, Decision (Q x)} (l : list A) :
  filter P (filter Q l) = filter Q (filter P l).
Proof. rewrite !list_filter_filter. apply list_filter_iff. tauto. Qed.

(** What is due of a sorted list comes first. *)
Lemma filter_due_prefix (key : A → N) now l :
  StronglySorted (λ a b, key a ≤ key b) l → filter (λ x, (key x <=? now) = true) l `prefix_of` l.
Proof.
  induction 1 as [|x l Hl IH Hx]; [done|]. rewrite filter_cons. case_decide as Hd; [by apply prefix_cons|].
  rewrite filter_none; [apply prefix_nil|]. eapply Forall_impl; [exact Hx|]. cbn. intros y Hy.
  rewrite N.leb_le in Hd |- *. lia.
Qed.
Lemma filter_prefix (P : A → Prop) `{∀ x, Decision (P x)} (l l' : list A) :
  l `prefix_of` l' → filter P l `prefix_of` filter P l'.
Proof. intros [k ->]. rewrite filter_app. by eexists. Qed.
Lemma sorted_filter (R : A → A → Prop) (P : A → Prop) `{∀ x, Decision (P x)} (l : list A) :
  StronglySorted R l → StronglySorted R (filter P l).
Proof.
  induction 1 as [|x l Hl IH Hx]; [constructor|]. rewrite filter_cons. case_decide; [|done].
  constructor; [done|]. apply Forall_forall. intros y [_ Hy]%list_elem_of_filter.
  rewrite Forall_forall in Hx. by apply Hx.
Qed.
Lemma sorted_snoc (R : A → A → Prop) l x :
  StronglySorted R l → Forall (λ y, R y x) l → StronglySorted R (l ++ [x]).
Proof.
  induction 1 as [|y l Hl IH Hy]; intros Hx; [repeat constructor|].
  apply Forall_cons in Hx as [Hyx Hx]. cbn. constructor; [by apply IH|].
  apply Forall_app. split; [done|]. by repeat constructor.
Qed.
End Lists.

Section Delivery.
Context `{SL : SerdeLaws} {W : Type} {FI : FreshIds W} {CK : Clock W}.
#[local] Existing Instances derived_kinds derived_events PostgresAuditRepository.

(** The database, and the bus with the world around it. *)
Abbreviation Office := (AuditServer * (InMemoryEventBus * W))%type (only parsing).

Definition at_server {E A} (m : M AuditServer E A) : M Office E A :=
  λ '(sv, x), let '(sv, r) := m sv in ((sv, x), r).
Definition at_bus {E A} (m : M (InMemoryEventBus * W) E A) : M Office E A :=
  λ '(sv, x), let '(x, r) := m x in ((sv, x), r).

#[export] Instance pg_office_audit : AuditRepository Office := {|
  insert_action_attempt r := at_server (insert_action_attempt r);
  insert_behavior_event r := at_server (insert_behavior_event r);
  append_hand_events l := at_server (AuditStore.append_hand_events l);
  insert_outbox_event r := at_server (insert_outbox_event r);
  fetch_pending_outbox_events n := at_server (fetch_pending_outbox_events n);
  mark_outbox_event_delivered id t := at_server (mark_outbox_event_delivered id t);
|}.
#[export] Instance pg_office_bus : EventSubscriptionPort Office := {|
  bus_subscribe r := at_bus (bus_subscribe r);
  bus_unsubscribe id := at_bus (bus_unsubscribe id);
  bus_publish ev := at_bus (bus_publish ev);
|}.
#[export] Instance pg_office_time : Clock Office := {| utc_now w := utc_now (snd (snd w)) |}.
#[export] Instance pg_office_ids : FreshIds Office := {|
  fresh_uuid := λ '(sv, (b, w)), let '(w, id) := fresh_uuid w in ((sv, (b, w)), id)
|}.

Definition outbox_rows (o : Office) : list OutboxRow := t_outbox (pg_tables (fst o)).
Definition outbox (o : Office) : list OutboxEventRecord := outbox_of_row <$> outbox_rows o.
Definition sent (o : Office) : list EventEnvelope := mx_value (published_events (fst (snd o))).

(** A server without faults, a bus whose locks are free, and identifiers of 128 bits. *)
Record fine (o : Office) : Prop := {
  fi_faults : pg_faults (fst o) = [];
  fi_bus : bus_unpoisoned (fst (snd o));
  fi_rows : Forall (λ row, ow_outbox_event_id row ≤ u128_max) (outbox_rows o);
}.

(** ** What is written is what is read *)

(** The event as the bus gets it, when it has a value. *)
Definition event_envelope (e : HandEvent) : option EventEnvelope :=
  match hand_event_json e with
  | Ok v => Some (mkEvent HandEvents (he_room_id e) (Some (he_hand_id e))
                    (hand_event_seat_id (he_kind e)) (hand_event_name (he_kind e)) v)
  | Err _ => None
  end.

Lemma has_envelope e : event_typed e → is_Some (event_envelope e) ↔ event_fits e.
Proof.
  intros Hty. unfold event_envelope. split.
  - intros [ev Hev]. destruct (decide (kind_amount (he_kind e) ≤ u64_max)) as [|Hlarge]; [done|].
    destruct (large_event_fails e Hlarge) as [msg Hm]. by rewrite Hm in Hev.
  - intros Hfit. destruct (event_round_trip e Hty Hfit) as (v & Hv & _). rewrite Hv. by eexists.
Qed.

(** What a room gives to its event sink. *)
Inductive SinkOutput := OfHand (e : HandEvent) | OfSeat (e : SeatPrivateEvent).
Definition announced (o : SinkOutput) : option EventEnvelope :=
  match o with
  | OfHand e => event_envelope e
  | OfSeat e => Some (mkEvent SeatEvents (sp_room_id e) (Some (sp_hand_id e)) (Some (sp_seat_id e))
                        (sp_event_name e) (sp_payload e))
  end.
(** The widths of the Rust types. *)
Definition output_typed (o : SinkOutput) : Prop :=
  match o with
  | OfHand e => event_typed e
  | OfSeat e => sp_room_id e ≤ u128_max ∧ sp_hand_id e ≤ u128_max ∧ sp_seat_id e ≤ 255
  end.

Lemma written_record e v (r : OutboxEventRecord) :
  event_typed e → hand_event_json e = Ok v →
  ob_topic r = "hand.events"%string → ob_payload_json r = v → event_of r = event_envelope e.
Proof.
  intros Hty Hv Htopic Hpay. unfold event_of, classify, to_event_envelope, event_envelope.
  rewrite Htopic, Hpay, Hv. cbn [String.eqb Ascii.eqb Bool.eqb hand_event_from_value derived_events].
  destruct (decide (kind_amount (he_kind e) ≤ u64_max)) as [Hfit|Hlarge].
  - destruct (event_round_trip e Hty Hfit) as (v' & Hv' & Hread). rewrite Hv in Hv'.
    injection Hv' as <-. by rewrite Hread.
  - destruct (large_event_fails e Hlarge) as [msg Hm]. congruence.
Qed.
Lemma seat_event_read e :
  output_typed (OfSeat e) → decode_seat_event (seat_event_json e) = Some e.
Proof.
  intros (Hr & Hh & Hs). unfold decode_seat_event, seat_event_json, required_field.
  cbn [is_object negb json_get assoc_field String.eqb Ascii.eqb Bool.eqb mbind option_bind].
  fold (uuid_to_value (sp_room_id e)) (uuid_to_value (sp_hand_id e)).
  rewrite !decode_uuid_text by done. cbn [mbind option_bind].
  rewrite decode_number by done. by destruct e.
Qed.
Lemma written_seat_record e (r : OutboxEventRecord) :
  output_typed (OfSeat e) → ob_topic r = "seat.events"%string → ob_payload_json r = seat_event_json e →
  event_of r = announced (OfSeat e).
Proof.
  intros (Hr & Hh & Hs) Htopic Hpay. unfold event_of, classify, to_event_envelope.
  rewrite Htopic, Hpay. cbn [String.eqb Ascii.eqb Bool.eqb seat_event_from_value derived_events].
  unfold from_value. by rewrite seat_event_read.
Qed.


(** ** The steps of sink and publisher

    The sink spawns a task for each batch of outputs. It appends the events of a hand to
    the log first, and on success makes one record after the other: it draws the record's
    time and identifier, and then inserts it. The publisher is a task of its own, which
    lists pending records and then publishes and marks one after the other. Their steps
    interleave, and the world moves on beside. *)

Inductive Publishing :=
| Idle
| Holding (records : list OutboxEventRecord)
| Marking (record : OutboxEventRecord) (records : list OutboxEventRecord).

(** One step of [publish_pending_outbox_once], which every error ends. *)
Definition publisher_step (limit : nat) (o : Office) (p : Publishing) : Office * Publishing :=
  match p with
  | Idle =>
      let '(o, r) := fetch_pending_outbox_events limit o in
      (o, match r with Ok records => Holding records | Err _ => Idle end)
  | Holding [] => (o, Idle)
  | Holding (record :: records) =>
      match to_event_envelope (ob_topic record) (ob_payload_json record) with
      | Err _ => (o, Idle)
      | Ok None => (o, Holding records)
      | Ok (Some envelope) =>
          let '(o, r) := bus_publish envelope o in
          (o, match r with Ok _ => Marking record records | Err _ => Idle end)
      end
  | Marking record records =>
      let '(o, r) := mark_outbox_event_delivered (ob_outbox_event_id record) (utc_now o) o in
      (o, match r with Ok _ => Holding records | Err _ => Idle end)
  end.


(** The record of an output. *)
Definition draw_record (o : SinkOutput) : M Office Empty_set (option OutboxEventRecord) :=
  match o with
  | OfHand event =>
      match hand_event_to_value event with
      | Err _ => mret None
      | Ok payload_json =>
          record ← pending_outbox_event "hand.events" (uuid_text (he_room_id event)) payload_json;
          mret (Some record)
      end
  | OfSeat event =>
      record ← pending_outbox_event "seat.events"
                 (uuid_text (sp_room_id event) +:+ ":" +:+ pretty (sp_seat_id event))
                 (seat_event_json event);
      mret (Some record)
  end.
Definition announce (o : SinkOutput) : M Office Empty_set unit :=
  match o with OfHand e => outbox_hand_event e | OfSeat e => outbox_seat_event e end.

(** A task: the batch it was given and the hands that the database had then, what it has
    to announce, how much of that is inserted, and the record drawn for the next. *)
Record SinkTask := mkSinkTask {
  st_given : list SinkOutput;
  st_hands : gset HandId;
  st_batch : list SinkOutput;
  st_done : nat;
  st_held : option OutboxEventRecord;
}.
Definition task_drawn (x : option OutboxEventRecord) (t : SinkTask) : SinkTask :=
  mkSinkTask (st_given t) (st_hands t) (st_batch t)
    (match x with Some _ => st_done t | None => S (st_done t) end) x.
Definition task_inserted (t : SinkTask) : SinkTask :=
  mkSinkTask (st_given t) (st_hands t) (st_batch t) (S (st_done t)) None.

(** The office, the tasks, the publisher, and the records inserted so far with the tasks
    they are of. *)
Record Desk := mkDesk {
  dk_office : Office;
  dk_tasks : list SinkTask;
  dk_publisher : Publishing;
  dk_written : list (nat * OutboxEventRecord);
}.

Inductive desk_step (limit : nat) : Desk → Desk → Prop :=
(** A task has come to the end of its append, the commit included. *)
| StepSpawn events o o' r tasks p written :
    Forall event_typed events → AuditStore.append_hand_events events o = (o', r) →
    desk_step limit (mkDesk o tasks p written)
      (mkDesk o' (tasks ++ [mkSinkTask (OfHand <$> events) (dom (sh_hands (pg_shared (fst o))))
                              (if is_ok r then OfHand <$> events else []) 0 None]) p written)
| StepSpawnPrivate events o tasks p written :
    Forall (λ e, output_typed (OfSeat e)) events →
    desk_step limit (mkDesk o tasks p written)
      (mkDesk o (tasks ++ [mkSinkTask (OfSeat <$> events) (dom (sh_hands (pg_shared (fst o))))
                             (OfSeat <$> events) 0 None]) p written)
(** The identifier drawn has 128 bits, and the application's clock does not go back. *)
| StepDraw i t output x o o' tasks p written :
    tasks !! i = Some t → st_held t = None → st_batch t !! st_done t = Some output →
    draw_record output o = (o', Ok x) →
    snd (fresh_uuid o) ≤ u128_max → utc_now o ≤ utc_now o' →
    desk_step limit (mkDesk o tasks p written)
      (mkDesk o' (<[i := task_drawn x t]> tasks) p written)
(** The identifier drawn is new in the outbox. *)
| StepInsert i t record o o' r tasks p written :
    tasks !! i = Some t → st_held t = Some record → insert_outbox_event record o = (o', r) →
    id_of record ∉ id_of <$> outbox o →
    desk_step limit (mkDesk o tasks p written)
      (mkDesk o' (<[i := task_inserted t]> tasks) p (written ++ [(i, record)]))
| StepPublish o o' tasks p p' written :
    publisher_step limit o p = (o', p') →
    desk_step limit (mkDesk o tasks p written) (mkDesk o' tasks p' written)
(** Time goes on, and other parts of the server write their tables. *)
| StepWorld o now sh w tasks p written :
    utc_now o ≤ utc_now w →
    desk_step limit (mkDesk o tasks p written)
      (mkDesk (mkServer (pg_faults (fst o)) now sh (pg_tables (fst o)), (fst (snd o), w))
         tasks p written).

(** *** The steps are those of the code *)

Lemma announce_draws output (o : Office) :
  announce output o
  = (x ← draw_record output;
     match x with Some record => ignore_error (insert_outbox_event record) | None => mret tt end) o.
Proof.
  destruct output as [e|e]; cbn [announce draw_record].
  - unfold outbox_hand_event. destruct (hand_event_to_value e) as [v|msg]; [|done].
    unfold mbind, M_mbind, M_bind. by destruct (pending_outbox_event _ _ _ o) as [o1 [r|[]]].
  - unfold outbox_seat_event, mbind, M_mbind, M_bind.
    by destruct (pending_outbox_event _ _ _ o) as [o1 [r|[]]].
Qed.

Lemma publish_records_steps limit records : ∀ n (o : Office),
  ∃ k, Nat.iter k (λ '(o, p), publisher_step limit o p) (o, Holding records)
       = (fst (publish_records n records o), Idle).
Proof.
  induction records as [|record records IH]; intros n o; [by exists 1%nat|].
  cbn [publish_records]. unfold mbind, M_mbind, M_bind, publish_record, lift_result.
  destruct (to_event_envelope (ob_topic record) (ob_payload_json record)) as [[envelope|]|e] eqn:He.
  - unfold mbind, M_mbind, M_bind, M_map_err, audit_result, now.
    destruct (bus_publish envelope o) as [o1 [m|e]] eqn:Hp.
    + destruct (mark_outbox_event_delivered (ob_outbox_event_id record) (utc_now o1) o1)
        as [o2 [[]|e]] eqn:Hm.
      * destruct (IH (S n) o2) as [k Hk]. exists (k + 2)%nat.
        rewrite Nat.iter_add. cbn [Nat.iter nat_rect publisher_step]. rewrite He, Hp. cbn [publisher_step].
        rewrite Hm. rewrite Hk. unfold M_map_err. by rewrite Hm.
      * exists 2%nat. cbn [Nat.iter nat_rect publisher_step]. rewrite He, Hp. cbn [publisher_step].
        rewrite Hm. unfold M_map_err. by rewrite Hm.
    + exists 1%nat. cbn [Nat.iter nat_rect publisher_step]. by rewrite He, Hp.
  - destruct (IH n o) as [k Hk]. exists (k + 1)%nat.
    rewrite Nat.iter_add. cbn [Nat.iter nat_rect publisher_step]. by rewrite He, Hk.
  - exists 1%nat. cbn [Nat.iter nat_rect publisher_step]. by rewrite He.
Qed.

(** A tick of the publisher is a number of its steps that nobody interrupts. *)
Lemma tick_is_a_run limit (o : Office) :
  ∃ k, Nat.iter k (λ '(o, p), publisher_step limit o p) (o, Idle) = (fst (outbox_tick limit o), Idle).
Proof.
  unfold outbox_tick, ignore_error, publish_pending_outbox_once, mbind, M_mbind, M_bind, audit_result,
    M_map_err. cbn [fst].
  destruct (fetch_pending_outbox_events limit o) as [o1 [records|e]] eqn:Hf.
  - destruct (publish_records_steps limit records 0 o1) as [k Hk]. exists (k + 1)%nat.
    rewrite Nat.iter_add. cbn [Nat.iter nat_rect publisher_step]. by rewrite Hf, Hk.
  - exists 1%nat. cbn [Nat.iter nat_rect publisher_step]. by rewrite Hf.
Qed.



(** ** What the operations do to the office *)

(** A record as the sink makes it, before it is delivered. *)
Record record_ok (r : OutboxEventRecord) : Prop := {
  ro_id : ∃ u, u ≤ u128_max ∧ id_of r = uuid_text u;
  ro_status : ob_status r = "pending"%string;
  ro_attempts : ob_attempts r = 0;
  ro_available : ob_available_at r = ob_created_at r;
  ro_delivered : ob_delivered_at r = None;
  ro_event : is_Some (event_of r);
}.

Lemma pending_record topic key payload (o : Office) :
  snd (fresh_uuid o) ≤ u128_max →
  ∃ w' r, pending_outbox_event topic key payload o = ((fst o, (fst (snd o), w')), Ok r) ∧
    (∃ u, u ≤ u128_max ∧ id_of r = uuid_text u) ∧ ob_status r = "pending"%string ∧
    ob_attempts r = 0 ∧ ob_available_at r = utc_now o ∧ ob_created_at r = utc_now o ∧
    ob_delivered_at r = None ∧ ob_topic r = topic ∧ ob_payload_json r = payload.
Proof.
  destruct o as [sv [b w]]. unfold pending_outbox_event, now, new_uuid. mrun. cbn.
  destruct (fresh_uuid w) as [w1 id]. cbn. intros Hid. eexists _, _. split; [reflexivity|].
  split; [by exists id|]. by repeat split.
Qed.

Lemma draw_run output (o : Office) :
  output_typed output → is_Some (announced output) → snd (fresh_uuid o) ≤ u128_max →
  ∃ w' r, draw_record output o = ((fst o, (fst (snd o), w')), Ok (Some r)) ∧
    record_ok r ∧ event_of r = announced output ∧ ob_created_at r = utc_now o.
Proof.
  intros Hty Hsome Hid. destruct output as [e|e]; cbn [draw_record].
  - cbn [hand_event_to_value derived_events announced] in *. unfold event_envelope in Hsome.
    destruct (hand_event_json e) as [v|msg] eqn:Hv; [|by destruct Hsome].
    destruct (pending_record "hand.events" (uuid_text (he_room_id e)) v o Hid)
      as (w' & r & Hrun & Hu & Hst & Hat & Hav & Hcr & Hde & Ht & Hpay).
    exists w', r. unfold mbind, M_mbind, M_bind. rewrite Hrun. split; [done|].
    pose proof (written_record e v r Hty Hv Ht Hpay) as Hev. split; [|by split].
    split; try done; [congruence|]. rewrite Hev. unfold event_envelope. by rewrite Hv.
  - destruct (pending_record "seat.events"
                (uuid_text (sp_room_id e) +:+ ":" +:+ pretty (sp_seat_id e)) (seat_event_json e) o Hid)
      as (w' & r & Hrun & Hu & Hst & Hat & Hav & Hcr & Hde & Ht & Hpay).
    exists w', r. unfold mbind, M_mbind, M_bind. rewrite Hrun. split; [done|].
    pose proof (written_seat_record e r Hty Ht Hpay) as Hev. split; [|by split].
    split; try done; first [congruence|by rewrite Hev].
Qed.

Lemma uuid_text_inj u u' : u ≤ u128_max → u' ≤ u128_max → uuid_text u = uuid_text u' → u = u'.
Proof. intros Hu Hu' Heq. pose proof (uuid_reads u Hu) as H. rewrite Heq, uuid_reads in H by done. congruence. Qed.

Lemma upsert_new row rows :
  ow_outbox_event_id row ∉ ow_outbox_event_id <$> rows → upsert_outbox row rows = rows ++ [row].
Proof.
  induction rows as [|old rows IH]; [done|]. rewrite fmap_cons, not_elem_of_cons. intros [Hne Hn].
  cbn. rewrite (proj2 (N.eqb_neq _ _)) by done. by rewrite IH.
Qed.

Lemma insert_run r (o o' : Office) res :
  fine o → record_ok r → id_of r ∉ id_of <$> outbox o → insert_outbox_event r o = (o', res) →
  fine o' ∧ outbox o' = outbox o ++ [r] ∧ snd o' = snd o ∧ pg_now (fst o') = pg_now (fst o).
Proof.
  intros [Hf Hb Hr] [(u & Hu & Hid) Hst Hat Hav Hde _] Hnew. destruct o as [sv x].
  cbn [insert_outbox_event pg_office_audit at_server PostgresAuditRepository].
  unfold pg_insert_outbox_event, parse_uuid_field. mrun. fold (id_of r). rewrite Hid, uuid_reads by done.
  cbn [result_map_err]. unfold audit_sql, M_map_err. cbn [fst] in Hf. rewrite execute_run by done.
  assert (u ∉ ow_outbox_event_id <$> t_outbox (pg_tables sv)) as Hfresh.
  { intros Hin. apply Hnew. rewrite Hid. apply list_elem_of_fmap in Hin as (row & -> & Hrow).
    unfold outbox, outbox_rows. rewrite <- list_fmap_compose. apply list_elem_of_fmap. by exists row. }
  rewrite upsert_new by done. cbn [result_map_err]. intros [= <- _]. split; [|split; [|done]].
  - split; [done|done|]. apply Forall_app. split; [done|]. by repeat constructor.
  - unfold outbox, outbox_rows. cbn. rewrite fmap_app. f_equal. cbn. f_equal.
    clear - Hid Hat. destruct r. unfold id_of in Hid. cbn in Hid, Hat. by subst.
Qed.

Lemma fetch_pending_run limit (o : Office) :
  fine o →
  fetch_pending_outbox_events limit o
  = (o, Ok (take (sql_count limit) (sort_by_key ob_created_at
       (filter (λ r, (ob_available_at r <=? pg_now (fst o)) = true) (pending_of (outbox o)))))).
Proof.
  intros [Hf Hb _]. destruct o as [sv x]. cbn [fetch_pending_outbox_events pg_office_audit at_server
    PostgresAuditRepository]. unfold pg_fetch_pending, audit_sql, M_map_err. mrun. cbn [fst] in Hf.
  rewrite fetch_run by done. cbn [result_map_err]. do 2 f_equal.
  unfold outbox, outbox_rows, pending_of. cbn [fst].
  change (map outbox_of_row) with (fmap (M := list) outbox_of_row).
  rewrite filter_fmap_test, filter_fmap_test, <- sort_by_key_map, fmap_take. do 3 f_equal.
  rewrite list_filter_filter. apply list_filter_iff. intros row. unfold is_due, is_pending. cbn.
  by rewrite andb_true_iff, (and_comm _ (_ = true)).
Qed.

Lemma publish_run ev (o : Office) :
  fine o →
  ∃ b n, bus_publish ev o = ((fst o, (b, snd (snd o))), Ok n) ∧ fine (fst o, (b, snd (snd o))) ∧
    sent (fst o, (b, snd (snd o))) = sent o ++ [ev].
Proof.
  intros [Hf Hb Hr]. destruct o as [sv [b w]]. cbn in *.
  destruct (publish_eq ev b w Hb) as (b' & n & Heq & Hb' & _ & Hp & _). rewrite Heq.
  exists b', n. split; [done|]. split; [|done]. by split.
Qed.

Lemma pending_cons r l :
  pending_of (r :: l) = if is_pending r then r :: pending_of l else pending_of l.
Proof. unfold pending_of. rewrite filter_cons. by destruct (is_pending r). Qed.

Lemma mark_run r t (o : Office) :
  fine o → record_ok r →
  ∃ sv, mark_outbox_event_delivered (id_of r) t o = ((sv, snd o), Ok tt) ∧ fine (sv, snd o) ∧
    pg_now sv = pg_now (fst o) ∧ id_of <$> outbox (sv, snd o) = id_of <$> outbox o ∧
    pending_of (outbox (sv, snd o)) = filter (λ r', id_of r' ≠ id_of r) (pending_of (outbox o)).
Proof.
  intros [Hf Hb Hr] [(u & Hu & Hid) _ _ _ _ _]. destruct o as [sv x].
  cbn [mark_outbox_event_delivered pg_office_audit at_server PostgresAuditRepository].
  unfold pg_mark_delivered, parse_uuid_field. mrun. rewrite Hid, uuid_reads by done.
  cbn [result_map_err]. unfold audit_sql, M_map_err. cbn [fst] in Hf. rewrite execute_run by done.
  cbn [result_map_err]. eexists. split; [reflexivity|].
  unfold outbox, outbox_rows. unfold outbox_rows in Hr. cbn [fst] in Hr.
  assert (∀ row, ow_outbox_event_id (mark_row_delivered u t row) = ow_outbox_event_id row) as Hkeep.
  { intros row. unfold mark_row_delivered. by destruct (_ =? u). }
  split; [split; [done|done|]|split; [done|]].
  { unfold outbox_rows. cbn. apply Forall_map. eapply Forall_impl; [exact Hr|]. intros row Hrow.
    by rewrite Hkeep. }
  cbn. clear Hf. induction Hr as [|row rows Hrow _ [IH1 IH2]]; [done|]. cbn [map]. rewrite !fmap_cons.
  split.
  - rewrite IH1. f_equal. unfold id_of, outbox_of_row. cbn. by rewrite Hkeep.
  - unfold pending_of at 1 in IH2. fold (pending_of (outbox_of_row <$> map (mark_row_delivered u t) rows)) in IH2.
    rewrite !pending_cons, IH2.
    destruct (N.eqb_spec (ow_outbox_event_id row) u) as [Heq|Hne].
    + assert (is_pending (outbox_of_row (mark_row_delivered u t row)) = false) as ->.
      { unfold mark_row_delivered. by rewrite (proj2 (N.eqb_eq _ _) Heq). }
      destruct (is_pending (outbox_of_row row)); [|done].
      rewrite filter_cons_False; [done|]. intros Hn. apply Hn. by rewrite <- Heq.
    + assert (mark_row_delivered u t row = row) as ->.
      { unfold mark_row_delivered. by rewrite (proj2 (N.eqb_neq _ _) Hne). }
      destruct (is_pending (outbox_of_row row)); [|done]. rewrite filter_cons_True; [done|].
      intros Heq. apply Hne. by apply uuid_text_inj.
Qed.
(** An append to a server without faults fails for an event of the batch. *)
Lemma body_fails events : ∀ (s s' : AuditServer) msg,
  pg_faults s = [] → Forall event_typed events → M_iter append_event events s = (s', Err msg) →
  ∃ e, e ∈ events ∧
    (u64_max < kind_amount (he_kind e) ∨ he_hand_id e ∉ dom (sh_hands (pg_shared s))).
Proof.
  induction events as [|e events IH]; intros s s' msg Hf Hty; [done|].
  apply Forall_cons in Hty as [(_ & _ & _ & _ & Hk) Hty]. cbn [M_iter]. unfold mbind at 1, M_mbind, M_bind.
  unfold append_event at 1, mbind at 1, M_mbind, M_bind, lift_result.
  cbn [AuditPostgres.hand_kind_to_value derived_kinds].
  destruct (hand_kind_to_value (he_kind e)) as [v|m] eqn:Hv; cbn [result_map_err].
  - unfold audit_sql, M_map_err. rewrite execute_run by done. unfold insert_hand_event_row.
    destruct (existsb _ _); cbn [result_map_err].
    + intros Hrun. destruct (IH (set_tables (pg_tables s) s) s' msg Hf Hty Hrun) as (e' & He' & Hwhy).
      exists e'. split; [by right|done].
    + mrun. unfold references, require. case_bool_decide as Hin; cbn [result_map_err].
      * intros Hrun. apply IH in Hrun as (e' & He' & Hwhy); [|done|done].
        exists e'. split; [by right|done].
      * intros _. exists e. split; [by left|]. right. by rewrite elem_of_dom.
  - intros _. exists e. split; [by left|]. left.
    destruct (decide (kind_amount (he_kind e) ≤ u64_max)) as [Hfit|]; [|lia].
    destruct (kind_round_trip _ Hk Hfit) as (v & Hv' & _). congruence.
Qed.

Lemma append_run events (o o' : Office) r :
  fine o → Forall event_typed events → AuditStore.append_hand_events events o = (o', r) →
  fine o' ∧ outbox o' = outbox o ∧ snd o' = snd o ∧
  match r with
  | Ok _ => Forall event_fits events
  | Err _ => ∃ e, e ∈ events ∧
      (u64_max < kind_amount (he_kind e) ∨ he_hand_id e ∉ dom (sh_hands (pg_shared (fst o))))
  end.
Proof.
  intros [Hf Hb Hr] Hty. destruct o as [s x].
  cbn [AuditStore.append_hand_events pg_office_audit at_server PostgresAuditRepository].
  destruct (pg_append_hand_events events s) as [s' r'] eqn:Hrun. intros [= <- <-]. cbn in Hf.
  assert (∀ s1 r1, M_iter append_event events s = (s1, r1) → pg_faults s1 = []) as Hfaults.
  { intros s1 r1 H1. pose proof (append_events_consumes events _ _ _ H1) as Hsuf. rewrite Hf in Hsuf.
    by apply suffix_nil_inv in Hsuf. }
  pose proof (append_cases events s) as Hcases. rewrite Hrun in Hcases.
  unfold pg_append_hand_events in Hrun. rewrite in_transaction_run in Hrun by done.
  assert (t_outbox (pg_tables s') = t_outbox (pg_tables s)) as Hout.
  { destruct Hcases as [[-> _]|((rows & _ & ->) & _)]; done. }
  assert (pg_faults s' = []) as Hf'.
  { destruct (M_iter append_event events s) as [s1 [[]|e]] eqn:Hbody; injection Hrun as <- _;
      by apply (Hfaults _ _ eq_refl). }
  split; [split; [done|done|]; unfold outbox_rows in *; cbn in *; by rewrite Hout|].
  split; [unfold outbox, outbox_rows; cbn; by rewrite Hout|]. split; [done|].
  destruct (M_iter append_event events s) as [s1 [[]|e]] eqn:Hbody; injection Hrun as <- <-.
  - apply append_events_ok in Hbody as [_ Hall]. eapply Forall_impl; [exact Hall|]. cbn. intros e He.
    destruct (decide (event_fits e)) as [|Hlarge]; [done|]. unfold event_fits in Hlarge.
    destruct (large_kind_fails (he_kind e)) as [m Hm]; [lia|].
    rewrite Hm in He. by destruct He.
  - by eapply body_fails.
Qed.
(** ** What the steps keep *)

Abbreviation Written := (nat * OutboxEventRecord)%type (only parsing).
Definition key (x : Written) : string := id_of (snd x).
Definition of_task {A} (i : nat) (l : list (nat * A)) : list A :=
  snd <$> filter (λ x, fst x = i) l.

(** What has become of a batch: it is announced whole, and then every amount fits, or the
    log has refused it for an event that is too large or of a hand that is not there. *)
Definition batch_outcome (t : SinkTask) : Prop :=
  (st_batch t = st_given t ∧ ∀ e, OfHand e ∈ st_given t → kind_amount (he_kind e) ≤ u64_max) ∨
  (st_batch t = [] ∧ ∃ e, OfHand e ∈ st_given t ∧
     (u64_max < kind_amount (he_kind e) ∨ he_hand_id e ∉ st_hands t)).

Definition by_time (a b : OutboxEventRecord) : Prop := ob_created_at a ≤ ob_created_at b.

(** A task, its records and the time. *)
Record task_fine (clock : DateTime) (records : list OutboxEventRecord) (t : SinkTask) : Prop := {
  tk_sorted : StronglySorted by_time records;
  tk_past : Forall (λ r, ob_created_at r ≤ clock) records;
  tk_events : event_of <$> records = announced <$> take (st_done t) (st_batch t);
  tk_typed : Forall output_typed (st_batch t);
  tk_valued : Forall (λ o, is_Some (announced o)) (st_batch t);
  tk_held : ∀ r, st_held t = Some r → record_ok r ∧
    (∃ output, st_batch t !! st_done t = Some output ∧ event_of r = announced output) ∧
    Forall (λ r', by_time r' r) records ∧ ob_created_at r ≤ clock;
  tk_outcome : batch_outcome t;
}.

(** [done] has been marked, [marking] been sent, and [listed] is still in hand. *)
Record desk_inv (sent0 : list EventEnvelope) (s : Desk) (delivered marking listed : list Written)
    : Prop := {
  di_fine : fine (dk_office s);
  di_keys : NoDup (key <$> dk_written s);
  di_known : ∀ x, x ∈ dk_written s → key x ∈ id_of <$> outbox (dk_office s);
  di_publisher : match dk_publisher s with
                 | Idle => marking = [] ∧ listed = []
                 | Holding l => marking = [] ∧ snd <$> listed = l
                 | Marking r l => snd <$> marking = [r] ∧ snd <$> listed = l
                 end;
  di_pending : pending_of (outbox (dk_office s))
               = snd <$> filter (λ x, key x ∉ key <$> delivered) (dk_written s);
  di_from : delivered ++ marking ++ listed ⊆ dk_written s;
  di_order : ∀ i, filter (λ x, fst x = i) (delivered ++ marking ++ listed)
                  `prefix_of` filter (λ x, fst x = i) (dk_written s);
  di_sent : sent (dk_office s) = sent0 ++ omap event_of (snd <$> delivered ++ marking);
  di_records : Forall (λ x, record_ok (snd x)) (dk_written s);
  di_tasks : ∀ i t, dk_tasks s !! i = Some t →
    task_fine (utc_now (dk_office s)) (of_task i (dk_written s)) t;
  di_index : Forall (λ x, (fst x < length (dk_tasks s))%nat) (dk_written s);
}.

Lemma task_fine_later clock clock' records t :
  clock ≤ clock' → task_fine clock records t → task_fine clock' records t.
Proof.
  intros Hle [H1 H2 H3 H4 H5 H6 H7]. split; try done.
  - eapply Forall_impl; [exact H2|]. cbn. lia.
  - intros r Hr. destruct (H6 r Hr) as (? & ? & ? & ?). repeat (split; [done|]). lia.
Qed.

(** A desk whose outbox, bus and tasks have not moved. *)
Lemma inv_beside sent0 (o o' : Office) tasks p written g m l :
  fine o' → outbox o' = outbox o → sent o' = sent o → utc_now o ≤ utc_now o' →
  desk_inv sent0 (mkDesk o tasks p written) g m l → desk_inv sent0 (mkDesk o' tasks p written) g m l.
Proof.
  intros Hf Ho Hs Hc []. split; cbn [dk_office dk_tasks dk_publisher dk_written] in *;
    rewrite ?Ho, ?Hs; try done.
  intros i t Hi. eapply task_fine_later; [exact Hc|]. by apply di_tasks0.
Qed.

Lemma of_task_above {A} i (l : list (nat * A)) n :
  Forall (λ x, (fst x < n)%nat) l → (n ≤ i)%nat → of_task i l = [].
Proof.
  intros Hl Hi. unfold of_task. rewrite filter_none; [done|]. eapply Forall_impl; [exact Hl|].
  intros x Hx Heq. cbn in Hx, Heq. lia.
Qed.

Lemma inv_spawn sent0 o tasks p written g m l t :
  st_done t = 0%nat → st_held t = None → Forall output_typed (st_batch t) →
  Forall (λ o, is_Some (announced o)) (st_batch t) → batch_outcome t →
  desk_inv sent0 (mkDesk o tasks p written) g m l →
  desk_inv sent0 (mkDesk o (tasks ++ [t]) p written) g m l.
Proof.
  intros Hd Hh Hty Hv Hout []. split; cbn [dk_office dk_tasks dk_publisher dk_written] in *; try done.
  - intros i t' [[_ Hi]|[-> <-]]%lookup_snoc_Some; [by apply di_tasks0|].
    rewrite (of_task_above _ _ (length tasks)) by done. split; [constructor|constructor| |done|done| |done].
    + by rewrite Hd.
    + by rewrite Hh.
  - eapply Forall_impl; [exact di_index0|]. intros x Hx. rewrite length_app. cbn in *. lia.
Qed.

(** One task has moved, the records have not. *)
Lemma inv_task sent0 o o' tasks p written g m l i t :
  fine o' → outbox o' = outbox o → sent o' = sent o → utc_now o ≤ utc_now o' →
  task_fine (utc_now o') (of_task i written) t →
  desk_inv sent0 (mkDesk o tasks p written) g m l →
  desk_inv sent0 (mkDesk o' (<[i := t]> tasks) p written) g m l.
Proof.
  intros Hf Ho Hs Hc Ht Hinv. apply (inv_beside _ o o') in Hinv; [|done..].
  destruct Hinv. split; cbn [dk_office dk_tasks dk_publisher dk_written] in *; try done.
  - intros j t' [(-> & -> & _)|(_ & Hj)]%list_lookup_insert_Some; [done|by apply di_tasks0].
  - by rewrite length_insert.
Qed.

Lemma inv_draw sent0 i t output x o o' tasks p written g m l :
  tasks !! i = Some t → st_held t = None → st_batch t !! st_done t = Some output →
  draw_record output o = (o', Ok x) → snd (fresh_uuid o) ≤ u128_max → utc_now o ≤ utc_now o' →
  desk_inv sent0 (mkDesk o tasks p written) g m l →
  desk_inv sent0 (mkDesk o' (<[i := task_drawn x t]> tasks) p written) g m l.
Proof.
  intros Hi Hh Hout Hrun Hid Hc Hinv. pose proof (di_tasks _ _ _ _ _ Hinv i t Hi) as [H1 H2 H3 H4 H5 _ H7].
  cbn [dk_office dk_written] in *. rewrite Forall_lookup in H4, H5.
  destruct (draw_run output o (H4 _ _ Hout) (H5 _ _ Hout) Hid) as (w' & r & Hrun' & Hok & Hev & Hcr).
  rewrite Hrun in Hrun'. injection Hrun' as -> ->.
  destruct (di_fine _ _ _ _ _ Hinv) as [Hf Hb Hrows]. cbn [dk_office] in *.
  apply (inv_task _ o); [by split|done|done|exact Hc| |exact Hinv].
  split; try done.
  - eapply Forall_impl; [exact H2|]. intros r' Hr'. exact (N.le_trans _ _ _ Hr' Hc).
  - by apply Forall_lookup.
  - by apply Forall_lookup.
  - intros r' [= <-]. split; [done|]. split; [by exists output|]. unfold by_time. rewrite Hcr. by split.
Qed.

Lemma take_S_lookup {A} (l : list A) n x : l !! n = Some x → take (S n) l = take n l ++ [x].
Proof. apply take_S_r. Qed.

Lemma of_task_snoc {A} i j (x : A) l :
  of_task i (l ++ [(j, x)]) = of_task i l ++ (if decide (j = i) then [x] else []).
Proof.
  unfold of_task. rewrite filter_app, fmap_app. f_equal. rewrite filter_cons. cbn.
  by destruct (decide (j = i)).
Qed.

Lemma inv_insert sent0 i t record o o' r tasks p written g m l :
  tasks !! i = Some t → st_held t = Some record → insert_outbox_event record o = (o', r) →
  id_of record ∉ id_of <$> outbox o →
  desk_inv sent0 (mkDesk o tasks p written) g m l →
  desk_inv sent0 (mkDesk o' (<[i := task_inserted t]> tasks) p (written ++ [(i, record)])) g m l.
Proof.
  intros Hi Hh Hrun Hnew Hinv. pose proof (di_tasks _ _ _ _ _ Hinv i t Hi) as [H1 H2 H3 H4 H5 H6 H7].
  destruct (H6 record Hh) as (Hok & (output & Hout & Hev) & Hafter & Hpast).
  destruct Hinv as [Hf Hk Hkn Hp Hpe Hfr Hor Hs Hr Ht Hx]. cbn [dk_office dk_tasks dk_publisher dk_written] in *.
  destruct (insert_run record o o' r Hf Hok Hnew Hrun) as (Hf' & Ho' & Hx' & _).
  assert (sent o' = sent o) as Hs' by (unfold sent; by rewrite Hx').
  assert (utc_now o' = utc_now o) as Hc' by (unfold utc_now, pg_office_time; by rewrite Hx').
  assert (key (i, record) ∉ key <$> written) as Hfresh.
  { intros (x & Heq & Hin)%list_elem_of_fmap. apply Hnew. change (id_of record) with (key (i, record)).
    rewrite Heq. by apply Hkn. }
  split; cbn [dk_office dk_tasks dk_publisher dk_written]; try done.
  - rewrite fmap_app. apply NoDup_app. split; [done|]. split; [|apply NoDup_singleton].
    intros x Hin ->%list_elem_of_singleton. done.
  - intros x. rewrite Ho', fmap_app, !elem_of_app. intros [Hin | ->%list_elem_of_singleton];
      [left; by apply Hkn|right; cbn; by left].
  - rewrite Ho'. unfold pending_of. rewrite filter_app. fold (pending_of (outbox o)). rewrite Hpe.
    rewrite (filter_app _ written), fmap_app. f_equal. rewrite filter_cons_True by (unfold is_pending; by rewrite (ro_status _ Hok)).
    rewrite filter_cons_True; [done|]. intros (x & Heq & Hin)%list_elem_of_fmap. apply Hfresh. rewrite Heq.
    apply list_elem_of_fmap. exists x. split; [done|]. apply Hfr. apply elem_of_app. by left.
  - intros x Hin. apply elem_of_app. left. by apply Hfr.
  - intros j. rewrite (filter_app _ written). by apply prefix_app_r.
  - by rewrite Hs'.
  - apply Forall_app. split; [done|]. by apply Forall_singleton.
  - intros j t'. rewrite Hc', of_task_snoc.
    intros [(<- & <- & _)|(Hne & Hj)]%list_lookup_insert_Some.
    + rewrite decide_True by done. split; try done.
      * by apply sorted_snoc.
      * apply Forall_app. split; [done|]. by apply Forall_singleton.
      * rewrite fmap_app, H3. cbn [st_done st_batch task_inserted fmap list_fmap].
        rewrite (take_S_lookup _ _ output) by done. by rewrite fmap_app, Hev.
    + rewrite decide_False by done. rewrite app_nil_r. by apply Ht.
  - rewrite length_insert. apply Forall_app. split; [done|]. constructor; [|done]. cbn. by eapply lookup_lt_Some.
Qed.
(** *** The publisher *)

(** What has not been delivered of a task follows what has. *)
Lemma rest_of_task i (delivered written : list Written) :
  NoDup (key <$> written) → delivered ⊆ written →
  filter (λ x, fst x = i) delivered `prefix_of` filter (λ x, fst x = i) written →
  filter (λ x, fst x = i) written
  = filter (λ x, fst x = i) delivered
    ++ filter (λ x, fst x = i) (filter (λ x, key x ∉ key <$> delivered) written).
Proof.
  intros Hnd Hsub [rest Hrest]. rewrite Hrest. f_equal.
  rewrite filter_swap, Hrest, filter_app.
  assert (∀ x y, x ∈ written → y ∈ written → key x = key y → x = y) as Hinj.
  { intros x y [n Hn]%list_elem_of_lookup [k Hk]%list_elem_of_lookup Heq.
    assert (n = k) as ->; [|congruence].
    eapply NoDup_lookup; [exact Hnd| |]; rewrite list_lookup_fmap, ?Hn, ?Hk; cbn; by rewrite ?Heq. }
  assert (∀ x, x ∈ rest → x ∈ filter (λ x, fst x = i) written) as Hin.
  { intros x Hx. rewrite Hrest. apply elem_of_app. by right. }
  rewrite filter_none, app_nil_l.
  - symmetry. apply filter_all. apply Forall_forall. intros x Hx (y & Heq & Hy)%list_elem_of_fmap.
    pose proof (Hin x Hx) as [Hfst Hw]%list_elem_of_filter.
    assert (x = y) as <- by (apply Hinj; [done|by apply Hsub|done]).
    assert (NoDup (filter (λ x, fst x = i) written)) as Hnd'.
    { apply NoDup_filter. by eapply NoDup_fmap_1. }
    rewrite Hrest in Hnd'. apply NoDup_app in Hnd' as (_ & Hdis & _).
    apply (Hdis x); [|done]. by apply list_elem_of_filter.
  - apply Forall_forall. intros x [_ Hx]%list_elem_of_filter Hn. apply Hn. apply list_elem_of_fmap. by exists x.
Qed.

(** The records that a pass of the publisher takes on. *)
Definition next_batch (limit : nat) (now : DateTime) (delivered written : list Written) : list Written :=
  take (sql_count limit) (sort_by_key (λ x, ob_created_at (snd x))
    (filter (λ x, (ob_available_at (snd x) <=? now) = true)
       (filter (λ x, key x ∉ key <$> delivered) written))).

Lemma sorted_of_task i (written : list Written) :
  StronglySorted by_time (of_task i written) →
  StronglySorted (λ x y, ob_created_at (snd x) ≤ ob_created_at (snd y))
    (filter (λ x, fst x = i) written).
Proof.
  unfold of_task. induction (filter _ written) as [|x l IH]; [constructor|].
  rewrite fmap_cons. inversion 1 as [|? ? Hl Hx]; subst. constructor; [by apply IH|].
  apply (Forall_fmap snd) in Hx. exact Hx.
Qed.

Lemma listed_in_order i limit now (written delivered : list Written) :
  StronglySorted by_time (of_task i written) → Forall (λ x, record_ok (snd x)) written →
  filter (λ x, fst x = i) (next_batch limit now delivered written)
  `prefix_of` filter (λ x, fst x = i) (filter (λ x, key x ∉ key <$> delivered) written).
Proof.
  intros Hs Hok. unfold next_batch.
  set (rest := filter (λ x, key x ∉ key <$> delivered) written).
  assert (filter (λ x, (ob_available_at (snd x) <=? now) = true) rest
          = filter (λ x, (ob_created_at (snd x) <=? now) = true) rest) as ->.
  { apply filter_ext_in, Forall_forall. intros x [_ Hx]%list_elem_of_filter. rewrite Forall_forall in Hok.
    by rewrite (ro_available _ (Hok x Hx)). }
  assert (StronglySorted (λ x y, ob_created_at (snd x) ≤ ob_created_at (snd y))
            (filter (λ x, fst x = i) rest)) as Hrest.
  { unfold rest. rewrite filter_swap. by apply sorted_filter, sorted_of_task. }
  etrans; [apply filter_prefix, prefix_take|].
  rewrite filter_sort_by_key, filter_swap, sort_by_key_id by by apply sorted_filter.
  by apply (filter_due_prefix (λ x, ob_created_at (snd x))).
Qed.

Lemma inv_sorted sent0 s g m l i :
  desk_inv sent0 s g m l → StronglySorted by_time (of_task i (dk_written s)).
Proof.
  intros Hinv. destruct (dk_tasks s !! i) as [t|] eqn:Hi; [apply (di_tasks _ _ _ _ _ Hinv i t Hi)|].
  rewrite (of_task_above _ _ (length (dk_tasks s))); [constructor|apply Hinv|by apply lookup_ge_None].
Qed.

Lemma inv_fetch sent0 limit o tasks written g :
  desk_inv sent0 (mkDesk o tasks Idle written) g [] [] →
  let l := next_batch limit (pg_now (fst o)) g written in
  fetch_pending_outbox_events limit o = (o, Ok (snd <$> l)) ∧
  desk_inv sent0 (mkDesk o tasks (Holding (snd <$> l)) written) g [] l.
Proof.
  intros Hinv l. pose proof (λ i, inv_sorted _ _ _ _ _ i Hinv) as Hsorted. split.
  - rewrite fetch_pending_run by apply Hinv. do 2 f_equal. unfold l, next_batch.
    pose proof (di_pending _ _ _ _ _ Hinv) as Hpe. cbn [dk_office dk_written] in Hpe.
    rewrite fmap_take, (sort_by_key_map snd ob_created_at), Hpe.
    by rewrite filter_fmap_test.
  - assert (l ⊆ filter (λ x, key x ∉ key <$> g) written) as Hl.
    { intros x Hx. unfold l, next_batch in Hx. apply elem_of_take in Hx as (n & Hx & _).
      apply list_elem_of_lookup_2 in Hx. unfold sort_by_key in Hx.
      rewrite sort_by_elem in Hx. by apply list_elem_of_filter in Hx as [_ Hx]. }
    destruct Hinv as [Hf Hk Hkn Hp Hpe Hfr Hor Hs Hr Ht Hx]. cbn [dk_office dk_tasks dk_publisher dk_written] in *.
    cbn [app] in Hfr, Hor. rewrite app_nil_r in Hfr. setoid_rewrite app_nil_r in Hor.
    split; cbn [dk_office dk_tasks dk_publisher dk_written app]; try done.
    + intros x [Hin|Hin]%elem_of_app; [by apply Hfr|]. apply Hl in Hin.
      by apply list_elem_of_filter in Hin as [_ Hin].
    + intros i. rewrite filter_app. 
      rewrite (rest_of_task i g written Hk Hfr (Hor i)). apply prefix_app.
      by eapply listed_in_order.
Qed.
Lemma listed_ok sent0 s g m x l : desk_inv sent0 s g m (x :: l) → record_ok (snd x).
Proof.
  intros Hinv. pose proof (di_records _ _ _ _ _ Hinv) as Hr. rewrite Forall_forall in Hr.
  apply Hr, (di_from _ _ _ _ _ Hinv). set_solver.
Qed.

(** The first of the listed records is published. *)
Lemma inv_send sent0 o tasks written g x l :
  desk_inv sent0 (mkDesk o tasks (Holding (snd <$> x :: l)) written) g [] (x :: l) →
  ∃ envelope o' n,
    to_event_envelope (ob_topic (snd x)) (ob_payload_json (snd x)) = Ok (Some envelope) ∧
    bus_publish envelope o = (o', Ok n) ∧ fst o' = fst o ∧ utc_now o' = utc_now o ∧
    desk_inv sent0 (mkDesk o' tasks (Marking (snd x) (snd <$> l)) written) g [x] l.
Proof.
  intros Hinv. pose proof (listed_ok _ _ _ _ _ _ Hinv) as Hok.
  destruct (ro_event _ Hok) as [envelope Hev]. unfold event_of, classify in Hev.
  destruct (to_event_envelope (ob_topic (snd x)) (ob_payload_json (snd x))) as [e|] eqn:Hc; [|done]. subst e.
  destruct (publish_run envelope o (di_fine _ _ _ _ _ Hinv)) as (b & n & Hrun & Hf & Hs).
  exists envelope. eexists _, n. split; [done|]. split; [exact Hrun|]. split; [done|]. split; [done|].
  destruct Hinv as [_ Hk Hkn _ Hpe Hfr Hor Hsent Hr Ht Hx]. cbn [dk_office dk_tasks dk_publisher dk_written] in *.
  split; cbn [dk_office dk_tasks dk_publisher dk_written]; try done.
  rewrite Hs, Hsent, app_nil_r, fmap_app, omap_app, <- app_assoc. do 2 f_equal. cbn.
  unfold event_of, classify. by rewrite Hc.
Qed.

(** It is marked as delivered. *)
Lemma inv_mark sent0 o tasks written g x l t :
  desk_inv sent0 (mkDesk o tasks (Marking (snd x) (snd <$> l)) written) g [x] l →
  ∃ o', mark_outbox_event_delivered (ob_outbox_event_id (snd x)) t o = (o', Ok tt) ∧
    pg_now (fst o') = pg_now (fst o) ∧ utc_now o' = utc_now o ∧
    desk_inv sent0 (mkDesk o' tasks (Holding (snd <$> l)) written) (g ++ [x]) [] l.
Proof.
  intros Hinv. assert (record_ok (snd x)) as Hok.
  { pose proof (di_records _ _ _ _ _ Hinv) as Hr. rewrite Forall_forall in Hr.
    apply Hr, (di_from _ _ _ _ _ Hinv). set_solver. }
  destruct (mark_run (snd x) t o (di_fine _ _ _ _ _ Hinv) Hok) as (sv & Hrun & Hf & Hnow & Hids & Hp).
  exists (sv, snd o). split; [exact Hrun|]. split; [done|]. split; [done|].
  destruct Hinv as [_ Hk Hkn _ Hpe Hfr Hor Hsent Hr Ht Hx]. cbn [dk_office dk_tasks dk_publisher dk_written] in *.
  split; cbn [dk_office dk_tasks dk_publisher dk_written]; try done.
  - intros y Hy. rewrite Hids. by apply Hkn.
  - rewrite Hp, Hpe. clear. induction written as [|y written IH]; [done|]. rewrite !filter_cons.
    destruct (decide (key y ∉ key <$> g)) as [Hn|Hn].
    + rewrite fmap_cons, filter_cons, IH. destruct (decide (id_of (snd y) ≠ id_of (snd x))) as [Hne|He].
      * rewrite decide_True; [done|]. rewrite fmap_app. intros [?|Heq%list_elem_of_singleton]%elem_of_app; done.
      * rewrite decide_False; [done|]. intros Hin. apply Hin. rewrite fmap_app. apply elem_of_app. right.
        apply list_elem_of_singleton. unfold key. by apply dec_stable.
    + rewrite decide_False; [exact IH|]. intros Hin. apply Hn. intros Hg. apply Hin. rewrite fmap_app.
      apply elem_of_app. by left.
  - by rewrite <- app_assoc.
  - intros i. rewrite <- app_assoc. apply Hor.
  - rewrite app_nil_r. exact Hsent.
Qed.

Lemma inv_publish sent0 limit o o' tasks p p' written g m l :
  publisher_step limit o p = (o', p') → desk_inv sent0 (mkDesk o tasks p written) g m l →
  ∃ g' m' l', desk_inv sent0 (mkDesk o' tasks p' written) g' m' l' ∧ g ++ m `prefix_of` g' ++ m'.
Proof.
  intros Hstep Hinv. pose proof (di_publisher _ _ _ _ _ Hinv) as Hp. cbn [dk_publisher] in Hp.
  destruct p as [|[|record records]|record records]; cbn [publisher_step] in Hstep.
  - destruct Hp as [-> ->]. destruct (inv_fetch _ limit _ _ _ _ Hinv) as [Hrun Hinv'].
    rewrite Hrun in Hstep. injection Hstep as <- <-. by eexists _, _, _.
  - destruct Hp as [-> Hl]. apply fmap_nil_inv in Hl as ->. injection Hstep as <- <-.
    exists g, [], []. split; [|done]. by destruct Hinv; split.
  - destruct Hp as [-> Hl]. destruct l as [|x l]; [done|]. injection Hl as <- <-.
    destruct (inv_send _ _ _ _ _ _ _ Hinv) as (envelope & o1 & n & Hc & Hrun & _ & _ & Hinv').
    rewrite Hc, Hrun in Hstep. injection Hstep as <- <-. eexists _, _, _. split; [exact Hinv'|].
    rewrite app_nil_r. by eexists.
  - destruct Hp as [Hm <-]. destruct m as [|x [|]]; try done. injection Hm as <-.
    destruct (inv_mark _ _ _ _ _ _ _ (utc_now o) Hinv) as (o1 & Hrun & _ & _ & Hinv').
    rewrite Hrun in Hstep. injection Hstep as <- <-. eexists _, _, _. split; [exact Hinv'|].
    by rewrite app_nil_r.
Qed.

Lemma outcome_whole given hands :
  (∀ e, OfHand e ∈ given → kind_amount (he_kind e) ≤ u64_max) →
  batch_outcome (mkSinkTask given hands given 0 None).
Proof. intros Hfit. by left. Qed.

Lemma hand_outputs_in e (events : list HandEvent) : OfHand e ∈ OfHand <$> events → e ∈ events.
Proof. by intros (e' & [= ->] & Hin)%list_elem_of_fmap. Qed.

Lemma desk_step_inv sent0 limit s s' g m l :
  desk_step limit s s' → desk_inv sent0 s g m l →
  ∃ g' m' l', desk_inv sent0 s' g' m' l' ∧ g ++ m `prefix_of` g' ++ m'.
Proof.
  intros [events o o' r tasks p written Hty Happ|events o tasks p written Hty
    |i t output x o o' tasks p written Hi Hh Hout Hrun Hid Hc
    |i t record o o' r tasks p written Hi Hh Hrun Hnew|o o' tasks p p' written Hrun
    |o now sh w tasks p written Hc] Hinv.
  - destruct (append_run events o o' r (di_fine _ _ _ _ _ Hinv) Hty Happ) as (Hf & Ho & Hx & Hr).
    exists g, m, l. split; [|done].
    apply inv_spawn; [done|done| | | |apply (inv_beside _ o); [done|done|by unfold sent; rewrite Hx|
      unfold utc_now, pg_office_time; by rewrite Hx|exact Hinv]]; destruct r as [[]|e]; cbn; try done.
    + by apply Forall_fmap.
    + apply Forall_fmap, Forall_forall. intros e He. rewrite Forall_forall in Hr, Hty. cbn.
      apply has_envelope; auto.
    + apply outcome_whole. intros e He%hand_outputs_in. rewrite Forall_forall in Hr. by apply Hr.
    + right. split; [done|]. destruct Hr as (e' & He' & Hwhy). exists e'. split; [|done]. cbn.
      by apply list_elem_of_fmap_2.
  - exists g, m, l. split; [|done]. apply inv_spawn; try done.
    + by apply Forall_fmap.
    + apply Forall_fmap, Forall_forall. by eexists.
    + apply outcome_whole. by intros e (e' & [=] & _)%list_elem_of_fmap.
  - exists g, m, l. split; [|done]. by eapply inv_draw.
  - exists g, m, l. split; [|done]. by eapply inv_insert.
  - by eapply inv_publish.
  - exists g, m, l. split; [|done]. apply (inv_beside _ o); [|done|done|exact Hc|exact Hinv].
    by destruct (di_fine _ _ _ _ _ Hinv).
Qed.

Lemma desk_run_inv sent0 limit s s' g m l :
  rtc (desk_step limit) s s' → desk_inv sent0 s g m l →
  ∃ g' m' l', desk_inv sent0 s' g' m' l'.
Proof.
  intros Hrun. revert g m l. induction Hrun as [s|s1 s2 s3 Hstep _ IH]; intros g m l Hinv; [by eexists _, _, _|].
  destruct (desk_step_inv _ _ _ _ _ _ _ Hstep Hinv) as (g' & m' & l' & Hinv' & _). by eapply IH.
Qed.
(** *** Ticks that nobody interrupts *)

Lemma pass_run sent0 tasks written l : ∀ n o g,
  desk_inv sent0 (mkDesk o tasks (Holding (snd <$> l)) written) g [] l →
  ∃ o' k, publish_records n (snd <$> l) o = (o', Ok k) ∧ pg_now (fst o') = pg_now (fst o) ∧
    desk_inv sent0 (mkDesk o' tasks (Holding []) written) (g ++ l) [] [].
Proof.
  induction l as [|x l IH]; intros n o g Hinv.
  - exists o, n. split; [done|]. split; [done|]. by rewrite app_nil_r.
  - destruct (inv_send _ _ _ _ _ _ _ Hinv) as (envelope & o1 & k & Hc & Hrun & Ho1 & _ & Hinv1).
    destruct (inv_mark _ _ _ _ _ _ _ (utc_now o1) Hinv1) as (o2 & Hrun2 & Hnow & _ & Hinv2).
    destruct (IH (S n) o2 _ Hinv2) as (o' & k' & Hrest & Hnow' & Hinv').
    exists o', k'. split; [|split; [by rewrite Hnow', Hnow, Ho1|by rewrite <- app_assoc in Hinv']].
    rewrite fmap_cons. cbn [publish_records]. unfold mbind, M_mbind, M_bind, publish_record, lift_result.
    rewrite Hc. unfold mbind, M_mbind, M_bind, M_map_err, audit_result, now. rewrite Hrun.
    unfold M_map_err. cbn [result_map_err]. rewrite Hrun2. cbn [result_map_err]. exact Hrest.
Qed.

Lemma holding_nothing sent0 o tasks written g :
  desk_inv sent0 (mkDesk o tasks (Holding []) written) g [] [] →
  desk_inv sent0 (mkDesk o tasks Idle written) g [] [].
Proof. by intros []; split. Qed.

Lemma one_pass_run sent0 limit o tasks written g :
  desk_inv sent0 (mkDesk o tasks Idle written) g [] [] →
  ∃ o', outbox_tick limit o = (o', Ok tt) ∧ pg_now (fst o') = pg_now (fst o) ∧
    desk_inv sent0 (mkDesk o' tasks Idle written)
      (g ++ next_batch limit (pg_now (fst o)) g written) [] [].
Proof.
  intros Hinv. destruct (inv_fetch _ limit _ _ _ _ Hinv) as [Hrun Hinv1].
  destruct (pass_run _ _ _ _ 0 _ _ Hinv1) as (o' & k & Hpub & Hnow & Hinv').
  exists o'. split; [|split; [done|by apply holding_nothing]].
  unfold outbox_tick, ignore_error, publish_pending_outbox_once, mbind, M_mbind, M_bind, audit_result,
    M_map_err. rewrite Hrun. cbn [result_map_err]. by rewrite Hpub.
Qed.

Lemma without_first (a b : list Written) :
  NoDup (key <$> a ++ b) → filter (λ x, key x ∉ key <$> a) (a ++ b) = b.
Proof.
  rewrite fmap_app. intros (_ & Hdis & _)%NoDup_app. rewrite filter_app, filter_none, app_nil_l.
  - apply filter_all, Forall_forall. intros x Hx Hin. apply (Hdis _ Hin). by apply list_elem_of_fmap_2.
  - apply Forall_forall. intros x Hx Hn. apply Hn. by apply list_elem_of_fmap_2.
Qed.
Lemma keys_of_rest (g written : list Written) :
  NoDup (key <$> written) → NoDup (key <$> filter (λ x, key x ∉ key <$> g) written).
Proof.
  induction written as [|x l IH]; [constructor|]. rewrite fmap_cons. intros [Hx Hnd]%NoDup_cons.
  rewrite filter_cons. case_decide; [|by apply IH]. rewrite fmap_cons. constructor; [|by apply IH].
  intros (y & Heq & [_ Hy]%list_elem_of_filter)%list_elem_of_fmap. apply Hx. rewrite Heq.
  by apply list_elem_of_fmap_2.
Qed.

(** What is left after a pass when everything is due. *)
Lemma rest_after_pass limit now (g written : list Written) :
  NoDup (key <$> written) → Forall (λ x, ob_available_at (snd x) ≤ now) written →
  length (filter (λ x, key x ∉ key <$> g ++ next_batch limit now g written) written)
  = (length (filter (λ x, key x ∉ key <$> g) written) - sql_count limit)%nat.
Proof.
  intros Hnd Hdue. unfold next_batch. set (rest := filter (λ x, key x ∉ key <$> g) written).
  rewrite (filter_all _ rest).
  2: { apply Forall_forall. intros x [_ Hx]%list_elem_of_filter. rewrite Forall_forall in Hdue.
       by apply N.leb_le, Hdue. }
  set (sorted := sort_by_key _ rest). assert (sorted ≡ₚ rest) as Hperm by apply sort_by_perm.
  assert (filter (λ x, key x ∉ key <$> g ++ take (sql_count limit) sorted) written
          = filter (λ x, key x ∉ key <$> take (sql_count limit) sorted) rest) as ->.
  { unfold rest. rewrite list_filter_filter. apply list_filter_iff. intros x.
    rewrite fmap_app, elem_of_app. tauto. }
  transitivity (length (filter (λ x, key x ∉ key <$> take (sql_count limit) sorted) sorted));
    [by rewrite Hperm|].
  transitivity (length (drop (sql_count limit) sorted)); [|by rewrite length_drop, Hperm]. f_equal.
  assert (NoDup (key <$> sorted)) as Hnd' by (rewrite Hperm; by apply keys_of_rest).
  rewrite <- (take_drop (sql_count limit) sorted) in Hnd'.
  pose proof (without_first _ _ Hnd') as Heq. by rewrite take_drop in Heq.
Qed.

Lemma passes_run sent0 limit tasks written ticks : ∀ o g,
  desk_inv sent0 (mkDesk o tasks Idle written) g [] [] →
  Forall (λ x, ob_available_at (snd x) ≤ pg_now (fst o)) written →
  (length (filter (λ x, key x ∉ key <$> g) written) ≤ ticks * sql_count limit)%nat →
  ∃ o' g', outbox_ticks limit ticks o = (o', Ok tt) ∧ g `prefix_of` g' ∧
    desk_inv sent0 (mkDesk o' tasks Idle written) g' [] [] ∧
    filter (λ x, key x ∉ key <$> g') written = [].
Proof.
  induction ticks as [|ticks IH]; intros o g Hinv Hdue Hlen.
  - exists o, g. split; [done|]. split; [done|]. split; [done|]. apply nil_length_inv. lia.
  - destruct (one_pass_run _ limit _ _ _ _ Hinv) as (o1 & Hrun & Hnow & Hinv1).
    destruct (IH o1 _ Hinv1) as (o' & g' & Hrest & Hpre & Hinv' & Hnil).
    + by rewrite Hnow.
    + rewrite rest_after_pass by (try done; apply Hinv). lia.
    + exists o', g'. split; [|split; [|done]].
      * cbn [outbox_ticks]. unfold mbind, M_mbind, M_bind. by rewrite Hrun.
      * etrans; [|exact Hpre]. by eexists.
Qed.

(** ** What reaches the bus *)

(** The events of records, each with the task it is of. *)
Definition log_of (l : list Written) : list (nat * EventEnvelope) :=
  omap (λ x, pair (fst x) <$> event_of (snd x)) l.

Lemma log_of_events l : snd <$> log_of l = omap event_of (snd <$> l).
Proof.
  induction l as [|x l IH]; [done|]. unfold log_of in *. cbn. destruct (event_of (snd x)); cbn; [|done].
  by f_equal.
Qed.
Lemma log_of_task i l :
  Forall (λ x, record_ok (snd x)) l → Some <$> of_task i (log_of l) = event_of <$> of_task i l.
Proof.
  induction 1 as [|x l Hx _ IH]; [done|]. destruct (ro_event _ Hx) as [e He].
  unfold of_task, log_of in *. cbn [omap list_omap]. rewrite He. cbn [fmap option_fmap option_map].
  rewrite !filter_cons. cbn [fst]. destruct (decide (fst x = i)); [|exact IH].
  rewrite !fmap_cons, IH. cbn. by rewrite He.
Qed.
Lemma log_of_prefix l l' : l `prefix_of` l' → log_of l `prefix_of` log_of l'.
Proof. intros [k ->]. unfold log_of. rewrite omap_app. by eexists. Qed.

Lemma inv_log sent0 s g m l i t :
  desk_inv sent0 s g m l → dk_tasks s !! i = Some t →
  Some <$> of_task i (log_of (g ++ m)) `prefix_of` announced <$> take (st_done t) (st_batch t) ∧
  (filter (λ x, key x ∉ key <$> g) (dk_written s) = [] → m = [] → l = [] →
   Some <$> of_task i (log_of (g ++ m)) = announced <$> take (st_done t) (st_batch t)).
Proof.
  intros Hinv Hi. rewrite <- (tk_events _ _ _ (di_tasks _ _ _ _ _ Hinv i t Hi)).
  pose proof (di_from _ _ _ _ _ Hinv) as Hfr. pose proof (di_records _ _ _ _ _ Hinv) as Hr.
  rewrite Forall_forall in Hr. rewrite log_of_task.
  2: { apply Forall_forall. intros x Hx. apply Hr, Hfr. rewrite app_assoc. apply elem_of_app. by left. }
  pose proof (di_order _ _ _ _ _ Hinv i) as Hor. split.
  - assert (filter (λ x, fst x = i) (g ++ m) `prefix_of` filter (λ x, fst x = i) (dk_written s)) as [k Hk].
    { etrans; [|exact Hor]. rewrite app_assoc. apply filter_prefix. by eexists. }
    unfold of_task. rewrite Hk, !fmap_app. by eexists.
  - intros Hnil -> ->. cbn [app] in *. rewrite !app_nil_r in *. f_equal. unfold of_task. f_equal. symmetry.
    rewrite (rest_of_task i g) by first [apply Hinv|exact Hor|exact Hfr].
    by rewrite Hnil, app_nil_r.
Qed.
Lemma inv_log_tasks sent0 s g m l :
  desk_inv sent0 s g m l → ∀ x, x ∈ log_of (g ++ m) → (fst x < length (dk_tasks s))%nat.
Proof.
  intros Hinv x Hx. unfold log_of in Hx. apply list_elem_of_omap in Hx as (y & Hy & Heq).
  destruct (event_of (snd y)); [|done]. injection Heq as <-. cbn.
  pose proof (di_index _ _ _ _ _ Hinv) as Hidx. rewrite Forall_forall in Hidx.
  apply Hidx, (di_from _ _ _ _ _ Hinv). rewrite app_assoc. apply elem_of_app. by left.
Qed.
(** A log of two tasks, the second of which has sent nothing. *)
Lemma log_of_first (log : list (nat * EventEnvelope)) :
  (∀ x, x ∈ log → (fst x < 2)%nat) → of_task 1 log = [] → snd <$> log = of_task 0 log.
Proof.
  intros Hx Hnone. unfold of_task in *. apply fmap_nil_inv in Hnone.
  rewrite filter_all; [done|]. apply Forall_forall. intros x Hin. pose proof (Hx x Hin) as Hlt.
  assert (fst x ≠ 1%nat) as Hne by (intros Heq; by apply (filter_nil_not_elem_of _ _ x Hnone)).
  lia.
Qed.

(** C28. What a room tells its event sink reaches the bus, over PostgreSQL without faults.
    However the tasks that the sink spawns for the room's batches and the publisher
    interleave, and time goes on: each task announces its batch whole, and then no amount
    in it is above 64 bits, or nothing of it, and then one of its events has such an
    amount or is of a hand that the database did not have. The bus has at any moment got,
    after what was there, events of the tasks alone, and of each task the first so many
    of those it has inserted, each once and in their order. When the publisher is between
    two passes and the server's clock has come to the time of the last record, a number
    of ticks that is enough for what was inserted sends all the rest. *)
Theorem room_events_reach_the_bus limit (o : Office) s
    (Hfine : fine o) (Hempty : pending_of (outbox o) = [])
    (Hrun : rtc (desk_step limit) (mkDesk o [] Idle []) s) :
  let of_tasks log := ∀ x, x ∈ log → (fst x < length (dk_tasks s))%nat in
  (∀ t, t ∈ dk_tasks s →
     (st_batch t = st_given t ∧ ∀ e, OfHand e ∈ st_given t → kind_amount (he_kind e) ≤ u64_max) ∨
     (st_batch t = [] ∧ ∃ e, OfHand e ∈ st_given t ∧
        (u64_max < kind_amount (he_kind e) ∨ he_hand_id e ∉ st_hands t))) ∧
  ∃ log, sent (dk_office s) = sent o ++ (snd <$> log) ∧
    of_tasks log ∧
    (∀ i t, dk_tasks s !! i = Some t →
       Some <$> of_task i log `prefix_of` announced <$> take (st_done t) (st_batch t)) ∧
    (dk_publisher s = Idle →
     Forall (λ x, ob_available_at (snd x) ≤ pg_now (fst (dk_office s))) (dk_written s) →
     ∀ ticks, (length (dk_written s) ≤ ticks * sql_count limit)%nat →
       ∃ o' rest, outbox_ticks limit ticks (dk_office s) = (o', Ok tt) ∧
         sent o' = sent o ++ (snd <$> log ++ rest) ∧ of_tasks (log ++ rest) ∧
         ∀ i t, dk_tasks s !! i = Some t →
           Some <$> of_task i (log ++ rest) = announced <$> take (st_done t) (st_batch t)).
Proof.
  assert (desk_inv (sent o) (mkDesk o [] Idle []) [] [] []) as Hinit.
  { split; cbn; try done; [constructor|by intros x ?%elem_of_nil|by rewrite app_nil_r]. }
  destruct (desk_run_inv _ _ _ _ _ _ _ Hrun Hinit) as (g & m & l & Hinv). cbn zeta. split.
  { intros t [i Hi]%list_elem_of_lookup. exact (tk_outcome _ _ _ (di_tasks _ _ _ _ _ Hinv i t Hi)). }
  exists (log_of (g ++ m)). split; [by rewrite log_of_events, <- (di_sent _ _ _ _ _ Hinv)|].
  split; [|split].
  - by eapply inv_log_tasks.
  - intros i t Hi. by apply (inv_log _ _ _ _ _ i t Hinv).
  - intros Hidle Hdue ticks Hticks. destruct s as [os tasks p written].
    cbn [dk_office dk_tasks dk_publisher dk_written] in *. subst p.
    destruct (di_publisher _ _ _ _ _ Hinv) as [-> ->].
    destruct (passes_run _ limit _ _ ticks _ _ Hinv Hdue) as (o' & g' & Hrun' & [rest ->] & Hinv' & Hnil).
    { etrans; [apply length_filter|exact Hticks]. }
    exists o', (log_of rest). split; [exact Hrun'|].
    assert (log_of (g ++ []) ++ log_of rest = log_of ((g ++ rest) ++ [])) as Heq.
    { rewrite !app_nil_r. unfold log_of. by rewrite omap_app. }
    rewrite Heq. split; [by rewrite log_of_events, <- (di_sent _ _ _ _ _ Hinv')|].
    split; [by eapply (inv_log_tasks _ (mkDesk o' tasks Idle written))|]. intros i t Hi. by apply (inv_log _ _ _ _ _ i t Hinv').
Qed.
End Delivery.

#[local] Existing Instances plain_scalars plain_scalars_laws counting_ids derived_events derived_kinds
  PostgresAuditRepository.
(** The world of the application: its clock, and the next identifier. *)
#[local] Instance demo_desk_clock : Clock (N * N) := {| utc_now := fst |}.
#[local] Instance demo_desk_ids : FreshIds (N * N) := {| fresh_uuid '(t, n) := ((t, n + 1), n) |}.

Definition demo_server (faults : list PgFate) (now : DateTime) : AuditServer :=
  mkServer faults now
    (mkShared {[7 := mkRoomTableRow "active" "0xroom" 9 360000 300 0]}
       {[8 := mkHandTableRow 7 1 "Running" "Preflop" None 1 "0" 0 None]} ∅ ∅ ∅ [])
    audit_tables_empty.
Definition demo_desk_office (now : DateTime) : AuditServer * (InMemoryEventBus * (N * N)) :=
  (demo_server [] now, (InMemoryEventBus_new, (0, 50))).

(** A hand starts and a turn starts, in one batch; another batch has a pot beyond 64
    bits and a turn. *)
Definition demo_started : HandEvent := mkHandEvent 7 8 1 5 0 HandStarted.
Definition demo_next : HandEvent := mkHandEvent 7 8 2 5 0 (TurnStarted 1).
Definition demo_large : HandEvent := mkHandEvent 7 8 3 5 0 (PotUpdated 20000000000000000000).
Definition demo_later : HandEvent := mkHandEvent 7 8 4 5 0 (TurnStarted 2).
Definition demo_turn : EventEnvelope :=
  mkEvent HandEvents 7 (Some 8) (Some 1) "turn_started" (default JNull
    (result_ok (hand_event_json demo_next))).
Definition demo_start : EventEnvelope :=
  mkEvent HandEvents 7 (Some 8) None "hand_started" (default JNull
    (result_ok (hand_event_json demo_started))).

(** Steps at a concrete desk. *)
Ltac desk_spawn events :=
  eapply rtc_l; [eapply (StepSpawn _ events);
    [repeat constructor; vm_compute; discriminate|vm_compute; reflexivity]|cbn [app]].
Ltac desk_write i :=
  eapply rtc_l; [eapply (StepDraw _ i); [reflexivity|reflexivity|reflexivity|vm_compute; reflexivity|
    vm_compute; discriminate|vm_compute; discriminate]|cbn [list_insert insert alter]];
  eapply rtc_l; [eapply (StepInsert _ i); [reflexivity|reflexivity|vm_compute; reflexivity|
    apply (bool_decide_unpack _); vm_compute; exact I]|cbn [list_insert insert alter app]].
Ltac desk_publish := eapply rtc_l; [eapply StepPublish; vm_compute; reflexivity|].

(** The publisher looks after the first event is written, and has published it before the
    second is there; the batch with the large pot is lost. *)
Lemma room_events_reach_the_bus_witness :
  ∃ s o', rtc (desk_step 2) (mkDesk (demo_desk_office 9) [] Idle []) s ∧
    (λ t, (st_given t, st_batch t)) <$> dk_tasks s
    = [(OfHand <$> [demo_started; demo_next], OfHand <$> [demo_started; demo_next]);
       (OfHand <$> [demo_large; demo_later], [])] ∧
    dk_publisher s = Idle ∧ sent (dk_office s) = [demo_start] ∧
    outbox_ticks 2 1 (dk_office s) = (o', Ok tt) ∧ sent o' = [demo_start; demo_turn].
Proof.
  assert (∃ s, rtc (desk_step 2) (mkDesk (demo_desk_office 9) [] Idle []) s ∧
    (λ t, (st_given t, st_batch t)) <$> dk_tasks s
    = [(OfHand <$> [demo_started; demo_next], OfHand <$> [demo_started; demo_next]);
       (OfHand <$> [demo_large; demo_later], [])] ∧
    (λ t, (st_done t, st_batch t)) <$> dk_tasks s = [(2, OfHand <$> [demo_started; demo_next]); (0, [])]%nat ∧ length (dk_written s) = 2%nat ∧
    dk_publisher s = Idle ∧ sent (dk_office s) = [demo_start] ∧
    Forall (λ x, ob_available_at (snd x) ≤ pg_now (fst (dk_office s))) (dk_written s))
    as (s & Hrun & Ht & Hd & Hl & Hp & Hs & Hdue).
  { eexists. split.
    - desk_spawn [demo_started; demo_next].
      desk_write 0%nat.
      desk_publish.
      desk_publish.
      desk_write 0%nat.
      desk_publish.
      desk_spawn [demo_large; demo_later].
      desk_publish.
      apply rtc_refl.
    - repeat split; try (vm_compute; reflexivity). repeat constructor; vm_compute; discriminate. }
  destruct (room_events_reach_the_bus 2 (demo_desk_office 9) s) as (_ & log & Hsent & _ & _ & Hend).
  - split; [reflexivity|split; reflexivity|constructor].
  - reflexivity.
  - exact Hrun.
  - destruct (Hend Hp Hdue 1%nat) as (o' & rest & Ho' & Hsent' & Hof & Hall); [rewrite Hl; vm_compute; lia|].
    exists s, o'. repeat (split; [assumption|]). rewrite Hsent'.
    destruct (dk_tasks s) as [|t0 [|t1 [|]]]; try discriminate Hd. injection Hd as Hd0 Hb0 Hd1 Hb1.
    pose proof (Hall 0%nat t0 eq_refl) as H0. pose proof (Hall 1%nat t1 eq_refl) as H1.
    rewrite Hd0, Hb0 in H0. rewrite Hd1, Hb1 in H1. apply fmap_nil_inv in H1.
    rewrite (log_of_first _ Hof H1). destruct (of_task 0 (log ++ rest)) as [|e0 [|e1 [|]]]; try discriminate H0.
    injection H0 as -> ->. vm_compute. reflexivity.
Defined.

(** Each batch has a task of its own, so a later batch of a room can overtake an earlier
    one: here the turn is announced before the start of the hand. *)
Theorem batches_can_overtake :
  ∃ s o', rtc (desk_step 2) (mkDesk (demo_desk_office 9) [] Idle []) s ∧
    st_batch <$> dk_tasks s = [[OfHand demo_started]; [OfHand demo_next]] ∧
    outbox_ticks 2 1 (dk_office s) = (o', Ok tt) ∧ sent o' = [demo_turn; demo_start].
Proof.
  eexists _, _. split.
  - desk_spawn [demo_started].
    desk_spawn [demo_next].
    desk_write 1%nat.
    eapply rtc_l; [eapply (StepWorld _ _ 9 shared_empty (1, 51)); vm_compute; discriminate|].
    desk_write 0%nat.
    apply rtc_refl.
  - vm_compute. by repeat split.
Qed.
