(* ===== verification/Testing.v ===== *)
(** What the tests of the repository need: the cards and the ranking that they suppose of
    the [rs_poker] crate (a deck of 52 cards, their texts, [Ah], [Td], .., and the rules of
    poker for the best five cards of a hand), which instantiate the parameters [CardOps],
    [CardText] and [RankOps] of the model; and the vocabulary of tests, assertions and
    expectations over a computation of [M]. A test is a [result]: it passes when it is
    [Ok tt], and when it fails its error says which assertion did. *)

From stdpp Require Import base tactics option list strings pretty.
From Stdlib Require Import NArith Lia ZArith.
From S2P Require Import Prelude.
From S2P Require Import Text.
From S2P Require Import Domain.
From S2P Require Import EngineState.
From S2P Require Import Pots.
From S2P Require Import ShowdownEval.
From S2P Require Import AgentAuth.
From S2P Require Import AutoSettlement.
From S2P Require Import SeatCrypto.

Local Open Scope N_scope.

(** A card is its index in the deck: four suits for each of the thirteen values. *)
#[export] Instance playing_cards : CardOps :=
  {| Card := N; card_to_u8 := id; card_of_u8 := id |}.
Definition card_value (c : N) : N := c / 4.
Definition card_suit (c : N) : N := c mod 4.

(** ** Texts *)

Definition value_chars : list Ascii.ascii := String.list_ascii_of_string "23456789TJQKA".
Definition suit_chars : list Ascii.ascii := String.list_ascii_of_string "shdc".
Definition index_of (c : Ascii.ascii) (l : list Ascii.ascii) : option N :=
  N.of_nat ∘ fst <$> list_find (λ d, c = d) l.
Fixpoint cards_of_chars (l : list Ascii.ascii) : result string (list N) :=
  match l with
  | [] => Ok []
  | v :: s :: l =>
      value ← ok_or "unexpected value character"%string (index_of v value_chars);
      suit ← ok_or "unexpected suit character"%string (index_of s suit_chars);
      cards ← cards_of_chars l;
      Ok (4 * value + suit :: cards)
  | [_] => Err "too few characters"%string
  end.
Definition card_text (c : N) : string :=
  String (nth (N.to_nat (card_value c)) value_chars Ascii.zero)
    (String (nth (N.to_nat (card_suit c)) suit_chars Ascii.zero) "").
#[export] Instance playing_text : CardText := {|
  card_to_string := card_text;
  flat_hand_from_str s := cards_of_chars (String.list_ascii_of_string s);
|}.

(** ** Ranks

    The rank of five cards is the list of its category and its values, the values that
    occur more often first; ranks are compared from the left. *)

Fixpoint lex_gtb (a b : list N) : bool :=
  match a, b with
  | [], _ => false
  | _ :: _, [] => true
  | x :: a, y :: b => (y <? x) || ((x =? y) && lex_gtb a b)
  end.
Definition occurrences (v : N) (l : list N) : N := N.of_nat (length (filter (λ w, w = v) l)).

(** The values in decreasing order of their number, then of themselves. *)
Definition grouped (values : list N) : list N :=
  sort_by (λ v w, negb (lex_gtb [occurrences w values; w] [occurrences v values; v])) values.

Definition straight_top (values : list N) : option N :=
  match sort_by (λ v w, w <=? v) values with
  | [a; b; c; d; e] =>
      if (a =? b + 1) && (b =? c + 1) && (c =? d + 1) && (d =? e + 1) then Some a
      else if bool_decide ([a; b; c; d; e] = [12; 3; 2; 1; 0]) then Some 3
      else None
  | _ => None
  end.
Definition is_flush (cards : list N) : bool :=
  match map card_suit cards with
  | s :: suits => forallb (N.eqb s) suits
  | [] => false
  end.

Definition rank_five (cards : list N) : list N :=
  let values := map card_value cards in
  let order := grouped values in
  let counts := map (λ v, occurrences v values) order in
  match straight_top values with
  | Some top => [if is_flush cards then 8 else 4; top]
  | None =>
      if is_flush cards then 5 :: order
      else
        match counts with
        | 4 :: _ => 7 :: order
        | [3; 3; 3; 2; 2] => 6 :: order
        | 3 :: _ => 3 :: order
        | [2; 2; 2; 2; 1] => 2 :: order
        | 2 :: _ => 1 :: order
        | _ => 0 :: order
        end
  end.

(** The choices of [k] elements. *)
Fixpoint choices {A} (k : nat) (l : list A) : list (list A) :=
  match k, l with
  | O, _ => [[]]
  | S _, [] => []
  | S k', x :: l => map (cons x) (choices k' l) ++ choices k l
  end.
Definition best (ranks : list (list N)) : list N :=
  foldl (λ b r, if lex_gtb r b then r else b) [] ranks.
#[export] Instance poker_ranks : RankOps := {|
  Rank := list N;
  rank cards := best (map rank_five (choices 5 cards));
  rank_gtb := lex_gtb;
  rank_eqb a b := bool_decide (a = b);
|}.

Lemma lex_irrefl a : lex_gtb a a = false.
Proof. induction a as [|x a IH]; cbn; [done|]. by rewrite N.ltb_irrefl, N.eqb_refl, IH. Qed.
Lemma lex_trans a b c : lex_gtb a b = true → lex_gtb b c = true → lex_gtb a c = true.
Proof.
  revert b c. induction a as [|x a IH]; intros [|y b] [|z c]; cbn; try done.
  rewrite !orb_true_iff, !andb_true_iff, !N.ltb_lt, !N.eqb_eq.
  intros [H1|[-> H1]] [H2|[-> H2]]; [left; lia|by left|by left|right]. split; [done|by eapply IH].
Qed.
Lemma lex_total a b : a = b ∨ lex_gtb a b = true ∨ lex_gtb b a = true.
Proof.
  revert b. induction a as [|x a IH]; intros [|y b]; cbn; auto.
  rewrite !orb_true_iff, !andb_true_iff, !N.ltb_lt, !N.eqb_eq.
  destruct (N.lt_total x y) as [H|[->|H]]; [auto| |auto].
  destruct (IH b) as [->|[H|H]]; auto.
Qed.
#[export] Instance poker_rank_laws : RankLaws.
Proof.
  split; cbn; [|apply lex_irrefl|apply lex_trans|apply lex_total].
  intros a b. apply bool_decide_eq_true.
Qed.

(** Every card reads back from its text. *)
Lemma cards_round_trip : ∀ c, c < 52 → flat_hand_from_str (card_text c) = Ok [c].
Proof.
  assert (Forall (λ c, flat_hand_from_str (card_text c) = Ok [c]) (map N.of_nat (seq 0 52))) as Hall.
  { vm_compute. by repeat constructor. }
  intros c Hc. rewrite Forall_forall in Hall. apply Hall. apply list_elem_of_fmap.
  exists (N.to_nat c). split; [lia|]. apply elem_of_seq. lia.
Qed.
Example royal_flush_wins : rank_gtb (rank [48; 44; 40; 36; 32; 0; 5]) (rank [49; 50; 51; 48; 4; 8; 12]) = true.
Proof. by vm_compute. Qed.

Abbreviation Test := (result string unit) (only parsing).

(** [assert!], [assert_eq!], [assert_ne!] *)
Definition assert {S} (what : string) (b : bool) : M S string unit :=
  if b then mret tt else throw what.
Definition assert_eq {S A} `{EqDecision A} (what : string) (x y : A) : M S string unit :=
  assert what (bool_decide (x = y)).
Definition assert_ne {S A} `{EqDecision A} (what : string) (x y : A) : M S string unit :=
  assert what (negb (bool_decide (x = y))).

(** [.expect(..)], [.expect_err(..)] *)
Definition expect {S E A} (what : string) (m : M S E A) : M S string A := M_map_err (λ _, what) m.
Definition expect_err {S E A} (what : string) (m : M S E A) : M S string E :=
  λ s, let '(s', r) := m s in (s', match r with Ok _ => Err what | Err e => Ok e end).
Definition expect_ok {S E A} (what : string) (r : result E A) : M S string A :=
  expect what (lift_result r).
Definition expect_some {S A} (what : string) (o : option A) : M S string A :=
  lift_result (ok_or what o).

(** Reads a part of the state. *)
Definition gets {S A} (f : S → A) : M S string A := λ s, (s, Ok (f s)).
(** [hay.contains(needle)] *)
Definition contains (needle hay : string) : bool := bool_decide (is_Some (String.index 0 needle hay)).
(** [s.ends_with(tail)] *)
Definition ends_with (tail s : string) : bool :=
  bool_decide (String.substring (String.length s - String.length tail) (String.length tail) s = tail).

(** A test that starts in a state of its own; one that is run inside another. *)
Definition starting_in {S A} (s : S) (m : M S string A) : result string A := snd (m s).
Definition subtest {S} (t : Test) : M S string unit := lift_result t.

(** A computation on a part of the state. *)
Definition zoom {W S E A} (part : W → S) (put : S → W → W) (m : M S E A) : M W E A :=
  λ w, let '(s, r) := m (part w) in (put s w, r).

Local Open Scope string_scope.

(** The compact text of a value, for names and strings without escapes. *)
Definition quoted (s : string) : string :=
  let q := String (Ascii.ascii_of_N 34) EmptyString in q +:+ s +:+ q.
Fixpoint json_print (j : Json) : string :=
  match j with
  | JNull => "null"
  | JBool b => if b then "true" else "false"
  | JNum z => pretty z
  | JStr s => quoted s
  | JArr l => "[" +:+ String.concat "," (map json_print l) +:+ "]"
  | JObj fields => "{" +:+ String.concat "," (map (λ e, quoted (fst e) +:+ ":" +:+ json_print (snd e)) fields)
                   +:+ "}"
  end.
Definition compact_text : JsonText := {| json_to_string j := Ok (json_print j) |}.

(** ** Hands of cards, and a pot that some seats have paid into *)

Definition flat_hand {S} (what text : string) : M S string (list Card) :=
  expect_ok what (flat_hand_from_str text).
Definition revealed (seat : SeatId) (cards : list Card) : SeatId * (Card * Card) :=
  (seat, (nth 0 cards 0, nth 1 cards 0)).
Definition paid_in (seat : SeatId) (amount : Chips) (s : EngineState) : EngineState :=
  set_pot_contributions (<[seat := amount]> (p_player_contributions (pot s))) s.
Definition pot_of (room_id : RoomId) (hand_id : HandId) (total : Chips)
    (contributions : list (SeatId * Chips)) : EngineState :=
  set_snap_pot_total total (set_pot_main total
    (foldl (λ s '(seat, amount), paid_in seat amount s)
       (EngineState_new room_id 1 hand_id) contributions)).

(** ** Sealed cards as values *)

Definition payload_json (p : HoleCardsDealtCipherPayload) : Json :=
  JObj [("room_id", json_N (ad_room_id (hc_aad p))); ("hand_id", json_N (ad_hand_id (hc_aad p)));
        ("seat_id", json_N (ad_seat_id (hc_aad p))); ("event_seq", json_N (ad_event_seq (hc_aad p)));
        ("key_id", JStr (ce_key_id (hc_envelope p)));
        ("algorithm", JStr (ce_algorithm (hc_envelope p)));
        ("ephemeral", json_opt JStr (ce_ephemeral_pubkey_b64 (hc_envelope p)));
        ("nonce", JStr (ce_nonce_b64 (hc_envelope p)));
        ("ciphertext", JStr (ce_ciphertext_b64 (hc_envelope p)))].
Definition json_payload (j : Json) : option HoleCardsDealtCipherPayload :=
  let number k := Z.to_N <$> (json_get k j ≫= as_i64) in
  let text k := json_get k j ≫= as_str in
  room ← number "room_id"; hand ← number "hand_id"; seat ← number "seat_id";
  seq ← number "event_seq"; key ← text "key_id"; alg ← text "algorithm"; nonce ← text "nonce";
  ciphertext ← text "ciphertext";
  Some (mkHoleCardsPayload (mkSeatEventAad room hand seat seq)
          (mkCipherEnvelope key alg (text "ephemeral") nonce ciphertext)).
