(* ===== verification/GameTests.v ===== *)
(** The tests of the engine and of settlement, run on the model, a Module for each. *)

From stdpp Require Import base tactics option list gmap strings pretty.
From Stdlib Require Import NArith ZArith.
From S2P Require Import Prelude.
From S2P Require Import Text.
From S2P Require Import Domain.
From S2P Require Import Ambient.
From S2P Require Import EngineState.
From S2P Require Import Pots.
From S2P Require Import Engine.
From S2P Require Import LedgerStore.
From S2P Require Import AuditStore.
From S2P Require Import Settlement.
From S2P Require Import SettlementService.
From S2P Require Import JsonRpc.
From S2P Require Import EvmWallet.
From S2P Require Import Orchestrator.
From S2P Require Import AutoSettlement.
From S2P Require Import TableService.
From S2P Require Import Testing.

(** ** The tests of the poker engine (the [tests] of [poker-engine/src/lib.rs] and
    [engine.rs]), run on the model: the scenarios of the source with the assertions of
    the source. Identifiers that the tests draw at random are fixed numbers, the shuffle
    is the reversal of the deck, and cards are those of [Testing]. *)

Module EngineSuite.
Local Open Scope string_scope.
Local Open Scope list_scope.
Local Open Scope N_scope.

Abbreviation EngineTest := (M EngineState string unit) (only parsing).

(** ** What the tests share *)

Definition room_id : RoomId := 7.
Definition new_state : EngineState := EngineState_new room_id 1 100.
Definition update (f : EngineState → EngineState) : EngineTest := modify f.
Definition action (action_seq : ActionSeq) (seat_id : SeatId) (action_type : ActionType)
    (amount : option Chips) (s : EngineState) : PlayerAction :=
  mkPlayerAction room_id (hs_hand_id (snapshot s)) action_seq seat_id action_type amount.
Definition act (action_seq : ActionSeq) (seat_id : SeatId) (action_type : ActionType)
    (amount : option Chips) : M EngineState EngineError EngineActionResult :=
  λ s, apply_action (action action_seq seat_id action_type amount s) s.
Definition acting : M EngineState string (option SeatId) := gets (hs_acting_seat_id ∘ snapshot).
Definition error_contains (what needle : string) (e : EngineError) : EngineTest :=
  assert what (contains needle (engine_error_text e)).
Definition kinds (l : list LegalAction) : list ActionType := map la_action_type l.
Definition street_of (r : EngineActionResult) : option Street := let '(Accepted s) := r in s.

(** ** The turn *)

Definition apply_action_rejects_when_not_players_turn : Test := starting_in new_state (
  update (start 0);;
  err ← expect_err "not your turn" (act 1 1 Fold None);
  error_contains "text" "not your turn" err).

Definition hand_started_event_kinds_emit_hand_started_and_turn_started : Test :=
  starting_in new_state (
    update (seat_player 0);;
    update (start 0);;
    events ← gets hand_started_event_kinds;
    assert "first" (match events !! 0%nat with Some HandStarted => true | _ => false end);;
    assert "second" (match events !! 1%nat with Some (TurnStarted 0) => true | _ => false end)).

(** ** Dealing *)

Definition internal_dealing_assigns_hole_cards_board_and_burns : Test := starting_in new_state (
  update (seat_player 0);;
  update (seat_player 1);;
  update (seat_player 3);;
  expect "deal internal hand" (deal_new_hand_internal 101 (@rev _));;
  s ← get;
  dealing ← expect_some "dealing state" (dealing s);
  assert_eq "hole cards" (size (d_hole_cards dealing)) 3%nat;;
  assert_eq "board" (length (d_board_cards dealing)) 5%nat;;
  assert_eq "burns" (length (d_burn_cards dealing)) 3%nat;;
  assert_eq "deck" (length (d_undealt_deck dealing)) (52 - (3 * 2 + 8))%nat;;
  let hole := flat_map (λ '(_, (a, b)), [a; b]) (map_to_list (d_hole_cards dealing)) in
  assert "seen" (bool_decide
    (NoDup (map card_to_u8 (hole ++ d_board_cards dealing ++ d_burn_cards dealing))))).

Definition internal_dealing_with_custom_deck_is_round_robin_and_deterministic : Test :=
  starting_in new_state (
    update (seat_player 0);;
    update (seat_player 2);;
    let deck := map (λ i, card_of_u8 (N.of_nat i)) (seq 0 52) in
    expect "deal custom deck" (deal_new_hand_internal_with_deck 101 deck);;
    s ← get;
    dealing ← expect_some "dealing" (dealing s);
    assert_eq "seat0" (d_hole_cards dealing !! 0) (Some (0, 2));;
    assert_eq "seat2" (d_hole_cards dealing !! 2) (Some (1, 3));;
    assert_eq "burns" (map card_to_u8 (d_burn_cards dealing)) [4; 8; 10];;
    assert_eq "board" (map card_to_u8 (d_board_cards dealing)) [5; 6; 7; 9; 11]).

Definition new_hand_resets_hand_id_and_action_seq : Test := starting_in new_state (
  update (seat_player 0);;
  update (seat_player 1);;
  expect "deal first hand" (deal_new_hand_internal 101 (@rev _));;
  hand_id_1 ← gets (hs_hand_id ∘ snapshot);
  update (set_snap_next_action_seq 9);;
  update (set_hand_next_action_seq 9);;
  update (set_snap_status HSettled);;
  expect "deal second hand" (deal_new_hand_internal 102 (@rev _));;
  hand_id_2 ← gets (hs_hand_id ∘ snapshot);
  assert_ne "hand ids" hand_id_1 hand_id_2;;
  s ← get;
  assert_eq "snapshot" (hs_next_action_seq (snapshot s)) 1;;
  assert_eq "hand" (h_next_action_seq (hand s)) 1).

Definition hand_number_increments_when_dealing_next_hand : Test := starting_in new_state (
  update (seat_player 0);;
  update (seat_player 1);;
  expect "first hand deal" (deal_new_hand_internal_with_deck 101 ordered_deck);;
  first_no ← gets (hs_hand_no ∘ snapshot);
  assert_eq "first hand number must stay at 1" first_no 1;;
  update (set_snap_status HSettled);;
  expect "second hand deal" (deal_new_hand_internal_with_deck 102 ordered_deck);;
  second_no ← gets (hs_hand_no ∘ snapshot);
  assert_eq "next hand number must increment" second_no 2).

(** ** Blinds *)

Definition expected_blinds_and_first_to_act (hand_no : N) (seats_sorted : list SeatId)
    : SeatId * SeatId * SeatId :=
  let n := length seats_sorted in
  let dealer_idx := (N.to_nat (sat_sub hand_no 1) mod n)%nat in
  if (n =? 2)%nat then
    let sb := seat_at seats_sorted dealer_idx in
    let bb := seat_at seats_sorted ((dealer_idx + 1) mod n) in
    (sb, bb, sb)
  else
    let sb := seat_at seats_sorted ((dealer_idx + 1) mod n) in
    let bb := seat_at seats_sorted ((dealer_idx + 2) mod n) in
    let first := seat_at seats_sorted ((dealer_idx + 3) mod n) in
    (sb, bb, first).

(** One turn of the loop over the hand numbers. *)
Definition assert_rotation (seats : list SeatId) (hand_no : N) : Test :=
  starting_in (EngineState_new room_id hand_no 100) (
    M_iter (λ seat, update (seat_player seat)) seats;;
    expect "deal hand for rotation test" (deal_new_hand_internal 101 (@rev _));;
    let '(sb, bb, first) := expected_blinds_and_first_to_act hand_no seats in
    s ← get;
    assert_eq "small blind" (b_player_bets (betting_round s) !! sb) (Some DEFAULT_SMALL_BLIND);;
    assert_eq "big blind" (b_player_bets (betting_round s) !! bb) (Some DEFAULT_BIG_BLIND);;
    assert_eq "current bet" (b_current_bet (betting_round s)) DEFAULT_BIG_BLIND;;
    total ← expect_ok "sum blinds" (ChipsOps.checked_add DEFAULT_SMALL_BLIND DEFAULT_BIG_BLIND);
    assert_eq "pot total" (hs_pot_total (snapshot s)) total;;
    assert_eq "first to act" (hs_acting_seat_id (snapshot s)) (Some first)).
Definition assert_rotation_for_seat_count (seat_count hand_count : nat) : Test :=
  let seats := map N.of_nat (seq 0 seat_count) in
  snd (M_iter (λ hand_no, subtest (assert_rotation seats (N.of_nat hand_no))) (seq 1 hand_count) tt).

Definition blind_rotation_matrix_heads_up_continuous_hands : Test :=
  assert_rotation_for_seat_count 2 8.
Definition blind_rotation_matrix_three_handed_continuous_hands : Test :=
  assert_rotation_for_seat_count 3 9.
Definition blind_rotation_matrix_four_handed_continuous_hands : Test :=
  assert_rotation_for_seat_count 4 12.

(** ** Sequence numbers and legal actions *)

Definition apply_action_advances_action_seq_when_accepted : Test := starting_in new_state (
  update (start 0);;
  action ← gets (action 1 0 Check None);
  result ← expect "accepted" (act 1 0 Check None);
  s ← get;
  assert_eq "snapshot" (hs_next_action_seq (snapshot s)) 2;;
  assert_eq "hand" (h_next_action_seq (hand s)) 2;;
  let events := post_action_event_kinds s action result in
  assert "accepted event" (existsb (λ e, match e with ActionAccepted _ => true | _ => false end) events);;
  assert "pot event" (existsb (λ e, match e with PotUpdated _ => true | _ => false end) events)).

Definition apply_action_rejects_when_action_seq_mismatch : Test := starting_in new_state (
  update (start 0);;
  err ← expect_err "mismatched action seq should fail" (act 2 0 Check None);
  error_contains "text" "action is not legal" err;;
  next ← gets (hs_next_action_seq ∘ snapshot);
  assert_eq "next action seq" next 1).

Definition legal_actions_return_check_when_no_bet_to_call : Test := starting_in new_state (
  update (start 0);;
  actions ← gets (λ s, kinds (legal_actions s 0));
  assert "check" (bool_decide (Check ∈ actions));;
  assert "call" (negb (bool_decide (Call ∈ actions)))).

Definition legal_actions_are_empty_for_non_acting_seat : Test := starting_in new_state (
  update (seat_player 0);;
  update (seat_player 1);;
  update (start 0);;
  actions ← gets (λ s, legal_actions s 1);
  assert_eq "actions" actions []).

(** [player_bets.insert(seat, amount)], [player_contributions.insert(seat, amount)] *)
Definition insert_bet (seat : SeatId) (amount : Chips) : EngineTest :=
  modify (λ s, set_round_bets (<[seat := amount]> (b_player_bets (betting_round s))) s).
Definition insert_contribution (seat : SeatId) (amount : Chips) : EngineTest :=
  modify (paid_in seat amount).

Definition legal_actions_return_call_when_facing_bet : Test := starting_in new_state (
  update (start 0);;
  update (set_round_current_bet 100);;
  insert_bet 0 20;;
  actions ← gets (λ s, legal_actions s 0);
  call ← expect_some "call action" (snd <$> list_find (λ a, la_action_type a = Call) actions);
  assert_eq "to call" (la_min_amount call) (Some 80);;
  assert "check" (negb (bool_decide (Check ∈ kinds actions)))).

(** ** Bets *)

(** The amounts of the pot: [pot.main_pot] and [snapshot.pot_total]. *)
Definition assert_pot (amount : Chips) : EngineTest :=
  s ← get;
  assert_eq "main pot" (p_main_pot (pot s)) amount;;
  assert_eq "pot total" (hs_pot_total (snapshot s)) amount.
Definition assert_bet (seat : SeatId) (amount : Chips) : EngineTest :=
  s ← get;
  assert_eq "bet" (b_player_bets (betting_round s) !! seat) (Some amount).
Definition assert_current_bet (amount : Chips) : EngineTest :=
  s ← get;
  assert_eq "current bet" (b_current_bet (betting_round s)) amount.

Definition raise_to_updates_current_bet_and_pot : Test := starting_in new_state (
  update (start 0);;
  expect "raise accepted" (act 1 0 RaiseTo (Some 50));;
  assert_current_bet 50;;
  assert_pot 50).

Definition call_only_adds_remaining_amount_to_pot : Test := starting_in new_state (
  update (start 0);;
  update (set_round_current_bet 100);;
  insert_bet 0 40;;
  update (set_pot_main 140);;
  update (set_snap_pot_total 140);;
  expect "call accepted" (act 1 0 Call None);;
  assert_bet 0 100;;
  assert_pot 200).

Definition all_in_updates_bet_and_pot_like_raise : Test := starting_in new_state (
  update (start 0);;
  update (set_round_current_bet 50);;
  insert_bet 0 20;;
  expect "all-in accepted" (act 1 0 AllIn (Some 120));;
  assert_current_bet 120;;
  assert_bet 0 120;;
  assert_pot 100).

Definition all_in_requires_amount : Test := starting_in new_state (
  update (start 0);;
  err ← expect_err "all-in without amount should fail" (act 1 0 AllIn None);
  error_contains "text" "action is not legal" err).

Definition action_rotates_to_next_seat_after_accept : Test := starting_in new_state (
  update (seat_player 0);;
  update (seat_player 1);;
  update (start 0);;
  expect "accepted" (act 1 0 Check None);;
  seat ← acting;
  assert_eq "acting" seat (Some 1)).

Definition fold_ends_hand_when_only_one_active_player_left : Test := starting_in new_state (
  update (seat_player 0);;
  update (seat_player 1);;
  update (start 0);;
  expect "accepted" (act 1 0 Fold None);;
  seat ← acting;
  assert_eq "acting" seat None;;
  status ← gets (hs_status ∘ snapshot);
  assert_eq "status" status HSettled).

(** Three seats, one of which acts first. *)
Definition three_seats (first : SeatId) : EngineTest :=
  update (seat_player 0);;
  update (seat_player 1);;
  update (seat_player 2);;
  update (start first).

Definition fold_rotates_to_next_seat_in_order_when_multiple_players_remain : Test :=
  starting_in new_state (
    three_seats 1;;
    expect "accepted" (act 1 1 Fold None);;
    status ← gets (hs_status ∘ snapshot);
    assert_eq "status" status HRunning;;
    seat ← acting;
    assert_eq "acting" seat (Some 2)).

(** The next action's number, the acting seat and the main pot. *)
Definition assert_turn (next : ActionSeq) (seat : SeatId) (main_pot : Chips) : EngineTest :=
  s ← get;
  assert_eq "next action seq" (hs_next_action_seq (snapshot s)) next;;
  assert_eq "acting" (hs_acting_seat_id (snapshot s)) (Some seat);;
  assert_eq "main pot" (p_main_pot (pot s)) main_pot.

Definition multi_player_action_chain_updates_pot_seq_and_turn_order : Test :=
  starting_in new_state (
    three_seats 0;;
    expect "seat 0 raise" (act 1 0 RaiseTo (Some 50));;
    assert_turn 2 1 50;;
    expect "seat 1 call" (act 2 1 Call None);;
    assert_turn 3 2 100;;
    assert_bet 1 50;;
    expect "seat 2 fold" (act 3 2 Fold None);;
    status ← gets (hs_status ∘ snapshot);
    assert_eq "status" status HRunning;;
    assert_turn 4 1 100).

Definition turn_rotation_skips_previously_folded_seat_on_later_actions : Test :=
  starting_in new_state (
    three_seats 0;;
    expect "seat 0 check" (act 1 0 Check None);;
    expect "seat 1 fold" (act 2 1 Fold None);;
    seat ← acting;
    assert_eq "acting" seat (Some 2);;
    expect "seat 2 check" (act 3 2 Check None);;
    seat ← acting;
    assert_eq "acting" seat (Some 2);;
    folded ← gets (h_folded_seats ∘ hand);
    assert "seat 0" (negb (bool_decide (0 ∈ folded)));;
    assert "seat 1" (bool_decide (1 ∈ folded))).

Definition check_is_rejected_when_facing_bet : Test := starting_in new_state (
  update (start 0);;
  update (set_round_current_bet 20);;
  err ← expect_err "illegal" (act 1 0 Check None);
  error_contains "text" "action is not legal" err).

Definition call_is_rejected_when_no_bet_to_call : Test := starting_in new_state (
  update (start 0);;
  err ← expect_err "illegal" (act 1 0 Call None);
  error_contains "text" "action is not legal" err).

Definition raise_to_rejects_amount_below_min_raise : Test := starting_in new_state (
  update (start 0);;
  update (set_round_current_bet 50);;
  update (set_round_min_raise_to (Some 100));;
  err ← expect_err "illegal" (act 1 0 RaiseTo (Some 80));
  error_contains "text" "action is not legal" err).

(** ** Streets *)

Definition betting_round_completes_and_advances_to_flop : Test := starting_in new_state (
  update (seat_player 0);;
  update (seat_player 1);;
  update (start 0);;
  result ← expect "seat 0 check" (act 1 0 Check None);
  assert_eq "no street" (street_of result) None;;
  result ← expect "seat 1 check" (act 2 1 Check None);
  assert_eq "flop" (street_of result) (Some Flop);;
  s ← get;
  assert_eq "street" (hs_street (snapshot s)) Flop;;
  assert_current_bet ChipsOps.ZERO;;
  assert_eq "status" (hs_status (snapshot s)) HRunning;;
  assert_eq "acting" (hs_acting_seat_id (snapshot s)) (Some 1)).

Definition river_round_completion_transitions_to_showdown_without_closing_hand : Test :=
  starting_in new_state (
    update (seat_player 0);;
    update (seat_player 1);;
    update (start 0);;
    update (set_snap_street River);;
    update (set_hand_street River);;
    expect "seat 0 check" (act 1 0 Check None);;
    result ← expect "seat 1 check" (act 2 1 Check None);
    assert_eq "showdown" (street_of result) (Some Showdown);;
    s ← get;
    assert_eq "street" (hs_street (snapshot s)) Showdown;;
    assert_eq "status" (hs_status (snapshot s)) HShowdown;;
    assert_eq "acting" (hs_acting_seat_id (snapshot s)) None).

(** ** Pots *)

Definition contributions_100_100_40 : EngineTest :=
  insert_contribution 0 100;;
  insert_contribution 1 100;;
  insert_contribution 2 40.
Definition contribution (seat : SeatId) : M EngineState string (option Chips) :=
  gets (λ s, p_player_contributions (pot s) !! seat).
Definition side_pot_list : M EngineState string (list (Chips * list SeatId)) :=
  gets (λ s, map (λ p, (sp_amount p, sp_eligible_seats p)) (p_side_pots (pot s))).
Definition layer_list : M EngineState string (list (bool * Chips * list SeatId)) :=
  gets (λ s, map (λ l, (pl_is_main l, pl_amount l, pl_eligible_seats l)) (pot_layers s)).

Definition uneven_contributions_rebuild_side_pots : Test := starting_in new_state (
  contributions_100_100_40;;
  update (set_pot_main 240);;
  update rebuild_side_pots;;
  main_pot ← gets (p_main_pot ∘ pot);
  assert_eq "main pot" main_pot 240;;
  c0 ← contribution 0;
  assert_eq "seat 0" c0 (Some 100);;
  c1 ← contribution 1;
  assert_eq "seat 1" c1 (Some 100);;
  c2 ← contribution 2;
  assert_eq "seat 2" c2 (Some 40);;
  pots ← side_pot_list;
  assert_eq "side pots" pots [(120, [0; 1])]).

Definition folded_seat_is_removed_from_side_pot_eligibility : Test := starting_in new_state (
  update (λ s, set_hand_seated ({[0; 1; 2]} ∪ h_seated_players (hand s)) s);;
  update (λ s, set_hand_folded ({[1]} ∪ h_folded_seats (hand s)) s);;
  contributions_100_100_40;;
  update (set_pot_main 240);;
  update rebuild_side_pots;;
  pots ← side_pot_list;
  assert_eq "eligible" (map snd pots) [[0]]).

Definition short_all_in_below_current_bet_is_accepted_and_marks_seat_all_in : Test :=
  starting_in new_state (
    three_seats 2;;
    update (set_round_current_bet 100);;
    update (set_round_min_raise_to (Some 200));;
    result ← expect "short all-in should be accepted" (act 1 2 AllIn (Some 40));
    assert_eq "no street" (street_of result) None;;
    assert_current_bet 100;;
    assert_bet 2 40;;
    all_in ← gets (h_all_in_seats ∘ hand);
    assert "all in" (bool_decide (2 ∈ all_in));;
    seat ← acting;
    assert_ne "acting" seat (Some 2)).

Definition short_all_in_seat_is_exempt_from_matching_current_bet_for_round_completion : Test :=
  starting_in new_state (
    three_seats 2;;
    expect "seat2 all-in" (act 1 2 AllIn (Some 40));;
    expect "seat0 raise" (act 2 0 RaiseTo (Some 100));;
    result ← expect "seat1 call" (act 3 1 Call None);
    assert_eq "flop" (street_of result) (Some Flop);;
    s ← get;
    assert_eq "street" (hs_street (snapshot s)) Flop;;
    assert_eq "main pot" (p_main_pot (pot s)) 240;;
    pots ← side_pot_list;
    assert_eq "side pots" pots [(120, [0; 1])]).

Definition pot_layers_include_main_and_side_segments : Test := starting_in new_state (
  contributions_100_100_40;;
  layers ← layer_list;
  assert_eq "layers" layers [(true, 120, [0; 1; 2]); (false, 120, [0; 1])]).

Definition pot_layers_split_multiple_side_pot_levels_deterministically : Test :=
  starting_in new_state (
    insert_contribution 0 300;;
    insert_contribution 1 200;;
    insert_contribution 2 100;;
    insert_contribution 3 50;;
    layers ← layer_list;
    assert_eq "layers" layers
      [(true, 200, [0; 1; 2; 3]); (false, 150, [0; 1; 2]); (false, 200, [0; 1])]).

(** ** Showdowns *)

Definition evaluate_showdown_returns_none_without_revealed_hole_cards : Test :=
  starting_in tt (assert "none" (match evaluate_showdown (mkShowdownInput [] []) with
                                 | None => true | Some _ => false end)).

Definition showdown_picks_higher_ranked_hand : Test := starting_in tt (
  board ← flat_hand "board" "AhKhQh2c3d";
  p1 ← flat_hand "p1" "JhTh";
  p2 ← flat_hand "p2" "AdAc";
  result ← expect_some "showdown result"
    (evaluate_showdown (mkShowdownInput board [revealed 0 p1; revealed 1 p2]));
  assert_eq "winners" (winner_seats result) [0]).

Definition showdown_returns_multiple_winners_on_tie : Test := starting_in tt (
  board ← flat_hand "board" "AhKhQhJhTh";
  p1 ← flat_hand "p1" "2c3d";
  p2 ← flat_hand "p2" "4s5c";
  result ← expect_some "showdown result"
    (evaluate_showdown (mkShowdownInput board [revealed 2 p2; revealed 1 p1]));
  assert_eq "winners" (winner_seats result) [1; 2]).

Definition showdown_for_eligible_seats_filters_non_eligible_players : Test := starting_in tt (
  board ← flat_hand "board" "AhKhQh2c3d";
  strong ← flat_hand "strong" "JhTh";
  medium ← flat_hand "medium" "AdAc";
  weak ← flat_hand "weak" "4c4d";
  filtered ← expect_some "result"
    (evaluate_showdown_for_eligible
       (mkShowdownInput board [revealed 0 strong; revealed 1 medium; revealed 2 weak]) (Some [1; 2]));
  assert_eq "winners" (winner_seats filtered) [1]).

Definition showdown_for_eligible_seats_preserves_tie_within_subset : Test := starting_in tt (
  board ← flat_hand "board" "AhKhQhJhTh";
  s0 ← flat_hand "s0" "2c3d";
  s1 ← flat_hand "s1" "4s5c";
  s2 ← flat_hand "s2" "AdAc";
  result ← expect_some "subset tie result"
    (evaluate_showdown_for_eligible
       (mkShowdownInput board [revealed 0 s0; revealed 1 s1; revealed 2 s2]) (Some [0; 1]));
  assert_eq "winners" (winner_seats result) [0; 1]).

(** ** The suite *)

Definition engine_suite : list Test :=
  [apply_action_rejects_when_not_players_turn;
   hand_started_event_kinds_emit_hand_started_and_turn_started;
   internal_dealing_assigns_hole_cards_board_and_burns;
   internal_dealing_with_custom_deck_is_round_robin_and_deterministic;
   new_hand_resets_hand_id_and_action_seq;
   hand_number_increments_when_dealing_next_hand;
   blind_rotation_matrix_heads_up_continuous_hands;
   blind_rotation_matrix_three_handed_continuous_hands;
   blind_rotation_matrix_four_handed_continuous_hands;
   apply_action_advances_action_seq_when_accepted;
   apply_action_rejects_when_action_seq_mismatch;
   legal_actions_return_check_when_no_bet_to_call;
   legal_actions_are_empty_for_non_acting_seat;
   legal_actions_return_call_when_facing_bet;
   raise_to_updates_current_bet_and_pot;
   call_only_adds_remaining_amount_to_pot;
   all_in_updates_bet_and_pot_like_raise;
   all_in_requires_amount;
   action_rotates_to_next_seat_after_accept;
   fold_ends_hand_when_only_one_active_player_left;
   fold_rotates_to_next_seat_in_order_when_multiple_players_remain;
   multi_player_action_chain_updates_pot_seq_and_turn_order;
   turn_rotation_skips_previously_folded_seat_on_later_actions;
   check_is_rejected_when_facing_bet;
   call_is_rejected_when_no_bet_to_call;
   raise_to_rejects_amount_below_min_raise;
   betting_round_completes_and_advances_to_flop;
   river_round_completion_transitions_to_showdown_without_closing_hand;
   uneven_contributions_rebuild_side_pots;
   folded_seat_is_removed_from_side_pot_eligibility;
   short_all_in_below_current_bet_is_accepted_and_marks_seat_all_in;
   short_all_in_seat_is_exempt_from_matching_current_bet_for_round_completion;
   pot_layers_include_main_and_side_segments;
   pot_layers_split_multiple_side_pot_levels_deterministically;
   evaluate_showdown_returns_none_without_revealed_hole_cards;
   showdown_picks_higher_ranked_hand;
   showdown_returns_multiple_winners_on_tie;
   showdown_for_eligible_seats_filters_non_eligible_players;
   showdown_for_eligible_seats_preserves_tie_within_subset].

(** Every test of the engine passes on the model. *)
Theorem engine_suite_passes : Forall (λ t, t = Ok tt) engine_suite.
Proof. vm_compute. by repeat constructor. Qed.
End EngineSuite.

(** ** The tests of settlement, run on the model: those of the crate [settlement]
    ([settlement/src/lib.rs]), of the plan of a showdown and of its orchestration
    ([app-server/src/showdown_settlement.rs], [settlement_orchestrator.rs]). The world
    holds the in-memory stores and what the wallets and sinks of the tests remember. *)

Module SettlementSuite.
Local Open Scope string_scope.
Local Open Scope list_scope.
Local Open Scope N_scope.

(** ** The world of the tests *)

Record World := mkWorld {
  w_ledger : InMemoryLedgerRepository;
  w_chain : InMemoryChainTxRepository;
  w_settlements : InMemorySettlementPersistenceRepository;
  w_transfers : list SettlementTransferRequest;
  w_batches : list BatchSettlementTransferRequest;
  w_completed : list HandId;
  w_alerts : list SettlementAlert;
  w_events : list BehaviorEventRecord;
  w_ids : N;
}.
Definition new_world : World :=
  mkWorld (mkMutex false []) InMemoryChainTx_new InMemorySettlement_new [] [] [] [] [] 1000.

Definition put_ledger x w := mkWorld x (w_chain w) (w_settlements w) (w_transfers w) (w_batches w)
  (w_completed w) (w_alerts w) (w_events w) (w_ids w).
Definition put_chain x w := mkWorld (w_ledger w) x (w_settlements w) (w_transfers w) (w_batches w)
  (w_completed w) (w_alerts w) (w_events w) (w_ids w).
Definition put_settlements x w := mkWorld (w_ledger w) (w_chain w) x (w_transfers w) (w_batches w)
  (w_completed w) (w_alerts w) (w_events w) (w_ids w).
Definition put_transfers x w := mkWorld (w_ledger w) (w_chain w) (w_settlements w) x (w_batches w)
  (w_completed w) (w_alerts w) (w_events w) (w_ids w).
Definition put_batches x w := mkWorld (w_ledger w) (w_chain w) (w_settlements w) (w_transfers w) x
  (w_completed w) (w_alerts w) (w_events w) (w_ids w).
Definition put_completed x w := mkWorld (w_ledger w) (w_chain w) (w_settlements w) (w_transfers w)
  (w_batches w) x (w_alerts w) (w_events w) (w_ids w).
Definition put_alerts x w := mkWorld (w_ledger w) (w_chain w) (w_settlements w) (w_transfers w)
  (w_batches w) (w_completed w) x (w_events w) (w_ids w).
Definition put_events x w := mkWorld (w_ledger w) (w_chain w) (w_settlements w) (w_transfers w)
  (w_batches w) (w_completed w) (w_alerts w) x (w_ids w).
Definition put_ids x w := mkWorld (w_ledger w) (w_chain w) (w_settlements w) (w_transfers w)
  (w_batches w) (w_completed w) (w_alerts w) (w_events w) x.

#[local] Instance world_ledger : LedgerRepository World :=
  {| insert_entries l := zoom w_ledger put_ledger (insert_entries l) |}.
#[local] Instance world_keys : RoomSigningKeyReadRepository World :=
  {| get_active_room_signing_key r := zoom w_chain put_chain (get_active_room_signing_key r) |}.
#[local] Instance world_settlements : SettlementPersistenceRepository World := {|
  insert_settlement_plan r := zoom w_settlements put_settlements (insert_settlement_plan r);
  insert_settlement_record r := zoom w_settlements put_settlements (insert_settlement_record r);
  update_settlement_record_status_by_tx_hash u :=
    zoom w_settlements put_settlements (update_settlement_record_status_by_tx_hash u);
  upsert_settlement_showdown_input r :=
    zoom w_settlements put_settlements (upsert_settlement_showdown_input r);
|}.
#[local] Instance world_settlements_read : SettlementPersistenceReadRepository World := {|
  get_settlement_plan i := zoom w_settlements put_settlements (get_settlement_plan i);
  list_settlement_records_by_hand h :=
    zoom w_settlements put_settlements (list_settlement_records_by_hand h);
  get_settlement_showdown_input h :=
    zoom w_settlements put_settlements (get_settlement_showdown_input h);
|}.
#[local] Instance world_clock : Clock World := {| utc_now _ := 1700000000000 |}.
#[local] Instance world_ids : FreshIds World :=
  {| fresh_uuid w := (put_ids (w_ids w + 1) w, w_ids w) |}.
#[local] Instance number_texts : UuidText := {| uuid_text := λ u, pretty u |}.
#[local] Instance plain_rendering : Rendering := {| plan_to_value := λ _, Ok JNull |}.

Definition room_id : RoomId := 7.
Definition hand_id : HandId := 77.
Definition trace_id : TraceId := 5.
Definition payout (seat : SeatId) (amount : Chips) : SettlementPayout := mkPayout seat amount.
Definition pays (plan : SettlementPlan) : list (SeatId * Chips) :=
  map (λ p, (po_seat_id p, po_amount p)) (pn_payouts plan).

(** ** Plans *)

Definition build_plan_splits_evenly_with_deterministic_remainder : Test := starting_in tt (
  plan ← expect_ok "plan"
    (build_plan_from_winners room_id hand_id 10 [2; 1; 3] RakePolicy_zero);
  assert_eq "rake" (pn_rake_amount plan) ChipsOps.ZERO;;
  assert_eq "payouts" (pays plan) [(1, 4); (2, 3); (3, 3)];;
  total ← expect_ok "sum" (payout_total plan);
  assert_eq "total" total 10).

Definition build_plan_applies_rake_bps_before_split : Test := starting_in tt (
  plan ← expect_ok "plan"
    (build_plan_from_winners room_id hand_id 1000 [0; 1] (mkRakePolicy 300));
  assert_eq "rake" (pn_rake_amount plan) 30;;
  total ← expect_ok "sum" (payout_total plan);
  assert_eq "total" total 970;;
  assert_eq "payouts" (map po_amount (pn_payouts plan)) [485; 485]).

Definition rake_rounds_down_to_chain_unit : Test := starting_in tt (
  let policy := RakePolicy_three_percent in
  low ← expect_ok "rake" (rake_amount_for policy 33);
  assert_eq "33" low 0;;
  high ← expect_ok "rake" (rake_amount_for policy 34);
  assert_eq "34" high 1).

Definition build_plan_rejects_invalid_rake_policy : Test := starting_in tt (
  err ← expect_err "invalid rake policy should be rejected" (lift_result
    (build_plan_from_winners room_id hand_id 100 [0; 1] (mkRakePolicy 10001)));
  assert "text" (contains "invalid rake policy" (settlement_error_text err))).

Definition build_plan_from_pot_awards_handles_main_and_side_pot : Test := starting_in tt (
  plan ← expect_ok "plan" (build_plan_from_pot_awards room_id hand_id
    [mkPotAward 120 [0; 1; 2] [2]; mkPotAward 120 [0; 1] [1]] RakePolicy_zero);
  assert_eq "rake" (pn_rake_amount plan) ChipsOps.ZERO;;
  total ← expect_ok "sum" (payout_total plan);
  assert_eq "total" total 240;;
  assert_eq "payouts" (pays plan) [(1, 120); (2, 120)]).

Definition build_plan_from_pot_awards_rejects_winner_outside_eligible : Test := starting_in tt (
  err ← expect_err "invalid" (lift_result (build_plan_from_pot_awards room_id hand_id
    [mkPotAward 10 [0; 1] [2]] RakePolicy_zero));
  assert "text" (contains "winner_seats" (settlement_error_text err))).

Definition build_plan_from_pot_awards_applies_rake_proportionally : Test := starting_in tt (
  plan ← expect_ok "plan" (build_plan_from_pot_awards room_id hand_id
    [mkPotAward 101 [0; 1] [0; 1]; mkPotAward 100 [0] [0]] (mkRakePolicy 1000));
  assert_eq "rake" (pn_rake_amount plan) 20;;
  total ← expect_ok "sum" (payout_total plan);
  assert_eq "total" total 181;;
  assert "seat 0" (existsb (λ p, (po_seat_id p =? 0) && (130 <? po_amount p)) (pn_payouts plan));;
  assert "seat 1" (existsb (λ p, (po_seat_id p =? 1) && (po_amount p <? 50)) (pn_payouts plan))).

Definition pot_award_rake_rounding_and_remainder_apportion_is_deterministic : Test :=
  starting_in tt (
    plan ← expect_ok "plan" (build_plan_from_pot_awards room_id hand_id
      [mkPotAward 34 [1; 0] [1; 0]] RakePolicy_three_percent);
    assert_eq "rake" (pn_rake_amount plan) 1;;
    total ← expect_ok "sum" (payout_total plan);
    assert_eq "total" total 33;;
    assert_eq "payouts" (pays plan) [(0, 17); (1, 16)]).

(** ** Recording and paying *)

Definition mock_submit (request : SettlementTransferRequest) : M World string string :=
  modify (λ w, put_transfers (w_transfers w ++ [request]) w);;
  w ← get;
  mret ("0xtx" +:+ pretty (N.of_nat (length (w_transfers w)))).
Definition mock_receipt (tx_hash : string) : M World string SettlementTransferReceipt :=
  let confirmations := if ends_with "1" tx_hash then 3 else 0 in
  mret (mkReceipt tx_hash (if 0 <? confirmations then TxConfirmed else TxPending) confirmations).
Definition MockWalletAdapter : SettlementWalletAdapter World :=
  {| submit_transfer := mock_submit; get_transfer_receipt := mock_receipt |}.
Definition mock_submit_batch (request : BatchSettlementTransferRequest) : M World string string :=
  modify (λ w, put_batches (w_batches w ++ [request]) w);;
  mret "0xbatchtx1".
Definition MockBatchWalletAdapter : BatchSettlementWalletAdapter World := {|
  submit_batch_transfer := mock_submit_batch;
  get_batch_transfer_receipt tx_hash := mret (mkBatchReceipt tx_hash TxConfirmed 1 2);
|}.

Definition entries : M World string (list LedgerEntryInsert) := gets (entries_snapshot ∘ w_ledger).
Definition of_type (ty : string) (l : list LedgerEntryInsert) : list Chips :=
  map le_amount (filter (λ e, le_entry_type e = ty) l).

Definition record_plan_writes_rake_and_payout_entries : Test := starting_in new_world (
  let plan := mkPlan room_id hand_id 30 [payout 0 100; payout 1 200] in
  expect "record" (record_plan plan trace_id);;
  entries ← entries;
  assert_eq "entries" (length entries) 3%nat;;
  assert "rake" (bool_decide (30 ∈ of_type "rake_accrual" entries));;
  assert_eq "payouts" (length (of_type "settlement_payout" entries)) 2%nat).

Definition submit_direct_payouts_sends_one_transfer_per_payout : Test := starting_in new_world (
  let plan := mkPlan room_id hand_id 10 [payout 1 120; payout 2 80] in
  let seat_addresses := <[1 := "0xseat1"]> (<[2 := "0xseat2"]> ∅) : gmap SeatId string in
  submissions ← expect "submit"
    (submit_direct_payouts (H := MockWalletAdapter) plan seat_addresses);
  assert_eq "seats" (map Settlement.ts_seat_id submissions) [1; 2];;
  calls ← gets w_transfers;
  assert_eq "addresses" (map tq_to_address calls) ["0xseat1"; "0xseat2"]).

Definition submit_direct_payouts_requires_seat_address_mapping : Test := starting_in new_world (
  let plan := mkPlan room_id hand_id ChipsOps.ZERO [payout 7 1] in
  err ← expect_err "missing address should fail"
    (submit_direct_payouts (H := MockWalletAdapter) plan ∅);
  assert "text" (contains "missing payout address" (settlement_error_text err))).

Definition check_payout_submissions_applies_confirmation_threshold : Test := starting_in new_world (
  receipts ← expect "receipts"
    (check_payout_submissions (H := MockWalletAdapter)
       [mkSubmission 1 "0xtx1"; mkSubmission 2 "0xtx2"] 5);
  assert_eq "receipts" (map (λ r, (rc_status r, rc_confirmations r)) receipts)
    [(TxPending, 3); (TxPending, 0)]).

Definition batch_payout_adapter_interface_builds_and_checks_receipt : Test := starting_in new_world (
  let plan := mkPlan room_id hand_id ChipsOps.ZERO [payout 1 5; payout 2 6] in
  let seat_addresses := <[1 := "0xseat1"]> (<[2 := "0xseat2"]> ∅) : gmap SeatId string in
  submission ← expect "submit batch"
    (submit_batch_payouts (H := MockBatchWalletAdapter) plan seat_addresses);
  assert_eq "hash" (bs_tx_hash submission) "0xbatchtx1";;
  assert_eq "count" (bs_transfer_count submission) 2%nat;;
  receipt ← expect "receipt"
    (check_batch_payout_submission (H := MockBatchWalletAdapter) submission 2);
  assert_eq "hash" (br_tx_hash receipt) "0xbatchtx1";;
  assert_eq "status" (br_status receipt) TxPending;;
  calls ← gets w_batches;
  assert_eq "calls" (map (length ∘ bq_transfers) calls) [2%nat]).

(** ** Signing keys

    A cipher that is undone exactly under the key, the nonce and the data it was made
    with, which it writes before the text. *)

Definition toy_encrypt (kek nonce aad msg : list N) : list N := kek ++ nonce ++ aad ++ msg.
#[local] Instance toy_aes : Aes256Gcm := {|
  aes256gcm_decrypt kek nonce ciphertext aad :=
    let head := kek ++ nonce ++ aad in
    if decide (take (length head) ciphertext = head) then Ok (drop (length head) ciphertext)
    else Err "aead::Error"
|}.
Definition bytes_of (s : string) : list N := map Ascii.N_of_ascii (String.list_ascii_of_string s).

Definition decrypt_room_signing_key_aes256_gcm_roundtrip : Test := starting_in tt (
  let kek := replicate 32 7 in
  let nonce := replicate 12 9 in
  let aad := bytes_of "room-key:v1" in
  let plaintext := bytes_of "0xdeadbeefcafebabe" in
  let record := mkEncryptedKey room_id "0xroom" (toy_encrypt kek nonce aad plaintext)
                  "AES-256-GCM" 1 "kek-1" nonce aad in
  decrypted ← expect_ok "decrypt" (decrypt_room_signing_key_aes256_gcm record kek);
  assert_eq "plaintext" decrypted plaintext).

Definition decrypt_room_signing_key_fails_on_aad_mismatch : Test := starting_in tt (
  let kek := replicate 32 1 in
  let nonce := replicate 12 2 in
  let record := mkEncryptedKey room_id "0xroom"
                  (toy_encrypt kek nonce (bytes_of "aad-ok") (bytes_of "secret"))
                  "AES-256-GCM" 1 "kek-1" nonce (bytes_of "aad-bad") in
  err ← expect_err "aad mismatch" (lift_result (decrypt_room_signing_key_aes256_gcm record kek));
  assert "text" (contains "decrypt error" (settlement_error_text err)
                 || contains "aead" (settlement_error_text err))).

Definition settlement_service_loads_and_decrypts_active_room_key : Test := starting_in new_world (
  let kek := replicate 32 3 in
  let nonce := replicate 12 4 in
  let aad := bytes_of "room-key-aad" in
  let plaintext := bytes_of "room-private-key" in
  expect "insert" (zoom w_chain put_chain (upsert_room_signing_key_record
    (mkRoomSigningKeyRecord room_id "0xroom" (toy_encrypt kek nonce aad plaintext) "AES-256-GCM" 1
       "kek-1" nonce aad "active" 0 None None)));;
  found ← expect "decrypt" (load_room_signing_key_for_settlement room_id
    (λ kek_id, if decide (kek_id = "kek-1") then Some kek else None));
  handle ← expect_some "active key" found;
  assert_eq "address" (kh_address handle) "0xroom";;
  assert_eq "version" (kh_key_version handle) 1%Z;;
  assert_eq "bytes" (kh_private_key_bytes handle) plaintext).

(** ** Failed receipts *)

Definition records_of_hand : M World string (list SettlementRecordInsert) :=
  expect "list" (list_settlement_records_by_hand hand_id).
Definition has_record (p : SettlementRecordInsert → bool) (l : list SettlementRecordInsert) : bool :=
  existsb p l.

Definition mark_failed_receipts_for_manual_review_updates_only_failed_receipts : Test :=
  starting_in new_world (
    let plan_id := 500 in
    now ← now;
    expect "plan" (insert_settlement_plan
      (mkSettlementPlanRecordInsert plan_id room_id hand_id "created" ChipsOps.ZERO 10 (JObj [])
         now None));;
    expect "record1" (insert_settlement_record
      (mkSettlementRecordInsert 501 plan_id room_id hand_id (Some "0xfail") "failed" 1 (Some "old")
         now now));;
    expect "record2" (insert_settlement_record
      (mkSettlementRecordInsert 502 plan_id room_id hand_id (Some "0xok") "confirmed" 0 None now now));;
    updated ← expect "mark" (mark_failed_receipts_for_manual_review
      [mkReceipt "0xfail" TxFailed 0; mkReceipt "0xok" TxConfirmed 2] 2
      "manual review required after failed payout receipt");
    assert_eq "updated" updated 1%nat;;
    records ← records_of_hand;
    assert "failed" (has_record (λ r, bool_decide (sr_tx_hash r = Some "0xfail")
      && bool_decide (sr_settlement_status r = "manual_review_required")
      && bool_decide (sr_retry_count r = 2%Z)) records);;
    assert "ok" (has_record (λ r, bool_decide (sr_tx_hash r = Some "0xok")
      && bool_decide (sr_settlement_status r = "confirmed")) records)).

(** ** Numbers and call data *)

Definition parse_hex_u64_parses_evm_quantities : Test := starting_in tt (
  zero ← expect_ok "zero" (parse_hex_u64 "0x0");
  assert_eq "zero" zero 0;;
  sixteen ← expect_ok "sixteen" (parse_hex_u64 "0x10");
  assert_eq "sixteen" sixteen 16).

(** The hash and the call data as their own arguments. *)
#[local] Instance plain_abi : EvmAbi := {|
  Address := string;
  parse_address := Ok;
  encode_settle_batch to amounts id := Ok (flat_map bytes_of to ++ amounts ++ id);
  keccak256 := λ l, l;
|}.

Definition settlement_batch_id_is_stable_for_same_room_and_hand : Test := starting_in tt (
  let a := build_settlement_batch_id room_id hand_id in
  let b := build_settlement_batch_id room_id hand_id in
  assert_eq "ids" a b).

Definition batch_settlement_adapter_encodes_contract_call_data : Test := starting_in tt (
  let request := mkBatchRequest room_id hand_id
    [mkTransferRequest room_id hand_id 1 "0x0000000000000000000000000000000000000011" 7;
     mkTransferRequest room_id hand_id 2 "0x0000000000000000000000000000000000000022" 9] in
  data ← expect_ok "encode" (encode_batch_settlement_call request);
  assert "prefix" (String.prefix "0x" data);;
  assert "length" (10 <? String.length data)%nat).

(** ** The plan of a showdown *)

(** Two layers, of three and of two seats; one layer of two seats. *)
Definition side_pot_state : EngineState := pot_of room_id hand_id 240 [(0, 100); (1, 100); (2, 40)].
Definition even_state : EngineState := pot_of room_id hand_id 20 [(0, 10); (1, 10)].

Definition side_pot_showdown : M World string ShowdownInput :=
  board ← flat_hand "board" "AhKhQh2c3d";
  seat0 ← flat_hand "s0" "4c4d";
  seat1 ← flat_hand "s1" "AdAc";
  seat2 ← flat_hand "s2" "JhTh";
  mret (mkShowdownInput board [revealed 0 seat0; revealed 1 seat1; revealed 2 seat2]).
Definition tie_showdown : M World string ShowdownInput :=
  board ← flat_hand "board" "AhKhQhJhTh";
  seat0 ← flat_hand "s0" "2c3d";
  seat1 ← flat_hand "s1" "4s5c";
  mret (mkShowdownInput board [revealed 0 seat0; revealed 1 seat1]).

Definition builds_settlement_plan_from_main_and_side_pots_via_showdown : Test :=
  starting_in new_world (
    showdown ← side_pot_showdown;
    let state := set_hand_folded ∅ side_pot_state in
    plan ← expect_ok "plan" (build_settlement_plan_from_showdown state showdown RakePolicy_zero);
    total ← expect_ok "sum" (payout_total plan);
    assert_eq "total" total 240;;
    assert_eq "payouts" (pays plan) [(1, 120); (2, 120)]).

(** ** The orchestration *)

#[local] Instance FakeRoomPort : SettlementLifecyclePort World := {|
  complete_settlement hand_id := modify (λ w, put_completed (w_completed w ++ [hand_id]) w)
|}.
Definition hex_pair (n : N) : string := if n <? 16 then "0" +:+ format_hex n else format_hex n.
Definition FakeWallet (confirmations : N) (fail_second : bool) : SettlementWalletAdapter World := {|
  submit_transfer request :=
    mret ("0x" +:+ format_hex (tq_hand_id request) +:+ hex_pair (tq_to_seat_id request));
  get_transfer_receipt tx_hash :=
    mret (mkReceipt tx_hash (if fail_second && ends_with "01" tx_hash then TxFailed else TxConfirmed)
            confirmations);
|}.
Definition FakeBatchWallet (confirmations : N) (fail : bool) : BatchSettlementWalletAdapter World := {|
  submit_batch_transfer _ := mret "0xbatch";
  get_batch_transfer_receipt tx_hash :=
    mret (mkBatchReceipt tx_hash (if fail then TxFailed else TxConfirmed) confirmations 2);
|}.
Definition FakeAlertSink : AlertSink World :=
  Some (λ alert, modify (λ w, put_alerts (w_alerts w ++ [alert]) w)).
Definition FakeSettlementAuditSink : AuditSink World :=
  Some (λ event, modify (λ w, put_events (w_events w ++ [event]) w)).
Definition two_addresses : gmap SeatId string := <[0 := "0xseat0"]> (<[1 := "0xseat1"]> ∅).

(** The assertions the tests have in common. *)
Definition assert_stored (plans records : nat) : M World string unit :=
  w ← get;
  assert_eq "plans" (settlement_plans_len (w_settlements w)) plans;;
  assert_eq "records" (settlement_records_len (w_settlements w)) records.
Definition assert_completed (hands : list HandId) : M World string unit :=
  completed ← gets w_completed;
  assert_eq "completed" completed hands.
Definition assert_alerted : M World string unit :=
  alerts ← gets w_alerts;
  assert_eq "alerts" (map sa_kind alerts) ["settlement_manual_review_required"].
Definition assert_event (kind : string) : M World string unit :=
  events ← gets w_events;
  assert kind (existsb (λ e, bool_decide (be_event_kind e = kind)) events).

Definition orchestrates_showdown_plan_record_and_room_close : Test := starting_in new_world (
  let state := side_pot_state in
  showdown ← side_pot_showdown;
  plan ← expect "orchestrated"
    (run_showdown_settlement state showdown (mkRakePolicy 300) trace_id);
  assert_eq "rake" (pn_rake_amount plan) 7;;
  total ← expect_ok "sum" (payout_total plan);
  assert_eq "total" total 233;;
  entries ← entries;
  assert_eq "entries" (length entries) 3%nat;;
  assert_eq "rakes" (length (of_type "rake_accrual" entries)) 1%nat;;
  assert_eq "payouts" (length (of_type "settlement_payout" entries)) 2%nat;;
  assert_completed [hs_hand_id (snapshot state)]).

Definition orchestrates_showdown_with_settlement_persistence : Test := starting_in new_world (
  showdown ← tie_showdown;
  expect "orchestrated"
    (run_showdown_settlement_with_persistence even_state showdown RakePolicy_zero trace_id);;
  assert_stored 1 1;;
  entries ← entries;
  assert "entries" (negb (length entries =? 0)%nat)).

Definition chips_sum (l : list Chips) : M World string Chips :=
  expect_ok "sum" (checked_sum ChipsOps.ZERO l).
Definition showdown_settlement_reconciles_pot_plan_and_ledger_entries : Test :=
  starting_in new_world (
    let state := side_pot_state in
    showdown ← side_pot_showdown;
    plan ← expect "orchestrated"
      (run_showdown_settlement_with_persistence state showdown (mkRakePolicy 300) trace_id);
    total ← expect_ok "payout total" (payout_total plan);
    all ← expect_ok "plan total" (ChipsOps.checked_add total (pn_rake_amount plan));
    assert_eq "pot" all (hs_pot_total (snapshot state));;
    entries ← entries;
    ledger_payout_total ← chips_sum (of_type "settlement_payout" entries);
    ledger_rake_total ← chips_sum (of_type "rake_accrual" entries);
    assert_eq "payouts" ledger_payout_total total;;
    assert_eq "rake" ledger_rake_total (pn_rake_amount plan);;
    ledger_total ← expect_ok "ledger total"
      (ChipsOps.checked_add ledger_payout_total ledger_rake_total);
    assert_eq "ledger" ledger_total (hs_pot_total (snapshot state));;
    records ← expect "records" (list_settlement_records_by_hand (hs_hand_id (snapshot state)));
    assert_eq "records" (length records) 1%nat;;
    record ← expect_some "record" (head records);
    found ← expect "read" (get_settlement_plan (sr_settlement_plan_id record));
    persisted_plan ← expect_some "plan" found;
    assert_eq "rake" (spr_rake_amount persisted_plan) (pn_rake_amount plan);;
    assert_eq "total" (spr_payout_total persisted_plan) total).

Definition orchestrates_direct_payouts_and_closes_when_confirmed : Test := starting_in new_world (
  showdown ← tie_showdown;
  expect "orchestrated" (run_direct_payouts (H := FakeWallet 6 false) even_state showdown
    RakePolicy_zero (mkPayoutInput two_addresses 1) trace_id);;
  assert_stored 1 2;;
  assert_completed [hand_id]).

Definition orchestrates_batch_payouts_and_closes_when_confirmed : Test := starting_in new_world (
  showdown ← tie_showdown;
  expect "orchestrated" (run_batch_payouts_and_alerts (H := FakeBatchWallet 6 false) even_state
    showdown RakePolicy_zero (mkPayoutInput two_addresses 1) trace_id None None);;
  assert_stored 1 1;;
  assert_completed [hand_id]).

Definition records_snapshot : M World string (list SettlementRecordInsert) :=
  gets (settlement_records_snapshot ∘ w_settlements).
Definition batch_payouts_failed_receipt_marks_manual_review_and_emits_alert : Test :=
  starting_in new_world (
    showdown ← tie_showdown;
    expect "orchestrated" (run_batch_payouts_and_alerts (H := FakeBatchWallet 6 true) even_state
      showdown RakePolicy_zero (mkPayoutInput two_addresses 1) trace_id FakeAlertSink
      FakeSettlementAuditSink);;
    assert_completed [];;
    records ← records_snapshot;
    assert "review" (has_record
      (λ r, bool_decide (sr_settlement_status r = "manual_review_required")) records);;
    assert_alerted;;
    assert_event "settlement_batch_receipt";;
    assert_event "settlement_manual_review_required").

Definition direct_payouts_failed_receipt_does_not_close_hand_and_updates_record_status : Test :=
  starting_in new_world (
    showdown ← tie_showdown;
    expect "orchestrated" (run_direct_payouts (H := FakeWallet 6 true) even_state showdown
      RakePolicy_zero (mkPayoutInput two_addresses 1) trace_id);;
    assert_completed [];;
    records ← records_snapshot;
    assert "review" (has_record (λ r, bool_decide (sr_settlement_status r = "manual_review_required")
      && match sr_error_detail r with
         | Some d => contains "manual review required" d
         | None => false
         end) records);;
    assert "retries" (has_record (λ r, (1 <=? sr_retry_count r)%Z) records)).

Definition direct_payout_failures_emit_settlement_alerts : Test := starting_in new_world (
  showdown ← tie_showdown;
  expect "orchestrated" (run_direct_payouts_and_alerts (H := FakeWallet 6 true) even_state showdown
    RakePolicy_zero (mkPayoutInput two_addresses 1) trace_id FakeAlertSink None);;
  assert_alerted).

Definition direct_payout_flow_emits_settlement_behavior_audits : Test := starting_in new_world (
  showdown ← tie_showdown;
  expect "orchestrated" (run_direct_payouts_and_alerts (H := FakeWallet 6 true) even_state showdown
    RakePolicy_zero (mkPayoutInput two_addresses 1) trace_id None FakeSettlementAuditSink);;
  assert_event "settlement_payout_submitted";;
  assert_event "settlement_payout_receipt";;
  assert_event "settlement_manual_review_required").

(** ** The suite *)

Definition settlement_suite : list Test :=
  [build_plan_splits_evenly_with_deterministic_remainder;
   build_plan_applies_rake_bps_before_split;
   rake_rounds_down_to_chain_unit;
   build_plan_rejects_invalid_rake_policy;
   build_plan_from_pot_awards_handles_main_and_side_pot;
   build_plan_from_pot_awards_rejects_winner_outside_eligible;
   build_plan_from_pot_awards_applies_rake_proportionally;
   pot_award_rake_rounding_and_remainder_apportion_is_deterministic;
   record_plan_writes_rake_and_payout_entries;
   submit_direct_payouts_sends_one_transfer_per_payout;
   submit_direct_payouts_requires_seat_address_mapping;
   check_payout_submissions_applies_confirmation_threshold;
   batch_payout_adapter_interface_builds_and_checks_receipt;
   decrypt_room_signing_key_aes256_gcm_roundtrip;
   decrypt_room_signing_key_fails_on_aad_mismatch;
   settlement_service_loads_and_decrypts_active_room_key;
   mark_failed_receipts_for_manual_review_updates_only_failed_receipts;
   parse_hex_u64_parses_evm_quantities;
   settlement_batch_id_is_stable_for_same_room_and_hand;
   batch_settlement_adapter_encodes_contract_call_data;
   builds_settlement_plan_from_main_and_side_pots_via_showdown;
   orchestrates_showdown_plan_record_and_room_close;
   orchestrates_showdown_with_settlement_persistence;
   showdown_settlement_reconciles_pot_plan_and_ledger_entries;
   orchestrates_direct_payouts_and_closes_when_confirmed;
   orchestrates_batch_payouts_and_closes_when_confirmed;
   batch_payouts_failed_receipt_marks_manual_review_and_emits_alert;
   direct_payouts_failed_receipt_does_not_close_hand_and_updates_record_status;
   direct_payout_failures_emit_settlement_alerts;
   direct_payout_flow_emits_settlement_behavior_audits].

(** Every test of settlement passes on the model. *)
Theorem settlement_suite_passes : Forall (λ t, t = Ok tt) settlement_suite.
Proof. vm_compute. by repeat constructor. Qed.
End SettlementSuite.
