(* ===== verification/RoomTests.v ===== *)
(** The tests of the room actor and of the gateway, run on the model, a Module for each. *)

From stdpp Require Import base tactics option list gmap strings pretty.
From Stdlib Require Import NArith ZArith.
From S2P Require Import Prelude.
From S2P Require Import Text.
From S2P Require Import Domain.
From S2P Require Import Ambient.
From S2P Require Import EngineState.
From S2P Require Import Pots.
From S2P Require Import Engine.
From S2P Require Import LedgerStore.
From S2P Require Import AgentAuth.
From S2P Require Import AgentAuthProps.
From S2P Require Import JsonRpc.
From S2P Require Import SeatCrypto.
From S2P Require Import SeatCryptoProps.
From S2P Require Import TableService.
From S2P Require Import RoomDemo.
From S2P Require Import GatewayTypes.
From S2P Require Import GatewayLimits.
From S2P Require Import GatewayHandlers.
From S2P Require Import RoomHandles.
From S2P Require Import Testing.

(** ** The tests of the room actor and of the sealing of cards (the [tests] of
    [table-service/src/lib.rs] and [seat-crypto/src/lib.rs]), run on the model.

    Nine tests of the room were written when one seat that is ready started a hand; the
    actor asks for two ([table-service/src/lib.rs], line 554), so they fail, each at the
    assertion that [stale_room_tests] names. *)

Module RoomSuite.
From Stdlib Require Strings.Byte Strings.String.

Local Open Scope string_scope.
Local Open Scope list_scope.
Local Open Scope N_scope.

(** ** Sealing *)

#[local] Existing Instances toy_crypto toy_uuid_text.
#[local] Instance byte_decision : EqDecision Byte.byte := Byte.byte_eq_dec.

Definition bytes_of (s : string) : Bytes := String.list_byte_of_string s.
Record X25519KeyPair := mkKeyPair { kp_secret : Bytes; kp_public : Bytes }.
Definition key_pair (n : N) : X25519KeyPair :=
  let secret := replicate 32 (default Byte.x00 (Byte.of_N n)) in
  mkKeyPair secret (x25519_public secret).
#[local] Instance counted_secrets : EphemeralSecrets N :=
  {| random_secret n := (n + 1, kp_secret (key_pair n)) |}.

Definition placeholder_decode_roundtrip : Test := starting_in tt (
  let env := new_placeholder "k1" (bytes_of "hello") in
  decoded ← expect_ok "decode" (decode_ciphertext env);
  assert_eq "hello" decoded (bytes_of "hello")).

Definition x25519_aead_roundtrip : Test := starting_in 50 (
  let recipient := key_pair 9 in
  let aad := mkSeatEventAad 7 77 2 9 in
  let plaintext := bytes_of "{cards:[As,Kd]}" in
  envelope ← expect "encrypt"
    (encrypt_for_recipient_x25519 "seat-key-1" (kp_public recipient) aad plaintext);
  decrypted ← expect_ok "decrypt"
    (decrypt_with_recipient_x25519 (kp_secret recipient) aad envelope);
  assert_eq "plaintext" decrypted plaintext;;
  assert_eq "algorithm" (ce_algorithm envelope) ALG_X25519_CHACHA20POLY1305;;
  assert "ephemeral" (bool_decide (is_Some (ce_ephemeral_pubkey_b64 envelope)))).

Definition aad_mismatch_fails_decrypt : Test := starting_in 50 (
  let recipient := key_pair 9 in
  let aad := mkSeatEventAad 7 77 1 1 in
  envelope ← expect "encrypt"
    (encrypt_for_recipient_x25519 "seat-key-1" (kp_public recipient) aad (bytes_of "secret"));
  let wrong_aad := mkSeatEventAad (ad_room_id aad) (ad_hand_id aad) (ad_seat_id aad) 2 in
  err ← expect_err "aad mismatch"
    (lift_result (decrypt_with_recipient_x25519 (kp_secret recipient) wrong_aad envelope));
  assert "aead" (match err with Aead => true | _ => false end)).

Definition hole_cards_payload_helper_encrypts_and_decrypts : Test := starting_in 50 (
  let recipient := key_pair 9 in
  let aad := mkSeatEventAad 7 77 3 1 in
  let plaintext := bytes_of "{hole_cards:[Ah,Qc]}" in
  payload ← expect "encrypt payload"
    (encrypt_hole_cards_dealt_payload "seat-key-2" (kp_public recipient) aad plaintext);
  decrypted ← expect_ok "decrypt payload"
    (decrypt_with_recipient_x25519 (kp_secret recipient) aad (hc_envelope payload));
  assert_eq "plaintext" decrypted plaintext).

(** The world is the counter of secrets and what the audit sink has seen. *)
#[local] Instance audited_secrets : EphemeralSecrets (N * list HoleCardsDeliveryAuditEvent) :=
  {| random_secret '(n, events) := ((n + 1, events), kp_secret (key_pair n)) |}.
Definition hole_cards_payload_helper_with_audit_emits_event : Test := starting_in (50, []) (
  let recipient := key_pair 9 in
  let aad := mkSeatEventAad 7 77 4 2 in
  let sink event := modify (λ '(n, events), (n, events ++ [event])) in
  payload ← expect "encrypt payload"
    (encrypt_hole_cards_dealt_payload_with_audit "seat-key-3" (kp_public recipient) aad
       (bytes_of "{hole_cards:[As,Kd]}") (Some sink));
  events ← gets snd;
  assert_eq "events" (length events) 1%nat;;
  event ← expect_some "event" (head events);
  assert_eq "room" (ha_room_id event) (ad_room_id aad);;
  assert_eq "hand" (ha_hand_id event) (ad_hand_id aad);;
  assert_eq "seat" (ha_seat_id event) (ad_seat_id aad);;
  assert_eq "sequence" (ha_event_seq event) (ad_event_seq aad);;
  assert_eq "algorithm" (ha_algorithm event) (ce_algorithm (hc_envelope payload));;
  assert_eq "key" (ha_key_id event) "seat-key-3";;
  assert "length" (0 <? ha_ciphertext_len event)%nat).

(** ** A process with rooms

    A world with a clock, a counter of identifiers and of secrets, no node and a deck in
    order. *)

#[local] Existing Instances demo_clock demo_instant demo_ids demo_offline.
#[local] Instance ordered_deck_shuffler : Shuffler DemoWorld := {| draw_shuffle w := (w, id) |}.
#[local] Instance room_secrets : EphemeralSecrets DemoWorld :=
  {| random_secret w := (mkDemoWorld (dw_time w) (dw_next_id w + 1), kp_secret (key_pair (dw_next_id w))) |}.

(** The plaintext of the cards as their two bytes, the payload as an object. *)
Definition two_cards (j : Json) : option Bytes :=
  match j with
  | JObj [(_, JArr [JNum a; JNum b])] =>
      x ← Byte.of_N (Z.to_N a); y ← Byte.of_N (Z.to_N b); Some [x; y]
  | _ => None
  end.
#[local] Instance room_codec : RoomCodec := {|
  json_to_vec := two_cards;
  cipher_payload_to_value p := Some (payload_json p);
  pubkey_from_hex s := if (String.length s =? 32)%nat then Some (bytes_of s) else None;
|}.
Definition key_text (k : X25519KeyPair) : string := String.string_of_list_byte (kp_public k).

#[local] Instance rooms : RoomActors (House DemoWorld) := house_actors RoomActorConfig_default.
Abbreviation Process := (House DemoWorld).

Definition room_id : RoomId := 7.
Definition new_process : Process := mkHouse (mkDemoWorld 1000 100) ∅ 0 0.
Definition spawned : M Process string RoomHandle :=
  λ ho, let '(ho, h) := house_spawn room_id ho in (ho, Ok h).

(** [tokio::time::sleep]: the actor works off what it has put into its own mailbox. *)
Definition pause (h : RoomHandle) : M Process string unit :=
  modify (house_work RoomActorConfig_default h).

(** What the in-memory sink holds of the room. *)
Definition sink_of (h : RoomHandle) : M Process string InMemoryRoomEventSink :=
  gets (λ ho, match ho_tasks ho !! handle_sender h with
    | None => InMemoryRoomEventSink_new
    | Some t => fst (sink_outputs in_memory_event_sink (tk_out t) InMemoryRoomEventSink_new)
    end).
Definition hand_events (h : RoomHandle) : M Process string (list HandEvent) :=
  sink ← sink_of h; mret (hand_events_snapshot sink).
Definition snapshot_of (h : RoomHandle) : M Process string HandSnapshot :=
  state ← expect "state" (room_get_state h);
  expect_some "snapshot" state.
Definition is_kind (p : HandEventKind → bool) (events : list HandEvent) : bool :=
  existsb (p ∘ he_kind) events.
Definition hand_closed (k : HandEventKind) : bool := match k with HandClosed => true | _ => false end.
Definition changed_to (street : Street) (k : HandEventKind) : bool :=
  match k with StreetChanged s => bool_decide (s = street) | _ => false end.

(** ** The actor *)

(** A seat with an address and keys; the texts differ from test to test only. *)
Definition bind_seat (h : RoomHandle) (seat : SeatId) (card_key : string) : M Process string unit :=
  expect "bind addr" (room_bind_address h seat ("cfx:seat" +:+ pretty seat));;
  expect "bind keys" (room_bind_session_keys h seat card_key ("sigpk" +:+ pretty seat)
                        "x25519+ed25519" ("proof" +:+ pretty seat)).
Definition callback (tx_hash status : string) (confirmations : N) (hand_id : option HandId)
    (seat_id : option SeatId) (action_seq : option N) (failure_reason : option string)
    : ChainTxVerifiedCallback :=
  mkChainCallback tx_hash status confirmations hand_id seat_id action_seq failure_reason.

Definition room_actor_records_chain_callback_behavior_event : Test := starting_in new_process (
  room ← spawned;
  expect "join" (room_join room 0);;
  expect "callback"
    (room_chain_tx_verified room (callback "0xabc" "matched" 5 None (Some 0) (Some 1) None));;
  pause room;;
  sink ← sink_of room;
  assert "behavior events" (2 <=? behavior_events_len sink)%nat).

Definition room_ready_emits_hand_started_events_when_bindings_present : Test :=
  starting_in new_process (
    room ← spawned;
    expect "join" (room_join room 0);;
    bind_seat room 0 "encpk";;
    expect "ready" (room_ready room 0);;
    pause room;;
    events ← hand_events room;
    assert "hand events" (2 <=? length events)%nat).

Definition check_private_event (key0 key1 : X25519KeyPair) (ev : SeatPrivateEvent)
    : M Process string unit :=
  assert_eq "name" (sp_event_name ev) "hole_cards_dealt";;
  payload ← expect_some "parse payload" (json_payload (sp_payload ev));
  let secret := kp_secret (if sp_seat_id ev =? 0 then key0 else key1) in
  plaintext ← expect_ok "decrypt"
    (decrypt_with_recipient_x25519 secret (hc_aad payload) (hc_envelope payload));
  assert_eq "cards" (length plaintext) 2%nat.
Definition room_ready_emits_encrypted_hole_cards_private_events_for_each_seat : Test :=
  starting_in new_process (
    room ← spawned;
    let key0 := key_pair 9 in
    let key1 := key_pair 10 in
    expect "join 0" (room_join room 0);;
    expect "join 1" (room_join room 1);;
    bind_seat room 0 (key_text key0);;
    bind_seat room 1 (key_text key1);;
    expect "ready" (room_ready room 0);;
    pause room;;
    sink ← sink_of room;
    let private_events := private_events_snapshot sink in
    assert_eq "private events" (length private_events) 2%nat;;
    M_iter (check_private_event key0 key1) private_events).

Definition failed_chain_callback_aborts_current_hand : Test := starting_in new_process (
  room ← spawned;
  expect "join" (room_join room 0);;
  bind_seat room 0 "encpk";;
  expect "ready" (room_ready room 0);;
  pause room;;
  snapshot ← snapshot_of room;
  expect "callback" (room_chain_tx_verified room
    (callback "0xdead" "failed" 1 (Some (hs_hand_id snapshot)) (Some 0)
       (Some (hs_next_action_seq snapshot)) (Some "tx_failed")));;
  pause room;;
  after ← snapshot_of room;
  assert_eq "status" (hs_status after) HAborted;;
  events ← hand_events room;
  assert "hand events" (3 <=? length events)%nat).

Definition pending_chain_action_applies_only_after_matched_callback : Test :=
  starting_in new_process (
    room ← spawned;
    expect "join" (room_join room 0);;
    expect "join" (room_join room 1);;
    bind_seat room 0 "encpk0";;
    expect "ready" (room_ready room 0);;
    pause room;;
    before ← snapshot_of room;
    seat ← expect_some "acting seat" (hs_acting_seat_id before);
    let pending_action := mkPlayerAction room_id (hs_hand_id before) (hs_next_action_seq before) seat
                            Call None in
    expect "queue pending" (room_queue_pending_chain_action room "0xtx1" pending_action);;
    pause room;;
    still_before ← snapshot_of room;
    assert_eq "waiting" (hs_next_action_seq still_before) (hs_next_action_seq before);;
    expect "matched callback" (room_chain_tx_verified room
      (callback "0xtx1" "matched" 3 (Some (hs_hand_id before)) (Some (pa_seat_id pending_action))
         (Some (pa_action_seq pending_action)) None));;
    pause room;;
    after ← snapshot_of room;
    assert_eq "played" (hs_next_action_seq after) (hs_next_action_seq before + 1);;
    events ← hand_events room;
    assert "hand events" (4 <=? length events)%nat).

(** Both seats join and are bound, and those of the list get ready: in the tests it is
    seat 0 alone. *)
Section BothSeated.
Context (ready_seats : list SeatId).
Definition two_seats_bound (room : RoomHandle) : M Process string unit :=
  M_iter (λ seat, expect "join" (room_join room seat);;
                  bind_seat room seat ("encpk" +:+ pretty seat)) [0; 1];;
  M_iter (λ seat, expect "ready" (room_ready room seat)) ready_seats;;
  pause room.
Definition next_action (ty : HandSnapshot → ActionType) (s : HandSnapshot)
    : M Process string PlayerAction :=
  seat ← expect_some "acting seat" (hs_acting_seat_id s);
  mret (mkPlayerAction room_id (hs_hand_id s) (hs_next_action_seq s) seat (ty s) None).

Definition two_checks_emit_street_changed_before_next_turn : Test := starting_in new_process (
  room ← spawned;
  two_seats_bound room;;
  snapshot ← snapshot_of room;
  action ← next_action (λ _, Call) snapshot;
  expect "act 1" (room_act room action);;
  snapshot ← snapshot_of room;
  action ← next_action (λ _, Check) snapshot;
  expect "act 2" (room_act room action);;
  pause room;;
  events ← hand_events room;
  '(street_idx, street_event) ← expect_some "street changed event"
    (list_find (λ e, Is_true (changed_to Flop (he_kind e))) events);
  '(turn_idx, _) ← expect_some "next turn after street change"
    (list_find (λ e, Is_true (match he_kind e with TurnStarted _ => true | _ => false end
                              && (he_event_seq street_event <? he_event_seq e))) events);
  assert "order" (street_idx <? turn_idx)%nat).

Definition call_then_check (s : HandSnapshot) : ActionType :=
  if bool_decide (hs_street s = Preflop) && (hs_next_action_seq s =? 1) then Call else Check.
(** [for _ in 0..8 { .. if showdown { break; } }] *)
Fixpoint walk (n : nat) (room : RoomHandle) (s : HandSnapshot) : M Process string HandSnapshot :=
  match n with
  | O => mret s
  | S n =>
      action ← next_action call_then_check s;
      expect "check" (room_act room action);;
      s ← snapshot_of room;
      if bool_decide (hs_status s = HShowdown) then mret s else walk n room s
  end.

Definition river_completion_emits_showdown_street_without_hand_closed : Test :=
  starting_in new_process (
    room ← spawned;
    two_seats_bound room;;
    snapshot ← snapshot_of room;
    snapshot ← walk 8 room snapshot;
    assert_eq "status" (hs_status snapshot) HShowdown;;
    assert_eq "street" (hs_street snapshot) Showdown;;
    assert_eq "acting" (hs_acting_seat_id snapshot) None;;
    events ← hand_events room;
    assert "showdown street" (is_kind (changed_to Showdown) events);;
    assert "showdown transition should not close hand before settlement"
      (negb (is_kind hand_closed events))).

Definition complete_settlement_closes_hand_after_showdown : Test := starting_in new_process (
  room ← spawned;
  two_seats_bound room;;
  snapshot ← snapshot_of room;
  snapshot ← walk 8 room snapshot;
  assert_eq "status" (hs_status snapshot) HShowdown;;
  expect "complete settlement" (room_complete_settlement room (hs_hand_id snapshot));;
  pause room;;
  after ← snapshot_of room;
  assert_eq "settled" (hs_status after) HSettled;;
  events ← hand_events room;
  assert "closed" (is_kind hand_closed events)).
End BothSeated.

Definition turn_timeout_auto_folds_and_settles_single_player_hand : Test := starting_in new_process (
  room ← spawned;
  expect "join" (room_join room 0);;
  bind_seat room 0 "encpk";;
  expect "ready" (room_ready room 0);;
  expect "send timeout" (send room (TurnTimeoutElapsed 1));;
  pause room;;
  snapshot ← snapshot_of room;
  assert_eq "status" (hs_status snapshot) HSettled;;
  assert_eq "acting" (hs_acting_seat_id snapshot) None;;
  assert_eq "next action" (hs_next_action_seq snapshot) 2;;
  sink ← sink_of room;
  assert "behavior events" (3 <=? behavior_events_len sink)%nat;;
  events ← hand_events room;
  assert "fold" (is_kind (λ k, match k with
    | ActionAccepted a => bool_decide (pa_action_type a = Fold)
    | _ => false
    end) events);;
  assert "closed" (is_kind hand_closed events);;
  assert "auto fold" (existsb (λ e, match rb_kind e with
    | TurnTimeoutAutoFold 0 1 => true
    | _ => false
    end) (behavior_events_snapshot sink))).

Definition stale_turn_timeout_generation_is_ignored : Test := starting_in new_process (
  room ← spawned;
  expect "join" (room_join room 0);;
  bind_seat room 0 "encpk";;
  expect "ready" (room_ready room 0);;
  pause room;;
  before ← snapshot_of room;
  assert_eq "running" (hs_status before) HRunning;;
  assert_eq "next action" (hs_next_action_seq before) 1;;
  expect "send stale timeout" (send room (TurnTimeoutElapsed 0));;
  pause room;;
  after ← snapshot_of room;
  assert_eq "still running" (hs_status after) HRunning;;
  assert_eq "same action" (hs_next_action_seq after) 1;;
  assert_eq "same seat" (hs_acting_seat_id after) (hs_acting_seat_id before)).

Definition get_engine_state_returns_full_state_snapshot : Test := starting_in new_process (
  room ← spawned;
  expect "join" (room_join room 0);;
  bind_seat room 0 "encpk";;
  expect "ready" (room_ready room 0);;
  found ← expect "state" (room_get_engine_state room);
  state ← expect_some "engine state" found;
  after ← snapshot_of room;
  assert_eq "hand" (hs_hand_id (snapshot state)) (hs_hand_id after);;
  assert_eq "room" (hs_room_id (snapshot state)) (hs_room_id after);;
  assert_eq "status" (hs_status (snapshot state)) (hs_status after);;
  assert_eq "pot" (p_main_pot (pot state)) (hs_pot_total after)).

(** ** The suites *)

Definition seat_crypto_suite : list Test :=
  [placeholder_decode_roundtrip; x25519_aead_roundtrip; aad_mismatch_fails_decrypt;
   hole_cards_payload_helper_encrypts_and_decrypts;
   hole_cards_payload_helper_with_audit_emits_event].
Definition room_suite : list Test :=
  [room_actor_records_chain_callback_behavior_event; get_engine_state_returns_full_state_snapshot].
(** The tests that suppose a hand with one ready seat, with the assertion each fails at. *)
Definition stale_room_tests : list (Test * string) :=
  [(room_ready_emits_hand_started_events_when_bindings_present, "hand events");
   (room_ready_emits_encrypted_hole_cards_private_events_for_each_seat, "private events");
   (failed_chain_callback_aborts_current_hand, "status");
   (pending_chain_action_applies_only_after_matched_callback, "acting seat");
   (two_checks_emit_street_changed_before_next_turn [0], "acting seat");
   (river_completion_emits_showdown_street_without_hand_closed [0], "acting seat");
   (complete_settlement_closes_hand_after_showdown [0], "acting seat");
   (turn_timeout_auto_folds_and_settles_single_player_hand, "status");
   (stale_turn_timeout_generation_is_ignored, "running")].

Theorem room_suites_pass : Forall (λ t, t = Ok tt) (seat_crypto_suite ++ room_suite).
Proof. vm_compute. by repeat constructor. Qed.

(** One ready seat does not start a hand, whatever the tests say. *)
Theorem stale_room_tests_fail : Forall (λ '(t, what), t = Err what) stale_room_tests.
Proof. vm_compute. by repeat constructor. Qed.

(** When the second seat gets ready too, the play they describe goes as they say. *)
Theorem with_both_ready_the_play_is_as_told :
  two_checks_emit_street_changed_before_next_turn [0; 1] = Ok tt ∧
  river_completion_emits_showdown_street_without_hand_closed [0; 1] = Ok tt ∧
  complete_settlement_closes_hand_after_showdown [0; 1] = Ok tt.
Proof. by vm_compute. Qed.
End RoomSuite.

(** ** The tests of the signed requests and of the gateway (the [tests] of
    [agent-auth/src/lib.rs] and [rpc-gateway/src/lib.rs]), run on the model: a service
    of rooms that accepts everything, a sink that remembers the rejections, a curve and a
    hash that are laws-abiding toys, and a printer of JSON. *)

Module GatewaySuite.
Local Open Scope string_scope.
Local Open Scope list_scope.
Local Open Scope N_scope.

#[local] Existing Instances toy_secp toy_hex toy_auth_uuid toy_date_text.

#[local] Existing Instance compact_text.

(** ** Signed requests *)

Definition room_id : RoomId := 7.
Definition hand_id : HandId := 77.
Definition the_time : DateTime := 1700000000000.

Definition canonical_json_sorts_object_keys_recursively : Test := starting_in tt (
  let input := JObj [("b", JNum 1); ("a", JObj [("z", JNum 2); ("y", JNum 3)])] in
  actual ← expect_ok "canonical json" (canonical_params_json input);
  assert_eq "text" actual
    ("{" +:+ quoted "a" +:+ ":{" +:+ quoted "y" +:+ ":3," +:+ quoted "z" +:+ ":2},"
     +:+ quoted "b" +:+ ":1}")).

Definition in_memory_replay_store_rejects_duplicates : Test :=
  starting_in (mkMutex false ∅ : InMemoryReplayNonceStore) (
    let key := mkReplayNonceKey 1 2 "n1" in
    expect "first insert" (consume_nonce_once key);;
    err ← expect_err "duplicate" (consume_nonce_once key);
    assert_eq "text" (auth_error_text err) (auth_error_text ReplayDetected)).

Definition in_memory_idempotency_store_rejects_duplicates : Test :=
  starting_in (mkMutex false ∅ : InMemoryActionIdempotencyStore) (
    let key := mkIdempotencyKey room_id hand_id 1 7 in
    expect "first insert" (consume_key_once key);;
    err ← expect_err "duplicate" (consume_key_once key);
    assert_eq "text" (auth_error_text err) (auth_error_text IdempotencyKeyConflict)).

Definition validate_request_window_accepts_recent_timestamp : Test := starting_in tt (
  expect_ok "accepted" (validate_request_window the_time (the_time - 1000) 5000 5000)).

Definition validate_request_window_rejects_expired_timestamp : Test := starting_in tt (
  err ← expect_err "rejected"
    (lift_result (validate_request_window the_time (the_time - 30000) 1000 5000));
  assert "expired" (match err with RequestExpired => true | _ => false end)).

Definition claim (seat_id : SeatId) (address card_key request_key algo : string) : SeatKeyBindingClaim :=
  mkBindingClaim None None room_id seat_id address card_key request_key algo the_time None.
Fixpoint repeated (n : nat) (s : string) : string :=
  match n with O => "" | S n => s +:+ repeated n s end.

Definition seat_key_binding_message_is_stable : Test := starting_in tt (
  let msg := build_seat_key_binding_message
               (claim 1 "cfx:abc" "encpk" "sigpk" "x25519+ed25519") in
  assert "address" (contains "seat_address=cfx:abc" msg);;
  assert "algorithm" (contains "key_algo=x25519+ed25519" msg)).

(** The toy curve has two keys. *)
Definition signing_key : SigningKey := true.
Definition other_key : SigningKey := false.
Definition address_of (k : SigningKey) : string :=
  evm_address_from_secp256k1_verifying_key (verifying_key k).

Definition verify_evm_personal_signature_roundtrip : Test := starting_in tt (
  let message := bytes_of_string "hello-evm-auth" in
  signature ← expect_ok "sign" (sign_evm_personal_message_secp256k1 signing_key message);
  expect_ok "verify" (verify_evm_personal_signature (address_of signing_key) message signature)).

Definition verify_evm_personal_signature_rejects_mismatch_address : Test := starting_in tt (
  let message := bytes_of_string "hello-evm-auth" in
  signature ← expect_ok "sign" (sign_evm_personal_message_secp256k1 signing_key message);
  err ← expect_err "mismatch"
    (lift_result (verify_evm_personal_signature (address_of other_key) message signature));
  assert "mismatch" (match err with EthereumAddressMismatch => true | _ => false end)).

Definition key_claim (k : SigningKey) : SeatKeyBindingClaim :=
  claim 2 (address_of k) (repeated 32 "11") (repeated 32 "22") "x25519+evm".
Definition proof_of (k : SigningKey) (c : SeatKeyBindingClaim) : result AuthError string :=
  sign_evm_personal_message_secp256k1 k (bytes_of_string (build_seat_key_binding_message c)).

Definition verify_seat_key_binding_proof_evm_roundtrip : Test := starting_in tt (
  let claim := key_claim signing_key in
  sig ← expect_ok "proof sig" (proof_of signing_key claim);
  expect_ok "verify" (verify_seat_key_binding_proof_evm claim sig)).

Definition verify_seat_key_binding_proof_evm_rejects_mismatch_address : Test := starting_in tt (
  sig ← expect_ok "proof sig" (proof_of signing_key (key_claim signing_key));
  err ← expect_err "mismatch"
    (lift_result (verify_seat_key_binding_proof_evm (key_claim other_key) sig));
  assert "mismatch" (match err with EthereumAddressMismatch => true | _ => false end)).

(** ** The gateway *)

(** The world: the rejections, the nonces and a counter of identifiers. *)
Record Gate := mkGate {
  gt_events : list RequestRejectAuditEvent;
  gt_nonces : InMemoryReplayNonceStore;
  gt_ids : N;
}.
Definition new_gate : Gate := mkGate [] (mkMutex false ∅) 1000.
#[local] Instance gate_clock : Clock Gate := {| utc_now _ := the_time |}.
#[local] Instance gate_ids : FreshIds Gate :=
  {| fresh_uuid g := (mkGate (gt_events g) (gt_nonces g) (gt_ids g + 1), gt_ids g) |}.

Definition dummy_create_room {W} `{FreshIds W} (request : RoomCreateRequest)
    : M W RpcGatewayError RoomSummary :=
  room_id ← (match rc_room_id request with Some id => mret id | None => new_uuid end);
  mret (mkRoomSummary room_id "active" None).
#[local] Instance DummyRoomService {W} `{FreshIds W} : RoomServicePort W := {|
  svc_create_room := dummy_create_room;
  svc_list_rooms _ := mret [];
  svc_join _ := mret tt;
  svc_ready _ := mret tt;
  svc_bind_address _ := mret tt;
  svc_bind_session_keys _ := mret tt;
  svc_get_state _ := mret None;
  svc_get_legal_actions _ _ := mret [];
  svc_get_private_payloads _ := mret [];
  svc_act _ := mret tt;
|}.
Definition InMemoryRejectAuditSink : RequestRejectAuditSink Gate :=
  λ event, modify (λ g, mkGate (gt_events g ++ [event]) (gt_nonces g) (gt_ids g)).
Definition the_nonces : ReplayNonceKey → M Gate AuthError unit :=
  λ key, zoom gt_nonces (λ n g, mkGate (gt_events g) n (gt_ids g)) (consume_nonce_once key).
Definition AlwaysFailGameActSignatureVerifier : RequestSignatureVerifier Gate :=
  mkVerifier (λ _, throw "signature verification failed") (λ _, throw "signature verification failed")
    (verify_room_ready default_verifier) (λ _, throw "signature verification failed").

Definition sample_meta : SignedRequestMeta := mkMeta 42 "nonce-1" the_time 30000 "pk1" "sig".
Definition expired_meta : SignedRequestMeta :=
  mkMeta 42 "nonce-1" (the_time - 600000) 1000 "pk1" "sig".
Definition act_request (action_seq : ActionSeq) (seat_id : SeatId) (action_type : string)
    (amount tx_hash : option string) (meta : SignedRequestMeta) : GameActRequest :=
  mkGameAct room_id hand_id action_seq seat_id action_type amount tx_hash meta.

(** A handler as a step of a test, and the assertions on the rejections. *)
Definition answer {A} (handler : Gate → Gate * ResponseEnvelope A)
    : M Gate string (ResponseEnvelope A) := λ g, let '(g, r) := handler g in (g, Ok r).
Definition same_reason (a b : RequestRejectReason) : bool :=
  match a, b with
  | RequestExpiredOrInvalidWindow, RequestExpiredOrInvalidWindow
  | MissingOrInvalidSignature, MissingOrInvalidSignature
  | RejectedKeyBindingProof, RejectedKeyBindingProof
  | ReplayRejected, ReplayRejected => true
  | _, _ => false
  end.
Definition one_rejection (reason : RequestRejectReason) (method : string)
    : M Gate string RequestRejectAuditEvent :=
  events ← gets gt_events;
  assert_eq "events" (length events) 1%nat;;
  event ← expect_some "event" (head events);
  assert "reason" (same_reason (rj_reason event) reason);;
  assert_eq "method" (rj_method event) method;;
  mret event.

Definition parse_action_type_maps_expected_values : Test := starting_in tt (
  fold ← expect_ok "fold" (parse_action_type "fold");
  assert_eq "fold" fold Fold;;
  check ← expect_ok "check" (parse_action_type "check");
  assert_eq "check" check Check;;
  expect_err "raise" (lift_result (parse_action_type "raise"));;
  mret tt).

Definition parse_amount_parses_u128_string : Test := starting_in tt (
  amount ← expect_ok "amount" (parse_amount_u128 (Some "42"));
  assert_eq "amount" amount (Some 42);;
  expect_err "not a number" (lift_result (parse_amount_u128 (Some "not-a-number")));;
  mret tt).

Definition validate_game_act_funding_fields_requires_amount_and_tx_for_monetary_actions : Test :=
  starting_in tt (
    expect_err "nothing paid"
      (lift_result (validate_game_act_funding_fields (act_request 1 0 "call" None None sample_meta)));;
    expect_ok "paid"
      (validate_game_act_funding_fields
         (act_request 1 0 "call" (Some "10") (Some "0xabc") sample_meta))).

Definition validate_game_act_funding_fields_rejects_amount_or_tx_on_non_monetary_actions : Test :=
  starting_in tt (
    expect_err "paid for a check"
      (lift_result (validate_game_act_funding_fields
         (act_request 1 0 "check" (Some "1") None sample_meta)));;
    mret tt).

Definition to_player_action_translates_request : Test := starting_in tt (
  action ← expect_ok "convert"
    (to_player_action (act_request 7 2 "call" (Some "100") (Some "0xabc") sample_meta));
  assert_eq "type" (pa_action_type action) Call;;
  assert_eq "amount" (pa_amount action) (Some 100)).

Definition validate_request_meta_rejects_expired_requests : Test := starting_in tt (
  expect_err "expired" (lift_result (validate_request_meta the_time expired_meta));;
  mret tt).

Definition is_internal_error (c : ErrorCode) : bool :=
  match c with CodeInternalError => true | _ => false end.
Definition rpc_result_err_builds_failure_payload : Test := starting_in tt (
  let reply := envelope_err CodeInternalError "boom" : ResponseEnvelope unit in
  assert "not ok" (negb (env_ok reply));;
  error ← expect_some "error" (env_error reply);
  assert "code" (is_internal_error (err_code error));;
  assert_eq "message" (err_message error) "boom").

Definition method_policy_requires_signature_for_game_act : Test := starting_in tt (
  let policy := method_policy "game.act" in
  assert "signature" (po_requires_signature policy);;
  assert "scope" (match po_scope policy with ScopeAgent => true | _ => false end)).

Definition is_forbidden (e : RpcGatewayError) : bool := match e with Forbidden => true | _ => false end.
Definition authorize_method_rejects_missing_signature_when_required : Test := starting_in tt (
  err ← expect_err "rejected" (lift_result (authorize_method "game.act" (mkAuthContext Agent false)));
  assert "forbidden" (is_forbidden err)).

Definition authorize_method_with_audit_records_missing_signature_rejection : Test :=
  starting_in new_gate (
    err ← expect_err "forbidden"
      (authorize_method_with_audit "game.act" (mkAuthContext Agent false) (Some sample_meta)
         (Some InMemoryRejectAuditSink));
    assert "forbidden" (is_forbidden err);;
    one_rejection MissingOrInvalidSignature "game.act";;
    mret tt).

Definition handle_game_act_with_audit_records_expired_request_rejection : Test :=
  starting_in new_gate (
    resp ← answer (handle_game_act_with_audit (Some InMemoryRejectAuditSink) None None
                     (act_request 1 0 "check" None None expired_meta));
    assert "refused" (negb (env_ok resp));;
    event ← one_rejection RequestExpiredOrInvalidWindow "game.act";
    assert_eq "request" (rj_request_id event) (Some (rm_request_id expired_meta));;
    assert_eq "seat" (rj_seat_id event) (Some 0);;
    assert_eq "action" (rj_action_seq event) (Some 1)).

Definition handle_bind_session_keys_with_audit_records_invalid_proof_rejection : Test :=
  starting_in new_gate (
    resp ← answer (handle_bind_session_keys_with_audit (Some InMemoryRejectAuditSink) None None
      (mkBindKeys room_id 1 "cfx:seat1" "deadbeef" "deadbeef" "x25519+evm" "not-a-valid-signature"
         sample_meta));
    assert "refused" (negb (env_ok resp));;
    event ← one_rejection RejectedKeyBindingProof "room.bind_session_keys";
    assert_eq "seat" (rj_seat_id event) (Some 1)).

(** A request with the proof of the key's owner. *)
Definition proven_request (request_verify_pubkey : string) : M Gate string RoomBindSessionKeysRequest :=
  let seat_address := address_of signing_key in
  let card_encrypt_pubkey := repeated 32 "11" in
  let key_algo := "x25519+evm" in
  proof_signature ← expect_ok "evm proof sig" (proof_of signing_key
    (claim 1 seat_address card_encrypt_pubkey request_verify_pubkey key_algo));
  mret (mkBindKeys room_id 1 seat_address card_encrypt_pubkey request_verify_pubkey key_algo
          proof_signature sample_meta).

Definition handle_bind_session_keys_with_audit_accepts_valid_evm_proof : Test :=
  starting_in new_gate (
    req ← proven_request (repeated 32 "22");
    resp ← answer (handle_bind_session_keys_with_audit (Some InMemoryRejectAuditSink) None None req);
    assert "accepted" (env_ok resp);;
    events ← gets gt_events;
    assert_eq "events" (length events) 0%nat).

Definition handle_game_act_with_audit_records_replay_rejection : Test := starting_in new_gate (
  let req := act_request 1 0 "check" None None sample_meta in
  let act := handle_game_act_with_audit (Some InMemoryRejectAuditSink) (Some the_nonces) None req in
  first ← answer act;
  assert "first" (env_ok first);;
  second ← answer act;
  assert "second" (negb (env_ok second));;
  event ← one_rejection ReplayRejected "game.act";
  assert_eq "request" (rj_request_id event) (Some (rm_request_id sample_meta))).

Definition handle_game_act_with_audit_records_signature_verifier_rejection : Test :=
  starting_in new_gate (
    resp ← answer (handle_game_act_with_audit (Some InMemoryRejectAuditSink) None
                     (Some AlwaysFailGameActSignatureVerifier)
                     (act_request 1 0 "check" None None sample_meta));
    assert "refused" (negb (env_ok resp));;
    one_rejection MissingOrInvalidSignature "game.act";;
    mret tt).

Definition handle_bind_address_with_audit_records_signature_verifier_rejection : Test :=
  starting_in new_gate (
    resp ← answer (handle_bind_address_with_audit (Some InMemoryRejectAuditSink) None
                     (Some AlwaysFailGameActSignatureVerifier)
                     (mkBindAddress room_id 0 "0xabc" sample_meta));
    assert "refused" (negb (env_ok resp));;
    one_rejection MissingOrInvalidSignature "room.bind_address";;
    mret tt).

Definition handle_bind_session_keys_with_audit_records_signature_verifier_rejection : Test :=
  starting_in new_gate (
    req ← proven_request "";
    resp ← answer (handle_bind_session_keys_with_audit (Some InMemoryRejectAuditSink) None
                     (Some AlwaysFailGameActSignatureVerifier) req);
    assert "refused" (negb (env_ok resp));;
    one_rejection MissingOrInvalidSignature "room.bind_session_keys";;
    mret tt).

Definition session_id_type_is_available_for_rpc_context : Test := starting_in new_gate (
  ctx ← build_request_context (Some 1) (Some 2) None;
  assert "session" (bool_decide (is_Some (cx_session_id ctx)));;
  assert "agent" (bool_decide (is_Some (cx_agent_id ctx)))).

(** ** The event bus *)

#[local] Instance counting_ids : FreshIds N := {| fresh_uuid n := (n + 1, n) |}.
Abbreviation Bus := (InMemoryEventBus * N)%type.
Definition new_bus : Bus := (InMemoryEventBus_new, 1000).
Definition hand_subscription : SubscribeRequest := mkSubscribe HandEvents room_id (Some hand_id) None.
Definition hand_event (name : string) (payload : Json) : EventEnvelope :=
  mkEvent HandEvents room_id (Some hand_id) None name payload.
Definition bus_is {A} `{EqDecision A} (what : string) (f : InMemoryEventBus → A) (x : A)
    : M Bus string unit :=
  y ← gets (f ∘ fst); assert_eq what y x.

Definition in_memory_event_bus_subscribe_publish_unsubscribe : Test := starting_in new_bus (
  sub_id ← expect "subscribe" (subscribe hand_subscription);
  matched ← expect "publish" (publish (hand_event "turn_started" (JObj [])));
  assert_eq "matched" matched 1;;
  bus_is "subscriptions" subscription_count 1%nat;;
  bus_is "published" published_count 1%nat;;
  expect "unsubscribe" (unsubscribe sub_id);;
  bus_is "subscriptions" subscription_count 0%nat).

Definition bus_answer {A} (handler : Bus → Bus * ResponseEnvelope A)
    : M Bus string (ResponseEnvelope A) := λ b, let '(b, r) := handler b in (b, Ok r).
Definition gateway_handles_subscribe_and_unsubscribe : Test := starting_in new_bus (
  subscribed ← bus_answer (handle_subscribe_events (mkSubscribe PublicRoomEvents room_id None None));
  assert "subscribed" (env_ok subscribed);;
  sub_id ← expect_some "sub id" (env_data subscribed);
  unsubscribed ← bus_answer (handle_unsubscribe_events (mkUnsubscribe sub_id));
  assert "unsubscribed" (env_ok unsubscribed)).

Definition receive_event (sub_id : string) : M Bus string (option EventEnvelope) :=
  λ '(b, w), let '(b, e) := channel_recv sub_id b in ((b, w), Ok e).
Definition in_memory_event_bus_stream_subscription_receives_matching_event : Test :=
  starting_in new_bus (
    sub_id ← expect "stream subscribe" (subscribe_stream hand_subscription);
    matched ← expect "publish" (publish (hand_event "hand_started" (JObj [("seq", JNum 1)])));
    assert_eq "matched" matched 1;;
    received ← receive_event sub_id;
    ev ← expect_some "event" received;
    assert_eq "name" (ev_event_name ev) "hand_started";;
    expect "stream unsubscribe" (unsubscribe_stream sub_id);;
    bus_is "live" live_subscription_count 0%nat).

Definition in_memory_event_bus_disconnects_slow_stream_subscriber : Test :=
  starting_in (with_stream_buffer_capacity 1 InMemoryEventBus_new, 1000) (
    expect "stream subscribe" (subscribe_stream hand_subscription);;
    let mk_event n := hand_event ("e" +:+ pretty n) (JObj [("n", json_N n)]) in
    matched1 ← expect "publish1" (publish (mk_event 1));
    assert_eq "matched1" matched1 1;;
    matched2 ← expect "publish2" (publish (mk_event 2));
    assert_eq "matched2" matched2 0;;
    bus_is "live" live_subscription_count 0%nat;;
    bus_is "slow" slow_disconnect_count 1).

(** The methods of the module with subscriptions. *)
#[local] Instance no_params : ParamsParse := {|
  parse_room_create _ := Err "";
  parse_room_list _ := Err "";
  parse_room_ready _ := Err "";
  parse_bind_address _ := Err "";
  parse_bind_session_keys _ := Err "";
  parse_get_state _ := Err "";
  parse_get_legal_actions _ := Err "";
  parse_get_private_payloads _ := Err "";
  parse_game_act _ := Err "";
  parse_subscribe _ := Err "";
  parse_unsubscribe _ := Err "";
|}.
#[local] Instance bus_clock : Clock Bus := {| utc_now _ := the_time |}.
#[local] Instance bus_ids : FreshIds Bus := {| fresh_uuid '(b, n) := ((b, n + 1), n) |}.
Definition is_registered (method : string) : bool :=
  bool_decide (is_Some (rpc_method (W := Bus) (mkRpcContext None None None) method JNull)).
Definition build_rpc_module_with_subscriptions_registers_subscribe_methods : Test := starting_in tt (
  assert "subscribe" (is_registered "subscribe.events");;
  assert "unsubscribe" (is_registered "unsubscribe.events")).

(** ** The limiters *)

Definition connection_concurrency_limiter_rejects_when_limit_reached : Test :=
  starting_in (ConnectionConcurrencyLimiter_new 1) (
    permit ← expect "first acquire" (try_acquire "conn-1");
    l ← get;
    assert_eq "active" (active_for l "conn-1") 1;;
    err ← expect_err "should reject second acquire" (try_acquire "conn-1");
    assert "too many" (match err with TooManyConcurrentRequests => true | _ => false end);;
    modify (release_permit permit);;
    l ← get;
    assert_eq "none" (active_for l "conn-1") 0;;
    expect "acquire after release" (try_acquire "conn-1");;
    mret tt).

Definition connection_rate_limiter_rejects_when_limit_reached : Test :=
  starting_in (ConnectionRateLimiter_new 1 60000) (
    expect "first" (check_and_record "conn-1" 5);;
    l ← get;
    assert_eq "count" (count_for l "conn-1") 1;;
    err ← expect_err "second should be rejected" (check_and_record "conn-1" 6);
    assert "too many" (match err with TooManyRequests => true | _ => false end)).

Definition run_with_connection_limit_wraps_handler_execution : Test :=
  starting_in (ConnectionConcurrencyLimiter_new 1, tt) (
    result ← expect "handler result" (run_with_connection_limit "conn-1" (mret 123));
    assert_eq "result" result 123;;
    l ← gets fst;
    assert_eq "active" (active_for l "conn-1") 0).

Definition handle_room_create_returns_created_room : Test := starting_in new_gate (
  resp ← answer (handle_room_create (mkRoomCreate (Some room_id)));
  assert "ok" (env_ok resp);;
  data ← expect_some "room" (env_data resp);
  assert_eq "room" (sum_room_id data) room_id;;
  assert_eq "status" (sum_status data) "active").

(** ** The suites *)

Definition auth_suite : list Test :=
  [canonical_json_sorts_object_keys_recursively;
   in_memory_replay_store_rejects_duplicates;
   in_memory_idempotency_store_rejects_duplicates;
   validate_request_window_accepts_recent_timestamp;
   validate_request_window_rejects_expired_timestamp;
   seat_key_binding_message_is_stable;
   verify_evm_personal_signature_roundtrip;
   verify_evm_personal_signature_rejects_mismatch_address;
   verify_seat_key_binding_proof_evm_roundtrip;
   verify_seat_key_binding_proof_evm_rejects_mismatch_address].
Definition gateway_suite : list Test :=
  [parse_action_type_maps_expected_values;
   parse_amount_parses_u128_string;
   validate_game_act_funding_fields_requires_amount_and_tx_for_monetary_actions;
   validate_game_act_funding_fields_rejects_amount_or_tx_on_non_monetary_actions;
   to_player_action_translates_request;
   validate_request_meta_rejects_expired_requests;
   rpc_result_err_builds_failure_payload;
   method_policy_requires_signature_for_game_act;
   authorize_method_rejects_missing_signature_when_required;
   authorize_method_with_audit_records_missing_signature_rejection;
   handle_game_act_with_audit_records_expired_request_rejection;
   handle_bind_session_keys_with_audit_records_invalid_proof_rejection;
   handle_bind_session_keys_with_audit_accepts_valid_evm_proof;
   handle_game_act_with_audit_records_replay_rejection;
   handle_game_act_with_audit_records_signature_verifier_rejection;
   handle_bind_address_with_audit_records_signature_verifier_rejection;
   handle_bind_session_keys_with_audit_records_signature_verifier_rejection;
   session_id_type_is_available_for_rpc_context;
   in_memory_event_bus_subscribe_publish_unsubscribe;
   gateway_handles_subscribe_and_unsubscribe;
   in_memory_event_bus_stream_subscription_receives_matching_event;
   in_memory_event_bus_disconnects_slow_stream_subscriber;
   build_rpc_module_with_subscriptions_registers_subscribe_methods;
   connection_concurrency_limiter_rejects_when_limit_reached;
   connection_rate_limiter_rejects_when_limit_reached;
   run_with_connection_limit_wraps_handler_execution;
   handle_room_create_returns_created_room].

(** Every test of the signed requests and of the gateway passes on the model. *)
Theorem gateway_suites_pass : Forall (λ t, t = Ok tt) (auth_suite ++ gateway_suite).
Proof. vm_compute. by repeat constructor. Qed.
End GatewaySuite.
