(* ===== verification/AppTests.v ===== *)
(** The tests of [app-server], run on the model. First the process in which they run: the
    room service beside its rooms, the in-memory stores, the event bus, and what the fakes
    of the tests remember; identifiers are counted up, the deck is in order, there is no
    node. Then the tests of the sinks, the outbox, the service and the settlement; at last,
    in the Module [Flows], those of [integration_flows.rs]. *)

From stdpp Require Import base tactics option list gmap strings pretty.
From Stdlib Require Import NArith ZArith.
From S2P Require Import Prelude.
From S2P Require Import Text.
From S2P Require Import Domain.
From S2P Require Import Ambient.
From S2P Require Import EngineState.
From S2P Require Import Engine.
From S2P Require Import LedgerStore.
From S2P Require Import AuditStore.
From S2P Require Import Settlement.
From S2P Require Import SettlementService.
From S2P Require Import AgentAuth.
From S2P Require Import AgentAuthProps.
From S2P Require Import JsonRpc.
From S2P Require Import ChainWatcher.
From S2P Require Import Orchestrator.
From S2P Require Import AutoSettlement.
From S2P Require Import SeatCrypto.
From S2P Require Import SeatCryptoProps.
From S2P Require Import TableService.
From S2P Require Import RoomDemo.
From S2P Require Import GatewayTypes.
From S2P Require Import GatewayLimits.
From S2P Require Import GatewayHandlers.
From S2P Require Import RoomHandles.
From S2P Require Import RoomService.
From S2P Require Import RoomServiceProps.
From S2P Require Import AppSinksProps.
From S2P Require Import OpsHttp.
From S2P Require Import AppSinks.
From S2P Require Import SettlementRooms.
From S2P Require Import DomainJson.
From S2P Require Import Testing.

Local Open Scope string_scope.
Local Open Scope list_scope.
Local Open Scope N_scope.

#[export] Existing Instances toy_crypto toy_uuid_text toy_secp toy_hex toy_date_text compact_text.

(** ** The world of a process *)

Record Stores := mkStores {
  st_chain : InMemoryChainTxRepository;
  st_ledger : InMemoryLedgerRepository;
  st_settlements : InMemorySettlementPersistenceRepository;
  st_audit : InMemoryAuditRepository;
  st_bus : InMemoryEventBus;
  st_provider : InMemoryShowdownInputProvider;
}.
(** What the fakes hold: the chain alerts, the hand that the fake port shows, the hands
    that it has closed; and whether the provider of showdown inputs was given its
    repository. *)
Record Fakes := mkFakes {
  fk_alerts : list ChainVerificationAlert;
  fk_engine_state : option EngineState;
  fk_completed : list (RoomId * HandId);
  fk_persisting : bool;
}.
Record Server := mkServer { sv_demo : DemoWorld; sv_stores : Stores; sv_fakes : Fakes }.

Definition new_audit : InMemoryAuditRepository :=
  mkInMemoryAudit (mkMutex false []) (mkMutex false []) (mkMutex false []) (mkMutex false []).
Definition new_stores : Stores :=
  mkStores InMemoryChainTx_new (mkMutex false []) InMemorySettlement_new new_audit
    InMemoryEventBus_new InMemoryProvider_new.
Definition new_server : Server :=
  mkServer (mkDemoWorld 1700000000000 1000) new_stores (mkFakes [] None [] false).

Definition put_demo x sv := mkServer x (sv_stores sv) (sv_fakes sv).
Definition put_stores (f : Stores → Stores) sv := mkServer (sv_demo sv) (f (sv_stores sv)) (sv_fakes sv).
Definition put_fakes x sv := mkServer (sv_demo sv) (sv_stores sv) x.
Definition put_chain x := put_stores (λ s,
  mkStores x (st_ledger s) (st_settlements s) (st_audit s) (st_bus s) (st_provider s)).
Definition put_ledger x := put_stores (λ s,
  mkStores (st_chain s) x (st_settlements s) (st_audit s) (st_bus s) (st_provider s)).
Definition put_settlements x := put_stores (λ s,
  mkStores (st_chain s) (st_ledger s) x (st_audit s) (st_bus s) (st_provider s)).
Definition put_audit x := put_stores (λ s,
  mkStores (st_chain s) (st_ledger s) (st_settlements s) x (st_bus s) (st_provider s)).
Definition put_bus x := put_stores (λ s,
  mkStores (st_chain s) (st_ledger s) (st_settlements s) (st_audit s) x (st_provider s)).
Definition put_provider x := put_stores (λ s,
  mkStores (st_chain s) (st_ledger s) (st_settlements s) (st_audit s) (st_bus s) x).

Definition on_chain_repo {E A} : M InMemoryChainTxRepository E A → M Server E A :=
  zoom (st_chain ∘ sv_stores) put_chain.
Definition on_ledger {E A} : M InMemoryLedgerRepository E A → M Server E A :=
  zoom (st_ledger ∘ sv_stores) put_ledger.
Definition on_settlements {E A} : M InMemorySettlementPersistenceRepository E A → M Server E A :=
  zoom (st_settlements ∘ sv_stores) put_settlements.
Definition on_audit {E A} : M InMemoryAuditRepository E A → M Server E A :=
  zoom (st_audit ∘ sv_stores) put_audit.
Definition on_bus {E A} : M (InMemoryEventBus * DemoWorld) E A → M Server E A :=
  zoom (λ sv, (st_bus (sv_stores sv), sv_demo sv)) (λ '(b, w) sv, put_bus b (put_demo w sv)).

#[export] Instance demo_world_ids : FreshIds DemoWorld := demo_ids.
#[export] Instance server_clock : Clock Server := {| utc_now sv := dw_time (sv_demo sv) |}.
#[export] Instance server_instant : MonotonicClock Server := {| instant_now sv := dw_time (sv_demo sv) |}.
#[export] Instance server_ids : FreshIds Server :=
  {| fresh_uuid sv := let '(w, id) := fresh_uuid (sv_demo sv) in (put_demo w sv, id) |}.
#[export] Instance server_shuffler : Shuffler Server := {| draw_shuffle sv := (sv, id) |}.
#[export] Instance server_secrets : EphemeralSecrets Server := {| random_secret sv := (sv, []) |}.
#[export] Instance server_codec : RoomCodec := {|
  json_to_vec _ := None; cipher_payload_to_value _ := None; pubkey_from_hex _ := None
|}.
#[export] Instance server_offline : JsonRpcTransport Server :=
  {| post_json _ _ sv := (sv, Err "offline"); decode_message _ := "" |}.
#[export] Instance server_chain : ChainTxRepository Server := {|
  upsert_tx_verification r := on_chain_repo (upsert_tx_verification r);
  insert_tx_binding r := on_chain_repo (insert_tx_binding r);
  upsert_exception_credit r := on_chain_repo (upsert_exception_credit r);
|}.
#[export] Instance server_ledger : LedgerRepository Server :=
  {| insert_entries l := on_ledger (insert_entries l) |}.
#[export] Instance server_settlements : SettlementPersistenceRepository Server := {|
  insert_settlement_plan r := on_settlements (insert_settlement_plan r);
  insert_settlement_record r := on_settlements (insert_settlement_record r);
  update_settlement_record_status_by_tx_hash u :=
    on_settlements (update_settlement_record_status_by_tx_hash u);
  upsert_settlement_showdown_input r := on_settlements (upsert_settlement_showdown_input r);
|}.
#[export] Instance server_audit : AuditRepository Server := {|
  insert_action_attempt r := on_audit (insert_action_attempt r);
  insert_behavior_event r := on_audit (insert_behavior_event r);
  AuditStore.append_hand_events l := on_audit (AuditStore.append_hand_events l);
  insert_outbox_event r := on_audit (insert_outbox_event r);
  fetch_pending_outbox_events n := on_audit (fetch_pending_outbox_events n);
  mark_outbox_event_delivered id t := on_audit (mark_outbox_event_delivered id t);
|}.
#[export] Instance server_bus : EventSubscriptionPort Server := {|
  bus_subscribe r := on_bus (bus_subscribe r);
  bus_unsubscribe id := on_bus (bus_unsubscribe id);
  bus_publish ev := on_bus (bus_publish ev);
|}.
#[export] Instance server_keys : RandomKeys Server :=
  {| random_signing_key sv := (sv, true); signing_key_to_bytes _ := [10; 11] |}.
(** A task runs when it is spawned. *)
#[export] Instance server_spawner : Spawner Server := {| spawn_task t sv := fst (t sv) |}.

(** The values of events are those that serde derives, with identifiers and times in
    decimal. *)
#[export] Instance event_values : EventCodec := derived_events (SS := plain_scalars).

(** ** The service beside its rooms *)

#[export] Instance server_rooms : RoomActors (House Server) := house_rooms RoomActorConfig_default.
#[export] Instance house_ledger : LedgerRepository (House Server) :=
  {| insert_entries l := on_world (insert_entries l) |}.
#[export] Instance house_settlements : SettlementPersistenceRepository (House Server) := {|
  insert_settlement_plan r := on_world (insert_settlement_plan r);
  insert_settlement_record r := on_world (insert_settlement_record r);
  update_settlement_record_status_by_tx_hash u :=
    on_world (update_settlement_record_status_by_tx_hash u);
  upsert_settlement_showdown_input r := on_world (upsert_settlement_showdown_input r);
|}.
Abbreviation Process := (AppRoomService * House Server)%type.
Definition new_process : Process := server_new new_server.

Definition server_of (s : Process) : Server := ho_world (snd s).
Definition stores_of (s : Process) : Stores := sv_stores (server_of s).
Definition update_server (f : Server → Server) : M Process string unit :=
  modify (λ '(v, ho), (v, mkHouse (f (ho_world ho)) (ho_tasks ho) (ho_next_task ho) (ho_next_reply ho))).

(** A call to a room from outside the service, and one to the stores. *)
Definition on_room {A} (m : M (House Server) string A) : M Process string A :=
  zoom snd (λ ho s, (fst s, ho)) m.
Definition on_server {E A} (m : M Server E A) : M Process E A := beside (on_world m).

#[export] Instance server_provider : ProviderStore (House Server) := {|
  store_inner ho := st_provider (sv_stores (ho_world ho));
  set_store_inner p ho := fst (on_world (E := string) (modify (put_provider p)) ho);
  store_read ho :=
    if fk_persisting (sv_fakes (ho_world ho))
    then Some (λ h, on_world (M_map_err ledger_error_text
           (on_settlements (get_settlement_showdown_input h))))
    else None;
  store_write ho :=
    if fk_persisting (sv_fakes (ho_world ho))
    then Some (λ r, on_world (M_map_err ledger_error_text
           (on_settlements (upsert_settlement_showdown_input r))))
    else None;
|}.
#[export] Instance number_uuids : ParseUuid := {|
  parse_uuid s := result_map_err (λ _, "invalid uuid") (parse_u128_dec s)
|}.

(** [tokio::time::sleep]: the actor of a room works off what it has put into its own
    mailbox. *)
Definition pause (h : RoomHandle) : M Process string unit :=
  modify (λ '(v, ho), (v, house_work RoomActorConfig_default h ho)).

Local Open Scope string_scope.
Local Open Scope list_scope.
Local Open Scope N_scope.

Definition room_id : RoomId := 7.
Definition hand_id : HandId := 77.
Definition the_time : DateTime := 1700000000000.

(** What the in-memory repositories hold. *)
Definition verifications_are (n : nat) : M Process string unit :=
  k ← gets (tx_verifications_len ∘ st_chain ∘ stores_of); assert_eq "verifications" k n.
Definition credits_are (n : nat) : M Process string unit :=
  k ← gets (exception_credits_len ∘ st_chain ∘ stores_of); assert_eq "credits" k n.
Definition behavior_recorded : M Process string (list BehaviorEventRecord) :=
  repo ← gets (st_audit ∘ stores_of); expect_ok "lock" (audit_lock (behavior_events repo)).
Definition one_event (event_kind : string) : M Process string BehaviorEventRecord :=
  events ← behavior_recorded;
  assert_eq "events" (length events) 1%nat;;
  event ← expect_some "event" (head events);
  assert_eq "kind" (be_event_kind event) event_kind;;
  mret event.

(** ** [chain_callback_sink.rs] *)

Definition InMemoryChainAlertSink (alert : ChainVerificationAlert) : M Server string unit :=
  modify (λ sv, put_fakes (mkFakes (fk_alerts (sv_fakes sv) ++ [alert]) (fk_engine_state (sv_fakes sv))
                             (fk_completed (sv_fakes sv)) (fk_persisting (sv_fakes sv))) sv).
Definition alerted : M Process string (list ChainVerificationAlert) :=
  gets (fk_alerts ∘ sv_fakes ∘ server_of).
Definition chain_verdict (hand : option HandId) (action_seq : N) (tx_hash : string)
    (status : VerificationStatus) (confirmations : N) (failure_reason : option string)
    : TxVerificationCallback :=
  mkTxVerificationCallback room_id hand (Some 1) (Some action_seq) tx_hash status confirmations
    failure_reason.

Definition callback_sink_persists_verification_and_exception_credit : Test :=
  starting_in new_process (
    expect "callback" (house_callback RoomActorConfig_default InMemoryChainAlertSink true
      (chain_verdict None 1 "0xlate" VUnmatched 3 (Some "value_mismatch")));;
    verifications_are 1;;
    credits_are 1;;
    alerts ← alerted;
    assert_eq "alerts" (length alerts) 1%nat;;
    one_event "chain_tx_verification_callback";;
    mret tt).

Definition callback_sink_matched_persists_verification_only : Test := starting_in new_process (
  expect "callback" (house_callback RoomActorConfig_default NoopChainAlertSink true
    (chain_verdict (Some hand_id) 1 "0xok" VMatched 3 None));;
  verifications_are 1;;
  credits_are 0;;
  events ← behavior_recorded;
  assert_eq "events" (length events) 1%nat).

Definition callback_sink_failed_emits_alert_without_exception_credit : Test :=
  starting_in new_process (
    expect "callback" (house_callback RoomActorConfig_default InMemoryChainAlertSink false
      (chain_verdict (Some hand_id) 2 "0xfail" VFailed 0 (Some "tx_failed")));;
    verifications_are 1;;
    credits_are 0;;
    alerts ← alerted;
    assert_eq "alerts" (map cl_status alerts) ["failed"]).

(** ** The audit sinks *)

Definition writes_rpc_reject_event_to_behavior_audit : Test := starting_in new_process (
  let req_id := 42 in
  expect "write" (on_server (on_request_rejected
    (mkReject "game.act" RequestExpiredOrInvalidWindow 5 (Some req_id) (Some "n-1")
       (Some room_id) (Some hand_id) (Some 2) (Some 1) (Some "expired"))));;
  event ← one_event "request_rejected";
  assert_eq "source" (be_event_source event) "rpc_gateway";;
  assert_eq "request" (be_related_attempt_id event) (Some (uuid_text req_id))).

Definition maps_replay_rejection_to_replay_event_kind : Test := starting_in new_process (
  expect "write" (on_server (on_request_rejected
    (mkReject "game.act" ReplayRejected 5 None (Some "dup-nonce") None None None None
       (Some "replay request detected"))));;
  event ← one_event "request_rejected_replay";
  assert_eq "source" (be_event_source event) "rpc_gateway").

Definition forwards_behavior_event_to_audit_repo : Test := starting_in new_process (
  expect "emit" (on_server (settlement_audit_emit
    (mkBehaviorEvent "evt1" "settlement_payout_submitted" "settlement_orchestrator" (Some room_id)
       None (Some 1) None None (Some "0xtx") "info" (JObj [("tx_hash", JStr "0xtx")]) the_time 5)));;
  one_event "settlement_payout_submitted";;
  mret tt).

Definition writes_seat_crypto_delivery_audit_event : Test := starting_in new_process (
  expect "write" (on_server (on_hole_cards_encrypted
    (mkHoleCardsAudit room_id hand_id 2 7 "seat-k1" "x25519+hkdf-sha256+chacha20poly1305" 128)));;
  event ← one_event "hole_cards_encrypted_delivery";
  assert_eq "source" (be_event_source event) "seat_crypto";;
  assert_eq "seat" (be_seat_id event) (Some 2)).

Definition append_hand_events_writes_hand_events_and_outbox : Test := starting_in new_process (
  let event := mkHandEvent room_id hand_id 1 5 the_time HandStarted in
  expect "sink append" (on_server (sink_append_hand_events [event]));;
  repo ← gets (st_audit ∘ stores_of);
  events ← expect_ok "hand events" (audit_lock (hand_events repo));
  assert_eq "hand events" (length events) 1%nat;;
  outbox ← expect_ok "outbox" (audit_lock (outbox_events repo));
  assert_eq "outbox" (length outbox) 1%nat).

(** ** [outbox_publisher.rs] *)

Definition outbox_record (id topic partition_key : string) (payload : Json) : OutboxEventRecord :=
  mkOutboxEvent id topic partition_key payload "pending" 0 the_time None the_time.
Definition subscribed_to (topic : EventTopic) (hand : option HandId) (seat : option SeatId)
    : M Process string unit :=
  expect "subscribe" (on_server (bus_subscribe (mkSubscribe topic room_id hand seat)));; mret tt.
Definition published_are (n : nat) : M Process string unit :=
  k ← gets (published_count ∘ st_bus ∘ stores_of); assert_eq "published" k n.
Definition nothing_pending : M Process string unit :=
  pending ← expect "fetch" (on_server (fetch_pending_outbox_events 10));
  assert_eq "pending" (length pending) 0%nat.

Definition publishes_hand_events_from_outbox_to_event_bus : Test := starting_in new_process (
  subscribed_to HandEvents (Some hand_id) None;;
  let hand_event := mkHandEvent room_id hand_id 1 5 the_time
    (ActionAccepted (mkPlayerAction room_id hand_id 1 1 Call (Some 50))) in
  payload ← expect_ok "serialize" (hand_event_to_value hand_event);
  expect "insert" (on_server (insert_outbox_event
    (outbox_record "evt1" "hand.events" (uuid_text room_id) payload)));;
  published ← expect "publish" (on_server (publish_pending_outbox_once 10));
  assert_eq "published" published 1%nat;;
  published_are 1;;
  nothing_pending).

(** The events of a room go to its sink. *)
Definition outputs_to_sink (h : RoomHandle) : M Process string unit :=
  modify (λ '(v, ho), (v, match ho_tasks ho !! handle_sender h with
    | None => ho
    | Some t =>
        mkHouse (fst (sink_outputs (AuditRoomEventSink None) (tk_out t) (ho_world ho)))
          (<[handle_sender h := mkTask (tk_room_id t) (tk_room t) (tk_mailbox t) []]> (ho_tasks ho))
          (ho_next_task ho) (ho_next_reply ho)
    end)).
Definition spawned : M Process string RoomHandle :=
  λ '(v, ho), let '(ho, h) := spawn_room room_id ho in ((v, ho), Ok h).
Definition seat_bound (room : RoomHandle) (seat : SeatId) : M Process string unit :=
  expect "join" (on_room (room_join room seat));;
  expect "bind addr" (on_room (room_bind_address room seat "cfx:seat"));;
  expect "bind keys"
    (on_room (room_bind_session_keys room seat "encpk" "sigpk" "x25519+evm" "proof")).

(** [seats] take part; the source has one seat only. *)
Definition room_events_flow (seats : list SeatId) : Test := starting_in new_process (
  room ← spawned;
  M_iter (seat_bound room) seats;;
  M_iter (λ seat, expect "ready" (on_room (room_ready room seat))) seats;;
  pause room;;
  outputs_to_sink room;;
  state ← expect "state" (on_room (room_get_state room));
  snapshot ← expect_some "snapshot" state;
  subscribed_to HandEvents (Some (hs_hand_id snapshot)) None;;
  published ← expect "publish" (on_server (publish_pending_outbox_once 100));
  assert "published" (2 <=? published)%nat;;
  k ← gets (published_count ∘ st_bus ∘ stores_of);
  assert "bus" (2 <=? k)%nat).
Definition room_events_flow_to_outbox_then_event_bus : Test := room_events_flow [0].

(** The loop ticks three times in the thirty milliseconds before its shutdown. *)
Definition outbox_publisher_loop_drains_events_until_shutdown : Test := starting_in new_process (
  subscribed_to HandEvents (Some hand_id) None;;
  payload ← expect_ok "serialize"
    (hand_event_to_value (mkHandEvent room_id hand_id 1 5 the_time HandStarted));
  expect "insert" (on_server (insert_outbox_event
    (outbox_record "evt-loop" "hand.events" (uuid_text room_id) payload)));;
  expect "loop" (on_server (outbox_ticks 10 3));;
  published_are 1;;
  nothing_pending).

Definition publishes_seat_private_events_from_outbox_to_event_bus : Test :=
  starting_in new_process (
    let seat_id := 1 in
    subscribed_to SeatEvents (Some hand_id) (Some seat_id);;
    let seat_event := mkSeatPrivateEvent room_id hand_id seat_id "hole_cards_dealt"
                        (JObj [("ciphertext_b64", JStr "abc")]) in
    expect "insert" (on_server (insert_outbox_event
      (outbox_record "seat-evt1" "seat.events" (uuid_text room_id +:+ ":" +:+ pretty seat_id)
         (seat_event_json seat_event))));;
    published ← expect "publish" (on_server (publish_pending_outbox_once 10));
    assert_eq "published" published 1%nat;;
    published_are 1).

(** ** [room_service_port.rs] *)

Definition signed_meta : SignedRequestMeta := mkMeta 42 "n1" the_time 30000 "k1" "sig".
Definition check_bound_to (tx_hash : string) : GameActRequest :=
  mkGameAct room_id hand_id 1 0 "check" None (Some tx_hash) signed_meta.
Definition bindings_are (n : nat) : M Process string unit :=
  k ← gets (tx_bindings_len ∘ st_chain ∘ stores_of); assert_eq "bindings" k n.

Definition act_with_tx_hash_records_tx_binding : Test := starting_in new_process (
  expect "room" (ensure_room room_id);;
  expect "act" (act (check_bound_to "0xtx-binding"));;
  bindings_are 1).

Definition act_with_duplicate_hand_action_binding_is_rejected : Test := starting_in new_process (
  expect "room" (ensure_room room_id);;
  expect "first act" (act (check_bound_to "0xtx1"));;
  err ← expect_err "duplicate binding" (act (check_bound_to "0xtx2"));
  assert "text" (contains "duplicate tx binding" (gateway_error_text err));;
  bindings_are 1).

(** ** [showdown_admin_repo.rs] *)

#[local] Instance admin_repo : ShowdownAdminRepository Process := AppShowdownAdminRepository.
#[local] Instance app_provider : ShowdownInputProvider Process := AppRoomShowdownInputProvider.
Definition showdown_request (board : string) (cards : list (SeatId * string))
    : AdminUpsertShowdownInputRequest :=
  mkUpsertInput (uuid_text room_id) board (map (λ '(seat, c), mkSeatCardsInput seat c) cards).

Definition admin_repo_parses_and_writes_showdown_input : Test := starting_in new_process (
  expect "upsert showdown input" (admin_upsert_showdown_input hand_id
    (showdown_request "AhKhQhJhTh" [(0, "2c3d"); (1, "4s5c")]));;
  found ← expect "provider ok" (get_showdown_input room_id hand_id);
  got ← expect_some "showdown input" found;
  assert_eq "board" (length (si_board got)) 5%nat;;
  assert_eq "seats" (map fst (si_revealed_hole_cards got)) [0; 1]).

Definition admin_repo_rejects_invalid_cards : Test := starting_in new_process (
  err ← expect_err "invalid board should fail"
    (admin_upsert_showdown_input hand_id (showdown_request "invalid" []));
  assert "text" (contains "invalid board" err)).

(** A new provider has a cache of its own and the repository of the first. *)
Definition admin_repo_persists_showdown_input_for_new_provider_instance : Test :=
  starting_in new_process (
    update_server (put_fakes (mkFakes [] None [] true));;
    expect "persist showdown input" (admin_upsert_showdown_input hand_id
      (showdown_request "AhKhQhJhTh" [(0, "2c3d")]));;
    update_server (put_provider InMemoryProvider_new);;
    found ← expect "provider read" (get_showdown_input room_id hand_id);
    got ← expect_some "showdown input" found;
    assert_eq "board" (length (si_board got)) 5%nat;;
    assert_eq "seats" (map fst (si_revealed_hole_cards got)) [0]).

(** ** [data_layer_consistency.rs] *)

Definition unmatched_chain_callback_writes_verification_exception_credit_and_audit : Test :=
  starting_in new_process (
    expect "callback" (house_callback RoomActorConfig_default NoopChainAlertSink true
      (chain_verdict None 8 "0xunmatched" VUnmatched 3 (Some "value_mismatch")));;
    verifications_are 1;;
    credits_are 1;;
    event ← one_event "chain_tx_verification_callback";
    assert_eq "source" (be_event_source event) "chain_watcher";;
    assert_eq "transaction" (be_related_tx_hash event) (Some "0xunmatched");;
    assert_eq "severity" (be_severity event) "error").

#[local] Instance plain_rendering : Rendering := {| plan_to_value _ := Ok JNull |}.
Definition closes (hand : RoomId * HandId) : M Process string unit :=
  update_server (λ sv, put_fakes (mkFakes (fk_alerts (sv_fakes sv)) (fk_engine_state (sv_fakes sv))
    (fk_completed (sv_fakes sv) ++ [hand]) (fk_persisting (sv_fakes sv))) sv).
Definition FakeLifecyclePort : SettlementLifecyclePort Process :=
  {| complete_settlement hand := closes (room_id, hand) |}.
Definition hex_pair (n : N) : string := if n <? 16 then "0" +:+ format_hex n else format_hex n.
Definition FailSecondWallet : SettlementWalletAdapter Process := {|
  submit_transfer request := mret ("0x" +:+ hex_pair (tq_to_seat_id request));
  get_transfer_receipt tx_hash :=
    mret (mkReceipt tx_hash (if ends_with "01" tx_hash then TxFailed else TxConfirmed) 10);
|}.

Definition even_state : EngineState := pot_of room_id hand_id 20 [(0, 10); (1, 10)].
Definition royal_tie : M Process string ShowdownInput :=
  board ← flat_hand "board" "AhKhQhJhTh";
  s0 ← flat_hand "s0" "2c3d";
  s1 ← flat_hand "s1" "4s5c";
  mret (mkShowdownInput board [revealed 0 s0; revealed 1 s1]).
Definition two_addresses : gmap SeatId string := <[0 := "0xseat0"]> (<[1 := "0xseat1"]> ∅).

Definition direct_payout_failure_persists_manual_review_and_audit_behavior_chain : Test :=
  starting_in new_process (
    showdown ← royal_tie;
    expect "orchestrate" (run_direct_payouts_and_alerts (LP := FakeLifecyclePort)
      (H := FailSecondWallet) even_state showdown RakePolicy_zero (mkPayoutInput two_addresses 1) 5
      None (Some (λ event, on_server (settlement_audit_emit event))));;
    records ← gets (settlement_records_snapshot ∘ st_settlements ∘ stores_of);
    assert "records" (negb (length records =? 0)%nat);;
    assert "manual review"
      (existsb (λ r, bool_decide (sr_settlement_status r = "manual_review_required")) records);;
    assert "retried" (existsb (λ r, (1 <=? sr_retry_count r)%Z) records);;
    events ← behavior_recorded;
    M_iter (λ kind, assert kind (existsb (λ e, bool_decide (be_event_kind e = kind)) events))
      ["settlement_payout_submitted"; "settlement_payout_receipt"; "settlement_manual_review_required"];;
    entries ← gets (entries_snapshot ∘ st_ledger ∘ stores_of);
    assert "payouts" (existsb (λ e, bool_decide (le_entry_type e = "settlement_payout")) entries)).

(** ** [auto_settlement.rs] *)

Definition FakeRoomPort : AutoSettlementRoomPort Process := {|
  AutoSettlement.get_engine_state _ := gets (fk_engine_state ∘ sv_fakes ∘ server_of);
  AutoSettlement.room_complete_settlement room hand := closes (room, hand);
|}.
Definition FakeProvider (showdown : option ShowdownInput) (seat_addresses : gmap SeatId string)
    : ShowdownInputProvider Process := {|
  get_showdown_input _ _ := mret showdown;
  get_settlement_seat_addresses _ _ := mret seat_addresses;
|}.
Definition NoopLoopProvider : ShowdownInputProvider Process := {|
  get_showdown_input _ _ := mret None;
  get_settlement_seat_addresses _ _ := mret ∅;
|}.
Definition FakeWallet : SettlementWalletAdapter Process := {|
  submit_transfer request := mret ("0x" +:+ hex_pair (tq_to_seat_id request));
  get_transfer_receipt tx_hash := mret (mkReceipt tx_hash TxConfirmed 10);
|}.

Definition shows (state : EngineState) : M Process string unit :=
  update_server (put_fakes (mkFakes [] (Some state) [] false)).
Definition tried (provider : ShowdownInputProvider Process) : M Process string AutoSettlementOutcome :=
  try_auto_settle_showdown_room (RP := FakeRoomPort) (SP := provider) (H := FakeWallet) room_id
    RakePolicy_zero 1 5 None None.
Definition outcome_is (what : string) (p : AutoSettlementOutcome → bool)
    (provider : ShowdownInputProvider Process) : M Process string unit :=
  outcome ← expect "ok" (tried provider); assert what (p outcome).
Definition is_settled (o : AutoSettlementOutcome) : bool :=
  match o with AutoSettled => true | _ => false end.
Definition plans_are (n : nat) : M Process string unit :=
  k ← gets (settlement_plans_len ∘ st_settlements ∘ stores_of); assert_eq "plans" k n.

Definition returns_waiting_when_not_showdown_or_missing_inputs : Test := starting_in new_process (
  let provider := FakeProvider None ∅ in
  outcome_is "no hand" (λ o, match o with NoActiveHand => true | _ => false end) provider;;
  shows (set_snap_status HRunning (EngineState_new room_id 1 hand_id));;
  outcome_is "not showdown" (λ o, match o with NotShowdown => true | _ => false end) provider).

Definition at_showdown : EngineState := set_snap_status HShowdown even_state.
Definition settles_showdown_when_provider_has_inputs : Test := starting_in new_process (
  shows at_showdown;;
  showdown ← royal_tie;
  outcome_is "settled" is_settled (FakeProvider (Some showdown) two_addresses);;
  plans_are 1;;
  completed ← gets (fk_completed ∘ sv_fakes ∘ server_of);
  assert_eq "completed" completed [(room_id, hs_hand_id (snapshot at_showdown))]).

(** Ticks without rooms, then the shutdown. *)
Definition auto_settlement_loop_ticks_and_shuts_down : Test := starting_in new_process (
  let tick := settlement_tick (SP := NoopLoopProvider) (H := FakeWallet)
                AutoSettlementLoopConfig_default None None [] in
  tick;; tick;; tick).

Definition bind_request (seat : SeatId) (seat_address nonce key signature : string)
    : RoomBindAddressRequest :=
  mkBindAddress room_id seat seat_address (mkMeta 42 nonce the_time 30000 key signature).

(** [sit] is how a seat joins: these two tests go to the actor, behind the service's back. *)
Section Joining.
Context (sit : RoomHandle → SeatId → M Process string unit).

Definition bound_addresses_test : Test := starting_in new_process (
  room ← expect "room" (ensure_room room_id);
  expect "join" (sit room 0);;
  expect "bind" (bind_address (bind_request 0 "cfx:seat0" "n1" "k" "s"));;
  addresses ← expect "addresses" (get_settlement_seat_addresses room_id hand_id);
  assert_eq "address" (addresses !! 0) (Some "cfx:seat0")).

Definition admin_input_test : Test := starting_in new_process (
  shows at_showdown;;
  room ← expect "room" (ensure_room room_id);
  expect "join seat0" (sit room 0);;
  expect "join seat1" (sit room 1);;
  M_iter (λ '(seat, seat_address), expect "bind address"
      (bind_address (bind_request seat seat_address ("nonce-" +:+ pretty seat) "demo" "sig")))
    [(0, "cfx:seat0"); (1, "cfx:seat1")];;
  expect "admin showdown upsert" (admin_upsert_showdown_input (hs_hand_id (snapshot at_showdown))
    (showdown_request "AhKhQhJhTh" [(0, "2c3d"); (1, "4s5c")]));;
  outcome_is "settled" is_settled app_provider;;
  plans_are 1).
End Joining.

Definition by_actor (room : RoomHandle) (seat : SeatId) : M Process string unit :=
  on_room (room_join room seat).
Definition by_service (room : RoomHandle) (seat : SeatId) : M Process string unit :=
  M_map_err gateway_error_text (join (mkRoomReady room_id seat signed_meta)).
Definition app_room_provider_falls_back_to_room_service_bound_addresses : Test :=
  bound_addresses_test by_actor.
Definition auto_settlement_accepts_showdown_input_from_admin_repo_and_uses_bound_addresses : Test :=
  admin_input_test by_actor.

(** ** The outcome of the tests *)

Definition app_suite : list Test :=
  [callback_sink_persists_verification_and_exception_credit;
   callback_sink_matched_persists_verification_only;
   callback_sink_failed_emits_alert_without_exception_credit;
   writes_rpc_reject_event_to_behavior_audit;
   maps_replay_rejection_to_replay_event_kind;
   forwards_behavior_event_to_audit_repo;
   writes_seat_crypto_delivery_audit_event;
   append_hand_events_writes_hand_events_and_outbox;
   publishes_hand_events_from_outbox_to_event_bus;
   outbox_publisher_loop_drains_events_until_shutdown;
   publishes_seat_private_events_from_outbox_to_event_bus;
   act_with_tx_hash_records_tx_binding;
   act_with_duplicate_hand_action_binding_is_rejected;
   admin_repo_parses_and_writes_showdown_input;
   admin_repo_rejects_invalid_cards;
   admin_repo_persists_showdown_input_for_new_provider_instance;
   unmatched_chain_callback_writes_verification_exception_credit_and_audit;
   direct_payout_failure_persists_manual_review_and_audit_behavior_chain;
   returns_waiting_when_not_showdown_or_missing_inputs;
   settles_showdown_when_provider_has_inputs;
   auto_settlement_loop_ticks_and_shuts_down].
(** Tests written for other rules, with the assertion at which each fails. *)
Definition stale_app_tests : list (Test * string) :=
  [(room_events_flow_to_outbox_then_event_bus, "published");
   (app_room_provider_falls_back_to_room_service_bound_addresses, "bind");
   (auto_settlement_accepts_showdown_input_from_admin_repo_and_uses_bound_addresses, "bind address")].

(** All other tests of these parts pass on the model. *)
Theorem app_suite_passes : Forall (λ t, t = Ok tt) app_suite.
Proof. vm_compute. by repeat constructor. Qed.

(** A single ready seat starts no hand, so nothing is published; and a seat that joined
    at its room only may not bind an address through the service. *)
Theorem stale_app_tests_fail : Forall (λ '(test, what), test = Err what) stale_app_tests.
Proof. vm_compute. by repeat constructor. Qed.

(** The same tests pass with two seats, and with seats that join through the service. *)
Theorem app_tests_pass_by_the_rules :
  Forall (λ t, t = Ok tt)
    [room_events_flow [0; 1]; bound_addresses_test by_service; admin_input_test by_service].
Proof. vm_compute. by repeat constructor. Qed.

(** ** The integration tests of the application ([app-server/src/integration_flows.rs]):
    signed requests through the gateway's handlers and the verifier to the room service
    and its rooms. The one test that the source ignores needs a node and is left out.

    Each test takes the way in which a seat joins, [sit]. The tests of the source send the
    join to the room's actor; the service knows only of joins made through itself
    ([room_service_port.rs], [ensure_joined]), so it refuses what those tests go on to ask
    of it. *)

Module Flows.
Local Open Scope string_scope.
Local Open Scope list_scope.
Local Open Scope N_scope.

#[local] Instance service_port : RoomServicePort Process := app_room_service None.

Definition room_id : RoomId := 7.
Definition the_time : DateTime := 1700000000000.

(** ** Signed requests *)

Definition flow_meta : M Process string SignedRequestMeta :=
  request_id ← new_uuid;
  nonce ← new_uuid;
  mret (mkMeta request_id (uuid_text nonce) the_time 30000 "k1" "sig").
Definition with_key_id (key : string) (m : SignedRequestMeta) : SignedRequestMeta :=
  mkMeta (rm_request_id m) (rm_request_nonce m) (rm_request_ts m) (rm_request_expiry_ms m) key
    (rm_signature m).
Definition with_signature (signature : string) (m : SignedRequestMeta) : SignedRequestMeta :=
  mkMeta (rm_request_id m) (rm_request_nonce m) (rm_request_ts m) (rm_request_expiry_ms m)
    (rm_signature_pubkey_id m) signature.
Definition address_of (k : SigningKey) : string :=
  evm_address_from_secp256k1_verifying_key (verifying_key k).

(** The steps that the four requests share: the message of [input] under the metadata of
    the key's owner, and its signature. *)
Definition signed (signing_key : SigningKey) (input : SignedRequestMeta → SigningMessageInput)
    (meta : SignedRequestMeta) : M Process string SignedRequestMeta :=
  message ← expect_ok "build signing message" (build_signing_message (input meta));
  signature ← expect_ok "sign"
    (sign_evm_personal_message_secp256k1 signing_key (bytes_of_string message));
  mret (with_signature signature meta).
Definition owner_meta (signing_key : SigningKey) : M Process string SignedRequestMeta :=
  meta ← flow_meta; mret (with_key_id (address_of signing_key) meta).

Definition signed_bind_address_request (room_id : RoomId) (seat_id : SeatId)
    (signing_key : SigningKey) : M Process string RoomBindAddressRequest :=
  let seat_address := address_of signing_key in
  meta ← owner_meta signing_key;
  let params := JObj [("seat_id", json_N seat_id); ("seat_address", JStr seat_address)] in
  request_meta ← signed signing_key
    (mkSigningInput "room.bind_address" nil_session (Some room_id) None None params) meta;
  mret (mkBindAddress room_id seat_id seat_address request_meta).

Definition signed_room_ready_request (room_id : RoomId) (seat_id : SeatId)
    (signing_key : SigningKey) : M Process string RoomReadyRequest :=
  meta ← owner_meta signing_key;
  let params := JObj [("seat_id", json_N seat_id)] in
  request_meta ← signed signing_key
    (mkSigningInput "room.ready" nil_session (Some room_id) None None params) meta;
  mret (mkRoomReady room_id seat_id request_meta).

Fixpoint repeated (n : nat) (s : string) : string :=
  match n with O => "" | S n => s +:+ repeated n s end.
Definition signed_bind_session_keys_request (room_id : RoomId) (seat_id : SeatId)
    (signing_key : SigningKey) : M Process string RoomBindSessionKeysRequest :=
  let seat_address := address_of signing_key in
  meta ← owner_meta signing_key;
  let card_encrypt_pubkey := repeated 32 "11" in
  let request_verify_pubkey := repeated 32 "22" in
  let key_algo := "x25519+evm" in
  let claim := mkBindingClaim None None room_id seat_id seat_address card_encrypt_pubkey
                 request_verify_pubkey key_algo (rm_request_ts meta) None in
  proof_signature ← expect_ok "proof sign" (sign_evm_personal_message_secp256k1 signing_key
    (bytes_of_string (build_seat_key_binding_message claim)));
  let params := JObj [("seat_id", json_N seat_id); ("seat_address", JStr seat_address);
                      ("card_encrypt_pubkey", JStr card_encrypt_pubkey);
                      ("request_verify_pubkey", JStr request_verify_pubkey);
                      ("key_algo", JStr key_algo); ("proof_signature", JStr proof_signature)] in
  request_meta ← signed signing_key
    (mkSigningInput "room.bind_session_keys" nil_session (Some room_id) None None params) meta;
  mret (mkBindKeys room_id seat_id seat_address card_encrypt_pubkey request_verify_pubkey key_algo
          proof_signature request_meta).

Definition signed_game_act_request (room_id : RoomId) (hand_id : HandId) (action_seq : ActionSeq)
    (seat_id : SeatId) (action_type : string) (tx_hash : option string) (signing_key : SigningKey)
    : M Process string GameActRequest :=
  meta ← owner_meta signing_key;
  let params := JObj [("seat_id", json_N seat_id); ("action_type", JStr action_type);
                      ("amount", JNull); ("tx_hash", json_opt JStr tx_hash)] in
  request_meta ← signed signing_key
    (mkSigningInput "game.act" nil_session (Some room_id) (Some (uuid_text hand_id))
       (Some action_seq) params) meta;
  mret (mkGameAct room_id hand_id action_seq seat_id action_type None tx_hash request_meta).

(** ** What the tests share *)

Definition sig_verifier : RequestSignatureVerifier Process := AppRpcRequestSignatureVerifier.
Definition answer {A} (handler : Process → Process * ResponseEnvelope A)
    : M Process string (ResponseEnvelope A) := λ s, let '(s, r) := handler s in (s, Ok r).
Definition accepted {A} (what : string) (handler : Process → Process * ResponseEnvelope A)
    : M Process string (ResponseEnvelope A) :=
  resp ← answer handler; assert what (env_ok resp);; mret resp.
Definition refused {A} (what : string) (is_code : ErrorCode → bool)
    (handler : Process → Process * ResponseEnvelope A) : M Process string unit :=
  resp ← answer handler;
  assert what (negb (env_ok resp));;
  err ← expect_some "error" (env_error resp);
  assert "code" (is_code (err_code err)).
Definition is_forbidden (c : ErrorCode) : bool := match c with CodeForbidden => true | _ => false end.
Definition is_invalid (c : ErrorCode) : bool :=
  match c with CodeRequestInvalid => true | _ => false end.
Definition snapshot_of (room : RoomHandle) : M Process string HandSnapshot :=
  state ← expect "state" (on_room (room_get_state room)); expect_some "snapshot" state.
Definition bind_keys (room : RoomHandle) : M Process string unit :=
  expect "bind keys"
    (on_room (room_bind_session_keys room 0 "encpk" "sigpk" "x25519+evm" "proof")).

(** The toy curve has two keys; the first stands for the key of each test. *)
Definition evm_key : SigningKey := true.
Definition wrong_signature : string := "0xdeadbeef".

Section Joining.
Context (sit : RoomHandle → SeatId → M Process string unit).

(** A room with seat 0. *)
Definition seated : M Process string RoomHandle :=
  room ← expect "room" (ensure_room room_id);
  expect "join seat0" (sit room 0);;
  mret room.
(** Its owner binds the address. *)
Definition owned : M Process string RoomHandle :=
  room ← seated;
  req ← signed_bind_address_request room_id 0 evm_key;
  accepted "bind" (handle_bind_address_with_audit None None (Some sig_verifier) req);;
  mret room.

Definition room_flow_works_via_rpc_gateway_handlers : Test := starting_in new_process (
  room ← seated;
  expect "join seat1" (sit room 1);;
  meta ← flow_meta;
  accepted "bind address" (handle_bind_address (mkBindAddress room_id 0 "cfx:seat0" meta));;
  bind_keys room;;
  meta ← flow_meta;
  accepted "ready" (handle_room_ready (mkRoomReady room_id 0 meta));;
  state ← accepted "state" (handle_get_state (mkGetState room_id None None));
  snapshot ← expect_some "snapshot" (mjoin (env_data state));
  assert_eq "status" (hs_status snapshot) HRunning;;
  assert_eq "acting" (hs_acting_seat_id snapshot) (Some 0)).

Definition bind_address_with_valid_evm_signature_is_accepted_via_gateway_verifier : Test :=
  starting_in new_process (
    seated;;
    req ← signed_bind_address_request room_id 0 evm_key;
    accepted "accepted" (handle_bind_address_with_audit None None (Some sig_verifier) req);;
    mret tt).

Definition bind_address_with_invalid_evm_signature_is_rejected_via_gateway_verifier : Test :=
  starting_in new_process (
    seated;;
    req ← signed_bind_address_request room_id 0 evm_key;
    let req := mkBindAddress (ba_room_id req) (ba_seat_id req) (ba_seat_address req)
                 (with_signature wrong_signature (ba_request_meta req)) in
    refused "refused" is_invalid
      (handle_bind_address_with_audit None None (Some sig_verifier) req)).

Definition room_ready_with_valid_evm_signature_is_accepted_via_gateway_verifier : Test :=
  starting_in new_process (
    room ← owned;
    bind_keys room;;
    req ← signed_room_ready_request room_id 0 evm_key;
    accepted "accepted" (handle_room_ready_with_audit None None (Some sig_verifier) req);;
    mret tt).

Definition bind_session_keys_with_valid_evm_signature_is_accepted_via_gateway_verifier : Test :=
  starting_in new_process (
    owned;;
    req ← signed_bind_session_keys_request room_id 0 evm_key;
    accepted "accepted" (handle_bind_session_keys_with_audit None None (Some sig_verifier) req);;
    mret tt).

Definition bind_session_keys_with_invalid_evm_signature_is_rejected_via_gateway_verifier : Test :=
  starting_in new_process (
    owned;;
    req ← signed_bind_session_keys_request room_id 0 evm_key;
    let req := mkBindKeys (bk_room_id req) (bk_seat_id req) (bk_seat_address req)
                 (bk_card_encrypt_pubkey req) (bk_request_verify_pubkey req) (bk_key_algo req)
                 (bk_proof_signature req) (with_signature wrong_signature (bk_request_meta req)) in
    refused "refused" is_forbidden
      (handle_bind_session_keys_with_audit None None (Some sig_verifier) req)).

Definition room_ready_with_invalid_evm_signature_is_rejected_via_gateway_verifier : Test :=
  starting_in new_process (
    room ← owned;
    bind_keys room;;
    req ← signed_room_ready_request room_id 0 evm_key;
    let req := mkRoomReady (rr_room_id req) (rr_seat_id req)
                 (with_signature wrong_signature (rr_request_meta req)) in
    refused "refused" is_forbidden
      (handle_room_ready_with_audit None None (Some sig_verifier) req)).

(** The seat is ready and is about to check. *)
Definition owner_checks : M Process string (RoomHandle * HandSnapshot * GameActRequest) :=
  room ← owned;
  bind_keys room;;
  expect "ready" (on_room (room_ready room 0));;
  before ← snapshot_of room;
  seat ← expect_some "acting seat" (hs_acting_seat_id before);
  req ← signed_game_act_request room_id (hs_hand_id before) (hs_next_action_seq before) seat "check"
          None evm_key;
  mret (room, before, req).

Definition game_act_with_valid_evm_signature_is_accepted_via_gateway_verifier : Test :=
  starting_in new_process (
    '(room, before, req) ← owner_checks;
    accepted "accepted" (handle_game_act_with_audit None None (Some sig_verifier) req);;
    after ← snapshot_of room;
    assert_eq "sequence" (hs_next_action_seq after) (hs_next_action_seq before + 1)).

Definition game_act_with_invalid_evm_signature_is_rejected_via_gateway_verifier : Test :=
  starting_in new_process (
    '(room, before, req) ← owner_checks;
    let req := mkGameAct (ga_room_id req) (ga_hand_id req) (ga_action_seq req) (ga_seat_id req)
                 (ga_action_type req) (ga_amount req) (ga_tx_hash req)
                 (with_signature wrong_signature (ga_request_meta req)) in
    refused "refused" is_forbidden (handle_game_act_with_audit None None (Some sig_verifier) req);;
    after ← snapshot_of room;
    assert_eq "sequence" (hs_next_action_seq after) (hs_next_action_seq before)).
End Joining.

(** [ready_seats] get ready; in the source it is seat 0 alone. *)
Definition paid_action_flow (ready_seats : list SeatId) : Test := starting_in new_process (
  room ← expect "room" (ensure_room room_id);
  M_iter (λ seat,
    expect "join" (on_room (room_join room seat));;
    expect "bind" (on_room (room_bind_address room seat ("cfx:seat" +:+ pretty seat)));;
    expect "keys" (on_room (room_bind_session_keys room seat ("encpk" +:+ pretty seat)
      ("sigpk" +:+ pretty seat) "x25519+evm" ("proof" +:+ pretty seat)))) [0; 1];;
  M_iter (λ seat, expect "ready" (on_room (room_ready room seat))) ready_seats;;
  before ← snapshot_of room;
  let tx_hash := "0xabc123" in
  seat ← expect_some "seat" (hs_acting_seat_id before);
  meta ← flow_meta;
  accepted "act" (handle_game_act (mkGameAct room_id (hs_hand_id before) (hs_next_action_seq before)
    seat "call" (Some "100000000000000") (Some tx_hash) meta));;
  still_before ← snapshot_of room;
  assert_eq "waiting" (hs_next_action_seq still_before) (hs_next_action_seq before);;
  expect "callback" (house_callback RoomActorConfig_default NoopChainAlertSink true
    (mkTxVerificationCallback room_id (Some (hs_hand_id before)) (hs_acting_seat_id before)
       (Some (hs_next_action_seq before)) tx_hash VMatched 3 None));;
  after ← snapshot_of room;
  assert_eq "played" (hs_next_action_seq after) (hs_next_action_seq before + 1);;
  verifications ← gets (tx_verifications_len ∘ st_chain ∘ stores_of);
  assert_eq "verifications" verifications 1%nat;;
  repo ← gets (st_audit ∘ stores_of);
  events ← expect_ok "lock" (audit_lock (behavior_events repo));
  assert_eq "events" (length events) 1%nat).
Definition game_act_with_tx_hash_then_matched_callback_advances_state : Test := paid_action_flow [0].

(** ** The outcome of the tests *)

Definition by_actor (room : RoomHandle) (seat : SeatId) : M Process string unit :=
  on_room (room_join room seat).
Definition by_service (room : RoomHandle) (seat : SeatId) : M Process string unit :=
  meta ← flow_meta;
  M_map_err gateway_error_text (join (mkRoomReady room_id seat meta)).

Definition flow_suite : list ((RoomHandle → SeatId → M Process string unit) → Test) :=
  [room_flow_works_via_rpc_gateway_handlers;
   bind_address_with_valid_evm_signature_is_accepted_via_gateway_verifier;
   bind_address_with_invalid_evm_signature_is_rejected_via_gateway_verifier;
   room_ready_with_valid_evm_signature_is_accepted_via_gateway_verifier;
   bind_session_keys_with_valid_evm_signature_is_accepted_via_gateway_verifier;
   bind_session_keys_with_invalid_evm_signature_is_rejected_via_gateway_verifier;
   room_ready_with_invalid_evm_signature_is_rejected_via_gateway_verifier;
   game_act_with_valid_evm_signature_is_accepted_via_gateway_verifier;
   game_act_with_invalid_evm_signature_is_rejected_via_gateway_verifier].

(** As they stand, eight of these nine tests fail, for the service refuses a seat that
    joined at the room only. *)
Theorem stale_flow_tests_fail :
  map (λ test, test by_actor) flow_suite
  = [Err "bind address"; Err "accepted"; Ok tt; Err "bind"; Err "bind"; Err "bind"; Err "bind";
     Err "bind"; Err "bind"].
Proof. vm_compute. reflexivity. Qed.

(** With joins through the service six pass; the other three suppose besides that one
    ready seat starts a hand. *)
Theorem flow_tests_by_the_service :
  map (λ test, test by_service) flow_suite
  = [Err "status"; Ok tt; Ok tt; Ok tt; Ok tt; Ok tt; Ok tt; Err "acting seat"; Err "acting seat"].
Proof. vm_compute. reflexivity. Qed.

(** The action that waits for its transaction is played once that is verified, when both
    seats are ready; with one there is no hand to act in. *)
Theorem paid_action_outcomes :
  game_act_with_tx_hash_then_matched_callback_advances_state = Err "seat" ∧
  paid_action_flow [0; 1] = Ok tt.
Proof. vm_compute. done. Qed.
End Flows.
