(* ===== verification/ServiceTests.v ===== *)
(** The tests of the smaller crates, run on the model, a Module for each: the domain's
    names, the in-memory stores, the chain watcher, the administration endpoints. *)

From stdpp Require Import base tactics option list strings gmap pretty.
From Stdlib Require Import NArith ZArith.
From S2P Require Import Prelude.
From S2P Require Import Text.
From S2P Require Import Domain.
From S2P Require Import Ambient.
From S2P Require Import LedgerStore.
From S2P Require Import AuditStore.
From S2P Require Import JsonRpc.
From S2P Require Import ChainWatcher.
From S2P Require Import OpsHttp.
From S2P Require Import AppSinks.
From S2P Require Import DomainJson.
From S2P Require Import Testing.
From S2P Require Import AppTests.

(** ** The tests of [poker-domain]: the names that serde gives to the variants of its types. *)

Module NameSuite.
Local Open Scope string_scope.
Local Open Scope list_scope.
Local Open Scope N_scope.

#[local] Existing Instance plain_scalars.

(** [value["a"]["b"]]: the value under the names. *)
Definition value_at (names : list string) (j : Json) : option Json :=
  foldl (λ j name, j ≫= json_get name) (Some j) names.

(** [assert_eq!] of a value and a text. *)
Definition is_text (what text : string) (j : option Json) : M unit string unit :=
  assert_eq what (j ≫= as_str) (Some text).

Definition action_type_serializes_as_snake_case : Test := starting_in tt (
  is_text "raise" "raise_to" (Some (JStr (action_type_text RaiseTo)));;
  is_text "all in" "all_in" (Some (JStr (action_type_text AllIn)))).
Definition street_and_hand_status_serialize_as_snake_case : Test := starting_in tt (
  is_text "preflop" "preflop" (Some (JStr (street_name Preflop)));;
  is_text "settling" "settling" (Some (JStr (hand_status_name HSettling)))).
Definition hand_event_kind_variant_names_are_stable_snake_case : Test := starting_in tt (
  let ev := mkHandEvent 1 2 1 3 1700000000000 (StreetChanged Flop) in
  value ← expect_ok "serialize" (hand_event_json ev);
  is_text "street" "flop" (value_at ["kind"; "street_changed"; "street"] value)).
Definition audit_behavior_event_kind_variant_names_are_stable_snake_case : Test := starting_in tt (
  let ev := mkAuditBehaviorEvent (Some 1) (Some 2) (Some 1) 3 1700000000000
              (ChainTxVerificationCallback (Some 1) (Some 2) "0xabc" "matched" 3 None) in
  is_text "tx_hash" "0xabc"
    (value_at ["kind"; "chain_tx_verification_callback"; "tx_hash"] (audit_event_to_value ev))).

Definition domain_suite : list Test :=
  [action_type_serializes_as_snake_case; street_and_hand_status_serialize_as_snake_case;
   hand_event_kind_variant_names_are_stable_snake_case;
   audit_behavior_event_kind_variant_names_are_stable_snake_case].

(** Every test of [poker-domain] passes. *)
Theorem domain_suite_passes : Forall (λ t, t = Ok tt) domain_suite.
Proof. by repeat constructor. Qed.
End NameSuite.

(** ** The tests of the in-memory stores (the [tests] of [ledger-store/src/lib.rs] and of
    [audit-store/src/lib.rs]), run on the model. *)

Module StoreSuite.
Local Open Scope string_scope.
Local Open Scope list_scope.
Local Open Scope N_scope.

Definition the_time : DateTime := 1700000000000.
Definition room_id : RoomId := 7.
Definition hand_id : HandId := 77.
Definition plan_id : Uuid := 777.
Definition trace_id : TraceId := 5.

(** ** Transactions and keys *)

Definition in_memory_chain_repo_upserts_verification_and_credit : Test :=
  starting_in InMemoryChainTx_new (
    let tx_hash := "0xabc" in
    expect "upsert" (upsert_tx_verification
      (mkTxVerificationUpsert tx_hash room_id None (Some 1) (Some 2) "matched" 3 None
         (Some "from") (Some "to") (Some 10) the_time trace_id));;
    expect "upsert credit" (upsert_exception_credit
      (mkExceptionCreditUpsert room_id (Some 1) tx_hash "unmatched" 10 "open" "value_mismatch"
         the_time trace_id));;
    repo ← get;
    assert_eq "verifications" (tx_verifications_len repo) 1%nat;;
    assert_eq "credits" (exception_credits_len repo) 1%nat).

Definition in_memory_chain_repo_rejects_duplicate_bindings : Test :=
  starting_in InMemoryChainTx_new (
    let base tx_hash :=
      mkTxBindingInsert tx_hash room_id hand_id 1 7 (Some 100) "submitted" the_time trace_id in
    expect "insert" (insert_tx_binding (base "0xtx1"));;
    err ← expect_err "duplicate hand/action" (insert_tx_binding (base "0xtx2"));
    assert "error" (match err with DuplicateTxBinding => true | _ => false end)).

Definition in_memory_chain_repo_returns_active_room_signing_key : Test :=
  starting_in InMemoryChainTx_new (
    expect "insert" (upsert_room_signing_key_record
      (mkRoomSigningKeyRecord room_id "0xroom" [1; 2; 3] "AES-256-GCM" 1%Z "kek-1"
         (replicate 12 0) [97; 97; 100] "active" the_time None None));;
    found ← expect "query" (get_active_room_signing_key room_id);
    record ← expect_some "record" found;
    assert_eq "address" (rk_address record) "0xroom";;
    assert_eq "cipher" (rk_cipher_alg record) "AES-256-GCM").

(** ** Settlements *)

Definition a_plan (rake_amount payout_total : Chips) (payload_json : Json) :=
  mkSettlementPlanRecordInsert plan_id room_id hand_id "created" rake_amount payout_total
    payload_json the_time None.
Definition a_record (settlement_plan_id : Uuid) (tx_hash : string) :=
  mkSettlementRecordInsert 7777 settlement_plan_id room_id hand_id (Some tx_hash) "submitted" 0%Z
    None the_time the_time.

Definition in_memory_settlement_persistence_repo_inserts_plan_and_record : Test :=
  starting_in InMemorySettlement_new (
    expect "insert plan" (insert_settlement_plan (a_plan 10 90
      (JObj [("payouts", JArr [JObj [("seat_id", JNum 1); ("amount", JStr "90")]])])));;
    expect "insert record" (insert_settlement_record (a_record plan_id "0xtx"));;
    repo ← get;
    assert_eq "plans" (settlement_plans_len repo) 1%nat;;
    assert_eq "records" (settlement_records_len repo) 1%nat).

Definition in_memory_settlement_persistence_repo_updates_record_status_by_tx_hash : Test :=
  starting_in InMemorySettlement_new (
    let tx_hash := "0xtx" in
    expect "insert" (insert_settlement_record (a_record 888 tx_hash));;
    expect "update" (update_settlement_record_status_by_tx_hash
      (mkSettlementRecordStatusUpdate tx_hash "failed" 1%Z (Some "rpc timeout") the_time));;
    repo ← get;
    guard ← expect_ok "lock" (lock (settlement_records repo));
    record ← expect_some "record" (head (map snd (map_to_list guard)));
    assert_eq "status" (sr_settlement_status record) "failed";;
    assert_eq "retries" (sr_retry_count record) 1%Z;;
    assert_eq "detail" (sr_error_detail record) (Some "rpc timeout")).

Definition in_memory_settlement_persistence_read_repo_queries_by_plan_and_hand : Test :=
  starting_in InMemorySettlement_new (
    expect "insert plan" (insert_settlement_plan (a_plan 1 9 (JObj [("ok", JBool true)])));;
    expect "insert record" (insert_settlement_record (a_record plan_id "0x1"));;
    found ← expect "query" (get_settlement_plan plan_id);
    got_plan ← expect_some "found" found;
    assert_eq "hand" (spr_hand_id got_plan) hand_id;;
    records ← expect "query records" (list_settlement_records_by_hand hand_id);
    assert_eq "records" (length records) 1%nat;;
    assert_eq "status" (sr_settlement_status <$> head records) (Some "submitted")).

(** ** Audit *)

Definition new_audit : InMemoryAuditRepository :=
  mkInMemoryAudit (mkMutex false []) (mkMutex false []) (mkMutex false []) (mkMutex false []).

Definition in_memory_outbox_fetch_and_mark_delivered : Test := starting_in new_audit (
  let record := mkOutboxEvent "evt-1" "hand.events" "p1" (JObj []) "pending" 0 the_time None
                  the_time in
  expect "insert" (insert_outbox_event record);;
  pending ← expect "fetch" (fetch_pending_outbox_events 10);
  assert_eq "pending" (length pending) 1%nat;;
  expect "mark" (mark_outbox_event_delivered "evt-1" the_time);;
  pending ← expect "fetch" (fetch_pending_outbox_events 10);
  assert_eq "delivered" (length pending) 0%nat).

Definition in_memory_append_hand_events_stores_records : Test := starting_in new_audit (
  let event := mkHandEvent room_id hand_id 1 trace_id the_time HandStarted in
  expect "append" (append_hand_events [event]);;
  repo ← get;
  stored ← expect_ok "lock" (audit_lock (hand_events repo));
  assert_eq "stored" (length stored) 1%nat).

Definition store_suite : list Test := [
  in_memory_chain_repo_upserts_verification_and_credit;
  in_memory_chain_repo_rejects_duplicate_bindings;
  in_memory_chain_repo_returns_active_room_signing_key;
  in_memory_settlement_persistence_repo_inserts_plan_and_record;
  in_memory_settlement_persistence_repo_updates_record_status_by_tx_hash;
  in_memory_settlement_persistence_read_repo_queries_by_plan_and_hand;
  in_memory_outbox_fetch_and_mark_delivered;
  in_memory_append_hand_events_stores_records].

(** Every test of the stores passes on the model. *)
Theorem store_suite_passes : Forall (λ t, t = Ok tt) store_suite.
Proof. vm_compute. by repeat constructor. Qed.
End StoreSuite.

(** ** The tests of the chain watcher (the [tests] of [chain-watcher/src/lib.rs] but the one
    that the source ignores for it needs a node), run on the model. *)

Module ChainSuite.
Local Open Scope string_scope.
Local Open Scope list_scope.
Local Open Scope N_scope.

(** The client answers from a list and counts its calls; the sink keeps what it is told. *)
Record Chain := mkChain {
  ch_calls : N;
  ch_sequence : list (option ObservedTx);
  ch_events : list TxVerificationCallback;
}.
Definition mock_get_tx (_ : string) : M Chain ChainWatcherError (option ObservedTx) :=
  modify (λ c, mkChain (ch_calls c + 1) (ch_sequence c) (ch_events c));;
  c ← get;
  match ch_sequence c with
  | [] => mret None
  | first :: rest =>
      modify (λ c, mkChain (ch_calls c) rest (ch_events c));;
      mret first
  end.
#[local] Instance MockRpcClient : EvmLikeTxRpcClient Chain := {| get_tx := mock_get_tx |}.
#[local] Instance RecordingSink : VerificationCallbackSink Chain := {|
  on_verification_result callback :=
    modify (λ c, mkChain (ch_calls c) (ch_sequence c) (ch_events c ++ [callback]))
|}.
#[local] Instance no_timer : Timer Chain := {| sleep_ms _ c := c |}.
Definition new_chain (sequence : list (option ObservedTx)) : Chain := mkChain 0 sequence [].

Definition sample_input : TxVerificationInput :=
  mkTxVerificationInput 7 (Some 77) (Some 1) (Some 2) "0xabc" "room_addr" (Some "seat_addr")
    (Some 100) 3.
Definition sample_observed : ObservedTx := mkObservedTx "0xabc" "seat_addr" "room_addr" 100 true 3.

(** The observation of the tests with another receiver, value, status or depth. *)
Definition observed_with (to : string) (value : Chips) (success : bool) (confirmations : N) : ObservedTx :=
  mkObservedTx "0xabc" "seat_addr" to value success confirmations.
Definition status_is (status : VerificationStatus) (r : TxVerificationResult) : M Chain string unit :=
  assert_eq "status" (vr_status r) status.
Definition reason_is (reason : string) (r : TxVerificationResult) : M Chain string unit :=
  assert_eq "reason" (vr_failure_reason r) (Some reason).
Definition is_pending_decision (d : ConfirmationDecision) : bool :=
  match d with DecisionPending => true | DecisionConfirmed => false end.

Definition classify_returns_pending_when_confirmations_insufficient : Test :=
  starting_in (new_chain []) (
    status_is VPending (classify_tx_verification sample_input (observed_with "room_addr" 100 true 1))).

Definition evaluate_confirmations_respects_threshold : Test := starting_in (new_chain []) (
  assert "pending" (is_pending_decision (evaluate_confirmations 3 2));;
  assert "confirmed" (negb (is_pending_decision (evaluate_confirmations 3 3)))).

Definition check_tx_fields_rejects_to_mismatch : Test := starting_in (new_chain []) (
  r ← expect_some "mismatch"
    (check_tx_fields sample_input (observed_with "wrong_room" 100 true 3));
  status_is VUnmatched r;;
  reason_is "to_mismatch" r).

Definition check_tx_status_and_identity_rejects_failed_tx : Test := starting_in (new_chain []) (
  r ← expect_some "failed"
    (check_tx_status_and_identity sample_input (observed_with "room_addr" 100 false 3));
  status_is VFailed r;;
  reason_is "tx_failed" r).

Definition classify_returns_unmatched_on_value_mismatch : Test := starting_in (new_chain []) (
  let r := classify_tx_verification sample_input (observed_with "room_addr" 101 true 3) in
  status_is VUnmatched r;;
  reason_is "value_mismatch" r).

Definition classify_returns_failed_on_tx_failure : Test := starting_in (new_chain []) (
  status_is VFailed (classify_tx_verification sample_input (observed_with "room_addr" 100 false 3))).

Definition classify_returns_late_when_binding_context_missing : Test := starting_in (new_chain []) (
  let input := mkTxVerificationInput 7 (Some 77) (Some 1) None "0xabc" "room_addr"
                 (Some "seat_addr") (Some 100) 3 in
  status_is VLate (classify_tx_verification input sample_observed)).

Definition classify_returns_matched_when_all_checks_pass : Test := starting_in (new_chain []) (
  status_is VMatched (classify_tx_verification sample_input sample_observed)).

Definition dispatch_callback_forwards_to_sink : Test := starting_in (new_chain []) (
  let r := classify_tx_verification sample_input sample_observed in
  expect "dispatch" (dispatch_verification_callback sample_input r);;
  stored ← gets ch_events;
  assert_eq "stored" (length stored) 1%nat;;
  event ← expect_some "event" (head stored);
  assert_eq "room" (vc_room_id event) (vi_room_id sample_input);;
  assert_eq "status" (vc_status event) VMatched).

Definition retry_policy_backoff_is_capped : Test := starting_in (new_chain []) (
  let retry := mkRetryPolicy 5 100 250 in
  assert_eq "backoffs" (map (backoff_ms retry) [0; 1; 2]) [100; 200; 250]).

Definition query_tx_with_retry_retries_until_found : Test :=
  starting_in (new_chain [None; None; Some sample_observed]) (
    found ← expect "query" (query_tx_with_retry "0xabc" (mkRetryPolicy 4 1 2));
    assert "found" (bool_decide (is_Some found));;
    calls ← gets ch_calls;
    assert_eq "calls" calls 3).

Definition verify_tx_with_retry_returns_pending_when_not_found : Test :=
  starting_in (new_chain [None; None]) (
    r ← expect "verify" (verify_tx_with_retry sample_input (mkRetryPolicy 2 1 1));
    status_is VPending r;;
    reason_is "tx_not_found" r).

Definition evm_chain_watcher_verify_and_dispatch_uses_client_and_sink : Test :=
  starting_in (new_chain [Some sample_observed]) (
    r ← expect "verify+dispatch" (verify_and_dispatch (mkRetryPolicy 1 1 1) sample_input);
    status_is VMatched r;;
    calls ← gets ch_calls;
    assert_eq "calls" calls 1;;
    events ← gets ch_events;
    assert_eq "events" (length events) 1%nat).

Definition parse_hex_quantity_helpers_work : Test := starting_in (new_chain []) (
  zero ← expect_ok "u64" (parse_u64 "0x0");
  assert_eq "0x0" zero 0;;
  sixteen ← expect_ok "u64" (parse_u64 "0x10");
  assert_eq "0x10" sixteen 16;;
  hundred ← expect_ok "u128" (parse_u128 "0x64");
  assert_eq "0x64" hundred 100).

Definition chain_suite : list Test :=
  [classify_returns_pending_when_confirmations_insufficient;
   evaluate_confirmations_respects_threshold;
   check_tx_fields_rejects_to_mismatch;
   check_tx_status_and_identity_rejects_failed_tx;
   classify_returns_unmatched_on_value_mismatch;
   classify_returns_failed_on_tx_failure;
   classify_returns_late_when_binding_context_missing;
   classify_returns_matched_when_all_checks_pass;
   dispatch_callback_forwards_to_sink;
   retry_policy_backoff_is_capped;
   query_tx_with_retry_retries_until_found;
   verify_tx_with_retry_returns_pending_when_not_found;
   evm_chain_watcher_verify_and_dispatch_uses_client_and_sink;
   parse_hex_quantity_helpers_work].

(** Every test of the chain watcher passes on the model. *)
Theorem chain_suite_passes : Forall (λ t, t = Ok tt) chain_suite.
Proof. vm_compute. by repeat constructor. Qed.
End ChainSuite.

(** ** The tests of the administration endpoints (the [tests] of [ops-http/src/lib.rs]), run
    on the model. The state of the server is the in-memory repositories. *)

Module OpsSuite.
Local Open Scope string_scope.
Local Open Scope list_scope.
Local Open Scope N_scope.

(** ** The server's state *)

Record Ops := mkOps {
  op_audit : InMemoryAuditRepository;
  op_chain : InMemoryChainTxRepository;
  op_rooms : InMemoryRoomAdminReadRepository;
  op_settlements : InMemorySettlementPersistenceRepository;
  op_writes : list (HandId * AdminUpsertShowdownInputRequest);
}.
Definition new_ops : Ops :=
  mkOps new_audit InMemoryChainTx_new InMemoryRoomAdmin_new InMemorySettlement_new [].

Definition on_audit {E A} : M InMemoryAuditRepository E A → M Ops E A :=
  zoom op_audit (λ x o, mkOps x (op_chain o) (op_rooms o) (op_settlements o) (op_writes o)).
Definition on_chain {E A} : M InMemoryChainTxRepository E A → M Ops E A :=
  zoom op_chain (λ x o, mkOps (op_audit o) x (op_rooms o) (op_settlements o) (op_writes o)).
Definition on_rooms {E A} : M InMemoryRoomAdminReadRepository E A → M Ops E A :=
  zoom op_rooms (λ x o, mkOps (op_audit o) (op_chain o) x (op_settlements o) (op_writes o)).
Definition on_settlements {E A} : M InMemorySettlementPersistenceRepository E A → M Ops E A :=
  zoom op_settlements (λ x o, mkOps (op_audit o) (op_chain o) (op_rooms o) x (op_writes o)).

#[local] Instance ops_clock : Clock Ops := {| utc_now _ := 1700000000000 |}.
#[local] Instance ops_audit : AuditReadRepository Ops := {|
  get_action_attempt_by_request_id id := on_audit (get_action_attempt_by_request_id id);
  list_behavior_events room hand page := on_audit (list_behavior_events room hand page);
  list_hand_events hand page := on_audit (list_hand_events hand page);
|}.
#[local] Instance ops_chain : ChainTxReadRepository Ops := {|
  get_tx_verification h := on_chain (get_tx_verification h);
  get_tx_binding_by_tx_hash h := on_chain (get_tx_binding_by_tx_hash h);
  get_tx_binding_by_hand_action hand seq := on_chain (get_tx_binding_by_hand_action hand seq);
  list_exception_credits room page := on_chain (list_exception_credits room page);
|}.
#[local] Instance ops_rooms : RoomAdminReadRepository Ops :=
  {| get_room_admin_aggregate id := on_rooms (get_room_admin_aggregate id) |}.
#[local] Instance ops_settlements : SettlementPersistenceRepository Ops := {|
  insert_settlement_plan r := on_settlements (insert_settlement_plan r);
  insert_settlement_record r := on_settlements (insert_settlement_record r);
  update_settlement_record_status_by_tx_hash u :=
    on_settlements (update_settlement_record_status_by_tx_hash u);
  upsert_settlement_showdown_input r := on_settlements (upsert_settlement_showdown_input r);
|}.
#[local] Instance ops_settlements_read : SettlementPersistenceReadRepository Ops := {|
  get_settlement_plan i := on_settlements (get_settlement_plan i);
  list_settlement_records_by_hand h := on_settlements (list_settlement_records_by_hand h);
  get_settlement_showdown_input h := on_settlements (get_settlement_showdown_input h);
|}.
#[local] Instance InMemoryShowdownAdminRepo : ShowdownAdminRepository Ops := {|
  admin_upsert_showdown_input hand_id payload := modify (λ o,
    mkOps (op_audit o) (op_chain o) (op_rooms o) (op_settlements o)
      (op_writes o ++ [(hand_id, payload)]))
|}.
#[local] Instance plain_values : OpsRender := {|
  attempt_to_value _ := Ok JNull; verification_to_value _ := Ok JNull;
  binding_to_value _ := Ok JNull; credit_to_value _ := Ok JNull;
  plan_record_to_value _ := Ok JNull; settlement_record_to_value _ := Ok JNull;
|}.
Definition answered {A} (what : string) (m : M Ops Empty_set A) : M Ops string A := expect what m.

Definition room_id : RoomId := 7.
Definition hand_id : HandId := 77.
Definition plan_id : Uuid := 777.
Definition the_time : DateTime := 1700000000000.

(** ** The tests *)

Definition admin_audit_request_reads_from_in_memory_repo : Test := starting_in new_ops (
  let req_id := 42 in
  expect "insert" (on_audit (insert_action_attempt
    (mkActionAttempt "9" (uuid_text req_id) "n1" None None None None None None "game.act"
       (Some "call") (JObj []) "ok" "ok" "ok" "ok" "ok" None None the_time (Some the_time) 5)));;
  resp ← answered "audit" (admin_audit_request (uuid_text req_id));
  assert "found" (ar_found resp);;
  assert "record" (bool_decide (is_Some (ar_record resp)))).

Definition admin_audit_tx_reads_verification_and_exception_credit : Test := starting_in new_ops (
  let tx_hash := "0xabc" in
  expect "tx verification" (on_chain (upsert_tx_verification
    (mkTxVerificationUpsert tx_hash room_id None (Some 1) (Some 2) "matched" 1 None
       (Some "0xfrom") (Some "0xto") (Some 10) the_time 5)));;
  expect "exception credit" (on_chain (upsert_exception_credit
    (mkExceptionCreditUpsert room_id (Some 1) tx_hash "unmatched" 10 "open" "mismatch" the_time 5)));;
  expect "tx binding" (on_chain (insert_tx_binding
    (mkTxBindingInsert tx_hash room_id hand_id 1 2 (Some 10) "submitted" the_time 5)));;
  resp ← answered "audit" (admin_audit_tx tx_hash);
  assert "found" (at_found resp);;
  assert "verification" (bool_decide (is_Some (at_verification resp)));;
  assert "binding" (bool_decide (is_Some (at_tx_binding resp)));;
  assert_eq "credits" (length (at_exception_credits resp)) 1%nat).

Definition admin_hand_replay_reads_hand_events : Test := starting_in new_ops (
  expect "append hand event" (on_audit (AuditStore.append_hand_events
    [mkHandEvent room_id hand_id 1 5 the_time HandStarted]));;
  resp ← answered "replay" (admin_hand_replay (uuid_text hand_id));
  assert "found" (hp_found resp);;
  assert_eq "events" (length (hp_events resp)) 1%nat).

Definition admin_room_reads_room_aggregate : Test := starting_in new_ops (
  expect "upsert room" (on_rooms (upsert_room_aggregate
    (mkRoomAggregate room_id "active" "cfx:room" 6 2 None (Some 12) (Some "running")
       (Some the_time) 1 "10")));;
  resp ← answered "room" (admin_room (uuid_text room_id));
  assert "found" (am_found resp);;
  room ← expect_some "room" (am_room resp);
  assert_eq "seats" (ra_occupied_seats room) 2).

Definition plan_of (rake_amount payout_total : Chips) (payload : Json) : SettlementPlanRecordInsert :=
  mkSettlementPlanRecordInsert plan_id room_id hand_id "created" rake_amount payout_total payload
    the_time None.
Definition admin_settlement_hand_reads_plan_and_records : Test := starting_in new_ops (
  expect "plan" (insert_settlement_plan (plan_of 1 9 (JObj [("payouts", JArr [])])));;
  expect "record" (insert_settlement_record
    (mkSettlementRecordInsert 7777 plan_id room_id hand_id (Some "0xtx") "submitted" 0%Z None
       the_time the_time));;
  resp ← answered "settlement" (admin_settlement_hand (uuid_text hand_id));
  assert "found" (sx_found resp);;
  assert "plan" (bool_decide (is_Some (sx_plan resp)));;
  assert_eq "records" (length (sx_records resp)) 1%nat).

Definition admin_mark_settlement_manual_review_updates_status_by_tx_hash : Test :=
  starting_in new_ops (
    expect "plan" (insert_settlement_plan (plan_of 0 5 (JObj [])));;
    expect "record" (insert_settlement_record
      (mkSettlementRecordInsert 7777 plan_id room_id hand_id (Some "0xtxmark") "failed" 1%Z
         (Some "failed") the_time the_time));;
    resp ← answered "review" (admin_mark_settlement_manual_review "0xtxmark"
      (mkMarkReview (Some 2%Z) (Some "ops escalation")));
    assert "ok" (mm_ok resp);;
    assert_eq "status" (mm_settlement_status resp) "manual_review_required";;
    records ← expect "list" (list_settlement_records_by_hand hand_id);
    assert "marked" (existsb (λ r,
      bool_decide (sr_tx_hash r = Some "0xtxmark")
      && bool_decide (sr_settlement_status r = "manual_review_required")
      && (sr_retry_count r =? 2)%Z) records)).

Definition admin_upsert_showdown_input_writes_repo : Test := starting_in new_ops (
  resp ← answered "upsert" (admin_upsert_showdown (uuid_text hand_id)
    (mkUpsertInput (uuid_text room_id) "AhKhQhJhTh" [mkSeatCardsInput 0 "2c3d"]));
  assert "accepted" (uo_accepted resp);;
  writes ← gets op_writes;
  assert_eq "writes" (length writes) 1%nat;;
  '(hand, payload) ← expect_some "write" (head writes);
  assert_eq "hand" hand hand_id;;
  assert_eq "room" (ui_room_id payload) (uuid_text room_id)).

Definition ops_suite : list Test :=
  [admin_audit_request_reads_from_in_memory_repo;
   admin_audit_tx_reads_verification_and_exception_credit;
   admin_hand_replay_reads_hand_events;
   admin_room_reads_room_aggregate;
   admin_settlement_hand_reads_plan_and_records;
   admin_mark_settlement_manual_review_updates_status_by_tx_hash;
   admin_upsert_showdown_input_writes_repo].

(** Every test of the administration endpoints passes on the model. *)
Theorem ops_suite_passes : Forall (λ t, t = Ok tt) ops_suite.
Proof. vm_compute. by repeat constructor. Qed.
End OpsSuite.
