(* ===== verification/ClientTests.v ===== *)
(** The tests of the clients (the [tests] of [agent-sdk/src/lib.rs] and of
    [policy_adapter.rs], [wallet_adapter.rs], [client.rs], [runtime.rs] and
    [local_multi_bot_demo.rs] of [headless-agent-client]) and of the configuration
    ([platform-core/src/lib.rs]), run on the model. Left out are the tests of a real
    subprocess or node and that of serde's text of an error code. *)

From stdpp Require Import base tactics option list gmap strings pretty.
From Stdlib Require Import NArith ZArith.
From Stdlib Require Strings.Byte Strings.String.
From S2P Require Import Prelude.
From S2P Require Import Ambient.
From S2P Require Import Text.
From S2P Require Import Domain.
From S2P Require Import LedgerStore.
From S2P Require Import JsonRpc.
From S2P Require Import AgentAuth.
From S2P Require Import ChainWatcher.
From S2P Require Import SeatCrypto.
From S2P Require Import TableService.
From S2P Require Import GatewayTypes.
From S2P Require Import RoomHandles.
From S2P Require Import RoomDemo.
From S2P Require Import RoomService.
From S2P Require Import RoomServiceProps.
From S2P Require Import AgentSdk.
From S2P Require Import AgentClient.
From S2P Require Import AgentRuntime.
From S2P Require Import LocalDemo.
From S2P Require Import LocalDemoProps.
From S2P Require Import Startup.
From S2P Require Import Testing.
From S2P Require Import AppTests.

Local Open Scope string_scope.
Local Open Scope list_scope.
Local Open Scope N_scope.

Definition room_id : RoomId := 7.
Definition hand_id : HandId := 77.

(** ** [agent-sdk] *)

(** The skill beside a counter of identifiers. *)
Abbreviation Skill := (LocalAgentSkill * DemoWorld)%type.
Definition new_skill : Skill := (LocalAgentSkill_default, mkDemoWorld 1700000000000 1000).
#[local] Existing Instance demo_clock.
Definition local_endpoint : AgentSkillConfig := mkSkillConfig "http://127.0.0.1:9000" None None.
Definition is_duplicate (e : AgentSkillError) : bool :=
  match e with DuplicateActionAttempt => true | _ => false end.
Definition retries (d : RetryDecision) : bool := match d with DoRetry => true | _ => false end.

Definition retry_policy_respects_attempt_budget : Test := starting_in tt (
  let policy := AgentSdk.mkRetryPolicy 2 true true in
  assert "first" (retries (should_retry policy 1 TimeoutError));;
  assert "second" (negb (retries (should_retry policy 2 TimeoutError)))).

Definition local_action_attempt_store_rejects_duplicate_key : Test :=
  starting_in LocalActionAttemptStore_new (
    let key := mkAttemptKey room_id hand_id 1 3 in
    expect "first" (reserve key);;
    err ← expect_err "duplicate" (reserve key);
    assert "error" (is_duplicate err)).

Definition local_skill_builds_ready_and_bind_session_keys_requests : Test :=
  starting_in new_skill (
    expect "connect" (skill_connect local_endpoint);;
    expect "join" (join_room room_id 1);;
    expect "bind seat addr" (bind_seat_address "0xabc");;
    ready ← expect "ready req" build_room_ready_request;
    assert_eq "room" (rr_room_id ready) room_id;;
    assert_eq "seat" (rr_seat_id ready) 1;;
    bind_keys ← expect "bind keys req"
      (build_bind_session_keys_request_unsigned (repeat_text 32 "11") "x25519+evm");
    assert_eq "room" (bk_room_id bind_keys) room_id;;
    assert_eq "seat" (bk_seat_id bind_keys) 1;;
    assert_eq "address" (bk_seat_address bind_keys) "0xabc";;
    assert_eq "proof" (bk_proof_signature bind_keys) "";;
    assert_eq "pubkey" (bk_request_verify_pubkey bind_keys) "").

Definition local_skill_builds_game_act_request : Test := starting_in new_skill (
  expect "connect" (skill_connect local_endpoint);;
  expect "join" (join_room room_id 0);;
  expect "bind address" (bind_seat_address "0xabc");;
  expect "bind keys" (build_bind_session_keys_request_unsigned (repeat_text 32 "11") "x25519+evm");;
  req ← expect "act" (build_game_act_request hand_id 1 Check None (Some "0xtx"));
  assert_eq "action" (ga_action_type req) "check").

(** ** [policy_adapter.rs] *)

Definition offered (legal_actions : list string) : PolicyDecisionInput :=
  mkPolicyInput room_id hand_id 1 legal_actions (JObj []) None None.
Definition is_rule (s : PolicySource) : bool := match s with SourceRule => true | _ => false end.
Definition is_llm (s : PolicySource) : bool := match s with SourceLlm => true | _ => false end.

Definition rule_policy_prefers_check_then_call_then_fold : Test := starting_in tt (
  chosen ← expect "decision" (decide_action (PolicyAdapter := RulePolicyAdapter)
    (offered ["fold"; "check"]));
  decision ← expect_some "some" chosen;
  assert_eq "action" (pd_action_type decision) Check;;
  assert "source" (is_rule (pd_source decision))).

(** The process prints one line, which serde reads as the decision the test writes. *)
#[local] Instance mock_cli : CodexProcess unit := {|
  codex_output _ := mret "mock_cli_output";
  codex_raw_from_str text :=
    if String.eqb text "mock_cli_output" then Some (mkCodexRaw "call" None (Some "mock_cli_ok"))
    else None;
  policy_input_to_value _ := JNull;
  codex_instruction := "";
|}.
Definition codex_cli_policy_adapter_can_exchange_stdio_with_cli_process : Test := starting_in tt (
  chosen ← expect "decision" (decide_action (PolicyAdapter := CodexCliPolicyAdapter)
    (offered ["fold"; "call"]));
  decision ← expect_some "some" chosen;
  assert_eq "action" (pd_action_type decision) Call;;
  assert "source" (is_llm (pd_source decision));;
  assert_eq "rationale" (pd_rationale decision) (Some "mock_cli_ok")).

(** ** [wallet_adapter.rs] *)

#[local] Instance number_simple : UuidSimple := {| uuid_simple := pretty |}.
Definition mock_wallet_adapter_returns_tx_hash : Test := starting_in (mkDemoWorld 0 1000) (
  receipt ← expect "transfer" (transfer_to_room (WalletAdapter := MockEvmWalletAdapter)
    (mkEvmTransfer room_id "0xfrom" "0xto" 10 71));
  assert "submitted" (er_submitted receipt);;
  assert "hash" (String.prefix "0x" (er_tx_hash receipt))).

Definition parse_hex_u64_works_for_evm_quantities : Test := starting_in tt (
  zero ← expect_ok "zero" (wallet_parse_hex_u64 "0x0");
  one ← expect_ok "one" (wallet_parse_hex_u64 "0x1");
  sixteen ← expect_ok "sixteen" (wallet_parse_hex_u64 "0x10");
  assert_eq "values" [zero; one; sixteen] [0; 1; 16]).

(** ** [client.rs] *)

Definition reconnect_policy_backoff_is_capped : Test := starting_in tt (
  let policy := mkReconnectPolicy (rp_max_retries ReconnectPolicy_default) 100 500 in
  assert_eq "backoffs" (map (reconnect_backoff_ms policy) [0; 1; 3]) [100; 200; 500]).

Definition same_spec (a b : SubscriptionSpec) : bool :=
  bool_decide (ss_topic a = ss_topic b) && bool_decide (ss_room_id a = ss_room_id b)
  && bool_decide (ss_hand_id a = ss_hand_id b) && bool_decide (ss_seat_id a = ss_seat_id b).
Definition ws_session_restores_subscriptions_after_reconnect : Test :=
  starting_in (mkSession false 0 ∅) (
    let spec := mkSubscriptionSpec "seat_events" room_id None (Some 1) in
    modify (register_subscription "local-1" spec);;
    modify mark_connected;;
    to_restore ← gets subscriptions_to_restore;
    assert_eq "to restore" (length to_restore) 1%nat;;
    '(_, restored) ← expect_some "first" (head to_restore);
    assert "spec" (same_spec restored spec);;
    modify (mark_subscription_active "local-1" "remote-1");;
    to_restore ← gets subscriptions_to_restore;
    assert_eq "active" (length to_restore) 0%nat;;
    modify mark_disconnected;;
    attempt ← gets ws_reconnect_attempt;
    assert_eq "attempt" attempt 1;;
    to_restore ← gets subscriptions_to_restore;
    assert_eq "lost" (length to_restore) 1%nat).

(** ** [runtime.rs] *)

(** The plaintext of the cards is their two bytes; the other encodings are not used. *)
Definition two_card_bytes (l : Bytes) : result string Json :=
  match l with
  | [a; b] => Ok (JObj [("cards", JArr [json_N (Byte.to_N a); json_N (Byte.to_N b)])])
  | _ => Err "invalid type"
  end.
#[local] Instance client_values : ClientCodec := {|
  ready_to_value _ := Err ""; bind_address_to_value _ := Err ""; bind_keys_to_value _ := Err "";
  act_to_value _ := Err ""; get_state_to_value _ := Err ""; get_legal_to_value _ := Err "";
  get_private_to_value _ := Err ""; unit_reply_from_value _ := Err "";
  state_reply_from_value _ := Err ""; legal_reply_from_value _ := Err "";
  private_reply_from_value _ := Err "";
  hole_cards_from_value j := ok_or "invalid type" (json_payload j);
  json_from_slice := two_card_bytes;
  private_event_to_value _ := JNull; hand_status_to_value _ := JNull; street_to_value _ := JNull;
  json_display := json_print; hex_decode_error _ := "";
|}.

Definition envelope_ok_unit_accepts_ok_with_null_data : Test := starting_in tt (
  expect_ok "ok" (client_envelope_ok_unit (mkEnvelope true None None))).

(** [state[k]], and the length of an array in it. *)
Definition array_at (k : string) (state : Json) : list Json :=
  default [] (json_get k state ≫= as_array).
Definition private_state (events : list PrivatePayloadEvent) (secret : option string)
    : M (N : Type) string Json :=
  state ← expect_ok "private state" (build_private_state_json events secret);
  expect_some "some" state.
Definition text_of (j : option Json) : option string := j ≫= as_str.

Definition private_state_contains_events_without_secret : Test := starting_in 0 (
  state ← private_state
    [mkPrivatePayload room_id hand_id 0 "hole_cards_dealt" (JObj [("foo", JStr "bar")])] None;
  assert_eq "events" (length (array_at "events" state)) 1%nat;;
  assert_eq "cards" (length (array_at "decrypted_hole_cards" state)) 0%nat;;
  assert_eq "pretty" (length (array_at "decrypted_hole_cards_pretty" state)) 0%nat;;
  assert_eq "suits" (text_of (json_get "card_index_encoding" state
    ≫= λ e, head (array_at "suit_bucket_map" e))) (Some "s")).

#[local] Instance counted_secrets : EphemeralSecrets N :=
  {| random_secret n := (n + 1, replicate 32 (default Byte.x00 (Byte.of_N n))) |}.
Definition numbers_at (k : string) (j : Json) : list N := omap as_u64 (array_at k j).
Definition private_state_decrypts_hole_cards_when_secret_provided : Test := starting_in 50 (
  let secret := replicate 32 Byte.x09 in
  let aad := mkSeatEventAad room_id hand_id 1 1 in
  payload ← expect "encrypt" (encrypt_hole_cards_dealt_payload "k1" (x25519_public secret) aad
    (omap Byte.of_N [7; 42]));
  state ← private_state
    [mkPrivatePayload (ad_room_id aad) (ad_hand_id aad) (ad_seat_id aad) "hole_cards_dealt"
       (payload_json payload)] (Some (hex_encode (map Byte.to_N secret)));
  cards ← expect_some "cards" (head (array_at "decrypted_hole_cards" state));
  assert_eq "cards" (numbers_at "cards" cards) [7; 42];;
  pretty ← expect_some "pretty"
    (head (array_at "decrypted_hole_cards_pretty" state) ≫= as_array);
  assert_eq "pretty" (omap as_str pretty) ["9s"; "5d"];;
  assert_eq "failures" (json_get "decrypt_failures" state ≫= as_u64) (Some 0)).

Definition chosen (action_type : ActionType) (amount : option Chips) : PolicyDecision :=
  mkDecision action_type amount None SourceLlm.
Definition resolve_amount_ignores_non_monetary_amounts_for_fold_and_check : Test :=
  starting_in tt (
    let legal_actions := [mkLegalAction Fold None None; mkLegalAction Check None None] in
    fold ← expect_ok "fold amount"
      (resolve_action_amount_from_legal_actions (chosen Fold (Some 0)) legal_actions);
    assert_eq "fold" fold None;;
    check ← expect_ok "check amount"
      (resolve_action_amount_from_legal_actions (chosen Check (Some 0)) legal_actions);
    assert_eq "check" check None).

Definition resolve_amount_uses_call_min_amount : Test := starting_in tt (
  amount ← expect_ok "call amount" (resolve_action_amount_from_legal_actions (chosen Call None)
    [mkLegalAction Call (Some 200) (Some 200)]);
  assert_eq "call" amount (Some 200)).

(** ** [local_multi_bot_demo.rs] *)

#[local] Existing Instances demo_instant demo_offline.
#[local] Instance deck_in_order : Shuffler DemoWorld := {| draw_shuffle w := (w, id) |}.
#[local] Instance no_secrets : EphemeralSecrets DemoWorld := {| random_secret w := (w, []) |}.
#[local] Instance demo_timer : Timer DemoWorld :=
  {| sleep_ms ms w := mkDemoWorld (dw_time w + ms) (dw_next_id w) |}.
#[local] Instance demo_house : RoomActors (House DemoWorld) := demo_rooms RoomActorConfig_default.
Definition empty_house : House DemoWorld := mkHouse (mkDemoWorld 0 100) ∅ 0 0.
Definition local_multi_bot_demo_reaches_showdown_or_terminal_state : Test :=
  starting_in empty_house (
    status ← expect "demo should progress" (run_local_multi_bot_demo 65 64);
    assert "status" (match status with
                     | Some (HShowdown | HSettled | HAborted) => true
                     | _ => false
                     end)).

(** ** [platform-core] *)

(** The two files of the test, as the parser reads them. *)
Definition default_toml : PartialAppConfig :=
  mkPartial (Some (mkPartialApp None (Some "default-service") (Some "127.0.0.1:9000")
                     (Some "127.0.0.1:9100")))
    (Some (mkPartialObservability (Some "info"))).
Definition dev_toml : PartialAppConfig :=
  mkPartial (Some (mkPartialApp None (Some "dev-service") (Some "0.0.0.0:9000") None))
    (Some (mkPartialObservability (Some "debug"))).
Definition read_test_file (path : string) : result string string :=
  if String.eqb path "tmp/default.toml" then Ok "default"
  else if String.eqb path "tmp/dev.toml" then Ok "dev" else Err "no such file".
Definition parse_test_file (content : string) : result string PartialAppConfig :=
  Ok (if String.eqb content "default" then default_toml else dev_toml).

Definition config_loader_merges_default_and_env_files : Test := starting_in tt (
  config ← expect_ok "load config"
    (load_from_dir_for_env (λ _, None) read_test_file parse_test_file "tmp" Dev);
  assert_eq "environment" (ap_env (app config)) Dev;;
  assert_eq "service" (ap_service_name (app config)) "dev-service";;
  assert_eq "rpc" (ap_rpc_bind_addr (app config)) "0.0.0.0:9000";;
  assert_eq "ops" (ap_ops_http_bind_addr (app config)) "127.0.0.1:9100";;
  assert_eq "filter" (ob_log_filter (observability config)) "debug").

(** ** The outcome of the tests *)

Definition client_suite : list Test :=
  [retry_policy_respects_attempt_budget;
   local_action_attempt_store_rejects_duplicate_key;
   local_skill_builds_ready_and_bind_session_keys_requests;
   local_skill_builds_game_act_request;
   rule_policy_prefers_check_then_call_then_fold;
   codex_cli_policy_adapter_can_exchange_stdio_with_cli_process;
   mock_wallet_adapter_returns_tx_hash;
   parse_hex_u64_works_for_evm_quantities;
   reconnect_policy_backoff_is_capped;
   ws_session_restores_subscriptions_after_reconnect;
   envelope_ok_unit_accepts_ok_with_null_data;
   private_state_contains_events_without_secret;
   private_state_decrypts_hole_cards_when_secret_provided;
   resolve_amount_ignores_non_monetary_amounts_for_fold_and_check;
   resolve_amount_uses_call_min_amount;
   local_multi_bot_demo_reaches_showdown_or_terminal_state;
   config_loader_merges_default_and_env_files].

(** Every test of the clients and of the configuration passes on the model. *)
Theorem client_suite_passes : Forall (λ t, t = Ok tt) client_suite.
Proof. vm_compute. by repeat constructor. Qed.
